(* ===== verification/_CoqProject ===== *)
-Q . S2P
Prelude.v
Models.v
Policy.v
Paths.v
StreamRanges.v
StreamManager.v
StreamSafety.v
StreamProperties.v
Layout.v
FastResume.v
Codec.v
SealWorker.v
Coordinator.v
HttpRange.v
Progress.v
Segments.v
ManagedRanges.v
PeerWire.v
PeerProperties.v
Bencode.v
BencodeText.v
BencodeProperties.v
LogQueue.v
LogProperties.v
Runtime.v
RuntimeSafety.v
RuntimeFrame.v
Engine.v
EngineFrame.v
EngineSafety.v
EngineRegistry.v
Scheduler.v
EngineRuns.v
EngineProperties.v
SchedulerTurn.v
Sha256.v
Tables.v
IntentStore.v
StorageStore.v
ResumeStore.v
Library.v
LibraryFrame.v
ResumeFences.v
ResumeSafety.v
ResumeInvariant.v
ResumeMutations.v
ResumeBarriers.v
ResumeProperties.v
FileStorage.v
FileEvidence.v
FileSeal.v
FileReads.v
FileSafety.v
ResumeSystem.v
IntentSafety.v
IntentProperties.v
BlockProperties.v
RootedFiles.v
RootedFrame.v
StorageMove.v
MoveDemo.v
MoveLogic.v
MoveFrame.v
MoveGeometry.v
MoveSafety.v
MoveProperties.v
Transfers.v
PayloadDeletion.v
PayloadProperties.v
DeletionProperties.v
