(* ===== verification/Prelude.v ===== *)
(** * Torrent-Stream-Hub: a verification development

    Torrent-Stream-Hub is a torrent client that serves media while it downloads.
    Its parts and how they interact:

    - The durable library ([src/internal/repository]) is a SQLite database: torrents
      and their catalogs, run intents with revisions, runtime attachments and their
      fences, activation blocks, the mapping of a torrent to its place on disk,
      journals of storage operations, and checkpoints of verified pieces.
    - The engine ([src/internal/engine]) owns the attachments of torrents to the
      vendored torrent library ([src/pkg/anacrolix-torrent]): when a torrent may
      download or upload, which of them hold download slots, which pieces a player
      needs next, and how data in doubt is checked.
    - The file storage of the library ([pkg/anacrolix-torrent/storage]) reads and
      writes payload and keeps the evidence that pieces are verified; together with
      [src/internal/fastresume] and the library it makes that evidence survive a
      restart.
    - The use cases ([src/internal/usecase]) run commands under per-record locks,
      and the storage worker that moves payload to another place.
    - Around them: the wire protocol and the bencoding of the torrent library, the
      log sinks ([src/internal/logging]), HTTP delivery, the web interface.

    ** Conventions

    Fallible Go functions return [result], with the Go error as a value of an
    inductive type and [let?] for the early return; panics are [None] or an error of
    their own.  An [int64] or [uint64] is a [Z], wrapped by [i64] or [u64] where the
    code computes with it and the result may leave the range.  Go strings are byte strings.
    Structs are records with their Go field names, abbreviated by a prefix, and
    [r <| f := v |>] updates a field.  Concurrent code steps by critical sections:
    one event or one step is one region under the mutex, one channel operation, or
    one call that leaves the process, so that every interleaving of the program is a
    sequence of steps.  What the outside answers (disks, probes, SQLite drivers,
    random identities) is an argument of the step, so theorems hold for all answers.
    Pointers that are compared or shared are addresses into a heap of the model.

    ** Files

    Shared:
    - [Prelude]: results, record update, wrapped integers, tactics.
    - [Models]: [internal/models].  [Paths]: what is used of [strings],
      [encoding/hex] and [path/filepath].  [Sha256]: [crypto/sha256].

    Engine:
    - [Policy]: [runtimeTransition] of [runtime_policy.go], the pure state machine
      that decides about permission.
    - [Runtime] (with [RuntimeSafety], [RuntimeFrame]): the operations on one
      [ManagedTorrent] under [admissionMu], from [engine.go], [quiesce.go],
      [priority.go], [download_gate.go], [selection.go], [recheck.go],
      [observations.go], [restore.go], [missing_payload.go], and the refresh of
      peer discovery in [swarm_watchdog.go].
    - [Engine] (with [EngineFrame], [EngineSafety], [EngineRegistry], [EngineRuns],
      [EngineProperties]): the registries and the scheduler as a step function
      over events; [Scheduler] and [SchedulerTurn]: the queue of [resource_manager.go].
    - [StreamRanges], [StreamManager], [StreamSafety], [StreamProperties]: sessions
      and piece priorities of [stream.go].  [Progress]: [progress.go].

    Fast resume:
    - [FastResume], [Codec], [SealWorker]: [policy.go], [codec.go], [worker.go] of
      [internal/fastresume].
    - [FileStorage] (with [FileEvidence], [FileSeal], [FileReads], [FileSafety]):
      the critical sections of the file backend and of its checkpoints;
      [ManagedRanges], [Segments]: range leases and the index of files.
    - [ResumeSystem]: the file storage on top of the durable library.

    Durable library:
    - [Tables]: the schema of [migrations], its triggers, cascades and transactions.
    - [IntentStore], [StorageStore], [ResumeStore]: the operations of
      [internal/repository]; [Library]: all of them as the events of one system.
    - [LibraryFrame], [ResumeFences], [ResumeSafety], [ResumeInvariant],
      [ResumeMutations], [ResumeBarriers], [IntentSafety]: invariants; [ResumeProperties],
      [IntentProperties], [BlockProperties]: theorems.

    Use cases and payload:
    - [Layout]: [internal/payload].  [Coordinator]: [usecase/coordinator.go].
    - [Transfers]: leases of transfers and the cleanup of temporary torrents
      ([temporary.go], [transfer_budget.go]).
    - [RootedFiles], [RootedFrame]: files below the download directory, as a disk
      with identities.  [StorageMove]: the move of a payload ([storage_move.go],
      [storage_move_copy.go], [storage_move_evidence.go],
      [storage_journal_validation.go], and the parts of [storage_commands.go] and
      [storage_worker.go] that drive it) over a world of disk, database and faults.
    - [MoveLogic], [MoveFrame], [MoveGeometry], [MoveSafety]: a small program
      logic for it and its invariant; [MoveDemo]: a library that is run by the
      witnesses; [MoveProperties]: theorems.
    - [PayloadDeletion]: the commands that delete a torrent, retry, cancel or forget
      a deletion, and the removal of payload with the reservation of its paths
      ([temporary_files.go], [ownership.go], [deletion_recovery.go], [Delete] of
      [torrent_uc.go]), over the same worlds; [PayloadProperties],
      [DeletionProperties]: theorems.

    Formats and delivery:
    - [PeerWire], [PeerProperties]: [peer_protocol].  [Bencode], [BencodeText],
      [BencodeProperties]: [bencode].  [LogQueue], [LogProperties]:
      [logging/async.go].  [HttpRange]: the [Range] header of [torrserver].

    ** What is shown

    - Permission: in every reachable engine state an open gate means permission, a
      gate opens only through an admission that is still valid, revocation closes
      it, slots stay within the limit, the first waiting torrent starts once its
      metadata is there, bindings never go back and doubt is settled only by the
      current check.
    - Fast resume: the codec is exact in both directions, the filter and the restore
      admit exactly the supported pieces, every operation that changes what a head
      rests on stops the older seals, a sealed state comes back while its owner is
      untouched, a revoked piece needs a new seal, and, end to end through crashes, a
      piece the library would grant has no unflushed write, provided no
      acknowledgement of a publication is lost ([lost_acknowledgement_gap] of
      [ResumeSystem] is a run into the gap that is left when one is).  Reads serve
      only verified pieces.
    - Durable library: one command per revision, blocks that only their clearance
      lifts, live checkpoints that read back.
    - Moves: under failures, crashes and the user's commands at any call, the mapping
      names a complete tree, before and after the commit, and files that are not part of
      the plan survive.
    - Deletions: with any faults, the files of other torrents survive; wherever a
      deletion stops it can be resumed from the manifest it owes, and the record goes last;
      a cancelled deletion never removes a file again.
    - Concurrency: the coordinator excludes and does not deadlock, range leases
      exclude and progress, leases protect what is being played, the seal worker
      keeps its promise and terminates, log records are delivered once and a stopped
      sink drains.
    - Formats: streams of messages and bencoded values are read back, and nothing
      else is accepted; handshakes agree; layout paths stay below their root; merged
      piece ranges are canonical; the stream manager never panics or leaks.

    ** Bounds

    Recursion that Go does not bound structurally has fuel.  In each case the fuel
    is shown to suffice, or running out of it is the code's own limit:
    - the decoders of [Bencode] and the message loop of [PeerWire] get one more than
      the length of the input, and every round consumes a byte;
    - [walk] of [RootedFiles] gets 129, the depth at which the code gives up;
    - [execute] of [StorageMove] gets 9, one for each stage it can pass, and
      [publishLocation] 2, since a rename falls back to a copy once; a theorem
      states that the worker never runs out;
    - [reserve_attempts] of [PayloadDeletion] gets 16, the code's own limit;
    - [search] of [Progress] halves its interval, [parent_walk] of [FastResume]
      shortens a path, [trim_front] of [HttpRange] a string, [decimal] a number,
      [chunked] a list; the fuel is the size of what they shrink.
    A transition system has no bound: its theorems hold for runs of any length.

    ** Assumptions

    Code outside the repository is an argument of the definitions: the Unicode case
    folding of collision keys (in the theorems about moves and deletions: it works
    element by element), the metadata of torrents, the JSON codec of journals (it reads back what it writes), devices,
    free space, texts of errors.  The witnesses instantiate each of them.

    ** Not modelled

    - Use cases other than the coordinator, the leases, the moves and the deletions:
      adding, location by analysis, inventory, migration and recovery of old
      layouts.  They are long workflows over transactions and engine operations that
      are modelled one by one.
    - In a deletion: other commands that change the library while it runs, except
      the request to cancel (the reservation of its paths is made against them, and
      commands on the same record wait for its lock).
    - In a move: a command reads the record and writes it in one step.
    - In a move or a deletion: symbolic and hard links (the rooted operations refuse them), the
      loss of unflushed data in a power failure, changes by other programs while it
      runs, the alternatives of an earlier recovery; the engine's suspension and the
      volume checks are calls that may fail.
    - The transfer of payload bytes, descriptor caches, part files and timings of
      the file storage; the library client, its connections, trackers and DHT.
    - Bencoding of Go structs by reflection; extended peer messages beyond their
      bytes.
    - Read projections and version counters of the repository, the data transforms
      of migrations, opening and tuning the database.
    - Engine statistics, swarm heuristics over the wall clock, client set-up; closing
      the streams of a torrent that stays, which only tests of the program do.
    - Log files and rotation, configuration, HTTP handlers, metadata fetching, the
      program's start and the web interface: input and output around the parts
      above. *)

From stdpp Require Import base gmap list strings sorting.
From Stdlib Require Import ZArith Lia.

#[global] Set Default Proof Using "Type".

(** ** Results of fallible operations *)

Inductive result (E A : Type) : Type :=
| Ok (a : A)
| Err (e : E).
Arguments Ok {E A} a.
Arguments Err {E A} e.

Declare Scope go_scope.
Delimit Scope go_scope with go.

Notation "'let?' x ':=' c 'in' k" :=
  (match c with Ok x => k | Err e => Err e end)
  (at level 10, x name, c at level 100, k at level 200) : go_scope.
Open Scope go_scope.

Definition is_ok {E A} (r : result E A) : bool :=
  match r with Ok _ => true | Err _ => false end.

(** ** Functional record update

    [r <| f := v |>] is [r] with the field [f] replaced by [v].  A record type
    is made updatable by an instance of [Eta], the expansion of a value into
    its constructor applied to its projections. *)

Class Eta (R : Type) : Type := eta_of : R -> R.
Class Update {R A : Type} (field : R -> A) : Type := update_field : (A -> A) -> R -> R.

Ltac derive_update R field :=
  let inst := constr:(_ : Eta R) in
  let expansion := eval hnf in inst in
  match eval pattern field in expansion with
  | ?context _ => exact (fun change => context (fun r => change (field r)))
  end.

#[export] Hint Extern 0 (@Update ?R _ ?field) => derive_update R field : typeclass_instances.

Notation "r '<|' field ':=' v '|>'" := (update_field (field := field) (fun _ => v) r)
  (at level 1, left associativity, field at level 0, v at level 100) : go_scope.
Notation "r '<|' field '::=' f '|>'" := (update_field (field := field) f r)
  (at level 1, left associativity, field at level 0, f at level 100) : go_scope.

(** ** Machine integers

    Go's [int64] (and [int] on the 64-bit targets the program is built for) is
    a [Z] whose arithmetic results are wrapped; [uint64] likewise.  Go's [/] and
    [%] truncate, which is [Z.quot] and [Z.rem]. *)

#[local] Open Scope Z_scope.

Definition i64 (z : Z) : Z := (z + 2 ^ 63) mod 2 ^ 64 - 2 ^ 63.
Definition u64 (z : Z) : Z := z mod 2 ^ 64.

Definition in_i64 (z : Z) : Prop := - 2 ^ 63 <= z < 2 ^ 63.
Definition max_i64 : Z := 2 ^ 63 - 1.

Lemma i64_id (z : Z) : in_i64 z -> i64 z = z.
Proof. unfold in_i64, i64. intros. rewrite Z.mod_small; lia. Qed.

Lemma i64_range (z : Z) : in_i64 (i64 z).
Proof. unfold in_i64, i64. pose proof (Z.mod_pos_bound (z + 2 ^ 63) (2 ^ 64)). lia. Qed.

Lemma u64_id (z : Z) : 0 <= z < 2 ^ 64 -> u64 z = z.
Proof. intros. by apply Z.mod_small. Qed.

Lemma i64_u64 (z : Z) : in_i64 z -> i64 (u64 z) = z.
Proof.
  unfold in_i64, i64, u64. intros. rewrite Zplus_mod_idemp_l, Z.mod_small; lia.
Qed.

(** Remove the wraps of a goal whose intermediate values are in range. *)
Ltac unwrap := repeat (rewrite i64_id in * by (unfold in_i64; lia)).

(** ** Boolean tests as propositions *)

(** Turn the boolean conditions of the context, as the code tests them, into
    the facts they decide. *)
Ltac split_bools :=
  repeat match goal with
  | H : _ || _ = false |- _ => apply orb_false_iff in H as [? ?]
  | H : _ && _ = true |- _ => apply andb_true_iff in H as [? ?]
  | H : negb _ = true |- _ => apply negb_true_iff in H
  | H : negb _ = false |- _ => apply negb_false_iff in H
  | H : bool_decide _ = true |- _ => apply bool_decide_eq_true in H
  | H : bool_decide _ = false |- _ => apply bool_decide_eq_false in H
  | H : (_ =? _)%string = true |- _ => apply String.eqb_eq in H
  | H : (_ =? _)%string = false |- _ => apply String.eqb_neq in H
  | H : (_ =? _)%nat = true |- _ => apply Nat.eqb_eq in H
  | H : (_ =? _)%nat = false |- _ => apply Nat.eqb_neq in H
  end.
