(* ===== verification/Models.v ===== *)
(** * Models

    The vocabulary of [internal/models]: operational phases, error reasons,
    run intents, activation blocks, file priorities and runtime fences.  Go
    string types whose values are compared against a closed set of constants
    are inductive types here; [ErrorReason] stays a string because the program
    stores free text in it (a disk reason becomes an error reason). *)

From stdpp Require Import base gmap strings.
From Stdlib Require Import ZArith.
From S2P Require Import Prelude.

(** ** Operational phase *)

(** [StateNone] is the zero value [""]; [StateOther] is any string outside the
    declared constants, which can only come from a persisted record. *)
Inductive TorrentState :=
| StateNone
| StateQueued
| StateDownloading
| StateStreaming
| StateSeeding
| StatePaused
| StateError
| StateMissingFiles
| StateDiskFull
| StateOther (s : string).

#[export] Instance TorrentState_eq_dec : EqDecision TorrentState.
Proof. solve_decision. Defined.

(** ** Error reasons *)

Definition ErrorReason : Type := string.

Definition ErrDiskFull : ErrorReason := "Disk full".
Definition ErrMissingFiles : ErrorReason := "Missing files".
Definition ErrVerificationFailed : ErrorReason := "Verification failed".
Definition ErrActivationBlocked : ErrorReason := "Activation blocked".
Definition ErrMetadataPersistence : ErrorReason := "metadata persistence failed".
Definition ErrInvalidSelection : ErrorReason := "Invalid file selection".
Definition ErrNone : ErrorReason := "".

(** ** Run intent *)

(** [RunNone] is the zero value of the Go string type. *)
Inductive RunIntent := RunNone | RunPaused | RunEnabled.

#[export] Instance RunIntent_eq_dec : EqDecision RunIntent.
Proof. solve_decision. Defined.

Definition RunIntent_Valid (v : RunIntent) : bool :=
  bool_decide (v = RunPaused) || bool_decide (v = RunEnabled).

(** ** Fences *)

Record IntentVersion := mkIntentVersion {
  iv_Hash : string;
  iv_RecordID : string;
  iv_Revision : Z;
}.

Record RuntimeFence := mkRuntimeFence {
  rf_version : IntentVersion;
  rf_Attachment : string;
}.

#[export] Instance IntentVersion_eq_dec : EqDecision IntentVersion.
Proof. solve_decision. Defined.
#[export] Instance RuntimeFence_eq_dec : EqDecision RuntimeFence.
Proof. solve_decision. Defined.

Definition zero_fence : RuntimeFence := mkRuntimeFence (mkIntentVersion "" "" 0) "".

(** ** Activation blocks *)

Inductive ActivationBlockKind :=
| BlockVerification
| BlockMissingFiles
| BlockLegacyError
| BlockMetadataPersistence
| BlockInvalidSelection
| BlockOther (s : string).

#[export] Instance ActivationBlockKind_eq_dec : EqDecision ActivationBlockKind.
Proof. solve_decision. Defined.

Definition ActivationBlockKind_Valid (k : ActivationBlockKind) : bool :=
  match k with
  | BlockVerification | BlockMissingFiles | BlockLegacyError
  | BlockMetadataPersistence | BlockInvalidSelection => true
  | BlockOther _ => false
  end.

Definition ResumeRetryable (k : ActivationBlockKind) : bool :=
  match k with
  | BlockLegacyError | BlockMissingFiles | BlockMetadataPersistence
  | BlockInvalidSelection => true
  | BlockVerification | BlockOther _ => false
  end.

(** ** File priorities *)

(** A Go [int]; the three declared values are the valid ones. *)
Definition FilePriority : Type := Z.
Definition PriorityNormal : FilePriority := 0%Z.
Definition PriorityHigh : FilePriority := 1%Z.
Definition PriorityNone : FilePriority := (-1)%Z.

Definition ValidFilePriority (priority : FilePriority) : bool :=
  (priority =? PriorityNormal)%Z || (priority =? PriorityHigh)%Z || (priority =? PriorityNone)%Z.
