(* ===== verification/Policy.v ===== *)
(** * Runtime policy

    The pure state machine of [internal/engine/runtime_policy.go]: the
    independent facts a torrent's runtime owns ([runtimePolicy]), the events
    that change them ([stateEvent]) and the decision each accepted event
    produces ([stateDecision]).  [runtimeTransition] is the single place where
    permission to download or upload is computed. *)

From stdpp Require Import base gmap strings.
From S2P Require Import Prelude Models.

Open Scope string_scope.

(** ** Data *)

Inductive verificationEvent :=
| verificationNone
| verificationBegin
| verificationSucceeded
| verificationFailed
| verificationCancelled
| verificationRestored.

#[export] Instance verificationEvent_eq_dec : EqDecision verificationEvent.
Proof. solve_decision. Defined.

(** [stateUnknown] is any string outside the declared constants. *)
Inductive stateEventKind :=
| stateVerification
| stateSelectionObserved
| stateSlotRequested
| stateSlotReleased
| stateDiskBlocked
| statePaused
| stateRestoreStaged
| stateApplyFailed
| stateMetadataFailed
| stateSelectionInvalid
| stateRegistered
| stateActivated
| stateDeleted
| stateClosed
| statePayloadMissing
| stateUnknown.

#[export] Instance stateEventKind_eq_dec : EqDecision stateEventKind.
Proof. solve_decision. Defined.

Record stateEvent := mkEvent {
  ev_selectionEmpty : bool;
  ev_kind : stateEventKind;
  ev_verification : verificationEvent;
  ev_metadataKnown : bool;
  ev_selectedComplete : bool;
  ev_payloadComplete : bool;
  ev_slotAvailable : bool;
  ev_diskReason : string;
  ev_fullReconcile : bool;
  ev_phase : TorrentState;
  ev_err : ErrorReason;
  ev_staged : bool;
  ev_diskRecovered : bool;
}.

#[export] Instance eta_stateEvent : Eta stateEvent := fun e =>
  mkEvent (ev_selectionEmpty e) (ev_kind e) (ev_verification e) (ev_metadataKnown e)
    (ev_selectedComplete e) (ev_payloadComplete e) (ev_slotAvailable e) (ev_diskReason e)
    (ev_fullReconcile e) (ev_phase e) (ev_err e) (ev_staged e) (ev_diskRecovered e).

(** The composite literal [stateEvent{kind: k}]: every other field is zero. *)
Definition event_of (k : stateEventKind) : stateEvent :=
  mkEvent false k verificationNone false false false false "" false StateNone "" false false.

Record runtimePolicy := mkPolicy {
  selectionEmpty : bool;
  registered : bool;
  terminal : bool;
  run : RunIntent;
  slot : bool;
  checking : bool;
  uncertain : bool;
  initializing : bool;
  verificationFault : bool;
  disk : string;
  metadataFault : ErrorReason;
  selectionFault : ErrorReason;
  missingFault : ErrorReason;
  legacyFault : ErrorReason;
  selectedComplete : bool;
  payloadComplete : bool;
}.

#[export] Instance eta_runtimePolicy : Eta runtimePolicy := fun p =>
  mkPolicy (selectionEmpty p) (registered p) (terminal p) (run p) (slot p) (checking p)
    (uncertain p) (initializing p) (verificationFault p) (disk p) (metadataFault p)
    (selectionFault p) (missingFault p) (legacyFault p) (selectedComplete p) (payloadComplete p).

#[export] Instance runtimePolicy_eq_dec : EqDecision runtimePolicy.
Proof. solve_decision. Defined.

(** [runtimePolicy{}]. *)
Definition zero_policy : runtimePolicy :=
  mkPolicy false false false RunNone false false false false false "" "" "" "" "" false false.

Record verificationFacts := mkFacts {
  vf_state : TorrentState;
  vf_err : ErrorReason;
  vf_checking : bool;
  vf_uncertain : bool;
  vf_initializing : bool;
  vf_diskBlock : string;
}.

(** [stateDecision] with the embedded [verificationDecision] inlined. *)
Record stateDecision := mkDecision {
  d_next : verificationFacts;
  d_closePayload : bool;
  d_closeUpload : bool;
  d_allowUpload : bool;
  d_policy : runtimePolicy;
  d_selectionComplete : bool;
  d_resetDownload : bool;
  d_clearBasePriorities : bool;
  d_closeBackgroundPayload : bool;
  d_invalidateApplied : bool;
  d_terminal : bool;
}.

#[export] Instance eta_stateDecision : Eta stateDecision := fun d =>
  mkDecision (d_next d) (d_closePayload d) (d_closeUpload d) (d_allowUpload d) (d_policy d)
    (d_selectionComplete d) (d_resetDownload d) (d_clearBasePriorities d)
    (d_closeBackgroundPayload d) (d_invalidateApplied d) (d_terminal d).

Definition zero_facts : verificationFacts := mkFacts StateNone "" false false false "".
Definition zero_decision : stateDecision :=
  mkDecision zero_facts false false false zero_policy false false false false false false.

Record StateTransitionError := mkTransitionError {
  te_Event : stateEventKind;
  te_Reason : string;
}.

(** ** Projections of the policy *)

Definition fault (p : runtimePolicy) : TorrentState * ErrorReason :=
  if negb (missingFault p =? "") then (StateMissingFiles, missingFault p)
  else if negb (metadataFault p =? "") then (StateError, metadataFault p)
  else if negb (selectionFault p =? "") then (StateError, selectionFault p)
  else if negb (legacyFault p =? "") then (StateError, legacyFault p)
  else (StateNone, ErrNone).

Definition payloadEligible (p : runtimePolicy) : bool :=
  registered p && negb (terminal p) && bool_decide (run p = RunEnabled)
  && negb (initializing p) && negb (checking p) && negb (uncertain p)
  && negb (verificationFault p) && (disk p =? "") && ((fault p).2 =? ErrNone).

Definition uploadEligible (p : runtimePolicy) : bool :=
  registered p && negb (terminal p) && bool_decide (run p = RunEnabled)
  && negb (initializing p) && negb (checking p) && negb (uncertain p)
  && negb (verificationFault p) && ((fault p).2 =? ErrNone).

Definition projection (p : runtimePolicy) : TorrentState * ErrorReason :=
  if bool_decide (run p = RunPaused) then (StatePaused, ErrNone)
  else if negb (disk p =? "") then (StateDiskFull, disk p)
  else if negb (bool_decide ((fault p).1 = StateNone)) then fault p
  else if verificationFault p && negb (checking p) then (StateError, ErrVerificationFailed)
  else if negb (terminal p) && negb (initializing p) && negb (checking p) && negb (uncertain p) then
    if payloadComplete p && negb (selectionEmpty p) then (StateSeeding, ErrNone)
    else if slot p then (StateDownloading, ErrNone)
    else (StateQueued, ErrNone)
  else (StateQueued, ErrNone).

(** ** The transition

    Each branch of the [switch event.kind] is a definition of its own; it
    returns the new policy [n] and the effects of the decision, or the reason
    of the rejection. *)

Definition known_phase (s : TorrentState) : bool :=
  match s with
  | StatePaused | StateQueued | StateDownloading | StateSeeding | StateStreaming
  | StateDiskFull | StateError | StateMissingFiles => true
  | StateNone | StateOther _ => false
  end.

(** The effect set shared by the branches that close every gate. *)
Definition quiesce_effects (d : stateDecision) : stateDecision :=
  d <| d_resetDownload := true |> <| d_closePayload := true |> <| d_closeUpload := true |>
    <| d_clearBasePriorities := true |> <| d_invalidateApplied := true |>.

(** The guards of the two activation events and the facts they reset. *)
Definition enter_activation (p : runtimePolicy) (event : stateEvent) : result string runtimePolicy :=
  if bool_decide (ev_kind event = stateRegistered) then
    if registered p then Err "already_registered"
    else Ok (p <| registered := true |> <| initializing := ev_staged event |>
               <| disk := ev_diskReason event |>)
  else
    if negb (registered p) then Err "not_registered"
    else if checking p || uncertain p then Err "verification_veto"
    else if initializing p && negb (ev_fullReconcile event) then Err "initialization_veto"
    else
      let n := p <| initializing := false |> in
      Ok (if ev_diskRecovered event then
            n <| disk := "" |> <| metadataFault := "" |> <| selectionFault := "" |>
              <| missingFault := "" |> <| legacyFault := "" |>
          else n).

(** The blockers a compatibility phase carries into the policy. *)
Definition install_phase (n : runtimePolicy) (phase : TorrentState) (err : ErrorReason) : runtimePolicy :=
  match phase with
  | StateMissingFiles => n <| missingFault := ErrMissingFiles |>
  | StateError =>
      if err =? ErrVerificationFailed then n <| verificationFault := true |>
      else if err =? ErrMetadataPersistence then n <| metadataFault := err |>
      else if err =? ErrInvalidSelection then n <| selectionFault := err |>
      else n <| legacyFault := if err =? "" then ErrActivationBlocked else err |>
  | StateDiskFull =>
      if disk n =? "" then n <| disk := if err =? "" then ErrDiskFull else err |> else n
  | _ => n
  end.

Definition step_activation (p : runtimePolicy) (event : stateEvent)
    : result string (runtimePolicy * stateDecision) :=
  if negb (known_phase (ev_phase event)) then Err "unknown_activation_phase"
  else
    let? n := enter_activation p event in
    let n := n <| run := if bool_decide (ev_phase event = StatePaused) then RunPaused else RunEnabled |> in
    let n := install_phase n (ev_phase event) (ev_err event) in
    let n := n <| slot := false |> <| payloadComplete := false |> in
    Ok (n, zero_decision <| d_resetDownload := true |> <| d_closePayload := true |>
             <| d_allowUpload := uploadEligible n |> <| d_closeUpload := negb (uploadEligible n) |>).

Definition step_terminate (p : runtimePolicy) : runtimePolicy * stateDecision :=
  let n := p <| terminal := true |> <| initializing := true |> in
  let n := if checking n then n <| checking := false |> <| uncertain := true |> else n in
  (n <| slot := false |>, quiesce_effects zero_decision).

Definition step_paused (p : runtimePolicy) (event : stateEvent) : runtimePolicy * stateDecision :=
  let n := p <| run := RunPaused |> <| slot := false |> in
  let n := if ev_fullReconcile event then n <| initializing := false |> else n in
  (n, quiesce_effects zero_decision).

Definition step_restore_staged (p : runtimePolicy) : result string (runtimePolicy * stateDecision) :=
  if checking p || uncertain p then Err "verification_veto"
  else Ok (p <| initializing := true |> <| slot := false |>, quiesce_effects zero_decision).

Definition step_verification (p : runtimePolicy) (event : stateEvent)
    : result string (runtimePolicy * stateDecision) :=
  let? n :=
    match ev_verification event with
    | verificationBegin =>
        if checking p || initializing p then Err "verification_conflict"
        else Ok (p <| checking := true |> <| uncertain := true |>
                   <| selectedComplete := false |> <| payloadComplete := false |>)
    | verificationSucceeded | verificationFailed | verificationCancelled =>
        if negb (checking p) then Err "verification_conflict"
        else
          let failed := negb (bool_decide (ev_verification event = verificationSucceeded)) in
          Ok (p <| checking := false |> <| uncertain := failed |> <| verificationFault := failed |>)
    | verificationRestored => Ok (p <| uncertain := true |>)
    | verificationNone => Err "verification_conflict"
    end in
  let n := n <| slot := false |> in
  Ok (n, zero_decision <| d_resetDownload := true |> <| d_closePayload := true |>
           <| d_allowUpload := uploadEligible n |> <| d_closeUpload := negb (uploadEligible n) |>).

Definition step_selection_observed (p : runtimePolicy) (event : stateEvent)
    : result string (runtimePolicy * stateDecision) :=
  if negb (ev_metadataKnown event) then Err "metadata_unknown"
  else if ev_payloadComplete event && negb (ev_selectedComplete event) then Err "inconsistent_completion"
  else if initializing p || checking p || uncertain p then Err "runtime_veto"
  else
    let n := p <| selectedComplete := ev_selectedComplete event |>
               <| payloadComplete := ev_payloadComplete event |>
               <| selectionEmpty := ev_selectionEmpty event |> in
    if selectedComplete n || negb (payloadEligible n) then
      Ok (n <| slot := false |>,
          zero_decision <| d_resetDownload := slot p |> <| d_clearBasePriorities := slot p |>
            <| d_closeBackgroundPayload := slot p |>)
    else Ok (n, zero_decision).

Definition step_slot_requested (p : runtimePolicy) (event : stateEvent)
    : result string (runtimePolicy * stateDecision) :=
  if negb (payloadEligible p) then Err "runtime_veto"
  else if slot p then Err "slot_already_owned"
  else if selectedComplete p || payloadComplete p then Err "selection_complete"
  else if negb (ev_slotAvailable event) then Err "capacity_unavailable"
  else Ok (p <| slot := true |>, zero_decision).

Definition step_slot_released (p : runtimePolicy) : result string (runtimePolicy * stateDecision) :=
  if negb (slot p) then Err "slot_not_owned"
  else Ok (p <| slot := false |>,
           zero_decision <| d_resetDownload := true |> <| d_clearBasePriorities := true |>
             <| d_closeBackgroundPayload := true |>).

Definition step_disk_blocked (p : runtimePolicy) (event : stateEvent)
    : result string (runtimePolicy * stateDecision) :=
  if ev_diskReason event =? "" then Err "empty_disk_reason"
  else Ok (p <| disk := ev_diskReason event |> <| slot := false |>,
           zero_decision <| d_resetDownload := true |> <| d_closePayload := true |>).

Definition step_fault (p : runtimePolicy) (kind : stateEventKind) : runtimePolicy * stateDecision :=
  let n := p <| initializing := true |> <| slot := false |> in
  let n := match kind with
           | stateMetadataFailed => n <| metadataFault := ErrMetadataPersistence |>
           | stateSelectionInvalid => n <| selectionFault := ErrInvalidSelection |>
           | statePayloadMissing => n <| missingFault := ErrMissingFiles |>
           | _ => n
           end in
  (n, quiesce_effects zero_decision).

(** The [switch event.kind] of [runtimeTransition]. *)
Definition step_event (p : runtimePolicy) (event : stateEvent)
    : result string (runtimePolicy * stateDecision) :=
  match ev_kind event with
  | stateRegistered | stateActivated => step_activation p event
  | stateDeleted | stateClosed => Ok (step_terminate p)
  | statePaused => Ok (step_paused p event)
  | stateRestoreStaged => step_restore_staged p
  | stateVerification => step_verification p event
  | stateSelectionObserved => step_selection_observed p event
  | stateSlotRequested => step_slot_requested p event
  | stateSlotReleased => step_slot_released p
  | stateDiskBlocked => step_disk_blocked p event
  | stateApplyFailed | stateMetadataFailed | stateSelectionInvalid | statePayloadMissing =>
      Ok (step_fault p (ev_kind event))
  | stateUnknown => Err "unknown_event"
  end.

(** The fields every accepted decision carries. *)
Definition finish_decision (n : runtimePolicy) (d : stateDecision) : stateDecision :=
  d <| d_policy := n |>
    <| d_next := mkFacts (projection n).1 (projection n).2 (checking n) (uncertain n)
                   (initializing n) (disk n) |>
    <| d_selectionComplete := selectedComplete n |> <| d_terminal := terminal n |>.

Definition runtimeTransition (p : runtimePolicy) (event : stateEvent)
    : result StateTransitionError stateDecision :=
  let reject reason := Err (mkTransitionError (ev_kind event) reason) in
  if terminal p then reject "runtime_terminal"
  else if negb (registered p) && negb (bool_decide (ev_kind event = stateRegistered))
  then reject "not_registered"
  else match step_event p event with
       | Err reason => reject reason
       | Ok (n, d) => Ok (finish_decision n d)
       end.
(** ** Views of the boolean tests *)

Lemma fault_none (p : runtimePolicy) :
  (fault p).2 = ErrNone <->
  missingFault p = "" /\ metadataFault p = "" /\ selectionFault p = "" /\ legacyFault p = "".
Proof.
  unfold fault, ErrNone.
  destruct (String.eqb_spec (missingFault p) ""), (String.eqb_spec (metadataFault p) ""),
    (String.eqb_spec (selectionFault p) ""), (String.eqb_spec (legacyFault p) ""); cbn; intuition congruence.
Qed.

Lemma fault_phase (p : runtimePolicy) : (fault p).1 = StateNone <-> (fault p).2 = ErrNone.
Proof.
  unfold fault, ErrNone.
  destruct (String.eqb_spec (missingFault p) ""), (String.eqb_spec (metadataFault p) ""),
    (String.eqb_spec (selectionFault p) ""), (String.eqb_spec (legacyFault p) ""); cbn; intuition congruence.
Qed.

(** The facts that deny both gates. *)
Record clear (p : runtimePolicy) : Prop := {
  clear_registered : registered p = true;
  clear_terminal : terminal p = false;
  clear_run : run p = RunEnabled;
  clear_initializing : initializing p = false;
  clear_checking : checking p = false;
  clear_uncertain : uncertain p = false;
  clear_verification : verificationFault p = false;
  clear_fault : missingFault p = "" /\ metadataFault p = "" /\ selectionFault p = "" /\ legacyFault p = "";
}.

Lemma uploadEligible_spec (p : runtimePolicy) : uploadEligible p = true <-> clear p.
Proof.
  unfold uploadEligible. rewrite !andb_true_iff, !negb_true_iff, bool_decide_eq_true, String.eqb_eq, fault_none.
  split; [intros; destruct_and?; constructor; tauto | intros []; tauto].
Qed.

Lemma payloadEligible_spec (p : runtimePolicy) : payloadEligible p = true <-> clear p /\ disk p = "".
Proof.
  unfold payloadEligible.
  rewrite !andb_true_iff, !negb_true_iff, bool_decide_eq_true, !String.eqb_eq, fault_none.
  split; [intros; destruct_and?; split; [constructor|]; tauto | intros [[] ?]; tauto].
Qed.

(** ** Inversion of an accepted event *)

(** An accepted event is an accepted branch on a live policy; the decision
    carries the new policy unchanged. *)
Lemma runtimeTransition_inv (p : runtimePolicy) (event : stateEvent) (d : stateDecision) :
  runtimeTransition p event = Ok d ->
  terminal p = false /\ (registered p = true \/ ev_kind event = stateRegistered) /\
  exists n d0, step_event p event = Ok (n, d0) /\ d = finish_decision n d0.
Proof.
  unfold runtimeTransition. intros H.
  destruct (terminal p); [done|]. split; [done|].
  destruct (negb (registered p) && _) eqn:Hr; [done|].
  destruct (step_event p event) as [[n d0]|]; [|done]. simplify_eq.
  split; [|by eauto].
  destruct (registered p); [by left|]. right. cbn in Hr.
  apply negb_false_iff in Hr. by apply bool_decide_eq_true in Hr.
Qed.

(** Split an accepted branch into its cases, one per path of the source. *)
Ltac step_cases H :=
  unfold step_event, step_activation, enter_activation, install_phase, step_restore_staged,
    step_verification, step_selection_observed, step_slot_requested, step_slot_released,
    step_disk_blocked, step_terminate, step_paused, step_fault, quiesce_effects in H;
  repeat (case_match; simplify_eq/=).

(** ** Invariant *)

(** What every policy the engine can reach satisfies: a reserved slot belongs to
    an eligible, unfinished torrent; a complete payload completes the selection;
    a running check is an open question; a terminated runtime is closed; a
    registered runtime has an intent. *)
Record policy_ok (p : runtimePolicy) : Prop := {
  ok_slot : slot p = true -> payloadEligible p = true /\ selectedComplete p = false;
  ok_complete : payloadComplete p = true -> selectedComplete p = true;
  ok_checking : checking p = true -> uncertain p = true;
  ok_terminal : terminal p = true -> initializing p = true /\ checking p = false;
  ok_run : registered p = true -> run p <> RunNone;
  ok_unregistered : registered p = false -> p = zero_policy;
}.

Lemma zero_policy_ok : policy_ok zero_policy.
Proof. by constructor. Qed.

(** Eligibility does not depend on slot or completion facts. *)
Lemma payloadEligible_ext (p q : runtimePolicy) :
  registered p = registered q -> terminal p = terminal q -> run p = run q ->
  initializing p = initializing q -> checking p = checking q -> uncertain p = uncertain q ->
  verificationFault p = verificationFault q -> disk p = disk q -> fault p = fault q ->
  payloadEligible p = payloadEligible q.
Proof. unfold payloadEligible. by intros -> -> -> -> -> -> -> -> ->. Qed.

Lemma step_event_ok (p : runtimePolicy) (event : stateEvent) n d0 :
  policy_ok p -> terminal p = false ->
  (registered p = true \/ ev_kind event = stateRegistered) ->
  step_event p event = Ok (n, d0) -> policy_ok n.
Proof.
  intros Hok Ht Hr H.
  step_cases H.
  all: destruct Hok as [Hslot Hcomplete Hcheck Hterm Hrun Hunreg].
  all: split_bools.
  all: try (destruct Hr as [Hr|Hr]; [|congruence]).
  all: constructor; cbn; intros; try done; try (split; [|done]); try congruence; auto.
  all: by destruct (ev_selectedComplete event), (ev_payloadComplete event).
Qed.

(** Policies reachable from registration on by accepted events. *)
Inductive reachable : runtimePolicy -> Prop :=
| reach_zero : reachable zero_policy
| reach_step p event d :
    reachable p -> runtimeTransition p event = Ok d -> reachable (d_policy d).

Lemma transition_ok (p : runtimePolicy) (event : stateEvent) (d : stateDecision) :
  policy_ok p -> runtimeTransition p event = Ok d -> policy_ok (d_policy d).
Proof.
  intros Hok (Ht & Hr & n & d0 & Hs & ->)%runtimeTransition_inv.
  by eapply step_event_ok.
Qed.

Lemma reachable_ok (p : runtimePolicy) : reachable p -> policy_ok p.
Proof. induction 1; eauto using zero_policy_ok, transition_ok. Qed.

(** Unfold an accepted transition into the accepted branches. *)
Ltac transition_cases H :=
  let Ht := fresh "Hterminal" in let Hr := fresh "Hregistered" in
  let Hs := fresh "Hstep" in
  apply runtimeTransition_inv in H as (Ht & Hr & ? & ? & Hs & ->);
  step_cases Hs; split_bools; try (destruct Hr as [Hr|Hr]; [|congruence]).

(** ** Properties *)

(** C3: every policy the engine reaches from an unregistered runtime keeps the
    runtime invariant: a reserved download slot implies download eligibility and
    unfinished selection, a complete payload implies a complete selection, a
    running check keeps the verification question open, and a deleted or closed
    runtime stays initialising (closed). *)
Theorem reachable_policy_invariant (p : runtimePolicy) (event : stateEvent) (d : stateDecision) :
  reachable p -> runtimeTransition p event = Ok d ->
  policy_ok p /\ policy_ok (d_policy d).
Proof. intros Hr H. split; eauto using reachable_ok, transition_ok. Qed.

(** C6: no accepted event revokes download permission without telling the
    caller to close the library's payload gate, and none revokes upload
    permission without closing the upload gate. *)
Theorem revocation_closes_gates (p : runtimePolicy) (event : stateEvent) (d : stateDecision) :
  runtimeTransition p event = Ok d ->
  (payloadEligible p = true -> payloadEligible (d_policy d) = false -> d_closePayload d = true) /\
  (uploadEligible p = true -> uploadEligible (d_policy d) = false -> d_closeUpload d = true).
Proof.
  intros H. split; intros Hp Hn; transition_cases H; cbn in *; try done;
    first [by rewrite Hn | exact (eq_trans (eq_sym Hn) Hp)].
Qed.

(** an accepted decision opens the upload gate only for a runtime that may
    upload, never together with closing it, and a granted download slot only
    comes from a slot request with free capacity on an eligible runtime. *)
Theorem grants_are_justified (p : runtimePolicy) (event : stateEvent) (d : stateDecision) :
  runtimeTransition p event = Ok d ->
  (d_allowUpload d = true -> uploadEligible (d_policy d) = true /\ d_closeUpload d = false) /\
  (slot p = false -> slot (d_policy d) = true ->
     ev_kind event = stateSlotRequested /\ ev_slotAvailable event = true /\
     payloadEligible p = true /\ selectedComplete p = false /\ payloadComplete p = false).
Proof.
  intros H. split; intros.
  - transition_cases H; cbn in *; try done; split; try done; by apply negb_false_iff.
  - transition_cases H; cbn in *; try congruence; auto.
Qed.

(** deletion and shutdown are final: the resulting policy permits neither
    download nor upload, and every later event is rejected. *)
Theorem termination_is_final (p : runtimePolicy) (event : stateEvent) (d : stateDecision) :
  ev_kind event = stateDeleted \/ ev_kind event = stateClosed ->
  runtimeTransition p event = Ok d ->
  payloadEligible (d_policy d) = false /\ uploadEligible (d_policy d) = false /\
  d_closePayload d = true /\ d_closeUpload d = true /\
  forall later, runtimeTransition (d_policy d) later =
                Err (mkTransitionError (ev_kind later) "runtime_terminal").
Proof.
  intros Hk H. transition_cases H; cbn in *; try (destruct Hk; congruence).
  all: unfold payloadEligible, uploadEligible; cbn; rewrite ?andb_false_r; auto.
Qed.

(** a verification veto is lifted only by a check that was running and
    succeeded: no other accepted event turns an uncertain runtime into a
    certain one. *)
Theorem uncertainty_needs_successful_check (p : runtimePolicy) (event : stateEvent) (d : stateDecision) :
  runtimeTransition p event = Ok d ->
  uncertain p = true -> uncertain (d_policy d) = false ->
  ev_kind event = stateVerification /\ ev_verification event = verificationSucceeded /\
  checking p = true.
Proof. intros H Hu Hn. transition_cases H; cbn in *; try congruence; auto. Qed.

(** a disk prohibition is sticky: only an activation that carries a
    successful disk recovery clears a non-empty disk reason. *)
Theorem disk_block_is_sticky (p : runtimePolicy) (event : stateEvent) (d : stateDecision) :
  runtimeTransition p event = Ok d ->
  registered p = true -> disk p <> "" -> disk (d_policy d) = "" ->
  ev_kind event = stateActivated /\ ev_diskRecovered event = true.
Proof. intros H Hr Hp Hn. transition_cases H; cbn in *; try congruence; auto. Qed.

(** Without vetoes the phase is decided by completion and the slot alone. *)
Lemma projection_clear (p : runtimePolicy) :
  clear p -> disk p = "" ->
  projection p = ((if payloadComplete p && negb (selectionEmpty p) then StateSeeding
                   else if slot p then StateDownloading else StateQueued), ErrNone).
Proof.
  intros [] Hd. assert ((fault p).1 = StateNone) as Hf by by apply fault_phase, fault_none.
  unfold projection. rewrite clear_run0, Hd, Hf, clear_verification0, clear_terminal0,
    clear_initializing0, clear_checking0, clear_uncertain0. cbn. by repeat case_match.
Qed.

(** A phase other than the resting ones means that no veto is installed. *)
Lemma projection_active (p : runtimePolicy) :
  policy_ok p ->
  (projection p).1 = StateDownloading \/ (projection p).1 = StateSeeding ->
  clear p /\ disk p = "".
Proof.
  intros Hok H. unfold projection in H.
  destruct (bool_decide (run p = RunPaused)) eqn:Hrun; [naive_solver|].
  destruct (disk p =? "") eqn:Hdisk; cbn in H; [|naive_solver].
  destruct (bool_decide ((fault p).1 = StateNone)) eqn:Hf; cbn in H.
  2: { split_bools. unfold fault in H, Hf. repeat case_match; naive_solver. }
  destruct (verificationFault p && negb (checking p)) eqn:Hv; [naive_solver|].
  destruct (negb (terminal p) && _ && _ && _) eqn:Hc; [|naive_solver].
  split_bools. split; [|done].
  destruct (registered p) eqn:Hr.
  2: { apply (ok_unregistered _ Hok) in Hr. subst p. cbn in H. naive_solver. }
  pose proof (ok_run _ Hok Hr).
  constructor; try done.
  - by destruct (run p).
  - by destruct (verificationFault p); [destruct (checking p)|].
  - apply fault_none, fault_phase. done.
Qed.

(** the displayed phase never overstates permission: a reachable runtime is
    shown as Downloading exactly when it owns a slot, and Downloading or Seeding
    only when it may download and upload. *)
Theorem active_phase_is_permitted (p : runtimePolicy) :
  reachable p ->
  ((projection p).1 = StateDownloading <-> slot p = true) /\
  ((projection p).1 = StateDownloading \/ (projection p).1 = StateSeeding ->
   payloadEligible p = true /\ uploadEligible p = true).
Proof.
  intros Hok%reachable_ok. split.
  - split.
    + intros H. destruct (projection_active p Hok (or_introl H)) as [Hc Hd].
      rewrite projection_clear in H by done. by repeat case_match.
    + intros H. destruct (ok_slot _ Hok H) as [[Hc Hd]%payloadEligible_spec Hs].
      rewrite projection_clear, H by done.
      destruct (payloadComplete p) eqn:E; [|done]. apply (ok_complete _ Hok) in E. congruence.
  - intros H%projection_active; [|done].
    rewrite payloadEligible_spec, uploadEligible_spec. naive_solver.
Qed.

(** ** Witnesses *)

Definition register_event (phase : TorrentState) : stateEvent :=
  (event_of stateRegistered) <| ev_phase := phase |>.

(** A runtime registered as queued, with an observed incomplete selection. *)
Definition queued_policy : runtimePolicy :=
  zero_policy <| registered := true |> <| run := RunEnabled |>.

Lemma queued_reachable : reachable queued_policy.
Proof. by apply (reach_step zero_policy (register_event StateQueued) _ reach_zero eq_refl). Qed.

Definition slot_event : stateEvent := (event_of stateSlotRequested) <| ev_slotAvailable := true |>.

Lemma reachable_policy_invariant_witness :
  policy_ok queued_policy /\
  policy_ok (d_policy (finish_decision (queued_policy <| slot := true |>) zero_decision)).
Proof.
  exact (reachable_policy_invariant queued_policy slot_event
           (finish_decision (queued_policy <| slot := true |>) zero_decision)
           queued_reachable eq_refl).
Defined.

(** Helper for the remaining witnesses: run one event on a policy. *)
Definition decide_event (p : runtimePolicy) (event : stateEvent) : stateDecision :=
  match runtimeTransition p event with Ok d => d | Err _ => zero_decision end.

Lemma revocation_closes_gates_witness :
  d_closePayload (decide_event queued_policy (event_of statePaused)) = true /\
  d_closeUpload (decide_event queued_policy (event_of statePaused)) = true.
Proof.
  destruct (revocation_closes_gates queued_policy (event_of statePaused) _ eq_refl) as [H1 H2].
  split; [by apply H1 | by apply H2].
Defined.

Lemma grants_are_justified_witness :
  payloadEligible queued_policy = true /\ selectedComplete queued_policy = false.
Proof.
  destruct (grants_are_justified queued_policy slot_event _ eq_refl) as [_ H].
  destruct H as (_ & _ & ? & ? & _); [done | done | done].
Defined.

Lemma termination_is_final_witness :
  payloadEligible (d_policy (decide_event queued_policy (event_of stateDeleted))) = false.
Proof. by apply (termination_is_final queued_policy (event_of stateDeleted) _ (or_introl eq_refl) eq_refl). Defined.

Definition verify_event (v : verificationEvent) : stateEvent :=
  (event_of stateVerification) <| ev_verification := v |>.

Definition checking_policy : runtimePolicy :=
  d_policy (decide_event queued_policy (verify_event verificationBegin)).

Lemma uncertainty_needs_successful_check_witness : checking checking_policy = true.
Proof.
  by apply (uncertainty_needs_successful_check checking_policy (verify_event verificationSucceeded) _
           eq_refl eq_refl eq_refl).
Defined.

Definition blocked_policy : runtimePolicy :=
  d_policy (decide_event queued_policy ((event_of stateDiskBlocked) <| ev_diskReason := "Disk full" |>)).

Definition recover_event : stateEvent :=
  (event_of stateActivated) <| ev_phase := StateQueued |> <| ev_diskRecovered := true |>.

Lemma disk_block_is_sticky_witness : ev_diskRecovered recover_event = true.
Proof.
  by apply (disk_block_is_sticky blocked_policy recover_event (decide_event blocked_policy recover_event)
           eq_refl eq_refl ltac:(discriminate) eq_refl).
Defined.

Lemma active_phase_is_permitted_witness :
  (projection (queued_policy <| slot := true |>)).1 = StateDownloading.
Proof.
  apply (active_phase_is_permitted (queued_policy <| slot := true |>)); [|done].
  exact (reach_step queued_policy slot_event _ queued_reachable eq_refl).
Defined.
