(* ===== verification/Paths.v ===== *)
(** * Go strings and slash-separated paths

    Go strings are byte strings, which is what Rocq's [string] is.  This file
    models what the program uses of [strings], [encoding/hex] and (Unix)
    [path/filepath], and proves the facts about cleaned relative paths that the
    storage layout relies on. *)

From stdpp Require Import base list strings.
From Stdlib Require Import Ascii Lia.
From S2P Require Import Prelude.

#[local] Open Scope string_scope.
#[local] Arguments Ascii.eqb : simpl never.
#[local] Arguments String.append : simpl nomatch.

(** ** strings *)

Fixpoint contains_char (c : ascii) (s : string) : bool :=
  match s with
  | EmptyString => false
  | String a s => Ascii.eqb a c || contains_char c s
  end.

(** [strings.HasPrefix(s, p)]. *)
Fixpoint has_prefix (s p : string) {struct p} : bool :=
  match p, s with
  | EmptyString, _ => true
  | String a p, String b s => Ascii.eqb a b && has_prefix s p
  | String _ _, EmptyString => false
  end.

(** [strings.CutPrefix(s, p)]. *)
Fixpoint cut_prefix (s p : string) {struct p} : option string :=
  match p, s with
  | EmptyString, _ => Some s
  | String a p, String b s => if Ascii.eqb a b then cut_prefix s p else None
  | String _ _, EmptyString => None
  end.

(** [strings.Split(s, sep)] for a one-byte separator. *)
Fixpoint split_on (c : ascii) (s : string) : list string :=
  match s with
  | EmptyString => [""]
  | String a s =>
      if Ascii.eqb a c then "" :: split_on c s
      else match split_on c s with
           | part :: parts => String a part :: parts
           | [] => [String a ""]
           end
  end.

(** [strings.Join(parts, sep)]. *)
Fixpoint join_with (c : ascii) (parts : list string) : string :=
  match parts with
  | [] => ""
  | [part] => part
  | part :: rest => part ++ String c (join_with c rest)
  end.

(** ASCII lower case.  Every use of [strings.ToLower] modelled with it compares
    a prefix with ASCII constants free of [i] and [k], the only letters a
    non-ASCII rune lower-cases to. *)
Definition lower_char (c : ascii) : ascii :=
  let n := nat_of_ascii c in
  if (65 <=? n)%nat && (n <=? 90)%nat then ascii_of_nat (n + 32) else c.

Fixpoint lower (s : string) : string :=
  match s with
  | EmptyString => EmptyString
  | String c s => String (lower_char c) (lower s)
  end.

(** [hex.DecodeString(s)] succeeds: even length and hexadecimal digits only. *)
Definition is_hex_char (c : ascii) : bool :=
  let n := nat_of_ascii c in
  ((48 <=? n) && (n <=? 57) || (97 <=? n) && (n <=? 102) || (65 <=? n) && (n <=? 70))%nat.

Fixpoint all_chars (f : ascii -> bool) (s : string) : bool :=
  match s with
  | EmptyString => true
  | String c s => f c && all_chars f s
  end.

Definition hex_ok (s : string) : bool := Nat.even (String.length s) && all_chars is_hex_char s.

(** ** path/filepath on Unix *)

Abbreviation slash := "/"%char.

Definition is_abs (path : string) : bool := has_prefix path "/".

(** One element of the path against the elements kept so far (innermost first). *)
Definition clean_step (rooted : bool) (kept : list string) (part : string) : list string :=
  if (part =? "") || (part =? ".") then kept
  else if part =? ".." then
    match kept with
    | top :: rest => if top =? ".." then part :: kept else rest
    | [] => if rooted then [] else [part]
    end
  else part :: kept.

Definition clean_parts (path : string) : list string :=
  rev (fold_left (clean_step (is_abs path)) (split_on slash path) []).

(** [filepath.Clean]. *)
Definition clean (path : string) : string :=
  if path =? "" then "."
  else
    let body := join_with slash (clean_parts path) in
    if is_abs path then String slash body
    else if body =? "" then "." else body.

Definition has_dots (path : string) : bool :=
  existsb (fun part => (part =? ".") || (part =? "..")) (split_on slash path).

(** [filepath.IsLocal]. *)
Definition is_local (path : string) : bool :=
  if is_abs path || (path =? "") then false
  else
    let path := if has_dots path then clean path else path in
    negb ((path =? "..") || has_prefix path "../").

(** The part of a path up to and including its last slash. *)
Fixpoint dir_part (s : string) : string :=
  match s with
  | EmptyString => ""
  | String c rest =>
      if contains_char slash s then String c (dir_part rest) else ""
  end.

(** [filepath.Dir]. *)
Definition dir (path : string) : string := clean (dir_part path).

(** [filepath.Ext]: the suffix from the last dot of the last path element. *)
Fixpoint path_ext_from (s : string) (best : string) : string :=
  match s with
  | EmptyString => best
  | String c rest =>
      if Ascii.eqb c slash then path_ext_from rest EmptyString
      else if Ascii.eqb c "."%char then path_ext_from rest s
      else path_ext_from rest best
  end.

Definition path_ext (s : string) : string := path_ext_from s EmptyString.

(** [filepath.Join] of two elements. *)
Definition path_join (a b : string) : string :=
  if a =? "" then (if b =? "" then "" else clean b)
  else clean (join_with slash [a; b]).

(** ** Splitting and joining *)

Definition no_slash (s : string) : Prop := contains_char slash s = false.

(** An ordinary path element. *)
Definition plain (s : string) : Prop := s <> "" /\ s <> "." /\ s <> ".." /\ no_slash s.

#[export] Instance plain_dec (s : string) : Decision (plain s).
Proof. unfold plain, no_slash. apply _. Defined.

Lemma split_on_nonempty c s : split_on c s <> [].
Proof. destruct s as [|a s]; cbn; [done|]. destruct (Ascii.eqb a c); [done|]. by destruct (split_on c s). Qed.

Lemma split_on_no_sep c s : contains_char c s = false -> split_on c s = [s].
Proof.
  induction s as [|a s IH]; cbn; [done|].
  destruct (Ascii.eqb a c); cbn; [done|]. intros H. by rewrite IH.
Qed.

Lemma split_on_app c part s :
  contains_char c part = false ->
  split_on c (part ++ String c s) = part :: split_on c s.
Proof.
  induction part as [|a part IH]; cbn.
  - intros _. by rewrite Ascii.eqb_refl.
  - destruct (Ascii.eqb a c); cbn; [done|]. intros H. by rewrite IH.
Qed.

Lemma split_on_app_sep c s t :
  split_on c (s ++ String c t) = (split_on c s ++ split_on c t)%list.
Proof.
  induction s as [|a s IH]; cbn.
  - by rewrite Ascii.eqb_refl.
  - destruct (Ascii.eqb a c); cbn; [by rewrite IH|]. rewrite IH.
    pose proof (split_on_nonempty c s). by destruct (split_on c s).
Qed.

Lemma join_with_cons c part rest :
  rest <> [] -> join_with c (part :: rest) = part ++ String c (join_with c rest).
Proof. by destruct rest. Qed.

(** Joining elements without separators and splitting again gives them back. *)
Lemma split_join c parts :
  parts <> [] -> Forall (fun s => contains_char c s = false) parts ->
  split_on c (join_with c parts) = parts.
Proof.
  induction parts as [|part rest IH]; [done|]. intros _ [Hp Hr]%Forall_cons.
  destruct rest as [|next rest]; [by apply split_on_no_sep|].
  rewrite join_with_cons, split_on_app by done. by rewrite IH.
Qed.

Lemma join_split c s : join_with c (split_on c s) = s.
Proof.
  induction s as [|a s IH]; cbn; [done|].
  destruct (Ascii.eqb_spec a c) as [->|Hne].
  - rewrite join_with_cons by apply split_on_nonempty. by rewrite IH.
  - pose proof (split_on_nonempty c s). destruct (split_on c s) as [|part [|next rest]]; [done|..].
    + cbn in *. by rewrite IH.
    + rewrite join_with_cons in IH |- * by done. by rewrite <-IH.
Qed.

Lemma split_no_sep c s : Forall (fun p => contains_char c p = false) (split_on c s).
Proof.
  induction s as [|a s IH]; cbn; [by repeat constructor|].
  destruct (Ascii.eqb a c) eqn:E; [by constructor|].
  destruct (split_on c s) as [|part rest]; [by repeat constructor; cbn; rewrite E|].
  apply Forall_cons in IH as [? ?]. constructor; [cbn; by rewrite E|done].
Qed.

(** ** Cleaned paths *)

(** The elements a relative path keeps: leading dot-dots, then plain elements.
    [kept] is innermost first. *)
Definition kept_ok (kept : list string) : Prop :=
  exists inner outer, kept = (inner ++ outer)%list /\ Forall plain inner /\ Forall (fun s => s = "..") outer.

Lemma clean_step_ok kept part :
  no_slash part -> kept_ok kept -> kept_ok (clean_step false kept part).
Proof.
  intros Hpart (inner & outer & -> & Hin & Hout). unfold clean_step.
  destruct (String.eqb_spec part ""); [by exists inner, outer|].
  destruct (String.eqb_spec part "."); [by exists inner, outer|]. cbn.
  destruct (String.eqb_spec part "..") as [->|].
  - destruct inner as [|top inner]; cbn.
    + destruct outer as [|top outer]; [exists [], [".."]; by repeat constructor|].
      pose proof Hout as [-> ?]%Forall_cons. cbn. exists [], (".." :: ".." :: outer). by repeat constructor.
    + apply Forall_cons in Hin as [(? & ? & Htop & ?) Hin].
      destruct (String.eqb_spec top ".."); [done|]. by exists inner, outer.
  - exists (part :: inner), outer. repeat split; try done. constructor; [|done]. by repeat split.
Qed.

Lemma clean_parts_ok path : is_abs path = false -> kept_ok (rev (clean_parts path)).
Proof.
  intros Habs. unfold clean_parts. rewrite rev_involutive, Habs.
  generalize (split_no_sep slash path). generalize (split_on slash path) as parts.
  assert (kept_ok []) as H0 by by exists [], []. revert H0. generalize (@nil string) as kept.
  intros kept Hkept parts Hparts. revert kept Hkept.
  induction Hparts as [|part parts Hp _ IH]; cbn; [done|]. intros kept Hkept.
  apply IH. by apply clean_step_ok.
Qed.

(** A clean step keeps plain elements. *)
Lemma fold_clean_plain rooted parts kept :
  Forall plain parts -> fold_left (clean_step rooted) parts kept = (rev parts ++ kept)%list.
Proof.
  intros Hp. revert kept. induction Hp as [|part parts (H1 & H2 & H3 & H4) _ IH]; [done|]. intros kept. cbn.
  rewrite IH, <-app_assoc. f_equal. unfold clean_step.
  destruct (String.eqb_spec part ""), (String.eqb_spec part "."), (String.eqb_spec part ".."); done.
Qed.

Lemma plain_no_slash parts : Forall plain parts -> Forall no_slash parts.
Proof. intros H. eapply Forall_impl; [exact H|]. by intros s (_ & _ & _ & ?). Qed.

Lemma has_prefix_slash c s : has_prefix (String c s) "/" = Ascii.eqb c slash.
Proof. cbn. rewrite andb_true_r. apply Ascii.eqb_sym. Qed.

Lemma append_assoc (a b c : string) : (a ++ b) ++ c = a ++ (b ++ c).
Proof. induction a as [|x a IH]; cbn; [done|]. by rewrite IH. Qed.

Lemma append_empty (a b : string) : a ++ b = "" -> a = "" /\ b = "".
Proof. by destruct a, b. Qed.

(** The shape of a join of plain elements. *)
Lemma join_plain parts :
  parts <> [] -> Forall plain parts ->
  join_with slash parts <> "" /\ is_abs (join_with slash parts) = false.
Proof.
  intros Hne Hp. destruct parts as [|part rest]; [done|].
  apply Forall_cons in Hp as [(He & _ & _ & Hs) _].
  destruct part as [|c part]; [done|].
  assert (exists t, join_with slash (String c part :: rest) = String c t) as [t ->].
  { destruct rest; [by exists part|]. rewrite join_with_cons by done. cbn. by eexists. }
  split; [done|]. unfold is_abs. rewrite has_prefix_slash.
  unfold no_slash in Hs. cbn in Hs. by destruct (Ascii.eqb c slash).
Qed.

(** Cleaning is the identity on a join of plain elements. *)
Lemma clean_join_plain parts :
  parts <> [] -> Forall plain parts -> clean (join_with slash parts) = join_with slash parts.
Proof.
  intros Hne Hp. destruct (join_plain parts Hne Hp) as [Hj Ha].
  unfold clean, clean_parts. rewrite Ha, split_join by (done || by apply plain_no_slash).
  rewrite fold_clean_plain, app_nil_r, rev_involutive by done.
  destruct (String.eqb_spec (join_with slash parts) ""); done.
Qed.

(** [kept_ok] without leading dot-dots. *)
Lemma kept_ok_local kept :
  kept_ok kept -> (forall rest, rev kept <> ".." :: rest) -> Forall plain kept.
Proof.
  intros (inner & outer & -> & Hin & Hout) Hlocal.
  destruct outer as [|o outer _] using rev_ind; [by rewrite app_nil_r|].
  apply Forall_app in Hout as [_ [-> _]%Forall_cons].
  exfalso. apply (Hlocal (rev (inner ++ outer)%list)). by rewrite app_assoc, rev_app_distr.
Qed.

Lemma has_dots_false path :
  has_dots path = false -> Forall (fun s => s <> "." /\ s <> "..") (split_on slash path).
Proof.
  unfold has_dots. induction (split_on slash path) as [|part parts IH]; cbn; [by constructor|].
  destruct (String.eqb_spec part "."), (String.eqb_spec part ".."); cbn; try done.
  intros H. constructor; auto.
Qed.

(** Without dot elements a step only drops empty elements. *)
Lemma clean_no_dots parts kept :
  Forall (fun s => s <> "." /\ s <> "..") parts -> Forall no_slash parts -> Forall plain kept ->
  Forall plain (fold_left (clean_step false) parts kept).
Proof.
  intros Hd Hs. revert kept. induction parts as [|part parts IH]; cbn; [done|]. intros kept Hk.
  apply Forall_cons in Hd as [[? ?] Hd]. apply Forall_cons in Hs as [? Hs].
  apply IH; [done..|]. unfold clean_step.
  destruct (String.eqb_spec part ""); [done|]. destruct (String.eqb_spec part "."); [done|].
  destruct (String.eqb_spec part ".."); [done|]. cbn. constructor; [by repeat split|done].
Qed.

Lemma join_dotdot rest :
  has_prefix (join_with slash (".." :: rest)) "../" = true \/ join_with slash (".." :: rest) = "..".
Proof.
  destruct rest as [|r rest]; [by right|]. left. rewrite join_with_cons by done.
  reflexivity.
Qed.

(** A local path cleans to plain elements only: it cannot leave its root. *)
Lemma is_local_plain path : is_local path = true -> Forall plain (clean_parts path).
Proof.
  unfold is_local. destruct (is_abs path) eqn:Habs; [done|].
  destruct (String.eqb_spec path ""); [done|]. cbn [orb]. intros Hl.
  destruct (has_dots path) eqn:Hd.
  - pose proof (clean_parts_ok path Habs) as Hk.
    rewrite <-(rev_involutive (clean_parts path)). apply Forall_rev.
    apply kept_ok_local; [done|]. rewrite rev_involutive. intros rest Heq.
    unfold clean in Hl. rewrite Habs, Heq in Hl.
    destruct (String.eqb_spec path ""); [done|].
    assert (join_with slash (".." :: rest) <> "") as Hne by by destruct rest.
    destruct (String.eqb_spec (join_with slash (".." :: rest)) ""); [done|].
    destruct (join_dotdot rest) as [H|H]; rewrite H in Hl; [by rewrite orb_true_r in Hl|done].
  - unfold clean_parts. rewrite Habs. apply Forall_rev, clean_no_dots; [by apply has_dots_false| |done].
    apply split_no_sep.
Qed.

(** The cleaned form of a relative path that is not the root itself. *)
Lemma clean_local path :
  is_local path = true -> clean path <> "." ->
  clean_parts path <> [] /\ clean path = join_with slash (clean_parts path).
Proof.
  intros Hl Hdot. assert (is_abs path = false /\ path <> "") as [Habs Hne].
  { unfold is_local in Hl. destruct (is_abs path); [done|]. split; [done|].
    by destruct (String.eqb_spec path ""). }
  unfold clean in *. rewrite Habs in *. destruct (String.eqb_spec path ""); [done|].
  destruct (String.eqb_spec (join_with slash (clean_parts path)) "") as [|Hj]; [done|].
  split; [|done]. intros H. by rewrite H in Hj.
Qed.

(** Joining a relative directory with plain elements appends them to what the
    directory cleans to. *)
Lemma path_join_plain a b :
  a <> "" -> is_abs a = false -> b <> [] -> Forall plain b ->
  Forall plain (clean_parts a) ->
  path_join a (join_with slash b) = join_with slash (clean_parts a ++ b)%list.
Proof.
  intros Hne Habs Hnb Hb Ha. unfold path_join.
  destruct (String.eqb_spec a ""); [done|]. cbn [join_with].
  assert (is_abs (a ++ String slash (join_with slash b)) = false) as Habs'.
  { destruct a; [done|]. unfold is_abs in *. cbn [String.append]. by rewrite has_prefix_slash in *. }
  assert (clean_parts (a ++ String slash (join_with slash b)) = (clean_parts a ++ b)%list) as Hparts.
  { unfold clean_parts. rewrite Habs', Habs, split_on_app_sep, fold_left_app.
    rewrite (split_join slash b) by (done || by apply plain_no_slash).
    rewrite fold_clean_plain by done. by rewrite rev_app_distr, rev_involutive. }
  unfold clean. rewrite Habs', Hparts.
  destruct (String.eqb_spec (a ++ String slash (join_with slash b)) "") as [H|_]; [by destruct a|].
  destruct (join_plain (clean_parts a ++ b)%list) as [Hj _]; [by destruct (clean_parts a)|by apply Forall_app|].
  by destruct (String.eqb_spec (join_with slash (clean_parts a ++ b)%list) "").
Qed.

(** ** Parents *)

Lemma contains_char_app c s t : contains_char c (s ++ String c t) = true.
Proof. induction s as [|a s IH]; cbn; [by rewrite Ascii.eqb_refl|]. by rewrite IH, orb_true_r. Qed.

Lemma dir_part_plain x : no_slash x -> dir_part x = "".
Proof. unfold no_slash. destruct x as [|a x]; [done|]. cbn [dir_part]. by intros ->. Qed.

Lemma dir_part_app s x : no_slash x -> dir_part (s ++ String slash x) = s ++ "/".
Proof.
  intros Hx. induction s as [|a s IH].
  - change ("" ++ String slash x) with (String slash x). cbn [dir_part contains_char].
    rewrite Ascii.eqb_refl. cbn [orb]. by rewrite dir_part_plain.
  - change (String a s ++ String slash x) with (String a (s ++ String slash x)). cbn [dir_part].
    rewrite (contains_char_app slash (String a s) x : contains_char slash (String a (s ++ String slash x)) = true).
    by rewrite IH.
Qed.

Lemma clean_trailing_slash parts :
  parts <> [] -> Forall plain parts -> clean (join_with slash parts ++ "/") = join_with slash parts.
Proof.
  intros Hne Hp. destruct (join_plain parts Hne Hp) as [Hj Ha]. unfold clean, clean_parts.
  assert (is_abs (join_with slash parts ++ "/") = false) as Habs.
  { destruct (join_with slash parts) as [|c s]; [done|]. unfold is_abs in *. cbn [String.append].
    by rewrite has_prefix_slash in *. }
  rewrite Habs, split_on_app_sep, split_join, fold_left_app by (done || by apply plain_no_slash).
  rewrite (fold_clean_plain false parts [] Hp).
  cbn. rewrite app_nil_r, rev_involutive.
  destruct (String.eqb_spec (join_with slash parts ++ "/") "") as [[? _]%append_empty|_]; [done|].
  by destruct (String.eqb_spec (join_with slash parts) "").
Qed.

Lemma join_snoc init x :
  init <> [] -> join_with slash (init ++ [x])%list = join_with slash init ++ String slash x.
Proof.
  intros H. induction init as [|a init IH]; [done|]. destruct init as [|b init]; [done|].
  rewrite <-app_comm_cons, !(join_with_cons slash a), IH by done. by rewrite append_assoc.
Qed.

(** [filepath.Dir] drops the last element; the parent of a single element is [.]. *)
Lemma dir_join init x :
  Forall plain (init ++ [x])%list ->
  dir (join_with slash (init ++ [x])%list) = match init with [] => "." | _ => join_with slash init end.
Proof.
  rewrite Forall_app, Forall_singleton. intros [Hi (_ & _ & _ & Hx)]. unfold dir.
  destruct init as [|a init]; [cbn [app join_with]; by rewrite dir_part_plain|].
  by rewrite join_snoc, dir_part_app, clean_trailing_slash.
Qed.

Lemma append_length (s t : string) : String.length (s ++ t) = (String.length s + String.length t)%nat.
Proof. induction s as [|a s IH]; cbn; [done|]. by rewrite IH. Qed.

Lemma join_length parts : Forall plain parts -> (length parts <= String.length (join_with slash parts))%nat.
Proof.
  induction 1 as [|x parts (Hx & _) _ IH]; [done|]. destruct parts as [|y parts].
  - destruct x; [done|]. cbn. lia.
  - rewrite join_with_cons, append_length by done. destruct x; [done|]. cbn in *. lia.
Qed.

(** ** ASCII lower case *)

Lemma lower_app s t : lower (s ++ t) = lower s ++ lower t.
Proof. induction s as [|a s IH]; cbn; [done|]. by rewrite IH. Qed.

Lemma lower_char_fixed a c : c = slash \/ c = "."%char -> lower_char a = c -> a = c.
Proof.
  intros Hc Ha. unfold lower_char in Ha. destruct (_ && _) eqn:E; [|done]. exfalso.
  apply andb_true_iff in E as [H1%Nat.leb_le H2%Nat.leb_le].
  assert (nat_of_ascii c = (nat_of_ascii a + 32)%nat) as Hn by (rewrite <-Ha; apply nat_ascii_embedding; lia).
  assert (nat_of_ascii slash = 47%nat /\ nat_of_ascii "."%char = 46%nat) as [? ?] by done.
  destruct Hc as [-> | ->]; lia.
Qed.

Lemma lower_plain s : plain s -> plain (lower s).
Proof.
  intros (H1 & H2 & H3 & H4). split_and!.
  - by destruct s.
  - destruct s as [|a [|b s]]; try done. cbn. intros [= Ha]. by rewrite (lower_char_fixed _ _ (or_intror eq_refl) Ha) in H2.
  - destruct s as [|a [|b [|c s]]]; try done. cbn. intros [= Ha Hb].
    by rewrite (lower_char_fixed _ _ (or_intror eq_refl) Ha), (lower_char_fixed _ _ (or_intror eq_refl) Hb) in H3.
  - unfold no_slash in *. clear H1 H2 H3. induction s as [|a s IH]; [done|]. cbn [contains_char lower] in *.
    apply orb_false_iff in H4 as [Ha Hs]. rewrite (IH Hs), orb_false_r.
    apply Ascii.eqb_neq in Ha. apply Ascii.eqb_neq. intros Hl. by apply Ha, (lower_char_fixed a slash (or_introl eq_refl)).
Qed.

Lemma lower_join parts : lower (join_with slash parts) = join_with slash (map lower parts).
Proof.
  induction parts as [|x parts IH]; [done|]. destruct parts as [|y parts]; [done|].
  rewrite (join_with_cons slash x) by done. cbn [map] in *.
  rewrite (join_with_cons slash (lower x)) by done. rewrite lower_app, <-IH. done.
Qed.
