(* ===== verification/StreamRanges.v ===== *)
(** * Stream piece ranges

    The range arithmetic behind streaming in [internal/engine/stream.go]: which
    pieces of a file a playback session needs ([computeStreamPieceRangesForBounds])
    and how the ranges of many sessions are merged ([mergeStreamPieceRanges]). *)

From stdpp Require Import base list sorting strings.
From Stdlib Require Import ZArith Lia.
From S2P Require Import Prelude Paths.

#[local] Open Scope Z_scope.

(** ** Data *)

Definition defaultStreamHeadPrebuffer : Z := Z.shiftl 20 20.
Definition defaultStreamTailPieces : Z := 4.
Definition defaultStreamBehindPieces : Z := 2.
Definition defaultStreamSlidingWindow : Z := Z.shiftl 20 20.

Record streamPieceRange := mkRange { Begin : Z; End : Z }.

#[export] Instance streamPieceRange_eq_dec : EqDecision streamPieceRange.
Proof. solve_decision. Defined.

Record streamFileBounds := mkBounds {
  sb_Offset : Z;
  sb_Length : Z;
  sb_BeginPiece : Z;
  sb_EndPiece : Z;
  sb_DisplayPath : string;
}.

Record StreamOptions := mkOptions {
  so_RangeStart : Z;
  so_RangeEnd : Z;
  so_HasRange : bool;
  so_IsHEAD : bool;
  so_SkipQoS : bool;
  so_WindowBytes : Z;
  so_AccountingOnly : bool;
}.

(** ** Merging *)

(** The comparison of [sort.Slice]: by begin, then by end. *)
Definition range_le (r s : streamPieceRange) : Prop :=
  Begin r < Begin s \/ (Begin r = Begin s /\ End r <= End s).

#[export] Instance range_le_dec : RelDecision range_le.
Proof. unfold range_le. intros r s. apply _. Defined.

(** The loop over the sorted items; [last] is the last element of [merged],
    which the source extends in place. *)
Fixpoint merge_from (last : streamPieceRange) (items : list streamPieceRange) : list streamPieceRange :=
  match items with
  | [] => [last]
  | r :: rest =>
      if Begin r <=? End last then
        merge_from (mkRange (Begin last) (if End last <? End r then End r else End last)) rest
      else last :: merge_from r rest
  end.

Definition mergeStreamPieceRanges (ranges : list streamPieceRange) : list streamPieceRange :=
  let items := base.filter (fun r => Begin r < End r) ranges in
  match merge_sort range_le items with
  | [] => []
  | first :: rest => merge_from first rest
  end.

Fixpoint streamRangesContainPiece (ranges : list streamPieceRange) (piece : Z) : bool :=
  match ranges with
  | [] => false
  | r :: rest =>
      if (Begin r <=? piece) && (piece <? End r) then true
      else streamRangesContainPiece rest piece
  end.

(** [cloneStreamPieceRanges] copies a slice; values are immutable here. *)
Definition cloneStreamPieceRanges (ranges : list streamPieceRange) : list streamPieceRange :=
  match ranges with [] => [] | _ => ranges end.

(** ** The pieces of one session *)

Definition minPositiveInt64 (a b : Z) : Z :=
  if a <=? 0 then b else if b <=? 0 then a else if a <? b then a else b.

Definition maxInt (a b : Z) : Z := if a >? b then a else b.

(** The pieces a byte region of the file touches, clipped to the file. *)
Definition streamByteRegionPieces (bounds : streamFileBounds) (pieceLength relOffset size : Z)
    : option streamPieceRange :=
  let '(relOffset, size) := if relOffset <? 0 then (0, i64 (size + relOffset)) else (relOffset, size) in
  if (size <=? 0) || (sb_Length bounds <=? relOffset) then None
  else
    let size := if i64 (relOffset + size) >? sb_Length bounds
                then i64 (sb_Length bounds - relOffset) else size in
    let absStart := i64 (sb_Offset bounds + relOffset) in
    let absEnd := i64 (absStart + size) in
    let begin := Z.quot absStart pieceLength in
    let fin := Z.quot (i64 (i64 (absEnd + pieceLength) - 1)) pieceLength in
    let begin := if begin <? sb_BeginPiece bounds then sb_BeginPiece bounds else begin in
    let fin := if fin >? sb_EndPiece bounds then sb_EndPiece bounds else fin in
    if fin <=? begin then None else Some (mkRange begin fin).

(** [strings.ToLower(filepath.Ext(path))] compared with three constants, to which
    only ASCII letters lower-case. *)
Definition streamFileHasTailMetadata (path : string) : bool :=
  let ext := lower (path_ext path) in
  String.eqb ext ".mp4" || String.eqb ext ".mov" || String.eqb ext ".m4v".

Definition opt_list {A} (o : option A) : list A := match o with Some x => [x] | None => [] end.

(** The window the session asks for, then the configured one, then the default. *)
Definition session_window (streamCacheSize : Z) (opts : StreamOptions) : Z :=
  let w := so_WindowBytes opts in
  let w := if w <=? 0 then streamCacheSize else w in
  if w <=? 0 then defaultStreamSlidingWindow else w.

Definition computeStreamPieceRangesForBounds (bounds : streamFileBounds)
    (pieceLength streamCacheSize : Z) (opts : StreamOptions) : list streamPieceRange :=
  if (sb_Length bounds <=? 0) || (pieceLength <=? 0) || (sb_EndPiece bounds <=? sb_BeginPiece bounds)
  then []
  else
    let windowBytes := session_window streamCacheSize opts in
    let headBytes :=
      if so_WindowBytes opts >? 0 then minPositiveInt64 (so_WindowBytes opts) (sb_Length bounds)
      else minPositiveInt64 defaultStreamHeadPrebuffer (sb_Length bounds) in
    let head := opt_list (streamByteRegionPieces bounds pieceLength 0 headBytes) in
    let tail :=
      if streamFileHasTailMetadata (sb_DisplayPath bounds) then
        let begin := i64 (sb_EndPiece bounds - defaultStreamTailPieces) in
        let begin := if begin <? sb_BeginPiece bounds then sb_BeginPiece bounds else begin in
        [mkRange begin (sb_EndPiece bounds)]
      else [] in
    let playhead := if so_RangeStart opts <? 0 then 0 else so_RangeStart opts in
    if sb_Length bounds <=? playhead then mergeStreamPieceRanges (head ++ tail)
    else
      let remaining := i64 (sb_Length bounds - playhead) in
      let windowBytes := if windowBytes >? remaining then remaining else windowBytes in
      let window :=
        match streamByteRegionPieces bounds pieceLength playhead windowBytes with
        | Some r =>
            let begin := i64 (Begin r - defaultStreamBehindPieces) in
            let begin := if begin <? sb_BeginPiece bounds then sb_BeginPiece bounds else begin in
            [mkRange begin (End r)]
        | None => []
        end in
      mergeStreamPieceRanges (head ++ tail ++ window).

(** ** Coverage *)

Definition covered (ranges : list streamPieceRange) (piece : Z) : Prop :=
  Exists (fun r => Begin r <= piece < End r) ranges.

Lemma contain_spec (ranges : list streamPieceRange) (piece : Z) :
  streamRangesContainPiece ranges piece = true <-> covered ranges piece.
Proof.
  unfold covered. induction ranges as [|r rest IH]; cbn.
  - split; [done|]. by intros ?%Exists_nil.
  - rewrite Exists_cons, <-IH.
    destruct (Z.leb_spec (Begin r) piece), (Z.ltb_spec piece (End r)); cbn; intuition lia.
Qed.

Lemma covered_app (a b : list streamPieceRange) (p : Z) :
  covered (a ++ b) p <-> covered a p \/ covered b p.
Proof. apply Exists_app. Qed.

(** A normal form: non-empty ranges, in order, with a gap between neighbours. *)
Definition separated (ranges : list streamPieceRange) : Prop :=
  Forall (fun r => Begin r < End r) ranges /\ StronglySorted (fun r s => End r < Begin s) ranges.

Lemma separated_inv (r : streamPieceRange) (rest : list streamPieceRange) :
  separated (r :: rest) ->
  Begin r < End r /\ Forall (fun s => End r < Begin s) rest /\ separated rest.
Proof. intros [[? ?]%Forall_cons [? ?]%StronglySorted_inv]. repeat split; done. Qed.

Lemma separated_above (r : streamPieceRange) (rest : list streamPieceRange) (p : Z) :
  separated (r :: rest) -> covered rest p -> End r < p.
Proof.
  intros (_ & Hab & _)%separated_inv Hc.
  apply Exists_exists in Hc as (s & Hs & ?).
  rewrite Forall_forall in Hab. specialize (Hab s Hs). lia.
Qed.

Lemma covered_cons (r : streamPieceRange) (rest : list streamPieceRange) (p : Z) :
  covered (r :: rest) p <-> Begin r <= p < End r \/ covered rest p.
Proof. apply Exists_cons. Qed.

(** The first range of a normal form starts at the least covered piece and ends
    at the first gap. *)
Lemma separated_head_le (r s : streamPieceRange) (a b : list streamPieceRange) :
  separated (r :: a) -> separated (s :: b) ->
  (forall p, covered (r :: a) p -> covered (s :: b) p) ->
  Begin s <= Begin r /\ (Begin s = Begin r -> End r <= End s).
Proof.
  intros Ha Hb Hsub.
  pose proof (separated_inv _ _ Ha) as (Hr & _ & _).
  pose proof (separated_inv _ _ Hb) as (Hs & _ & _).
  split.
  - specialize (Hsub (Begin r)). rewrite !covered_cons in Hsub.
    destruct Hsub as [?|Hc]; [lia..|]. apply (separated_above s b) in Hc; [lia|done].
  - intros Heq. apply Z.nlt_ge. intros Hlt.
    specialize (Hsub (End s)). rewrite !covered_cons in Hsub.
    destruct Hsub as [?|Hc]; [lia..|]. apply (separated_above s b) in Hc; [lia|done].
Qed.

(** Lists in normal form are determined by the pieces they cover. *)
Lemma separated_unique (a b : list streamPieceRange) :
  separated a -> separated b -> (forall p, covered a p <-> covered b p) -> a = b.
Proof.
  revert b. induction a as [|r a IH]; intros [|s b] Ha Hb Heq; [done|..].
  - apply separated_inv in Hb as (? & _).
    assert (covered [] (Begin s)) as Hc by (apply Heq; constructor; lia). by inversion Hc.
  - apply separated_inv in Ha as (? & _).
    assert (covered [] (Begin r)) as Hc by (apply Heq; constructor; lia). by inversion Hc.
  - destruct (separated_head_le r s a b) as [H1 H2]; [done..|by intros; apply Heq|].
    destruct (separated_head_le s r b a) as [H3 H4]; [done..|by intros; apply Heq|].
    assert (r = s) as <-.
    { destruct r as [rb re], s as [sb se]; cbn in *. f_equal; lia. }
    f_equal. apply IH; [by eapply separated_inv..|].
    intros p. specialize (Heq p). rewrite !covered_cons in Heq.
    split; intros Hc; [pose proof (separated_above r a p Ha Hc)|pose proof (separated_above r b p Hb Hc)];
      destruct Heq as [Hl Hr']; [destruct (Hl (or_intror Hc))|destruct (Hr' (or_intror Hc))]; done || lia.
Qed.

(** ** Merging computes the normal form *)

Lemma merge_from_spec (items : list streamPieceRange) : forall last,
  Begin last < End last ->
  Forall (fun r => Begin r < End r) items ->
  StronglySorted range_le (last :: items) ->
  separated (merge_from last items) /\
  Forall (fun r => Begin last <= Begin r) (merge_from last items) /\
  (forall p, covered (merge_from last items) p <-> covered (last :: items) p).
Proof.
  induction items as [|r rest IH]; intros last Hlast Hpos Hsort; cbn.
  - split; [|split]; [split; repeat constructor; done|repeat constructor; lia|done].
  - apply Forall_cons in Hpos as [Hr Hrest].
    apply StronglySorted_inv in Hsort as [Hsort Hle].
    pose proof Hle as [Hlr Hle']%Forall_cons.
    pose proof Hsort as [Hsort' Hrle]%StronglySorted_inv.
    destruct (Z.leb_spec (Begin r) (End last)).
    + destruct (IH (mkRange (Begin last) (if End last <? End r then End r else End last)))
        as (Hs & Hf & Hc); cbn.
      * destruct (Z.ltb_spec (End last) (End r)); lia.
      * done.
      * constructor; [done|]. rewrite Forall_forall in Hle', Hrle |- *. intros s Hin.
        specialize (Hle' s Hin). specialize (Hrle s Hin). unfold range_le in *; cbn.
        destruct (Z.ltb_spec (End last) (End r)); lia.
      * split; [done|]. split; [done|]. intros p. rewrite Hc, !covered_cons. cbn.
        unfold range_le in Hlr. destruct (Z.ltb_spec (End last) (End r)); intuition lia.
    + destruct (IH r Hr Hrest Hsort) as ((Hs1 & Hs2) & Hf & Hc). split; [|split].
      * split; [by constructor|]. constructor; [done|].
        eapply Forall_impl; [exact Hf|]. cbn. lia.
      * constructor; [lia|]. eapply Forall_impl; [exact Hf|]. cbn. unfold range_le in Hlr. lia.
      * intros p. rewrite !covered_cons, Hc, covered_cons. tauto.
Qed.

#[export] Instance range_le_total : Total range_le.
Proof. intros r s. unfold range_le. lia. Qed.
#[export] Instance range_le_trans : Transitive range_le.
Proof. intros r s t. unfold range_le. lia. Qed.

Lemma covered_filter (ranges : list streamPieceRange) (p : Z) :
  covered (base.filter (fun r => Begin r < End r) ranges) p <-> covered ranges p.
Proof.
  unfold covered. rewrite !Exists_exists. setoid_rewrite list_elem_of_filter.
  split; [naive_solver|]. intros (r & ? & ?). exists r. repeat split; try done; lia.
Qed.

Lemma covered_perm (a b : list streamPieceRange) (p : Z) :
  a ≡ₚ b -> covered a p <-> covered b p.
Proof. intros Hp. unfold covered. by rewrite Hp. Qed.

Lemma merge_spec (ranges : list streamPieceRange) :
  separated (mergeStreamPieceRanges ranges) /\
  forall p, covered (mergeStreamPieceRanges ranges) p <-> covered ranges p.
Proof.
  unfold mergeStreamPieceRanges.
  set (items := base.filter (fun r => Begin r < End r) ranges).
  pose proof (merge_sort_Permutation range_le items) as Hperm.
  pose proof (StronglySorted_merge_sort range_le items) as Hsort.
  assert (Forall (fun r => Begin r < End r) (merge_sort range_le items)) as Hpos.
  { rewrite Hperm. apply Forall_forall. by intros r [? _]%list_elem_of_filter. }
  assert (forall p, covered (merge_sort range_le items) p <-> covered ranges p) as Hcov.
  { intros p. rewrite (covered_perm _ _ p Hperm). apply covered_filter. }
  destruct (merge_sort range_le items) as [|first rest].
  - split; [by repeat constructor|done].
  - apply Forall_cons in Hpos as [? ?].
    destruct (merge_from_spec rest first) as (? & _ & Hc); [done..|].
    split; [done|]. intros p. by rewrite Hc.
Qed.

(** ** Properties *)

(** C22: merging the ranges of the sessions keeps exactly the pieces asked for and
    yields the unique list of non-empty, ordered ranges with gaps between them:
    two range lists merge to the same result exactly when they ask for the same
    pieces, so the (random) order in which the sessions are visited is
    irrelevant. *)
Theorem merge_is_canonical (a b : list streamPieceRange) :
  separated (mergeStreamPieceRanges a) /\
  (forall p, streamRangesContainPiece (mergeStreamPieceRanges a) p = streamRangesContainPiece a p) /\
  (mergeStreamPieceRanges a = mergeStreamPieceRanges b <->
   forall p, streamRangesContainPiece a p = streamRangesContainPiece b p).
Proof.
  destruct (merge_spec a) as [Hsa Hca], (merge_spec b) as [Hsb Hcb].
  split; [done|]. split.
  - intros p. apply Bool.eq_iff_eq_true. by rewrite !contain_spec.
  - split.
    + intros Heq p. apply Bool.eq_iff_eq_true. by rewrite !contain_spec, <-Hca, Heq, Hcb.
    + intros Heq. apply separated_unique; [done..|]. intros p.
      by rewrite Hca, Hcb, <-!contain_spec, Heq.
Qed.

(** ** The pieces of a session

    [bounds_ok] is what [computeStreamPieceRanges] builds from a file of the
    torrent: the piece indices of its extent, in [int64] range. *)

Record bounds_ok (bounds : streamFileBounds) (pieceLength : Z) : Prop := {
  bok_piece : 0 < pieceLength;
  bok_offset : 0 <= sb_Offset bounds;
  bok_length : 0 < sb_Length bounds;
  bok_fits : sb_Offset bounds + sb_Length bounds + pieceLength < 2 ^ 63;
  bok_begin : sb_BeginPiece bounds = sb_Offset bounds / pieceLength;
  bok_end : sb_EndPiece bounds = (sb_Offset bounds + sb_Length bounds + pieceLength - 1) / pieceLength;
}.

(** The piece of a byte lies below the ceiling of any later byte position. *)
Lemma piece_below_ceiling (x y pl : Z) : 0 < pl -> x < y -> x / pl < (y + pl - 1) / pl.
Proof.
  intros. apply Z.lt_le_trans with (x / pl + 1); [lia|].
  replace (x / pl + 1) with ((x + 1 * pl) / pl) by (rewrite Z.div_add; lia).
  apply Z.div_le_mono; lia.
Qed.

Lemma region_pieces (bounds : streamFileBounds) (pl rel size : Z) :
  bounds_ok bounds pl -> 0 <= rel -> 0 < size -> rel + size <= sb_Length bounds ->
  streamByteRegionPieces bounds pl rel size =
  Some (mkRange ((sb_Offset bounds + rel) / pl) ((sb_Offset bounds + rel + size + pl - 1) / pl)).
Proof.
  intros [Hpl Hoff Hlen Hfit Hb He] Hrel Hsize Hin. unfold streamByteRegionPieces.
  destruct (Z.ltb_spec rel 0); [lia|].
  destruct (Z.leb_spec size 0); [lia|]. destruct (Z.leb_spec (sb_Length bounds) rel); [lia|]. cbn.
  rewrite (i64_id (rel + size)) by (unfold in_i64; lia).
  destruct (Z.gtb_spec (rel + size) (sb_Length bounds)); [lia|].
  rewrite (i64_id (sb_Offset bounds + rel)) by (unfold in_i64; lia).
  rewrite (i64_id (sb_Offset bounds + rel + size)) by (unfold in_i64; lia).
  rewrite (i64_id (sb_Offset bounds + rel + size + pl)) by (unfold in_i64; lia).
  rewrite (i64_id (sb_Offset bounds + rel + size + pl - 1)) by (unfold in_i64; lia).
  rewrite !Z.quot_div_nonneg by lia.
  assert (sb_Offset bounds / pl <= (sb_Offset bounds + rel) / pl) by (apply Z.div_le_mono; lia).
  assert ((sb_Offset bounds + rel + size + pl - 1) / pl <=
          (sb_Offset bounds + sb_Length bounds + pl - 1) / pl) by (apply Z.div_le_mono; lia).
  pose proof (piece_below_ceiling (sb_Offset bounds + rel) (sb_Offset bounds + rel + size) pl).
  rewrite Hb, He.
  destruct (Z.ltb_spec ((sb_Offset bounds + rel) / pl) (sb_Offset bounds / pl)); [lia|].
  destruct (Z.gtb_spec ((sb_Offset bounds + rel + size + pl - 1) / pl)
              ((sb_Offset bounds + sb_Length bounds + pl - 1) / pl)); [lia|].
  destruct (Z.leb_spec ((sb_Offset bounds + rel + size + pl - 1) / pl) ((sb_Offset bounds + rel) / pl)); [lia|].
  done.
Qed.

(** Every byte of a region lies in a piece of its range. *)
Lemma region_covers (bounds : streamFileBounds) (pl rel size byte : Z) :
  bounds_ok bounds pl -> rel <= byte < rel + size ->
  (sb_Offset bounds + rel) / pl <= (sb_Offset bounds + byte) / pl
    < (sb_Offset bounds + rel + size + pl - 1) / pl.
Proof.
  intros [] Hb. split; [apply Z.div_le_mono; lia|]. apply piece_below_ceiling; lia.
Qed.

(** The effective window and head of a session. *)
Definition session_playhead (opts : StreamOptions) : Z := Z.max 0 (so_RangeStart opts).
Definition session_head (bounds : streamFileBounds) (opts : StreamOptions) : Z :=
  Z.min (sb_Length bounds)
    (if so_WindowBytes opts >? 0 then so_WindowBytes opts else defaultStreamHeadPrebuffer).

Lemma minPositiveInt64_pos (a b : Z) : 0 < a -> 0 < b -> minPositiveInt64 a b = Z.min b a.
Proof.
  intros. unfold minPositiveInt64.
  destruct (Z.leb_spec a 0), (Z.leb_spec b 0), (Z.ltb_spec a b); lia.
Qed.

Lemma session_window_pos (cache : Z) (opts : StreamOptions) : 0 < session_window cache opts.
Proof.
  unfold session_window, defaultStreamSlidingWindow.
  change (Z.shiftl 20 20) with 20971520.
  repeat match goal with |- context [?a <=? ?b] => destruct (Z.leb_spec a b) end; lia.
Qed.

Definition window_range (bounds : streamFileBounds) (pl cache : Z) (opts : StreamOptions) : streamPieceRange :=
  let playhead := session_playhead opts in
  let size := Z.min (session_window cache opts) (sb_Length bounds - playhead) in
  mkRange (Z.max (sb_BeginPiece bounds) ((sb_Offset bounds + playhead) / pl - defaultStreamBehindPieces))
    ((sb_Offset bounds + playhead + size + pl - 1) / pl).

(** The computed ranges, without the wrap-around and clipping detail. *)
Lemma compute_ranges_eq (bounds : streamFileBounds) (pl cache : Z) (opts : StreamOptions) :
  bounds_ok bounds pl ->
  computeStreamPieceRangesForBounds bounds pl cache opts =
  mergeStreamPieceRanges
    ([mkRange (sb_BeginPiece bounds) ((sb_Offset bounds + session_head bounds opts + pl - 1) / pl)] ++
     (if streamFileHasTailMetadata (sb_DisplayPath bounds)
      then [mkRange (Z.max (sb_BeginPiece bounds) (sb_EndPiece bounds - defaultStreamTailPieces)) (sb_EndPiece bounds)]
      else []) ++
     (if session_playhead opts <? sb_Length bounds then [window_range bounds pl cache opts] else [])).
Proof.
  intros Hok. pose proof Hok as [Hpl Hoff Hlen Hfit Hb He].
  pose proof (session_window_pos cache opts) as Hw.
  pose proof (piece_below_ceiling (sb_Offset bounds) (sb_Offset bounds + sb_Length bounds) pl) as Hne.
  assert (0 <= sb_BeginPiece bounds) by (rewrite Hb; apply Z.div_pos; lia).
  assert (sb_EndPiece bounds <= sb_Offset bounds + sb_Length bounds + pl).
  { rewrite He. transitivity (sb_Offset bounds + sb_Length bounds + pl - 1); [apply Z.div_le_upper_bound; nia|lia]. }
  unfold computeStreamPieceRangesForBounds.
  destruct (Z.leb_spec (sb_Length bounds) 0); [lia|]. destruct (Z.leb_spec pl 0); [lia|].
  destruct (Z.leb_spec (sb_EndPiece bounds) (sb_BeginPiece bounds)); [lia|]. cbn [orb].
  assert ((if so_WindowBytes opts >? 0 then minPositiveInt64 (so_WindowBytes opts) (sb_Length bounds)
           else minPositiveInt64 defaultStreamHeadPrebuffer (sb_Length bounds)) = session_head bounds opts) as ->.
  { unfold session_head, defaultStreamHeadPrebuffer. change (Z.shiftl 20 20) with 20971520.
    destruct (Z.gtb_spec (so_WindowBytes opts) 0); by rewrite minPositiveInt64_pos by lia. }
  assert (0 < session_head bounds opts <= sb_Length bounds) as Hhead.
  { unfold session_head, defaultStreamHeadPrebuffer. change (Z.shiftl 20 20) with 20971520.
    destruct (Z.gtb_spec (so_WindowBytes opts) 0); lia. }
  rewrite (region_pieces bounds pl 0 (session_head bounds opts)) by (done || lia).
  rewrite !Z.add_0_r, <-Hb. cbn [opt_list].
  unfold window_range, defaultStreamTailPieces, defaultStreamBehindPieces, session_playhead.
  rewrite (i64_id (sb_EndPiece bounds - 4)) by (unfold in_i64; lia).
  assert ((if sb_EndPiece bounds - 4 <? sb_BeginPiece bounds then sb_BeginPiece bounds
           else sb_EndPiece bounds - 4) = Z.max (sb_BeginPiece bounds) (sb_EndPiece bounds - 4)) as ->
    by (destruct (Z.ltb_spec (sb_EndPiece bounds - 4) (sb_BeginPiece bounds)); lia).
  assert ((if so_RangeStart opts <? 0 then 0 else so_RangeStart opts) = Z.max 0 (so_RangeStart opts)) as ->
    by (destruct (Z.ltb_spec (so_RangeStart opts) 0); lia).
  set (ph := Z.max 0 (so_RangeStart opts)). assert (0 <= ph) by lia.
  destruct (Z.leb_spec (sb_Length bounds) ph).
  { destruct (Z.ltb_spec ph (sb_Length bounds)); [lia|]. by rewrite app_nil_r. }
  destruct (Z.ltb_spec ph (sb_Length bounds)); [|lia].
  rewrite (i64_id (sb_Length bounds - ph)) by (unfold in_i64; lia).
  assert ((if session_window cache opts >? sb_Length bounds - ph then sb_Length bounds - ph
           else session_window cache opts) = Z.min (session_window cache opts) (sb_Length bounds - ph)) as ->
    by (destruct (Z.gtb_spec (session_window cache opts) (sb_Length bounds - ph)); lia).
  rewrite region_pieces by (done || lia). cbn [Begin End].
  assert (0 <= (sb_Offset bounds + ph) / pl <= sb_Offset bounds + ph).
  { split; [apply Z.div_pos; lia|apply Z.div_le_upper_bound; nia]. }
  rewrite i64_id by (unfold in_i64; lia).
  do 4 f_equal. f_equal.
  destruct (Z.ltb_spec ((sb_Offset bounds + ph) / pl - 2) (sb_BeginPiece bounds)); lia.
Qed.

(** the ranges of a session stay inside the file and contain the piece of
    every byte of its read-ahead window: from the playhead (a negative range start
    counts as zero) for as many bytes as the session, the configuration or the
    default ask for, up to the end of the file; and of the prebuffered head. *)
Theorem session_ranges_cover_window (bounds : streamFileBounds) (pieceLength cache : Z)
    (opts : StreamOptions) (byte : Z) :
  bounds_ok bounds pieceLength ->
  0 <= byte < session_head bounds opts \/
  session_playhead opts <= byte < Z.min (sb_Length bounds) (session_playhead opts + session_window cache opts) ->
  streamRangesContainPiece (computeStreamPieceRangesForBounds bounds pieceLength cache opts)
    ((sb_Offset bounds + byte) / pieceLength) = true.
Proof.
  intros Hok Hbyte. rewrite compute_ranges_eq by done.
  apply contain_spec, merge_spec. rewrite !covered_app.
  pose proof (session_window_pos cache opts).
  destruct Hbyte as [Hbyte|Hbyte].
  - left. constructor. cbn. rewrite (bok_begin _ _ Hok).
    pose proof (region_covers bounds pieceLength 0 (session_head bounds opts) byte Hok).
    rewrite !Z.add_0_r in H0. lia.
  - right. right. destruct (Z.ltb_spec (session_playhead opts) (sb_Length bounds)); [|lia].
    constructor. unfold window_range. cbn.
    pose proof (region_covers bounds pieceLength (session_playhead opts)
      (Z.min (session_window cache opts) (sb_Length bounds - session_playhead opts)) byte Hok) as Hc.
    pose proof (bok_begin _ _ Hok) as Hb.
    assert (sb_Offset bounds / pieceLength <= (sb_Offset bounds + byte) / pieceLength).
    { destruct Hok. apply Z.div_le_mono; [lia|]. unfold session_playhead in *. lia. }
    unfold defaultStreamBehindPieces. lia.
Qed.

Lemma compute_within_file (bounds : streamFileBounds) (pieceLength cache : Z) (opts : StreamOptions) (piece : Z) :
  bounds_ok bounds pieceLength ->
  covered (computeStreamPieceRangesForBounds bounds pieceLength cache opts) piece ->
  sb_BeginPiece bounds <= piece < sb_EndPiece bounds.
Proof.
  intros Hok. rewrite compute_ranges_eq by done.
  intros Hc. rewrite (proj2 (merge_spec _)) in Hc. pose proof Hok as [Hpl Hoff Hlen Hfit Hb He].
  rewrite !covered_app in Hc. unfold session_head, session_playhead in *.
  destruct Hc as [Hc|[Hc|Hc]].
  - apply covered_cons in Hc as [Hc|[]%Exists_nil]. cbn in Hc. rewrite He.
    split; [lia|]. eapply Z.lt_le_trans; [apply Hc|]. apply Z.div_le_mono; lia.
  - case_match; [|by inversion Hc]. apply covered_cons in Hc as [Hc|[]%Exists_nil]. cbn in Hc. lia.
  - destruct (Z.ltb_spec (Z.max 0 (so_RangeStart opts)) (sb_Length bounds)); [|by inversion Hc].
    apply covered_cons in Hc as [Hc|[]%Exists_nil]. unfold window_range, session_playhead in Hc. cbn in Hc.
    split; [lia|]. rewrite He. eapply Z.lt_le_trans; [apply Hc|]. apply Z.div_le_mono; lia.
Qed.

(** no session raises the priority of a piece outside its own file. *)
Theorem session_ranges_within_file (bounds : streamFileBounds) (pieceLength cache : Z)
    (opts : StreamOptions) (piece : Z) :
  bounds_ok bounds pieceLength ->
  streamRangesContainPiece (computeStreamPieceRangesForBounds bounds pieceLength cache opts) piece = true ->
  sb_BeginPiece bounds <= piece < sb_EndPiece bounds.
Proof. intros Hok Hc%contain_spec. by eapply compute_within_file. Qed.

(** ** Witnesses *)

(** A 10 MiB file at offset 1 MiB of a torrent with 256 KiB pieces. *)
Definition sample_bounds : streamFileBounds :=
  mkBounds 1048576 10485760 4 44 "films/Movie.MP4".
Definition sample_options : StreamOptions := mkOptions 5000000 (-1) true false false 0 false.

Lemma sample_bounds_ok : bounds_ok sample_bounds 262144.
Proof. by constructor. Qed.

Lemma session_ranges_cover_window_witness :
  streamRangesContainPiece (computeStreamPieceRangesForBounds sample_bounds 262144 1048576 sample_options)
    23 = true.
Proof.
  apply (session_ranges_cover_window sample_bounds 262144 1048576 sample_options 5000000 sample_bounds_ok).
  right. vm_compute. done.
Defined.

Lemma session_ranges_within_file_witness :
  sb_BeginPiece sample_bounds <= 40 < sb_EndPiece sample_bounds.
Proof.
  apply (session_ranges_within_file sample_bounds 262144 1048576 sample_options 40 sample_bounds_ok).
  vm_compute. reflexivity.
Defined.
