(* ===== verification/StreamManager.v ===== *)
(** * Stream sessions

    The [StreamManager] of [internal/engine/stream.go]: playback sessions and
    preloads per file, the debounce after the last one, the piece priorities laid
    over the torrents ([refreshTorrentOverlayLocked], [clearStreamOverlayLocked])
    and the handles of direct readers.

    Every operation is one critical section of [admissionMu].  A result of [None]
    is a panic of the source: a channel closed twice or a piece index out of
    range.  The piece layer of a torrent is the set of its pieces with
    [PiecePriorityHigh]; all others have [PiecePriorityNone]. *)

From stdpp Require Import base gmap strings list.
From Stdlib Require Import ZArith Lia.
From S2P Require Import Prelude Paths StreamRanges.

#[local] Open Scope Z_scope.
#[local] Open Scope list_scope.

(** ** Data *)

Record FileKey := mkKey { fk_Hash : string; fk_Index : Z }.

#[export] Instance FileKey_eq_dec : EqDecision FileKey.
Proof. solve_decision. Defined.

#[export] Instance FileKey_countable : Countable FileKey.
Proof.
  refine (inj_countable' (fun k => (fk_Hash k, fk_Index k)) (fun p => mkKey p.1 p.2) _). by intros [].
Defined.

(** The session's [Done] channel is named by its ID. *)
Record StreamSession := mkSession {
  ss_Options : StreamOptions;
  ss_Preload : bool;
  ss_AccountingOnly : bool;
}.

(** [st_ptr] is the identity of the state (its pointer); [st_DebounceTimer] tells
    whether the timer is set. *)
Record StreamState := mkState {
  st_ptr : nat;
  st_Torrent : nat;
  st_TimerVersion : Z;
  st_ActiveStreams : Z;
  st_ActivePreloads : Z;
  st_DebounceTimer : bool;
  st_Sessions : gmap Z StreamSession;
  st_AppliedRanges : list streamPieceRange;
  st_FullyDownloaded : bool;
}.

#[export] Instance eta_StreamState : Eta StreamState := fun s =>
  mkState (st_ptr s) (st_Torrent s) (st_TimerVersion s) (st_ActiveStreams s) (st_ActivePreloads s)
    (st_DebounceTimer s) (st_Sessions s) (st_AppliedRanges s) (st_FullyDownloaded s).

(** The manager; [sm_direct] maps the ID of a direct handle to its torrent.
    [sm_done] and [sm_cancelled] are the channels closed so far, [sm_high] the
    piece layer, [sm_managed] the registry of the engine, [sm_next] the next
    pointer. *)
Record StreamManager := mkManager {
  sm_states : gmap FileKey StreamState;
  sm_direct : gmap Z nat;
  sm_nextDirectID : Z;
  sm_nextSessionID : Z;
  sm_closed : bool;
  sm_done : gset Z;
  sm_cancelled : gset Z;
  sm_high : gmap nat (gset Z);
  sm_managed : gmap string nat;
  sm_next : nat;
}.

#[export] Instance eta_StreamManager : Eta StreamManager := fun s =>
  mkManager (sm_states s) (sm_direct s) (sm_nextDirectID s) (sm_nextSessionID s) (sm_closed s)
    (sm_done s) (sm_cancelled s) (sm_high s) (sm_managed s) (sm_next s).

Definition NewStreamManager : StreamManager := mkManager ∅ ∅ 0 0 false ∅ ∅ ∅ ∅ 0.

Inductive streamError :=
| StreamCanceled
| StreamTaskLimit
| StreamConflict
| StreamNotFound
| StreamNoMetadata
| StreamIndex
| StreamManagerClosed
| StreamBlocked.

(** The metadata of an attachment, once known. *)
Record torrent_meta := mkMeta {
  tm_hash : string;
  tm_pieceLength : Z;
  tm_files : list streamFileBounds;
  tm_pieces : Z;
}.

(** What a critical section finds outside the manager: whether the engine is
    live, and for each torrent whether its metadata is known, its policy permits
    payload, a check or initialization vetoes readers, and which files are
    complete or ready for direct reading. *)
Record facts := mkFacts {
  f_live : bool;
  f_known : nat -> bool;
  f_eligible : nat -> bool;
  f_veto : nat -> bool;
  f_complete : nat -> Z -> bool;
  f_ready : nat -> Z -> bool;
}.

(** ** Channels and pieces *)

Definition close_done (id : Z) (sm : StreamManager) : option StreamManager :=
  if decide (id ∈ sm_done sm) then None else Some (sm <| sm_done ::= fun s => {[id]} ∪ s |>).

Definition close_cancel (id : Z) (sm : StreamManager) : option StreamManager :=
  if decide (id ∈ sm_cancelled sm) then None else Some (sm <| sm_cancelled ::= fun s => {[id]} ∪ s |>).

Fixpoint close_each (close : Z -> StreamManager -> option StreamManager) (ids : list Z) (sm : StreamManager)
    : option StreamManager :=
  match ids with
  | [] => Some sm
  | id :: ids => sm ← close id sm; close_each close ids sm
  end.

Definition session_ids (states : list StreamState) : list Z :=
  mjoin ((fun st => (map_to_list (st_Sessions st)).*1) <$> states).

(** The pieces a loop over ranges visits. *)
Definition pieces_of (ranges : list streamPieceRange) : list Z :=
  mjoin ((fun r => seqZ (Begin r) (End r - Begin r)) <$> ranges).

(** [Piece(p).SetPriority] for each piece, on a torrent of [pieces] pieces. *)
Fixpoint set_pieces (pieces : Z) (high : bool) (ps : list Z) (layer : gset Z) : option (gset Z) :=
  match ps with
  | [] => Some layer
  | p :: ps =>
      if (0 <=? p) && (p <? pieces)
      then set_pieces pieces high ps (if high then {[p]} ∪ layer else layer ∖ {[p]})
      else None
  end.

Definition layer (sm : StreamManager) (mt : nat) : gset Z := default ∅ (sm_high sm !! mt).

Definition all_applied (states : list StreamState) : list streamPieceRange :=
  mjoin (st_AppliedRanges <$> states).

(** ** Counting *)

Definition active_of (st : StreamState) : Z :=
  if 0 <? st_ActiveStreams st then st_ActiveStreams st else if st_DebounceTimer st then 1 else 0.

Definition ActiveStreamsForTorrent (sm : StreamManager) (hash : string) : Z :=
  foldr Z.add 0 (active_of <$> (map_to_list (filter (fun e => fk_Hash e.1 = hash) (sm_states sm))).*2).

Definition ActiveStreamsTotal (sm : StreamManager) : Z :=
  foldr Z.add 0 (active_of <$> (map_to_list (sm_states sm)).*2).

Section Streams.
Context (meta : nat -> torrent_meta) (streamCacheSize : Z).

Definition hasReaders (sm : StreamManager) (hash : string) : bool :=
  existsb (fun '(key, st) => bool_decide (fk_Hash key = hash) &&
             ((0 <? st_ActiveStreams st) || (0 <? st_ActivePreloads st) || st_DebounceTimer st))
    (map_to_list (sm_states sm))
  || existsb (fun '(_, mt) => bool_decide (tm_hash (meta mt) = hash)) (map_to_list (sm_direct sm)).

(** [currentTorrent]. *)
Definition current (fs : facts) (mt : nat) (sm : StreamManager) : bool :=
  f_live fs && bool_decide (sm_managed sm !! tm_hash (meta mt) = Some mt).

Definition file_at (mt : nat) (index : Z) : option streamFileBounds :=
  if index <? 0 then None else tm_files (meta mt) !! Z.to_nat index.

Definition streamFile (fs : facts) (sm : StreamManager) (hash : string) (index : Z)
    : result streamError (nat * streamFileBounds) :=
  match sm_managed sm !! hash with
  | None => Err StreamNotFound
  | Some mt =>
      if negb (f_known fs mt) then Err StreamNoMetadata
      else match file_at mt index with None => Err StreamIndex | Some file => Ok (mt, file) end
  end.

Definition computeStreamPieceRanges (mt : nat) (file : streamFileBounds) (opts : StreamOptions)
    : list streamPieceRange :=
  computeStreamPieceRangesForBounds file (tm_pieceLength (meta mt)) streamCacheSize opts.

(** ** The overlay *)

Definition session_ranges (mt : nat) (file : streamFileBounds) (sessions : gmap Z StreamSession)
    : list streamPieceRange :=
  mjoin ((fun s => if ss_AccountingOnly s then [] else computeStreamPieceRanges mt file (ss_Options s))
            <$> (map_to_list sessions).*2).

(** One round of the loop of [refreshTorrentOverlayLocked]. *)
Definition refresh_state (fs : facts) (mt : nat) (key : FileKey) (st : StreamState) : StreamState :=
  match (if f_eligible fs mt then file_at mt (fk_Index key) else None) with
  | None => st <| st_AppliedRanges := mergeStreamPieceRanges [] |>
  | Some file =>
      let full := f_complete fs mt (fk_Index key) in
      let ranges :=
        if full then []
        else (if bool_decide (st_Sessions st = ∅) && st_DebounceTimer st
              then cloneStreamPieceRanges (st_AppliedRanges st) else [])
             ++ session_ranges mt file (st_Sessions st) in
      st <| st_FullyDownloaded := full |> <| st_AppliedRanges := mergeStreamPieceRanges ranges |>
  end.

Definition in_torrent (mt : nat) (entry : FileKey * StreamState) : Prop :=
  fk_Hash entry.1 = tm_hash (meta mt) /\ st_Torrent entry.2 = mt.

#[export] Instance in_torrent_dec (mt : nat) (entry : FileKey * StreamState) : Decision (in_torrent mt entry).
Proof. unfold in_torrent. apply _. Defined.

Definition states_of (mt : nat) (states : gmap FileKey StreamState) : list StreamState :=
  (map_to_list (filter (in_torrent mt) states)).*2.

Definition refresh_states (fs : facts) (mt : nat) (states : gmap FileKey StreamState) : gmap FileKey StreamState :=
  map_imap (fun key st => Some (if decide (in_torrent mt (key, st)) then refresh_state fs mt key st else st)) states.

Definition refreshTorrentOverlayLocked (fs : facts) (mt : nat) (sm : StreamManager)
    : option (option streamError * StreamManager) :=
  if negb (current fs mt sm) then Some (Some StreamCanceled, sm)
  else if negb (f_known fs mt) then Some (None, sm)
  else if sm_closed sm then Some (Some StreamCanceled, sm)
  else
    let states := refresh_states fs mt (sm_states sm) in
    let oldRanges := mergeStreamPieceRanges (all_applied (states_of mt (sm_states sm))) in
    let newRanges := mergeStreamPieceRanges (all_applied (states_of mt states)) in
    let pieces := tm_pieces (meta mt) in
    high ← set_pieces pieces false
             (filter (fun p => streamRangesContainPiece newRanges p = false) (pieces_of oldRanges)) (layer sm mt);
    high ← set_pieces pieces true (pieces_of newRanges) high;
    Some (None, sm <| sm_states := states |> <| sm_high ::= <[mt := high]> |>).

Definition aggregateTorrentRanges (sm : StreamManager) (hash : string) (replaceKey : FileKey)
    (replacement : list streamPieceRange) : list streamPieceRange :=
  mergeStreamPieceRanges (cloneStreamPieceRanges replacement ++
    all_applied (map_to_list (filter (fun e => fk_Hash e.1 = hash /\ e.1 <> replaceKey) (sm_states sm))).*2).

Definition in_bounds (pieces p : Z) : Prop := 0 <= p < pieces.

#[export] Instance in_bounds_dec pieces p : Decision (in_bounds pieces p).
Proof. unfold in_bounds. apply _. Defined.

Definition applyOverlayDiff (mt : nat) (key : FileKey) (oldRanges newRanges : list streamPieceRange)
    (sm : StreamManager) : option StreamManager :=
  let pieces := tm_pieces (meta mt) in
  let protected := aggregateTorrentRanges sm (fk_Hash key) key newRanges in
  high ← set_pieces pieces false
           (filter (in_bounds pieces)
             (filter (fun p => streamRangesContainPiece protected p = false) (pieces_of oldRanges))) (layer sm mt);
  high ← set_pieces pieces true (filter (in_bounds pieces) (pieces_of newRanges)) high;
  Some (sm <| sm_high ::= <[mt := high]> |>).

(** [CancelPieces(0, NumPieces)] clears the piece layer. *)
Definition cancel_pieces (mt : nat) (sm : StreamManager) : StreamManager := sm <| sm_high ::= <[mt := ∅]> |>.

(** The piece layer part of [restoreBasePriorities]; the file layer is the
    engine's. *)
Definition restoreBasePriorities (fs : facts) (mt : nat) (sm : StreamManager) : StreamManager :=
  if negb (f_eligible fs mt) then cancel_pieces mt sm else sm.

Definition clearStreamOverlayLocked (fs : facts) (hash : string) (fileIndex : Z) (sm : StreamManager)
    : option StreamManager :=
  let key := mkKey hash fileIndex in
  match sm_states sm !! key with
  | None => Some sm
  | Some st =>
      if negb (st_ActiveStreams st =? 0) || negb (st_ActivePreloads st =? 0) then Some sm
      else
        let oldRanges := cloneStreamPieceRanges (st_AppliedRanges st) in
        let sm := sm <| sm_states ::= delete key |> in
        if bool_decide (oldRanges = []) then Some sm
        else match streamFile fs sm hash fileIndex with
        | Err _ => Some sm
        | Ok (mt, _) =>
            if negb (st_Torrent st =? mt)%nat then Some sm
            else sm ← applyOverlayDiff mt key oldRanges [] sm; Some (restoreBasePriorities fs mt sm)
        end
  end.

(** ** Sessions *)

Definition put_state (key : FileKey) (st : StreamState) (sm : StreamManager) : StreamManager :=
  sm <| sm_states ::= <[key := st]> |>.

(** A session leaves the state: its channel is closed and its counter drops. *)
Definition drop_session (sessionID : Z) (session : StreamSession) (st : StreamState) : StreamState :=
  let st := st <| st_Sessions ::= delete sessionID |> in
  let st := if ss_Preload session then st <| st_ActivePreloads ::= Z.pred |> else st <| st_ActiveStreams ::= Z.pred |> in
  let st := if st_ActiveStreams st <? 0 then st <| st_ActiveStreams := 0 |> else st in
  if st_ActivePreloads st <? 0 then st <| st_ActivePreloads := 0 |> else st.

Definition rollbackSessionLocked (hash : string) (fileIndex sessionID : Z) (sm : StreamManager) : option StreamManager :=
  let key := mkKey hash fileIndex in
  match sm_states sm !! key with
  | None => Some sm
  | Some st =>
      match st_Sessions st !! sessionID with
      | None => Some sm
      | Some session =>
          let st := drop_session sessionID session st in
          sm ← close_done sessionID (put_state key st sm);
          if (st_ActiveStreams st =? 0) && (st_ActivePreloads st =? 0) && bool_decide (st_AppliedRanges st = [])
          then Some (sm <| sm_states ::= delete key |>)
          else Some sm
      end
  end.

(** The registration of a session in its state, after the admission. *)
Definition enter_session (mt : nat) (key : FileKey) (opts : StreamOptions) (preload : bool) (sm : StreamManager)
    : result streamError (Z * StreamManager) :=
  if sm_closed sm then Err StreamCanceled
  else
    let state := sm_states sm !! key in
    if bool_decide (state = None) && (256 <=? size (sm_states sm))%nat then Err StreamTaskLimit
    else
      let st := default (mkState (sm_next sm) mt 0 0 0 false ∅ [] false) state in
      let st := st <| st_DebounceTimer := false |> <| st_TimerVersion ::= fun v => u64 (v + 1) |> in
      let sessionID := sm_nextSessionID sm + 1 in
      let st := st <| st_Sessions ::= <[sessionID := mkSession opts preload (so_AccountingOnly opts)]> |> in
      let st := if preload then st <| st_ActivePreloads ::= Z.succ |> else st <| st_ActiveStreams ::= Z.succ |> in
      Ok (sessionID, put_state key st sm <| sm_nextSessionID := sessionID |> <| sm_next ::= S |>).

(** The end of [addSession]: register, lay the overlay, roll back if it fails. *)
Definition add_admitted (fs : facts) (mt : nat) (hash : string) (fileIndex : Z) (opts : StreamOptions)
    (preload : bool) (sm : StreamManager) : option (result streamError Z * StreamManager) :=
  match enter_session mt (mkKey hash fileIndex) opts preload sm with
  | Err e => Some (Err e, sm)
  | Ok (sessionID, sm) =>
      '(err, sm) ← refreshTorrentOverlayLocked fs mt sm;
      match err with
      | None => Some (Ok sessionID, sm)
      | Some e => sm ← rollbackSessionLocked hash fileIndex sessionID sm; Some (Err e, sm)
      end
  end.

(** [addSession] up to the admission of a file that has to be downloaded: the
    torrent, and whether the lock is released to admit it. *)
Definition addSession_begin (fs : facts) (hash : string) (fileIndex : Z) (opts : StreamOptions) (sm : StreamManager)
    : result streamError (nat * bool) :=
  if negb (f_live fs) then Err StreamCanceled
  else match streamFile fs sm hash fileIndex with
  | Err e => Err e
  | Ok (mt, _) => Ok (mt, negb (so_AccountingOnly opts) && negb (f_ready fs mt fileIndex))
  end.

(** What a successful admission established: the torrent of the command is still
    the managed one. *)
Definition still_admitted (fs : facts) (mt : nat) (hash : string) (fileIndex : Z) (sm : StreamManager) : bool :=
  bool_decide (sm_managed sm !! hash = Some mt) && f_known fs mt && bool_decide (is_Some (file_at mt fileIndex)).

(** [addSession] without interference; [admitted] is the outcome of the
    admission, if one is needed, and [after] what holds once it ended. *)
Definition addSession (before after : facts) (admitted : option streamError) (hash : string) (fileIndex : Z)
    (opts : StreamOptions) (preload : bool) (sm : StreamManager) : option (result streamError Z * StreamManager) :=
  match addSession_begin before hash fileIndex opts sm with
  | Err e => Some (Err e, sm)
  | Ok (mt, false) => add_admitted before mt hash fileIndex opts preload sm
  | Ok (mt, true) =>
      match admitted with
      | Some e => Some (Err e, sm)
      | None => add_admitted after mt hash fileIndex opts preload sm
      end
  end.

Definition scheduleDebounceLocked (hash : string) (fileIndex : Z) (sm : StreamManager) : StreamManager :=
  let key := mkKey hash fileIndex in
  match sm_states sm !! key with
  | None => sm
  | Some st =>
      if sm_closed sm || negb (st_ActiveStreams st =? 0) || negb (st_ActivePreloads st =? 0) then sm
      else put_state key (st <| st_TimerVersion ::= fun v => u64 (v + 1) |> <| st_DebounceTimer := true |>) sm
  end.

Definition removeSessionLocked (fs : facts) (hash : string) (fileIndex sessionID : Z) (debounce : bool)
    (sm : StreamManager) : option StreamManager :=
  let key := mkKey hash fileIndex in
  match sm_states sm !! key with
  | None => Some sm
  | Some st =>
      match st_Sessions st !! sessionID with
      | None => Some sm
      | Some session =>
          let st := drop_session sessionID session st in
          sm ← close_done sessionID (put_state key st sm);
          if (0 <? st_ActiveStreams st) || (0 <? st_ActivePreloads st)
          then '(_, sm) ← refreshTorrentOverlayLocked fs (st_Torrent st) sm; Some sm
          else if debounce then Some (scheduleDebounceLocked hash fileIndex sm)
          else clearStreamOverlayLocked fs hash fileIndex sm
      end
  end.

(** [RemoveStream]; [pick] is the playback session the map iteration meets
    first. *)
Definition RemoveStream (fs : facts) (pick : nat) (hash : string) (fileIndex : Z) (sm : StreamManager)
    : option StreamManager :=
  let key := mkKey hash fileIndex in
  match sm_states sm !! key with
  | None => Some sm
  | Some st =>
      let playing := (map_to_list (filter (fun e => ss_Preload e.2 = false) (st_Sessions st))).*1 in
      let sessionID := default (default 0 (head playing)) (playing !! pick) in
      if (sessionID =? 0) && bool_decide (st_Sessions st = ∅) && (0 <? st_ActiveStreams st) then
        let st := st <| st_ActiveStreams ::= Z.pred |> in
        let shouldDebounce := (st_ActiveStreams st <=? 0) && (st_ActivePreloads st =? 0) in
        let sm := put_state key (st <| st_ActiveStreams ::= maxInt 0 |>) sm in
        Some (if shouldDebounce then scheduleDebounceLocked hash fileIndex sm else sm)
      else if negb (sessionID =? 0) then removeSessionLocked fs hash fileIndex sessionID true sm
      else Some sm
  end.

(** The expiry of a debounce, queued for the state and timer version it was
    scheduled with. *)
Definition expireDebounce (fs : facts) (key : FileKey) (expected : nat) (version : Z) (sm : StreamManager)
    : option StreamManager :=
  match sm_states sm !! key with
  | None => Some sm
  | Some st =>
      if negb (sm_closed sm) && (st_ptr st =? expected)%nat && (st_TimerVersion st =? version)
         && (st_ActiveStreams st =? 0) && (st_ActivePreloads st =? 0)
      then clearStreamOverlayLocked fs (fk_Hash key) (fk_Index key) sm
      else Some sm
  end.

(** The session [watchSession] starts to watch, if it still exists. *)
Definition watchSession (hash : string) (index id : Z) (sm : StreamManager) : bool :=
  match sm_states sm !! mkKey hash index with
  | None => false
  | Some st => bool_decide (is_Some (st_Sessions st !! id))
  end.

(** [AddStream] and [AddPreload] when nothing else runs in between: [checked] is
    the answer of the admission check made first, [watched] tells whether the
    task that watches the session could be started. *)
Definition add_watched (before after : facts) (checked admitted : option streamError) (watched : bool)
    (hash : string) (fileIndex : Z) (opts : StreamOptions) (preload : bool) (sm : StreamManager)
    : option (result streamError (option Z) * StreamManager) :=
  if so_IsHEAD opts || so_SkipQoS opts then Some (Ok None, sm)
  else match checked with
  | Some e => Some (Err e, sm)
  | None =>
      '(r, sm) ← addSession before after admitted hash fileIndex opts preload sm;
      match r with
      | Err e => Some (Err e, sm)
      | Ok sessionID =>
          if watchSession hash fileIndex sessionID sm && watched then Some (Ok (Some sessionID), sm)
          else sm ← removeSessionLocked after hash fileIndex sessionID false sm; Some (Err StreamTaskLimit, sm)
      end
  end.

(** ** Direct readers and closing *)

Definition RegisterDirectStream (fs : facts) (hash : string) (expected : nat) (sm : StreamManager)
    : result streamError (Z * StreamManager) :=
  if negb (bool_decide (sm_managed sm !! hash = Some expected)) then Err StreamNotFound
  else if sm_closed sm then Err StreamManagerClosed
  else if f_veto fs expected then Err StreamConflict
  else
    let id := sm_nextDirectID sm + 1 in
    Ok (id, sm <| sm_nextDirectID := id |> <| sm_direct ::= <[id := expected]> |>).

Definition unregister (id : Z) (sm : StreamManager) : StreamManager := sm <| sm_direct ::= delete id |>.

(** [detachStreamsForTorrentLocked]: the states and handles of the torrent go;
    the handles are closed afterwards ([closeDirectHandles]). *)
Definition detachStreamsForTorrentLocked (mt : nat) (sm : StreamManager) : option (list Z * StreamManager) :=
  let gone := filter (fun e : FileKey * StreamState => st_Torrent e.2 = mt) (sm_states sm) in
  sm ← close_each close_done (session_ids (map_to_list gone).*2) sm;
  let handles := (map_to_list (filter (fun e : Z * nat => e.2 = mt) (sm_direct sm))).*1 in
  Some (handles,
    sm <| sm_states ::= filter (fun e : FileKey * StreamState => st_Torrent e.2 <> mt) |>
       <| sm_direct ::= filter (fun e : Z * nat => e.2 <> mt) |>).

Definition closeDirectHandles (handles : list Z) (sm : StreamManager) : option StreamManager :=
  close_each close_cancel handles sm.

Definition CloseStreamsForTorrent (fs : facts) (mt : nat) (sm : StreamManager) : option StreamManager :=
  if negb (f_live fs) then Some sm
  else '(handles, sm) ← detachStreamsForTorrentLocked mt sm; closeDirectHandles handles sm.

Definition CloseAllStreams (sm : StreamManager) : option StreamManager :=
  sm ← close_each close_done (session_ids (map_to_list (sm_states sm)).*2) (sm <| sm_closed := true |>);
  let handles := (map_to_list (sm_direct sm)).*1 in
  closeDirectHandles handles (sm <| sm_states := ∅ |> <| sm_direct := ∅ |>).

(** ** Steps *)

(** The operations of the manager, one event per critical section, and what the
    engine does to its torrents: publish one ([StPublish]), delete it with its
    streams ([StDelete]), quiesce it ([StQuiesce]: the piece layer is cancelled
    and refreshed).  A session whose file has to be admitted enters with
    [StAdmitted].  [CloseStreamsForTorrent] is no event: only the tests of the
    application call it, which deletes the streams of a torrent with [StDelete]. *)
Inductive stream_event :=
| StAdd (fs : facts) (hash : string) (fileIndex : Z) (opts : StreamOptions) (preload : bool)
| StAdmitted (fs : facts) (mt : nat) (hash : string) (fileIndex : Z) (opts : StreamOptions) (preload : bool)
| StRemove (fs : facts) (hash : string) (fileIndex sessionID : Z) (debounce : bool)
| StRemoveStream (fs : facts) (pick : nat) (hash : string) (fileIndex : Z)
| StExpire (fs : facts) (key : FileKey) (expected : nat) (version : Z)
| StRefresh (fs : facts) (mt : nat)
| StQuiesce (fs : facts) (mt : nat)
| StDirect (fs : facts) (hash : string) (expected : nat)
| StUnregister (id : Z)
| StPublish (mt : nat)
| StDelete (mt : nat)
| StCloseAll.

(** A new attachment comes with a new library torrent, whose pieces have no
    priority of their own. *)
Definition publish (mt : nat) (sm : StreamManager) : StreamManager :=
  match sm_managed sm !! tm_hash (meta mt) with
  | None => sm <| sm_managed ::= <[tm_hash (meta mt) := mt]> |> <| sm_high ::= delete mt |>
  | Some _ => sm
  end.

Definition delete_torrent (mt : nat) (sm : StreamManager) : option StreamManager :=
  if bool_decide (sm_managed sm !! tm_hash (meta mt) = Some mt) then
    '(handles, sm) ← detachStreamsForTorrentLocked mt (sm <| sm_managed ::= delete (tm_hash (meta mt)) |>);
    closeDirectHandles handles sm
  else Some sm.

Definition stream_step (ev : stream_event) (sm : StreamManager) : option StreamManager :=
  match ev with
  | StAdd fs hash fileIndex opts preload =>
      match addSession_begin fs hash fileIndex opts sm with
      | Ok (mt, false) => snd <$> add_admitted fs mt hash fileIndex opts preload sm
      | _ => Some sm
      end
  | StAdmitted fs mt hash fileIndex opts preload =>
      if still_admitted fs mt hash fileIndex sm then snd <$> add_admitted fs mt hash fileIndex opts preload sm
      else Some sm
  | StRemove fs hash fileIndex sessionID debounce => removeSessionLocked fs hash fileIndex sessionID debounce sm
  | StRemoveStream fs pick hash fileIndex => RemoveStream fs pick hash fileIndex sm
  | StExpire fs key expected version => expireDebounce fs key expected version sm
  | StRefresh fs mt => snd <$> refreshTorrentOverlayLocked fs mt sm
  | StQuiesce fs mt => snd <$> refreshTorrentOverlayLocked fs mt (cancel_pieces mt sm)
  | StDirect fs hash expected =>
      Some match RegisterDirectStream fs hash expected sm with Ok (_, sm) => sm | Err _ => sm end
  | StUnregister id => Some (unregister id sm)
  | StPublish mt => Some (publish mt sm)
  | StDelete mt => delete_torrent mt sm
  | StCloseAll => CloseAllStreams sm
  end.

End Streams.
