(* ===== verification/StreamSafety.v ===== *)
(** * Safety of the stream manager

    The invariant of [StreamManager]: sessions are counted exactly, every state
    belongs to the managed torrent of its hash, channels are closed once, ranges
    stay within the torrent, and a piece has a stream priority only while some
    state's ranges ask for it.  Every operation keeps it and none panics. *)

From stdpp Require Import base gmap strings list.
From Stdlib Require Import ZArith Lia.
From S2P Require Import Prelude Paths StreamRanges StreamManager.

#[local] Open Scope Z_scope.
#[local] Open Scope list_scope.

(** ** Pieces *)

Lemma elem_of_pieces (ranges : list streamPieceRange) (p : Z) : p ∈ pieces_of ranges <-> covered ranges p.
Proof.
  unfold pieces_of, covered. rewrite list_elem_of_join, Exists_exists. split.
  - intros (l & Hp & (r & -> & Hr)%list_elem_of_fmap). exists r. split; [done|]. apply elem_of_seqZ in Hp. lia.
  - intros (r & Hr & Hp). exists (seqZ (Begin r) (End r - Begin r)). split; [apply elem_of_seqZ; lia|].
    apply list_elem_of_fmap. eauto.
Qed.

Lemma set_pieces_spec (pieces : Z) (high : bool) (ps : list Z) (l : gset Z) :
  (forall p, p ∈ ps -> in_bounds pieces p) ->
  set_pieces pieces high ps l = Some (if high then list_to_set ps ∪ l else l ∖ list_to_set ps).
Proof.
  revert l. induction ps as [|p ps IH]; intros l Hb; cbn.
  - f_equal. destruct high; set_solver.
  - assert (in_bounds pieces p) as Hp by (apply Hb; set_solver). unfold in_bounds in Hp.
    destruct (Z.leb_spec 0 p), (Z.ltb_spec p pieces); try lia. cbn.
    rewrite IH by (intros; apply Hb; set_solver). f_equal. destruct high; set_solver.
Qed.

Lemma covered_join (ls : list (list streamPieceRange)) (p : Z) :
  covered (mjoin ls) p <-> exists l, l ∈ ls /\ covered l p.
Proof.
  unfold covered. rewrite Exists_exists. setoid_rewrite list_elem_of_join. setoid_rewrite Exists_exists. naive_solver.
Qed.

Lemma covered_all_applied (states : list StreamState) (p : Z) :
  covered (all_applied states) p <-> exists st, st ∈ states /\ covered (st_AppliedRanges st) p.
Proof. unfold all_applied. rewrite covered_join. setoid_rewrite list_elem_of_fmap. naive_solver. Qed.

Lemma covered_clone (ranges : list streamPieceRange) : cloneStreamPieceRanges ranges = ranges.
Proof. by destruct ranges. Qed.

Lemma covered_merge (ranges : list streamPieceRange) (p : Z) :
  covered (mergeStreamPieceRanges ranges) p <-> covered ranges p.
Proof. apply merge_spec. Qed.

Lemma not_contains (ranges : list streamPieceRange) (p : Z) :
  streamRangesContainPiece ranges p = false <-> ~ covered ranges p.
Proof. rewrite <- contain_spec. by destruct (streamRangesContainPiece ranges p). Qed.

Lemma covered_nil (p : Z) : ~ covered [] p.
Proof. by intros ?%Exists_nil. Qed.

(** ** Channels *)

Lemma close_done_fresh (id : Z) (sm : StreamManager) :
  id ∉ sm_done sm -> close_done id sm = Some (sm <| sm_done ::= fun s => {[id]} ∪ s |>).
Proof. intros. unfold close_done. by rewrite decide_False. Qed.

Lemma close_cancel_fresh (id : Z) (sm : StreamManager) :
  id ∉ sm_cancelled sm -> close_cancel id sm = Some (sm <| sm_cancelled ::= fun s => {[id]} ∪ s |>).
Proof. intros. unfold close_cancel. by rewrite decide_False. Qed.

Lemma close_each_done (ids : list Z) (sm : StreamManager) :
  NoDup ids -> (forall id, id ∈ ids -> id ∉ sm_done sm) ->
  exists done, close_each close_done ids sm = Some (sm <| sm_done := done |>) /\
    forall id, id ∈ done <-> id ∈ ids \/ id ∈ sm_done sm.
Proof.
  revert sm. induction ids as [|id ids IH]; intros sm Hnd Hids; cbn [close_each].
  - exists (sm_done sm). split; [by destruct sm|]. set_solver.
  - apply NoDup_cons in Hnd as [Hni Hnd]. rewrite close_done_fresh by (apply Hids; set_solver). cbn [mbind option_bind].
    destruct (IH (sm <| sm_done ::= fun s => {[id]} ∪ s |>)) as (d & Hd & Hin); [done|cbn; set_solver|].
    exists d. split; [by rewrite Hd|]. cbn in Hin. set_solver.
Qed.

Lemma close_each_cancel (ids : list Z) (sm : StreamManager) :
  NoDup ids -> (forall id, id ∈ ids -> id ∉ sm_cancelled sm) ->
  exists done, close_each close_cancel ids sm = Some (sm <| sm_cancelled := done |>) /\
    forall id, id ∈ done <-> id ∈ ids \/ id ∈ sm_cancelled sm.
Proof.
  revert sm. induction ids as [|id ids IH]; intros sm Hnd Hids; cbn [close_each].
  - exists (sm_cancelled sm). split; [by destruct sm|]. set_solver.
  - apply NoDup_cons in Hnd as [Hni Hnd]. rewrite close_cancel_fresh by (apply Hids; set_solver). cbn [mbind option_bind].
    destruct (IH (sm <| sm_cancelled ::= fun s => {[id]} ∪ s |>)) as (d & Hd & Hin); [done|cbn; set_solver|].
    exists d. split; [by rewrite Hd|]. cbn in Hin. set_solver.
Qed.

(** ** Invariant *)

Section Safety.
Context (meta : nat -> torrent_meta) (streamCacheSize : Z).

(** The metadata of a torrent: files lie within its pieces. *)
Definition meta_ok : Prop :=
  forall mt file, file ∈ tm_files (meta mt) ->
    sb_Length file <= 0 \/
    (bounds_ok file (tm_pieceLength (meta mt)) /\ 0 <= sb_BeginPiece file /\ sb_EndPiece file <= tm_pieces (meta mt)).

Definition count_sessions (preload : bool) (sessions : gmap Z StreamSession) : Z :=
  Z.of_nat (size (filter (fun e => ss_Preload e.2 = preload) sessions)).

Record state_ok (idle : bool) (sm : StreamManager) (key : FileKey) (st : StreamState) : Prop := {
  so_owner : sm_managed sm !! fk_Hash key = Some (st_Torrent st);
  so_file : is_Some (file_at meta (st_Torrent st) (fk_Index key));
  so_streams : st_ActiveStreams st = count_sessions false (st_Sessions st);
  so_preloads : st_ActivePreloads st = count_sessions true (st_Sessions st);
  so_ids : forall id, is_Some (st_Sessions st !! id) -> 0 < id <= sm_nextSessionID sm /\ id ∉ sm_done sm;
  so_idle : idle = true -> st_Sessions st = ∅ -> st_DebounceTimer st = true;
  so_separated : separated (st_AppliedRanges st);
  so_inside : forall p, covered (st_AppliedRanges st) p -> in_bounds (tm_pieces (meta (st_Torrent st))) p;
}.

(** [strict] asks that a state without sessions has its debounce timer set,
    except for the state of [skip]. *)
Record sm_ok (strict : bool) (skip : option FileKey) (sm : StreamManager) : Prop := {
  ok_states : forall key st, sm_states sm !! key = Some st ->
    state_ok (strict && negb (bool_decide (skip = Some key))) sm key st;
  ok_distinct : forall k1 k2 st1 st2 id, sm_states sm !! k1 = Some st1 -> sm_states sm !! k2 = Some st2 ->
    is_Some (st_Sessions st1 !! id) -> is_Some (st_Sessions st2 !! id) -> k1 = k2;
  ok_managed : forall hash mt, sm_managed sm !! hash = Some mt -> tm_hash (meta mt) = hash;
  ok_direct : forall id mt, sm_direct sm !! id = Some mt ->
    sm_managed sm !! tm_hash (meta mt) = Some mt /\ id <= sm_nextDirectID sm /\ id ∉ sm_cancelled sm;
  ok_limit : (size (sm_states sm) <= 256)%nat;
  ok_done : forall id, id ∈ sm_done sm -> id <= sm_nextSessionID sm;
  ok_next : 0 <= sm_nextSessionID sm;
  ok_cancelled : forall id, id ∈ sm_cancelled sm -> id <= sm_nextDirectID sm;
  ok_layer : sm_closed sm = false -> forall mt p, p ∈ layer sm mt -> sm_managed sm !! tm_hash (meta mt) = Some mt ->
    exists key st, sm_states sm !! key = Some st /\ st_Torrent st = mt /\ covered (st_AppliedRanges st) p;
  ok_closed : sm_closed sm = true -> sm_states sm = ∅ /\ sm_direct sm = ∅;
}.

Lemma state_ok_ext idle sm sm' key st :
  sm_managed sm' !! fk_Hash key = sm_managed sm !! fk_Hash key -> sm_nextSessionID sm <= sm_nextSessionID sm' ->
  (forall id, is_Some (st_Sessions st !! id) -> id ∉ sm_done sm -> id ∉ sm_done sm') ->
  state_ok idle sm key st -> state_ok idle sm' key st.
Proof.
  intros Hm Hn Hd []. constructor; try done; [by rewrite Hm|]. intros id Hid.
  destruct (so_ids0 id Hid) as [??]. split; [lia|auto].
Qed.

(** Metadata, once known, stays known. *)
Definition facts_ok (fs : facts) (sm : StreamManager) : Prop :=
  forall key st, sm_states sm !! key = Some st -> f_known fs (st_Torrent st) = true.

Lemma new_manager_ok strict : sm_ok strict None NewStreamManager.
Proof.
  constructor; try done. cbn. rewrite map_size_empty. lia.
Qed.

(** ** The overlay *)

Lemma in_torrent_owner strict skip sm mt key st :
  sm_ok strict skip sm -> sm_states sm !! key = Some st ->
  in_torrent meta mt (key, st) <-> st_Torrent st = mt.
Proof.
  intros Hok Hk. unfold in_torrent. cbn. split; [tauto|]. intros <-. split; [|done].
  symmetry. eapply ok_managed; [done|]. by eapply so_owner, ok_states.
Qed.

Lemma elem_of_states_of mt states st :
  st ∈ states_of meta mt states <-> exists key, states !! key = Some st /\ in_torrent meta mt (key, st).
Proof.
  unfold states_of. rewrite list_elem_of_fmap. split.
  - intros ([key st'] & -> & [??]%elem_of_map_to_list%map_lookup_filter_Some). by exists key.
  - intros (key & ? & ?). exists (key, st). split; [done|]. by apply elem_of_map_to_list, map_lookup_filter_Some.
Qed.

Lemma lookup_refresh fs mt states key :
  refresh_states meta streamCacheSize fs mt states !! key =
  (fun st => if decide (in_torrent meta mt (key, st)) then refresh_state meta streamCacheSize fs mt key st else st)
    <$> states !! key.
Proof. unfold refresh_states. rewrite map_lookup_imap. by destruct (states !! key). Qed.

(** A refresh recomputes the ranges of a state and nothing else. *)
Lemma refresh_state_frame fs mt key st :
  let st' := refresh_state meta streamCacheSize fs mt key st in
  st_ptr st' = st_ptr st /\ st_Torrent st' = st_Torrent st /\ st_TimerVersion st' = st_TimerVersion st /\
  st_ActiveStreams st' = st_ActiveStreams st /\ st_ActivePreloads st' = st_ActivePreloads st /\
  st_DebounceTimer st' = st_DebounceTimer st /\ st_Sessions st' = st_Sessions st /\
  separated (st_AppliedRanges st').
Proof.
  cbv zeta. unfold refresh_state. destruct (if f_eligible fs mt then _ else _); cbn -[mergeStreamPieceRanges];
    do 7 (split; [done|]); apply (proj1 (merge_spec _)).
Qed.

Lemma covered_sessions mt file sessions p :
  covered (session_ranges meta streamCacheSize mt file sessions) p <->
  exists id s, sessions !! id = Some s /\ ss_AccountingOnly s = false /\
    covered (computeStreamPieceRanges meta streamCacheSize mt file (ss_Options s)) p.
Proof.
  unfold session_ranges. rewrite covered_join. split.
  - intros (l & (s & -> & ([id s'] & -> & Hs%elem_of_map_to_list)%list_elem_of_fmap)%list_elem_of_fmap & Hc).
    cbn in Hc. exists id, s'. destruct (ss_AccountingOnly s'); [by apply covered_nil in Hc | done].
  - intros (id & s & Hs & Ha & Hc). eexists. split; [|exact Hc]. apply list_elem_of_fmap. exists s.
    rewrite Ha. split; [done|]. apply list_elem_of_fmap. exists (id, s). split; [done|]. by apply elem_of_map_to_list.
Qed.

Lemma file_at_elem mt index file : file_at meta mt index = Some file -> file ∈ tm_files (meta mt).
Proof. unfold file_at. case_match; [done|]. apply list_elem_of_lookup_2. Qed.

Lemma compute_inside mt index file opts p :
  meta_ok -> file_at meta mt index = Some file ->
  covered (computeStreamPieceRanges meta streamCacheSize mt file opts) p -> in_bounds (tm_pieces (meta mt)) p.
Proof.
  intros Hm Hf%file_at_elem Hc. unfold computeStreamPieceRanges in Hc. destruct (Hm mt file Hf) as [Hl|(Hb & H0 & Hn)].
  - unfold computeStreamPieceRangesForBounds in Hc. destruct (Z.leb_spec (sb_Length file) 0); [|lia].
    by apply covered_nil in Hc.
  - apply compute_within_file in Hc; [|done]. unfold in_bounds. lia.
Qed.

(** What a refreshed state asks for. *)
Definition wanted (fs : facts) (mt : nat) (key : FileKey) (st : StreamState) (p : Z) : Prop :=
  f_eligible fs mt = true /\ f_complete fs mt (fk_Index key) = false /\
  exists file, file_at meta mt (fk_Index key) = Some file /\
    ((st_Sessions st = ∅ /\ st_DebounceTimer st = true /\ covered (st_AppliedRanges st) p) \/
     exists id s, st_Sessions st !! id = Some s /\ ss_AccountingOnly s = false /\
       covered (computeStreamPieceRanges meta streamCacheSize mt file (ss_Options s)) p).

Lemma covered_refreshed fs mt key st p :
  covered (st_AppliedRanges (refresh_state meta streamCacheSize fs mt key st)) p <-> wanted fs mt key st p.
Proof.
  unfold refresh_state, wanted. destruct (f_eligible fs mt).
  2: { cbn -[mergeStreamPieceRanges]. rewrite covered_merge. split; [by intros ?%covered_nil|by intros [? _]]. }
  destruct (file_at meta mt (fk_Index key)) as [file|].
  2: { cbn -[mergeStreamPieceRanges]. rewrite covered_merge. split; [by intros ?%covered_nil|by intros (_ & _ & ? & ? & _)]. }
  cbn -[mergeStreamPieceRanges]. rewrite covered_merge. destruct (f_complete fs mt (fk_Index key)).
  { split; [by intros ?%covered_nil|by intros (_ & ? & _)]. }
  rewrite covered_app, covered_sessions, covered_clone. split.
  - intros [H|H]; (split; [done|]; split; [done|]; exists file; split; [done|]); [left|by right].
    case_bool_decide; [|by apply covered_nil in H]. destruct (st_DebounceTimer st); [done|by apply covered_nil in H].
  - intros (_ & _ & f & [= <-] & [(Hs & Ht & Hc)|H]); [left|by right].
    by rewrite bool_decide_eq_true_2, Ht.
Qed.

(** The state of the manager after a refresh of [mt]. *)
Definition refreshed (fs : facts) (mt : nat) (sm : StreamManager) (high : gset Z) : StreamManager :=
  sm <| sm_states := refresh_states meta streamCacheSize fs mt (sm_states sm) |> <| sm_high ::= <[mt := high]> |>.

Lemma wanted_inside strict skip sm fs mt key st p :
  meta_ok -> sm_ok strict skip sm -> sm_states sm !! key = Some st -> st_Torrent st = mt ->
  wanted fs mt key st p -> in_bounds (tm_pieces (meta mt)) p.
Proof.
  intros Hm Hok Hk <- (_ & _ & file & Hf & [(_ & _ & Hc)|(id & s & _ & _ & Hc)]).
  - by eapply so_inside, Hc; eapply ok_states.
  - by eapply compute_inside.
Qed.

(** The ranges of a torrent's states before and after a refresh. *)
Lemma covered_old strict skip sm mt p :
  sm_ok strict skip sm ->
  covered (mergeStreamPieceRanges (all_applied (states_of meta mt (sm_states sm)))) p <->
  exists key st, sm_states sm !! key = Some st /\ st_Torrent st = mt /\ covered (st_AppliedRanges st) p.
Proof.
  intros Hok. rewrite covered_merge, covered_all_applied. setoid_rewrite elem_of_states_of. split.
  - intros (st & (key & Hk & Hin) & Hc). exists key, st. by rewrite <- (in_torrent_owner _ _ _ _ _ _ Hok Hk).
  - intros (key & st & Hk & Ht & Hc). exists st. split; [|done]. exists key.
    by rewrite (in_torrent_owner _ _ _ _ _ _ Hok Hk).
Qed.

Lemma covered_new strict skip sm fs mt p :
  sm_ok strict skip sm ->
  covered (mergeStreamPieceRanges (all_applied (states_of meta mt (refresh_states meta streamCacheSize fs mt (sm_states sm))))) p <->
  exists key st, sm_states sm !! key = Some st /\ st_Torrent st = mt /\ wanted fs mt key st p.
Proof.
  intros Hok. rewrite covered_merge, covered_all_applied. setoid_rewrite elem_of_states_of.
  split.
  - intros (st' & (key & Hk' & Hin) & Hc). rewrite lookup_refresh in Hk'. apply fmap_Some in Hk' as (st & Hk & ->).
    exists key, st.
    destruct (decide (in_torrent meta mt (key, st))) as [Hd|]; [|done].
    rewrite covered_refreshed in Hc. by destruct Hd.
  - intros (key & st & Hk & Ht & Hc).
    assert (Hd : in_torrent meta mt (key, st)) by by apply (in_torrent_owner _ _ _ _ _ _ Hok Hk).
    exists (refresh_state meta streamCacheSize fs mt key st). rewrite covered_refreshed. split; [|done].
    exists key. rewrite lookup_refresh, Hk. cbn [fmap option_fmap option_map]. rewrite decide_True by done. split; [done|].
    destruct (refresh_state_frame fs mt key st) as (_ & E & _). unfold in_torrent in *. cbn in *. by rewrite E.
Qed.

(** A refresh of a current torrent succeeds: a piece leaves the layer when no
    state wants it any more, and every wanted piece enters it. *)
Lemma refresh_total strict skip sm fs mt :
  meta_ok -> sm_ok strict skip sm -> current meta fs mt sm = true -> f_known fs mt = true -> sm_closed sm = false ->
  exists high, refreshTorrentOverlayLocked meta streamCacheSize fs mt sm = Some (None, refreshed fs mt sm high) /\
    forall p, p ∈ high <->
      (exists key st, sm_states sm !! key = Some st /\ st_Torrent st = mt /\ wanted fs mt key st p) \/
      (p ∈ layer sm mt /\
       ~ exists key st, sm_states sm !! key = Some st /\ st_Torrent st = mt /\ covered (st_AppliedRanges st) p).
Proof.
  intros Hm Hok Hcur Hkn Hcl. unfold refreshTorrentOverlayLocked. rewrite Hcur, Hkn, Hcl. cbn [negb].
  set (old := mergeStreamPieceRanges (all_applied (states_of meta mt (sm_states sm)))).
  set (new := mergeStreamPieceRanges _).
  assert (Ho : forall p, covered old p -> in_bounds (tm_pieces (meta mt)) p).
  { intros p (key & st & Hk & <- & Hc)%(covered_old _ _ _ _ _ Hok). by eapply so_inside, Hc; eapply ok_states. }
  assert (Hn : forall p, covered new p -> in_bounds (tm_pieces (meta mt)) p).
  { intros p (key & st & Hk & Ht & Hc)%(covered_new _ _ _ _ _ _ Hok). by eapply wanted_inside. }
  rewrite set_pieces_spec by (intros p [_ Hp]%list_elem_of_filter; apply Ho; by apply elem_of_pieces).
  cbn [mbind option_bind].
  rewrite set_pieces_spec by (intros p Hp; apply Hn; by apply elem_of_pieces).
  cbn [mbind option_bind]. eexists. split; [done|]. intros p.
  rewrite <- (covered_new _ _ _ _ _ _ Hok), <- (covered_old _ _ _ _ _ Hok). fold old new.
  rewrite elem_of_union, elem_of_difference, !elem_of_list_to_set, list_elem_of_filter, !elem_of_pieces, not_contains.
  destruct (decide (streamRangesContainPiece new p = true)) as [H|H]; rewrite contain_spec in H; tauto.
Qed.

(** ** Every operation keeps the invariant *)

Lemma refreshed_state_ok strict skip sm fs mt key st :
  meta_ok -> sm_ok strict skip sm -> sm_states sm !! key = Some st ->
  state_ok (strict && negb (bool_decide (skip = Some key))) sm key
    (if decide (in_torrent meta mt (key, st)) then refresh_state meta streamCacheSize fs mt key st else st).
Proof.
  intros Hm Hok Hk. pose proof (ok_states _ _ _ Hok _ _ Hk) as Hst.
  destruct (decide (in_torrent meta mt (key, st))) as [Hd|]; [|done].
  destruct (refresh_state_frame fs mt key st) as (_ & Ht & _ & Ha & Hp & Htm & Hs & Hsep).
  destruct Hst. constructor; rewrite ?Ht, ?Ha, ?Hp, ?Htm, ?Hs; try done.
  intros p Hc. rewrite covered_refreshed in Hc. apply (in_torrent_owner _ _ _ _ _ _ Hok Hk) in Hd as <-.
  by eapply wanted_inside.
Qed.

Lemma refresh_ok strict skip sm fs mt :
  meta_ok -> sm_ok strict skip sm ->
  exists r sm', refreshTorrentOverlayLocked meta streamCacheSize fs mt sm = Some (r, sm') /\ sm_ok strict skip sm' /\
    (r <> None -> sm' = sm /\ (current meta fs mt sm = false \/ sm_closed sm = true)) /\
    (sm' = sm \/ exists high, sm' = refreshed fs mt sm high).
Proof.
  intros Hm Hok.
  destruct (current meta fs mt sm) eqn:Hcur; [|exists (Some StreamCanceled), sm; unfold refreshTorrentOverlayLocked; rewrite Hcur; split_and!; by auto].
  destruct (f_known fs mt) eqn:Hkn; [|exists None, sm; unfold refreshTorrentOverlayLocked; rewrite Hcur, Hkn; split_and!; by auto].
  destruct (sm_closed sm) eqn:Hcl; [exists (Some StreamCanceled), sm; unfold refreshTorrentOverlayLocked; rewrite Hcur, Hkn, Hcl; by auto 10|].
  destruct (refresh_total strict skip sm fs mt) as (high & Hr & Hhigh); [done..|].
  exists None, (refreshed fs mt sm high). split_and!; [done| |done|by eauto]. destruct (Hok).
  assert (Hback : forall key st, refresh_states meta streamCacheSize fs mt (sm_states sm) !! key = Some st ->
    exists st0, sm_states sm !! key = Some st0 /\ st_Sessions st = st_Sessions st0 /\
      st = if decide (in_torrent meta mt (key, st0)) then refresh_state meta streamCacheSize fs mt key st0 else st0).
  { intros key st. rewrite lookup_refresh. intros (st0 & Hk & ->)%fmap_Some. exists st0. split_and!; try done.
    case_decide; [|done]. apply (refresh_state_frame fs mt key st0). }
  constructor; try done.
  - intros key st (st0 & Hk & _ & ->)%Hback. apply (state_ok_ext _ sm); [done|done|auto|].
    exact (refreshed_state_ok _ _ _ fs mt _ _ Hm Hok Hk).
  - intros k1 k2 st1 st2 id (s1 & H1 & -> & _)%Hback (s2 & H2 & -> & _)%Hback. eauto.
  - unfold refreshed. cbn. unfold refresh_states. rewrite <- (size_dom (D:=gset FileKey)).
    rewrite dom_imap_L with (X := dom (sm_states sm)); [by rewrite size_dom|].
    intros k. rewrite elem_of_dom. unfold is_Some. naive_solver.
  - intros _ mt' p. unfold layer, refreshed. cbn. destruct (decide (mt' = mt)) as [->|Hne].
    + rewrite lookup_insert_eq. cbn. rewrite Hhigh. intros [(key & st & Hk & Ht & Hw)|[Hp Hno]] Hman.
      * exists key, (refresh_state meta streamCacheSize fs mt key st). rewrite lookup_refresh, Hk. cbn [fmap option_fmap option_map].
        rewrite decide_True by by apply (in_torrent_owner _ _ _ _ _ _ Hok Hk).
        split; [done|]. rewrite covered_refreshed. by destruct (refresh_state_frame fs mt key st) as (_ & -> & _).
      * exfalso. by apply Hno, ok_layer0.
    + rewrite lookup_insert_ne by done. intros Hp Hman.
      destruct (ok_layer0 Hcl mt' p Hp Hman) as (key & st & Hk & Ht & Hc). exists key, st.
      rewrite lookup_refresh, Hk. cbn [fmap option_fmap option_map].
      rewrite decide_False; [done|]. rewrite (in_torrent_owner _ _ _ _ _ _ Hok Hk). congruence.
  - intros. cbn in *. congruence.
Qed.

(** A state is replaced by one with the same torrent and ranges. *)
Lemma put_state_ok strict skip skip' sm key st st' :
  sm_ok strict skip sm -> sm_states sm !! key = Some st ->
  st_Torrent st' = st_Torrent st -> st_AppliedRanges st' = st_AppliedRanges st ->
  (forall id, is_Some (st_Sessions st' !! id) -> is_Some (st_Sessions st !! id)) ->
  st_ActiveStreams st' = count_sessions false (st_Sessions st') ->
  st_ActivePreloads st' = count_sessions true (st_Sessions st') ->
  (strict = true -> skip' <> Some key -> st_Sessions st' = ∅ -> st_DebounceTimer st' = true) ->
  (skip' = skip \/ skip = None /\ skip' = Some key \/ skip = Some key /\ skip' = None) ->
  sm_ok strict skip' (put_state key st' sm).
Proof.
  intros Hok Hk Ht Ha Hs Hns Hnp Hidle Hskip. pose proof (ok_states _ _ _ Hok _ _ Hk) as Hst. destruct (Hok). unfold put_state.
  constructor; cbn; try done.
  - intros k st0 [[<- <-]|[Hne Hk0]]%lookup_insert_Some.
    + apply (state_ok_ext _ sm); [done|done|auto|]. destruct Hst. constructor; rewrite ?Ht, ?Ha; try done; [auto|].
      intros [??]%andb_true_iff ?. apply Hidle; [done| |done]. intros ->. by rewrite bool_decide_eq_true_2 in *.
    + apply (state_ok_ext _ sm); [done|done|auto|]. destruct (ok_states0 _ _ Hk0). constructor; try done.
      intros Hi. apply so_idle0. destruct strict; [|done]. cbn in *.
      by destruct Hskip as [->|[[-> ->]|[-> ->]]]; [|rewrite bool_decide_eq_false_2 by congruence..].
  - intros k1 k2 s1 s2 id [[<- <-]|[? H1]]%lookup_insert_Some [[<- <-]|[? H2]]%lookup_insert_Some; try done; eauto.
  - by rewrite map_size_insert_Some by (by rewrite Hk).
  - intros Hcl mt p Hp Hman. destruct (ok_layer0 Hcl mt p Hp Hman) as (k & st0 & Hk0 & Ht0 & Hc).
    destruct (decide (k = key)) as [->|Hne]; [|exists k, st0; by rewrite lookup_insert_ne].
    exists key, st'. rewrite lookup_insert_eq. simplify_eq. by rewrite Ht, Ha.
  - intros Hcl. destruct (ok_closed0 Hcl) as [E _]. rewrite E in Hk. by rewrite lookup_empty in Hk.
Qed.

Lemma sm_ok_lax strict skip sm : sm_ok strict skip sm -> sm_ok false None sm.
Proof.
  intros []. constructor; try done. intros key st Hk. by destruct (ok_states0 key st Hk).
Qed.

Lemma sm_ok_skip strict key sm :
  sm_ok strict (Some key) sm ->
  (forall st, sm_states sm !! key = Some st -> st_Sessions st = ∅ -> st_DebounceTimer st = true) ->
  sm_ok strict None sm.
Proof.
  intros [] Hidle. constructor; try done. intros k st Hk. destruct (ok_states0 k st Hk). constructor; try done.
  intros Hs He. destruct (decide (k = key)) as [->|Hne]; [by eapply Hidle|].
  apply so_idle0; [|done]. rewrite bool_decide_eq_false_2 by congruence. by destruct strict.
Qed.

(** A state leaves, the layer keeps only what the others ask for. *)
Lemma delete_state_ok strict skip sm key high :
  sm_ok strict skip sm -> skip = None \/ skip = Some key ->
  (sm_closed sm = false -> forall mt p, p ∈ default ∅ (high !! mt) -> sm_managed sm !! tm_hash (meta mt) = Some mt ->
    exists k st, k <> key /\ sm_states sm !! k = Some st /\ st_Torrent st = mt /\ covered (st_AppliedRanges st) p) ->
  sm_ok strict None (sm <| sm_states ::= delete key |> <| sm_high := high |>).
Proof.
  intros [] Hskip Hhigh. constructor; cbn; try done.
  - intros k st [Hne Hk]%lookup_delete_Some. apply (state_ok_ext _ sm); [done|done|auto|].
    destruct (ok_states0 k st Hk). constructor; try done. intros Hs. apply so_idle0.
    destruct Hskip as [->| ->]; [done|]. rewrite bool_decide_eq_false_2 by congruence. by destruct strict.
  - intros k1 k2 s1 s2 id [_ H1]%lookup_delete_Some [_ H2]%lookup_delete_Some. eauto.
  - etrans; [|exact ok_limit0]. apply map_subseteq_size, delete_subseteq.
  - intros Hcl mt p Hp Hman. destruct (Hhigh Hcl mt p Hp Hman) as (k & st & Hne & Hk & Ht & Hc).
    exists k, st. by rewrite lookup_delete_ne.
  - intros Hcl. destruct (ok_closed0 Hcl) as [-> ->]. by rewrite delete_empty.
Qed.

(** ** Sessions *)

Lemma count_delete preload sessions id s :
  sessions !! id = Some s ->
  count_sessions preload (delete id sessions) =
  (if Bool.eqb (ss_Preload s) preload then Z.pred else fun n => n) (count_sessions preload sessions).
Proof.
  intros Hs. unfold count_sessions. rewrite map_filter_delete. destruct (Bool.eqb_spec (ss_Preload s) preload) as [Hp|Hp].
  - rewrite map_size_delete_Some; [|exists s; by apply map_lookup_filter_Some].
    assert (0 < size (filter (fun e : Z * StreamSession => ss_Preload e.2 = preload) sessions))%nat; [|lia].
    apply Nat.neq_0_lt_0. intros E%eq_sym%eq_sym. apply map_size_empty_inv in E.
    assert (filter (fun e : Z * StreamSession => ss_Preload e.2 = preload) sessions !! id = Some s) as H
      by by apply map_lookup_filter_Some.
    by rewrite E in H.
  - rewrite map_size_delete_None; [done|]. apply map_lookup_filter_None. right. intros x Hx. by simplify_eq.
Qed.

Lemma count_insert preload sessions id s :
  sessions !! id = None ->
  count_sessions preload (<[id := s]> sessions) =
  (if Bool.eqb (ss_Preload s) preload then Z.succ else fun n => n) (count_sessions preload sessions).
Proof.
  intros Hs. unfold count_sessions. destruct (Bool.eqb_spec (ss_Preload s) preload) as [Hp|Hp].
  - rewrite map_filter_insert_True by done. rewrite map_size_insert_None; [lia|].
    apply map_lookup_filter_None. by left.
  - by rewrite map_filter_insert_False, delete_id by done.
Qed.

Lemma count_empty preload : count_sessions preload ∅ = 0.
Proof. unfold count_sessions. by rewrite map_filter_empty, map_size_empty. Qed.

Lemma count_nonneg preload sessions : 0 <= count_sessions preload sessions.
Proof. unfold count_sessions. lia. Qed.

(** Dropping a counted session keeps the counts exact; the clamps never act. *)
Lemma drop_session_spec id s st :
  st_Sessions st !! id = Some s ->
  st_ActiveStreams st = count_sessions false (st_Sessions st) ->
  st_ActivePreloads st = count_sessions true (st_Sessions st) ->
  drop_session id s st = st <| st_Sessions ::= delete id |>
    <| st_ActiveStreams := count_sessions false (delete id (st_Sessions st)) |>
    <| st_ActivePreloads := count_sessions true (delete id (st_Sessions st)) |>.
Proof.
  intros Hs Ha Hp. pose proof (count_nonneg false (delete id (st_Sessions st))) as H1.
  pose proof (count_nonneg true (delete id (st_Sessions st))) as H2.
  pose proof (count_delete false _ _ _ Hs) as E1. pose proof (count_delete true _ _ _ Hs) as E2.
  rewrite E1 in H1 |- *. rewrite E2 in H2 |- *. clear E1 E2.
  unfold drop_session. destruct st as [? ? ? ns np ? ss ? ?]. cbn in Hs, Ha, Hp, H1, H2 |- *. subst ns np.
  destruct (ss_Preload s); cbn in H1, H2 |- *;
    repeat match goal with |- context [?x <? 0] => destruct (Z.ltb_spec x 0); [lia|]; cbn end; done.
Qed.

(** A session is dropped and its channel closed. *)
Lemma drop_ok strict sm key st id s :
  sm_ok strict None sm -> sm_states sm !! key = Some st -> st_Sessions st !! id = Some s ->
  exists sm', close_done id (put_state key (drop_session id s st) sm) = Some sm' /\ sm_ok strict (Some key) sm' /\
    sm_states sm' = <[key := drop_session id s st]> (sm_states sm) /\ sm_managed sm' = sm_managed sm /\
    sm_closed sm' = sm_closed sm /\ sm_high sm' = sm_high sm.
Proof.
  intros Hok Hk Hs. pose proof (ok_states _ _ _ Hok _ _ Hk) as Hst.
  pose proof (drop_session_spec id s st Hs (so_streams _ _ _ _ Hst) (so_preloads _ _ _ _ Hst)) as Hd.
  set (st' := drop_session id s st) in *.
  assert (Hok' : sm_ok strict (Some key) (put_state key st' sm)).
  { eapply put_state_ok; [exact Hok|exact Hk|rewrite ?Hd; try done..]; [|by auto].
    intros i. cbn. rewrite lookup_delete_is_Some. tauto. }
  assert (Hid : id ∉ sm_done sm) by (eapply so_ids; [exact Hst|by eexists]).
  rewrite close_done_fresh by done. eexists. split; [done|]. split; [|done].
  assert (Hfree : forall k stk, <[key := st']> (sm_states sm) !! k = Some stk -> st_Sessions stk !! id = None).
  { intros k stk [[<- <-]|[Hne Hkk]]%lookup_insert_Some.
    - rewrite Hd. cbn. apply lookup_delete_eq.
    - apply eq_None_not_Some. intros His. destruct Hne.
      eapply (ok_distinct _ _ _ Hok); [exact Hk|exact Hkk|by eexists|exact His]. }
  destruct Hok'. constructor; try done.
  - intros k stk Hkk. apply (state_ok_ext _ (put_state key st' sm)); [done|done| |by apply ok_states0].
    intros i [x Hi] Hni. cbn. cbn in Hkk. apply not_elem_of_union. split; [|done].
    intros ->%elem_of_singleton. rewrite (Hfree _ _ Hkk) in Hi. done.
  - cbn. intros i [->%elem_of_singleton|Hi]%elem_of_union; [|by apply (ok_done0 i)].
    by destruct (so_ids _ _ _ _ Hst id ltac:(by eexists)) as [[_ ?] _].
Qed.

Lemma apply_diff_spec mt key old sm :
  exists high, applyOverlayDiff meta mt key old [] sm = Some (sm <| sm_high ::= <[mt := high]> |>) /\
    forall p, p ∈ high <-> p ∈ layer sm mt /\
      (~ in_bounds (tm_pieces (meta mt)) p \/ ~ covered old p \/
       exists k st, sm_states sm !! k = Some st /\ fk_Hash k = fk_Hash key /\ k <> key /\ covered (st_AppliedRanges st) p).
Proof.
  unfold applyOverlayDiff. cbv zeta. set (protected := aggregateTorrentRanges _ _ _ _).
  assert (Hpr : forall p, covered protected p <->
    exists k st, sm_states sm !! k = Some st /\ fk_Hash k = fk_Hash key /\ k <> key /\ covered (st_AppliedRanges st) p).
  { intros p. unfold protected, aggregateTorrentRanges. rewrite covered_merge. cbn [cloneStreamPieceRanges app].
    rewrite covered_all_applied. setoid_rewrite list_elem_of_fmap. split.
    - intros (st & ([k st'] & -> & [Hk [Hh Hne]]%elem_of_map_to_list%map_lookup_filter_Some) & Hc). by exists k, st'.
    - intros (k & st & Hk & Hh & Hne & Hc). exists st. split; [|done]. exists (k, st). split; [done|].
      by apply elem_of_map_to_list, map_lookup_filter_Some. }
  rewrite set_pieces_spec by by intros p [? _]%list_elem_of_filter.
  cbn [mbind option_bind]. rewrite set_pieces_spec by by intros p [? _]%list_elem_of_filter.
  cbn [mbind option_bind]. eexists. split; [done|]. intros p.
  rewrite <- Hpr, elem_of_union, elem_of_difference, !elem_of_list_to_set, !list_elem_of_filter, !elem_of_pieces, not_contains.
  pose proof (covered_nil p).
  destruct (decide (in_bounds (tm_pieces (meta mt)) p)); [|tauto].
  destruct (decide (streamRangesContainPiece old p = true)) as [Ho|Ho]; rewrite contain_spec in Ho; [|tauto].
  destruct (decide (streamRangesContainPiece protected p = true)) as [Hq|Hq]; rewrite contain_spec in Hq; tauto.
Qed.

Lemma clear_ok strict skip fs hash index sm :
  meta_ok -> sm_ok strict skip sm -> skip = None \/ skip = Some (mkKey hash index) -> facts_ok fs sm ->
  exists sm', clearStreamOverlayLocked meta fs hash index sm = Some sm' /\ sm_ok strict None sm' /\
    ((forall st, sm_states sm !! mkKey hash index = Some st -> st_Sessions st = ∅) ->
     sm_states sm' !! mkKey hash index = None).
Proof.
  intros Hm Hok Hskip Hfacts. set (key := mkKey hash index) in *. unfold clearStreamOverlayLocked. cbv zeta. fold key.
  destruct (sm_states sm !! key) as [st|] eqn:Hk.
  2: { exists sm. split_and!; try done. destruct Hskip as [->| ->]; [done|]. apply (sm_ok_skip _ key); [done|]. congruence. }
  pose proof (ok_states _ _ _ Hok _ _ Hk) as Hst.
  destruct (negb _ || negb _) eqn:Hbusy.
  { exists sm.
    assert (Hne : st_Sessions st <> ∅).
    { intros E. rewrite (so_streams _ _ _ _ Hst), (so_preloads _ _ _ _ Hst), E, !count_empty in Hbusy. done. }
    split_and!; try done; [|intros He; by destruct Hne; apply He].
    destruct Hskip as [->| ->]; [done|]. apply (sm_ok_skip _ key); [done|]. intros ? ? ?. by simplify_eq. }
  rewrite covered_clone. destruct (bool_decide_reflect (st_AppliedRanges st = [])) as [Hnil|Hnil].
  { exists (sm <| sm_states ::= delete key |>). split; [done|]. split; [|intros _; apply lookup_delete_eq].
    assert (E : sm <| sm_states ::= delete key |> = sm <| sm_states ::= delete key |> <| sm_high := sm_high sm |>) by by destruct sm.
    rewrite E. apply (delete_state_ok _ skip); [done..|]. intros Hcl mt p Hp Hman.
    destruct (ok_layer _ _ _ Hok Hcl mt p Hp Hman) as (k & st0 & Hk0 & Ht & Hc). exists k, st0.
    split; [|done]. intros ->. simplify_eq. rewrite Hnil in Hc. by apply covered_nil in Hc. }
  unfold streamFile. cbn [sm_managed]. pose proof (so_owner _ _ _ _ Hst) as Hown. cbn [fk_Hash key] in Hown.
  change (sm_managed (sm <| sm_states ::= delete key |>)) with (sm_managed sm). rewrite Hown.
  rewrite (Hfacts _ _ Hk). cbn [negb]. destruct (so_file _ _ _ _ Hst) as [file Hfile]. cbn [fk_Index key] in Hfile.
  rewrite Hfile, Nat.eqb_refl. cbn [negb].
  destruct (apply_diff_spec (st_Torrent st) key (st_AppliedRanges st) (sm <| sm_states ::= delete key |>)) as (high & Hd & Hhigh).
  rewrite Hd. cbn [mbind option_bind]. set (mt := st_Torrent st) in *.
  assert (Hlay : forall mt' p, p ∈ default ∅ (<[mt := high]> (sm_high sm) !! mt') -> sm_closed sm = false ->
    sm_managed sm !! tm_hash (meta mt') = Some mt' ->
    exists k st0, k <> key /\ sm_states sm !! k = Some st0 /\ st_Torrent st0 = mt' /\ covered (st_AppliedRanges st0) p).
  { intros mt' p Hp Hcl Hman.
    assert (Hp' : p ∈ layer sm mt' /\ (mt' = mt -> p ∈ high)).
    { destruct (decide (mt' = mt)) as [->|]; [rewrite lookup_insert_eq in Hp; by apply Hhigh in Hp as Hp2; split; [apply Hp2|]|].
      by rewrite lookup_insert_ne in Hp. }
    destruct Hp' as [Hl Hh]. destruct (ok_layer _ _ _ Hok Hcl mt' p Hl Hman) as (k & st0 & Hk0 & Ht0 & Hc0).
    destruct (decide (k = key)) as [->|Hne]; [|by exists k, st0]. simplify_eq. fold mt in Hh, Hman |- *.
    specialize (Hh eq_refl). apply Hhigh in Hh as [_ [Hh|[Hh|(k & st0 & Hk1 & Hhash & Hne & Hc1)]]].
    - destruct Hh. by eapply so_inside.
    - done.
    - cbn in Hk1. rewrite lookup_delete_ne in Hk1 by done. exists k, st0. split_and!; try done.
      pose proof (so_owner _ _ _ _ (ok_states _ _ _ Hok _ _ Hk1)) as Ho. rewrite Hhash in Ho. cbn in Ho. congruence. }
  eexists. split; [done|]. split.
  - unfold restoreBasePriorities, cancel_pieces. case_match.
    + apply (delete_state_ok _ skip sm key (<[mt := ∅]> (<[mt := high]> (sm_high sm)))); [done..|].
      intros Hcl mt' p Hp Hman. apply Hlay; try done. revert Hp.
      destruct (decide (mt' = mt)) as [->|]; [rewrite !lookup_insert_eq; cbn; set_solver|by rewrite !lookup_insert_ne].
    + apply (delete_state_ok _ skip sm key (<[mt := high]> (sm_high sm))); [done..|]. auto.
  - intros _. unfold restoreBasePriorities, cancel_pieces. case_match; apply lookup_delete_eq.
Qed.

Lemma schedule_ok strict skip hash index sm :
  sm_ok strict skip sm -> skip = None \/ skip = Some (mkKey hash index) ->
  sm_ok strict None (scheduleDebounceLocked hash index sm).
Proof.
  intros Hok Hskip. unfold scheduleDebounceLocked. set (key := mkKey hash index) in *.
  destruct (sm_states sm !! key) as [st|] eqn:Hk.
  2: { destruct Hskip as [->| ->]; [done|]. apply (sm_ok_skip _ key); [done|]. congruence. }
  pose proof (ok_states _ _ _ Hok _ _ Hk) as Hst.
  destruct (sm_closed sm) eqn:Hcl.
  { destruct (ok_closed _ _ _ Hok Hcl) as [E _]. rewrite E in Hk. done. }
  cbn [orb]. destruct (negb _ || negb _) eqn:Hbusy.
  { destruct Hskip as [->| ->]; [done|]. apply (sm_ok_skip _ key); [done|]. intros st' Hk' He. simplify_eq.
    rewrite (so_streams _ _ _ _ Hst), (so_preloads _ _ _ _ Hst), He, !count_empty in Hbusy. done. }
  eapply put_state_ok; [exact Hok|exact Hk|done|done|by cbn|apply Hst|apply Hst|done|].
  destruct Hskip as [->| ->]; auto.
Qed.

Lemma removeSession_ok strict fs hash index id debounce sm :
  meta_ok -> sm_ok strict None sm -> facts_ok fs sm ->
  exists sm', removeSessionLocked meta streamCacheSize fs hash index id debounce sm = Some sm' /\ sm_ok strict None sm'.
Proof.
  intros Hm Hok Hfacts. unfold removeSessionLocked. set (key := mkKey hash index).
  destruct (sm_states sm !! key) as [st|] eqn:Hk; [|by eauto].
  destruct (st_Sessions st !! id) as [s|] eqn:Hs; [|by eauto].
  pose proof (ok_states _ _ _ Hok _ _ Hk) as Hst.
  destruct (drop_ok strict sm key st id s Hok Hk Hs) as (sm1 & Hc & Hok1 & Hst1 & Hm1 & Hcl1 & _).
  pose proof (drop_session_spec id s st Hs (so_streams _ _ _ _ Hst) (so_preloads _ _ _ _ Hst)) as Hd.
  set (st' := drop_session id s st) in *. cbv zeta. rewrite Hc. cbn [mbind option_bind].
  assert (Hk1 : sm_states sm1 !! key = Some st') by (rewrite Hst1; apply lookup_insert_eq).
  destruct (_ || _) eqn:Hbusy.
  - assert (Hok1' : sm_ok strict None sm1).
    { apply (sm_ok_skip _ key); [done|]. intros x Hx He. assert (x = st') as -> by congruence.
      pose proof (ok_states _ _ _ Hok1 _ _ Hk1) as Hx'.
      rewrite (so_streams _ _ _ _ Hx'), (so_preloads _ _ _ _ Hx'), He, !count_empty in Hbusy. done. }
    destruct (refresh_ok strict None sm1 fs (st_Torrent st') Hm Hok1') as (r & sm2 & -> & Hok2 & _). by eauto.
  - destruct debounce; [eexists; split; [done|]; eapply schedule_ok; by eauto|].
    destruct (clear_ok strict (Some key) fs hash index sm1) as (sm2 & Hc2 & Hok2 & _); [done..|by right| |by eauto].
    intros k x. rewrite Hst1. intros [[<- <-]|[_ Hx]]%lookup_insert_Some; [rewrite Hd; cbn|]; by eapply Hfacts.
Qed.

Lemma rollback_ok strict hash index id sm :
  sm_ok strict None sm ->
  exists sm', rollbackSessionLocked hash index id sm = Some sm' /\ sm_ok false None sm'.
Proof.
  intros Hok. unfold rollbackSessionLocked. set (key := mkKey hash index).
  destruct (sm_states sm !! key) as [st|] eqn:Hk; [|by eauto using sm_ok_lax].
  destruct (st_Sessions st !! id) as [s|] eqn:Hs; [|by eauto using sm_ok_lax].
  destruct (drop_ok strict sm key st id s Hok Hk Hs) as (sm1 & Hc & Hok1 & Hst1 & Hm1 & Hcl1 & Hh1).
  set (st' := drop_session id s st) in *. cbv zeta.
  rewrite Hc. cbn [mbind option_bind].
  apply sm_ok_lax in Hok1. destruct (_ && _ && bool_decide (_ = [])) eqn:Hgone; [|by eauto].
  apply andb_true_iff in Hgone as [_ Hnil%bool_decide_eq_true]. eexists. split; [done|].
  assert (E : sm1 <| sm_states ::= delete key |> = sm1 <| sm_states ::= delete key |> <| sm_high := sm_high sm1 |>) by by destruct sm1.
  rewrite E. apply (delete_state_ok _ None); [done|by left|].
  intros Hcl mt p Hp Hman. destruct (ok_layer _ _ _ Hok1 Hcl mt p Hp Hman) as (k & st0 & Hk0 & Ht & Hc0).
  exists k, st0. split_and!; try done. intros ->. rewrite Hst1, lookup_insert_eq in Hk0. simplify_eq.
  rewrite Hnil in Hc0. by apply covered_nil in Hc0.
Qed.

(** The state a session enters. *)
Lemma enter_ok strict mt key opts preload sm id sm' :
  sm_ok strict None sm -> sm_managed sm !! fk_Hash key = Some mt -> is_Some (file_at meta mt (fk_Index key)) ->
  enter_session mt key opts preload sm = Ok (id, sm') ->
  sm_ok strict None sm' /\ sm_closed sm' = false /\ sm_managed sm' = sm_managed sm /\ sm_closed sm = false /\
  exists st, sm_states sm' = <[key := st]> (sm_states sm) /\ st_Torrent st = mt /\
    st_Sessions st !! id = Some (mkSession opts preload (so_AccountingOnly opts)).
Proof.
  intros Hok Hman Hfile. unfold enter_session. destruct (sm_closed sm) eqn:Hcl; [done|].
  destruct (bool_decide (_ = None) && _) eqn:Hlim; [done|]. cbv zeta.
  set (st0 := default (mkState (sm_next sm) mt 0 0 0 false ∅ [] false) (sm_states sm !! key)).
  set (n := sm_nextSessionID sm + 1). set (session := mkSession opts preload _). intros [= <- <-].
  assert (Hst0 : st_Torrent st0 = mt /\ st_ActiveStreams st0 = count_sessions false (st_Sessions st0) /\
    st_ActivePreloads st0 = count_sessions true (st_Sessions st0) /\ separated (st_AppliedRanges st0) /\
    (forall p, covered (st_AppliedRanges st0) p -> in_bounds (tm_pieces (meta mt)) p) /\
    (forall i, is_Some (st_Sessions st0 !! i) -> exists st, sm_states sm !! key = Some st /\ is_Some (st_Sessions st !! i))).
  { subst st0. destruct (sm_states sm !! key) as [st|] eqn:Hk; cbn.
    - pose proof (ok_states _ _ _ Hok _ _ Hk) as []. assert (st_Torrent st = mt) by congruence. subst mt.
      split_and!; try done. eauto.
    - rewrite !count_empty. do 3 (split; [done|]). split; [by repeat constructor|].
      split; [by intros ? ?%covered_nil|by intros i [? ?]]. }
  destruct Hst0 as (Ht & Ha & Hp & Hsep & Hin & Hids).
  assert (Hfresh : st_Sessions st0 !! n = None).
  { apply eq_None_not_Some. intros (st & Hk & Hi)%Hids. destruct (so_ids _ _ _ _ (ok_states _ _ _ Hok _ _ Hk) n Hi). lia. }
  set (st1 := if preload then _ else _).
  assert (Hst1 : st_Torrent st1 = mt /\ st_Sessions st1 = <[n := session]> (st_Sessions st0) /\
    st_AppliedRanges st1 = st_AppliedRanges st0 /\ st_ActiveStreams st1 = count_sessions false (st_Sessions st1) /\
    st_ActivePreloads st1 = count_sessions true (st_Sessions st1)).
  { subst st1. destruct preload; cbn; rewrite !count_insert by done; cbn; by rewrite Ha, Hp. }
  destruct Hst1 as (Ht1 & Hs1 & Hr1 & Ha1 & Hp1). clearbody st1.
  split; [|split_and!; try done; exists st1; split_and!; [done|done|rewrite Hs1; apply lookup_insert_eq]].
  assert (Hold : forall k s i, sm_states sm !! k = Some s -> is_Some (st_Sessions s !! i) -> 0 < i <= sm_nextSessionID sm /\ i ∉ sm_done sm).
  { intros k s i Hk. apply (so_ids _ _ _ _ (ok_states _ _ _ Hok _ _ Hk)). }
  assert (Hn : n = sm_nextSessionID sm + 1) by done. clearbody n.
  destruct (Hok). constructor; cbn -[insert]; try done.
  - intros k s [[<- <-]|[Hne Hk]]%lookup_insert_Some.
    + constructor; rewrite ?Ht1, ?Hr1; try done.
      * intros i. cbn. rewrite Hs1. intros [->|[Hni (s & Hk & Hi)%Hids]]%lookup_insert_is_Some.
        -- split; [lia|]. intros Hd%ok_done0. lia.
        -- destruct (Hold _ _ _ Hk Hi). split; [lia|done].
      * intros _ He. rewrite Hs1 in He. by apply insert_non_empty in He.
    + apply (state_ok_ext _ sm); [done|cbn; lia|auto|by apply ok_states0].
  - intros k1 k2 s1 s2 i. intros [[<- <-]|[Hn1 H1]]%lookup_insert_Some [[<- <-]|[Hn2 H2]]%lookup_insert_Some; try done.
    + rewrite Hs1. intros [->|[_ (s & Hk & Hi)%Hids]]%lookup_insert_is_Some Hi2; [|by eauto].
      destruct (Hold _ _ _ H2 Hi2). lia.
    + rewrite Hs1. intros Hi1 [->|[_ (s & Hk & Hi)%Hids]]%lookup_insert_is_Some; [|by eauto].
      destruct (Hold _ _ _ H1 Hi1). lia.
    + eauto.
  - destruct (sm_states sm !! key) as [s|] eqn:Hk; [by rewrite map_size_insert_Some by (by rewrite Hk)|].
    rewrite map_size_insert_None by done. rewrite bool_decide_eq_true_2 in Hlim by done. apply Nat.leb_gt in Hlim. lia.
  - intros i Hi%ok_done0. lia.
  - lia.
  - intros _ mt' p Hp' Hman'. destruct (ok_layer0 Hcl mt' p Hp' Hman') as (k & s & Hk & Hts & Hc).
    destruct (decide (k = key)) as [->|]; [|exists k, s; by rewrite lookup_insert_ne].
    exists key, st1. rewrite lookup_insert_eq, Ht1, Hr1. subst st0. rewrite Hk in *. cbn in *. split_and!; try done. congruence.
  - congruence.
Qed.


Lemma add_ok strict fs mt hash index opts preload sm :
  meta_ok -> sm_ok strict None sm -> (strict = true -> f_live fs = true) ->
  sm_managed sm !! hash = Some mt -> is_Some (file_at meta mt index) ->
  exists r sm', add_admitted meta streamCacheSize fs mt hash index opts preload sm = Some (r, sm') /\ sm_ok strict None sm'.
Proof.
  intros Hm Hok Hlive Hman Hfile. unfold add_admitted.
  destruct (enter_session mt (mkKey hash index) opts preload sm) as [[id sm1]|e] eqn:He; [|by eauto].
  destruct (enter_ok strict mt (mkKey hash index) opts preload sm id sm1 Hok Hman Hfile He) as (Hok1 & Hcl1 & Hm1 & _).
  destruct (refresh_ok strict None sm1 fs mt Hm Hok1) as (r & sm2 & -> & Hok2 & Herr & _). cbn [mbind option_bind].
  destruct r as [e|]; [|by eauto]. destruct (rollback_ok strict hash index id sm2 Hok2) as (sm3 & -> & Hok3).
  eexists _, _. split; [done|]. destruct strict; [|done]. exfalso.
  destruct Herr as [-> [Hc|Hc]]; [done| |congruence]. unfold current in Hc. rewrite Hlive in Hc by done.
  rewrite Hm1 in Hc. rewrite (ok_managed _ _ _ Hok _ _ Hman), bool_decide_eq_true_2 in Hc; done.
Qed.

Lemma expire_ok strict fs key ptr version sm :
  meta_ok -> sm_ok strict None sm -> facts_ok fs sm ->
  exists sm', expireDebounce meta fs key ptr version sm = Some sm' /\ sm_ok strict None sm'.
Proof.
  intros Hm Hok Hfacts. unfold expireDebounce. destruct (sm_states sm !! key) as [st|]; [|by eauto].
  case_match; [|by eauto]. destruct (clear_ok strict None fs (fk_Hash key) (fk_Index key) sm) as (sm' & ? & ? & _); auto; eauto.
Qed.

Lemma RemoveStream_ok strict fs pick hash index sm :
  meta_ok -> sm_ok strict None sm -> facts_ok fs sm ->
  exists sm', RemoveStream meta streamCacheSize fs pick hash index sm = Some sm' /\ sm_ok strict None sm'.
Proof.
  intros Hm Hok Hfacts. unfold RemoveStream. destruct (sm_states sm !! mkKey hash index) as [st|] eqn:Hk; [|by eauto].
  cbv zeta. destruct (_ && bool_decide (st_Sessions st = ∅) && _) eqn:Hlegacy.
  - exfalso. apply andb_true_iff in Hlegacy as [[_ He%bool_decide_eq_true]%andb_true_iff Ha].
    rewrite (so_streams _ _ _ _ (ok_states _ _ _ Hok _ _ Hk)), He, count_empty in Ha. done.
  - case_match; [|by eauto]. by apply removeSession_ok.
Qed.

(** ** Closing *)

Lemma elem_of_session_ids (states : list StreamState) (id : Z) :
  id ∈ session_ids states <-> exists st, st ∈ states /\ is_Some (st_Sessions st !! id).
Proof.
  unfold session_ids. rewrite list_elem_of_join. split.
  - intros (l & Hid & (st & -> & Hst)%list_elem_of_fmap). exists st. split; [done|].
    apply list_elem_of_fmap in Hid as ([i s] & -> & Hs%elem_of_map_to_list). by eexists.
  - intros (st & Hst & [s Hs]). eexists. split; [|apply list_elem_of_fmap; by exists st].
    apply list_elem_of_fmap. exists (id, s). split; [done|]. by apply elem_of_map_to_list.
Qed.

Lemma NoDup_session_ids (l : list (FileKey * StreamState)) :
  NoDup l.*1 ->
  (forall k1 k2 s1 s2 id, (k1, s1) ∈ l -> (k2, s2) ∈ l -> is_Some (st_Sessions s1 !! id) ->
    is_Some (st_Sessions s2 !! id) -> k1 = k2) ->
  NoDup (session_ids l.*2).
Proof.
  induction l as [|[k st] l IH]; intros Hnd Hdist; [constructor|]. cbn in *. apply NoDup_cons in Hnd as [Hni Hnd].
  change (session_ids (st :: l.*2)) with ((map_to_list (st_Sessions st)).*1 ++ session_ids l.*2).
  apply NoDup_app. split_and!; [apply NoDup_fst_map_to_list| |].
  2: { apply IH; [done|]. intros k1 k2 s1 s2 id H1 H2. apply Hdist; by right. }
  intros id (x & -> & Hx%elem_of_map_to_list')%list_elem_of_fmap (st' & Hst' & Hid)%elem_of_session_ids.
  apply list_elem_of_fmap in Hst' as ([k' s'] & -> & Hk').
  assert (k = k') as ->; [eapply (Hdist k k' st s' x.1); [by left|by right|by eexists|done]|].
  destruct Hni. apply list_elem_of_fmap. by exists (k', s').
Qed.

(** Closing the channels of some states of a well-formed manager. *)
Lemma close_states strict sm sm0 (gone : gmap FileKey StreamState) :
  sm_ok strict None sm -> gone ⊆ sm_states sm -> sm_done sm0 = sm_done sm ->
  exists done, close_each close_done (session_ids (map_to_list gone).*2) sm0 = Some (sm0 <| sm_done := done |>) /\
    forall id, id ∈ done <-> (exists k st, gone !! k = Some st /\ is_Some (st_Sessions st !! id)) \/ id ∈ sm_done sm.
Proof.
  intros Hok Hsub Hd.
  destruct (close_each_done (session_ids (map_to_list gone).*2) sm0) as (d & Hc & Hin).
  - apply NoDup_session_ids; [apply NoDup_fst_map_to_list|].
    intros k1 k2 s1 s2 id H1%elem_of_map_to_list H2%elem_of_map_to_list.
    eapply (ok_distinct _ _ _ Hok); by eapply lookup_weaken.
  - rewrite Hd. intros id (st & ([k st'] & -> & Hk%elem_of_map_to_list)%list_elem_of_fmap & Hid)%elem_of_session_ids.
    eapply so_ids; [|done]. eapply (ok_states _ _ _ Hok). by eapply lookup_weaken.
  - exists d. split; [done|]. intros id. rewrite Hin, Hd, elem_of_session_ids. setoid_rewrite list_elem_of_fmap.
    split; (intros [H|?]; [left|by right]).
    + destruct H as (st & ([k st'] & -> & Hk%elem_of_map_to_list) & Hid). by exists k, st'.
    + destruct H as (k & st & Hk & Hid). exists st. split; [|done]. exists (k, st).
      split; [done|]. by apply elem_of_map_to_list.
Qed.

Lemma close_handles strict sm sm0 (gone : gmap Z nat) :
  sm_ok strict None sm -> gone ⊆ sm_direct sm -> sm_cancelled sm0 = sm_cancelled sm ->
  exists cancelled, closeDirectHandles (map_to_list gone).*1 sm0 = Some (sm0 <| sm_cancelled := cancelled |>) /\
    forall id, id ∈ cancelled <-> is_Some (gone !! id) \/ id ∈ sm_cancelled sm.
Proof.
  intros Hok Hsub Hd. unfold closeDirectHandles.
  assert (Hin : forall id, id ∈ (map_to_list gone).*1 <-> is_Some (gone !! id)).
  { intros id. rewrite list_elem_of_fmap. split.
    - intros ([i mt] & -> & Hi%elem_of_map_to_list). by eexists.
    - intros [mt Hi]. exists (id, mt). split; [done|]. by apply elem_of_map_to_list. }
  destruct (close_each_cancel (map_to_list gone).*1 sm0) as (c & Hc & Hcin).
  - apply NoDup_fst_map_to_list.
  - rewrite Hd. intros id [mt Hi]%Hin. eapply (ok_direct _ _ _ Hok). by eapply lookup_weaken.
  - exists c. split; [done|]. intros id. by rewrite Hcin, Hin, Hd.
Qed.

Lemma delete_torrent_ok strict mt sm :
  sm_ok strict None sm -> exists sm', delete_torrent meta mt sm = Some sm' /\ sm_ok strict None sm'.
Proof.
  intros Hok. unfold delete_torrent. destruct (bool_decide_reflect (sm_managed sm !! tm_hash (meta mt) = Some mt)) as [Hman|]; [|by eauto].
  set (h := tm_hash (meta mt)) in *. unfold detachStreamsForTorrentLocked.
  set (gone := filter (fun e : FileKey * StreamState => st_Torrent e.2 = mt) _).
  destruct (close_states strict sm (sm <| sm_managed ::= delete h |>) gone Hok) as (d & -> & Hd);
    [apply map_filter_subseteq|done|]. cbn [mbind option_bind].
  set (handles := filter (fun e : Z * nat => e.2 = mt) _). set (sm1 := _ <| sm_direct ::= _ |>).
  destruct (close_handles strict sm sm1 handles Hok) as (c & -> & Hc); [apply map_filter_subseteq|done|].
  eexists. split; [done|]. destruct (Hok).
  assert (Hother : forall k st, sm_states sm !! k = Some st -> st_Torrent st <> mt -> fk_Hash k <> h).
  { intros k st Hk Hne E. pose proof (so_owner _ _ _ _ (ok_states0 _ _ Hk)) as Ho. rewrite E in Ho. congruence. }
  constructor; subst sm1; cbn -[delete filter]; try done.
  - intros k st [Hk Hne]%map_lookup_filter_Some. cbn in Hne. apply (state_ok_ext _ sm); [|done| |by apply ok_states0]; cbn -[delete].
    + rewrite lookup_delete_ne; [done|]. intros E. symmetry in E. by apply (Hother k st).
    + intros id Hid Hnd [(k' & st' & [Hk' Ht']%map_lookup_filter_Some & Hid')|?]%Hd; [|done]. cbn in Ht'.
      assert (k = k') as -> by by eapply ok_distinct0.
      assert (Some st = Some st') as [= ->] by (rewrite <- Hk; exact Hk'). done.
  - intros k1 k2 s1 s2 id [H1 _]%map_lookup_filter_Some [H2 _]%map_lookup_filter_Some. eauto.
  - intros hash m [_ ?]%lookup_delete_Some. eauto.
  - intros id m [Hi Hne]%map_lookup_filter_Some. cbn in Hne. destruct (ok_direct0 id m Hi) as (Hm & Hle & Hnc).
    split_and!; [|done|].
    + rewrite lookup_delete_ne; [done|]. intros E. subst h. rewrite <- E in Hm. congruence.
    + intros [[m' [Hi' Ht']%map_lookup_filter_Some]|?]%Hc; [|done]. cbn in Ht'.
      assert (Some m = Some m') as [= ->] by (rewrite <- Hi; exact Hi'). done.
  - etrans; [|exact ok_limit0]. apply map_subseteq_size, map_filter_subseteq.
  - intros id [(k & st & [Hk _]%map_lookup_filter_Some & Hid)|?]%Hd; [|by apply ok_done0].
    by destruct (so_ids _ _ _ _ (ok_states0 _ _ Hk) id Hid) as [[_ ?] _].
  - intros id [[m [Hi _]%map_lookup_filter_Some]|?]%Hc; [|by apply ok_cancelled0]. by apply (ok_direct0 id m).
  - intros Hcl m p Hp [Hne Hm]%lookup_delete_Some. destruct (ok_layer0 Hcl m p Hp Hm) as (k & st & Hk & Ht & Hcov).
    exists k, st. split_and!; try done. apply map_lookup_filter_Some. split; [done|]. cbn.
    intros E. apply Hne. unfold h. congruence.
  - intros Hcl. destruct (ok_closed0 Hcl) as [-> ->]. by rewrite !map_filter_empty.
Qed.

Lemma CloseAll_ok strict sm :
  sm_ok strict None sm -> exists sm', CloseAllStreams sm = Some sm' /\ sm_ok strict None sm'.
Proof.
  intros Hok. unfold CloseAllStreams.
  destruct (close_states strict sm (sm <| sm_closed := true |>) (sm_states sm) Hok) as (d & -> & Hd); [done|done|].
  cbn [mbind option_bind]. set (sm1 := _ <| sm_direct := _ |>).
  destruct (close_handles strict sm sm1 (sm_direct sm) Hok) as (c & Hc' & Hc); [done|done|].
  cbv zeta. change (sm_direct (sm <| sm_closed := true |> <| sm_done := d |>)) with (sm_direct sm). rewrite Hc'.
  eexists. split; [done|]. destruct (Hok). constructor; subst sm1; cbn; try done.
  - rewrite map_size_empty. lia.
  - intros id [(k & st & Hk & Hid)|?]%Hd; [|by apply ok_done0].
    by destruct (so_ids _ _ _ _ (ok_states0 _ _ Hk) id Hid) as [[_ ?] _].
  - intros id [[m Hi]|?]%Hc; [|by apply ok_cancelled0]. by apply (ok_direct0 id m).
Qed.

(** ** Steps *)

Lemma publish_ok strict mt sm : sm_ok strict None sm -> sm_ok strict None (publish meta mt sm).
Proof.
  intros Hok. unfold publish. destruct (sm_managed sm !! tm_hash (meta mt)) eqn:Hnone; [done|].
  destruct (Hok). constructor; cbn -[insert delete]; try done.
  - intros k st Hk. apply (state_ok_ext _ sm); [|done|auto|by apply ok_states0]. cbn -[insert].
    rewrite lookup_insert_ne; [done|]. intros E. pose proof (so_owner _ _ _ _ (ok_states0 _ _ Hk)). congruence.
  - intros h m [[<- <-]|[_ ?]]%lookup_insert_Some; eauto.
  - intros id m Hi. destruct (ok_direct0 id m Hi) as (Hm & Hle & Hc). split_and!; try done.
    rewrite lookup_insert_ne; [done|]. congruence.
  - intros Hcl m p. unfold layer. cbn -[insert delete]. destruct (decide (m = mt)) as [->|Hne].
    + rewrite lookup_delete_eq. cbn. set_solver.
    + rewrite lookup_delete_ne by done. intros Hp [[_ E]|[_ Hm]]%lookup_insert_Some; [congruence|]. by apply ok_layer0.
Qed.

Lemma direct_ok strict fs hash expected sm id sm' :
  sm_ok strict None sm -> RegisterDirectStream fs hash expected sm = Ok (id, sm') -> sm_ok strict None sm'.
Proof.
  intros Hok. unfold RegisterDirectStream. destruct (bool_decide_reflect (sm_managed sm !! hash = Some expected)) as [Hm|]; [|done].
  cbn [negb]. destruct (sm_closed sm) eqn:Hcl; [done|]. destruct (f_veto fs expected); [done|]. intros [= <- <-].
  destruct (Hok). constructor; cbn -[insert]; try done.
  - intros k st Hk. by apply (state_ok_ext _ sm); [done|done|auto|apply ok_states0].
  - intros i m [[<- <-]|[_ Hi]]%lookup_insert_Some.
    + rewrite (ok_managed0 _ _ Hm). split_and!; [done|lia|]. intros ?%ok_cancelled0. lia.
    + destruct (ok_direct0 i m Hi) as (? & ? & ?). split_and!; try done. lia.
  - intros i ?%ok_cancelled0. lia.
  - congruence.
Qed.

Lemma unregister_ok strict id sm : sm_ok strict None sm -> sm_ok strict None (unregister id sm).
Proof.
  intros []. constructor; cbn -[delete]; try done.
  - intros k st Hk. by apply (state_ok_ext _ sm); [done|done|auto|apply ok_states0].
  - intros i m [_ Hi]%lookup_delete_Some. eauto.
  - intros Hcl. destruct (ok_closed0 Hcl) as [-> ->]. by rewrite delete_empty.
Qed.

Lemma cancel_pieces_ok strict mt sm : sm_ok strict None sm -> sm_ok strict None (cancel_pieces mt sm).
Proof.
  intros []. constructor; try done.
  - intros k st Hk. by apply (state_ok_ext _ sm); [done|done|auto|apply ok_states0].
  - intros Hcl m p. unfold layer, cancel_pieces. cbn. destruct (decide (m = mt)) as [->|Hne].
    + rewrite lookup_insert_eq. cbn. set_solver.
    + rewrite lookup_insert_ne by done. apply ok_layer0, Hcl.
Qed.

(** The facts of an event: metadata stays known, and [strict] runs end with the
    engine's shutdown. *)
Definition event_facts (ev : stream_event) : option facts :=
  match ev with
  | StAdd fs _ _ _ _ | StAdmitted fs _ _ _ _ _ | StRemove fs _ _ _ _ | StRemoveStream fs _ _ _ | StExpire fs _ _ _
  | StRefresh fs _ | StQuiesce fs _ | StDirect fs _ _ => Some fs
  | _ => None
  end.

Definition event_ok (strict : bool) (ev : stream_event) (sm : StreamManager) : Prop :=
  forall fs, event_facts ev = Some fs -> facts_ok fs sm /\ (strict = true -> f_live fs = true).

Lemma streamFile_inv fs sm hash index mt file :
  streamFile meta fs sm hash index = Ok (mt, file) -> sm_managed sm !! hash = Some mt /\ file_at meta mt index = Some file.
Proof. unfold streamFile. intros H. repeat case_match; by simplify_eq. Qed.

Lemma stream_step_ok strict ev sm :
  meta_ok -> sm_ok strict None sm -> event_ok strict ev sm ->
  exists sm', stream_step meta streamCacheSize ev sm = Some sm' /\ sm_ok strict None sm'.
Proof.
  intros Hm Hok Hev. destruct ev; cbn [stream_step]; unfold event_ok in Hev; cbn in Hev;
    try (destruct (Hev _ eq_refl) as [Hfacts Hlive]; clear Hev).
  - unfold addSession_begin. destruct (negb _); [by eauto|].
    destruct (streamFile meta fs sm hash fileIndex) as [[mt file]|] eqn:Hf; [|by eauto].
    destruct (_ && _); [by eauto|]. apply streamFile_inv in Hf as [??].
    destruct (add_ok strict fs mt hash fileIndex opts preload sm) as (r & sm' & -> & ?); try done. by eauto.
  - unfold still_admitted. destruct (_ && _ && _) eqn:Ha; [|by eauto].
    apply andb_true_iff in Ha as [[?%bool_decide_eq_true _]%andb_true_iff ?%bool_decide_eq_true].
    destruct (add_ok strict fs mt hash fileIndex opts preload sm) as (r & sm' & -> & ?); try done. by eauto.
  - by apply removeSession_ok.
  - by apply RemoveStream_ok.
  - by apply expire_ok.
  - destruct (refresh_ok strict None sm fs mt Hm Hok) as (r & sm' & -> & ? & _). by eauto.
  - destruct (refresh_ok strict None (cancel_pieces mt sm) fs mt Hm) as (r & sm' & -> & ? & _); [by apply cancel_pieces_ok|]. by eauto.
  - destruct (RegisterDirectStream fs hash expected sm) as [[id sm']|] eqn:Hd; [|by eauto].
    eexists. split; [done|]. by eapply direct_ok.
  - eexists. split; [done|]. by apply unregister_ok.
  - eexists. split; [done|]. by apply publish_ok.
  - by apply delete_torrent_ok.
  - by apply CloseAll_ok.
Qed.

(** The runs of the manager. *)
Inductive stream_reachable (strict : bool) : StreamManager -> Prop :=
| stream_new : stream_reachable strict NewStreamManager
| stream_next sm ev sm' :
    stream_reachable strict sm -> event_ok strict ev sm -> stream_step meta streamCacheSize ev sm = Some sm' ->
    stream_reachable strict sm'.

Lemma stream_reachable_ok strict sm : meta_ok -> stream_reachable strict sm -> sm_ok strict None sm.
Proof.
  intros Hm. induction 1 as [|sm ev sm' _ IH Hev Hs]; [apply new_manager_ok|].
  destruct (stream_step_ok strict ev sm Hm IH Hev) as (sm1 & E & ?). congruence.
Qed.

End Safety.
