(* ===== verification/StreamProperties.v ===== *)
(** * Properties of the stream manager

    What the invariant of [StreamSafety] says about every run of the manager:
    no operation panics, the piece priorities of a torrent are those its sessions
    ask for, nothing is left behind. *)

From stdpp Require Import base gmap strings list.
From Stdlib Require Import ZArith Lia.
From S2P Require Import Prelude Paths StreamRanges StreamManager StreamSafety.

#[local] Open Scope Z_scope.
#[local] Open Scope list_scope.

(** ** A sample run *)

(** One torrent with one file of ten pieces. *)
Definition ten_pieces : torrent_meta :=
  mkMeta "h" 4 [mkBounds 0 40 0 10 "film.mkv"] 10.

Definition sample_meta (_ : nat) : torrent_meta := ten_pieces.

Definition sample_facts : facts :=
  mkFacts true (fun _ => true) (fun _ => true) (fun _ => false) (fun _ _ => false) (fun _ _ => true).

(** A session that plays from byte 20 with a window of two pieces. *)
Definition sample_opts : StreamOptions := mkOptions 20 (-1) true false false 8 false.

Definition run_streams (evs : list stream_event) : StreamManager :=
  foldl (fun sm ev => default sm (stream_step sample_meta 8 ev sm)) NewStreamManager evs.

Definition playing : list stream_event := [StPublish 0; StAdd sample_facts "h" 0 sample_opts false].

Definition idling : list stream_event := playing ++ [StRemove sample_facts "h" 0 1 true].

(** ** Reachability *)

Lemma sample_meta_ok : meta_ok sample_meta.
Proof.
  intros mt file Hf. apply list_elem_of_singleton in Hf as ->. right. split; [by constructor|]. cbn. lia.
Qed.

Lemma known_facts_ok strict ev sm : event_facts ev = Some sample_facts \/ event_facts ev = None -> event_ok strict ev sm.
Proof. intros H fs Hfs. destruct H as [H|H]; rewrite H in Hfs; simplify_eq. by split. Qed.

Lemma run_step evs ev sm :
  stream_reachable sample_meta 8 true (run_streams evs) ->
  event_facts ev = Some sample_facts \/ event_facts ev = None ->
  stream_step sample_meta 8 ev (run_streams evs) = Some sm ->
  stream_reachable sample_meta 8 true (run_streams (evs ++ [ev])).
Proof.
  intros Hr Hf Hs. unfold run_streams. rewrite foldl_snoc. fold (run_streams evs). rewrite Hs. cbn.
  by eapply stream_next; [done|apply known_facts_ok|].
Qed.

Lemma playing_reachable : stream_reachable sample_meta 8 true (run_streams playing).
Proof.
  apply (run_step [StPublish 0]) with (sm := run_streams playing); [|by left|vm_compute; reflexivity].
  apply (run_step []) with (sm := run_streams [StPublish 0]); [constructor|by right|vm_compute; reflexivity].
Qed.

Lemma idling_reachable : stream_reachable sample_meta 8 true (run_streams idling).
Proof.
  apply (run_step playing) with (sm := run_streams idling); [apply playing_reachable|by left|vm_compute; reflexivity].
Qed.

(** ** Properties *)

(** C31: in no run of the stream manager does an operation panic: no [Done] or
    cancel channel is closed twice and no piece outside the torrent is touched,
    whatever the order of adding, removing, expiring, refreshing, deleting and
    closing. *)
Theorem streams_never_panic meta cache strict ev sm :
  meta_ok meta -> stream_reachable meta cache strict sm -> event_ok strict ev sm ->
  exists sm', stream_step meta cache ev sm = Some sm'.
Proof.
  intros Hm Hr Hev. apply stream_reachable_ok in Hr; [|done].
  destruct (stream_step_ok _ cache _ ev _ Hm Hr Hev) as (sm' & H & _). by exists sm'.
Qed.

Lemma streams_never_panic_witness :
  exists sm', stream_step sample_meta 8 (StExpire sample_facts (mkKey "h" 0) 0 2) (run_streams idling) = Some sm'.
Proof.
  apply (streams_never_panic sample_meta 8 true); [apply sample_meta_ok|apply idling_reachable|].
  apply known_facts_ok. by left.
Defined.

(** sessions are counted exactly, at most 256 files have a state, a state
    belongs to the managed torrent of its hash, and a piece of a managed torrent
    has a stream priority only while the applied ranges of one of the torrent's
    states contain it: without states no priority is left behind. *)
Theorem stream_layer_never_leaks meta cache strict sm :
  meta_ok meta -> stream_reachable meta cache strict sm ->
  (forall key st, sm_states sm !! key = Some st ->
    sm_managed sm !! fk_Hash key = Some (st_Torrent st) /\
    st_ActiveStreams st = Z.of_nat (size (filter (fun e => ss_Preload e.2 = false) (st_Sessions st))) /\
    st_ActivePreloads st = Z.of_nat (size (filter (fun e => ss_Preload e.2 = true) (st_Sessions st)))) /\
  (size (sm_states sm) <= 256)%nat /\
  (sm_closed sm = false -> forall mt p, sm_managed sm !! tm_hash (meta mt) = Some mt -> p ∈ layer sm mt ->
    exists key st, sm_states sm !! key = Some st /\ st_Torrent st = mt /\
      streamRangesContainPiece (st_AppliedRanges st) p = true) /\
  (sm_closed sm = true -> sm_states sm = ∅ /\ sm_direct sm = ∅).
Proof.
  intros Hm Hok%stream_reachable_ok; [|done]. split_and!; [| | |by eapply ok_closed].
  - intros key st Hk. by destruct (ok_states _ _ _ _ Hok _ _ Hk).
  - by eapply ok_limit.
  - intros Hcl mt p Hman Hp. destruct (ok_layer _ _ _ _ Hok Hcl mt p Hp Hman) as (key & st & Hk & Ht & Hc).
    exists key, st. by rewrite contain_spec.
Qed.

Lemma stream_layer_never_leaks_witness :
  exists key st, sm_states (run_streams playing) !! key = Some st /\ st_Torrent st = 0%nat /\
    streamRangesContainPiece (st_AppliedRanges st) 5 = true.
Proof.
  apply (stream_layer_never_leaks sample_meta 8 true (run_streams playing)).
  - apply sample_meta_ok.
  - apply playing_reachable.
  - by vm_compute.
  - by vm_compute.
  - by vm_compute.
Defined.

(** after a refresh of a current torrent the pieces with a stream priority are
    exactly those that some state of the torrent wants: while the policy permits
    payload and the file is incomplete, the pieces of its sessions (those that
    only account excepted), or, during the debounce, the pieces applied last. *)
Theorem refreshed_layer_is_wanted meta cache strict sm fs mt :
  meta_ok meta -> stream_reachable meta cache strict sm ->
  current meta fs mt sm = true -> f_known fs mt = true -> sm_closed sm = false ->
  exists sm', refreshTorrentOverlayLocked meta cache fs mt sm = Some (None, sm') /\
    forall p, p ∈ layer sm' mt <->
      exists key st, sm_states sm !! key = Some st /\ st_Torrent st = mt /\ wanted meta cache fs mt key st p.
Proof.
  intros Hm Hok%stream_reachable_ok Hcur Hkn Hcl; [|done].
  destruct (refresh_total meta cache strict None sm fs mt) as (high & Hr & Hhigh); [done..|].
  exists (refreshed meta cache fs mt sm high). split; [done|]. intros p. unfold layer, refreshed. cbn.
  rewrite lookup_insert_eq. cbn. rewrite Hhigh. split; [|by left]. intros [?|[Hp Hno]]; [done|]. exfalso.
  apply Hno. eapply ok_layer; [done..|]. unfold current in Hcur. by split_bools.
Qed.

Lemma refreshed_layer_is_wanted_witness :
  exists sm', refreshTorrentOverlayLocked sample_meta 8 sample_facts 0 (run_streams playing) = Some (None, sm') /\
    forall p, p ∈ layer sm' 0 <->
      exists key st, sm_states (run_streams playing) !! key = Some st /\ st_Torrent st = 0%nat /\
        wanted sample_meta 8 sample_facts 0 key st p.
Proof.
  apply (refreshed_layer_is_wanted sample_meta 8 true (run_streams playing)).
  - apply sample_meta_ok.
  - apply playing_reachable.
  - by vm_compute.
  - by vm_compute.
  - by vm_compute.
Defined.

(** while the engine runs, a file whose last session ended always has its
    debounce timer set, and the expiry of that timer removes its state. *)
Theorem idle_streams_are_reclaimed meta cache sm fs key st :
  meta_ok meta -> stream_reachable meta cache true sm -> facts_ok fs sm ->
  sm_states sm !! key = Some st -> st_Sessions st = ∅ ->
  st_DebounceTimer st = true /\
  exists sm', expireDebounce meta fs key (st_ptr st) (st_TimerVersion st) sm = Some sm' /\
    sm_states sm' !! key = None.
Proof.
  intros Hm Hok%stream_reachable_ok Hf Hk He; [|done]. pose proof (ok_states _ _ _ _ Hok _ _ Hk) as Hst.
  split; [by eapply so_idle|]. unfold expireDebounce. rewrite Hk.
  destruct (sm_closed sm) eqn:Hcl; [destruct (ok_closed _ _ _ _ Hok Hcl) as [E _]; by rewrite E in Hk|].
  rewrite Nat.eqb_refl, Z.eqb_refl, (so_streams _ _ _ _ _ Hst), (so_preloads _ _ _ _ _ Hst), He, !count_empty. cbn [negb andb].
  destruct (clear_ok meta true None fs (fk_Hash key) (fk_Index key) sm) as (sm' & Hc & _ & Hgone); [done|done|by left|done|].
  exists sm'. split; [done|]. destruct key. apply Hgone. intros. cbn in *. congruence.
Qed.

Lemma idle_streams_are_reclaimed_witness :
  exists st, sm_states (run_streams idling) !! mkKey "h" 0 = Some st /\ st_DebounceTimer st = true.
Proof.
  destruct (sm_states (run_streams idling) !! mkKey "h" 0) as [st|] eqn:Hk; [|by vm_compute in Hk].
  exists st. split; [reflexivity|].
  apply (idle_streams_are_reclaimed sample_meta 8 (run_streams idling) sample_facts (mkKey "h" 0) st).
  - apply sample_meta_ok.
  - apply idling_reachable.
  - intros k s _. reflexivity.
  - exact Hk.
  - vm_compute in Hk. injection Hk as <-. reflexivity.
Defined.
