(* ===== verification/Layout.v ===== *)
(** * Payload layout

    The naming part of [internal/payload]: validation of relative paths and
    roots, the persisted [Layout] of a torrent and the physical path it gives a
    file of the metainfo, overlap of roots, and the symlink-free validation of a
    path before it is opened. *)

From stdpp Require Import base list strings.
From Stdlib Require Import ZArith Ascii Lia.
From S2P Require Import Prelude Paths.

#[local] Open Scope string_scope.
#[local] Arguments String.append : simpl nomatch.
#[local] Arguments Ascii.eqb : simpl never.

(** ** Data *)

Definition LayoutVersion : Z := 1.
Definition NamedLayoutVersion : Z := 2.

Record Layout := mkLayout {
  l_Version : Z;
  l_Root : string;
  l_Prefix : string;
}.

Inductive LayoutError :=
| UnsafeRelative        (* unsafe relative payload path *)
| UnsupportedLayout     (* unsupported storage layout *)
| InvalidIsolatedRoot   (* invalid legacy isolated root *)
| ErrUnsafePath
| OutsidePrefix         (* metadata path outside persisted prefix *)
| ErrNotRegular
| SymlinkRejected       (* wraps ErrUnsafePath *)
| FileError (e : string).

(** What the layout reads of a metainfo: the torrent's name and the path
    elements of each file. *)
Record Info := mkInfo {
  BestName : string;
  UpvertedFiles : list (list string);
}.

Definition NoName : string := "-".

(** ** Validation *)

Definition ValidateRelative (name : string) : result LayoutError unit :=
  if negb (is_local name) || (clean name =? ".") then Err UnsafeRelative else Ok tt.

Definition ValidRoot (root : string) : bool :=
  match split_on slash (clean root) with
  | [top; hash] => (top =? "payload") && (String.length hash =? 40)%nat && hex_ok hash
  | _ => false
  end.

Definition Root (hash : string) : string := path_join "payload" hash.

Definition Overlap (a b : string) : bool :=
  let a := clean a in
  let b := clean b in
  (a =? b) || has_prefix a (b ++ "/") || has_prefix b (a ++ "/").

Definition Supported (version : Z) : bool :=
  (version =? LayoutVersion)%Z || (version =? NamedLayoutVersion)%Z.

Definition backslash : ascii := "\"%char.

Definition Layout_Validate (l : Layout) : result LayoutError unit :=
  if negb (Supported (l_Version l)) || negb (is_ok (ValidateRelative (l_Root l)))
  then Err UnsupportedLayout
  else if (l_Version l =? LayoutVersion)%Z then
    if negb (ValidRoot (l_Root l)) || negb (l_Prefix l =? "") then Err InvalidIsolatedRoot else Ok tt
  else if contains_char backslash (l_Root l) || negb (clean (l_Root l) =? l_Root l) then Err ErrUnsafePath
  else if existsb (fun p => has_prefix (lower p) ".tsh-") (split_on slash (l_Root l)) then Err ErrUnsafePath
  else if negb (l_Prefix l =? "")
          && (negb (is_ok (ValidateRelative (l_Prefix l)))
              || contains_char slash (l_Prefix l) || contains_char backslash (l_Prefix l))
  then Err ErrUnsafePath
  else Ok tt.

(** ** Physical paths *)

Definition Layout_Relative (l : Layout) (metadataPath : string) : result LayoutError string :=
  let? _ := Layout_Validate l in
  let? _ := ValidateRelative metadataPath in
  let path := clean metadataPath in
  if negb (l_Prefix l =? "") then
    match cut_prefix path (l_Prefix l ++ "/") with
    | Some path => if is_ok (ValidateRelative path) then Ok path else Err OutsidePrefix
    | None => Err OutsidePrefix
    end
  else Ok path.

Definition Layout_Path (l : Layout) (metadataPath : string) : result LayoutError string :=
  let? path := Layout_Relative l metadataPath in
  Ok (path_join (l_Root l) path).

(** [filepath.Join(elem...)]: leading empty elements are skipped. *)
Fixpoint path_join_all (elems : list string) : string :=
  match elems with
  | [] => ""
  | e :: rest => if e =? "" then path_join_all rest else clean (join_with slash (e :: rest))
  end.

(** [payload.Path], through [storage.DefaultFilePathMaker]. *)
Definition Path (info : Info) (file : list string) : string :=
  let name := BestName info in
  path_join_all ((if negb (name =? NoName) && negb (name =? "") then [name] else []) ++ file)%list.

Definition Layout_File (l : Layout) (info : Info) (file : list string) : result LayoutError string :=
  Layout_Path l (Path info file).

Definition IsolatedPath (hash : string) (info : Info) (file : list string) : string :=
  path_join (Root hash) (Path info file).

Definition MetadataPrefix (info : Info) : string :=
  let name := BestName info in
  if negb (is_ok (ValidateRelative name)) || contains_char slash name || contains_char backslash name then ""
  else match UpvertedFiles info with
       | [] => ""
       | files => if forallb (fun f => has_prefix (Path info f) (name ++ "/")) files then name else ""
       end.

(** ** Opening a file without following symlinks *)

(** What [root.Lstat] reports for a path. *)
Inductive lstat_result :=
| NotExist
| LstatError (e : string)
| Entry (symlink regular : bool).

Section Validate.
Variable lstat : string -> lstat_result.

(** The loop over the prefixes of the path: [seen] are the elements already
    accepted, [rest] the ones still to check. *)
Fixpoint validate_from (seen rest : list string) : result LayoutError unit :=
    match rest with
    | [] => Ok tt
    | part :: rest =>
        let seen := (seen ++ [part])%list in
        match lstat (path_join_all seen) with
        | NotExist => Ok tt
        | LstatError e => Err (FileError e)
        | Entry symlink regular =>
            if symlink then Err SymlinkRejected
            else if match rest with [] => negb regular | _ => false end then Err ErrNotRegular
            else validate_from seen rest
        end
    end.

Definition Validate (name : string) : result LayoutError unit :=
    let? _ := ValidateRelative name in
    validate_from [] (split_on slash (clean name)).
End Validate.

(** ** Sample inputs of the witnesses *)

Definition sample_layout : Layout := mkLayout 2 "payload/My Show" "My Show".

(** A file system with a directory [a] and a regular file [a/f]. *)
Definition sample_lstat (path : string) : lstat_result :=
  if path =? "a" then Entry false false else if path =? "a/f" then Entry false true else NotExist.

(** ** Consequences of validation *)

(** The elements of a validated relative path: at least one, all plain. *)
Definition inside (parts : list string) : Prop := parts <> [] /\ Forall plain parts.

Lemma ValidateRelative_spec name :
  ValidateRelative name = Ok tt ->
  name <> "" /\ is_abs name = false /\ inside (clean_parts name) /\
  clean name = join_with slash (clean_parts name).
Proof.
  unfold ValidateRelative. destruct (is_local name) eqn:Hl; [|done].
  destruct (String.eqb_spec (clean name) "."); [done|]. intros _.
  destruct (clean_local name) as [? ?]; [done..|].
  pose proof (is_local_plain name Hl).
  unfold is_local in Hl. destruct (is_abs name); [done|].
  destruct (String.eqb_spec name ""); done.
Qed.

Lemma is_ok_ValidateRelative name : is_ok (ValidateRelative name) = true -> ValidateRelative name = Ok tt.
Proof. by destruct (ValidateRelative name) as [[]|]. Qed.

(** The cleaned form of a joined list of plain elements. *)
Lemma clean_parts_join parts : inside parts -> clean_parts (join_with slash parts) = parts.
Proof.
  intros [Hne Hp]. destruct (join_plain parts Hne Hp) as [_ Ha].
  unfold clean_parts. rewrite Ha, split_join by (done || by apply plain_no_slash).
  by rewrite fold_clean_plain, app_nil_r, rev_involutive.
Qed.

Lemma cut_prefix_spec s p t : cut_prefix s p = Some t -> s = p ++ t.
Proof.
  revert s. induction p as [|a p IH]; intros s; cbn; [by intros [= ->]|].
  destruct s as [|b s]; [done|]. destruct (Ascii.eqb_spec a b) as [->|]; [|done].
  intros H. by rewrite (IH _ H).
Qed.

(** Cutting a slash-free directory off a clean path removes its first element. *)
Lemma cut_directory parts prefix rest :
  inside parts -> no_slash prefix ->
  cut_prefix (join_with slash parts) (prefix ++ "/") = Some rest ->
  exists tail, parts = prefix :: tail /\ rest = join_with slash tail.
Proof.
  intros [Hne Hp] Hns Hcut. apply cut_prefix_spec in Hcut.
  rewrite append_assoc in Hcut. cbn [String.append] in Hcut.
  assert (parts = prefix :: split_on slash rest) as ->.
  { rewrite <-(split_join slash parts) by (done || by apply plain_no_slash).
    by rewrite Hcut, split_on_app. }
  exists (split_on slash rest). by rewrite join_split.
Qed.

Lemma Layout_Validate_root l : Layout_Validate l = Ok tt -> ValidateRelative (l_Root l) = Ok tt.
Proof.
  unfold Layout_Validate.
  destruct (is_ok (ValidateRelative (l_Root l))) eqn:H; [|by rewrite orb_true_r].
  intros _. by apply is_ok_ValidateRelative.
Qed.

Lemma Layout_Validate_prefix l :
  Layout_Validate l = Ok tt -> l_Prefix l <> "" -> no_slash (l_Prefix l).
Proof.
  unfold Layout_Validate, no_slash. intros H Hne.
  destruct (String.eqb_spec (l_Prefix l) ""); [done|]. cbn in H.
  repeat case_match; try done; split_bools; done.
Qed.

(** The relative path keeps the clean elements of the metadata path, minus the
    persisted prefix directory. *)
Lemma Layout_Relative_spec l metadataPath rel :
  Layout_Relative l metadataPath = Ok rel ->
  exists parts, inside parts /\ rel = join_with slash parts /\
    clean_parts metadataPath = ((if l_Prefix l =? "" then [] else [l_Prefix l]) ++ parts)%list.
Proof.
  unfold Layout_Relative. destruct (Layout_Validate l) as [[]|] eqn:Hv; [|done].
  destruct (ValidateRelative metadataPath) as [[]|] eqn:Hm; [|done].
  apply ValidateRelative_spec in Hm as (_ & _ & Hin & Hclean). rewrite Hclean.
  destruct (String.eqb_spec (l_Prefix l) "") as [|Hne]; cbn [negb].
  - intros [= <-]. by exists (clean_parts metadataPath).
  - destruct (cut_prefix _ _) as [path|] eqn:Hcut; [|done].
    apply cut_directory in Hcut as (tail & Hparts & ->); [|done|by apply Layout_Validate_prefix].
    destruct (is_ok (ValidateRelative (join_with slash tail))) eqn:Hok; [|done]. intros [= <-].
    apply is_ok_ValidateRelative, ValidateRelative_spec in Hok as (Hnt & _).
    exists tail. split; [|by rewrite Hparts].
    rewrite Hparts in Hin. destruct Hin as [_ [_ Htail]%Forall_cons].
    split; [|done]. intros ->. by apply Hnt.
Qed.

(** ** Properties *)

(** C29: the physical path of a file never leaves the torrent's root: its
    elements are those of the cleaned root followed by at least one element of the
    cleaned metadata path, and none of them is empty, a dot, a dot-dot or contains
    a separator. *)
Theorem layout_path_contained (l : Layout) (metadataPath physical : string) :
  Layout_Path l metadataPath = Ok physical ->
  exists parts, physical = join_with slash (clean_parts (l_Root l) ++ parts)%list /\
    parts <> [] /\ Forall plain (clean_parts (l_Root l) ++ parts)%list /\ clean_parts (l_Root l) <> [] /\
    clean_parts metadataPath = ((if l_Prefix l =? "" then [] else [l_Prefix l]) ++ parts)%list.
Proof.
  unfold Layout_Path. destruct (Layout_Relative l metadataPath) as [rel|] eqn:Hr; [|done]. intros [= <-].
  assert (ValidateRelative (l_Root l) = Ok tt) as Hroot.
  { unfold Layout_Relative in Hr. destruct (Layout_Validate l) as [[]|] eqn:Hv; [|done].
    by apply Layout_Validate_root. }
  apply ValidateRelative_spec in Hroot as (Hne & Habs & [Hrn Hrp] & _).
  apply Layout_Relative_spec in Hr as (parts & [Hpn Hpp] & -> & Heq).
  exists parts. rewrite path_join_plain by done. repeat split; try done. by apply Forall_app.
Qed.

(** ** Overlap *)

Lemma has_prefix_spec s p : has_prefix s p = true <-> exists t, s = p ++ t.
Proof.
  revert s. induction p as [|a p IH]; intros s; cbn.
  - split; [intros _; by exists s|done].
  - destruct s as [|b s]; [split; [done|by intros [t ?]]|].
    rewrite andb_true_iff, IH, Ascii.eqb_eq. split.
    + intros [-> [t ->]]. by exists t.
    + intros [t [= -> ->]]. split; [done|by exists t].
Qed.

Lemma join_app a b :
  a <> [] -> b <> [] -> join_with slash (a ++ b)%list = join_with slash a ++ "/" ++ join_with slash b.
Proof.
  intros Ha Hb. induction a as [|x a IH]; [done|]. destruct a as [|y a].
  - destruct b; [done|]. reflexivity.
  - rewrite <-(app_comm_cons (y :: a)), !(join_with_cons slash x), IH by (done || by destruct b).
    by rewrite append_assoc.
Qed.

Lemma directory_prefix_spec xs ys :
  inside xs -> inside ys ->
  has_prefix (join_with slash xs) (join_with slash ys ++ "/") = true <->
  exists zs, zs <> [] /\ xs = (ys ++ zs)%list.
Proof.
  intros [Hx Hxp] [Hy Hyp]. rewrite has_prefix_spec. split.
  - intros [t Ht]. rewrite append_assoc in Ht. cbn [String.append] in Ht.
    exists (split_on slash t). split; [apply split_on_nonempty|].
    rewrite <-(split_join slash xs), Ht, split_on_app_sep by (done || by apply plain_no_slash).
    by rewrite split_join by (done || by apply plain_no_slash).
  - intros (zs & Hz & ->). exists (join_with slash zs).
    by rewrite join_app, append_assoc.
Qed.

Lemma join_inj xs ys : inside xs -> inside ys -> join_with slash xs = join_with slash ys -> xs = ys.
Proof. intros Hx Hy H. by rewrite <-(clean_parts_join xs), <-(clean_parts_join ys), H. Qed.

(** two validated relative paths overlap exactly when one is the other or a
    directory above it, element by element: [payload/ab] and [payload/abc] do not
    overlap although one string is a prefix of the other. *)
Theorem overlap_is_ancestry (a b : string) :
  ValidateRelative a = Ok tt -> ValidateRelative b = Ok tt ->
  Overlap a b = true <->
  clean_parts a `prefix_of` clean_parts b \/ clean_parts b `prefix_of` clean_parts a.
Proof.
  intros (_ & _ & Ha & Hca)%ValidateRelative_spec (_ & _ & Hb & Hcb)%ValidateRelative_spec.
  unfold Overlap. rewrite Hca, Hcb, !orb_true_iff, !directory_prefix_spec, String.eqb_eq by done.
  unfold prefix. split.
  - intros [[H|(zs & _ & H)]|(zs & _ & H)]; [|by right; exists zs|by left; exists zs].
    left. exists []. rewrite app_nil_r. symmetry. by apply join_inj.
  - intros [[zs H]|[zs H]]; destruct zs as [|z zs].
    + left. left. rewrite app_nil_r in H. by rewrite H.
    + right. by exists (z :: zs).
    + left. left. rewrite app_nil_r in H. by rewrite H.
    + left. right. by exists (z :: zs).
Qed.

(** ** Symlinks *)

Lemma validate_from_spec lstat rest : forall seen i,
  validate_from lstat seen rest = Ok tt -> (i < length rest)%nat ->
  (forall j, (j <= i)%nat -> lstat (path_join_all (seen ++ take (S j) rest)%list) <> NotExist) ->
  exists regular, lstat (path_join_all (seen ++ take (S i) rest)%list) = Entry false regular /\
    (S i = length rest -> regular = true).
Proof.
  induction rest as [|part rest IH]; intros seen i; cbn; [lia|]. intros H Hi Hex.
  pose proof (Hex 0%nat ltac:(lia)) as H0. cbn in H0. rewrite take_0 in H0.
  destruct (lstat _) as [|e|sym reg] eqn:Hl; [done|done|].
  destruct sym; [done|]. destruct i as [|i].
  - rewrite take_0, Hl. exists reg. split; [done|]. destruct rest; [by destruct reg|done].
  - destruct (match rest with [] => negb reg | _ => false end); [done|].
    destruct (IH (seen ++ [part])%list i H) as (regular & Hr & Hlast); [lia|..].
    { intros j Hj. rewrite <-app_assoc. apply (Hex (S j)). lia. }
    exists regular. rewrite <-app_assoc in Hr. split; [done|]. intros. apply Hlast. lia.
Qed.

(** a path accepted for opening has no symbolic link among the entries
    that exist along it, and if its last element exists it is a regular file. *)
Theorem validated_path_has_no_symlink (lstat : string -> lstat_result) (name : string) (i : nat) :
  let parts := split_on slash (clean name) in
  Validate lstat name = Ok tt -> (i < length parts)%nat ->
  (forall j, (j <= i)%nat -> lstat (path_join_all (take (S j) parts)) <> NotExist) ->
  exists regular, lstat (path_join_all (take (S i) parts)) = Entry false regular /\
    (S i = length parts -> regular = true).
Proof.
  intros parts H Hi Hex. unfold Validate in H.
  destruct (ValidateRelative name) as [[]|]; [|done].
  by apply (validate_from_spec lstat parts []).
Qed.

(** ** Witnesses *)

Lemma layout_path_contained_witness :
  Layout_Path sample_layout "My Show/s1/../e1.mkv" = Ok "payload/My Show/e1.mkv" /\
  Forall plain ["payload"; "My Show"; "e1.mkv"].
Proof.
  split; [by vm_compute|].
  destruct (layout_path_contained sample_layout "My Show/s1/../e1.mkv" "payload/My Show/e1.mkv" eq_refl)
    as (parts & _ & _ & Hp & _ & Heq).
  vm_compute in Heq. injection Heq as <-. exact Hp.
Defined.

Lemma overlap_is_ancestry_witness : Overlap "payload/ab" "payload/abc" = false.
Proof.
  apply not_true_iff_false. intros H.
  apply (overlap_is_ancestry "payload/ab" "payload/abc" eq_refl eq_refl) in H.
  destruct H as [[zs H]|[zs H]]; vm_compute in H; discriminate.
Defined.

Lemma validated_path_has_no_symlink_witness : exists regular, sample_lstat "a/f" = Entry false regular.
Proof.
  destruct (validated_path_has_no_symlink sample_lstat "a/f" 1 eq_refl) as (r & H & _).
  - vm_compute. lia.
  - intros [|[|j]] Hj; [done|done|lia].
  - by exists r.
Defined.
