(* ===== verification/FastResume.v ===== *)
(** * Fast-resume policy

    [internal/fastresume/policy.go]: the checkpoint of verified pieces that is
    written beside a torrent, its validation, and the filter that decides which
    of its piece claims survive a restart.  Bitmaps are lists of bytes, least
    significant bit first; an out-of-range index is a panic, the value [None]. *)

From stdpp Require Import base gmap list strings.
From Stdlib Require Import ZArith Ascii Strings.Byte Lia.
From coqutil Require Import Byte.
From S2P Require Import Prelude Paths Layout.

#[local] Open Scope string_scope.
#[local] Open Scope Z_scope.

(** ** Limits and data *)

Definition SchemaVersion : Z := 1.
Definition MaxPieces : Z := Z.shiftl 4 20.
Definition MaxFiles : Z := 4096.
Definition MaxCheckpointBytes : Z := Z.shiftl 4 20.
Definition MaxPathBytes : Z := Z.shiftl 1 20.
Definition MaxPathLength : Z := 4096.
Definition MaxPathDepth : Z := 128.
Definition MaxIdentityLength : Z := 256.

(** [type Mode string]. *)
Definition Fast : string := "fast".
Definition Verify : string := "verify".

Definition ParseMode (value : string) : result string string :=
  if (value =? "")%string || (value =? Fast)%string then Ok Fast
  else if (value =? Verify)%string then Ok Verify
  else Err value.

Record Identity := mkIdentity {
  RecordID : string;
  StorageID : string;
  MappingRevision : Z;
  id_LayoutVersion : Z;
  id_Root : string;
  id_Prefix : string;
  MetainfoDigest : string;
  CatalogDigest : string;
  VolumeID : string;
  PieceLength : Z;
  PieceCount : Z;
  ExtentLength : Z;
}.
#[export] Instance Identity_eq_dec : EqDecision Identity.
Proof. solve_decision. Defined.

Record Evidence := mkEvidence {
  Present : bool;
  ev_Identity : string;
  Size : Z;
  ModifiedNS : Z;
}.
#[export] Instance Evidence_eq_dec : EqDecision Evidence.
Proof. solve_decision. Defined.

Record File := mkFile {
  f_Path : string;
  Offset : Z;
  Length : Z;
  f_Evidence : Evidence;
}.

Record Checkpoint := mkCheckpoint {
  Schema : Z;
  c_Identity : Identity;
  Generation : Z;
  CreatedAtMS : Z;
  Files : list File;
  Pieces : list byte;
}.

(** [Diverged] is not a Go error: it stands for a parent walk that does not end. *)
Inductive CheckpointError :=
| ErrInvalid
| ErrBudget
| ErrUnexpectedEOF
| Diverged.
#[export] Instance CheckpointError_eq_dec : EqDecision CheckpointError.
Proof. solve_decision. Defined.

Definition len (s : string) : Z := Z.of_nat (String.length s).

(** ** Bitmaps *)

Definition bitmapBytes (pieces : Z) : Z := Z.quot (pieces + 7) 8.

Definition validBitmap (bits : list byte) (pieces : Z) : bool :=
  if (pieces <? 0) || (pieces >? MaxPieces) || negb (Z.of_nat (length bits) =? bitmapBytes pieces) then false
  else (Z.rem pieces 8 =? 0)
       || (Z.shiftr (byte.unsigned (default x00 (last bits))) (Z.rem pieces 8) =? 0).

(** [b &^ c] on bytes. *)
Definition and_not (b c : byte) : byte := byte.of_Z (Z.ldiff (byte.unsigned b) (byte.unsigned c)).

(** The statement [bits[piece/8] &^= 1 << uint(piece%8)]. *)
Definition clear_bit (bits : list byte) (piece : Z) : option (list byte) :=
  let i := Z.quot piece 8 in
  let shift := u64 (Z.rem piece 8) in
  let mask := if shift <? 8 then byte.of_Z (Z.shiftl 1 shift) else x00 in
  if i <? 0 then None
  else match bits !! Z.to_nat i with
       | Some b => Some (<[Z.to_nat i := and_not b mask]> bits)
       | None => None
       end.

(** The loop over [count] pieces from [piece]. *)
Fixpoint clear_pieces (count : nat) (piece : Z) (bits : list byte) : option (list byte) :=
  match count with
  | O => Some bits
  | S count =>
      match clear_bit bits piece with
      | Some bits => clear_pieces count (piece + 1) bits
      | None => None
      end
  end.

Definition clearFilePieces (bits : list byte) (pieceLength offset length : Z) : option (list byte) :=
  if length =? 0 then Some bits
  else if pieceLength =? 0 then None
  else
    let begin := Z.quot offset pieceLength in
    let fin := Z.quot (i64 (offset + length - 1)) pieceLength in
    clear_pieces (Z.to_nat (fin - begin + 1)) begin bits.

(** ** Validation *)

Definition validDigest (value : string) : bool :=
  if negb (len value =? 64) then false else hex_ok value.

Definition nul : ascii := Ascii.zero.

(** [count] of [Identity.validate]: pieces of the extent, rounded up. *)
Definition extent_pieces (id : Identity) : Z :=
  let count := Z.quot (ExtentLength id) (PieceLength id) in
  if negb (Z.rem (ExtentLength id) (PieceLength id) =? 0) then count + 1 else count.

Definition bad_label (s : string) : bool := (s =? "")%string || (len s >? MaxIdentityLength).

Definition Identity_validate (id : Identity) : result CheckpointError unit :=
  if PieceCount id <? 0 then Err ErrInvalid
  else if PieceCount id >? MaxPieces then Err ErrBudget
  else if bad_label (RecordID id) || bad_label (StorageID id) || bad_label (VolumeID id)
          || (MappingRevision id <=? 0)
          || negb (validDigest (MetainfoDigest id)) || negb (validDigest (CatalogDigest id))
  then Err ErrInvalid
  else if (len (id_Root id) >? MaxPathLength) || (len (id_Prefix id) >? MaxPathLength) then Err ErrBudget
  else if contains_char nul (id_Root id) || contains_char nul (id_Prefix id) then Err ErrInvalid
  else if negb (is_ok (Layout_Validate (mkLayout (id_LayoutVersion id) (id_Root id) (id_Prefix id))))
  then Err ErrInvalid
  else if (PieceLength id <=? 0) || (ExtentLength id <? 0) then Err ErrInvalid
  else if negb (extent_pieces id =? PieceCount id) then Err ErrInvalid
  else Ok tt.

(** [strings.Count(s, sep)] for a one-byte separator. *)
Fixpoint count_char (c : ascii) (s : string) : Z :=
  match s with
  | EmptyString => 0
  | String a s => (if Ascii.eqb a c then 1 else 0) + count_char c s
  end.

Section Validate.
(** [strings.ToLower(norm.NFC.String(.))], from [golang.org/x/text] and the
    Unicode case tables. *)
Context (unicode_fold : string -> string).

Definition CollisionKey (path : string) : string := unicode_fold (clean path).

(** The loop over [c.Files]: the collision keys it collects. *)
Fixpoint check_files (extent : Z) (files : list File) (paths : gset string) (pathBytes fin : Z)
    : result CheckpointError (gset string) :=
  match files with
  | [] => Ok paths
  | f :: files =>
      let pathBytes := pathBytes + len (f_Path f) in
      if (pathBytes >? MaxPathBytes) || (len (f_Path f) >? MaxPathLength)
         || (count_char slash (f_Path f) >=? MaxPathDepth)
         || (len (ev_Identity (f_Evidence f)) >? MaxIdentityLength)
      then Err ErrBudget
      else if contains_char nul (f_Path f) || negb (is_ok (ValidateRelative (f_Path f)))
              || negb (clean (f_Path f) =? f_Path f)%string
              || (Offset f <? fin) || (Length f <? 0) || (Offset f >? extent)
              || (Length f >? i64 (extent - Offset f))
      then Err ErrInvalid
      else
        let key := CollisionKey (f_Path f) in
        if bool_decide (key ∈ paths) then Err ErrInvalid
        else if (Size (f_Evidence f) <? 0)
                || (Present (f_Evidence f) && (ev_Identity (f_Evidence f) =? "")%string)
        then Err ErrInvalid
        else check_files extent files ({[key]} ∪ paths) pathBytes (i64 (Offset f + Length f))
  end.

(** The walk over the parents of one key: is any of them a key itself? *)
Fixpoint parent_walk (fuel : nat) (paths : gset string) (parent : string) : result CheckpointError unit :=
  if (parent =? ".")%string then Ok tt
  else if bool_decide (parent ∈ paths) then Err ErrInvalid
  else match fuel with
       | O => Err Diverged
       | S fuel => parent_walk fuel paths (dir parent)
       end.

Fixpoint check_parents (paths : gset string) (keys : list string) : result CheckpointError unit :=
  match keys with
  | [] => Ok tt
  | key :: keys =>
      let? _ := parent_walk (String.length key) paths (dir key) in
      check_parents paths keys
  end.

Definition Checkpoint_Validate (c : Checkpoint) : result CheckpointError unit :=
  if negb (Schema c =? SchemaVersion) || (Generation c <=? 0) || (CreatedAtMS c <=? 0) then Err ErrInvalid
  else
    let? _ := Identity_validate (c_Identity c) in
    if Z.of_nat (length (Files c)) >? MaxFiles then Err ErrBudget
    else if (length (Files c) =? 0)%nat || negb (validBitmap (Pieces c) (PieceCount (c_Identity c)))
    then Err ErrInvalid
    else
      let? paths := check_files (ExtentLength (c_Identity c)) (Files c) ∅ 0 0 in
      check_parents paths (elements paths).

(** ** Filter *)

Inductive Reason :=
| Restored
| StrictMode
| NoCheckpoint
| InvalidCheckpoint
| BudgetExceeded
| IdentityChanged
| StorageBlocked
| FilesChanged
| PiecesRevoked.

Record Candidate := mkCandidate {
  cand_Reason : Reason;
  Bits : list byte;
}.

(** The loop that removes revoked bits: whether it removed any, and the bits. *)
Fixpoint revoke (bits revoked : list byte) : option (bool * list byte) :=
  match bits, revoked with
  | [], _ => Some (false, [])
  | _, [] => None
  | b :: bits, r :: revoked =>
      match revoke bits revoked with
      | Some (hit, rest) =>
          Some (negb (Z.land (byte.unsigned b) (byte.unsigned r) =? 0) || hit, and_not b r :: rest)
      | None => None
      end
  end.

(** The catalog comparison: path, offset and length of every file. *)
Fixpoint same_catalog (current saved : list File) : bool :=
  match current, saved with
  | f :: current, old :: saved =>
      (f_Path f =? f_Path old)%string && (Offset f =? Offset old) && (Length f =? Length old)
      && same_catalog current saved
  | _, _ => true
  end.

Definition stale (f old : File) : bool :=
  negb (Present (f_Evidence f)) || (Size (f_Evidence f) <? Length f)
  || negb (bool_decide (f_Evidence f = f_Evidence old)).

(** The loop that clears the pieces of changed files. *)
Fixpoint clear_changed (pieceLength : Z) (current saved : list File) (reason : Reason) (bits : list byte)
    : option Candidate :=
  match current, saved with
  | f :: current, old :: saved =>
      if stale f old then
        match clearFilePieces bits pieceLength (Offset f) (Length f) with
        | Some bits => clear_changed pieceLength current saved FilesChanged bits
        | None => None
        end
      else clear_changed pieceLength current saved reason bits
  | [], _ => Some (mkCandidate reason bits)
  | _ :: _, [] => None
  end.

Definition Filter (mode : string) (saved : option Checkpoint) (expected : Identity)
    (current : list File) (revoked : list byte) (blocked : bool) : option Candidate :=
  if negb (mode =? Fast)%string then Some (mkCandidate StrictMode [])
  else if blocked then Some (mkCandidate StorageBlocked [])
  else match saved with
  | None => Some (mkCandidate NoCheckpoint [])
  | Some saved =>
      match Checkpoint_Validate saved with
      | Err e => Some (mkCandidate (if bool_decide (e = ErrBudget) then BudgetExceeded else InvalidCheckpoint) [])
      | Ok _ =>
          if negb (bool_decide (c_Identity saved = expected))
             || negb (length current =? length (Files saved))%nat
          then Some (mkCandidate IdentityChanged [])
          else if negb (validBitmap revoked (PieceCount expected))
          then Some (mkCandidate InvalidCheckpoint [])
          else if negb (same_catalog current (Files saved)) then Some (mkCandidate IdentityChanged [])
          else match revoke (Pieces saved) revoked with
               | Some (hit, bits) =>
                   clear_changed (PieceLength expected) current (Files saved)
                     (if hit then PiecesRevoked else Restored) bits
               | None => None
               end
      end
  end.
End Validate.

(** ** Sample checkpoint of the witnesses *)

Definition sample_digest : string :=
  "00112233445566778899aabbccddeeff00112233445566778899aabbccddeeff".
Definition sample_identity : Identity :=
  mkIdentity "record" "storage" 1 2 "payload/Show" "Show" sample_digest sample_digest "volume" 4 3 10.
Definition sample_a : File := mkFile "Show/a.mkv" 0 6 (mkEvidence true "inode-1" 6 100).
Definition sample_b : File := mkFile "Show/b.mkv" 6 4 (mkEvidence true "inode-2" 4 100).
Definition sample_checkpoint : Checkpoint :=
  mkCheckpoint 1 sample_identity 1 1000 [sample_a; sample_b] [x07].

(** The second file was modified since. *)
Definition sample_current : list File :=
  [sample_a; mkFile "Show/b.mkv" 6 4 (mkEvidence true "inode-2" 4 200)].

(** ** Bits *)

(** Piece [p] of a bitmap. *)
Definition bit (bits : list byte) (p : Z) : bool :=
  match bits !! Z.to_nat (p / 8) with
  | Some b => Z.testbit (byte.unsigned b) (p mod 8)
  | None => false
  end.

(** Piece [p] holds a byte of the extent [offset, offset + length). *)
Definition in_piece (pieceLength offset length p : Z) : Prop :=
  exists b, offset <= b < offset + length /\ b / pieceLength = p.

(** Fresh evidence that still supports what was recorded for the file. *)
Definition unchanged (f old : File) : Prop :=
  Present (f_Evidence f) = true /\ Length f <= Size (f_Evidence f) /\ f_Evidence f = f_Evidence old.

Lemma and_not_bit b c i : 0 <= i < 8 ->
  Z.testbit (byte.unsigned (and_not b c)) i =
  Z.testbit (byte.unsigned b) i && negb (Z.testbit (byte.unsigned c) i).
Proof.
  intros. unfold and_not. rewrite byte.unsigned_of_Z. unfold byte.wrap.
  by rewrite Z.mod_pow2_bits_low, Z.ldiff_spec by lia.
Qed.

Lemma mask_bit k i : 0 <= k < 8 -> 0 <= i < 8 ->
  Z.testbit (byte.unsigned (byte.of_Z (Z.shiftl 1 k))) i = (i =? k).
Proof.
  intros. rewrite byte.unsigned_of_Z. unfold byte.wrap.
  rewrite Z.mod_pow2_bits_low by lia. rewrite Z.shiftl_1_l.
  destruct (Z.eqb_spec i k) as [->|]; [by apply Z.pow2_bits_true; lia|by apply Z.pow2_bits_false; lia].
Qed.

Lemma clear_bit_spec bits piece :
  0 <= piece < 8 * Z.of_nat (length bits) ->
  exists bits', clear_bit bits piece = Some bits' /\ length bits' = length bits /\
    forall p, 0 <= p -> bit bits' p = bit bits p && negb (p =? piece).
Proof.
  intros Hp. unfold clear_bit, u64.
  rewrite Z.quot_div_nonneg, Z.rem_mod_nonneg by lia.
  pose proof (Z.mod_pos_bound piece 8). pose proof (Z.div_mod piece 8).
  rewrite (Z.mod_small _ (2 ^ 64)) by lia.
  destruct (Z.ltb_spec (piece mod 8) 8); [|lia].
  destruct (Z.ltb_spec (piece / 8) 0); [lia|].
  destruct (lookup_lt_is_Some_2 bits (Z.to_nat (piece / 8))) as [b Hb]; [lia|].
  rewrite Hb. eexists. split; [done|]. split; [by rewrite length_insert|]. intros p Hp0. unfold bit.
  pose proof (Z.mod_pos_bound p 8). pose proof (Z.div_mod p 8).
  destruct (decide (p / 8 = piece / 8)) as [Heq|Hne].
  - rewrite Heq, list_lookup_insert_eq, Hb by lia.
    rewrite and_not_bit, mask_bit by lia. do 2 f_equal.
    destruct (Z.eqb_spec (p mod 8) (piece mod 8)), (Z.eqb_spec p piece); congruence || lia.
  - rewrite list_lookup_insert_ne by lia.
    destruct (Z.eqb_spec p piece); [by subst|]. by rewrite andb_true_r.
Qed.

Lemma clear_pieces_spec count : forall piece bits,
  0 <= piece -> piece + Z.of_nat count <= 8 * Z.of_nat (length bits) ->
  exists bits', clear_pieces count piece bits = Some bits' /\ length bits' = length bits /\
    forall p, 0 <= p ->
      bit bits' p = bit bits p && negb ((piece <=? p) && (p <? piece + Z.of_nat count)).
Proof.
  induction count as [|count IH]; intros piece bits Hp Hend; cbn [clear_pieces].
  - exists bits. split_and!; [done..|]. intros p ?.
    destruct (Z.leb_spec piece p), (Z.ltb_spec p (piece + Z.of_nat 0)); cbn; rewrite ?andb_true_r; done || lia.
  - destruct (clear_bit_spec bits piece) as (b1 & -> & Hl & Hb1); [lia|].
    destruct (IH (piece + 1) b1) as (b2 & -> & Hl2 & Hb2); [lia|lia|].
    exists b2. split_and!; [done|lia|]. intros p ?. rewrite Hb2, Hb1, <-andb_assoc by done. f_equal.
    destruct (Z.eqb_spec p piece), (Z.leb_spec piece p), (Z.ltb_spec p (piece + Z.of_nat (S count))),
      (Z.leb_spec (piece + 1) p), (Z.ltb_spec p (piece + 1 + Z.of_nat count)); cbn; lia || done.
Qed.

Lemma in_piece_spec pl offset length p :
  0 < pl -> 0 <= offset -> 0 < length ->
  in_piece pl offset length p <-> offset / pl <= p <= (offset + length - 1) / pl.
Proof.
  intros Hpl Ho Hl. split.
  - intros (b & Hb & <-). split; apply Z.div_le_mono; lia.
  - intros [H1 H2]. exists (Z.max offset (p * pl)).
    pose proof (Z.mul_div_le (offset + length - 1) pl Hpl).
    pose proof (Z.mul_succ_div_gt offset pl Hpl).
    split; [nia|]. apply Z.max_case_strong; intros Hm; [|apply Z.div_mul; lia].
    apply Z.le_antisymm; [done|]. apply Z.div_le_lower_bound; lia.
Qed.

Lemma clearFilePieces_spec bits pl offset len :
  0 < pl -> 0 <= offset -> 0 <= len -> offset + len < 2 ^ 63 ->
  (forall p, in_piece pl offset len p -> p < 8 * Z.of_nat (length bits)) ->
  exists bits', clearFilePieces bits pl offset len = Some bits' /\ length bits' = length bits /\
    forall p, 0 <= p -> bit bits' p = true <-> bit bits p = true /\ ~ in_piece pl offset len p.
Proof.
  intros Hpl Ho Hl Hmax Hin. unfold clearFilePieces.
  destruct (Z.eqb_spec len 0) as [->|Hne].
  { exists bits. split_and!; [done..|]. intros p ?. split; [|tauto]. intros. split; [done|].
    intros (b & ? & _). lia. }
  destruct (Z.eqb_spec pl 0); [lia|]. unwrap. rewrite !Z.quot_div_nonneg by lia.
  assert (offset / pl <= (offset + len - 1) / pl) by (apply Z.div_le_mono; lia).
  assert (0 <= offset / pl) by (apply Z.div_pos; lia).
  destruct (clear_pieces_spec (Z.to_nat ((offset + len - 1) / pl - offset / pl + 1)) (offset / pl) bits)
    as (bits' & -> & Hlen & Hb); [done|..].
  { rewrite Z2Nat.id by lia.
    specialize (Hin ((offset + len - 1) / pl)). rewrite in_piece_spec in Hin by lia. lia. }
  exists bits'. split_and!; [done..|]. intros p Hp. rewrite Hb, andb_true_iff, negb_true_iff by done.
  rewrite in_piece_spec, Z2Nat.id by lia.
  destruct (Z.leb_spec (offset / pl) p), (Z.ltb_spec p (offset / pl + ((offset + len - 1) / pl - offset / pl + 1)));
    cbn; intuition (done || lia).
Qed.

Lemma revoke_spec bits : forall revoked, length bits = length revoked ->
  exists hit bits', revoke bits revoked = Some (hit, bits') /\ length bits' = length bits /\
    forall p, 0 <= p -> bit bits' p = bit bits p && negb (bit revoked p).
Proof.
  induction bits as [|b bits IH]; intros [|r revoked]; try done; cbn.
  - intros _. exists false, []. split_and!; [done..|]. intros p _. unfold bit. by rewrite !lookup_nil.
  - intros [= Hl]. destruct (IH revoked Hl) as (hit & bits' & -> & Hl' & Hb).
    eexists _, _. split; [done|]. split; [cbn; by f_equal|]. intros p Hp.
    pose proof (Z.mod_pos_bound p 8). unfold bit.
    destruct (decide (p < 8)) as [Hlt|Hge].
    + rewrite Z.div_small by lia. cbn. apply and_not_bit. lia.
    + specialize (Hb (p - 8) ltac:(lia)). unfold bit in Hb.
      replace (p - 8) with (p + -1 * 8) in Hb by lia.
      rewrite Z.div_add, Z.mod_add in Hb by lia.
      assert (1 <= p / 8) by (apply Z.div_le_lower_bound; lia).
      replace (Z.to_nat (p / 8)) with (S (Z.to_nat (p / 8 + -1))) by lia. exact Hb.
Qed.

(** ** What validation establishes *)

Definition file_in (extent : Z) (f : File) : Prop :=
  0 <= Offset f /\ 0 <= Length f /\ Offset f + Length f <= extent.

Section ValidateFacts.
Context (fold : string -> string).

Lemma check_files_in extent files : forall paths bytes fin keys,
  in_i64 extent -> 0 <= fin ->
  check_files fold extent files paths bytes fin = Ok keys -> Forall (file_in extent) files.
Proof.
  unfold in_i64. induction files as [|f files IH]; intros paths bytes fin keys Hext Hfin; [by constructor|].
  cbn [check_files]. repeat case_match; try done. intros Hok. split_bools.
  assert (file_in extent f) as Hf.
  { unfold file_in. assert (i64 (extent - Offset f) = extent - Offset f) by (apply i64_id; unfold in_i64; lia). lia. }
  constructor; [done|]. eapply IH; [done| |exact Hok]. unfold file_in in Hf. rewrite i64_id; unfold in_i64; lia.
Qed.

Lemma Identity_validate_spec id :
  Identity_validate id = Ok tt ->
  0 <= PieceCount id <= MaxPieces /\ 0 < PieceLength id /\ 0 <= ExtentLength id /\
  PieceCount id = (ExtentLength id + PieceLength id - 1) / PieceLength id.
Proof.
  unfold Identity_validate. repeat case_match; try done. intros _. split_bools.
  assert (0 < PieceLength id) as Hpl by lia. split_and!; try lia.
  assert (extent_pieces id = PieceCount id) as <- by lia. unfold extent_pieces.
  rewrite Z.quot_div_nonneg, Z.rem_mod_nonneg by lia.
  pose proof (Z.mod_pos_bound (ExtentLength id) (PieceLength id) Hpl).
  pose proof (Z.div_mod (ExtentLength id) (PieceLength id)).
  destruct (Z.eqb_spec (ExtentLength id mod PieceLength id) 0); cbn [negb].
  - apply (Z.div_unique _ _ _ (PieceLength id - 1)); lia.
  - apply (Z.div_unique _ _ _ (ExtentLength id mod PieceLength id - 1)); lia.
Qed.

Lemma validBitmap_length bits pieces :
  validBitmap bits pieces = true -> Z.of_nat (length bits) = (pieces + 7) / 8.
Proof.
  unfold validBitmap, bitmapBytes. destruct (_ || _) eqn:E; [done|]. intros _. split_bools.
  rewrite Z.quot_div_nonneg in *; lia.
Qed.

Lemma Checkpoint_Validate_inv c :
  Checkpoint_Validate fold c = Ok tt ->
  Schema c = SchemaVersion /\ 0 < Generation c /\ 0 < CreatedAtMS c /\
  Identity_validate (c_Identity c) = Ok tt /\
  1 <= Z.of_nat (length (Files c)) <= MaxFiles /\
  validBitmap (Pieces c) (PieceCount (c_Identity c)) = true /\
  exists paths, check_files fold (ExtentLength (c_Identity c)) (Files c) ∅ 0 0 = Ok paths /\
    check_parents paths (elements paths) = Ok tt.
Proof.
  unfold Checkpoint_Validate. destruct (_ || _ || _) eqn:E1; [done|].
  destruct (Identity_validate _) as [[]|]; [|done].
  destruct (Z.gtb_spec (Z.of_nat (length (Files c))) MaxFiles); [done|].
  destruct ((length (Files c) =? 0)%nat || _) eqn:E2; [done|].
  destruct (check_files _ _ _ _ _ _) as [paths|] eqn:E3; [|done].
  intros Hp. split_bools. split_and!; try lia; try done. by exists paths.
Qed.
End ValidateFacts.

(** ** The filter *)

Definition same_place (f old : File) : Prop :=
  f_Path f = f_Path old /\ Offset f = Offset old /\ Length f = Length old.

Lemma same_catalog_spec current : forall saved, length current = length saved ->
  same_catalog current saved = true <-> Forall2 same_place current saved.
Proof.
  induction current as [|f current IH]; intros [|old saved]; cbn; try done.
  intros [= Hl]. rewrite !andb_true_iff, IH, Forall2_cons, String.eqb_eq, !Z.eqb_eq by done.
  unfold same_place. tauto.
Qed.

Lemma stale_spec f old : stale f old = false <-> unchanged f old.
Proof.
  unfold stale, unchanged. rewrite !orb_false_iff, !negb_false_iff, bool_decide_eq_true, Z.ltb_ge. tauto.
Qed.

Lemma and_not_disjoint b r :
  Z.land (byte.unsigned b) (byte.unsigned r) = 0 -> and_not b r = b.
Proof.
  intros H. unfold and_not. rewrite <-(byte.of_Z_unsigned b) at 2. f_equal.
  apply Z.bits_inj'. intros n Hn. rewrite Z.ldiff_spec.
  assert (Z.testbit (Z.land (byte.unsigned b) (byte.unsigned r)) n = false) as Hb by (rewrite H; apply Z.bits_0).
  rewrite Z.land_spec in Hb. by destruct (Z.testbit (byte.unsigned b) n), (Z.testbit (byte.unsigned r) n).
Qed.

Lemma revoke_nothing bits : forall revoked bits', revoke bits revoked = Some (false, bits') -> bits' = bits.
Proof.
  induction bits as [|b bits IH]; intros [|r revoked] bits'; cbn; try congruence.
  destruct (revoke bits revoked) as [[hit rest]|] eqn:E; [|done]. intros [= Hh <-].
  apply orb_false_iff in Hh as [Hz ->]. rewrite negb_false_iff, Z.eqb_eq in Hz.
  by rewrite and_not_disjoint, (IH revoked rest).
Qed.

(** What the clearing loop keeps, for files within a bitmap of the right size. *)
Lemma clear_changed_spec pl current : forall saved reason bits,
  0 < pl -> length current = length saved ->
  Forall (fun f => 0 <= Offset f /\ 0 <= Length f /\ Offset f + Length f < 2 ^ 63 /\
    forall p, in_piece pl (Offset f) (Length f) p -> p < 8 * Z.of_nat (length bits)) current ->
  exists c, clear_changed pl current saved reason bits = Some c /\
    (forall p, 0 <= p -> bit (Bits c) p = true <->
      bit bits p = true /\
      Forall2 (fun f old => in_piece pl (Offset f) (Length f) p -> unchanged f old) current saved) /\
    (cand_Reason c = reason /\ Bits c = bits \/ cand_Reason c = FilesChanged).
Proof.
  induction current as [|f current IH]; intros [|old saved] reason bits Hpl Hlen Hall; try done; cbn [clear_changed].
  - eexists. split; [done|]. split; [|by left]. intros p _. split; [|by intros []]. by split.
  - injection Hlen as Hlen. apply Forall_cons in Hall as [(Ho & Hl & Hmax & Hin) Hall].
    destruct (stale f old) eqn:Hs.
    + destruct (clearFilePieces_spec bits pl (Offset f) (Length f)) as (bits' & -> & Hl' & Hb); [done..|].
      rewrite <-Hl' in Hall. destruct (IH saved FilesChanged bits' Hpl Hlen Hall) as (c & -> & Hc & Hr).
      exists c. split; [done|]. split; [|right; naive_solver]. intros p Hp.
      rewrite Hc, Hb, Forall2_cons by done. rewrite <-not_false_iff_true in Hs. rewrite stale_spec in Hs. tauto.
    + apply stale_spec in Hs. destruct (IH saved reason bits Hpl Hlen Hall) as (c & -> & Hc & Hr).
      exists c. split; [done|]. split; [|done]. intros p Hp. rewrite Hc, Forall2_cons by done. tauto.
Qed.

Section FilterFacts.
Context (fold : string -> string).

(** The claim that piece [p] is verified survives: the checkpoint is valid for
    this very identity and catalog, claims the piece, the claim was not revoked,
    and every file with bytes in the piece is present and unchanged. *)
Definition supported (mode : string) (saved : option Checkpoint) (expected : Identity)
    (current : list File) (revoked : list byte) (blocked : bool) (p : Z) : Prop :=
  mode = Fast /\ blocked = false /\
  exists s, saved = Some s /\ Checkpoint_Validate fold s = Ok tt /\ c_Identity s = expected /\
    validBitmap revoked (PieceCount expected) = true /\
    bit (Pieces s) p = true /\ bit revoked p = false /\
    Forall2 same_place current (Files s) /\
    Forall2 (fun f old => in_piece (PieceLength expected) (Offset f) (Length f) p -> unchanged f old)
      current (Files s).

Lemma bitmap_covers_files s f :
  in_i64 (ExtentLength (c_Identity s)) -> Checkpoint_Validate fold s = Ok tt ->
  file_in (ExtentLength (c_Identity s)) f ->
  forall p, in_piece (PieceLength (c_Identity s)) (Offset f) (Length f) p ->
    p < 8 * Z.of_nat (length (Pieces s)).
Proof.
  intros Hext (_ & _ & _ & Hid & _ & Hbm & _)%Checkpoint_Validate_inv (Ho & Hl & He) p (b & Hb & <-).
  apply Identity_validate_spec in Hid as (Hpc & Hpl & Hex & Hcount).
  apply validBitmap_length in Hbm. rewrite Hbm.
  pose proof (Z.div_mod (PieceCount (c_Identity s) + 7) 8).
  pose proof (Z.mod_pos_bound (PieceCount (c_Identity s) + 7) 8).
  enough (b / PieceLength (c_Identity s) < PieceCount (c_Identity s)) by lia.
  rewrite Hcount. apply Z.div_lt_upper_bound; [done|].
  pose proof (Z.mul_succ_div_gt (ExtentLength (c_Identity s) + PieceLength (c_Identity s) - 1)
    (PieceLength (c_Identity s)) Hpl). nia.
Qed.

Lemma Forall2_files_in extent current saved :
  Forall2 same_place current saved -> Forall (file_in extent) saved -> Forall (file_in extent) current.
Proof.
  induction 1 as [|f old current saved (_ & Ho & Hl) _ IH]; [done|].
  intros [Hf Hrest]%Forall_cons. constructor; [|by apply IH]. unfold file_in in *. by rewrite Ho, Hl.
Qed.

(** The accepted case of the filter. *)
Lemma Filter_accepted s current revoked :
  in_i64 (ExtentLength (c_Identity s)) -> Checkpoint_Validate fold s = Ok tt ->
  validBitmap revoked (PieceCount (c_Identity s)) = true -> Forall2 same_place current (Files s) ->
  exists c, Filter fold Fast (Some s) (c_Identity s) current revoked false = Some c /\
    (forall p, 0 <= p -> bit (Bits c) p = true <->
      bit (Pieces s) p = true /\ bit revoked p = false /\
      Forall2 (fun f old => in_piece (PieceLength (c_Identity s)) (Offset f) (Length f) p -> unchanged f old)
        current (Files s)) /\
    (cand_Reason c = Restored -> Bits c = Pieces s).
Proof.
  intros Hext Hv Hrev Hsame. unfold Filter. rewrite Hv, bool_decide_true, Hrev by done. cbn.
  pose proof (Forall2_length _ _ _ Hsame) as Hlen.
  rewrite Hlen, Nat.eqb_refl, (proj2 (same_catalog_spec _ _ Hlen)) by done. cbn.
  pose proof (Checkpoint_Validate_inv fold s Hv) as (_ & _ & _ & Hid & _ & Hbm & paths & Hfiles & _).
  apply Identity_validate_spec in Hid as (_ & Hpl & Hex & _).
  pose proof (validBitmap_length _ _ Hbm). pose proof (validBitmap_length _ _ Hrev).
  destruct (revoke_spec (Pieces s) revoked) as (hit & bits & Hr & Hbl & Hb); [lia|]. rewrite Hr.
  apply check_files_in in Hfiles; [|done..]. apply (Forall2_files_in _ _ _ Hsame) in Hfiles.
  destruct (clear_changed_spec (PieceLength (c_Identity s)) current (Files s)
    (if hit then PiecesRevoked else Restored) bits Hpl Hlen) as (c & -> & Hc & Hreason).
  { eapply Forall_impl; [exact Hfiles|]. intros f Hf. pose proof Hf as (? & ? & ?). unfold in_i64 in Hext.
    split_and!; [lia..|]. rewrite Hbl. by apply bitmap_covers_files. }
  exists c. split; [done|]. split.
  - intros p Hp. rewrite Hc, Hb, andb_true_iff, negb_true_iff by done. tauto.
  - intros Hres. destruct Hreason as [[Hreason ->]|Hreason]; [|congruence].
    rewrite Hres in Hreason. destruct hit; [done|]. by apply revoke_nothing in Hr.
Qed.

Lemma Filter_cases mode saved expected current revoked blocked :
  (mode = Fast /\ blocked = false /\
   exists s, saved = Some s /\ Checkpoint_Validate fold s = Ok tt /\ c_Identity s = expected /\
     validBitmap revoked (PieceCount expected) = true /\ Forall2 same_place current (Files s)) \/
  (exists r, Filter fold mode saved expected current revoked blocked = Some (mkCandidate r []) /\
     r <> Restored /\ forall p, ~ supported mode saved expected current revoked blocked p).
Proof.
  unfold Filter, supported.
  destruct (String.eqb_spec mode Fast) as [->|]; cbn [negb]; [|right; naive_solver].
  destruct blocked; [right; naive_solver|]. destruct saved as [s|]; [|right; naive_solver].
  destruct (Checkpoint_Validate fold s) as [[]|e] eqn:Hv; [|right; eexists; split; [done|]; split; [by destruct e|intros p (_ & _ & s' & [= <-] & ? & _); congruence]].
  destruct (decide (c_Identity s = expected)) as [Hid|Hid]; [rewrite (bool_decide_true _ Hid)|rewrite (bool_decide_false _ Hid)];
    cbn [negb orb]; [|right; naive_solver].
  destruct (Nat.eqb_spec (length current) (length (Files s))) as [Hl|Hl]; cbn [negb].
  2:{ right. eexists. split; [done|]. split; [done|].
      intros p (_ & _ & s' & [= <-] & _ & _ & _ & _ & _ & Hs & _). by apply Forall2_length in Hs. }
  destruct (validBitmap revoked (PieceCount expected)) eqn:Hb; cbn [negb]; [|right; naive_solver].
  pose proof (same_catalog_spec _ _ Hl) as Hsame.
  destruct (same_catalog current (Files s)); cbn [negb].
  - left. split_and!; [done..|]. exists s. split_and!; [done..|]. by apply Hsame.
  - right. eexists. split; [done|]. split; [done|].
    intros p (_ & _ & s' & [= <-] & _ & _ & _ & _ & _ & Hs & _). by apply Hsame in Hs.
Qed.
End FilterFacts.

(** C10: the filter never panics, keeps exactly the piece claims that are
    supported by the checkpoint, the revocations and the fresh file evidence,
    and reports [Restored] only when it dropped no claim. *)
Theorem filter_keeps_exactly_supported (fold : string -> string) (mode : string)
    (saved : option Checkpoint) (expected : Identity) (current : list File)
    (revoked : list byte) (blocked : bool) :
  in_i64 (ExtentLength expected) ->
  exists c, Filter fold mode saved expected current revoked blocked = Some c /\
    (forall p, 0 <= p ->
      bit (Bits c) p = true <-> supported fold mode saved expected current revoked blocked p) /\
    (cand_Reason c = Restored -> option_map Pieces saved = Some (Bits c)).
Proof.
  intros Hext.
  destruct (Filter_cases fold mode saved expected current revoked blocked)
    as [(-> & -> & s & -> & Hv & <- & Hrev & Hsame)|(r & -> & Hr & Hno)].
  - destruct (Filter_accepted fold s current revoked) as (c & -> & Hc & Hr); [done..|].
    exists c. split; [done|]. split; [|cbn; intros H; by rewrite Hr].
    intros p Hp. rewrite Hc by done. unfold supported. naive_solver.
  - eexists. split; [done|]. split; [|done]. intros p _. cbn. unfold bit. rewrite lookup_nil.
    split; [done|]. intros H. by apply Hno in H.
Qed.

(** ** Collision-free names *)

(** The elements of a validated file path, folded. *)
Definition folded (fold : string -> string) (f : File) : list string := map fold (clean_parts (f_Path f)).

Section Collisions.
Context (fold : string -> string).
(** Folding works within path elements and keeps ordinary elements ordinary. *)
Context (fold_join : forall parts, inside parts ->
  fold (join_with slash parts) = join_with slash (map fold parts)).
Context (fold_plain : forall part, plain part -> plain (fold part)).

Lemma parent_walk_spec paths : forall parts fuel,
  inside parts -> (length parts <= fuel)%nat ->
  parent_walk fuel paths (dir (join_with slash parts)) <> Err Diverged /\
  (parent_walk fuel paths (dir (join_with slash parts)) = Ok tt ->
   forall init rest, init <> [] -> rest <> [] -> parts = (init ++ rest)%list -> join_with slash init ∉ paths).
Proof.
  intros parts. induction parts as [|x init IH] using rev_ind; intros fuel [Hne Hp] Hfuel; [done|].
  rewrite length_app in Hfuel. cbn in Hfuel. rewrite dir_join by done.
  destruct fuel as [|fuel]; [lia|]. destruct init as [|a init].
  { split; [done|]. intros _ [|? [|]] rest ?? Heq; by simplify_eq/=; destruct rest. }
  apply Forall_app in Hp as [Hp _]. assert (inside (a :: init)) as Hin by (by split).
  destruct (IH fuel Hin ltac:(lia)) as [IH1 IH2].
  destruct (join_plain (a :: init)) as [Hj _]; [done..|].
  cbn [parent_walk]. destruct (_ =? ".")%string eqn:Hdot.
  { apply String.eqb_eq in Hdot. exfalso.
    pose proof (clean_parts_join (a :: init) Hin) as Hc. rewrite Hdot in Hc. by vm_compute in Hc. }
  case_bool_decide as Hmem; [by split|]. split; [done|]. intros Hok pre post Hpre Hpost Heq.
  destruct post as [|y post _] using rev_ind; [done|]. rewrite app_assoc in Heq.
  apply app_inj_tail in Heq as [Heq _]. destruct post as [|z post].
  - rewrite app_nil_r in Heq. by rewrite <-Heq.
  - by apply (IH2 Hok pre (z :: post)).
Qed.

Lemma folded_inside parts : inside parts -> inside (map fold parts).
Proof using fold_plain.
  intros [Hne Hp]. split; [by destruct parts|]. apply Forall_map.
  eapply Forall_impl; [exact Hp|]. exact fold_plain.
Qed.

Definition key (f : File) : string := CollisionKey fold (f_Path f).
Definition named (f : File) : Prop := inside (folded fold f) /\ key f = join_with slash (folded fold f).

Lemma check_files_keys extent files : forall paths bytes fin keys,
  check_files fold extent files paths bytes fin = Ok keys ->
  keys = list_to_set (map key files) ∪ paths /\ NoDup (map key files) /\
  Forall (fun f => named f /\ key f ∉ paths) files.
Proof using fold_join fold_plain.
  induction files as [|f files IH]; intros paths bytes fin keys; cbn [check_files].
  { intros [= <-]. split_and!; [set_solver|constructor|constructor]. }
  repeat case_match; try done. intros Hok. split_bools. fold (key f) in *.
  apply IH in Hok as (-> & Hnd & Hall). cbn. split; [set_solver|]. split.
  - constructor; [|done]. intros (g & Hkey & Hg)%list_elem_of_fmap.
    rewrite Forall_forall in Hall. apply (Hall g) in Hg as [_ Hg]. rewrite <-Hkey in Hg. set_solver.
  - constructor; [|eapply Forall_impl; [exact Hall|]; set_solver]. split; [|done].
    match goal with H : is_ok (ValidateRelative (f_Path f)) = true |- _ =>
      apply is_ok_ValidateRelative, ValidateRelative_spec in H as (_ & _ & Hin & Hcl) end.
    split; [by apply folded_inside|]. unfold key, CollisionKey, folded. by rewrite Hcl, fold_join.
Qed.

Lemma check_parents_spec paths keys :
  check_parents paths keys = Ok tt ->
  Forall (fun k => parent_walk (String.length k) paths (dir k) = Ok tt) keys.
Proof.
  induction keys as [|k keys IH]; cbn; [by constructor|].
  destruct (parent_walk _ _ _) as [[]|] eqn:E; [|done]. intros. constructor; [done|by apply IH].
Qed.

Lemma check_parents_terminates paths keys :
  Forall (fun k => exists parts, inside parts /\ k = join_with slash parts) keys ->
  check_parents paths keys <> Err Diverged.
Proof.
  induction 1 as [|k keys (parts & Hin & ->) _ IH]; cbn; [done|].
  destruct (parent_walk_spec paths parts (String.length (join_with slash parts)) Hin) as [H _].
  { apply join_length, Hin. }
  destruct (parent_walk _ _ _); [done|congruence].
Qed.

Lemma keys_are_paths extent files keys :
  check_files fold extent files ∅ 0 0 = Ok keys ->
  Forall (fun k => exists parts, inside parts /\ k = join_with slash parts) (elements keys).
Proof using fold_join fold_plain.
  intros (-> & _ & Hall)%check_files_keys. rewrite Forall_forall in Hall. apply Forall_forall. intros k.
  rewrite elem_of_elements, elem_of_union, elem_of_list_to_set, list_elem_of_fmap.
  intros [(f & -> & Hf)|]; [|set_solver]. apply Hall in Hf as [[? ?] _]. eauto.
Qed.

Lemma check_files_never_diverges extent files : forall paths bytes fin,
  check_files fold extent files paths bytes fin <> Err Diverged.
Proof. induction files; intros; cbn [check_files]; [done|]. repeat case_match; done || auto. Qed.

Lemma Checkpoint_Validate_terminates c : Checkpoint_Validate fold c <> Err Diverged.
Proof using fold_join fold_plain.
  unfold Checkpoint_Validate. case_match; [done|].
  destruct (Identity_validate (c_Identity c)) as [|e] eqn:He.
  2:{ intros [= ->]. unfold Identity_validate in He. repeat case_match; congruence. }
  repeat case_match; try done.
  - apply check_parents_terminates. by eapply keys_are_paths.
  - intros [= ->]. by eapply check_files_never_diverges.
Qed.

(** No folded path is that of another file, nor of a directory of it. *)
Lemma names_independent c i j f g :
  Checkpoint_Validate fold c = Ok tt -> Files c !! i = Some f -> Files c !! j = Some g -> i <> j ->
  ~ folded fold f `prefix_of` folded fold g.
Proof using fold_join fold_plain.
  intros (_ & _ & _ & _ & _ & _ & paths & Hcf & Hcp)%Checkpoint_Validate_inv Hf Hg Hij [rest Hpre].
  apply check_files_keys in Hcf as (Hpaths & Hnd & Hall). apply check_parents_spec in Hcp.
  rewrite Forall_forall in Hall. rewrite Forall_forall in Hcp.
  pose proof (Hall f (list_elem_of_lookup_2 _ _ _ Hf)) as [[Hfi Hfk] _].
  pose proof (Hall g (list_elem_of_lookup_2 _ _ _ Hg)) as [[Hgi Hgk] _].
  assert (forall h k, Files c !! k = Some h -> key h ∈ paths) as Hin.
  { intros h k Hh. rewrite Hpaths. apply elem_of_union_l, elem_of_list_to_set, list_elem_of_fmap.
    exists h. split; [done|by eapply list_elem_of_lookup_2]. }
  destruct rest as [|x rest].
  - rewrite app_nil_r in Hpre. apply Hij. eapply NoDup_lookup; [exact Hnd|..]; rewrite list_lookup_fmap.
    + by rewrite Hf.
    + rewrite Hg. cbn. by rewrite Hgk, Hfk, Hpre.
  - specialize (Hcp (key g)). rewrite elem_of_elements in Hcp. specialize (Hcp (Hin g j Hg)). rewrite Hgk in Hcp.
    eapply (parent_walk_spec paths (folded fold g)); [done| |exact Hcp|apply Hfi| |exact Hpre|].
    + apply join_length, Hgi.
    + done.
    + rewrite <-Hfk. by eapply Hin.
Qed.
End Collisions.

Lemma check_files_ordered fold extent files : forall paths bytes fin keys,
  in_i64 extent -> 0 <= fin ->
  check_files fold extent files paths bytes fin = Ok keys ->
  Forall (fun f => fin <= Offset f) files /\
  forall i j f g, files !! i = Some f -> files !! j = Some g -> (i < j)%nat -> Offset f + Length f <= Offset g.
Proof.
  induction files as [|f files IH]; intros paths bytes fin keys Hext Hfin Hok; [by split|].
  pose proof (check_files_in _ _ _ _ _ _ _ Hext Hfin Hok) as [(Ho & Hl & He) _]%Forall_cons.
  cbn [check_files] in Hok. repeat case_match; try done. split_bools. unfold in_i64 in Hext. unwrap.
  apply IH in Hok as [Hge Hord]; [|done|lia]. split.
  - constructor; [lia|]. eapply Forall_impl; [exact Hge|]. cbn. lia.
  - intros [|i] [|j] f1 g Hf Hg Hij; try lia; cbn in Hf, Hg.
    + injection Hf as <-. rewrite Forall_forall in Hge. by apply Hge, (list_elem_of_lookup_2 _ _ _ Hg).
    + apply (Hord i j); (done || lia).
Qed.

(** the files of a valid checkpoint do not interfere: their byte extents lie
    inside the torrent's extent in order without overlap, and no file's
    case-folded path equals or lies below that of another.  Validation always
    ends, including the walk over the parents of every key. *)
Theorem valid_checkpoint_files_independent (fold : string -> string) (c : Checkpoint) :
  (forall parts, inside parts -> fold (join_with slash parts) = join_with slash (map fold parts)) ->
  (forall part, plain part -> plain (fold part)) ->
  in_i64 (ExtentLength (c_Identity c)) ->
  Checkpoint_Validate fold c <> Err Diverged /\
  (Checkpoint_Validate fold c = Ok tt ->
   forall i j f g, Files c !! i = Some f -> Files c !! j = Some g -> (i < j)%nat ->
     0 <= Offset f /\ Offset f + Length f <= Offset g /\
     Offset g + Length g <= ExtentLength (c_Identity c) /\
     ~ folded fold f `prefix_of` folded fold g /\ ~ folded fold g `prefix_of` folded fold f).
Proof.
  intros Hj Hp Hext. split; [by apply Checkpoint_Validate_terminates|].
  intros Hv i j f g Hf Hg Hij.
  pose proof (Checkpoint_Validate_inv fold c Hv) as (_ & _ & _ & _ & _ & _ & paths & Hcf & _).
  pose proof (check_files_in _ _ _ _ _ _ _ Hext ltac:(done) Hcf) as Hin. rewrite Forall_forall in Hin.
  pose proof (Hin f (list_elem_of_lookup_2 _ _ _ Hf)) as (? & _ & _).
  pose proof (Hin g (list_elem_of_lookup_2 _ _ _ Hg)) as (_ & _ & ?).
  apply check_files_ordered in Hcf as [_ Hord]; [|done..].
  split_and!; [done|by apply (Hord i j)|done|..]; eapply names_independent; eauto; lia.
Qed.

(** ** Witnesses *)

Lemma filter_keeps_exactly_supported_witness :
  exists c, Filter lower Fast (Some sample_checkpoint) sample_identity sample_current [x00] false = Some c /\
    bit (Bits c) 0 = true /\ bit (Bits c) 1 = false /\ bit (Bits c) 2 = false.
Proof.
  destruct (filter_keeps_exactly_supported lower Fast (Some sample_checkpoint) sample_identity
    sample_current [x00] false) as (c & Hc & _); [by vm_compute|].
  exists c. split; [done|]. vm_compute in Hc. injection Hc as <-. by vm_compute.
Defined.

Lemma valid_checkpoint_files_independent_witness :
  ~ folded lower sample_a `prefix_of` folded lower sample_b.
Proof.
  destruct (valid_checkpoint_files_independent lower sample_checkpoint) as [_ H].
  - intros parts _. apply lower_join.
  - apply lower_plain.
  - by vm_compute.
  - by apply (H eq_refl 0%nat 1%nat sample_a sample_b eq_refl eq_refl); lia.
Defined.
