(* ===== verification/Codec.v ===== *)
(** * Checkpoint codec

    [internal/fastresume/codec.go]: the binary envelope of a checkpoint.  The
    decoder is the Go [decoder], a rest of the input with a sticky error, passed
    through the reads in the order the source makes them. *)

From stdpp Require Import base gmap list strings.
From Stdlib Require Import ZArith Strings.Byte Lia.
From coqutil Require Import Byte Word.LittleEndianList.
From S2P Require Import Prelude Paths Layout FastResume.

#[local] Open Scope Z_scope.

Definition envelopeMagic : string := "TSHRSM01"%string.

(** ** Encoder *)

(** [binary.LittleEndian.AppendUint64(data, uint64(n))]. *)
Definition enc_integer (n : Z) : list byte := le_split 8 (u64 n).

Definition enc_text (s : string) : list byte :=
  (le_split 4 (len s mod 2 ^ 32) ++ String.list_byte_of_string s)%list.

Definition enc_file (f : File) : list byte :=
  (enc_text (f_Path f) ++ enc_integer (Offset f) ++ enc_integer (Length f)
   ++ enc_integer (if Present (f_Evidence f) then 1 else 0)
   ++ enc_text (ev_Identity (f_Evidence f)) ++ enc_integer (Size (f_Evidence f))
   ++ enc_integer (ModifiedNS (f_Evidence f)))%list.

Definition enc_identity (i : Identity) (files : Z) : list byte :=
  (enc_text (RecordID i) ++ enc_text (StorageID i) ++ enc_text (id_Root i) ++ enc_text (id_Prefix i)
   ++ enc_text (MetainfoDigest i) ++ enc_text (CatalogDigest i) ++ enc_text (VolumeID i)
   ++ enc_integer (MappingRevision i) ++ enc_integer (id_LayoutVersion i) ++ enc_integer (PieceLength i)
   ++ enc_integer (PieceCount i) ++ enc_integer (ExtentLength i) ++ enc_integer files)%list.

Definition enc_checkpoint (c : Checkpoint) : list byte :=
  (String.list_byte_of_string envelopeMagic
   ++ enc_integer (Schema c) ++ enc_integer (Generation c) ++ enc_integer (CreatedAtMS c)
   ++ enc_identity (c_Identity c) (Z.of_nat (length (Files c)))
   ++ concat (map enc_file (Files c)) ++ Pieces c)%list.

Definition Encode (fold : string -> string) (c : Checkpoint) : result CheckpointError (list byte) :=
  let? _ := Checkpoint_Validate fold c in
  let data := enc_checkpoint c in
  if Z.of_nat (length data) >? MaxCheckpointBytes then Err ErrBudget else Ok data.

(** ** Decoder *)

Record decoder := mkDecoder {
  data : list byte;
  err : option CheckpointError;
}.

(** A read: its value and the decoder after it. *)
Definition read (A : Type) : Type := decoder -> A * decoder.

Notation "'let*' x ':=' m 'on' d 'in' k" :=
  (match m d with (x, d) => k end)
  (at level 10, x name, m at level 100, d name, k at level 200).

Definition take (n : Z) : read (option (list byte)) := fun d =>
  match err d with
  | Some _ => (None, d)
  | None =>
      if (n <? 0) || (n >? Z.of_nat (length (data d)))
      then (None, mkDecoder (data d) (Some ErrUnexpectedEOF))
      else (Some (firstn (Z.to_nat n) (data d)), mkDecoder (skipn (Z.to_nat n) (data d)) None)
  end.

Definition integer : read Z := fun d =>
  let* p := take 8 on d in
  (match p with Some p => i64 (le_combine p) | None => 0 end, d).

(** [string(p)] of a possibly nil slice. *)
Definition text_of (p : option (list byte)) : string := String.string_of_list_byte (default [] p).

Definition text (limit : Z) : read string := fun d =>
  let* p := take 4 on d in
  match p with
  | None => (EmptyString, d)
  | Some p =>
      let n := le_combine p in
      if n >? u64 limit then (EmptyString, mkDecoder (data d) (Some ErrBudget))
      else let* p := take n on d in (text_of p, d)
  end.

(** One iteration of the loop over the files. *)
Definition dec_file (pathBytes : Z) (d : decoder) : result CheckpointError (File * decoder) :=
  let limit := Z.min MaxPathLength (MaxPathBytes - pathBytes) in
  let* path := text limit on d in
  let* offset := integer on d in
  let* length := integer on d in
  let* present := integer on d in
  let* identity := text MaxIdentityLength on d in
  let* size := integer on d in
  let* modified := integer on d in
  match err d with
  | Some e => Err e
  | None =>
      if negb (present =? 0) && negb (present =? 1) then Err ErrInvalid
      else Ok (mkFile path offset length (mkEvidence (present =? 1) identity size modified), d)
  end.

Fixpoint dec_files (count : nat) (pathBytes : Z) (d : decoder) : result CheckpointError (list File * decoder) :=
  match count with
  | O => Ok ([], d)
  | S count =>
      match dec_file pathBytes d with
      | Err e => Err e
      | Ok (f, d) =>
          match dec_files count (pathBytes + len (f_Path f)) d with
          | Err e => Err e
          | Ok (files, d) => Ok (f :: files, d)
          end
      end
  end.

(** The identity, read with the piece length and the number of files. *)
Definition dec_identity : read (Identity * Z) := fun d =>
  let* recordID := text MaxIdentityLength on d in
  let* storageID := text MaxIdentityLength on d in
  let* root := text MaxPathLength on d in
  let* prefix := text MaxPathLength on d in
  let* metainfoDigest := text 64 on d in
  let* catalogDigest := text 64 on d in
  let* volumeID := text MaxIdentityLength on d in
  let* mappingRevision := integer on d in
  let* layout := integer on d in
  let* pieceLength := integer on d in
  let* pieces := integer on d in
  let* extentLength := integer on d in
  let* files := integer on d in
  ((mkIdentity recordID storageID mappingRevision layout root prefix metainfoDigest catalogDigest
      volumeID pieceLength pieces extentLength, files), d).

(** The part of [Decode] after the counts are known to be within the limits. *)
Definition dec_body (fold : string -> string) (generation createdAt : Z) (i : Identity) (files : Z)
    (d : decoder) : result CheckpointError Checkpoint :=
  let? _ := Identity_validate i in
  match dec_files (Z.to_nat files) 0 d with
  | Err e => Err e
  | Ok (fs, d) =>
      let* bits := take (bitmapBytes (PieceCount i)) on d in
      match err d with
      | Some e => Err e
      | None =>
          if negb (length (data d) =? 0)%nat then Err ErrInvalid
          else
            let c := mkCheckpoint SchemaVersion i generation createdAt fs (default [] bits) in
            let? _ := Checkpoint_Validate fold c in
            Ok c
      end
  end.

Definition Decode (fold : string -> string) (input : list byte) : result CheckpointError Checkpoint :=
  if Z.of_nat (length input) >? MaxCheckpointBytes then Err ErrBudget
  else
    let d := mkDecoder input None in
    let* magic := take (len envelopeMagic) on d in
    if negb (String.eqb (text_of magic) envelopeMagic) then Err ErrInvalid
    else
      let* schema := integer on d in
      if negb (schema =? SchemaVersion) then Err ErrInvalid
      else
        let* generation := integer on d in
        let* createdAt := integer on d in
        let* header := dec_identity on d in
        let '(i, files) := header in
        match err d with
        | Some e => Err e
        | None =>
            if (PieceCount i <? 0) || (id_LayoutVersion i <? 0) || (id_LayoutVersion i >? 2) || (files <? 1)
            then Err ErrInvalid
            else if (PieceCount i >? MaxPieces) || (files >? MaxFiles) then Err ErrBudget
            else dec_body fold generation createdAt i files d
        end.

Definition BitmapBytes (pieces : Z) : result CheckpointError Z :=
  if (pieces <? 0) || (pieces >? MaxPieces) then Err ErrBudget else Ok (bitmapBytes pieces).

Definition ValidateBitmap (bits : list byte) (pieces : Z) : result CheckpointError unit :=
  if negb (validBitmap bits pieces) then Err ErrInvalid else Ok tt.

(** ** Integers and texts *)

Definition file_typed (f : File) : Prop :=
  in_i64 (Offset f) /\ in_i64 (Length f) /\ in_i64 (Size (f_Evidence f)) /\ in_i64 (ModifiedNS (f_Evidence f)).

Definition identity_typed (i : Identity) : Prop :=
  in_i64 (MappingRevision i) /\ in_i64 (id_LayoutVersion i) /\ in_i64 (PieceLength i) /\
  in_i64 (PieceCount i) /\ in_i64 (ExtentLength i).

(** The [int64] fields of a checkpoint hold [int64] values. *)
Definition checkpoint_typed (c : Checkpoint) : Prop :=
  in_i64 (Generation c) /\ in_i64 (CreatedAtMS c) /\ identity_typed (c_Identity c) /\
  Forall file_typed (Files c).

(** Decoder state after a successful prefix. *)
Abbreviation ready := (fun rest => mkDecoder rest None).

Lemma length_bytes (s : string) : length (String.list_byte_of_string s) = String.length s.
Proof. induction s as [|a s IH]; [done|]. cbn. f_equal. exact IH. Qed.

Lemma take_ready p rest : take (Z.of_nat (length p)) (ready (p ++ rest)%list) = (Some p, ready rest).
Proof.
  unfold take. cbn [err data]. rewrite length_app.
  destruct (Z.ltb_spec (Z.of_nat (length p)) 0); [lia|].
  rewrite Z.gtb_ltb, (proj2 (Z.ltb_ge _ _)) by lia. cbn [orb].
  by rewrite Nat2Z.id, take_app_length, drop_app_length.
Qed.

Lemma take_inv n d p d' : take n d = (p, d') -> err d' = None ->
  err d = None /\ exists bs, p = Some bs /\ data d = (bs ++ data d')%list /\ Z.of_nat (length bs) = n.
Proof.
  unfold take. destruct (err d) as [e|] eqn:He; [intros [= <- <-]; congruence|].
  destruct (_ || _) eqn:Hr; intros [= <- <-] H; [done|]. split; [done|]. split_bools. eexists. split; [done|].
  cbn. rewrite firstn_skipn. split; [done|]. rewrite length_firstn. lia.
Qed.

Lemma integer_ready n rest : in_i64 n -> integer (ready (enc_integer n ++ rest)%list) = (n, ready rest).
Proof.
  intros Hn. unfold integer. pose proof (take_ready (enc_integer n) rest) as Ht.
  unfold enc_integer in *. rewrite length_le_split in Ht. change (Z.of_nat 8) with 8 in Ht. rewrite Ht.
  rewrite le_combine_split, Z.mod_small; [by rewrite i64_u64|].
  unfold u64. apply Z.mod_pos_bound. done.
Qed.

Lemma integer_inv d n d' : integer d = (n, d') -> err d' = None ->
  err d = None /\ data d = (enc_integer n ++ data d')%list /\ in_i64 n.
Proof.
  unfold integer. destruct (take 8 d) as [p d1] eqn:Ht. intros [= <- <-] He.
  destruct (take_inv _ _ _ _ Ht He) as (Hd & bs & -> & Hdata & Hl).
  split; [done|]. split; [|apply i64_range]. rewrite Hdata. f_equal.
  pose proof (le_combine_bound bs) as Hb. replace (8 * Z.of_nat (length bs)) with 64 in Hb by lia.
  unfold enc_integer. assert (u64 (i64 (le_combine bs)) = le_combine bs) as ->.
  { unfold u64, i64. rewrite Zminus_mod_idemp_l, Z.add_simpl_r. by apply Z.mod_small. }
  symmetry. apply split_le_combine'. lia.
Qed.

Lemma text_ready limit s rest :
  0 <= limit < 2 ^ 32 -> len s <= limit -> text limit (ready (enc_text s ++ rest)%list) = (s, ready rest).
Proof.
  intros Hlim Hs. unfold text, enc_text, len in *. rewrite <-app_assoc.
  pose proof (take_ready (le_split 4 (Z.of_nat (String.length s) mod 2 ^ 32))
    (String.list_byte_of_string s ++ rest)%list) as Ht.
  rewrite length_le_split in Ht. change (Z.of_nat 4) with 4 in Ht. rewrite Ht.
  rewrite le_combine_split. change (2 ^ (Z.of_nat 4 * 8)) with (2 ^ 32).
  rewrite Z.mod_mod, Z.mod_small by lia. unfold u64. rewrite (Z.mod_small limit) by lia.
  rewrite Z.gtb_ltb, (proj2 (Z.ltb_ge _ _)) by lia. rewrite <-length_bytes, take_ready.
  unfold text_of. cbn [from_option]. unfold id. by rewrite String.string_of_list_byte_of_string.
Qed.

Lemma text_inv limit d s d' : text limit d = (s, d') -> err d' = None ->
  err d = None /\ data d = (enc_text s ++ data d')%list.
Proof.
  unfold text. destruct (take 4 d) as [p d1] eqn:Ht.
  destruct p as [p|]; [|intros [= <- <-] He; by destruct (take_inv _ _ _ _ Ht He) as (_ & bs & ? & _)].
  destruct (_ >? _); [by intros [= <- <-]|]. destruct (take _ d1) as [q d2] eqn:Ht2. intros [= <- <-] He.
  destruct (take_inv _ _ _ _ Ht2 He) as (Hd1 & bs & -> & Hdata1 & Hl).
  destruct (take_inv _ _ _ _ Ht Hd1) as (Hd & bs' & [= <-] & Hdata & Hl'). split; [done|].
  rewrite Hdata, Hdata1, app_assoc. f_equal. unfold enc_text, text_of, len. cbn [from_option]. unfold id.
  rewrite String.list_byte_of_string_of_list_byte. f_equal.
  assert (length bs = String.length (String.string_of_list_byte bs)) as Hlen.
  { by rewrite <-length_bytes, String.list_byte_of_string_of_list_byte. }
  pose proof (le_combine_bound p) as Hb. replace (8 * Z.of_nat (length p)) with 32 in Hb by lia.
  rewrite <-Hlen, Hl, Z.mod_small by done. symmetry. apply split_le_combine'. lia.
Qed.

(** Run the reads of an encoded input; invert the reads of a successful decoder. *)
Ltac run_reads := repeat first
  [ rewrite integer_ready by done
  | rewrite text_ready by (unfold MaxPathLength, MaxIdentityLength, MaxPathBytes in *; (done || lia)) ].

Ltac split_reads := repeat match goal with
  | |- context [match ?r ?d with (_, _) => _ end] => destruct (r d) as [? ?] eqn:?
  end.

Ltac invert_reads := repeat match goal with
  | H : integer _ = (_, ?d), He : err ?d = None |- _ =>
      let H1 := fresh in let H2 := fresh "Hdata" in
      destruct (integer_inv _ _ _ H He) as (H1 & H2 & ?); clear H
  | H : text _ _ = (_, ?d), He : err ?d = None |- _ =>
      let H1 := fresh in let H2 := fresh "Hdata" in
      destruct (text_inv _ _ _ _ H He) as (H1 & H2); clear H
  end.

Ltac collect_data := repeat match goal with
  | H : data ?d = _ |- context [data ?d] => rewrite H; clear H
  end; rewrite <-?app_assoc; try done.

(** ** Files *)

Lemma dec_file_ready pathBytes f rest :
  0 <= pathBytes -> pathBytes + len (f_Path f) <= MaxPathBytes -> len (f_Path f) <= MaxPathLength ->
  len (ev_Identity (f_Evidence f)) <= MaxIdentityLength -> file_typed f ->
  dec_file pathBytes (ready (enc_file f ++ rest)%list) = Ok (f, ready rest).
Proof.
  intros Hpb Hsum Hpath Hid (Ho & Hl & Hs & Hm). unfold dec_file, enc_file. rewrite <-!app_assoc.
  assert (0 <= len (f_Path f)) by (unfold len; lia).
  change MaxPathBytes with 1048576 in *. change MaxPathLength with 4096 in *. change MaxIdentityLength with 256 in *.
  rewrite text_ready, !integer_ready, text_ready, !integer_ready
    by (done || lia || (by destruct (Present (f_Evidence f)))).
  cbn [err]. destruct f as [? ? ? [[] ? ? ?]]; done.
Qed.

Lemma dec_file_inv pathBytes d f d' : dec_file pathBytes d = Ok (f, d') ->
  err d = None /\ err d' = None /\ data d = (enc_file f ++ data d')%list /\ file_typed f.
Proof.
  unfold dec_file. split_reads. destruct (err _) eqn:He; [done|].
  destruct (_ && _) eqn:Hp; [done|]. intros [= <- <-]. invert_reads.
  match type of Hp with negb (?z =? 0) && _ = _ =>
    assert ((if z =? 1 then 1 else 0) = z) as Hz
      by (destruct (Z.eqb_spec z 0), (Z.eqb_spec z 1); subst; done) end.
  split; [done|]. split; [done|]. split; [|by split_and!].
  unfold enc_file. cbn [f_Path Offset Length f_Evidence Present ev_Identity Size ModifiedNS].
  rewrite Hz. collect_data.
Qed.

Lemma dec_files_ready fold extent files : forall paths pathBytes fin keys rest,
  check_files fold extent files paths pathBytes fin = Ok keys -> 0 <= pathBytes -> Forall file_typed files ->
  dec_files (length files) pathBytes (ready (concat (map enc_file files) ++ rest)%list) = Ok (files, ready rest).
Proof.
  induction files as [|f files IH]; intros paths pathBytes fin keys rest Hok Hpb Hty; [done|].
  apply Forall_cons in Hty as [Hf Hty]. cbn [check_files] in Hok. repeat case_match; try done. split_bools.
  cbn [length dec_files map concat]. rewrite <-app_assoc, dec_file_ready by (done || lia).
  erewrite IH; [done|exact Hok| |done]. unfold len. lia.
Qed.

Lemma dec_files_inv count : forall pathBytes d fs d',
  dec_files count pathBytes d = Ok (fs, d') -> err d = None ->
  err d' = None /\ length fs = count /\ data d = (concat (map enc_file fs) ++ data d')%list /\
  Forall file_typed fs.
Proof.
  induction count as [|count IH]; intros pathBytes d fs d'; cbn [dec_files].
  { by intros [= <- <-]. }
  destruct (dec_file pathBytes d) as [[f d1]|] eqn:Hf; [|done].
  destruct (dec_files count _ d1) as [[fs' d2]|] eqn:Hfs; [|done]. intros [= <- <-] _.
  apply dec_file_inv in Hf as (Hd & Hd1 & Hdata & Hty). apply IH in Hfs as (? & ? & Hdata2 & ?); [|done].
  split_and!; [done|cbn; by f_equal| |by constructor]. cbn. rewrite Hdata, Hdata2. by rewrite app_assoc.
Qed.

(** ** Identity *)

Lemma validDigest_len value : validDigest value = true -> len value = 64.
Proof. unfold validDigest. destruct (Z.eqb_spec (len value) 64); [done|]. by cbn. Qed.

Lemma Layout_Validate_supported l : is_ok (Layout_Validate l) = true -> Supported (l_Version l) = true.
Proof. unfold Layout_Validate. by destruct (Supported _). Qed.

Lemma Supported_versions v : Supported v = true -> v = 1 \/ v = 2.
Proof. unfold Supported, LayoutVersion, NamedLayoutVersion. lia. Qed.

Lemma Identity_validate_texts i : Identity_validate i = Ok tt ->
  len (RecordID i) <= 256 /\ len (StorageID i) <= 256 /\ len (id_Root i) <= 4096 /\
  len (id_Prefix i) <= 4096 /\ len (MetainfoDigest i) <= 64 /\ len (CatalogDigest i) <= 64 /\
  len (VolumeID i) <= 256 /\ (id_LayoutVersion i = 1 \/ id_LayoutVersion i = 2).
Proof.
  unfold Identity_validate, bad_label. change MaxIdentityLength with 256. change MaxPathLength with 4096.
  repeat case_match; try done. intros _. split_bools.
  assert (id_LayoutVersion i = 1 \/ id_LayoutVersion i = 2).
  { apply Supported_versions. by eapply (Layout_Validate_supported (mkLayout _ _ _)). }
  split_and!; try lia; try (apply Z.eq_le_incl; by apply validDigest_len).
Qed.

Lemma dec_identity_ready i files rest :
  Identity_validate i = Ok tt -> identity_typed i -> in_i64 files ->
  dec_identity (ready (enc_identity i files ++ rest)%list) = ((i, files), ready rest).
Proof.
  intros Hv (? & ? & ? & ? & ?) Hf. apply Identity_validate_texts in Hv as (? & ? & ? & ? & ? & ? & ? & _).
  unfold dec_identity, enc_identity. rewrite <-!app_assoc.
  change MaxPathLength with 4096. change MaxIdentityLength with 256.
  rewrite !text_ready, !integer_ready by (done || lia). by destruct i.
Qed.

Lemma dec_identity_inv d i files d' :
  dec_identity d = ((i, files), d') -> err d' = None ->
  err d = None /\ data d = (enc_identity i files ++ data d')%list /\ identity_typed i /\ in_i64 files.
Proof.
  unfold dec_identity. split_reads. intros [= <- <- <-] He. invert_reads.
  split_and!; try done. unfold enc_identity. cbn. collect_data.
Qed.

(** ** The envelope *)

Lemma magic_ready rest :
  take (len envelopeMagic) (ready (String.list_byte_of_string envelopeMagic ++ rest)%list) =
  (Some (String.list_byte_of_string envelopeMagic), ready rest).
Proof. apply (take_ready (String.list_byte_of_string envelopeMagic)). Qed.

Lemma magic_inv d p d' :
  take (len envelopeMagic) d = (p, d') -> err d' = None -> text_of p = envelopeMagic ->
  data d = (String.list_byte_of_string envelopeMagic ++ data d')%list.
Proof.
  intros Ht He Hm. destruct (take_inv _ _ _ _ Ht He) as (_ & bs & -> & -> & _). f_equal.
  unfold text_of in Hm. cbn [from_option] in Hm. unfold id in Hm.
  by rewrite <-Hm, String.list_byte_of_string_of_list_byte.
Qed.

Lemma dec_body_ready fold c :
  Checkpoint_Validate fold c = Ok tt -> checkpoint_typed c ->
  dec_body fold (Generation c) (CreatedAtMS c) (c_Identity c) (Z.of_nat (length (Files c)))
    (ready (concat (map enc_file (Files c)) ++ Pieces c)%list) = Ok c.
Proof.
  intros Hv (_ & _ & _ & Hfs).
  pose proof (Checkpoint_Validate_inv fold c Hv) as (Hs & _ & _ & Hid & _ & Hbm & paths & Hcf & _).
  unfold dec_body. rewrite Hid, Nat2Z.id. erewrite dec_files_ready by done.
  assert (bitmapBytes (PieceCount (c_Identity c)) = Z.of_nat (length (Pieces c))) as ->.
  { unfold validBitmap in Hbm. destruct (_ || negb _) eqn:E; [done|]. split_bools. lia. }
  rewrite <-(app_nil_r (Pieces c)) at 2. rewrite take_ready. cbn [err data length from_option Nat.eqb negb id].
  rewrite <-Hs. unfold id. by destruct c; cbn in *; rewrite Hv.
Qed.

Lemma dec_body_inv fold generation createdAt i files d c :
  dec_body fold generation createdAt i files d = Ok c -> err d = None ->
  Checkpoint_Validate fold c = Ok tt /\ Generation c = generation /\ CreatedAtMS c = createdAt /\
  c_Identity c = i /\ length (Files c) = Z.to_nat files /\ Forall file_typed (Files c) /\
  data d = (concat (map enc_file (Files c)) ++ Pieces c)%list.
Proof.
  unfold dec_body. destruct (Identity_validate i) as [[]|]; [|done].
  destruct (dec_files _ _ d) as [[fs d1]|] eqn:Hfs; [|done].
  destruct (take _ d1) as [bits d2] eqn:Ht. destruct (err d2) eqn:He2; [done|].
  destruct (data d2) eqn:Hd2; [|done]. cbn [length Nat.eqb negb].
  destruct (Checkpoint_Validate _ _) as [[]|] eqn:Hv; [|done]. intros [= <-] He.
  apply dec_files_inv in Hfs as (He1 & Hlen & Hdata & Hty); [|done].
  destruct (take_inv _ _ _ _ Ht He2) as (_ & bs & -> & Hdata1 & _).
  split_and!; try done. rewrite Hdata, Hdata1, Hd2. cbn. by rewrite app_nil_r.
Qed.

Lemma Decode_enc fold c :
  Checkpoint_Validate fold c = Ok tt -> checkpoint_typed c ->
  Z.of_nat (length (enc_checkpoint c)) <= MaxCheckpointBytes -> Decode fold (enc_checkpoint c) = Ok c.
Proof.
  intros Hv Hty Hlen. unfold Decode. rewrite Z.gtb_ltb, (proj2 (Z.ltb_ge _ _)) by done.
  pose proof Hty as (Hg & Hc & Hi & _).
  pose proof (Checkpoint_Validate_inv fold c Hv) as (Hs & _ & _ & Hid & Hn & _).
  pose proof (Identity_validate_texts _ Hid) as (_ & _ & _ & _ & _ & _ & _ & Hlay).
  pose proof (Identity_validate_spec _ Hid) as (Hpc & _). unfold MaxFiles in *.
  unfold enc_checkpoint. rewrite magic_ready. cbn [negb].
  change (String.eqb (text_of _) envelopeMagic) with true. cbn [negb].
  rewrite Hs, integer_ready, Z.eqb_refl by done. cbn [negb].
  rewrite !integer_ready by done. rewrite dec_identity_ready; [|done|done|unfold in_i64; lia]. cbn [err].
  replace (_ || _ || _ || _) with false by (symmetry; lia).
  replace (_ || _) with false by (symmetry; unfold MaxFiles; lia).
  by apply dec_body_ready.
Qed.

Lemma Decode_inv fold input c :
  Decode fold input = Ok c ->
  Checkpoint_Validate fold c = Ok tt /\ checkpoint_typed c /\ input = enc_checkpoint c /\
  Z.of_nat (length input) <= MaxCheckpointBytes.
Proof.
  unfold Decode. destruct (Z.gtb_spec (Z.of_nat (length input)) MaxCheckpointBytes); [done|].
  destruct (take _ _) as [m d] eqn:Hm. destruct (String.eqb_spec (text_of m) envelopeMagic); [|done]. cbn [negb].
  destruct (integer d) as [schema d1] eqn:Hs. destruct (Z.eqb_spec schema SchemaVersion) as [->|]; [|done]. cbn [negb].
  destruct (integer d1) as [g d2] eqn:Hg. destruct (integer d2) as [t d3] eqn:Ht.
  destruct (dec_identity d3) as [[i files] d4] eqn:Hi. destruct (err d4) eqn:He; [done|].
  destruct (_ || _ || _ || _) eqn:E1; [done|]. destruct (_ || _) eqn:E2 in |- *; [done|]. intros Hb.
  apply dec_body_inv in Hb as (Hv & <- & <- & <- & Hlen & Hty & Hdata); [|done].
  apply dec_identity_inv in Hi as (He3 & Hdata3 & Hity & _); [|done].
  destruct (integer_inv _ _ _ Ht He3) as (He2 & Hdata2 & ?).
  destruct (integer_inv _ _ _ Hg He2) as (He1 & Hdata1 & ?).
  destruct (integer_inv _ _ _ Hs He1) as (He0 & Hdata0 & ?).
  apply magic_inv in Hm; [|done..]. cbn [data] in Hm. split; [done|]. split; [by split_and!|]. split; [|done].
  pose proof (Checkpoint_Validate_inv fold c Hv) as (Hsc & _). unfold enc_checkpoint.
  rewrite Hm, Hdata0, Hdata1, Hdata2, Hdata3, Hdata, Hsc, Hlen. split_bools. by rewrite Z2Nat.id by lia.
Qed.

(** C13: decoding inverts encoding exactly.  A byte string decodes to a checkpoint
    if and only if it is the encoding of that checkpoint: every stored checkpoint
    reads back unchanged, and no other bytes (truncated, padded, non-canonical)
    are accepted. *)
Theorem decode_iff_encode (fold : string -> string) (input : list byte) (c : Checkpoint) :
  Decode fold input = Ok c <-> checkpoint_typed c /\ Encode fold c = Ok input.
Proof.
  unfold Encode. split.
  - intros (Hv & Hty & -> & Hl)%Decode_inv. split; [done|]. rewrite Hv.
    by rewrite Z.gtb_ltb, (proj2 (Z.ltb_ge _ _)).
  - intros [Hty He]. destruct (Checkpoint_Validate fold c) as [[]|] eqn:Hv; [|done].
    destruct (Z.gtb_spec (Z.of_nat (length (enc_checkpoint c))) MaxCheckpointBytes); [done|].
    injection He as <-. by apply Decode_enc.
Qed.
