(* ===== verification/SealWorker.v ===== *)
(** * Checkpoint seal worker

    [internal/fastresume/worker.go]: a bounded queue of record owners whose
    checkpoint has to be sealed, one goroutine that seals them, producers that
    mark owners dirty at any time, and a shutdown that drains the queue.

    The machine steps by critical sections: every [step] is one region under
    [w.mu] or one channel or context operation of one goroutine, so the
    interleavings of the program are the event sequences of the model. *)

From stdpp Require Import base gmap list strings.
From Stdlib Require Import Lia.
From S2P Require Import Prelude FastResume.

#[local] Open Scope string_scope.
#[local] Open Scope nat_scope.
#[local] Open Scope list_scope.

Definition MaxPendingOwners : nat := 64.

(** ** State *)

(** Where the goroutine of [run] stands.  [drain] tells the shutdown batch from
    a tick's batch, [todo] is [count - i], [failures] the owners whose seal
    returned an error. *)
Inductive control :=
| Top                                                          (* before reading closing *)
| Selecting                                                    (* in the select *)
| CheckCtx (drain : bool) (todo : nat) (failures : list string)   (* loop head: ctx.Err() *)
| Pop (drain : bool) (todo : nat) (failures : list string)        (* before taking the head *)
| Sealing (drain : bool) (todo : nat) (failures : list string) (owner : string)
| Done
| Panicked.

Record SealWorker := mkWorker {
  owners : gmap string bool;      (* sealRequest.dirty of the queued and the executing owner *)
  queue : list string;
  closing : bool;
  closeDone : bool;               (* the shutdown context is done *)
  jobDone : bool;                 (* jobCtx is cancelled *)
  w_err : option (list string * bool);  (* result of the drain: failed owners, context error *)
  pc : control;
}.
#[export] Instance eta_SealWorker : Eta SealWorker := fun w =>
  mkWorker (owners w) (queue w) (closing w) (closeDone w) (jobDone w) (w_err w) (pc w).

Definition newSealWorker : SealWorker := mkWorker ∅ [] false false false None Top.

(** ** Operations *)

Definition MarkDirty (owner : string) (w : SealWorker) : bool * SealWorker :=
  if closing w || bool_decide (owner = EmptyString) || (MaxIdentityLength <? len owner)%Z then (false, w)
  else match owners w !! owner with
  | Some _ => (true, w <| owners ::= <[owner := true]> |>)
  | None =>
      if (MaxPendingOwners <=? size (owners w))%nat then (false, w)
      else (true, w <| owners ::= <[owner := true]> |> <| queue ::= fun q => q ++ [owner] |>)
  end.

(** The critical section of [Shutdown]; [expired] says its context is done already. *)
Definition Shutdown (expired : bool) (w : SealWorker) : SealWorker :=
  if closing w then w else w <| closing := true |> <| closeDone := expired |>.

Definition ctx_done (drain : bool) (w : SealWorker) : bool := if drain then closeDone w else jobDone w.

(** Leaving [batch]: a drain records its result and ends [run]. *)
Definition finish (drain : bool) (failures : list string) (w : SealWorker) : SealWorker :=
  if drain then w <| w_err := Some (failures, ctx_done drain w) |> <| jobDone := true |> <| pc := Done |>
  else w <| pc := Top |>.

(** Entering [batch] reads [count := len(w.queue)]. *)
Definition batch (drain : bool) (w : SealWorker) : SealWorker :=
  w <| pc := CheckCtx drain (length (queue w)) [] |>.

(** One step of the goroutine that needs no outside event. *)
Definition run (w : SealWorker) : option SealWorker :=
  match pc w with
  | Top => Some (if closing w then batch true w else w <| pc := Selecting |>)
  | Selecting => if closing w then Some (w <| pc := Top |>) else None
  | CheckCtx drain todo failures =>
      Some (match todo with
            | O => finish drain failures w
            | S _ => if ctx_done drain w then finish drain failures w
                     else w <| pc := Pop drain todo failures |>
            end)
  | Pop drain todo failures =>
      Some (if negb drain && closing w then finish drain failures w
            else match queue w with
            | owner :: rest =>
                match owners w !! owner with
                | Some _ =>
                    w <| queue := rest |> <| owners ::= <[owner := false]> |>
                      <| pc := Sealing drain (pred todo) failures owner |>
                | None => w <| pc := Panicked |>
                end
            | [] => w <| pc := Panicked |>
            end)
  | Sealing _ _ _ _ | Done | Panicked => None
  end.

(** [w.seal] returns; [ok] tells whether its error is nil. *)
Definition seal_return (ok : bool) (w : SealWorker) : option SealWorker :=
  match pc w with
  | Sealing drain todo failures owner =>
      match owners w !! owner with
      | Some dirty =>
          let w := if negb ok || dirty then w <| queue ::= fun q => q ++ [owner] |>
                   else w <| owners ::= delete owner |> in
          Some (w <| pc := CheckCtx drain todo (if ok then failures else failures ++ [owner]) |>)
      | None => Some (w <| pc := Panicked |>)
      end
  | _ => None
  end.

Inductive event :=
| Mark (owner : string)
| ShutdownCalled (expired : bool)
| DeadlineReached              (* the shutdown context ends *)
| JobCancelled                 (* context.AfterFunc runs w.cancel *)
| Tick
| Run
| SealReturned (ok : bool).

Definition step (e : event) (w : SealWorker) : option SealWorker :=
  match e with
  | Mark owner => Some (snd (MarkDirty owner w))
  | ShutdownCalled expired => Some (Shutdown expired w)
  | DeadlineReached => if closing w then Some (w <| closeDone := true |>) else None
  | JobCancelled => if closing w && closeDone w then Some (w <| jobDone := true |>) else None
  | Tick => match pc w with Selecting => Some (batch false w) | _ => None end
  | Run => run w
  | SealReturned ok => seal_return ok w
  end.

Inductive reachable : SealWorker -> Prop :=
| reachable_start : reachable newSealWorker
| reachable_step e w w' : reachable w -> step e w = Some w' -> reachable w'.

(** ** Invariant *)

Definition executing (w : SealWorker) : option string :=
  match pc w with Sealing _ _ _ owner => Some owner | _ => None end.

(** Batches never run out of queued owners. *)
Definition batch_fits (w : SealWorker) : Prop :=
  match pc w with
  | CheckCtx _ todo _ => todo <= length (queue w)
  | Pop _ todo _ => 1 <= todo <= length (queue w)
  | Sealing _ todo _ _ => todo <= length (queue w)
  | Panicked => False
  | _ => True
  end.

Record worker_ok (w : SealWorker) : Prop := {
  ok_owners : forall o, is_Some (owners w !! o) <-> o ∈ queue w \/ executing w = Some o;
  ok_queue : NoDup (queue w);
  ok_executing : forall o, executing w = Some o -> o ∉ queue w;
  ok_bound : size (owners w) <= MaxPendingOwners;
  ok_batch : batch_fits w;
}.

(** ** What the worker promises: no accepted request is forgotten

    The abstract worker keeps the set of owners that still need a seal begun
    after their last accepted request, and the owner being sealed. *)

Record promise := mkPromise {
  owed : gset string;
  sealing : option string;
}.

(** What a step tells the outside: the answer to a mark, the result of a seal. *)
Inductive label :=
| Accepted (o : string)
| Refused (o : string)
| Returned (ok : bool)
| Internal.

Definition label_of (e : event) (w : SealWorker) : label :=
  match e with
  | Mark o => if fst (MarkDirty o w) then Accepted o else Refused o
  | SealReturned ok => Returned ok
  | _ => Internal
  end.

Inductive promise_step : label -> promise -> promise -> Prop :=
| promise_accepted o p : promise_step (Accepted o) p (mkPromise ({[o]} ∪ owed p) (sealing p))
| promise_refused o p : promise_step (Refused o) p p
| promise_stutter p : promise_step Internal p p
| promise_begin o p : o ∈ owed p -> sealing p = None ->
    promise_step Internal p (mkPromise (owed p ∖ {[o]}) (Some o))
| promise_sealed o p : sealing p = Some o -> promise_step (Returned true) p (mkPromise (owed p) None)
| promise_failed o p : sealing p = Some o -> promise_step (Returned false) p (mkPromise ({[o]} ∪ owed p) None).

(** The abstraction: queued owners are owed, and so is the executing owner when
    it was marked again. *)
Definition promise_of (q : list string) (own : gmap string bool) (ex : option string) : promise :=
  mkPromise (list_to_set q ∪
             match ex with
             | Some o => if default false (own !! o) then {[o]} else ∅
             | None => ∅
             end)
            ex.

Definition abstract (w : SealWorker) : promise := promise_of (queue w) (owners w) (executing w).

(** Remaining steps of the goroutine once admission is closed. *)
Definition work_left (w : SealWorker) : nat :=
  match pc w with
  | Done | Panicked => 0
  | CheckCtx true todo _ => 3 * todo + 1
  | Pop true todo _ => 3 * todo
  | Sealing true todo _ _ => 3 * todo + 2
  | Top => 3 * length (queue w) + 2
  | Selecting => 3 * length (queue w) + 6
  | CheckCtx false _ _ => 3 * length (queue w) + 5
  | Pop false _ _ => 3 * length (queue w) + 4
  | Sealing false _ _ _ => 3 * length (queue w) + 9
  end.

(** The events of the worker goroutine. *)
Definition worker_event (e : event) : bool :=
  match e with Run | Tick | SealReturned _ => true | _ => false end.

(** ** Sample states of the witnesses *)

(** The owner [a] is being sealed and was marked again, [b] is queued. *)
Definition sample_busy : SealWorker :=
  mkWorker {[ "a" := true; "b" := true ]} ["b"] false false false None (Sealing false 1 [] "a").

(** Shutdown was called with [a] and [b] queued. *)
Definition sample_closed : SealWorker :=
  mkWorker {[ "a" := true; "b" := true ]} ["a"; "b"] true false false None Top.

(** ** Preservation *)

Ltac worker_cases w :=
  destruct w as [ow qw cl cd jd we pcw]; cbn in *.

Lemma worker_start_ok : worker_ok newSealWorker.
Proof.
  split; cbn; try done.
  - intros o. rewrite lookup_empty. split; [by intros []|]. intros [H|H]; [by apply elem_of_nil in H|done].
  - constructor.
  - change (size (∅ : gmap string bool) <= 64). rewrite map_size_empty. lia.
Qed.

(** The invariant speaks of the queue, the owners, the phase and the executing
    owner only. *)
Lemma ok_same w w' :
  owners w' = owners w -> queue w' = queue w -> executing w' = executing w -> batch_fits w' ->
  worker_ok w -> worker_ok w'.
Proof. intros Ho Hq He Hb [? ? ? ? _]. split; rewrite ?Ho, ?Hq, ?He; done. Qed.

Lemma MarkDirty_ok o w : worker_ok w -> worker_ok (snd (MarkDirty o w)).
Proof.
  intros Hok. unfold MarkDirty. case_match; [done|]. destruct (owners w !! o) as [d|] eqn:Ho.
  - destruct Hok as [H1 H2 H3 H4 H5]. worker_cases w. split; cbn; try done.
    + intros o'. rewrite <-H1. destruct (decide (o = o')) as [->|]; [by rewrite lookup_insert_eq, Ho|by rewrite lookup_insert_ne].
    + by rewrite map_size_insert_Some by (by rewrite Ho).
  - destruct (Nat.leb_spec MaxPendingOwners (size (owners w))); [done|].
    pose proof (proj1 (eq_None_not_Some _) Ho) as Hno.
    assert ((o ∉ queue w) /\ executing w <> Some o) as [Hq He].
    { split; intros Hc; by apply Hno, Hok; auto. }
    destruct Hok as [H1 H2 H3 H4 H5]. split.
    + intros o'. cbn. change (executing _) with (executing w). rewrite elem_of_app, list_elem_of_singleton.
      destruct (decide (o = o')) as [->|]; [rewrite lookup_insert_eq; split; [auto|done]|].
      rewrite lookup_insert_ne, H1 by done. naive_solver.
    + cbn. apply NoDup_app. split; [done|]. split; [|apply NoDup_singleton].
      intros x Hx. rewrite list_elem_of_singleton. by intros ->.
    + intros x Hx. change (executing w = Some x) in Hx. cbn. rewrite elem_of_app, list_elem_of_singleton.
      intros [H3'| ->]; [by eapply H3|done].
    + cbn. rewrite map_size_insert_None by done. lia.
    + unfold batch_fits in *. worker_cases w. destruct pcw; rewrite ?length_app; cbn; lia || done.
Qed.

Lemma finish_ok drain fs w : executing w = None -> worker_ok w -> worker_ok (finish drain fs w).
Proof. intros He. unfold finish. destruct drain; (apply ok_same; [done|done|by rewrite He|done]). Qed.

Lemma pop_ok drain todo fs w w' : pc w = Pop drain todo fs -> run w = Some w' -> worker_ok w -> worker_ok w'.
Proof.
  unfold run. intros Hpc. rewrite Hpc. intros [= <-] Hok. destruct (_ && _).
  { apply finish_ok; [|done]. unfold executing. by rewrite Hpc. }
  destruct Hok as [H1 H2 H3 H4 H5]. unfold batch_fits, executing in *. rewrite Hpc in *.
  destruct (queue w) as [|o q] eqn:Hq; [cbn in H5; lia|]. apply NoDup_cons in H2 as [Hnq Hnd].
  destruct (owners w !! o) as [d|] eqn:Ho.
  2:{ assert (is_Some (owners w !! o)) as Hs by (apply H1; left; constructor). rewrite Ho in Hs. by destruct Hs. }
  split; cbn.
  - intros o'. destruct (decide (o = o')) as [->|]; [rewrite lookup_insert_eq; split; auto; done|].
    rewrite lookup_insert_ne, H1, elem_of_cons by done. naive_solver.
  - done.
  - by intros ? [= <-].
  - by rewrite map_size_insert_Some by (by rewrite Ho).
  - unfold batch_fits. cbn in *. lia.
Qed.

Lemma seal_return_ok ok w w' : seal_return ok w = Some w' -> worker_ok w -> worker_ok w'.
Proof.
  unfold seal_return. destruct (pc w) as [| | | |drain todo fs o| |] eqn:Hpc; try done.
  intros Heq [H1 H2 H3 H4 H5]. unfold batch_fits, executing in *. rewrite Hpc in *.
  specialize (H3 o eq_refl). destruct (owners w !! o) as [d|] eqn:Ho.
  2:{ assert (is_Some (owners w !! o)) as Hs by (apply H1; auto). rewrite Ho in Hs. by destruct Hs. }
  injection Heq as <-. destruct (negb ok || d).
  - split; cbn; try done.
    + intros o'. rewrite H1, elem_of_app, list_elem_of_singleton. naive_solver.
    + apply NoDup_app. split; [done|]. split; [|apply NoDup_singleton].
      intros x Hx. rewrite list_elem_of_singleton. by intros ->.
    + unfold batch_fits. cbn. rewrite length_app. cbn. lia.
  - split; cbn; try done.
    + intros o'. destruct (decide (o = o')) as [<-|]; [rewrite lookup_delete_eq|rewrite lookup_delete_ne, H1 by done].
      * split; [by intros []|naive_solver].
      * naive_solver.
    + rewrite map_size_delete_Some by (by rewrite Ho). lia.
Qed.

Lemma worker_step_ok e w w' : step e w = Some w' -> worker_ok w -> worker_ok w'.
Proof.
  intros Hs Hok. destruct e as [o|expired| | | | |ok]; cbn in Hs.
  - injection Hs as <-. by apply MarkDirty_ok.
  - injection Hs as <-. unfold Shutdown. case_match; [done|]. by apply (ok_same w); try apply Hok.
  - case_match; [|done]. injection Hs as <-. by apply (ok_same w); try apply Hok.
  - case_match; [|done]. injection Hs as <-. by apply (ok_same w); try apply Hok.
  - destruct (pc w) eqn:Hpc; try done. injection Hs as <-.
    apply (ok_same w); try done; [unfold executing; by rewrite Hpc|unfold batch_fits; cbn; lia].
  - assert (executing w = None \/ exists d t f, pc w = Pop d t f) as Hc.
    { unfold executing, run in *. destruct (pc w); eauto; done. }
    destruct (pc w) as [| |drain todo fs|drain todo fs| | |] eqn:Hpc; [..|by eapply pop_ok| | |].
    all: unfold run in Hs; rewrite Hpc in Hs; try done.
    all: destruct Hc as [Hex|(? & ? & ? & ?)]; [|done].
    + injection Hs as <-. destruct (closing w); apply (ok_same w); done || (unfold batch_fits; cbn; lia).
    + destruct (closing w); [|done]. injection Hs as <-. by apply (ok_same w).
    + injection Hs as <-. destruct todo as [|todo]; [by apply finish_ok|].
      destruct (ctx_done drain w); [by apply finish_ok|]. apply (ok_same w); try done.
      pose proof (ok_batch w Hok) as Hb. unfold batch_fits in *. rewrite Hpc in Hb. cbn. lia.
  - by eapply seal_return_ok.
Qed.

Lemma worker_reachable_ok w : reachable w -> worker_ok w.
Proof. induction 1; [apply worker_start_ok|by eapply worker_step_ok]. Qed.

(** in every interleaving of producers, ticks, seals, deadline and shutdown
    the worker never indexes an empty queue or a missing request, queues every
    owner at most once, tracks exactly the queued and the executing owners, and
    at most 64 of them. *)
Theorem worker_is_bounded (w : SealWorker) :
  reachable w ->
  pc w <> Panicked /\ NoDup (queue w) /\ size (owners w) <= MaxPendingOwners /\
  (forall o, is_Some (owners w !! o) <-> o ∈ queue w \/ executing w = Some o) /\
  (forall o, executing w = Some o -> o ∉ queue w).
Proof.
  intros [H1 H2 H3 H4 H5]%worker_reachable_ok. split_and!; try done.
  intros Hpc. unfold batch_fits in H5. by rewrite Hpc in H5.
Qed.

(** ** Refinement of the promise *)

Lemma promise_eq (p q : promise) : owed p ≡ owed q -> sealing p = sealing q -> p = q.
Proof. destruct p, q; cbn. intros ->%leibniz_equiv ->. done. Qed.

Lemma promise_to l p q r : promise_step l p q -> owed r ≡ owed q -> sealing r = sealing q -> promise_step l p r.
Proof. intros H Ho Hs. by rewrite (promise_eq r q Ho Hs). Qed.

Lemma mark_refines o w :
  worker_ok w -> promise_step (label_of (Mark o) w) (abstract w) (abstract (snd (MarkDirty o w))).
Proof.
  intros Hok. cbn [label_of]. unfold MarkDirty. destruct (closing w || _ || _); [by constructor|].
  destruct (owners w !! o) as [d|] eqn:Ho; cbn [fst snd].
  - change (abstract (_ <| _ ::= _ |>)) with (promise_of (queue w) (<[o := true]> (owners w)) (executing w)).
    unfold abstract, promise_of. eapply promise_to; [apply promise_accepted| |done]. cbn.
    assert (is_Some (owners w !! o)) as [Hq|He]%Hok by (by rewrite Ho).
    + destruct (executing w) as [o'|] eqn:He; [|set_solver].
      apply (ok_executing w Hok) in He. destruct (decide (o = o')) as [<-|]; [done|]. rewrite lookup_insert_ne by done. set_solver.
    + rewrite He, lookup_insert_eq, Ho. cbn. destruct d; set_solver.
  - destruct (MaxPendingOwners <=? size (owners w)); [by constructor|]. cbn [fst snd].
    change (abstract (_ <| _ ::= _ |> <| _ ::= _ |>))
      with (promise_of (queue w ++ [o]) (<[o := true]> (owners w)) (executing w)).
    unfold abstract, promise_of. eapply promise_to; [apply promise_accepted| |done]. cbn.
    destruct (executing w) as [o'|] eqn:He; [|set_solver]. assert (o <> o').
    { intros <-. assert (is_Some (owners w !! o)) as [? ?] by (apply Hok; auto). congruence. }
    rewrite lookup_insert_ne by done. set_solver.
Qed.

Lemma abstract_same w w' :
  queue w' = queue w -> executing w = None -> executing w' = None -> promise_step Internal (abstract w) (abstract w').
Proof.
  intros Hq He He'. eapply promise_to; [apply promise_stutter|..];
    unfold abstract, promise_of; by rewrite Hq, He, He'.
Qed.

Lemma abstract_frame w w' :
  queue w' = queue w -> owners w' = owners w -> pc w' = pc w -> promise_step Internal (abstract w) (abstract w').
Proof.
  intros Hq Ho Hp. eapply promise_to; [apply promise_stutter|..];
    unfold abstract, promise_of, executing; by rewrite Hq, Ho, Hp.
Qed.

Lemma seal_refines ok w w' :
  worker_ok w -> seal_return ok w = Some w' -> promise_step (Returned ok) (abstract w) (abstract w').
Proof.
  intros Hok. unfold seal_return. destruct (pc w) as [| | | |drain todo fs o| |] eqn:Hpc; try done.
  assert (executing w = Some o) as He by (unfold executing; by rewrite Hpc).
  assert (is_Some (owners w !! o)) as [d Ho] by (apply Hok; auto). rewrite Ho. intros [= <-].
  assert (abstract w = mkPromise (list_to_set (queue w) ∪ (if d then {[o]} else ∅)) (Some o)) as ->.
  { unfold abstract, promise_of. by rewrite He, Ho. }
  destruct ok; cbn [negb orb].
  - eapply promise_to; [apply (promise_sealed o); done| |by destruct d]. unfold abstract. destruct d; cbn; set_solver.
  - eapply promise_to; [apply (promise_failed o); done| |done]. unfold abstract. cbn. destruct d; set_solver.
Qed.

Lemma run_refines w w' : worker_ok w -> run w = Some w' -> promise_step Internal (abstract w) (abstract w').
Proof.
  intros Hok. unfold run. destruct (pc w) as [| |drain todo fs|drain todo fs| | |] eqn:Hpc; try done.
  all: assert (executing w = None) as He by (unfold executing; by rewrite Hpc).
  - intros [= <-]. destruct (closing w); by apply abstract_same.
  - destruct (closing w); [|done]. intros [= <-]. by apply abstract_same.
  - intros [= <-]. unfold finish. destruct todo; [by destruct drain; apply abstract_same|].
    destruct (ctx_done drain w); [by destruct drain; apply abstract_same|]. by apply abstract_same.
  - intros [= <-]. unfold finish. destruct (_ && _); [by destruct drain; apply abstract_same|].
    pose proof (ok_queue w Hok) as Hnd. destruct (queue w) as [|o q] eqn:Hq.
    { pose proof (ok_batch w Hok) as Hb. unfold batch_fits in Hb. rewrite Hpc, Hq in Hb. cbn in Hb. lia. }
    apply NoDup_cons in Hnd as [Hnq _].
    assert (is_Some (owners w !! o)) as [d Ho] by (apply Hok; rewrite Hq; left; constructor). rewrite Ho.
    eapply promise_to; [apply (promise_begin o); unfold abstract; cbn; rewrite ?Hq; set_solver| |done]. unfold abstract. cbn. rewrite He, Hq, lookup_insert_eq. cbn. set_solver.
Qed.

Lemma step_refines e w w' : worker_ok w -> step e w = Some w' -> promise_step (label_of e w) (abstract w) (abstract w').
Proof.
  intros Hok Hs. destruct e as [o|expired| | | | |ok]; cbn [step] in Hs.
  - injection Hs as <-. by apply mark_refines.
  - injection Hs as <-. unfold Shutdown. case_match; [constructor|by apply abstract_frame].
  - case_match; [|done]. injection Hs as <-. by apply abstract_frame.
  - case_match; [|done]. injection Hs as <-. by apply abstract_frame.
  - destruct (pc w) eqn:Hpc; try done. injection Hs as <-. apply abstract_same; [done| |done].
    unfold executing. by rewrite Hpc.
  - by apply run_refines.
  - by eapply seal_refines.
Qed.

(** *** Runs *)

Fixpoint steps (es : list event) (w : SealWorker) : option SealWorker :=
  match es with
  | [] => Some w
  | e :: es => match step e w with Some w' => steps es w' | None => None end
  end.

Lemma steps_app es es' w : steps (es ++ es') w = match steps es w with Some w => steps es' w | None => None end.
Proof. revert w. induction es as [|e es IH]; intros w; cbn; [done|]. destruct (step e w); [apply IH|done]. Qed.

Lemma steps_stay_reachable es : forall w w', reachable w -> steps es w = Some w' -> reachable w'.
Proof.
  induction es as [|e es IH]; intros w w' Hr Hs; cbn in Hs; [by simplify_eq|]. destruct (step e w) as [w1|] eqn:E; [|done].
  eapply IH; [|exact Hs]. by eapply reachable_step.
Qed.

Definition no_return (es : list event) : Prop := forall e, e ∈ es -> match e with SealReturned _ => False | _ => True end.

(** A seal of the owner began in the run, after its first [w]; it is running or it has succeeded. *)
Definition sealed_since (o : string) (w : SealWorker) (es : list event) (w' : SealWorker) : Prop :=
  exists es1 es2 w1 w2, es = es1 ++ Run :: es2 /\ steps es1 w = Some w1 /\ step Run w1 = Some w2 /\
    executing w1 = None /\ executing w2 = Some o /\
    (no_return es2 /\ executing w' = Some o \/ exists es3 es4, es2 = es3 ++ SealReturned true :: es4 /\ no_return es3).

Lemma begin_is_run e w w' o : worker_ok w -> step e w = Some w' -> executing w = None -> executing w' = Some o -> e = Run.
Proof.
  intros Hok Hs He He'. destruct e as [m|expired| | | | |ok]; cbn [step] in Hs; try done.
  - injection Hs as <-. assert (executing (snd (MarkDirty m w)) = executing w) as Hm; [|congruence].
    unfold MarkDirty. destruct (closing w || _ || _); [done|]. destruct (owners w !! m); [done|]. by destruct (_ <=? _).
  - injection Hs as <-. unfold Shutdown in He'. case_match; unfold executing in *; cbn in He'; congruence.
  - case_match; [|done]. injection Hs as <-. unfold executing in *; cbn in He'; congruence.
  - case_match; [|done]. injection Hs as <-. unfold executing in *; cbn in He'; congruence.
  - destruct (pc w); try done. by injection Hs as <-.
  - unfold seal_return in Hs. unfold executing in He. by destruct (pc w).
Qed.

(** The running seal goes on until it returns. *)
Lemma promise_running l p p' o : promise_step l p p' -> sealing p = Some o ->
  match l with Returned true => True | Returned false => o ∈ owed p' | _ => sealing p' = Some o end.
Proof. destruct 1; cbn; intros; try done; [congruence|]. assert (o0 = o) as -> by congruence. set_solver. Qed.

Lemma promise_owed l p p' o : promise_step l p p' -> o ∈ owed p -> o ∈ owed p' \/ sealing p = None /\ sealing p' = Some o.
Proof.
  destruct 1 as [| | |o'| |]; cbn; intros; try (left; set_solver). destruct (decide (o' = o)) as [->|]; [by right|left; set_solver].
Qed.

Lemma running_goes_on e w w' o : worker_ok w -> step e w = Some w' -> executing w = Some o ->
  match e with SealReturned true => True | SealReturned false => o ∈ owed (abstract w') | _ => executing w' = Some o end.
Proof.
  intros Hok Hs He. pose proof (promise_running _ _ _ o (step_refines e w w' Hok Hs) He) as Hp.
  destruct e as [m|expired| | | | |[]]; cbn [label_of] in Hp; try exact Hp. by destruct (fst (MarkDirty m w)).
Qed.

Lemma owed_or_sealed e w w' o : worker_ok w -> step e w = Some w' -> o ∈ owed (abstract w) ->
  o ∈ owed (abstract w') \/ e = Run /\ executing w = None /\ executing w' = Some o.
Proof.
  intros Hok Hs Ho. destruct (promise_owed _ _ _ o (step_refines e w w' Hok Hs) Ho) as [?|[Hn He]]; [by left|right].
  split_and!; [by eapply begin_is_run|done|done].
Qed.

Lemma owed_until_sealed o w : reachable w -> o ∈ owed (abstract w) -> forall es w', steps es w = Some w' ->
  o ∈ owed (abstract w') \/ sealed_since o w es w'.
Proof.
  intros Hr Ho. induction es as [|e es IH] using rev_ind; intros w' Hs; [cbn in Hs; simplify_eq; by left|].
  rewrite steps_app in Hs. destruct (steps es w) as [wk|] eqn:Hk; [|done]. cbn in Hs. destruct (step e wk) as [wn|] eqn:He; [|done]. injection Hs as <-.
  assert (worker_ok wk) as Hok by (eapply worker_reachable_ok, steps_stay_reachable; [exact Hr|exact Hk]).
  destruct (IH wk eq_refl) as [Hin|(es1 & es2 & w1 & w2 & -> & H1 & H2 & H3 & H4 & [[Hno Hex]|(es3 & es4 & -> & Hno)])].
  - destruct (owed_or_sealed e wk wn o Hok He Hin) as [?|(-> & Hn & Hx)]; [by left|]. right. exists es, [], wk, wn. split_and!; [done..|]. left. split; [|done]. by intros ? ?%elem_of_nil.
  - pose proof (running_goes_on e wk wn o Hok He Hex) as Hgo.
    assert (match e with SealReturned _ => False | _ => True end -> executing wn = Some o -> sealed_since o w ((es1 ++ Run :: es2) ++ [e]) wn) as Hrun.
    { intros Hne Hx. exists es1, (es2 ++ [e]), w1, w2. split_and!; [by rewrite <- app_assoc|done..|]. left. split; [|done].
      intros x [Hin| ->%list_elem_of_singleton]%elem_of_app; [by apply Hno|done]. }
    destruct e as [m|expired| | | | |[]]; try (right; by apply Hrun).
    + right. exists es1, (es2 ++ [SealReturned true]), w1, w2. split_and!; [by rewrite <- app_assoc|done..|]. right. by exists es2, [].
    + by left.
  - right. exists es1, (es3 ++ SealReturned true :: es4 ++ [e]), w1, w2. split_and!; [rewrite <- app_assoc; cbn; by rewrite <- app_assoc|done..|]. right. by exists es3, (es4 ++ [e]).
Qed.

(** C33: no accepted request is lost.  Every step of the worker is a step of the
    abstract promise with the same answer: an accepted request is owed, an owner
    leaves the owed set only when a seal of it begins, and it is owed again when
    that seal returns an error.  So after an accepted request, at the end of any
    run, the owner is still owed, or a seal of it that began after the request is
    running or has succeeded. *)
Theorem worker_keeps_its_promise (w : SealWorker) :
  reachable w ->
  (forall e w', step e w = Some w' -> promise_step (label_of e w) (abstract w) (abstract w')) /\
  (forall o es w', fst (MarkDirty o w) = true -> steps es (snd (MarkDirty o w)) = Some w' ->
     o ∈ owed (abstract w') \/ sealed_since o (snd (MarkDirty o w)) es w').
Proof.
  intros Hr. pose proof (worker_reachable_ok w Hr) as Hok. split; [intros e w'; by apply step_refines|].
  intros o es w' Ha Hs. apply owed_until_sealed; [by apply (reachable_step (Mark o) w)| |done].
  pose proof (mark_refines o w Hok) as Hp. cbn [label_of] in Hp. rewrite Ha in Hp. inversion Hp; subst. set_solver.
Qed.

(** ** Shutdown *)

(** C40: once admission is closed, the goroutine ends.  Every step it can make
    brings it nearer to its end, no other goroutine's step sets it back, and until
    it is done it always has a step to make (given that seals return). *)
Theorem shutdown_terminates (w : SealWorker) :
  reachable w -> closing w = true ->
  (forall e w', step e w = Some w' -> closing w' = true /\
     if worker_event e then work_left w' < work_left w else work_left w' <= work_left w) /\
  (pc w <> Done -> exists e w', worker_event e = true /\ step e w = Some w').
Proof.
  intros Hok%worker_reachable_ok Hcl. pose proof (ok_batch w Hok) as Hb. split.
  - intros e w' Hs. destruct e as [o|expired| | | | |ok]; cbn in Hs |- *.
    + unfold MarkDirty in Hs. rewrite Hcl in Hs. cbn in Hs. by injection Hs as <-.
    + unfold Shutdown in Hs. rewrite Hcl in Hs. by injection Hs as <-.
    + rewrite Hcl in Hs. injection Hs as <-. split; [done|]. unfold work_left. done.
    + rewrite Hcl in Hs. destruct (closeDone w); [|done]. injection Hs as <-. done.
    + destruct (pc w) eqn:Hpc; try done. injection Hs as <-. split; [done|].
      unfold work_left. rewrite Hpc. cbn. lia.
    + unfold run, finish, work_left, batch_fits in *. rewrite Hcl in Hs.
      destruct (pc w) as [| |[] [|todo] fs|[] todo fs| | |] eqn:Hpc; try done; cbn in Hs.
      all: try (injection Hs as <-; split; [done|]; cbn; lia).
      1,2: destruct (closeDone w), (jobDone w); injection Hs as <-; (split; [done|]); cbn; lia.
      destruct (queue w) as [|o q] eqn:Hq; [cbn in Hb; lia|].
      destruct (owners w !! o); injection Hs as <-; (split; [done|]); cbn; lia.
    + unfold seal_return in Hs. destruct (pc w) as [| | | |drain todo fs o| |] eqn:Hpc; try done.
      destruct (owners w !! o) as [d|]; injection Hs as <-.
      * unfold work_left. rewrite Hpc. destruct (negb ok || d), drain; (split; [done|]); cbn; rewrite ?length_app; cbn; lia.
      * unfold work_left. rewrite Hpc. destruct drain; (split; [done|]); cbn; lia.
  - intros Hd. destruct (pc w) eqn:Hpc; try done.
    1-4: exists Run; cbn; unfold run; rewrite Hpc, ?Hcl; by eexists.
    + exists (SealReturned true). cbn. unfold seal_return. rewrite Hpc. destruct (owners w !! owner); by eexists.
    + unfold batch_fits in Hb. by rewrite Hpc in Hb.
Qed.

(** ** Draining *)

(** The goroutine's events while it drains, [oks] being the outcomes of the seals. *)
Fixpoint drain_events (oks : list bool) : list event :=
  match oks with
  | [] => [Run]
  | ok :: oks => Run :: Run :: SealReturned ok :: drain_events oks
  end.

(** The owners whose seal failed, in order. *)
Fixpoint failed (qs : list string) (oks : list bool) : list string :=
  match qs, oks with
  | o :: qs, ok :: oks => if ok then failed qs oks else o :: failed qs oks
  | _, _ => []
  end.

Lemma drain_one w fs todo ok o q :
  worker_ok w -> closing w = true -> closeDone w = false -> pc w = CheckCtx true (S todo) fs ->
  queue w = o :: q ->
  exists w', steps [Run; Run; SealReturned ok] w = Some w' /\ worker_ok w' /\
    closing w' = true /\ closeDone w' = false /\
    queue w' = (if ok then q else q ++ [o]) /\
    pc w' = CheckCtx true todo (if ok then fs else fs ++ [o]).
Proof.
  intros Hok Hcl Hcd Hpc Hq.
  assert (is_Some (owners w !! o)) as [d Ho] by (apply Hok; rewrite Hq; left; constructor).
  destruct (steps [Run; Run; SealReturned ok] w) as [w'|] eqn:Hs.
  - exists w'. split; [done|]. split.
    + cbn [steps] in Hs. destruct (step Run w) as [w1|] eqn:H1; [|done].
      destruct (step Run w1) as [w2|] eqn:H2; [|done]. destruct (step _ w2) as [w3|] eqn:H3; [|done].
      injection Hs as <-. eauto using worker_step_ok.
    + worker_cases w. subst. cbn in Hs. rewrite Ho in Hs. cbn in Hs. unfold seal_return in Hs. cbn in Hs.
      rewrite lookup_insert_eq in Hs. by destruct ok; injection Hs as <-.
  - exfalso. worker_cases w. subst. cbn in Hs. rewrite Ho in Hs. cbn in Hs. unfold seal_return in Hs. cbn in Hs.
    by rewrite lookup_insert_eq in Hs.
Qed.

Lemma drain_all oks : forall w fs qs extra,
  worker_ok w -> closing w = true -> closeDone w = false -> pc w = CheckCtx true (length oks) fs ->
  queue w = qs ++ extra -> length qs = length oks ->
  exists w', steps (drain_events oks) w = Some w' /\ pc w' = Done /\
    queue w' = extra ++ failed qs oks /\ w_err w' = Some (fs ++ failed qs oks, false).
Proof.
  induction oks as [|ok oks IH]; intros w fs [|o qs] extra Hok Hcl Hcd Hpc Hq Hlen; try done.
  - worker_cases w. subst. eexists. split; [done|]. split; [done|]. cbn. by rewrite !app_nil_r.
  - injection Hlen as Hlen. cbn [length] in Hpc. cbn [app] in Hq.
    destruct (drain_one w fs (length oks) ok o (qs ++ extra)) as (w1 & Hs & Hok1 & Hcl1 & Hcd1 & Hq1 & Hpc1); [done..|].
    destruct (IH w1 _ qs (if ok then extra else extra ++ [o]) Hok1 Hcl1 Hcd1 Hpc1) as (w' & Hw & Hd & Hqw & He);
      [by destruct ok; rewrite Hq1, ?app_assoc|done|].
    exists w'. split.
    { change (drain_events (ok :: oks)) with ([Run; Run; SealReturned ok] ++ drain_events oks).
      by rewrite steps_app, Hs. }
    split; [done|]. rewrite Hqw, He. cbn. destruct ok; by rewrite <-?app_assoc.
Qed.

(** a shutdown with time left seals every owner queued at that moment exactly
    once and in order, then ends with the failed owners as its error and as the
    rest of the queue. *)
Theorem drain_seals_each_owner_once (w : SealWorker) (oks : list bool) :
  reachable w -> closing w = true -> closeDone w = false -> pc w = Top ->
  length oks = length (queue w) ->
  exists w', steps (Run :: drain_events oks) w = Some w' /\ pc w' = Done /\
    queue w' = failed (queue w) oks /\ w_err w' = Some (failed (queue w) oks, false).
Proof.
  intros Hr Hcl Hcd Hpc Hlen.
  assert (step Run w = Some (batch true w)) as Hs by (cbn; unfold run; by rewrite Hpc, Hcl).
  pose proof (worker_reachable_ok _ (reachable_step Run w _ Hr Hs)) as Hok.
  destruct (drain_all oks (batch true w) [] (queue w) [] Hok) as (w' & Hw & ?); [done|done|by cbn; rewrite Hlen|cbn; by rewrite app_nil_r|done|].
  exists w'. split; [|done]. cbn [steps]. by rewrite Hs.
Qed.

(** ** Witnesses *)

Lemma sample_reachable es w : steps es newSealWorker = Some w -> reachable w.
Proof.
  enough (forall w0, reachable w0 -> steps es w0 = Some w -> reachable w) as H by (apply H; constructor).
  induction es as [|e es IH]; cbn; intros w0 Hr; [by intros [= <-]|].
  destruct (step e w0) eqn:E; [|done]. intros. eapply IH; [|done]. by econstructor.
Qed.

Lemma sample_busy_reachable : reachable sample_busy.
Proof. apply (sample_reachable [Mark "a"; Mark "b"; Run; Tick; Run; Run; Mark "a"]). by vm_compute. Qed.

Lemma sample_closed_reachable : reachable sample_closed.
Proof. apply (sample_reachable [Mark "a"; Mark "b"; ShutdownCalled false]). by vm_compute. Qed.

Lemma worker_is_bounded_witness : executing sample_busy = Some "a" /\ "a" ∉ queue sample_busy.
Proof.
  destruct (worker_is_bounded sample_busy sample_busy_reachable) as (_ & _ & _ & _ & H).
  split; [done|]. by apply H.
Defined.

(** The owner [a] is marked again while it is being sealed; that seal succeeds, and the new request is still owed. *)
Definition sample_after : SealWorker := default sample_busy (steps [SealReturned true] (snd (MarkDirty "a" sample_busy))).

Lemma worker_keeps_its_promise_witness :
  executing sample_after = None /\
  ("a" ∈ owed (abstract sample_after) \/ sealed_since "a" (snd (MarkDirty "a" sample_busy)) [SealReturned true] sample_after).
Proof.
  split; [by vm_compute|].
  apply (proj2 (worker_keeps_its_promise sample_busy sample_busy_reachable)); by vm_compute.
Defined.

Lemma shutdown_terminates_witness :
  exists e w', worker_event e = true /\ step e sample_closed = Some w'.
Proof. apply (shutdown_terminates sample_closed sample_closed_reachable eq_refl). done. Defined.

Lemma drain_seals_each_owner_once_witness :
  exists w', steps (Run :: drain_events [false; true]) sample_closed = Some w' /\ queue w' = ["a"].
Proof.
  destruct (drain_seals_each_owner_once sample_closed [false; true] sample_closed_reachable eq_refl eq_refl
    eq_refl eq_refl) as (w' & Hw & _ & Hq & _).
  exists w'. split; [done|]. exact Hq.
Defined.
