(* ===== verification/Coordinator.v ===== *)
(** * Application coordinator

    [internal/usecase/coordinator.go]: the registry of per-record command locks.
    An entry of the registry is a heap cell with a one-place permit channel and a
    reference count; commands reference entries, wait for permits, hold several
    of them in key order, and release them in reverse; shutdown closes admission
    and, when all references have joined, hands the registry to one drain.

    Every event is one region under [c.mu], one channel operation or one context
    test of one goroutine, so event sequences are the interleavings. *)

From stdpp Require Import base gmap list strings sorting.
From Stdlib Require Import Lia OrderedTypeEx.
From S2P Require Import Prelude.

#[local] Open Scope nat_scope.

(** ** State *)

Inductive coordError :=
| Canceled             (* context.Canceled of the coordinator *)
| CtxErr               (* the caller's or the drain's ctx.Err() *)
| errCoordinatorBusy.

Record commandEntry := mkEntry {
  permit : bool;       (* the channel of capacity one holds its token *)
  e_refs : nat;
}.

Definition loc : Type := nat.

(** What follows an [unreference]. *)
Inductive after :=
| BackToBody                     (* a failed tryAcquire returns to the command *)
| Unwinding (err : option coordError).

Inductive phase :=
| Next                                     (* before the next key; the command body when none is left *)
| Waiting (k : string) (e : loc)           (* the select of acquireReferenced *)
| Took (k : string) (e : loc)              (* received the permit, before the recheck *)
| TryRef (k : string) (e : loc)            (* the select of tryAcquire *)
| TookTry (k : string) (e : loc)
| Drop (k : string) (e : loc) (next : after)   (* before unreference *)
| Unwind (err : option coordError)         (* releasing the accepted reservations *)
| Finished (err : option coordError).

(** One goroutine in [acquireKeys] and its command. *)
Record command := mkCommand {
  drains : bool;                     (* goes through coordinatorDrain *)
  ctx_err : bool;                    (* its context is done *)
  todo : list string;                (* keys not yet acquired *)
  held : list (string * loc);        (* reservations, the newest first *)
  phase_of : phase;
}.
#[export] Instance eta_command : Eta command := fun c =>
  mkCommand (drains c) (ctx_err c) (todo c) (held c) (phase_of c).

Record applicationCoordinator := mkCoordinator {
  entries : gmap string loc;
  heap : gmap loc commandEntry;
  fresh : loc;
  canceled : bool;                   (* c.ctx.Err() != nil *)
  closed : bool;
  refs : nat;
  drainClosed : bool;                (* c.drained is closed *)
  drainOwner : bool;                 (* a coordinatorDrain was issued *)
  drainCtx : bool;                   (* its context is done *)
  drainEnd : bool;                   (* d.closed *)
  commands : list command;
}.
#[export] Instance eta_coordinator : Eta applicationCoordinator := fun c =>
  mkCoordinator (entries c) (heap c) (fresh c) (canceled c) (closed c) (refs c) (drainClosed c)
    (drainOwner c) (drainCtx c) (drainEnd c) (commands c).

Definition newApplicationCoordinator : applicationCoordinator :=
  mkCoordinator ∅ ∅ 0 false false 0 false false false false [].

(** ** Keys in order *)

Definition key_le (a b : string) : Prop := String.leb a b = true.
#[export] Instance key_le_dec a b : Decision (key_le a b).
Proof. unfold key_le. apply _. Defined.

(** Skipping a key equal to its predecessor. *)
Fixpoint skip_equal (keys : list string) : list string :=
  match keys with
  | a :: ((b :: _) as rest) => if (a =? b)%string then skip_equal rest else a :: skip_equal rest
  | _ => keys
  end.

Definition ordered_keys (keys : list string) : list string := skip_equal (merge_sort key_le keys).

(** ** Registry operations *)

(** The entry part of [reference] and of [coordinatorDrain.acquire]. *)
Definition add_reference (key : string) (c : applicationCoordinator) : loc * applicationCoordinator :=
  let '(e, c) :=
    match entries c !! key with
    | Some e => (e, c)
    | None =>
        (fresh c, c <| entries ::= <[key := fresh c]> |>
                    <| heap ::= <[fresh c := mkEntry true 0]> |> <| fresh ::= S |>)
    end in
  (e, c <| heap ::= alter (fun x => mkEntry (permit x) (S (e_refs x))) e |> <| refs ::= S |>).

Definition reference (key : string) (c : applicationCoordinator)
    : result coordError (loc * applicationCoordinator) :=
  if closed c || canceled c then Err Canceled else Ok (add_reference key c).

Definition unreference (key : string) (e : loc) (c : applicationCoordinator) : applicationCoordinator :=
  let c := c <| heap ::= alter (fun x => mkEntry (permit x) (pred (e_refs x))) e |> <| refs ::= pred |> in
  let c := match heap c !! e with
           | Some x => if (e_refs x =? 0) then c <| entries ::= delete key |> else c
           | None => c
           end in
  if closed c && (refs c =? 0) && negb (drainClosed c) then c <| drainClosed := true |> else c.

(** [<-e.permit] and [e.permit <- struct{}{}]: [None] when the operation blocks. *)
Definition receive (e : loc) (c : applicationCoordinator) : option applicationCoordinator :=
  match heap c !! e with
  | Some x => if permit x then Some (c <| heap ::= <[e := mkEntry false (e_refs x)]> |>) else None
  | None => None
  end.

Definition send (e : loc) (c : applicationCoordinator) : option applicationCoordinator :=
  match heap c !! e with
  | Some x => if permit x then None else Some (c <| heap ::= <[e := mkEntry true (e_refs x)]> |>)
  | None => None
  end.

(** The admission of a drain command: [d.acquire] before its select. *)
Definition drain_admitted (c : applicationCoordinator) : bool :=
  drainOwner c && negb (drainEnd c).

Definition drain_reference (cancel : bool) (key : string) (c : applicationCoordinator)
    : result coordError (loc * applicationCoordinator) :=
  if cancel || drainCtx c then Err CtxErr
  else if negb (drain_admitted c) then Err Canceled
  else Ok (add_reference key c).

(** ** One step of a command *)

Definition set_phase (p : phase) (t : command) : command := t <| phase_of := p |>.

(** The tests that end a wait: the caller's context, then the coordinator's (or,
    for a drain command, the drain's). *)
Definition wait_error (t : command) (c : applicationCoordinator) : option coordError :=
  if ctx_err t then Some CtxErr
  else if drains t then (if drainCtx c then Some CtxErr else None)
  else if canceled c then Some Canceled else None.

(** The recheck after a permit was received. *)
Definition took_error (t : command) (c : applicationCoordinator) : option coordError :=
  if drains t then
    if drain_admitted c && negb (ctx_err t) && negb (drainCtx c) then None else Some Canceled
  else wait_error t c.

(** [abort] is the choice of the select: leave a wait that may also proceed. *)
Definition command_step (abort : bool) (t : command) (c : applicationCoordinator)
    : option (command * applicationCoordinator) :=
  match phase_of t with
  | Next =>
      match todo t with
      | [] => None
      | k :: rest =>
          let t := t <| todo := rest |> in
          if negb (drains t) && ctx_err t then Some (set_phase (Unwind (Some CtxErr)) t, c)
          else match (if drains t then drain_reference (ctx_err t) k c else reference k c) with
               | Ok (e, c) => Some (set_phase (Waiting k e) t, c)
               | Err err => Some (set_phase (Unwind (Some err)) t, c)
               end
      end
  | Waiting k e =>
      if abort then
        match wait_error t c with
        | Some err => Some (set_phase (Drop k e (Unwinding (Some err))) t, c)
        | None => None
        end
      else match receive e c with
           | Some c => Some (set_phase (Took k e) t, c)
           | None => None
           end
  | Took k e =>
      match took_error t c with
      | None => Some (t <| held ::= cons (k, e) |> <| phase_of := Next |>, c)
      | Some err =>
          match send e c with
          | Some c => Some (set_phase (Drop k e (Unwinding (Some err))) t, c)
          | None => None
          end
      end
  | TryRef k e =>
      match receive e c with
      | Some c => Some (set_phase (TookTry k e) t, c)
      | None => Some (set_phase (Drop k e BackToBody) t, c)
      end
  | TookTry k e =>
      if canceled c then
        match send e c with
        | Some c => Some (set_phase (Drop k e BackToBody) t, c)
        | None => None
        end
      else Some (t <| held ::= cons (k, e) |> <| phase_of := Next |>, c)
  | Drop k e next =>
      Some (set_phase (match next with BackToBody => Next | Unwinding err => Unwind err end) t,
            unreference k e c)
  | Unwind err =>
      match held t with
      | [] => Some (set_phase (Finished err) t, c)
      | (k, e) :: rest =>
          match send e c with
          | Some c => Some (t <| held := rest |> <| phase_of := Drop k e (Unwinding err) |>, c)
          | None => None
          end
      end
  | Finished _ => None
  end.

(** A command that holds all its keys. *)
Definition in_body (t : command) : bool :=
  match phase_of t, todo t with Next, [] => true | _, _ => false end.

(** ** Shutdown *)

(** The critical section of [close]; its callers then wait for [c.drained]. *)
Definition close (c : applicationCoordinator) : applicationCoordinator :=
  if closed c then c
  else let c := c <| closed := true |> <| canceled := true |> in
       if (refs c =? 0) && negb (drainClosed c) then c <| drainClosed := true |> else c.

(** [beginDrain] once [c.drained] is closed: at most one drain is ever issued. *)
Definition beginDrain (c : applicationCoordinator) : option applicationCoordinator :=
  if drainClosed c && negb (drainOwner c) then Some (c <| drainOwner := true |>) else None.

(** [coordinatorDrain.finish]; it changes nothing and reports busy while references remain. *)
Definition finish (c : applicationCoordinator) : option applicationCoordinator :=
  if drainOwner c then Some (if (refs c =? 0) then c <| drainEnd := true |> else c) else None.

(** ** Events *)

Inductive event :=
| Acquire (drain : bool) (keys : list string)   (* acquireKeys is called *)
| Advance (i : nat) (abort : bool)              (* one step of command i *)
| TryAcquire (i : nat) (key : string)           (* tryAcquire from the body of the normal command i *)
| Release (i : nat)                             (* command i calls its release function *)
| ContextDone (i : nat)                         (* the context of command i ends *)
| ParentCanceled
| Close                                         (* the critical section of close *)
| BeginDrain
| DrainContextDone
| FinishDrain.

Definition step (ev : event) (c : applicationCoordinator) : option applicationCoordinator :=
  match ev with
  | Acquire drain keys =>
      Some (c <| commands ::= fun l => l ++ [mkCommand drain false (ordered_keys keys) [] Next] |>)
  | Advance i abort =>
      match commands c !! i with
      | Some t =>
          match command_step abort t c with
          | Some (t, c) => Some (c <| commands ::= <[i := t]> |>)
          | None => None
          end
      | None => None
      end
  | TryAcquire i key =>
      match commands c !! i with
      | Some t =>
          if in_body t && negb (drains t) then
            match reference key c with
            | Ok (e, c) => Some (c <| commands ::= <[i := set_phase (TryRef key e) t]> |>)
            | Err _ => Some c
            end
          else None
      | None => None
      end
  | Release i =>
      match commands c !! i with
      | Some t => if in_body t then Some (c <| commands ::= <[i := set_phase (Unwind None) t]> |>) else None
      | None => None
      end
  | ContextDone i =>
      match commands c !! i with
      | Some t => Some (c <| commands ::= <[i := t <| ctx_err := true |>]> |>)
      | None => None
      end
  | ParentCanceled => Some (c <| canceled := true |>)
  | Close => Some (close c)
  | BeginDrain => beginDrain c
  | DrainContextDone => Some (c <| drainCtx := true |>)
  | FinishDrain => finish c
  end.

Inductive reachable : applicationCoordinator -> Prop :=
| reachable_start : reachable newApplicationCoordinator
| reachable_step ev c c' : reachable c -> step ev c = Some c' -> reachable c'.

(** ** Claims and permits *)

(** The references a command owns, and those whose permit it has. *)
Definition phase_claims (p : phase) : list (string * loc) :=
  match p with
  | Waiting k e | Took k e | TryRef k e | TookTry k e | Drop k e _ => [(k, e)]
  | Next | Unwind _ | Finished _ => []
  end.

Definition phase_permits (p : phase) : list (string * loc) :=
  match p with
  | Took k e | TookTry k e => [(k, e)]
  | _ => []
  end.

Definition claims (t : command) : list (string * loc) := phase_claims (phase_of t) ++ held t.
Definition permits (t : command) : list (string * loc) := phase_permits (phase_of t) ++ held t.

Definition all_claims (c : applicationCoordinator) : list (string * loc) := commands c ≫= claims.
Definition all_permits (c : applicationCoordinator) : list (string * loc) := commands c ≫= permits.

(** How often an entry occurs among references. *)
Definition uses (e : loc) (l : list (string * loc)) : nat := length (filter (fun p => p.2 = e) l).

#[local] Arguments uses : simpl never.

(** The registry agrees with the references [A] and the permits [B] handed out. *)
Record registry_ok (c : applicationCoordinator) (A B : list (string * loc)) : Prop := {
  r_claims : forall k e, (k, e) ∈ A -> entries c !! k = Some e;
  r_entries : forall k e, entries c !! k = Some e -> exists x, heap c !! e = Some x /\
      e_refs x = uses e A /\ 0 < uses e A /\ (if permit x then 1 else 0) + uses e B = 1;
  r_inj : forall k k' e, entries c !! k = Some e -> entries c !! k' = Some e -> k = k';
  r_fresh : forall k e, entries c !! k = Some e -> e < fresh c;
  r_refs : refs c = length A;
}.

Definition key_lt (a b : string) : Prop := String_as_OT.lt a b.

(** A command acquires its keys in increasing order and ends holding none. *)
Definition ordered (t : command) : Prop :=
  StronglySorted key_lt (todo t) /\
  (forall k e k', (k, e) ∈ claims t -> k' ∈ todo t -> key_lt k k') /\
  (forall k e k' e', phase_of t = Waiting k e \/ phase_of t = Took k e -> (k', e') ∈ held t -> key_lt k' k) /\
  (forall k e, phase_of t = TryRef k e \/ phase_of t = TookTry k e -> todo t = []) /\
  (forall k e, phase_of t = Drop k e BackToBody -> todo t = []) /\
  (forall err, phase_of t = Finished err -> held t = []).

(** Shutdown: the registry is handed over only when no command is left. *)
Record handover_ok (c : applicationCoordinator) : Prop := {
  h_closed : closed c = true -> canceled c = true;
  h_drained : drainClosed c = true -> closed c = true;
  h_normal : drainClosed c = true -> forall t, t ∈ commands c -> drains t = false -> claims t = [];
  h_owner : drainOwner c = true -> drainClosed c = true;
  h_drain : forall t, t ∈ commands c -> drains t = true -> claims t <> [] -> drainOwner c = true;
  h_last : closed c = true -> refs c = 0 -> drainClosed c = true;
}.

Record coordinator_ok (c : applicationCoordinator) : Prop := {
  ok_registry : registry_ok c (all_claims c) (all_permits c);
  ok_order : forall t, t ∈ commands c -> ordered t;
  ok_handover : handover_ok c;
}.

(** ** Counting *)

#[export] Instance uses_perm e : Proper ((≡ₚ) ==> eq) (uses e).
Proof. intros l l' H. unfold uses. by rewrite H. Qed.

Lemma uses_cons k e e' l : uses e ((k, e') :: l) = (if decide (e' = e) then 1 else 0) + uses e l.
Proof. unfold uses. rewrite filter_cons. cbn. by destruct (decide (e' = e)). Qed.

Lemma uses_app e l l' : uses e (l ++ l') = uses e l + uses e l'.
Proof. unfold uses. by rewrite filter_app, length_app. Qed.

Lemma uses_pos e l : 0 < uses e l <-> exists k, (k, e) ∈ l.
Proof.
  induction l as [|[k' e'] l IH]; [split; [unfold uses; cbn; lia|by intros [? H%elem_of_nil]]|].
  rewrite uses_cons. setoid_rewrite elem_of_cons. destruct (decide (e' = e)) as [->|Hne].
  - split; [intros; exists k'; by left|lia].
  - rewrite Nat.add_0_l, IH. split; [naive_solver|intros [k [[= -> ->]|]]; naive_solver].
Qed.

#[export] Instance registry_ok_perm c : Proper ((≡ₚ) ==> (≡ₚ) ==> iff) (registry_ok c).
Proof.
  assert (forall A A' B B', A ≡ₚ A' -> B ≡ₚ B' -> registry_ok c A B -> registry_ok c A' B') as H.
  { intros A A' B B' HA HB [H1 H2 H3 H4 H5]. split; try done.
    - intros k e. rewrite <-HA. apply H1.
    - intros k e Hk. destruct (H2 k e Hk) as (x & ?). exists x. by rewrite <-HA, <-HB.
    - by rewrite <-HA. }
  intros A A' HA B B' HB. split; by apply H.
Qed.

Lemma bind_lookup {X} (f : command -> list X) l i t :
  l !! i = Some t -> l ≫= f ≡ₚ f t ++ (delete i l ≫= f).
Proof. intros H. rewrite (delete_Permutation _ _ _ H) at 1. done. Qed.

Lemma delete_insert_same {X} (l : list X) i x : delete i (<[i := x]> l) = delete i l.
Proof. revert i. induction l as [|y l IH]; intros [|i]; cbn; [done..|]. f_equal. apply IH. Qed.

Lemma bind_insert {X} (f : command -> list X) l i t t' :
  l !! i = Some t -> <[i := t']> l ≫= f ≡ₚ f t' ++ (delete i l ≫= f).
Proof.
  intros H. rewrite (bind_lookup f (<[i := t']> l) i t').
  - by rewrite delete_insert_same.
  - apply list_lookup_insert_eq. by eapply lookup_lt_Some.
Qed.

(** ** Registry operations keep the registry in order *)

Lemma add_reference_ok c A B k e c' :
  registry_ok c A B -> (forall p, p ∈ B -> p ∈ A) -> add_reference k c = (e, c') ->
  registry_ok c' ((k, e) :: A) B.
Proof.
  intros [H1 H2 H3 H4 H5] HBA. unfold add_reference.
  destruct (entries c !! k) as [e0|] eqn:Hk; intros [= <- <-].
  - split; cbn; try done.
    + intros k' e'. rewrite elem_of_cons. intros [[= -> ->]|]; [done|by apply H1].
    + intros k' e' Hk'. destruct (H2 k' e' Hk') as (x & Hx & Hr & Hp & Hb). rewrite uses_cons.
      destruct (decide (e0 = e')) as [<-|Hne].
      * rewrite lookup_alter_eq, Hx. eexists. split; [done|]. cbn. lia.
      * rewrite lookup_alter_ne, Hx by done. eexists. split; [done|]. lia.
    + by rewrite H5.
  - assert (forall k', entries c !! k' <> Some (fresh c)) as Hfr.
    { intros k' Hk'. apply H4 in Hk'. lia. }
    assert (uses (fresh c) A = 0 /\ uses (fresh c) B = 0) as [HA HB].
    { split; apply Nat.le_0_r, Nat.nlt_ge; rewrite uses_pos; intros [k' Hk'];
        [|apply HBA in Hk']; by apply H1, Hfr in Hk'. }
    split; cbn.
    + intros k' e'. rewrite elem_of_cons. intros [[= -> ->]|Hin]; [by rewrite lookup_insert_eq|].
      rewrite lookup_insert_ne; [by apply H1|]. intros <-. apply H1 in Hin. congruence.
    + intros k' e'. rewrite uses_cons. destruct (decide (k = k')) as [<-|Hne].
      * rewrite lookup_insert_eq. intros [= <-]. rewrite lookup_alter_eq, lookup_insert_eq. eexists. split; [done|].
        rewrite decide_True by done. cbn. lia.
      * rewrite lookup_insert_ne by done. intros Hk'. destruct (H2 k' e' Hk') as (x & Hx & Hr & Hp & Hb).
        rewrite decide_False by (intros <-; by apply (Hfr k')).
        rewrite lookup_alter_ne, lookup_insert_ne by (intros <-; by apply (Hfr k')). exists x. split; [done|]. lia.
    + intros k1 k2 e'. destruct (decide (k = k1)) as [<-|], (decide (k = k2)) as [<-|];
        rewrite ?lookup_insert_eq, ?lookup_insert_ne by done; [done|..].
      * intros [= <-] H. by apply Hfr in H.
      * intros H [= <-]. by apply Hfr in H.
      * apply H3.
    + intros k' e'. destruct (decide (k = k')) as [<-|]; [rewrite lookup_insert_eq; intros [= <-]; lia|].
      rewrite lookup_insert_ne by done. intros H%H4. lia.
    + by rewrite H5.
Qed.

Lemma unreference_ok c A B k e :
  registry_ok c ((k, e) :: A) B -> (forall p, p ∈ B -> p ∈ A) -> registry_ok (unreference k e c) A B.
Proof.
  intros [H1 H2 H3 H4 H5] HBA. assert (entries c !! k = Some e) as Hke by (apply H1; constructor).
  destruct (H2 k e Hke) as (x & Hx & Hr & _ & Hb). rewrite uses_cons, decide_True in Hr by done.
  set (c1 := c <| heap ::= alter (fun x => mkEntry (permit x) (pred (e_refs x))) e |> <| refs ::= pred |>).
  set (c2 := if e_refs x =? 1 then c1 <| entries ::= delete k |> else c1).
  enough (registry_ok c2 A B) as Hok.
  { unfold unreference. fold c1. change (heap c1) with (alter (fun x => mkEntry (permit x) (pred (e_refs x))) e (heap c)).
    rewrite lookup_alter_eq, Hx. cbn [fmap option_fmap option_map e_refs].
    replace (pred (e_refs x) =? 0) with (e_refs x =? 1) by (destruct (e_refs x) as [|[|]]; [lia|done|done]).
    fold c2. destruct (_ && _); [|done]. by destruct Hok; split. }
  assert (e_refs x = 1 -> uses e A = 0) as Hlast by lia.
  assert (forall k' e', entries c2 !! k' = Some e' -> entries c !! k' = Some e' /\ (e_refs x = 1 -> k <> k')) as Hsub.
  { intros k' e'. unfold c2. destruct (Nat.eqb_spec (e_refs x) 1); [|done]. cbn.
    rewrite lookup_delete_Some. naive_solver. }
  assert (heap c2 = alter (fun x => mkEntry (permit x) (pred (e_refs x))) e (heap c) /\ fresh c2 = fresh c /\
    refs c2 = pred (refs c)) as (Hheap & Hf & Hrf).
  { unfold c2. by destruct (e_refs x =? 1). }
  split.
  - intros k' e' Hin. pose proof (H1 k' e' (list_elem_of_further _ _ _ Hin)) as Hk'.
    unfold c2. destruct (Nat.eqb_spec (e_refs x) 1) as [Hone|]; [|done]. cbn.
    rewrite lookup_delete_ne; [done|]. intros <-. rewrite Hke in Hk'. injection Hk' as <-.
    assert (0 < uses e A) by (apply uses_pos; eauto). lia.
  - intros k' e' [Hk' Hne]%Hsub. destruct (H2 k' e' Hk') as (y & Hy & Hry & Hpy & Hby).
    rewrite uses_cons in Hry, Hpy. rewrite Hheap. destruct (decide (e = e')) as [<-|Hee].
    + rewrite Hx in Hy. injection Hy as <-. rewrite lookup_alter_eq, Hx. eexists. split; [done|]. cbn.
      split; [lia|]. split; [|done]. assert (k = k') by (by eapply H3). destruct (decide (e_refs x = 1)); [naive_solver|lia].
    + rewrite lookup_alter_ne, Hy by done. exists y. split; [done|]. lia.
  - intros k1 k2 e' [? _]%Hsub [? _]%Hsub. by eapply H3.
  - intros k' e' [? _]%Hsub. rewrite Hf. by eapply H4.
  - rewrite Hrf, H5. done.
Qed.

Lemma receive_ok c A B k e c' :
  registry_ok c A B -> (k, e) ∈ A -> receive e c = Some c' -> registry_ok c' A ((k, e) :: B).
Proof.
  intros [H1 H2 H3 H4 H5] Hin. unfold receive. destruct (H2 k e (H1 k e Hin)) as (x & Hx & Hr & Hp & Hb).
  rewrite Hx. destruct (permit x) eqn:Hpm; [|done]. intros [= <-]. split; cbn; try done.
  intros k' e' Hk'. rewrite uses_cons. destruct (decide (e = e')) as [<-|Hne].
  - rewrite lookup_insert_eq. eexists. split; [done|]. cbn. lia.
  - rewrite lookup_insert_ne by done. destruct (H2 k' e' Hk') as (y & Hy & ? & ? & ?). exists y. split; [done|]. lia.
Qed.

Lemma send_ok c A B k e :
  registry_ok c A ((k, e) :: B) -> (k, e) ∈ A ->
  exists c', send e c = Some c' /\ registry_ok c' A B.
Proof.
  intros [H1 H2 H3 H4 H5] Hin. unfold send. destruct (H2 k e (H1 k e Hin)) as (x & Hx & Hr & Hp & Hb).
  rewrite uses_cons, decide_True in Hb by done.
  rewrite Hx. destruct (permit x) eqn:Hpm; [lia|]. eexists. split; [done|]. split; cbn; try done.
  intros k' e' Hk'. destruct (decide (e = e')) as [<-|Hne].
  - rewrite lookup_insert_eq. eexists. split; [done|]. cbn. lia.
  - rewrite lookup_insert_ne by done. destruct (H2 k' e' Hk') as (y & Hy & ? & ? & Hby). exists y.
    rewrite uses_cons, decide_False in Hby by done. split; [done|]. lia.
Qed.

(** ** Steps of a command *)

Lemma permits_claims t p : p ∈ permits t -> p ∈ claims t.
Proof.
  unfold permits, claims. rewrite !elem_of_app. intros [H|]; [left|by right].
  by destruct (phase_of t); cbn in *; try done; apply elem_of_nil in H.
Qed.

Lemma bind_permits_claims l p : p ∈ l ≫= permits -> p ∈ l ≫= claims.
Proof.
  rewrite !list_elem_of_bind. intros (t & Hp & Ht). exists t. split; [by apply permits_claims|done].
Qed.

(** Case analysis on a step of a command whose record is [mkCommand dr cx td hd ph]. *)
Ltac command_cases t Hs :=
  destruct t as [dr cx td hd ph]; unfold command_step in Hs; cbn in Hs; destruct ph as [|k e|k e|k e|k e|k e next|err|err]; cbn in Hs; try done.

Lemma referenced (dr cx : bool) k c e c1 :
  (if dr then drain_reference cx k c else reference k c) = Ok (e, c1) -> add_reference k c = (e, c1).
Proof. unfold drain_reference, reference. destruct dr; repeat case_match; congruence. Qed.

Lemma command_step_registry abort t c t' c' A B :
  registry_ok c (claims t ++ A) (permits t ++ B) -> (forall p, p ∈ B -> p ∈ A) ->
  command_step abort t c = Some (t', c') -> registry_ok c' (claims t' ++ A) (permits t' ++ B).
Proof.
  intros Hok HBA Hs.
  assert (forall p, p ∈ permits t ++ B -> p ∈ claims t ++ A) as Hsub.
  { intros p. rewrite !elem_of_app. intros [?%permits_claims|?%HBA]; auto. }
  command_cases t Hs; unfold claims, permits in *; cbn in Hok, Hsub |- *.
  - destruct td as [|k td]; [done|]. destruct (negb dr && cx); [by injection Hs as <- <-|].
    destruct (if dr then _ else _) as [[e c1]|err] eqn:Hr; [|by injection Hs as <- <-].
    apply referenced in Hr. injection Hs as <- <-. cbn. by eapply (add_reference_ok c _ _ k).
  - destruct abort.
    + destruct (wait_error _ _); [|done]. injection Hs as <- <-. done.
    + destruct (receive e c) as [c1|] eqn:Hr; [|done]. injection Hs as <- <-. cbn.
      eapply receive_ok; [done| |done]. constructor.
  - destruct (took_error _ _).
    + destruct (send_ok c _ _ k e Hok) as (c1 & Hse & Hok1); [constructor|]. rewrite Hse in Hs. by injection Hs as <- <-.
    + by injection Hs as <- <-.
  - destruct (receive e c) as [c1|] eqn:Hr; injection Hs as <- <-; cbn; [|done].
    eapply receive_ok; [done| |done]. constructor.
  - destruct (canceled c); [|by injection Hs as <- <-].
    destruct (send_ok c _ _ k e Hok) as (c1 & Hse & Hok1); [constructor|]. rewrite Hse in Hs. by injection Hs as <- <-.
  - injection Hs as <- <-. assert (registry_ok (unreference k e c) (hd ++ A) (hd ++ B)) as Hu.
    { apply unreference_ok; [done|]. intros p. rewrite !elem_of_app. intros [?|?%HBA]; auto. }
    by destruct next.
  - destruct hd as [|[k e] hd]; [by injection Hs as <- <-|].
    destruct (send_ok c _ _ k e Hok) as (c1 & Hse & Hok1); [constructor|]. rewrite Hse in Hs. by injection Hs as <- <-.
Qed.

(** What a command may change of the coordinator. *)
Lemma command_step_frame abort t c t' c' :
  command_step abort t c = Some (t', c') ->
  commands c' = commands c /\ closed c' = closed c /\ canceled c' = canceled c /\ drainOwner c' = drainOwner c /\
  (drainClosed c' = drainClosed c \/ drainClosed c' = true /\ closed c = true /\ refs c' = 0) /\
  (closed c = true -> refs c' = 0 -> drainClosed c' = true \/ refs c = 0).
Proof.
  assert (forall k, commands (add_reference k c).2 = commands c /\ closed (add_reference k c).2 = closed c /\
    canceled (add_reference k c).2 = canceled c /\ drainOwner (add_reference k c).2 = drainOwner c /\
    drainClosed (add_reference k c).2 = drainClosed c /\ refs (add_reference k c).2 <> 0) as Hadd.
  { intros k. unfold add_reference. by destruct (entries c !! k). }
  assert (forall e c1, receive e c = Some c1 \/ send e c = Some c1 -> commands c1 = commands c /\
    closed c1 = closed c /\ canceled c1 = canceled c /\ drainOwner c1 = drainOwner c /\
    drainClosed c1 = drainClosed c /\ refs c1 = refs c) as Hchan.
  { intros e c1. unfold receive, send. repeat case_match; intros []; try done; by simplify_eq/=. }
  intros Hs. command_cases t Hs.
  - destruct td as [|k td]; [done|]. destruct (negb dr && cx); [injection Hs as <- <-; tauto|].
    destruct (if dr then _ else _) as [[e c1]|err] eqn:Hr; [|injection Hs as <- <-; tauto].
    apply referenced in Hr. specialize (Hadd k). rewrite Hr in Hadd. injection Hs as <- <-. tauto.
  - destruct abort; [destruct (wait_error _ _); [|done]; injection Hs as <- <-; tauto|].
    destruct (receive e c) as [c1|] eqn:Hr; [|done]. injection Hs as <- <-. destruct (Hchan e c1) as (? & ? & ? & ? & ? & Hrf); [auto|rewrite Hrf; auto 8].
  - destruct (took_error _ _); [|injection Hs as <- <-; tauto].
    destruct (send e c) as [c1|] eqn:Hr; [|done]. injection Hs as <- <-. destruct (Hchan e c1) as (? & ? & ? & ? & ? & Hrf); [auto|rewrite Hrf; auto 8].
  - destruct (receive e c) as [c1|] eqn:Hr; injection Hs as <- <-; [|tauto]. destruct (Hchan e c1) as (? & ? & ? & ? & ? & Hrf); [auto|rewrite Hrf; auto 8].
  - destruct (canceled c) eqn:Hcan in Hs; [|injection Hs as <- <-; tauto].
    destruct (send e c) as [c1|] eqn:Hr; [|done]. injection Hs as <- <-. destruct (Hchan e c1) as (? & ? & ? & ? & ? & Hrf); [auto|rewrite Hrf; auto 8].
  - injection Hs as _ <-. clear Hadd Hchan. unfold unreference.
    set (c1 := c <| heap ::= _ |> <| refs ::= pred |>).
    set (c2 := match heap c1 !! e with Some _ => _ | None => _ end).
    assert (commands c2 = commands c /\ closed c2 = closed c /\ canceled c2 = canceled c /\
      drainOwner c2 = drainOwner c /\ drainClosed c2 = drainClosed c) as (H1 & H2 & H3 & H4 & H5).
    { unfold c2. destruct (heap c1 !! e) as [x|]; [destruct (e_refs x =? 0)|]; done. }
    destruct (_ && _) eqn:E; split_and!; try done.
    + split_bools. right. cbn. split_and!; [done|congruence|done].
    + by left.
    + by left.
    + intros Hc Hz. left. rewrite H2, Hc, Hz in E. cbn in E. by destruct (drainClosed c2).
  - destruct hd as [|[k e] hd]; [injection Hs as <- <-; tauto|].
    destruct (send e c) as [c1|] eqn:Hr; [|done]. injection Hs as <- <-. destruct (Hchan e c1) as (? & ? & ? & ? & ? & Hrf); [auto|rewrite Hrf; auto 8].
Qed.

Lemma command_step_claims abort t c t' c' :
  command_step abort t c = Some (t', c') ->
  drains t' = drains t /\
  (claims t' <> [] -> claims t <> [] \/ (if drains t then drainOwner c else negb (closed c)) = true).
Proof.
  intros Hs. command_cases t Hs; unfold claims; cbn.
  - destruct td as [|k td]; [done|]. destruct (negb dr && cx); [injection Hs as <- <-; auto|].
    destruct (if dr then _ else _) as [[e c1]|err] eqn:Hr; injection Hs as <- <-; [|auto].
    split; [done|]. intros _. right. unfold drain_reference, drain_admitted, reference in Hr.
    destruct dr, (drainOwner c), (closed c); repeat case_match; try done.
  - destruct abort; [destruct (wait_error _ _); [|done]; injection Hs as <- <-; split; auto; by left|].
    destruct (receive e c); [|done]. injection Hs as <- <-. split; [done|by left].
  - destruct (took_error _ _); [destruct (send e c); [|done]|]; injection Hs as <- <-; (split; [done|by left]).
  - destruct (receive e c); injection Hs as <- <-; (split; [done|by left]).
  - destruct (canceled c); [destruct (send e c); [|done]|]; injection Hs as <- <-; (split; [done|by left]).
  - injection Hs as <- <-. destruct next; (split; [done|by left]).
  - destruct hd as [|[k e] hd]; [injection Hs as <- <-; auto|]. destruct (send e c); [|done].
    injection Hs as <- <-. split; [done|by left].
Qed.

Lemma command_step_order abort t c t' c' :
  ordered t -> command_step abort t c = Some (t', c') -> ordered t'.
Proof.
  intros (O1 & O2 & O3 & O4 & O5 & O6) Hs. command_cases t Hs; unfold ordered, claims in *; cbn in *.
  - destruct td as [|k td]; [done|]. apply StronglySorted_inv in O1 as [O1 Hlt]. rewrite Forall_forall in Hlt.
    assert (forall k0 e k', (k0, e) ∈ hd -> k' ∈ td -> key_lt k0 k') as O2'.
    { intros. eapply O2; [done|]. by right. }
    destruct (negb dr && cx); [injection Hs as <- <-; cbn; naive_solver|].
    destruct (if dr then _ else _) as [[e c1]|err]; injection Hs as <- <-; cbn; [|naive_solver].
    split; [done|]. split; [|split; [|naive_solver]].
    + intros k0 e0 k'. rewrite elem_of_cons. intros [[= -> ->]|]; [by apply Hlt|by eapply O2'].
    + intros k0 e0 k' e' [[= <- <-]|]; [|done]. intros Hin. eapply O2; [exact Hin|]. constructor.
  - destruct abort; [destruct (wait_error _ _); [|done]; injection Hs as <- <-; cbn; naive_solver|].
    destruct (receive e c); [|done]. injection Hs as <- <-. cbn. split_and!; try done; naive_solver.
  - destruct (took_error _ _); [destruct (send e c); [|done]|]; injection Hs as <- <-; cbn; naive_solver.
  - destruct (receive e c); injection Hs as <- <-; cbn; rewrite (O4 k e) by auto; split_and!; try done; try naive_solver; set_solver.
  - assert (td = []) as -> by (eapply O4; eauto).
    destruct (canceled c); [destruct (send e c); [|done]|]; injection Hs as <- <-; cbn; split_and!; try done; try naive_solver; set_solver.
  - injection Hs as <- <-. assert (forall k0 e0 k', (k0, e0) ∈ hd -> k' ∈ td -> key_lt k0 k') as O2'.
    { intros. eapply O2; [by right|done]. }
    destruct next; cbn; naive_solver.
  - destruct hd as [|[k e] hd]; [injection Hs as <- <-; naive_solver|]. destruct (send e c); [|done].
    injection Hs as <- <-. cbn. split_and!; try done; naive_solver.
Qed.

(** ** Key order *)

#[export] Instance key_lt_trans : Transitive key_lt.
Proof. intros a b c. apply String_as_OT.lt_trans. Qed.

Lemma key_lt_irrefl a : ~ key_lt a a.
Proof. intros H. by apply String_as_OT.lt_not_eq in H. Qed.

Lemma key_le_lt a b : key_le a b <-> a = b \/ key_lt a b.
Proof.
  unfold key_le, String.leb, key_lt. rewrite <-String_as_OT.cmp_lt. unfold String_as_OT.cmp.
  destruct (String.compare a b) eqn:E.
  - apply String.compare_eq_iff in E. tauto.
  - tauto.
  - split; [done|]. intros [->|]; [|done]. pose proof (String.compare_antisym b b) as H. by rewrite E in H.
Qed.

#[export] Instance key_le_total : Total key_le.
Proof. intros a b. apply String.leb_total. Qed.

Lemma skip_equal_sorted l : Sorted key_le l ->
  Sorted key_lt (skip_equal l) /\ forall a, HdRel key_lt a l -> HdRel key_lt a (skip_equal l).
Proof.
  induction 1 as [|a l Hs [IH1 IH2] Hd]; [by split|].
  destruct l as [|b l]; [split; [by repeat constructor|]; intros c Hc; inversion Hc; by constructor|].
  inversion Hd as [|? ? Hab]; subst.
  cbn [skip_equal]. destruct (String.eqb_spec a b) as [<-|Hne].
  { split; [done|]. intros c Hc. inversion Hc. apply IH2. by constructor. }
  apply key_le_lt in Hab as [|Hab]; [done|]. split.
  - constructor; [done|]. apply IH2. by constructor.
  - intros c Hc. inversion Hc. by constructor.
Qed.

Lemma ordered_keys_sorted keys : StronglySorted key_lt (ordered_keys keys).
Proof.
  apply Sorted_StronglySorted; [apply _|]. apply skip_equal_sorted, Sorted_merge_sort, _.
Qed.

Lemma skip_equal_elem l k : k ∈ skip_equal l <-> k ∈ l.
Proof.
  induction l as [|a l IH]; [done|]. destruct l as [|b l]; [done|].
  cbn [skip_equal]. destruct (String.eqb_spec a b) as [<-|]; rewrite ?elem_of_cons, IH, ?elem_of_cons; tauto.
Qed.

Lemma ordered_keys_elem keys k : k ∈ ordered_keys keys <-> k ∈ keys.
Proof. unfold ordered_keys. by rewrite skip_equal_elem, merge_sort_Permutation. Qed.

(** ** The invariant *)

Lemma coordinator_start_ok : coordinator_ok newApplicationCoordinator.
Proof. split; [|set_solver|]; (split; cbn; try done; set_solver). Qed.

Lemma registry_ok_same c c' A B :
  entries c' = entries c -> heap c' = heap c -> fresh c' = fresh c -> refs c' = refs c ->
  registry_ok c A B -> registry_ok c' A B.
Proof. intros H1 H2 H3 H4 []. by split; rewrite ?H1, ?H2, ?H3, ?H4. Qed.

Lemma claims_nil c : length (all_claims c) = 0 -> forall t, t ∈ commands c -> claims t = [].
Proof.
  intros H t Ht. apply nil_length_inv in H. destruct (claims t) as [|p l] eqn:E; [done|].
  assert (p ∈ all_claims c) as Hp; [|by rewrite H in Hp; apply elem_of_nil in Hp].
  apply list_elem_of_bind. exists t. split; [|done]. rewrite E. constructor.
Qed.

(** Replace command [i] by one with the same references, permits and order. *)
Lemma replace_command_ok c c' i t t' :
  coordinator_ok c -> commands c !! i = Some t ->
  registry_ok c' (claims t' ++ (delete i (commands c) ≫= claims)) (permits t' ++ (delete i (commands c) ≫= permits)) ->
  ordered t' -> commands c' = <[i := t']> (commands c) ->
  closed c' = closed c -> canceled c' = canceled c -> drainOwner c' = drainOwner c ->
  (drainClosed c' = drainClosed c \/ drainClosed c' = true /\ closed c = true /\ refs c' = 0) ->
  (closed c = true -> refs c' = 0 -> drainClosed c' = true \/ refs c = 0) ->
  drains t' = drains t ->
  (claims t' <> [] -> claims t <> [] \/ (if drains t then drainOwner c else negb (closed c)) = true) ->
  coordinator_ok c'.
Proof.
  intros [Hreg Hord [Hh1 Hh2 Hh3 Hh4 Hh5 Hh6]] Hi Hreg' Hord' Hcmd Hcl Hca Hdo Hdc Hlast Hdr Hgrow.
  assert (registry_ok c' (all_claims c') (all_permits c')) as Hr.
  { unfold all_claims, all_permits. rewrite Hcmd, !(bind_insert _ _ _ _ _ Hi). done. }
  assert (t ∈ commands c) as Ht by (by eapply list_elem_of_lookup_2).
  assert (forall u, u ∈ commands c' -> u = t' \/ u ∈ commands c) as Hin.
  { intros u. rewrite Hcmd. intros Hu. apply list_elem_of_lookup in Hu as [j Hj].
    apply list_lookup_insert_Some in Hj as [(-> & -> & _)|[_ Hj]]; [by left|right; by eapply list_elem_of_lookup_2]. }
  split; [done| |].
  - intros u [->|Hu]%Hin; [done|by apply Hord].
  - split; rewrite ?Hcl, ?Hca, ?Hdo.
    + done.
    + destruct Hdc as [->|(_ & ? & _)]; [done|tauto].
    + intros Hd. destruct Hdc as [Heq|(_ & _ & Hz)].
      * rewrite Heq in Hd. intros u [->|Hu]%Hin Hn; [|by apply Hh3]. rewrite Hdr in Hn.
        destruct (claims t') eqn:E; [done|]. destruct Hgrow as [Hc|Hc]; [done|by rewrite Hh3 in Hc|].
        rewrite Hn, Hh2 in Hc by done. done.
      * intros u Hu _. rewrite (r_refs _ _ _ Hr) in Hz. by eapply claims_nil.
    + intros Ho. apply Hh4 in Ho. destruct Hdc as [->|(-> & _)]; done.
    + intros u [->|Hu]%Hin Hn Hc; [|by apply (Hh5 u)]. rewrite Hdr in Hn.
      destruct (Hgrow Hc) as [Hc'|Hc']; [by apply (Hh5 t)|by rewrite Hn in Hc'].
    + intros Hc Hz. destruct (Hlast Hc Hz) as [|Hz']; [done|]. destruct Hdc as [->|(-> & _)]; auto.
Qed.

Lemma split_registry c i t :
  coordinator_ok c -> commands c !! i = Some t ->
  registry_ok c (claims t ++ (delete i (commands c) ≫= claims)) (permits t ++ (delete i (commands c) ≫= permits)).
Proof.
  intros Hok Hi. pose proof (ok_registry c Hok) as Hr. unfold all_claims, all_permits in Hr.
  by rewrite !(bind_lookup _ _ _ _ Hi) in Hr.
Qed.

(** A change of one command that touches neither its references nor the registry. *)
Lemma set_command_ok c i t t' :
  coordinator_ok c -> commands c !! i = Some t -> claims t' = claims t -> permits t' = permits t ->
  ordered t' -> drains t' = drains t -> coordinator_ok (c <| commands ::= <[i := t']> |>).
Proof.
  intros Hok Hi Hc Hp Ho Hd. eapply (replace_command_ok c); try done.
  - rewrite Hc, Hp. eapply registry_ok_same; [..|by apply split_registry]; done.
  - by left.
  - by right.
  - rewrite Hc. by left.
Qed.

Lemma advance_ok c i abort t t' c' :
  coordinator_ok c -> commands c !! i = Some t -> command_step abort t c = Some (t', c') ->
  coordinator_ok (c' <| commands ::= <[i := t']> |>).
Proof.
  intros Hok Hi Hs. destruct (command_step_frame _ _ _ _ _ Hs) as (Hcmd & Hcl & Hca & Hdo & Hdc & Hlast).
  destruct (command_step_claims _ _ _ _ _ Hs) as [Hdr Hgrow].
  eapply (replace_command_ok c); try done.
  - eapply registry_ok_same; [..|eapply command_step_registry; [by apply split_registry| |done]]; try done.
    apply bind_permits_claims.
  - eapply command_step_order; [|done]. by eapply (ok_order c Hok), list_elem_of_lookup_2.
  - cbn. by rewrite Hcmd.
Qed.

Lemma in_body_spec t : in_body t = true -> phase_of t = Next /\ todo t = [].
Proof. unfold in_body. by destruct (phase_of t), (todo t). Qed.

Lemma try_ok c i t key e c' :
  coordinator_ok c -> commands c !! i = Some t -> in_body t = true -> drains t = false -> closed c = false ->
  add_reference key c = (e, c') ->
  coordinator_ok (c' <| commands ::= <[i := set_phase (TryRef key e) t]> |>).
Proof.
  intros Hok Hi [Hph Htd]%in_body_spec Hdr Hcl Ha.
  assert (commands c' = commands c /\ closed c' = closed c /\ canceled c' = canceled c /\
    drainOwner c' = drainOwner c /\ drainClosed c' = drainClosed c) as (H1 & H2 & H3 & H4 & H5).
  { unfold add_reference in Ha. destruct (entries c !! key); by injection Ha as <- <-. }
  pose proof (split_registry c i t Hok Hi) as Hr. unfold claims, permits in Hr. rewrite Hph in Hr.
  eapply (replace_command_ok c _ i t (set_phase (TryRef key e) t)); try done.
  - eapply registry_ok_same; [..|eapply add_reference_ok; [exact Hr| |exact Ha]]; try done.
    intros p. cbn. rewrite !elem_of_app. intros [?|?%bind_permits_claims]; auto.
  - pose proof (ok_order c Hok t ltac:(by eapply list_elem_of_lookup_2)) as (O1 & _).
    unfold ordered. cbn. rewrite Htd. split_and!; try naive_solver; try set_solver. by repeat constructor.
  - cbn. by rewrite H1.
  - by left.
  - by rewrite Hcl.
  - intros _. right. by rewrite Hdr, Hcl.
Qed.

Lemma ordered_idle t :
  phase_of t = Next \/ (exists err, phase_of t = Unwind err) -> StronglySorted key_lt (todo t) ->
  todo t = [] \/ held t = [] -> ordered t.
Proof.
  intros Hph Hs Hn. assert (phase_claims (phase_of t) = []) as Hc by (destruct Hph as [->|[? ->]]; done).
  unfold ordered, claims. rewrite Hc. cbn. split_and!; [done|..].
  - intros k e k' Hk Hk'. destruct Hn as [Hn|Hn]; rewrite Hn in *; by apply elem_of_nil in Hk || apply elem_of_nil in Hk'.
  - intros k e k' e' [H|H]; destruct Hph as [Hp|[? Hp]]; congruence.
  - intros k e [H|H]; destruct Hph as [Hp|[? Hp]]; congruence.
  - intros k e H; destruct Hph as [Hp|[? Hp]]; congruence.
  - intros err H; destruct Hph as [Hp|[? Hp]]; congruence.
Qed.

Lemma coordinator_step_ok ev c c' : coordinator_ok c -> step ev c = Some c' -> coordinator_ok c'.
Proof.
  unfold step, close, beginDrain, finish. intros Hok Hs. destruct ev as [drain keys|i abort|i key|i|i| | | | |]; cbn in Hs.
  - injection Hs as <-. pose proof Hok as [Hr Ho [? ? Hn ? Hd ?]].
    assert (forall u, u ∈ commands c ++ [mkCommand drain false (ordered_keys keys) [] Next] ->
      u ∈ commands c \/ u = mkCommand drain false (ordered_keys keys) [] Next) as Hin.
    { intros u. rewrite elem_of_app, list_elem_of_singleton. tauto. }
    split; [|intros u [?| ->]%Hin; [by apply Ho|]|].
    + unfold all_claims, all_permits. cbn. rewrite !bind_app. cbn. rewrite !app_nil_r.
      by eapply registry_ok_same; [..|exact Hr].
    + apply ordered_idle; [by left|apply ordered_keys_sorted|by right].
    + split; cbn; try done.
      * intros Hdc u [?| ->]%Hin ?; [by apply Hn|done].
      * intros u [?| ->]%Hin ??; [by apply (Hd u)|done].
  - destruct (commands c !! i) as [t|] eqn:Hi; [|done].
    destruct (command_step abort t c) as [[t' c1]|] eqn:Hc; [|done]. injection Hs as <-. by eapply advance_ok.
  - destruct (commands c !! i) as [t|] eqn:Hi; [|done]. destruct (in_body t && _) eqn:Hb; [|done]. split_bools.
    unfold reference in Hs. destruct (closed c) eqn:Hcl; [by injection Hs as <-|]. cbn in Hs.
    destruct (canceled c); [by injection Hs as <-|].
    destruct (add_reference key c) as [e c1] eqn:Ha. injection Hs as <-. by eapply try_ok.
  - destruct (commands c !! i) as [t|] eqn:Hi; [|done]. destruct (in_body t) eqn:Hb; [|done]. injection Hs as <-.
    apply in_body_spec in Hb as [Hph Htd].
    pose proof (ok_order c Hok t ltac:(by eapply list_elem_of_lookup_2)) as (O1 & _).
    eapply set_command_ok; try done; [unfold claims; by rewrite Hph|unfold permits; by rewrite Hph|].
    apply ordered_idle; [right; by eexists|done|by left].
  - destruct (commands c !! i) as [t|] eqn:Hi; [|done]. injection Hs as <-.
    pose proof (ok_order c Hok t ltac:(by eapply list_elem_of_lookup_2)) as Ho. by eapply set_command_ok.
  - injection Hs as <-. destruct Hok as [Hr Ho []]. split; [by eapply registry_ok_same; [..|exact Hr]|done|by split].
  - injection Hs as <-. destruct (closed c) eqn:Hcl; [done|]. destruct Hok as [Hr Ho [H1 H2 H3 H4 H5 H6]].
    pose proof (r_refs _ _ _ Hr) as Hrefs. cbn. destruct (Nat.eqb_spec (refs c) 0) as [Hz|].
    + assert (drainClosed c = false) as Hdc by (destruct (drainClosed c); [naive_solver|done]). rewrite Hdc. cbn.
      split; [by eapply registry_ok_same; [..|exact Hr]|done|]. split; cbn; try done.
      intros _ t Ht _. eapply claims_nil; [by rewrite <-Hrefs|done].
    + split; [by eapply registry_ok_same; [..|exact Hr]|done|]. by split.
  - destruct (drainClosed c) eqn:Hdc; [|done]. destruct (drainOwner c); [done|]. injection Hs as <-.
    destruct Hok as [Hr Ho [H1 H2 H3 H4 H5 H6]]. rewrite Hdc in *.
    split; [by eapply registry_ok_same; [..|exact Hr]|done|]. by split; cbn; rewrite ?Hdc.
  - injection Hs as <-. destruct Hok as [Hr Ho []]. split; [by eapply registry_ok_same; [..|exact Hr]|done|by split].
  - destruct (drainOwner c) eqn:Hdo; [|done]. injection Hs as <-. destruct (refs c =? 0); [|done].
    destruct Hok as [Hr Ho []]. split; [by eapply registry_ok_same; [..|exact Hr]|done|by split].
Qed.

Lemma coordinator_reachable_ok c : reachable c -> coordinator_ok c.
Proof. induction 1; [apply coordinator_start_ok|by eapply coordinator_step_ok]. Qed.

(** ** Mutual exclusion *)

Lemma nodup_keys (l : list (string * loc)) :
  (forall p, p ∈ l -> uses p.2 l <= 1) ->
  (forall k e e', (k, e) ∈ l -> (k, e') ∈ l -> e = e') -> NoDup (map fst l).
Proof.
  induction l as [|[k e] l IH]; intros Hu Hf; [constructor|]. cbn. constructor.
  - intros ([k' e'] & -> & Hin)%list_elem_of_fmap. cbn in *.
    assert (e = e') as <- by (eapply Hf; [by left|by right]).
    specialize (Hu (k', e) ltac:(by left)). cbn in Hu. rewrite uses_cons, decide_True in Hu by done.
    assert (0 < uses e l) by (apply uses_pos; eauto). lia.
  - apply IH.
    + intros p Hp. specialize (Hu p ltac:(by right)). rewrite uses_cons in Hu. lia.
    + intros k' e1 e2 ??. eapply Hf; by right.
Qed.

Lemma permits_are_claims c p : p ∈ all_permits c -> p ∈ all_claims c.
Proof. apply bind_permits_claims. Qed.

(** C34: in every interleaving the permit of a key is in at most one place: no two
    commands, nor one command twice, hold the same record key, although entries
    are deleted and recreated while commands wait.  The registry holds exactly
    the referenced keys, and its reference count is exact. *)
Theorem coordinator_mutual_exclusion (c : applicationCoordinator) :
  reachable c ->
  NoDup (map fst (all_permits c)) /\
  (forall k, is_Some (entries c !! k) <-> exists e, (k, e) ∈ all_claims c) /\
  refs c = length (all_claims c).
Proof.
  intros [[H1 H2 H3 H4 H5] _ _]%coordinator_reachable_ok. split_and!; [|..|done].
  - apply nodup_keys.
    + intros [k e] Hp. apply permits_are_claims, H1, H2 in Hp as (x & _ & _ & _ & Hb). cbn. lia.
    + intros k e e' He%permits_are_claims%H1 He'%permits_are_claims%H1. congruence.
  - intros k. split.
    + intros [e He]. destruct (H2 k e He) as (_ & _ & _ & [k' Hk']%uses_pos & _).
      assert (k' = k) as -> by (eapply H3; [by apply H1|done]). by exists e.
    + intros [e He%H1]. by eexists.
Qed.

(** ** Progress *)

Lemma can_advance c i t :
  coordinator_ok c -> commands c !! i = Some t -> in_body t = false ->
  (forall err, phase_of t <> Finished err) ->
  (exists abort r, command_step abort t c = Some r) \/
  (exists k e, phase_of t = Waiting k e /\ receive e c = None).
Proof.
  intros Hok Hi Hb Hf. pose proof (split_registry c i t Hok Hi) as Hr. unfold claims, permits in Hr.
  unfold command_step, in_body in *. destruct (phase_of t) as [|k e|k e|k e|k e|k e next|err|err] eqn:Hph; cbn in Hr.
  - left. exists false. destruct (todo t); [done|]. repeat case_match; by eexists.
  - destruct (receive e c) eqn:Hrc; [left; exists false; by eexists|right; by exists k, e].
  - left. exists false. destruct (took_error t c); [|by eexists].
    destruct (send_ok c _ _ k e Hr) as (c1 & -> & _); [constructor|by eexists].
  - left. exists false. destruct (receive e c); by eexists.
  - left. exists false. destruct (canceled c); [|by eexists].
    destruct (send_ok c _ _ k e Hr) as (c1 & -> & _); [constructor|by eexists].
  - left. exists false. by eexists.
  - left. exists false. destruct (held t) as [|[k e] rest]; [by eexists|].
    destruct (send_ok c _ _ k e Hr) as (c1 & -> & _); [constructor|by eexists].
  - by destruct (Hf err).
Qed.

Lemma maximal_key (l : list string) : l <> [] -> exists k, k ∈ l /\ forall k', k' ∈ l -> ~ key_lt k k'.
Proof.
  induction l as [|a l IH]; [done|]. intros _. destruct l as [|b l].
  { exists a. split; [constructor|]. intros k' ->%list_elem_of_singleton. apply key_lt_irrefl. }
  destruct IH as (k & Hk & Hmax); [done|]. destruct (String_as_OT.compare k a) as [Hlt|Heq|Hgt].
  - exists a. split; [by left|]. intros k' [->|Hk']%elem_of_cons Hl; [by apply key_lt_irrefl in Hl|].
    by apply (Hmax k' Hk'), (key_lt_trans _ a).
  - exists k. split; [by right|]. intros k' [->|Hk']%elem_of_cons; [|by apply Hmax].
    red in Heq. subst. apply key_lt_irrefl.
  - exists k. split; [by right|]. intros k' [->|Hk']%elem_of_cons Hl; [|by eapply Hmax].
    by apply (key_lt_irrefl a), (key_lt_trans _ k).
Qed.

Definition waiting_key (t : command) : list string :=
  match phase_of t with Waiting k _ => [k] | _ => [] end.

Definition blocked (c : applicationCoordinator) (t : command) : bool :=
  match phase_of t with
  | Waiting _ e => match receive e c with None => true | Some _ => false end
  | Finished _ => true
  | _ => false
  end.

(** The holder of a permit somebody waits for. *)
Lemma permit_holder c k e t :
  coordinator_ok c -> t ∈ commands c -> phase_of t = Waiting k e -> receive e c = None ->
  exists t', t' ∈ commands c /\ (k, e) ∈ permits t'.
Proof.
  intros Hok Ht Hph Hrc. destruct Hok as [[H1 H2 H3 _ _] _ _].
  assert (entries c !! k = Some e) as Hke.
  { apply H1, list_elem_of_bind. exists t. split; [|done]. unfold claims. rewrite Hph. constructor. }
  destruct (H2 k e Hke) as (x & Hx & _ & _ & Hb). unfold receive in Hrc. rewrite Hx in Hrc.
  destruct (permit x); [done|]. assert (0 < uses e (all_permits c)) as [k' Hk']%uses_pos by lia.
  assert (k' = k) as -> by (eapply H3; [by apply H1, permits_are_claims|done]).
  apply list_elem_of_bind in Hk' as (t' & Hp & Ht'). by exists t'.
Qed.

(** Not every unfinished command can be blocked: the one that waits for the
    greatest key would wait for a command that waits for a greater one. *)
Lemma all_blocked_absurd c i t :
  coordinator_ok c -> commands c !! i = Some t -> (forall err, phase_of t <> Finished err) ->
  (forall u, u ∈ commands c -> blocked c u = true) -> False.
Proof.
  intros Hok Hi Hf Hall.
  assert (forall u, u ∈ commands c -> (exists err, phase_of u = Finished err) \/
    exists k e, phase_of u = Waiting k e /\ receive e c = None) as Hcase.
  { intros u Hu. specialize (Hall u Hu). unfold blocked in Hall.
    destruct (phase_of u) as [|k e| | | | | |]; try done; [|left; by eexists].
    right. exists k, e. by destruct (receive e c). }
  assert (forall u k e, u ∈ commands c -> phase_of u = Waiting k e -> k ∈ commands c ≫= waiting_key) as Hw.
  { intros u k e Hu Hph. apply list_elem_of_bind. exists u. unfold waiting_key. rewrite Hph. split; [constructor|done]. }
  destruct (maximal_key (commands c ≫= waiting_key)) as (k & Hk & Hmax).
  { destruct (Hcase t) as [[err He]|(k & e & Hph & _)]; [by eapply list_elem_of_lookup_2|by destruct (Hf err)|].
    assert (k ∈ commands c ≫= waiting_key) as Hin by (eapply Hw; [by eapply list_elem_of_lookup_2|done]).
    intros Hnil. rewrite Hnil in Hin. by apply elem_of_nil in Hin. }
  apply list_elem_of_bind in Hk as (u & Hku & Hu). unfold waiting_key in Hku.
  destruct (Hcase u Hu) as [[err He]|(k0 & e & Hph & Hrc)]; [rewrite He in Hku; by apply elem_of_nil in Hku|].
  rewrite Hph in Hku. apply list_elem_of_singleton in Hku as ->.
  destruct (permit_holder c k0 e u Hok Hu Hph Hrc) as (v & Hv & Hperm).
  pose proof (ok_order c Hok v Hv) as (_ & _ & O3 & _ & _ & O6). unfold permits in Hperm.
  destruct (Hcase v Hv) as [[err He]|(k1 & e1 & Hph1 & _)].
  - rewrite (O6 err He), He in Hperm. by apply elem_of_nil in Hperm.
  - rewrite Hph1 in Hperm. cbn in Hperm.
    apply (Hmax k1); [by eapply Hw|]. eapply O3; [by left|done].
Qed.

(** C35: the coordinator cannot deadlock.  While some command has not finished,
    either a command is in its body (and may release), or some command can make a
    step: sorted acquisition rules out circular waits, and returning a permit
    never blocks. *)
Theorem coordinator_never_deadlocks (c : applicationCoordinator) (i : nat) (t : command) :
  reachable c -> commands c !! i = Some t -> (forall err, phase_of t <> Finished err) ->
  (exists j u, commands c !! j = Some u /\ in_body u = true) \/
  (exists j abort c', step (Advance j abort) c = Some c').
Proof.
  intros Hok%coordinator_reachable_ok Hi Hf.
  destruct (decide (Exists (fun u => in_body u = true) (commands c))) as [He|Hnb].
  { left. apply Exists_exists in He as (u & Hu & Hb). apply list_elem_of_lookup in Hu as [j Hj]. by exists j, u. }
  right. destruct (decide (Exists (fun u => blocked c u = false) (commands c))) as [He|Hall].
  - apply Exists_exists in He as (u & Hu & Hbl). apply list_elem_of_lookup in Hu as [j Hj].
    destruct (can_advance c j u) as [(abort & [u' c'] & Hs)|(k & e & Hph & Hrc)]; [done|done|..].
    + destruct (in_body u) eqn:E; [|done]. destruct Hnb. apply Exists_exists.
      exists u. split; [by eapply list_elem_of_lookup_2|done].
    + intros err Hph. unfold blocked in Hbl. by rewrite Hph in Hbl.
    + exists j, abort. eexists. cbn. by rewrite Hj, Hs.
    + unfold blocked in Hbl. by rewrite Hph, Hrc in Hbl.
  - exfalso. eapply all_blocked_absurd; [done|done|done|].
    intros u Hu. destruct (blocked c u) eqn:E; [done|]. destruct Hall. apply Exists_exists. by exists u.
Qed.

(** closing hands the registry over cleanly.  Once admission is closed and no
    reference is left the drain may begin, and from then on no normal command
    holds or acquires any reference: only the single drain does. *)
Theorem drain_excludes_commands (c : applicationCoordinator) :
  reachable c ->
  (closed c = true -> refs c = 0 -> drainClosed c = true) /\
  (drainClosed c = true ->
     closed c = true /\
     (forall t, t ∈ commands c -> drains t = false -> claims t = []) /\
     (forall k, reference k c = Err Canceled)) /\
  (forall t, t ∈ commands c -> drains t = true -> claims t <> [] -> drainOwner c = true /\ drainClosed c = true).
Proof.
  intros [_ _ [H1 H2 H3 H4 H5 H6]]%coordinator_reachable_ok. split_and!; [done|..].
  - intros Hd. split_and!; [by apply H2|by apply H3|]. intros k. unfold reference. by rewrite (H2 Hd).
  - intros t Ht Hd Hc. assert (drainOwner c = true) by (by eapply H5). auto.
Qed.

(** ** Witnesses *)

Fixpoint steps (es : list event) (c : applicationCoordinator) : option applicationCoordinator :=
  match es with
  | [] => Some c
  | e :: es => match step e c with Some c => steps es c | None => None end
  end.

Lemma steps_reachable es c : steps es newApplicationCoordinator = Some c -> reachable c.
Proof.
  enough (forall c0, reachable c0 -> steps es c0 = Some c -> reachable c) as H by (apply H; constructor).
  induction es as [|e es IH]; cbn; intros c0 Hr; [by intros [= <-]|].
  destruct (step e c0) eqn:E; [|done]. intros. eapply IH; [|done]. by econstructor.
Qed.

(** Two commands want [a] and [b] in opposite orders; the first holds [a] and
    waits for [b], the second waits for [a]. *)
Definition sample_events : list event :=
  [Acquire false ["b"; "a"]; Acquire false ["a"; "b"; "a"];
   Advance 0 false; Advance 0 false; Advance 1 false; Advance 0 false; Advance 0 false].

Lemma coordinator_mutual_exclusion_witness :
  exists c, steps sample_events newApplicationCoordinator = Some c /\
    map fst (all_permits c) = ["a"] /\ refs c = length (all_claims c) /\ refs c = 3.
Proof.
  destruct (steps sample_events newApplicationCoordinator) as [c|] eqn:Hs; [|by vm_compute in Hs].
  destruct (coordinator_mutual_exclusion c (steps_reachable _ _ Hs)) as (_ & _ & Hr).
  exists c. split; [done|]. rewrite Hr. vm_compute in Hs. injection Hs as <-. by vm_compute.
Defined.

Lemma coordinator_never_deadlocks_witness :
  exists c, steps sample_events newApplicationCoordinator = Some c /\
    ((exists j u, commands c !! j = Some u /\ in_body u = true) \/
     (exists j abort c', step (Advance j abort) c = Some c')).
Proof.
  destruct (steps sample_events newApplicationCoordinator) as [c|] eqn:Hs; [|by vm_compute in Hs].
  destruct (commands c !! 1) as [t|] eqn:Ht; [|by vm_compute in Hs; injection Hs as <-].
  exists c. split; [done|].
  apply (coordinator_never_deadlocks c 1 t (steps_reachable _ _ Hs) Ht).
  vm_compute in Hs. injection Hs as <-. vm_compute in Ht. injection Ht as <-. done.
Defined.

Lemma drain_excludes_commands_witness :
  exists c, steps [Acquire false ["a"]; Advance 0 false; Close; Advance 0 true; Advance 0 false]
              newApplicationCoordinator = Some c /\
    drainClosed c = true /\ reference "a" c = Err Canceled.
Proof.
  destruct (steps _ newApplicationCoordinator) as [c|] eqn:Hs; [|by vm_compute in Hs].
  destruct (drain_excludes_commands c (steps_reachable _ _ Hs)) as (H1 & H2 & _).
  assert (drainClosed c = true) as Hd by (apply H1; vm_compute in Hs; by injection Hs as <-).
  exists c. split; [done|]. split; [done|]. by apply H2.
Defined.
