(* ===== verification/HttpRange.v ===== *)
(** * HTTP byte ranges

    [internal/delivery/http/torrserver/stream_range.go]: the [Range] header of a
    stream request, with what it uses of [strings.TrimSpace] and
    [strconv.ParseInt]. *)

From stdpp Require Import base list strings.
From Stdlib Require Import ZArith Ascii Lia.
From S2P Require Import Prelude Paths.

#[local] Open Scope string_scope.
#[local] Open Scope Z_scope.
#[local] Arguments Ascii.eqb : simpl never.
#[local] Arguments String.append : simpl nomatch.

(** ** Text *)

Fixpoint bytes_string (codes : list nat) : string :=
  match codes with [] => "" | c :: codes => String (ascii_of_nat c) (bytes_string codes) end.

(** The UTF-8 encodings of the white space of [unicode.IsSpace]. *)
Definition space_encodings : list string :=
  (map (fun c => bytes_string [c]) [9; 10; 11; 12; 13; 32]%nat
   ++ map bytes_string
        ([[194; 133]; [194; 160]; [225; 154; 128]; [226; 128; 168]; [226; 128; 169]; [226; 128; 175];
          [226; 129; 159]; [227; 128; 128]]
         ++ map (fun c => [226; 128; c]) [128; 129; 130; 131; 132; 133; 134; 135; 136; 137; 138])%nat)%list.

Fixpoint first_cut (s : string) (prefixes : list string) : option string :=
  match prefixes with
  | [] => None
  | p :: prefixes =>
      match cut_prefix s p with Some rest => Some rest | None => first_cut s prefixes end
  end.

(** Strip the given encodings from the front; the fuel is the length of the text. *)
Fixpoint trim_front (fuel : nat) (encodings : list string) (s : string) : string :=
  match fuel with
  | O => s
  | S fuel =>
      match first_cut s encodings with Some rest => trim_front fuel encodings rest | None => s end
  end.

Fixpoint rev_string (s : string) (acc : string) : string :=
  match s with EmptyString => acc | String c s => rev_string s (String c acc) end.

(** [strings.TrimSpace]. *)
Definition trim_space (s : string) : string :=
  let s := trim_front (String.length s) space_encodings s in
  rev_string (trim_front (String.length s) (map (fun p => rev_string p "") space_encodings) (rev_string s "")) "".

Definition digit (c : ascii) : option Z :=
  let n := Z.of_nat (nat_of_ascii c) in
  if (48 <=? n) && (n <=? 57) then Some (n - 48) else None.

Fixpoint digits (acc : Z) (s : string) : option Z :=
  match s with
  | EmptyString => Some acc
  | String c s => match digit c with Some d => digits (10 * acc + d) s | None => None end
  end.

(** [strconv.ParseInt(s, 10, 64)]: [None] is a syntax or a range error. *)
Definition parse_int (s : string) : option Z :=
  let '(negative, text) :=
    match s with
    | String c rest =>
        if Ascii.eqb c "-" then (true, rest) else if Ascii.eqb c "+" then (false, rest) else (false, s)
    | EmptyString => (false, s)
    end in
  match text with
  | EmptyString => None
  | _ =>
      match digits 0 text with
      | Some n =>
          let n := if negative then - n else n in
          if (- 2 ^ 63 <=? n) && (n <? 2 ^ 63) then Some n else None
      | None => None
      end
  end.

(** The text before and after the first [-]. *)
Fixpoint cut_dash (s : string) : option (string * string) :=
  match s with
  | EmptyString => None
  | String c rest =>
      if Ascii.eqb c "-" then Some ("", rest)
      else match cut_dash rest with Some (a, b) => Some (String c a, b) | None => None end
  end.

Fixpoint drop_bytes (n : nat) (s : string) : string :=
  match n, s with
  | O, _ => s
  | S n, String _ s => drop_bytes n s
  | S _, EmptyString => ""
  end.

(** ** The range *)

Record parsedStreamRange := mkParsed {
  Start : Z;
  r_End : Z;
  HasRange : bool;
  Valid : bool;
  Multi : bool;
}.

Definition maxInt64 (a b : Z) : Z := if a >? b then a else b.

Definition invalid_range : parsedStreamRange := mkParsed 0 0 true false false.

Definition parse_suffix (endText : string) (size : Z) : parsedStreamRange :=
  match parse_int endText with
  | Some suffix =>
      if suffix <=? 0 then invalid_range
      else if size <=? 0 then mkParsed 0 (-1) true true false
      else
        let start := i64 (size - suffix) in
        mkParsed (if start <? 0 then 0 else start) (size - 1) true true false
  | None => invalid_range
  end.

Definition parse_span (startText endText : string) (size : Z) : parsedStreamRange :=
  match parse_int startText with
  | Some start =>
      if start <? 0 then invalid_range
      else if (size >? 0) && (start >=? size) then mkParsed start (size - 1) true false false
      else if (endText =? "")%string then
        mkParsed start (if size <=? 0 then -1 else size - 1) true true false
      else
        match parse_int endText with
        | Some fin =>
            if fin <? start then invalid_range
            else mkParsed start (if (size >? 0) && (fin >=? size) then size - 1 else fin) true true false
        | None => invalid_range
        end
  | None => invalid_range
  end.

Definition parseStreamRange (header : string) (size : Z) : parsedStreamRange :=
  let header := trim_space header in
  if (header =? "")%string then mkParsed 0 (maxInt64 (i64 (size - 1)) (-1)) false true false
  else if negb (has_prefix (lower header) "bytes=") then mkParsed 0 0 false false false
  else
    let spec := trim_space (drop_bytes 6 header) in
    if contains_char "," spec then mkParsed 0 0 true false true
    else match cut_dash spec with
    | None => invalid_range
    | Some (before, after) =>
        let startText := trim_space before in
        let endText := trim_space after in
        if (startText =? "")%string then parse_suffix endText size
        else parse_span startText endText size
    end.

(** ** Properties *)

Lemma parse_int_range s n : parse_int s = Some n -> in_i64 n.
Proof.
  unfold parse_int, in_i64. repeat case_match; try done; intros [= <-]; lia.
Qed.

(** a range accepted for a resource of known size lies inside it: whatever
    the header says, a valid result addresses a non-empty span of existing
    bytes, and a header with several ranges is never accepted. *)
Theorem stream_range_within_resource (header : string) (size : Z) :
  0 < size < 2 ^ 63 -> Valid (parseStreamRange header size) = true ->
  0 <= Start (parseStreamRange header size) <= r_End (parseStreamRange header size) /\
  r_End (parseStreamRange header size) < size /\ Multi (parseStreamRange header size) = false.
Proof.
  intros Hs. unfold parseStreamRange.
  destruct (_ =? "")%string; [cbn; unfold maxInt64; unwrap; destruct (Z.gtb_spec (size - 1) (-1)); lia|].
  destruct (negb _); [done|]. destruct (contains_char _ _); [done|].
  destruct (cut_dash _) as [[before after]|]; [|done]. destruct (_ =? "")%string.
  - unfold parse_suffix. destruct (parse_int _) as [suffix|] eqn:Hp; [|done].
    apply parse_int_range in Hp. unfold in_i64 in Hp.
    destruct (Z.leb_spec suffix 0); [done|]. destruct (Z.leb_spec size 0); [lia|]. cbn. unwrap.
    destruct (Z.ltb_spec (size - suffix) 0); lia.
  - unfold parse_span. destruct (parse_int _) as [start|]; [|done].
    destruct (Z.ltb_spec start 0); [done|].
    destruct (Z.gtb_spec size 0); [|lia]. destruct (Z.geb_spec start size); [done|]. cbn [andb].
    destruct (_ =? "")%string; [cbn; destruct (Z.leb_spec size 0); lia|].
    destruct (parse_int _) as [fin|]; [|done]. destruct (Z.ltb_spec fin start); [done|]. cbn.
    destruct (Z.geb_spec fin size); lia.
Qed.

(** Texts made of decimal digits. *)
Definition numeral (s : string) : Prop := s <> "" /\ all_chars (fun c => bool_decide (is_Some (digit c))) s = true.

Lemma digit_bounds c d : digit c = Some d -> 48 <= Z.of_nat (nat_of_ascii c) <= 57 /\ 0 <= d.
Proof. unfold digit. destruct (_ && _) eqn:E; [|done]. intros [= <-]. lia. Qed.

Lemma digit_not c x : is_Some (digit c) -> digit x = None -> Ascii.eqb c x = false.
Proof. intros Hc Hx. apply Ascii.eqb_neq. intros ->. rewrite Hx in Hc. by destruct Hc. Qed.

(** ** Trimming leaves canonical texts alone *)

(** No white space begins or ends with this byte. *)
Definition solid (c : ascii) : bool :=
  forallb (fun p => match p with String a _ => negb (Ascii.eqb a c) | EmptyString => false end)
    (space_encodings ++ map (fun p => rev_string p "") space_encodings).

Lemma first_cut_solid c s prefixes :
  forallb (fun p => match p with String a _ => negb (Ascii.eqb a c) | EmptyString => false end) prefixes = true ->
  first_cut (String c s) prefixes = None.
Proof.
  induction prefixes as [|p prefixes IH]; [done|]. cbn. destruct p as [|a p]; [done|].
  intros [Ha Hp]%andb_true_iff. apply negb_true_iff in Ha. cbn. rewrite Ha. by apply IH.
Qed.

Lemma rev_string_rev s : forall acc t, rev_string (rev_string s acc) t = rev_string acc (s ++ t).
Proof. induction s as [|c s IH]; intros acc t; cbn; [done|]. by rewrite IH. Qed.

Lemma rev_string_app s : forall t acc, rev_string (s ++ t) acc = rev_string t (rev_string s acc).
Proof. induction s as [|c s IH]; intros t acc; cbn; [done|]. by rewrite IH. Qed.

Lemma append_nil (s : string) : s ++ "" = s.
Proof. induction s as [|c s IH]; cbn; [done|]. by rewrite IH. Qed.

(** A text that begins and ends with solid bytes is already trimmed. *)
Lemma trim_space_solid first last middle s :
  solid first = true -> solid last = true -> s = String first middle ->
  (exists init, s = init ++ String last "") -> trim_space s = s.
Proof.
  unfold solid. rewrite !forallb_app, !andb_true_iff. intros [Hf _] [_ Hl] Hs [init Hi]. unfold trim_space.
  assert (trim_front (String.length s) space_encodings s = s) as ->.
  { destruct (String.length s); cbn [trim_front]; [done|]. by rewrite Hs, first_cut_solid. }
  assert (rev_string s "" = String last (rev_string init "")) as Hr by (by rewrite Hi, rev_string_app).
  assert (trim_front (String.length s) (map (fun p => rev_string p "") space_encodings) (rev_string s "") = rev_string s "") as ->.
  { destruct (String.length s); cbn [trim_front]; [done|]. by rewrite Hr, first_cut_solid. }
  rewrite rev_string_rev. apply append_nil.
Qed.

Lemma digit_solid c : is_Some (digit c) -> solid c = true /\ Ascii.eqb c "," = false /\ Ascii.eqb c "-" = false /\ Ascii.eqb c "+" = false.
Proof.
  destruct c as [[] [] [] [] [] [] [] []]; vm_compute; intros [x Hx]; done.
Qed.

Lemma numeral_cons s : numeral s -> exists c rest, s = String c rest /\ is_Some (digit c).
Proof.
  intros [Hne Hall]. destruct s as [|c s]; [done|]. cbn in Hall. apply andb_true_iff in Hall as [Hc _].
  exists c, s. split; [done|by apply bool_decide_eq_true in Hc].
Qed.

Lemma numeral_snoc s : numeral s -> exists init c, s = init ++ String c "" /\ is_Some (digit c).
Proof.
  intros [Hne Hall]. induction s as [|c s IH]; [done|]. cbn in Hall.
  apply andb_true_iff in Hall as [Hc%bool_decide_eq_true Hs]. destruct s as [|d s].
  - by exists "", c.
  - destruct IH as (init & e & Heq & He); [done|done|]. exists (String c init), e. split; [|done]. cbn. by rewrite <-Heq.
Qed.

Lemma numeral_trim s : numeral s -> trim_space s = s.
Proof.
  intros Hn. destruct (numeral_cons s Hn) as (c & rest & Hc & Hd). destruct (numeral_snoc s Hn) as (init & e & He & Hde).
  apply (trim_space_solid c e rest); [by apply digit_solid|by apply digit_solid|exact Hc|by exists init].
Qed.

Lemma contains_char_append x s t : contains_char x (s ++ t) = contains_char x s || contains_char x t.
Proof. induction s as [|c s IH]; cbn; [done|]. by rewrite IH, orb_assoc. Qed.

Lemma numeral_no_comma s : numeral s -> contains_char "," s = false.
Proof.
  intros [_ Hall]. induction s as [|c s IH]; [done|]. cbn in *. apply andb_true_iff in Hall as [Hc%bool_decide_eq_true Hs].
  rewrite (IH Hs). by destruct (digit_solid c Hc) as (_ & -> & _).
Qed.

Lemma cut_dash_numeral s t : numeral s -> cut_dash (s ++ String "-" t) = Some (s, t).
Proof.
  intros [_ Hall]. induction s as [|c s IH]; [done|]. cbn in *. apply andb_true_iff in Hall as [Hc%bool_decide_eq_true Hs].
  destruct (digit_solid c Hc) as (_ & _ & -> & _). by rewrite (IH Hs).
Qed.

Lemma bytes_header spec :
  (exists init c, spec = init ++ String c "" /\ solid c = true) ->
  trim_space ("bytes=" ++ spec) = "bytes=" ++ spec.
Proof.
  intros (init & c & -> & Hc). eapply (trim_space_solid "b" c); [done|done|done|]. by exists ("bytes=" ++ init).
Qed.

Lemma digits_nonneg s : forall acc n, 0 <= acc -> digits acc s = Some n -> 0 <= n.
Proof.
  induction s as [|c s IH]; cbn; intros acc n Hacc; [by intros [= <-]|].
  destruct (digit c) as [d|] eqn:Hd; [|done]. apply digit_bounds in Hd. apply IH. lia.
Qed.

Lemma numeral_value s n : numeral s -> parse_int s = Some n -> 0 <= n < 2 ^ 63.
Proof.
  intros Hn Hp. destruct (numeral_cons s Hn) as (c & rest & -> & Hc).
  destruct (digit_solid c Hc) as (_ & _ & Hm & Hpl). unfold parse_int in Hp. rewrite Hm, Hpl in Hp.
  destruct (digits 0 (String c rest)) as [m|] eqn:Hd; [|done]. apply digits_nonneg in Hd; [|lia].
  destruct (_ && _) eqn:E; [|done]. injection Hp as <-. lia.
Qed.

(** The header is split into its two numerals. *)
Lemma parse_header before after size :
  contains_char "," before = false -> contains_char "," after = false ->
  cut_dash (before ++ String "-" after) = Some (before, after) ->
  trim_space before = before -> trim_space after = after ->
  (exists c rest, before ++ String "-" after = String c rest /\ solid c = true) ->
  (exists init c, before ++ String "-" after = init ++ String c "" /\ solid c = true) ->
  parseStreamRange ("bytes=" ++ before ++ String "-" after) size =
  if (before =? "")%string then parse_suffix after size else parse_span before after size.
Proof.
  intros Hcb Hca Hcut Htb Hta (f & rest & Hf & Hsf) Hlast. unfold parseStreamRange. rewrite bytes_header by done.
  change (has_prefix (lower ("bytes=" ++ ?t)) "bytes=") with true.
  change (drop_bytes 6 ("bytes=" ++ ?t)) with t.
  change (("bytes=" ++ ?t) =? "")%string with false. cbn [negb].
  destruct Hlast as (init & l & Hl & Hsl).
  rewrite (trim_space_solid f l rest) by (done || by exists init).
  rewrite contains_char_append. cbn [contains_char]. rewrite Hcb, Hca. cbn [orb Ascii.eqb].
  change (Ascii.eqb "-" ",") with false. cbn [orb]. rewrite Hcut, Htb, Hta. done.
Qed.

(** the three canonical forms of a single range mean what HTTP says: [a-b] is
    the bytes from [a] up to [b] or the end, [a-] everything from [a], and [-n]
    the last [n] bytes; a first byte past the end or a reversed pair is refused. *)
Theorem stream_range_canonical_forms (a b : string) (x y size : Z) :
  numeral a -> numeral b -> parse_int a = Some x -> parse_int b = Some y -> 0 < size < 2 ^ 63 ->
  parseStreamRange ("bytes=" ++ a ++ "-" ++ b) size =
    (if x >=? size then mkParsed x (size - 1) true false false
     else if y <? x then invalid_range
     else mkParsed x (Z.min y (size - 1)) true true false) /\
  parseStreamRange ("bytes=" ++ a ++ "-") size =
    mkParsed x (size - 1) true (x <? size) false /\
  parseStreamRange ("bytes=-" ++ b) size =
    (if y =? 0 then invalid_range else mkParsed (Z.max 0 (size - y)) (size - 1) true true false).
Proof.
  intros Ha Hb Hx Hy Hsz.
  pose proof (numeral_value a x Ha Hx). pose proof (numeral_value b y Hb Hy).
  destruct (numeral_snoc b Hb) as (ib & cb & Hib & Hcb). destruct (numeral_cons a Ha) as (fa & ra & Hfa & Hdfa).
  assert (exists c rest, a = String c rest /\ solid c = true) as (c & rest & Hac & Hsc).
  { exists fa, ra. split; [done|by apply digit_solid]. }
  assert (forall t, exists c rest, a ++ t = String c rest /\ solid c = true) as Hhead.
  { intros t. exists c, (rest ++ t). by rewrite Hac. }
  assert (forall t, exists init l, t ++ b = init ++ String l "" /\ solid l = true) as Htail.
  { intros t. exists (t ++ ib), cb. split; [rewrite append_assoc; by rewrite <-Hib|by apply digit_solid]. }
  assert ((a =? "")%string = false /\ (b =? "")%string = false) as [Hea Heb].
  { split; apply String.eqb_neq; [apply Ha|apply Hb]. }
  split; [|split].
  - change (a ++ "-" ++ b) with (a ++ String "-" b).
    rewrite parse_header; auto using numeral_no_comma, cut_dash_numeral, numeral_trim.
    2:{ destruct (Htail (a ++ "-")) as (init & l & Hl & Hs). exists init, l. by rewrite <-Hl, append_assoc. }
    unfold parse_span. rewrite Hea, Hx, Hy, Heb. destruct (Z.ltb_spec x 0); [lia|]. destruct (Z.gtb_spec size 0); [|lia].
    destruct (Z.geb_spec x size); cbn [andb]; [done|]. destruct (Z.ltb_spec y x); [done|].
    f_equal. destruct (Z.geb_spec y size); lia.
  - change (a ++ "-") with (a ++ String "-" "").
    rewrite parse_header; auto using numeral_no_comma, cut_dash_numeral, numeral_trim; [|by exists a, "-"%char].
    unfold parse_span. rewrite Hea, Hx. destruct (Z.ltb_spec x 0); [lia|]. destruct (Z.gtb_spec size 0); [|lia].
    destruct (Z.geb_spec x size), (Z.ltb_spec x size); try lia; [done|]. cbn. destruct (Z.leb_spec size 0); [lia|done].
  - change ("bytes=-" ++ b) with ("bytes=" ++ "" ++ String "-" b).
    rewrite parse_header; auto using numeral_no_comma, numeral_trim; [|by exists "-"%char, b|by destruct (Htail "-") as (init & l & ?); exists init, l].
    unfold parse_suffix. rewrite String.eqb_refl, Hy. destruct (Z.leb_spec y 0), (Z.eqb_spec y 0); try lia; [done|].
    destruct (Z.leb_spec size 0); [lia|]. unwrap. f_equal. destruct (Z.ltb_spec (size - y) 0); lia.
Qed.

(** ** Witnesses *)

Lemma stream_range_within_resource_witness : r_End (parseStreamRange " Bytes=10-99999 " 500) < 500.
Proof. apply (stream_range_within_resource " Bytes=10-99999 " 500); [lia|by vm_compute]. Defined.

Lemma stream_range_canonical_forms_witness :
  parseStreamRange "bytes=100-" 500 = mkParsed 100 499 true true false.
Proof.
  apply (stream_range_canonical_forms "100" "7" 100 7 500); (by vm_compute) || (split; by vm_compute) || lia.
Defined.
