(* ===== verification/Progress.v ===== *)
(** * Verified progress

    [internal/engine/progress.go]: a prefix sum over the runs of piece states,
    from which the engine decides how many bytes of a file are verified and
    whether a file is complete ([reconcileSelectionLocked]). *)

From stdpp Require Import base list.
From Stdlib Require Import ZArith Lia.
From S2P Require Import Prelude.

#[local] Open Scope Z_scope.

(** ** Data *)

(** [torrent.PieceStateRun]: a number of consecutive pieces in the same state. *)
Record PieceStateRun := mkRun {
  run_Length : Z;
  run_Ok : bool;
  run_Complete : bool;
  run_Checking : bool;
  run_Marking : bool;
}.

Record interval := mkInterval {
  iv_start : Z;
  iv_end : Z;
  iv_before : Z;
  iv_complete : bool;
}.

Definition run_verified (run : PieceStateRun) : bool :=
  run_Ok run && run_Complete run && negb (run_Checking run) && negb (run_Marking run).

(** ** The prefix function *)

(** The loop over the runs: the intervals and the total. *)
Fixpoint make_intervals (runs : list PieceStateRun) (pieceLength offset total : Z) : list interval * Z :=
  match runs with
  | [] => ([], total)
  | run :: runs =>
      let fin := i64 (offset + i64 (run_Length run * pieceLength)) in
      let complete := run_verified run in
      let '(rest, last) :=
        make_intervals runs pieceLength fin (if complete then i64 (total + i64 (fin - offset)) else total) in
      (mkInterval offset fin total complete :: rest, last)
  end.

(** [sort.Search(n, f)] with its bounds [i] and [j]; the fuel bounds [j - i]. *)
Fixpoint search (fuel : nat) (f : nat -> bool) (i j : nat) : nat :=
  match fuel with
  | O => i
  | S fuel =>
      if (i <? j)%nat then
        let h := ((i + j) / 2)%nat in
        if f h then search fuel f i h else search fuel f (S h) j
      else i
  end.

Definition verifiedPrefix (runs : list PieceStateRun) (pieceLength pos : Z) : Z :=
  let '(intervals, total) := make_intervals runs pieceLength 0 0 in
  if (pos <=? 0) || (length intervals =? 0)%nat then 0
  else
    let f := fun i => match intervals !! i with Some r => iv_end r >=? pos | None => false end in
    match intervals !! search (length intervals) f 0 (length intervals) with
    | None => total
    | Some r => if iv_complete r then i64 (i64 (iv_before r + pos) - iv_start r) else iv_before r
    end.

(** A file of the selection: [prefix(offset+length) - prefix(offset) == length]. *)
Definition file_complete (runs : list PieceStateRun) (pieceLength offset length : Z) : bool :=
  i64 (verifiedPrefix runs pieceLength (i64 (offset + length)) - verifiedPrefix runs pieceLength offset) =? length.

(** ** Specification *)

(** The run that holds byte [b] is verified. *)
Fixpoint verified_from (runs : list PieceStateRun) (pieceLength offset b : Z) : bool :=
  match runs with
  | [] => false
  | run :: runs =>
      let fin := offset + run_Length run * pieceLength in
      if b <? fin then run_verified run else verified_from runs pieceLength fin b
  end.

Definition verified_byte (runs : list PieceStateRun) (pieceLength b : Z) : bool :=
  verified_from runs pieceLength 0 b.

Fixpoint extent (runs : list PieceStateRun) (pieceLength : Z) : Z :=
  match runs with [] => 0 | run :: runs => run_Length run * pieceLength + extent runs pieceLength end.

(** Verified bytes below [pos], run by run. *)
Fixpoint verified_below (runs : list PieceStateRun) (pieceLength offset pos : Z) : Z :=
  match runs with
  | [] => 0
  | run :: runs =>
      let fin := offset + run_Length run * pieceLength in
      (if run_verified run then Z.max 0 (Z.min pos fin - offset) else 0)
      + verified_below runs pieceLength fin pos
  end.

(** ** Binary search *)

Lemma search_least f n fuel : forall i j,
  (j - i <= fuel)%nat -> (i <= j <= n)%nat ->
  (forall a b, (a <= b < n)%nat -> f a = true -> f b = true) ->
  (forall k, (k < i)%nat -> f k = false) -> ((j < n)%nat -> f j = true) ->
  let r := search fuel f i j in
  (i <= r <= j)%nat /\ (forall k, (k < r)%nat -> f k = false) /\ ((r < n)%nat -> f r = true).
Proof.
  induction fuel as [|fuel IH]; intros i j Hfuel Hij Hmono Hlow Hhigh; cbn [search].
  { assert (i = j) as -> by lia. split; [lia|]. by split. }
  destruct (Nat.ltb_spec i j) as [Hlt|]; [|assert (i = j) as -> by lia; split; [lia|by split]].
  pose proof (Nat.div_mod (i + j) 2). pose proof (Nat.mod_upper_bound (i + j) 2).
  set (h := ((i + j) / 2)%nat) in *. destruct (f h) eqn:Hh.
  - destruct (IH i h) as (H1 & H2 & H3); [lia|lia|done|done|done|]. split; [lia|]. by split.
  - destruct (IH (S h) j) as (H1 & H2 & H3); [lia|lia|done| |done|].
    + intros k Hk. destruct (f k) eqn:Hfk; [|done]. rewrite (Hmono k h) in Hh by (lia || done). done.
    + split; [lia|]. by split.
Qed.

(** ** The prefix counts the verified bytes *)

Record runs_ok (runs : list PieceStateRun) (pieceLength : Z) : Prop := {
  ok_length : 0 < pieceLength;
  ok_runs : Forall (fun run => 0 <= run_Length run) runs;
  ok_extent : extent runs pieceLength < 2 ^ 63;
}.

Lemma extent_nonneg runs pl : 0 < pl -> Forall (fun run => 0 <= run_Length run) runs -> 0 <= extent runs pl.
Proof. intros Hpl. induction 1; cbn; [lia|]. nia. Qed.

Lemma verified_below_outside runs pl : forall offset pos,
  0 < pl -> Forall (fun run => 0 <= run_Length run) runs -> pos <= offset ->
  verified_below runs pl offset pos = 0.
Proof.
  induction runs as [|run runs IH]; intros offset pos Hpl Hr Hpos; [done|].
  apply Forall_cons in Hr as [Hl Hr]. cbn. rewrite IH by (done || nia). destruct (run_verified run); nia.
Qed.

Lemma verified_below_bounds runs pl : forall offset pos,
  0 < pl -> Forall (fun run => 0 <= run_Length run) runs ->
  0 <= verified_below runs pl offset pos <= Z.max 0 (Z.min (pos - offset) (extent runs pl)).
Proof.
  induction runs as [|run runs IH]; intros offset pos Hpl Hr; cbn; [lia|].
  apply Forall_cons in Hr as [Hl Hr]. specialize (IH (offset + run_Length run * pl) pos Hpl Hr).
  pose proof (extent_nonneg runs pl Hpl Hr). destruct (run_verified run); nia.
Qed.

Lemma i64_sub_l a b : i64 (i64 a - b) = i64 (a - b).
Proof.
  unfold i64. replace ((a + 2 ^ 63) mod 2 ^ 64 - 2 ^ 63 - b + 2 ^ 63) with ((a + 2 ^ 63) mod 2 ^ 64 - b) by lia.
  rewrite Zminus_mod_idemp_l. do 2 f_equal. lia.
Qed.

(** Reading the value off the interval [r] found by the search. *)
Definition value_at (intervals : list interval) (total : Z) (r : nat) (pos : Z) : Z :=
  match intervals !! r with
  | None => total
  | Some x => if iv_complete x then i64 (i64 (iv_before x + pos) - iv_start x) else iv_before x
  end.

Lemma value_at_counts runs pl : forall offset total r pos intervals last,
  0 < pl -> Forall (fun run => 0 <= run_Length run) runs ->
  0 <= total <= offset -> offset + extent runs pl < 2 ^ 63 -> offset < pos < 2 ^ 63 ->
  make_intervals runs pl offset total = (intervals, last) -> (r <= length intervals)%nat ->
  (forall k x, (k < r)%nat -> intervals !! k = Some x -> iv_end x < pos) ->
  (forall x, intervals !! r = Some x -> pos <= iv_end x) ->
  value_at intervals last r pos = total + verified_below runs pl offset pos.
Proof.
  induction runs as [|run runs IH]; intros offset total r pos intervals last Hpl Hr Ht Hext Hpos Hmk Hlen Hlow Hat.
  { cbn in Hmk. injection Hmk as <- <-. unfold value_at. rewrite lookup_nil. cbn. lia. }
  apply Forall_cons in Hr as [Hl Hr]. pose proof (extent_nonneg runs pl Hpl Hr). cbn in Hmk, Hext.
  assert (0 <= run_Length run * pl) by nia. set (fin := offset + run_Length run * pl).
  assert (i64 (offset + i64 (run_Length run * pl)) = fin) as Hf.
  { unfold fin. rewrite (i64_id (run_Length run * pl)), i64_id; unfold in_i64; lia. }
  set (total' := if run_verified run then total + (fin - offset) else total).
  assert ((if run_verified run then i64 (total + i64 (fin - offset)) else total) = total') as Htot.
  { unfold total', fin. destruct (run_verified run); [|done]. rewrite (i64_id (_ - offset)), i64_id; unfold in_i64; lia. }
  rewrite Hf, Htot in Hmk.
  destruct (make_intervals runs pl fin total') as [rest last'] eqn:Hrest. injection Hmk as <- <-.
  destruct r as [|r]; cbn [verified_below]; fold fin.
  - specialize (Hat _ eq_refl). cbn in Hat. unfold value_at. cbn.
    rewrite verified_below_outside by (done || lia). destruct (run_verified run); [|lia].
    rewrite i64_sub_l, i64_id; unfold in_i64; lia.
  - specialize (Hlow 0%nat _ ltac:(lia) eq_refl) as Hfin. cbn in Hfin.
    change (value_at (?x :: rest) last' (S r) pos) with (value_at rest last' r pos).
    rewrite (IH fin total' r pos rest last'); try done; try lia.
    + unfold total'. destruct (run_verified run); lia.
    + unfold total', fin. destruct (run_verified run); lia.
    + cbn in Hlen. lia.
    + intros k x Hk Hx. apply (Hlow (S k)); [lia|done].
Qed.

Lemma intervals_sorted runs pl : forall offset total a b x y,
  0 < pl -> Forall (fun run => 0 <= run_Length run) runs -> 0 <= offset -> offset + extent runs pl < 2 ^ 63 ->
  (make_intervals runs pl offset total).1 !! a = Some x -> (make_intervals runs pl offset total).1 !! b = Some y ->
  (a <= b)%nat -> offset <= iv_end x <= iv_end y.
Proof.
  induction runs as [|run runs IH]; intros offset total a b x y Hpl Hr Ho Hext Ha Hb Hab; [done|].
  apply Forall_cons in Hr as [Hl Hr]. pose proof (extent_nonneg runs pl Hpl Hr). cbn in Ha, Hb, Hext.
  assert (0 <= run_Length run * pl) by nia.
  rewrite (i64_id (run_Length run * pl)), (i64_id (offset + _)) in Ha, Hb by (unfold in_i64; lia).
  set (fin := offset + run_Length run * pl) in *. set (t := if run_verified run then _ else _) in *.
  destruct (make_intervals runs pl fin t) as [rest last] eqn:E. cbn in Ha, Hb.
  assert (forall a b x y, rest !! a = Some x -> rest !! b = Some y -> (a <= b)%nat -> fin <= iv_end x <= iv_end y) as Hrest.
  { intros a' b' x' y' Ha' Hb' Hab'. eapply (IH fin t a' b'); rewrite ?E; (done || lia). }
  destruct a as [|a], b as [|b]; cbn in Ha, Hb.
  - simplify_eq. cbn. lia.
  - injection Ha as <-. cbn. specialize (Hrest b b y y Hb Hb ltac:(lia)). lia.
  - lia.
  - specialize (Hrest a b x y Ha Hb ltac:(lia)). lia.
Qed.

Lemma make_intervals_length runs pl : forall offset total, length (make_intervals runs pl offset total).1 = length runs.
Proof.
  induction runs as [|run runs IH]; intros offset total; cbn; [done|].
  specialize (IH (i64 (offset + i64 (run_Length run * pl)))
    (if run_verified run then i64 (total + i64 (i64 (offset + i64 (run_Length run * pl)) - offset)) else total)).
  destruct (make_intervals _ _ _ _). cbn in *. by rewrite IH.
Qed.

Lemma prefix_counts runs pl pos :
  runs_ok runs pl -> pos < 2 ^ 63 -> verifiedPrefix runs pl pos = verified_below runs pl 0 pos.
Proof.
  intros [Hpl Hr Hext] Hmax. unfold verifiedPrefix.
  pose proof (intervals_sorted runs pl 0 0) as Hsort.
  destruct (make_intervals runs pl 0 0) as [intervals total] eqn:E. cbn [fst] in Hsort.
  destruct (Z.leb_spec pos 0); cbn [orb]; [by rewrite verified_below_outside by done|].
  destruct (Nat.eqb_spec (length intervals) 0) as [Hz|Hz].
  { pose proof (make_intervals_length runs pl 0 0) as Hl. rewrite E in Hl. cbn in Hl. rewrite Hz in Hl.
    by destruct runs. }
  set (f := fun i => match intervals !! i with Some r => iv_end r >=? pos | None => false end).
  destruct (search_least f (length intervals) (length intervals) 0 (length intervals)) as (H1 & H2 & H3); [lia|lia| |lia|lia|].
  { intros a b Hab. unfold f. destruct (intervals !! a) as [x|] eqn:Ha; [|done].
    destruct (lookup_lt_is_Some_2 intervals b) as [y Hb]; [lia|]. rewrite Hb.
    specialize (Hsort a b x y Hpl Hr ltac:(lia) ltac:(lia) Ha Hb ltac:(lia)). lia. }
  set (r := search _ f 0 _) in *.
  change (value_at intervals total r pos = verified_below runs pl 0 pos).
  rewrite (value_at_counts runs pl 0 0 r pos intervals total); try done; try lia.
  - intros k x Hk Hx. specialize (H2 k Hk). unfold f in H2. rewrite Hx in H2. lia.
  - intros x Hx. assert (r < length intervals)%nat by (by eapply lookup_lt_Some).
    specialize (H3 ltac:(done)). unfold f in H3. rewrite Hx in H3. lia.
Qed.

(** One more byte counts exactly when it is verified. *)
Lemma verified_below_succ runs pl : forall offset pos,
  0 < pl -> Forall (fun run => 0 <= run_Length run) runs -> offset <= pos ->
  verified_below runs pl offset (pos + 1) - verified_below runs pl offset pos =
  if verified_from runs pl offset pos then 1 else 0.
Proof.
  induction runs as [|run runs IH]; intros offset pos Hpl Hr Hpos; [done|].
  apply Forall_cons in Hr as [Hl Hr]. assert (0 <= run_Length run * pl) by nia. cbn.
  set (fin := offset + run_Length run * pl). destruct (Z.ltb_spec pos fin).
  - rewrite !(verified_below_outside runs) by (done || lia). destruct (run_verified run); lia.
  - specialize (IH fin pos Hpl Hr ltac:(lia)). destruct (run_verified run); lia.
Qed.

Lemma verified_span runs pl offset len :
  0 < pl -> Forall (fun run => 0 <= run_Length run) runs -> 0 <= offset ->
  let d := verified_below runs pl 0 (offset + Z.of_nat len) - verified_below runs pl 0 offset in
  0 <= d <= Z.of_nat len /\
  (d = Z.of_nat len <-> forall b, offset <= b < offset + Z.of_nat len -> verified_byte runs pl b = true).
Proof.
  intros Hpl Hr Ho. induction len as [|len IH]; cbn zeta.
  { replace (offset + Z.of_nat 0) with offset by lia. split; [lia|]. split; [lia|lia]. }
  cbn zeta in IH. destruct IH as [IH1 IH2].
  pose proof (verified_below_succ runs pl 0 (offset + Z.of_nat len) Hpl Hr ltac:(lia)) as Hs.
  replace (offset + Z.of_nat len + 1) with (offset + Z.of_nat (S len)) in Hs by lia.
  fold (verified_byte runs pl (offset + Z.of_nat len)) in Hs.
  destruct (verified_byte runs pl (offset + Z.of_nat len)) eqn:Hb; (split; [lia|split]).
  - intros Hd b Hbr. destruct (decide (b = offset + Z.of_nat len)) as [->|]; [exact Hb|].
    apply IH2; lia.
  - intros Hall. enough (verified_below runs pl 0 (offset + Z.of_nat len) - verified_below runs pl 0 offset = Z.of_nat len) by lia.
    apply IH2. intros b Hbr. apply Hall. lia.
  - lia.
  - intros Hall. rewrite Hall in Hb by lia. done.
Qed.

(** a file is reported complete exactly when every byte of it lies in a run
    of verified pieces, not being checked or marked; boundary bytes shared with a
    neighbour file are not counted twice. *)
Theorem file_complete_iff_verified (runs : list PieceStateRun) (pieceLength offset length : Z) :
  runs_ok runs pieceLength -> 0 <= offset -> 0 <= length -> offset + length < 2 ^ 63 ->
  file_complete runs pieceLength offset length = true <->
  forall b, offset <= b < offset + length -> verified_byte runs pieceLength b = true.
Proof.
  intros Hok Ho Hl Hmax. unfold file_complete. rewrite (i64_id (offset + length)) by (unfold in_i64; lia).
  rewrite !prefix_counts by (done || lia). destruct Hok as [Hpl Hr Hext].
  destruct (verified_span runs pieceLength offset (Z.to_nat length) Hpl Hr Ho) as [Hb Hiff].
  rewrite Z2Nat.id in Hb, Hiff by lia. rewrite i64_id by (unfold in_i64; lia). by rewrite Z.eqb_eq.
Qed.

(** ** Witness *)

Lemma file_complete_iff_verified_witness :
  file_complete [mkRun 2 true true false false; mkRun 1 true false false false; mkRun 1 true true false false] 16 20 12
  = true.
Proof.
  apply file_complete_iff_verified; [|lia..|].
  - split; [lia|repeat (constructor; [cbn; lia|]); constructor|by vm_compute].
  - intros b Hb. unfold verified_byte, verified_from.
    rewrite (proj2 (Z.ltb_lt b _)) by (cbn; lia). done.
Defined.
