(* ===== verification/Segments.v ===== *)
(** * Segments

    [pkg/anacrolix-torrent/segments]: the index of the files of a torrent by
    byte offset, and the search for the parts of the files an extent of the
    torrent consists of. *)

From stdpp Require Import base list.
From Stdlib Require Import ZArith Lia.
From S2P Require Import Prelude Progress.

#[local] Open Scope Z_scope.

(** ** Data *)

Record Extent := mkExtent { e_Start : Z; e_Length : Z }.

#[export] Instance Extent_eq_dec : EqDecision Extent.
Proof. solve_decision. Defined.

Definition End (e : Extent) : Z := i64 (e_Start e + e_Length e).

(** ** The index *)

(** [NewIndex]: the segments of consecutive lengths. *)
Fixpoint new_index (lengths : list Z) (start : Z) : list Extent :=
  match lengths with
  | [] => []
  | l :: lengths => mkExtent start l :: new_index lengths (i64 (start + l))
  end.

Definition NewIndex (lengths : list Z) : list Extent := new_index lengths 0.

(** [iterSegments]: the segments with their starts relative to the end of the
    segment before, the first one to its own start. *)
Fixpoint iterSegments (segments : list Extent) (lastEnd : option Z) : list Extent :=
  match segments with
  | [] => []
  | cur :: segments =>
      mkExtent (i64 (e_Start cur - default (e_Start cur) lastEnd)) (e_Length cur)
      :: iterSegments segments (Some (End cur))
  end.

Fixpoint scanConsecutive (haystack : list Extent) (needle : Extent) (startedNeedle : bool) : list Extent :=
  if e_Length needle =? 0 then []
  else match haystack with
       | [] => []
       | l :: haystack =>
           let start := Z.max (i64 (e_Start needle - e_Start l)) 0 in
           let length := Z.max (i64 (Z.min (e_Length l) (i64 (End needle - e_Start l)) - start)) 0 in
           let needle' := mkExtent (Z.max 0 (i64 (e_Start needle - End l)))
                                   (i64 (e_Length needle - i64 (length + e_Start l))) in
           if (length >? 0) || startedNeedle && negb (e_Length needle' =? 0)
           then mkExtent start length :: scanConsecutive haystack needle' true
           else scanConsecutive haystack needle' startedNeedle
       end.

(** [slices.BinarySearchFunc] for the first segment that ends after [start]. *)
Definition first_after (segments : list Extent) (start : Z) : nat :=
  let f := fun i => match segments !! i with Some s => End s >=? i64 (start + 1) | None => false end in
  search (length segments) f 0 (length segments).

(** [Index.LocateIter]: the yielded pairs. *)
Definition LocateIter (segments : list Extent) (e : Extent) : list (nat * Extent) :=
  let first := first_after segments (e_Start e) in
  match segments !! first with
  | None => []
  | Some s =>
      let start := i64 (e_Start e - e_Start s) in
      let e := if start <? 0 then mkExtent 0 (i64 (e_Length e + start)) else mkExtent start (e_Length e) in
      imap (fun k found => ((first + k)%nat, found))
           (scanConsecutive (iterSegments (drop first segments) None) e false)
  end.

(** ** The reference *)

Definition overlaps (e s : Extent) : bool :=
  (e_Start e <? e_Start s + e_Length s) && (e_Start s <? e_Start e + e_Length e).

(** The part of the segment inside the extent, relative to the segment. *)
Definition clip (e s : Extent) : Extent :=
  let start := Z.max (e_Start e) (e_Start s) in
  mkExtent (start - e_Start s) (Z.min (e_Start e + e_Length e) (e_Start s + e_Length s) - start).

Fixpoint overlapping (i : nat) (segments : list Extent) (e : Extent) : list (nat * Extent) :=
  match segments with
  | [] => []
  | s :: segments =>
      if overlaps e s then (i, clip e s) :: overlapping (S i) segments e else overlapping (S i) segments e
  end.

(** Segments in order, each inside the range of offsets. *)
Fixpoint ordered (last : Z) (segments : list Extent) : Prop :=
  match segments with
  | [] => True
  | s :: segments => last <= e_Start s /\ 0 <= e_Length s /\ e_Start s + e_Length s <= max_i64 /\
      ordered (e_Start s + e_Length s) segments
  end.

(** The extent neither begins nor ends inside a gap between two segments, or
    before the first of them. *)
Fixpoint gapless (last : Z) (segments : list Extent) (e : Extent) : Prop :=
  match segments with
  | [] => True
  | s :: segments =>
      (e_Start e < e_Start s -> e_Start e < last) /\
      (last < e_Start e + e_Length e -> e_Start s <= e_Start e + e_Length e) /\
      gapless (e_Start s + e_Length s) segments e
  end.

(** Remove the wraps of the goal, innermost first. *)
Ltac unwraps := repeat match goal with |- context [i64 ?z] => rewrite (i64_id z) by (unfold in_i64; lia) end.

(** ** The search *)

Lemma ordered_weaken last last' segments : last' <= last -> ordered last segments -> ordered last' segments.
Proof. destruct segments; cbn; intros; [done|]. naive_solver lia. Qed.

Lemma ordered_after last segments k : 0 <= last -> ordered last segments ->
  forall s, segments !! k = Some s -> last <= e_Start s /\ 0 <= e_Length s /\ e_Start s + e_Length s <= max_i64.
Proof.
  revert last k. induction segments as [|s0 segments IH]; intros last k Hl Ho s Hs; [done|].
  destruct Ho as (? & ? & ? & Ho). destruct k as [|k]; cbn in Hs; [by simplify_eq|].
  pose proof (IH (e_Start s0 + e_Length s0) k ltac:(lia) Ho s Hs). lia.
Qed.

(** The ends do not decrease. *)
Lemma ordered_ends segments : forall last, 0 <= last -> ordered last segments -> forall a b sa sb,
  (a <= b)%nat -> segments !! a = Some sa -> segments !! b = Some sb ->
  e_Start sa + e_Length sa <= e_Start sb + e_Length sb.
Proof.
  induction segments as [|s0 segments IH]; intros last Hl Ho a b sa sb Hab Ha Hb; [done|].
  destruct Ho as (? & ? & ? & Ho). destruct a as [|a], b as [|b]; cbn in *; simplify_eq; [lia| |lia|].
  - pose proof (ordered_after (e_Start sa + e_Length sa) _ _ ltac:(lia) Ho _ Hb). lia.
  - eapply (IH (e_Start s0 + e_Length s0) ltac:(lia) Ho a b); [lia|done..].
Qed.

Lemma End_id s : 0 <= e_Start s -> 0 <= e_Length s -> e_Start s + e_Length s <= max_i64 ->
  End s = e_Start s + e_Length s.
Proof. unfold End, max_i64. intros. apply i64_id. unfold in_i64. lia. Qed.

Lemma first_after_spec segments start : ordered 0 segments -> 0 <= start < max_i64 ->
  let r := first_after segments start in
  (r <= length segments)%nat /\
  (forall k s, (k < r)%nat -> segments !! k = Some s -> e_Start s + e_Length s <= start) /\
  (forall s, segments !! r = Some s -> start < e_Start s + e_Length s).
Proof.
  intros Ho Hstart r. unfold first_after in r.
  set (f := fun i => match segments !! i with Some s => End s >=? i64 (start + 1) | None => false end) in r.
  assert (forall k s, segments !! k = Some s -> f k = (start <? e_Start s + e_Length s)) as Hf.
  { intros k s Hs. unfold f. rewrite Hs. pose proof (ordered_after 0 _ _ ltac:(lia) Ho _ Hs).
    rewrite End_id by lia. rewrite i64_id by (unfold in_i64, max_i64 in *; lia).
    destruct (Z.geb_spec (e_Start s + e_Length s) (start + 1)), (Z.ltb_spec start (e_Start s + e_Length s)); lia || done. }
  destruct (search_least f (length segments) (length segments) 0 (length segments)) as (Hr & Hlow & Hhigh); [lia|lia| |lia|lia|].
  { intros a b [Hab Hb] Ha.
    destruct (lookup_lt_is_Some_2 segments a ltac:(lia)) as [sa Hsa].
    destruct (lookup_lt_is_Some_2 segments b Hb) as [sb Hsb].
    rewrite (Hf _ _ Hsa) in Ha. rewrite (Hf _ _ Hsb). pose proof (ordered_ends _ 0 ltac:(lia) Ho a b _ _ Hab Hsa Hsb). lia. }
  split; [lia|]. split.
  - intros k s Hk Hs. apply Hlow in Hk. rewrite (Hf _ _ Hs) in Hk. lia.
  - intros s Hs. pose proof (Hhigh (lookup_lt_Some _ _ _ Hs)) as Hfr. fold r in Hfr. rewrite (Hf _ _ Hs) in Hfr. lia.
Qed.

(** ** The scan *)

Lemma overlapping_before i segments e n :
  (forall k s, (k < n)%nat -> segments !! k = Some s -> e_Start s + e_Length s <= e_Start e) ->
  overlapping i segments e = overlapping (i + n) (drop n segments) e.
Proof.
  revert i segments. induction n as [|n IH]; intros i segments H; [by rewrite Nat.add_0_r, drop_0|].
  destruct segments as [|s segments]; [done|]. cbn.
  pose proof (H 0%nat s ltac:(lia) eq_refl). unfold overlaps. destruct (Z.ltb_spec (e_Start e) (e_Start s + e_Length s)); [lia|].
  cbn. rewrite (IH (S i)); [f_equal; lia|]. intros k s' Hk Hs'. apply (H (S k)); [lia|done].
Qed.

Lemma overlapping_after segments e : forall i last, e_Start e + e_Length e <= last -> ordered last segments ->
  overlapping i segments e = [].
Proof.
  induction segments as [|s segments IH]; intros i last Hl Ho; [done|]. destruct Ho as (? & ? & ? & Ho). cbn.
  unfold overlaps. destruct (Z.ltb_spec (e_Start s) (e_Start e + e_Length e)); [lia|]. rewrite andb_false_r.
  by apply (IH _ (e_Start s + e_Length s)); [lia|].
Qed.

Lemma scan_started segments e : forall i last, 0 <= e_Start e < last ->
  last <= e_Start e + e_Length e <= max_i64 -> ordered last segments -> gapless last segments e ->
  imap (fun k found => ((i + k)%nat, found))
    (scanConsecutive (iterSegments segments (Some last)) (mkExtent 0 (e_Start e + e_Length e - last)) true)
  = overlapping i segments e.
Proof.
  induction segments as [|s segments IH]; intros i last Hl Hend Ho Hg;
    (destruct (Z.eq_dec last (e_Start e + e_Length e)) as [->|Hne];
      [rewrite (overlapping_after _ e i (e_Start e + e_Length e)) by (lia || done); rewrite Z.sub_diag; by destruct (iterSegments _ _)|]).
  { cbn. by destruct (_ =? 0). }
  destruct Ho as (? & ? & ? & Ho), Hg as (_ & Hs & Hg). specialize (Hs ltac:(lia)).
  unfold max_i64 in *. cbn [iterSegments scanConsecutive default e_Start e_Length].
  destruct (Z.eqb_spec (e_Start e + e_Length e - last) 0); [lia|].
  unfold End, id. cbn [e_Start e_Length]. unwraps. set (gap := e_Start s - last).
  replace (Z.max (0 - gap) 0) with 0 by lia. replace (Z.max 0 (0 - (gap + e_Length s))) with 0 by lia.
  set (found := Z.max (Z.min (e_Length s) (0 + (e_Start e + e_Length e - last) - gap) - 0) 0).
  assert (found = Z.min (e_Length s) (e_Start e + e_Length e - e_Start s)) as Ef by lia.
  destruct (Z.eq_dec (e_Start s) (e_Start e + e_Length e)) as [Hlast|Hbefore].
  { replace (e_Start e + e_Length e - last - (found + gap)) with 0 by lia.
    destruct (Z.gtb_spec found 0); [lia|]. change (0 =? 0) with true. cbn [orb andb negb].
    rewrite (overlapping_after _ e i (e_Start s)); [by destruct (iterSegments _ _)|lia|cbn; split_and!; done || lia]. }
  assert ((found >? 0) || true && negb (e_Start e + e_Length e - last - (found + gap) =? 0) = true) as ->.
  { destruct (Z.gtb_spec found 0), (Z.eqb_spec (e_Start e + e_Length e - last - (found + gap)) 0); cbn; lia || done. }
  cbn [imap overlapping]. unfold overlaps.
  destruct (Z.ltb_spec (e_Start e) (e_Start s + e_Length s)), (Z.ltb_spec (e_Start s) (e_Start e + e_Length e)); try lia. cbn [andb].
  f_equal; [rewrite Nat.add_0_r; unfold clip; do 2 f_equal; lia|].
  destruct (Z.le_gt_cases (e_Start e + e_Length e) (e_Start s + e_Length s)) as [Hc|Hc].
  - replace (e_Start e + e_Length e - last - (found + gap)) with 0 by lia.
    rewrite (overlapping_after _ e (S i) (e_Start s + e_Length s)) by (lia || done). by destruct (iterSegments _ _).
  - replace (e_Start e + e_Length e - last - (found + gap)) with (e_Start e + e_Length e - (e_Start s + e_Length s)) by lia.
    rewrite <- (IH (S i) (e_Start s + e_Length s)); [|lia|lia|done|done].
    apply imap_ext. intros k found' _. cbn. f_equal. lia.
Qed.

(** The segments from the one an extent begins in. *)
Lemma gapless_from segments e : 0 < e_Length e -> forall last r s, last <= e_Start e ->
  ordered last segments -> gapless last segments e -> segments !! r = Some s ->
  (forall k s', (k < r)%nat -> segments !! k = Some s' -> e_Start s' + e_Length s' <= e_Start e) ->
  e_Start e < e_Start s + e_Length s ->
  e_Start s <= e_Start e /\ ordered (e_Start s + e_Length s) (drop (S r) segments) /\
  gapless (e_Start s + e_Length s) (drop (S r) segments) e.
Proof.
  intros Hlen. induction segments as [|s0 segments IH]; intros last r s Hlast Ho Hg Hs Hbefore Hend; [done|].
  destruct Ho as (? & ? & ? & Ho), Hg as (Hgap & _ & Hg). destruct r as [|r]; cbn in Hs.
  - simplify_eq. cbn. rewrite drop_0. split; [|done]. destruct (Z.le_gt_cases (e_Start s) (e_Start e)) as [|Hgt]; [done|].
    specialize (Hgap ltac:(lia)). lia.
  - pose proof (Hbefore 0%nat s0 ltac:(lia) eq_refl). cbn [drop].
    apply (IH (e_Start s0 + e_Length s0)); try done. intros k s' Hk Hs'. apply (Hbefore (S k)); [lia|done].
Qed.

Lemma locate_overlap (segments : list Extent) (e : Extent) :
  ordered 0 segments -> gapless 0 segments e -> 0 <= e_Start e -> 0 < e_Length e ->
  e_Start e + e_Length e <= max_i64 ->
  LocateIter segments e = overlapping 0 segments e.
Proof.
  intros Ho Hg Hs Hl He. destruct (first_after_spec segments (e_Start e) Ho ltac:(lia)) as (Hr & Hlow & Hhigh).
  unfold LocateIter. set (r := first_after segments (e_Start e)) in *.
  rewrite (overlapping_before 0 segments e r Hlow). cbn [Nat.add].
  destruct (segments !! r) as [s|] eqn:Es; [|by rewrite drop_ge by (by apply lookup_ge_None)].
  pose proof (Hhigh s eq_refl) as Hend. pose proof (ordered_after 0 _ _ ltac:(lia) Ho s Es) as (? & ? & ?).
  destruct (gapless_from segments e Hl 0 r s Hs Ho Hg Es Hlow Hend) as (Hstart & Ho' & Hg').
  rewrite (drop_S _ _ _ Es). unfold max_i64 in *.
  rewrite (i64_id (e_Start e - e_Start s)) by (unfold in_i64; lia).
  destruct (Z.ltb_spec (e_Start e - e_Start s) 0); [lia|].
  cbn [iterSegments scanConsecutive default e_Start e_Length overlapping]. rewrite Z.sub_diag.
  destruct (Z.eqb_spec (e_Length e) 0); [lia|]. unfold End. cbn [e_Start e_Length]. unwraps.
  unfold overlaps. destruct (Z.ltb_spec (e_Start e) (e_Start s + e_Length s)), (Z.ltb_spec (e_Start s) (e_Start e + e_Length e)); try lia.
  cbn [andb]. set (found := Z.max (Z.min (e_Length s) _ - _) 0).
  assert (found = Z.min (e_Start e + e_Length e) (e_Start s + e_Length s) - e_Start e) as Ef by lia.
  destruct (Z.gtb_spec found 0); [|lia]. cbn [orb imap].
  f_equal; [rewrite Nat.add_0_r; unfold clip; do 2 f_equal; lia|].
  replace (Z.max 0 (e_Start e - e_Start s - (0 + e_Length s))) with 0 by lia.
  destruct (Z.le_gt_cases (e_Start e + e_Length e) (e_Start s + e_Length s)) as [Hc|Hc].
  - replace (e_Length e - (found + 0)) with 0 by lia.
    rewrite (overlapping_after _ e (S r) (e_Start s + e_Length s)) by (lia || done). by destruct (iterSegments _ _).
  - replace (e_Length e - (found + 0)) with (e_Start e + e_Length e - (e_Start s + e_Length s)) by lia.
    rewrite <- (scan_started _ e (S r) (e_Start s + e_Length s)); [|lia|unfold max_i64; lia|done|done].
    apply imap_ext. intros k found' _. cbn. f_equal. lia.
Qed.

(** the search by offset.  For the files of a torrent in order, and an extent
    that neither begins nor ends inside a gap between them, [LocateIter] yields exactly the files that
    overlap the extent, in order, each with the part of it that lies inside the
    extent (an empty file strictly inside with an empty part). *)
Theorem locate_is_overlap (segments : list Extent) (e : Extent) :
  ordered 0 segments -> gapless 0 segments e -> 0 <= e_Start e -> 0 < e_Length e ->
  e_Start e + e_Length e <= max_i64 ->
  LocateIter segments e = overlapping 0 segments e.
Proof. apply locate_overlap. Qed.

(** An aligned torrent of two files with an empty one between them. *)
Definition aligned_index : list Extent := [mkExtent 0 5; mkExtent 16 0; mkExtent 16 4].

Lemma locate_is_overlap_witness :
  LocateIter aligned_index (mkExtent 17 3) = [(2%nat, mkExtent 1 3)] /\
  LocateIter aligned_index (mkExtent 17 3) = overlapping 0 aligned_index (mkExtent 17 3).
Proof.
  split; [reflexivity|]. apply locate_is_overlap; cbn; unfold max_i64; lia.
Defined.

(** An extent that begins in a gap before an empty file: the part of the next
    file is reported under the index of the empty one. *)
Lemma locate_in_gap :
  LocateIter aligned_index (mkExtent 7 12) = [(1%nat, mkExtent 0 3)] /\
  overlapping 0 aligned_index (mkExtent 7 12) = [(1%nat, mkExtent 0 0); (2%nat, mkExtent 0 3)].
Proof. split; reflexivity. Qed.

(** ** What is located *)

Lemma overlapping_elem segments e : forall i k found, (k, found) ∈ overlapping i segments e ->
  exists s, segments !! (k - i)%nat = Some s /\ (i <= k)%nat /\ overlaps e s = true /\ found = clip e s.
Proof.
  induction segments as [|s segments IH]; intros i k found H; [by apply not_elem_of_nil in H|]. cbn in H.
  assert ((k, found) ∈ overlapping (S i) segments e -> exists s', (s :: segments) !! (k - i)%nat = Some s' /\ (i <= k)%nat /\
    overlaps e s' = true /\ found = clip e s') as Hrest.
  { intros (s' & Hs' & ? & ?)%IH. exists s'. replace (k - i)%nat with (S (k - S i)) by lia. split; [done|]. split; [lia|done]. }
  destruct (overlaps e s) eqn:E; [|by apply Hrest]. apply elem_of_cons in H as [?|]; [|by apply Hrest].
  simplify_eq. exists s. rewrite Nat.sub_diag. done.
Qed.

Lemma overlapping_intro segments e : forall i k s, segments !! k = Some s -> overlaps e s = true ->
  ((i + k)%nat, clip e s) ∈ overlapping i segments e.
Proof.
  induction segments as [|s0 segments IH]; intros i k s Hk Ho; [done|]. cbn. destruct k as [|k]; cbn in Hk.
  - simplify_eq. rewrite Ho, Nat.add_0_r. apply elem_of_cons. by left.
  - rewrite <- plus_n_Sm. destruct (overlaps e s0); [apply elem_of_cons; right|]; by apply (IH (S i) k).
Qed.
