(* ===== verification/ManagedRanges.v ===== *)
(** * Payload range leases

    [pkg/anacrolix-torrent/storage/managed-ranges.go]: the queue of byte ranges
    that excludes conflicting payload reads and writes of one torrent.  The
    linked list is the list of its entries from [head] to [tail]; the critical
    sections of [lock] and [unlock] under [mu] are the steps.  A caller that
    finds a conflict waits on the condition variable and tests again only after
    a broadcast. *)

From stdpp Require Import base list relations.
From Stdlib Require Import ZArith Lia.
From S2P Require Import Prelude.

#[local] Open Scope Z_scope.

(** ** State *)

(** Where the caller of [lock] is: it has returned, it waits on the condition
    variable, or it has been woken and will test again. *)
Inductive phase := Held | Waiting | Woken.

#[export] Instance phase_eq_dec : EqDecision phase.
Proof. solve_decision. Defined.

(** An entry; [pr_id] is the identity of its pointer. *)
Record payload_range := mkRange {
  pr_id : Z;
  pr_begin : Z;
  pr_end : Z;
  pr_write : bool;
  pr_phase : phase;
}.

Abbreviation ranges := (list payload_range).

(** ** The steps *)

Definition conflicts (prev r : payload_range) : bool :=
  (pr_begin prev <? pr_end r) && (pr_begin r <? pr_end prev) && (pr_write prev || pr_write r).

(** The loop over the entries before [r]. *)
Fixpoint conflict_before (queue : ranges) (r : payload_range) : bool :=
  match queue with
  | [] => false
  | prev :: queue => if pr_id prev =? pr_id r then false else conflicts prev r || conflict_before queue r
  end.

Definition set_phase (id : Z) (p : phase) (queue : ranges) : ranges :=
  map (fun r => if pr_id r =? id then mkRange (pr_id r) (pr_begin r) (pr_end r) (pr_write r) p else r) queue.

(** [lock]: the entry is appended, then tested. *)
Definition lock (queue : ranges) (id begin fin : Z) (write : bool) : ranges :=
  let r := mkRange id begin fin write Waiting in
  let queue := (queue ++ [r])%list in
  set_phase id (if conflict_before queue r then Waiting else Held) queue.

(** The test of a woken caller. *)
Definition retest (queue : ranges) (id : Z) : ranges :=
  match find (fun r => pr_id r =? id) queue with
  | Some r => set_phase id (if conflict_before queue r then Waiting else Held) queue
  | None => queue
  end.

Definition wake (r : payload_range) : payload_range :=
  match pr_phase r with
  | Waiting => mkRange (pr_id r) (pr_begin r) (pr_end r) (pr_write r) Woken
  | _ => r
  end.

(** [unlock]: the entry leaves the list and every waiting caller is woken. *)
Definition unlock (queue : ranges) (id : Z) : ranges :=
  map wake (filter (fun r => pr_id r <> id) queue).

Inductive range_step : ranges -> ranges -> Prop :=
| step_lock queue id begin fin write :
    id ∉ pr_id <$> queue -> range_step queue (lock queue id begin fin write)
| step_retest queue r : r ∈ queue -> pr_phase r = Woken -> range_step queue (retest queue (pr_id r))
| step_unlock queue r : r ∈ queue -> pr_phase r = Held -> range_step queue (unlock queue (pr_id r)).

Definition reachable_ranges : ranges -> Prop := rtc range_step [].

(** ** The invariant *)

(** No entry before a held one conflicts with it, and every entry that waits
    without having been woken has one before it that does. *)
Definition placed (before : ranges) (r : payload_range) : Prop :=
  match pr_phase r with
  | Held => Forall (fun prev => conflicts prev r = false) before
  | Waiting => Exists (fun prev => conflicts prev r = true) before
  | Woken => True
  end.

Fixpoint queue_ok (before queue : ranges) : Prop :=
  match queue with
  | [] => True
  | r :: queue => placed before r /\ queue_ok (before ++ [r])%list queue
  end.

Definition ranges_ok (queue : ranges) : Prop := NoDup (pr_id <$> queue) /\ queue_ok [] queue.

(** The phases do not matter to a conflict. *)
Definition same_range (r r' : payload_range) : Prop :=
  pr_id r = pr_id r' /\ pr_begin r = pr_begin r' /\ pr_end r = pr_end r' /\ pr_write r = pr_write r'.

Lemma conflicts_same a a' b b' : same_range a a' -> same_range b b' -> conflicts a b = conflicts a' b'.
Proof. unfold same_range, conflicts. by intros (_ & -> & -> & ->) (_ & -> & -> & ->). Qed.

#[export] Instance same_range_refl : Reflexive same_range.
Proof. by intros r. Qed.

(** What comes before matters only through its ranges. *)
Lemma placed_same before before' r :
  (forall x, x ∈ before' -> exists y, y ∈ before /\ same_range x y) ->
  (pr_phase r = Waiting -> forall y, y ∈ before -> exists x, x ∈ before' /\ same_range x y) ->
  placed before r -> placed before' r.
Proof.
  intros Hsub Hsup. unfold placed. destruct (pr_phase r); [| |done].
  - rewrite !Forall_forall. intros H x Hx. destruct (Hsub x Hx) as (y & Hy & E).
    rewrite (conflicts_same x y r r); [by auto|done|reflexivity].
  - rewrite !Exists_exists. intros (y & Hy & Hc). destruct (Hsup eq_refl y Hy) as (x & Hx & E).
    exists x. split; [done|]. by rewrite (conflicts_same x y r r).
Qed.

Lemma queue_ok_same queue : forall before before', Forall2 same_range before before' ->
  queue_ok before queue -> queue_ok before' queue.
Proof.
  induction queue as [|r queue IH]; intros before before' H; [done|]. cbn. intros [Hr Hq]. split.
  - revert Hr. apply placed_same.
    + intros x Hx. apply list_elem_of_lookup in Hx as [i Hi]. destruct (Forall2_lookup_r _ _ _ _ _ H Hi) as (y & Hy & E).
      exists y. split; [by eapply list_elem_of_lookup_2|]. destruct E as (? & ? & ? & ?). by repeat split.
    + intros _ y Hy. apply list_elem_of_lookup in Hy as [i Hi]. destruct (Forall2_lookup_l _ _ _ _ _ H Hi) as (x & Hx & E).
      exists x. split; [by eapply list_elem_of_lookup_2|]. destruct E as (? & ? & ? & ?). by repeat split.
  - revert Hq. apply IH. apply Forall2_app; [done|]. by repeat constructor.
Qed.

Lemma queue_ok_app q1 q2 : forall before,
  queue_ok before (q1 ++ q2) <-> queue_ok before q1 /\ queue_ok (before ++ q1) q2.
Proof.
  induction q1 as [|r q1 IH]; intros before; cbn; [rewrite app_nil_r; tauto|].
  rewrite IH, <- app_assoc. cbn. tauto.
Qed.

(** ** The steps keep it *)

Lemma set_phase_other id p queue : id ∉ pr_id <$> queue -> set_phase id p queue = queue.
Proof.
  unfold set_phase. induction queue as [|r queue IH]; [done|]. intros [Hne Hni]%not_elem_of_cons. cbn. rewrite IH by done.
  destruct (Z.eqb_spec (pr_id r) id); congruence.
Qed.

Definition with_phase (r : payload_range) (p : phase) : payload_range :=
  mkRange (pr_id r) (pr_begin r) (pr_end r) (pr_write r) p.

Lemma set_phase_at p q1 r q2 : NoDup (pr_id <$> q1 ++ r :: q2) ->
  set_phase (pr_id r) p (q1 ++ r :: q2) = (q1 ++ with_phase r p :: q2)%list.
Proof.
  rewrite fmap_app, NoDup_app. intros (_ & Hd & Hn). cbn in Hn. apply NoDup_cons in Hn as [Hn _].
  unfold set_phase at 1. rewrite map_app. cbn. rewrite Z.eqb_refl.
  change (map _ q1) with (set_phase (pr_id r) p q1). change (map _ q2) with (set_phase (pr_id r) p q2).
  rewrite !set_phase_other; [done|done|]. intros Hin. apply (Hd _ Hin). by left.
Qed.

Lemma conflict_before_spec q1 r q2 : NoDup (pr_id <$> q1 ++ r :: q2) ->
  conflict_before (q1 ++ r :: q2) r = existsb (fun prev => conflicts prev r) q1.
Proof.
  induction q1 as [|r0 q1 IH]; cbn; [by rewrite Z.eqb_refl|]. intros [Hni Hn]%NoDup_cons.
  rewrite IH by done. destruct (Z.eqb_spec (pr_id r0) (pr_id r)) as [E|]; [|done].
  destruct Hni. rewrite E, fmap_app. apply elem_of_app. right. by left.
Qed.

(** The outcome of a test is what the invariant asks of it. *)
Lemma tested_placed before r :
  placed before (with_phase r (if existsb (fun prev => conflicts prev r) before then Waiting else Held)).
Proof.
  destruct (existsb _ before) eqn:E; cbn.
  - apply existsb_exists in E as (x & Hx & Hc). apply Exists_exists. exists x. split; [by apply list_elem_of_In|].
    rewrite <- Hc. by apply conflicts_same.
  - apply Forall_forall. intros x Hx. apply not_true_iff_false. intros Hc. apply not_true_iff_false in E.
    apply E, existsb_exists. exists x. split; [by apply list_elem_of_In|]. rewrite <- Hc. by apply conflicts_same.
Qed.

Lemma tested_ok q1 r q2 : ranges_ok (q1 ++ r :: q2) ->
  ranges_ok (q1 ++ with_phase r (if existsb (fun prev => conflicts prev r) q1 then Waiting else Held) :: q2).
Proof.
  unfold ranges_ok. rewrite !fmap_app, !queue_ok_app. cbn. intros [Hn (Hq1 & _ & Hq2)].
  split; [done|]. split; [done|]. split; [apply tested_placed|].
  revert Hq2. apply queue_ok_same. apply Forall2_app; [|by repeat constructor]. by apply Forall_Forall2_diag, Forall_true.
Qed.

Lemma lock_ok queue id begin fin write : id ∉ pr_id <$> queue -> ranges_ok queue -> ranges_ok (lock queue id begin fin write).
Proof.
  intros Hf [Hn Hq]. unfold lock. set (r := mkRange id begin fin write Waiting).
  assert (NoDup (pr_id <$> queue ++ [r])) as Hn'.
  { rewrite fmap_app. apply NoDup_app. split; [done|]. split; [|apply NoDup_singleton].
    intros x Hx ->%list_elem_of_singleton. done. }
  rewrite (conflict_before_spec queue r [] Hn'). change id with (pr_id r) at 1. rewrite set_phase_at by done.
  unfold ranges_ok. rewrite fmap_app, queue_ok_app. cbn. split; [by rewrite fmap_app in Hn'|].
  split; [done|]. split; [apply tested_placed|done].
Qed.

Lemma retest_ok queue r : r ∈ queue -> ranges_ok queue -> ranges_ok (retest queue (pr_id r)).
Proof.
  intros Hr Hok. pose proof (proj1 Hok) as Hn. apply list_elem_of_split in Hr as (q1 & q2 & ->).
  unfold retest. assert (find (fun r0 => pr_id r0 =? pr_id r) (q1 ++ r :: q2) = Some r) as ->.
  { clear Hok. induction q1 as [|r0 q1 IH]; cbn; [by rewrite Z.eqb_refl|]. cbn in Hn. apply NoDup_cons in Hn as [Hni Hn].
    destruct (Z.eqb_spec (pr_id r0) (pr_id r)) as [E|]; [|by apply IH].
    destruct Hni. rewrite E, fmap_app. apply elem_of_app. right. by left. }
  rewrite conflict_before_spec, set_phase_at by done. by apply tested_ok.
Qed.

Lemma wake_same r : same_range (wake r) r.
Proof. unfold wake. by destruct (pr_phase r). Qed.

Lemma unlock_queue_ok (P : payload_range -> Prop) `{forall r, Decision (P r)} queue : forall before before',
  (forall x, x ∈ before' -> exists y, y ∈ before /\ same_range x y) ->
  queue_ok before queue -> queue_ok before' (map wake (filter P queue)).
Proof.
  induction queue as [|r queue IH]; intros before before' Hsub Hok; [done|].
  destruct Hok as [Hr Hq]. rewrite filter_cons.
  destruct (decide (P r)); cbn.
  - split.
    + assert (pr_phase r = Held -> placed before' r) as Hheld.
      { intros Hh. revert Hr. apply placed_same; [done|]. by rewrite Hh. }
      unfold wake. destruct (pr_phase r) eqn:E; [by apply Hheld|done|]. unfold placed. by rewrite E.
    + apply (IH (before ++ [r])%list); [|done]. intros x [Hx|Hx]%elem_of_app.
      * destruct (Hsub x Hx) as (y & ? & ?). exists y. split; [|done]. apply elem_of_app. by left.
      * apply list_elem_of_singleton in Hx as ->. exists r. split; [apply elem_of_app; right; by left|apply wake_same].
  - apply (IH (before ++ [r])%list); [|done]. intros x Hx. destruct (Hsub x Hx) as (y & ? & ?).
    exists y. split; [|done]. apply elem_of_app. by left.
Qed.

Lemma unlock_ok queue id : ranges_ok queue -> ranges_ok (unlock queue id).
Proof.
  intros [Hn Hq]. unfold unlock.
  split; [|by apply (unlock_queue_ok _ _ [] []); [intros x ?%not_elem_of_nil|]].
  assert (pr_id <$> map wake (filter (fun r => pr_id r <> id) queue) = pr_id <$> filter (fun r => pr_id r <> id) queue) as ->.
  { induction (filter _ queue) as [|r q IH]; cbn; [done|]. rewrite IH. by destruct (wake_same r) as [-> _]. }
  clear Hq. induction queue as [|r queue IH]; [constructor|]. cbn in Hn. apply NoDup_cons in Hn as [Hni Hn].
  rewrite filter_cons. destruct (decide _); [|by apply IH]. cbn. apply NoDup_cons. split; [|by apply IH].
  intros (x & E & Hx)%list_elem_of_fmap. apply Hni. rewrite E.
  apply list_elem_of_filter in Hx as [_ Hx]. by apply list_elem_of_fmap_2.
Qed.

Lemma reachable_ranges_ok queue : reachable_ranges queue -> ranges_ok queue.
Proof.
  unfold reachable_ranges. apply (rtc_ind_r (fun q => ranges_ok q) []); [by split; [constructor|]|].
  intros q q' _ Hs Hok. destruct Hs; [by apply lock_ok|by apply retest_ok|by apply unlock_ok].
Qed.

(** ** Properties *)

Definition covers (r : payload_range) (x : Z) : Prop := pr_begin r <= x < pr_end r.

(** C37: leases exclude each other.  In every reachable queue of payload ranges, a
    write lease that has been granted over some byte is the only lease granted
    over it, and no granted lease conflicts with an entry queued before it: a
    waiting caller is never overtaken by a later conflicting one.  Nothing is
    stuck either: every entry is granted, or has been woken to test again, or
    waits for an entry before it that conflicts with it. *)
Theorem leases_exclude_and_progress (queue : ranges) : reachable_ranges queue ->
  (forall i j a b x, queue !! i = Some a -> queue !! j = Some b -> pr_phase a = Held -> pr_phase b = Held ->
     covers a x -> covers b x -> pr_write a = true -> i = j) /\
  (forall i j a b, (i < j)%nat -> queue !! i = Some a -> queue !! j = Some b -> pr_phase b = Held -> conflicts a b = false) /\
  (forall j b, queue !! j = Some b ->
     pr_phase b = Held \/ pr_phase b = Woken \/ exists i a, (i < j)%nat /\ queue !! i = Some a /\ conflicts a b = true).
Proof.
  intros [Hn Hq]%reachable_ranges_ok.
  assert (forall j b, queue !! j = Some b -> placed (take j queue) b) as Hp.
  { intros j b Hj. rewrite <- (take_drop_middle queue j b Hj) in Hq. apply queue_ok_app in Hq as [_ [Hb _]]. exact Hb. }
  assert (forall i j a b, (i < j)%nat -> queue !! i = Some a -> queue !! j = Some b -> pr_phase b = Held -> conflicts a b = false) as Hh.
  { intros i j a b Hij Ha Hb Hheld. specialize (Hp j b Hb). unfold placed in Hp. rewrite Hheld, Forall_lookup in Hp.
    apply (Hp i). by rewrite lookup_take_lt. }
  split; [|split; [done|]].
  - intros i j a b x Ha Hb Hha Hhb Hxa Hxb Hw. unfold covers in *.
    destruct (Nat.lt_trichotomy i j) as [Hij|[|Hij]]; [|done|].
    + specialize (Hh i j a b Hij Ha Hb Hhb). unfold conflicts in Hh. rewrite Hw in Hh. cbn in Hh. lia.
    + specialize (Hh j i b a Hij Hb Ha Hha). unfold conflicts in Hh. rewrite Hw, orb_true_r in Hh. lia.
  - intros j b Hb. specialize (Hp j b Hb). unfold placed in Hp. destruct (pr_phase b); [by left| |by right; left].
    right. right. apply Exists_exists in Hp as (a & Ha & Hc). apply list_elem_of_lookup in Ha as [i Hi].
    apply lookup_take_Some in Hi as [Hi Hij]. eauto.
Qed.

(** A write, a conflicting read behind it, and an unrelated read. *)
Definition three_leases : ranges := lock (lock (lock [] 1 0 10 true) 2 5 20 false) 3 30 40 false.

Lemma leases_exclude_and_progress_witness :
  pr_phase <$> three_leases = [Held; Waiting; Held] /\
  (forall j b, three_leases !! j = Some b -> pr_phase b = Held \/ pr_phase b = Woken \/
     exists i a, (i < j)%nat /\ three_leases !! i = Some a /\ conflicts a b = true).
Proof.
  split; [reflexivity|]. apply (leases_exclude_and_progress three_leases).
  eapply rtc_l; [apply (step_lock [] 1 0 10 true); by apply (bool_decide_unpack _)|].
  eapply rtc_l; [apply (step_lock _ 2 5 20 false); by apply (bool_decide_unpack _)|].
  eapply rtc_l; [apply (step_lock _ 3 30 40 false); by apply (bool_decide_unpack _)|]. apply rtc_refl.
Defined.
