(* ===== verification/PeerWire.v ===== *)
(** * Peer wire protocol

    [pkg/anacrolix-torrent/peer_protocol]: the messages peers exchange, their
    encoding ([msg.go]) and the decoder of a connection's byte stream
    ([decoder.go]), the extension bits and the handshake ([handshake.go]).

    A stream that is read from is the list of the bytes it still delivers, after
    which it is at its end. *)

From stdpp Require Import base list sets strings.
From Stdlib Require Import ZArith Strings.Byte Lia.
From coqutil Require Import Byte Word.LittleEndianList.
From S2P Require Import Prelude.

#[local] Open Scope Z_scope.

#[local] Instance wire_byte_eq_dec : EqDecision byte := Byte.byte_eq_dec.

(** ** Messages *)

(** [MessageType] is a byte; the values without a name are [OtherType]. *)
Inductive MessageType :=
| Choke | Unchoke | Interested | NotInterested | Have | Bitfield | Request | Piece | Cancel
| Port
| Suggest | HaveAll | HaveNone | Reject | AllowedFast
| Extended
| HashRequest | Hashes | HashReject
| OtherType (b : byte).

Definition type_byte (t : MessageType) : byte :=
  match t with
  | Choke => x00 | Unchoke => x01 | Interested => x02 | NotInterested => x03 | Have => x04
  | Bitfield => x05 | Request => x06 | Piece => x07 | Cancel => x08
  | Port => x09
  | Suggest => x0d | HaveAll => x0e | HaveNone => x0f | Reject => x10 | AllowedFast => x11
  | Extended => x14
  | HashRequest => x15 | Hashes => x16 | HashReject => x17
  | OtherType b => b
  end.

Definition type_of (b : byte) : MessageType :=
  match b with
  | x00 => Choke | x01 => Unchoke | x02 => Interested | x03 => NotInterested | x04 => Have
  | x05 => Bitfield | x06 => Request | x07 => Piece | x08 => Cancel
  | x09 => Port
  | x0d => Suggest | x0e => HaveAll | x0f => HaveNone | x10 => Reject | x11 => AllowedFast
  | x14 => Extended
  | x15 => HashRequest | x16 => Hashes | x17 => HashReject
  | b => OtherType b
  end.

(** An [Integer] is a [uint32], arrays are lists of their length. *)
Record Message := mkMessage {
  m_PiecesRoot : list byte;
  m_Piece : list byte;
  m_Bitfield : list bool;
  m_ExtendedPayload : list byte;
  m_Hashes : list (list byte);
  m_Index : Z;
  m_Begin : Z;
  m_Length : Z;
  m_BaseLayer : Z;
  m_ProofLayers : Z;
  m_Port : Z;
  m_Type : MessageType;
  m_ExtendedID : byte;
  m_Keepalive : bool;
}.
#[export] Instance Message_eta : Eta Message := fun m =>
  mkMessage (m_PiecesRoot m) (m_Piece m) (m_Bitfield m) (m_ExtendedPayload m) (m_Hashes m) (m_Index m) (m_Begin m)
    (m_Length m) (m_BaseLayer m) (m_ProofLayers m) (m_Port m) (m_Type m) (m_ExtendedID m) (m_Keepalive m).

(** [var msg Message]. *)
Definition zero_message : Message :=
  mkMessage (replicate 32 x00) [] [] [] [] 0 0 0 0 0 0 Choke x00 false.

Inductive wire_error :=
| ErrEOF
| ErrUnexpectedEOF
| ErrTooLong
| ErrUnknownType
| ErrUnhandledType
| ErrPieceTooLong
| ErrUnusedBytes
| ErrTrailingBytes
| ErrProtocol.

(** ** Encoding *)

(** [binary.BigEndian] for the widths in use. *)
Definition be (width : nat) (n : Z) : list byte := rev (le_split width n).
Definition from_be (b : list byte) : Z := le_combine (rev b).

(** [MessageWriter]; the writers the messages are written to never fail. *)
Class MessageWriter (W : Type) := {
  WriteByte : byte -> W -> W;
  Write : list byte -> W -> W;
}.

#[export] Instance Buffer : MessageWriter (list byte) :=
  {| WriteByte c buf := (buf ++ [c])%list; Write p buf := (buf ++ p)%list |}.

(** [lengthWriter] counts in an [Integer]. *)
Record lengthWriter := mkLengthWriter { lw_n : Z }.
#[export] Instance Counter : MessageWriter lengthWriter :=
  {| WriteByte _ l := mkLengthWriter ((lw_n l + 1) mod 2 ^ 32);
     Write p l := mkLengthWriter ((lw_n l + Z.of_nat (length p)) mod 2 ^ 32) |}.

(** The loop body of [marshalBitfield]. *)
Definition put_have (b : list byte) (i : nat) (have : bool) : list byte :=
  if negb have then b
  else alter (fun c => byte.of_Z (Z.lor (byte.unsigned c) (Z.shiftl 1 (7 - Z.of_nat i mod 8)))) (i / 8)%nat b.

Fixpoint put_haves (b : list byte) (i : nat) (bf : list bool) : list byte :=
  match bf with
  | [] => b
  | have :: bf => put_haves (put_have b i have) (S i) bf
  end.

Definition marshalBitfield (bf : list bool) : list byte :=
  put_haves (replicate ((length bf + 7) / 8) x00) 0 bf.

Section Writing.
Context {W : Type} `{MessageWriter W}.

Definition write_integers (ds : list Z) (w : W) : W := fold_left (fun w d => Write (be 4 d) w) ds w.

Definition writeHashCommon (msg : Message) (w : W) : W :=
  write_integers [m_BaseLayer msg; m_Index msg; m_Length msg; m_ProofLayers msg] (Write (m_PiecesRoot msg) w).

Definition writePayloadTo (msg : Message) (w : W) : result wire_error W :=
  if m_Keepalive msg then Ok w
  else
    let w := WriteByte (type_byte (m_Type msg)) w in
    match m_Type msg with
    | Choke | Unchoke | Interested | NotInterested | HaveAll | HaveNone => Ok w
    | Have | AllowedFast | Suggest => Ok (write_integers [m_Index msg] w)
    | Request | Cancel | Reject => Ok (write_integers [m_Index msg; m_Begin msg; m_Length msg] w)
    | Bitfield => Ok (Write (marshalBitfield (m_Bitfield msg)) w)
    | Piece => Ok (Write (m_Piece msg) (write_integers [m_Index msg; m_Begin msg] w))
    | Extended => Ok (Write (m_ExtendedPayload msg) (WriteByte (m_ExtendedID msg) w))
    | Port => Ok (Write (be 2 (m_Port msg)) w)
    | HashRequest | HashReject => Ok (writeHashCommon msg w)
    | Hashes => Ok (fold_left (fun w h => Write h w) (m_Hashes msg) (writeHashCommon msg w))
    | OtherType _ => Err ErrUnknownType
    end.
End Writing.

Definition getPayloadLength (msg : Message) : result wire_error Z :=
  let? lw := writePayloadTo msg (mkLengthWriter 0) in Ok (lw_n lw).

Definition WriteTo {W : Type} `{MessageWriter W} (msg : Message) (w : W) : result wire_error W :=
  let? length := getPayloadLength msg in writePayloadTo msg (Write (be 4 length) w).

Definition MarshalBinary (msg : Message) : result wire_error (list byte) := WriteTo msg [].

(** ** Decoding *)

(** [io.ReadFull] on the connection itself. *)
Definition read_conn (n : nat) (input : list byte) : result wire_error (list byte) * list byte :=
  if (n <=? length input)%nat then (Ok (take n input), drop n input)
  else (Err (if (length input =? 0)%nat then ErrEOF else ErrUnexpectedEOF), []).

(** [expectReader]: the bytes to come and the bytes left of the message. *)
Record expectReader := mkReader { er_R : list byte; er_N : Z }.

Definition reads (A : Type) : Type := expectReader -> result wire_error A * expectReader.

Definition ReadByte : reads byte := fun r =>
  if er_N r <=? 0 then (Err ErrUnexpectedEOF, r)
  else match er_R r with
       | [] => (Err ErrUnexpectedEOF, r)
       | c :: rest => (Ok c, mkReader rest (er_N r - 1))
       end.

(** [io.ReadFull(r, b)] with [n] bytes wanted; a short read consumes what there is. *)
Definition ReadFull (n : Z) : reads (list byte) := fun r =>
  let available := Z.min (er_N r) (Z.of_nat (length (er_R r))) in
  if n <=? available
  then (Ok (take (Z.to_nat n) (er_R r)), mkReader (drop (Z.to_nat n) (er_R r)) (er_N r - n))
  else (Err ErrUnexpectedEOF, mkReader (drop (Z.to_nat available) (er_R r)) (er_N r - available)).

Definition read_be (width : Z) : reads Z := fun r =>
  match ReadFull width r with
  | (Ok b, r) => (Ok (from_be b), r)
  | (Err e, r) => (Err e, r)
  end.

#[local] Notation "'let!' x ':=' m 'on' r 'in' k" :=
  (match m r with (Ok x, r) => k | (Err e, r) => (Err e, r) end)
  (at level 10, x name, m at level 100, r name, k at level 200).

(** Bits from the most significant one. *)
Definition unmarshalBitfield (b : list byte) : list bool :=
  concat (map (fun c => map (fun i => Z.testbit (byte.unsigned c) i) [7; 6; 5; 4; 3; 2; 1; 0]) b).

Definition readHashRequest (msg : Message) : reads Message := fun r =>
  let! root := ReadFull 32 on r in
  let! base := read_be 4 on r in
  let! index := read_be 4 on r in
  let! length := read_be 4 on r in
  let! proof := read_be 4 on r in
  (Ok (msg <| m_PiecesRoot := root |> <| m_BaseLayer := base |> <| m_Index := index |> <| m_Length := length |>
           <| m_ProofLayers := proof |>), r).

Fixpoint read_hashes (count : nat) : reads (list (list byte)) := fun r =>
  match count with
  | O => (Ok [], r)
  | S count =>
      let! hash := ReadFull 32 on r in
      let! hashes := read_hashes count on r in
      (Ok (hash :: hashes), r)
  end.

(** The hashes are read even if the request before them could not be: its error is
    overwritten by theirs, unless there are none to read. *)
Definition readHashes (msg : Message) : reads Message := fun r =>
  let '(request, r) := readHashRequest msg r in
  let count := Z.to_nat ((er_N r + 31) / 32) in
  match count, request with
  | O, Ok msg => (Ok (msg <| m_Hashes := [] |>), r)
  | O, Err e => (Err e, r)
  | _, _ =>
      let msg := match request with Ok msg => msg | Err _ => msg end in
      let! hashes := read_hashes count on r in
      (Ok (msg <| m_Hashes := hashes |>), r)
  end.

(** [pool]: the capacity of the slices of the pool, if there is one. *)
Definition readMessageAfterType (pool : option Z) (msg : Message) : reads Message := fun r =>
  match m_Type msg with
  | Choke | Unchoke | Interested | NotInterested | HaveAll | HaveNone => (Ok msg, r)
  | Have | AllowedFast | Suggest =>
      let! index := read_be 4 on r in (Ok (msg <| m_Index := index |>), r)
  | Request | Cancel | Reject =>
      let! index := read_be 4 on r in
      let! begin := read_be 4 on r in
      let! length := read_be 4 on r in
      (Ok (msg <| m_Index := index |> <| m_Begin := begin |> <| m_Length := length |>), r)
  | Bitfield =>
      let! b := ReadFull (er_N r) on r in (Ok (msg <| m_Bitfield := unmarshalBitfield b |>), r)
  | Piece =>
      let! index := read_be 4 on r in
      let! begin := read_be 4 on r in
      if match pool with Some capacity => capacity <? er_N r | None => false end
      then (Err ErrPieceTooLong, r)
      else let! piece := ReadFull (er_N r) on r in
           (Ok (msg <| m_Index := index |> <| m_Begin := begin |> <| m_Piece := piece |>), r)
  | Extended =>
      let! b := ReadByte on r in
      let! payload := ReadFull (er_N r) on r in
      (Ok (msg <| m_ExtendedID := b |> <| m_ExtendedPayload := payload |>), r)
  | Port => let! port := read_be 2 on r in (Ok (msg <| m_Port := port |>), r)
  | HashRequest | HashReject => readHashRequest msg r
  | Hashes => readHashes msg r
  | OtherType _ => (Err ErrUnhandledType, r)
  end.

Record Decoder := mkPeerDecoder { d_Pool : option Z; d_MaxLength : Z }.

(** [Decode]: the message, if it decodes, and what the stream still delivers. *)
Definition Decode (d : Decoder) (msg : Message) (input : list byte) : result wire_error Message * list byte :=
  match read_conn 4 input with
  | (Err e, input) => (Err e, input)
  | (Ok b, input) =>
      let length := from_be b in
      if length >? d_MaxLength d then (Err ErrTooLong, input)
      else if length =? 0 then (Ok (msg <| m_Keepalive := true |>), input)
      else
        let r := mkReader input length in
        match ReadByte r with
        | (Err e, r) => (Err e, er_R r)
        | (Ok c, r) =>
            match readMessageAfterType (d_Pool d) (msg <| m_Type := type_of c |>) r with
            | (Err e, r) => (Err e, er_R r)
            | (Ok msg, r) => (if negb (er_N r =? 0) then Err ErrUnusedBytes else Ok msg, er_R r)
            end
        end
  end.

Definition UnmarshalBinary (me : Message) (b : list byte) : result wire_error Message :=
  match Decode (mkPeerDecoder None 0) me b with
  | (Err e, _) => Err e
  | (Ok msg, rest) => if negb (length rest =? 0)%nat then Err ErrTrailingBytes else Ok msg
  end.

(** The decoding of [mainReadLoop] in [peerconn.go]: a new message in every
    iteration, until one fails. *)
Fixpoint read_messages (fuel : nat) (d : Decoder) (input : list byte) : list Message * option wire_error :=
  match fuel with
  | O => ([], None)
  | S fuel =>
      match Decode d zero_message input with
      | (Err e, _) => ([], Some e)
      | (Ok msg, input) => let '(msgs, e) := read_messages fuel d input in (msg :: msgs, e)
      end
  end.

(** ** Handshake *)

(** [PeerExtensionBits]: eight bytes; an index out of range is a panic, [None]. *)
Definition SetBit (pex : list byte) (bit : nat) (set : bool) : option (list byte) :=
  if (bit <? 64)%nat then
    let mask := Z.shiftl 1 (Z.of_nat bit mod 8) in
    Some (alter (fun c => byte.of_Z (if set then Z.lor (byte.unsigned c) mask else Z.ldiff (byte.unsigned c) mask)) (7 - bit / 8)%nat pex)
  else None.

Definition GetBit (pex : list byte) (bit : nat) : option bool :=
  if (bit <? 64)%nat then
    c ← pex !! (7 - bit / 8)%nat; Some (negb (Z.land (byte.unsigned c) (Z.shiftl 1 (Z.of_nat bit mod 8)) =? 0))
  else None.

Fixpoint set_bits (pex : list byte) (bits : list nat) : option (list byte) :=
  match bits with
  | [] => Some pex
  | b :: bits => pex ← SetBit pex b true; set_bits pex bits
  end.

Definition NewPeerExtensionBytes (bits : list nat) : option (list byte) := set_bits (replicate 8 x00) bits.

Definition ExtensionBitDht : nat := 0.
Definition ExtensionBitFast : nat := 2.
Definition ExtensionBitLtep : nat := 20.

Definition SupportsExtended (pex : list byte) : option bool := GetBit pex ExtensionBitLtep.
Definition SupportsDHT (pex : list byte) : option bool := GetBit pex ExtensionBitDht.
Definition SupportsFast (pex : list byte) : option bool := GetBit pex ExtensionBitFast.

Definition Protocol : list byte := x13 :: String.list_byte_of_string "BitTorrent protocol".

Record HandshakeResult := mkHandshake {
  hs_PeerExtensionBits : list byte;
  hs_PeerID : list byte;
  hs_Hash : list byte;
}.

(** What is posted before the peer's part is read. *)
Definition first_posts (ih : option (list byte)) (peerID extensions : list byte) : list (list byte) :=
  ([Protocol; extensions] ++ match ih with Some ih => [ih; peerID] | None => [] end)%list.

(** [Handshake]: its result, what it posts to the peer in order, and what is left of
    the stream from the peer. *)
Definition Handshake (ih : option (list byte)) (peerID extensions : list byte) (sock : list byte)
    : result wire_error HandshakeResult * list (list byte) * list byte :=
  let posts := first_posts ih peerID extensions in
  match read_conn 68 sock with
  | (Err e, sock) => (Err e, posts, sock)
  | (Ok b, sock) =>
      if bool_decide (take (length Protocol) b ≠ Protocol) then (Err ErrProtocol, posts, sock)
      else
        let b := drop (length Protocol) b in
        let bits := take 8 b in
        let b := drop 8 b in
        let hash := take 20 b in
        let b := drop 20 b in
        let res := mkHandshake bits (take 20 b) hash in
        (Ok res, (posts ++ match ih with Some _ => [] | None => [hash; peerID] end)%list, sock)
  end.

(** ** Bit fields *)

(** The [i]-th bit, counted from the most significant bit of the first byte. *)
Definition hbit (b : list byte) (i : nat) : bool :=
  match b !! (i / 8)%nat with
  | Some c => Z.testbit (byte.unsigned c) (7 - Z.of_nat i mod 8)
  | None => false
  end.

Lemma or_bit c k i : 0 <= k < 8 -> 0 <= i < 8 ->
  Z.testbit (byte.unsigned (byte.of_Z (Z.lor (byte.unsigned c) (Z.shiftl 1 k)))) i = (i =? k) || Z.testbit (byte.unsigned c) i.
Proof.
  intros. rewrite byte.unsigned_of_Z. unfold byte.wrap. rewrite Z.mod_pow2_bits_low by lia.
  rewrite Z.lor_spec, Z.shiftl_1_l, orb_comm. f_equal.
  destruct (Z.eqb_spec i k) as [->|]; [by apply Z.pow2_bits_true; lia|by apply Z.pow2_bits_false; lia].
Qed.

Lemma put_have_length b i have : length (put_have b i have) = length b.
Proof. unfold put_have. destruct have; [apply length_alter|done]. Qed.

Lemma place_split (i j : nat) : (i / 8 = j / 8)%nat -> (7 - Z.of_nat i mod 8 =? 7 - Z.of_nat j mod 8) = (i =? j)%nat.
Proof.
  intros E. pose proof (Nat.div_mod_eq i 8). pose proof (Nat.div_mod_eq j 8).
  destruct (Nat.eqb_spec i j) as [->|]; [apply Z.eqb_refl|].
  apply Z.eqb_neq. change 8 with (Z.of_nat 8). rewrite <- !Nat2Z.inj_mod. lia.
Qed.

Lemma put_have_bit b i j have : (i < 8 * length b)%nat ->
  hbit (put_have b i have) j = ((i =? j)%nat && have) || hbit b j.
Proof.
  intros Hi. unfold put_have. destruct have; [|by rewrite andb_false_r]. rewrite andb_true_r. cbn [negb]. unfold hbit.
  destruct (decide (i / 8 = j / 8)%nat) as [E|E].
  - rewrite <- E, list_lookup_alter_eq. destruct (lookup_lt_is_Some_2 b (i / 8)) as [c Hc].
    { apply Nat.Div0.div_lt_upper_bound. lia. }
    rewrite Hc. cbn. rewrite or_bit by (pose proof (Z.mod_pos_bound (Z.of_nat i) 8); pose proof (Z.mod_pos_bound (Z.of_nat j) 8); lia).
    by rewrite (Z.eqb_sym _ (7 - _)), place_split.
  - rewrite list_lookup_alter_ne by done. destruct (Nat.eqb_spec i j) as [->|]; done.
Qed.

Lemma put_haves_spec bf : forall b i, (i + length bf <= 8 * length b)%nat ->
  length (put_haves b i bf) = length b /\
  forall j, hbit (put_haves b i bf) j = ((i <=? j)%nat && default false (bf !! (j - i)%nat)) || hbit b j.
Proof.
  induction bf as [|have bf IH]; intros b i Hb; cbn [put_haves length] in *.
  - split; [done|]. intros j. by rewrite andb_false_r.
  - destruct (IH (put_have b i have) (S i)) as [Hl Hj]; [rewrite put_have_length; lia|]. rewrite put_have_length in Hl.
    split; [done|]. intros j. rewrite Hj, put_have_bit by lia.
    destruct (Nat.leb_spec (S i) j), (Nat.leb_spec i j), (Nat.eqb_spec i j); try lia; cbn [andb orb]; try done.
    + replace (j - i)%nat with (S (j - S i)) by lia. done.
    + subst j. by rewrite Nat.sub_diag.
Qed.

Lemma zero_bits n i : hbit (replicate n x00) i = false.
Proof.
  unfold hbit. destruct (replicate n x00 !! (i / 8)%nat) as [c|] eqn:E; [|done].
  apply lookup_replicate in E as [-> _]. apply Z.testbit_0_l.
Qed.

Lemma bitfield_bytes (n : nat) : (n <= 8 * ((n + 7) / 8))%nat.
Proof. pose proof (Nat.div_mod_eq (n + 7) 8). pose proof (Nat.mod_upper_bound (n + 7) 8). lia. Qed.

Lemma marshalBitfield_spec bf :
  length (marshalBitfield bf) = ((length bf + 7) / 8)%nat /\ forall i, hbit (marshalBitfield bf) i = default false (bf !! i).
Proof.
  pose proof (bitfield_bytes (length bf)). unfold marshalBitfield.
  destruct (put_haves_spec bf (replicate ((length bf + 7) / 8) x00) 0) as [Hl Hb]; [by rewrite length_replicate|].
  rewrite length_replicate in Hl. split; [done|]. intros i. rewrite Hb, zero_bits, orb_false_r, Nat.sub_0_r. done.
Qed.

Lemma unmarshalBitfield_lookup b : forall i, unmarshalBitfield b !! i = if (i <? 8 * length b)%nat then Some (hbit b i) else None.
Proof.
  induction b as [|c b IH]; intros i; [by destruct i|].
  cbn [length]. destruct (Nat.ltb_spec i 8) as [Hi|Hi].
  - destruct (Nat.ltb_spec i (8 * S (length b))); [|lia]. do 8 (destruct i as [|i]; [done|]). lia.
  - transitivity (unmarshalBitfield b !! (i - 8)%nat).
    { replace i with (8 + (i - 8))%nat at 1 by lia. done. }
    rewrite IH. replace i with (i - 8 + 1 * 8)%nat by lia. set (k := (i - 8)%nat). unfold hbit.
    rewrite Nat.div_add, Nat2Z.inj_add by lia. change (Z.of_nat (1 * 8)) with (1 * 8). rewrite Z_mod_plus_full.
    rewrite (Nat.add_comm (k / 8)). cbn [lookup list_lookup Nat.add].
    rewrite Nat.add_sub. destruct (Nat.ltb_spec k (8 * length b)), (Nat.ltb_spec (k + 1 * 8) (8 * S (length b))); try lia; done.
Qed.

Lemma unmarshalBitfield_length b : length (unmarshalBitfield b) = (8 * length b)%nat.
Proof. induction b as [|c b IH]; [done|]. change (length (unmarshalBitfield (c :: b))) with (8 + length (unmarshalBitfield b))%nat. rewrite IH. cbn [length]. lia. Qed.

Lemma byte_ext (a b : byte) : (forall i, 0 <= i < 8 -> Z.testbit (byte.unsigned a) i = Z.testbit (byte.unsigned b) i) -> a = b.
Proof.
  intros E. apply byte.unsigned_inj. apply Z.bits_inj'. intros i Hi. destruct (Z.lt_ge_cases i 8); [by apply E|].
  pose proof (byte.unsigned_range a). pose proof (byte.unsigned_range b).
  rewrite <- (Z.mod_small (byte.unsigned a) (2 ^ 8)), <- (Z.mod_small (byte.unsigned b) (2 ^ 8)) by lia.
  by rewrite !Z.mod_pow2_bits_high by lia.
Qed.

Lemma hbits_ext a b : length a = length b -> (forall i, hbit a i = hbit b i) -> a = b.
Proof.
  intros Hl E. apply list_eq_same_length with (length b); [done..|]. intros k x y Hk Hx Hy. apply byte_ext. intros i Hi.
  specialize (E (8 * k + (7 - Z.to_nat i))%nat). unfold hbit in E.
  replace ((8 * k + (7 - Z.to_nat i)) / 8)%nat with k in E
    by (rewrite Nat.mul_comm, Nat.div_add_l, Nat.div_small; lia).
  rewrite Hx, Hy in E. replace (7 - Z.of_nat (8 * k + (7 - Z.to_nat i)) mod 8) with i in E; [done|].
  replace (Z.of_nat (8 * k + (7 - Z.to_nat i))) with (7 - i + Z.of_nat k * 8) by lia.
  rewrite Z_mod_plus_full, Z.mod_small; lia.
Qed.

Lemma marshal_unmarshal b : marshalBitfield (unmarshalBitfield b) = b.
Proof.
  destruct (marshalBitfield_spec (unmarshalBitfield b)) as [Hl Hb]. rewrite unmarshalBitfield_length in Hl.
  assert ((8 * length b + 7) / 8 = length b)%nat as Hd by (rewrite Nat.mul_comm, Nat.div_add_l; [simpl; lia|lia]).
  apply hbits_ext; [lia|]. intros i. rewrite Hb, unmarshalBitfield_lookup.
  destruct (Nat.ltb_spec i (8 * length b)) as [|Hi]; [done|]. unfold hbit.
  rewrite lookup_ge_None_2; [done|]. apply Nat.div_le_lower_bound; lia.
Qed.

(** The bits of a field, filled up to whole bytes. *)
Lemma unmarshal_marshal bf :
  unmarshalBitfield (marshalBitfield bf) = (bf ++ replicate (8 * ((length bf + 7) / 8) - length bf) false)%list.
Proof.
  destruct (marshalBitfield_spec bf) as [Hl Hb]. pose proof (bitfield_bytes (length bf)) as Hle.
  apply list_eq. intros i. rewrite unmarshalBitfield_lookup, Hl, Hb. destruct (Nat.ltb_spec i (8 * ((length bf + 7) / 8))) as [Hi|Hi].
  - destruct (decide (i < length bf)%nat).
    + rewrite lookup_app_l by done. destruct (lookup_lt_is_Some_2 bf i) as [h ->]; done.
    + rewrite lookup_app_r, (lookup_ge_None_2 bf) by lia. symmetry. apply lookup_replicate_2. lia.
  - symmetry. apply lookup_ge_None_2. rewrite length_app, length_replicate. lia.
Qed.
