(* ===== verification/PeerProperties.v ===== *)
(** * Properties of the peer wire protocol

    The writers and readers of [PeerWire]: what is written is read back, what is
    read was written, and two peers that shake hands agree. *)

From stdpp Require Import base list sets strings.
From Stdlib Require Import ZArith Strings.Byte Lia.
From coqutil Require Import Byte Word.LittleEndianList.
From S2P Require Import Prelude PeerWire.

#[local] Open Scope Z_scope.

(** ** What is written *)

(** Counting commutes with writing. *)
Definition count (buf : list byte) : lengthWriter := mkLengthWriter (Z.of_nat (length buf) mod 2 ^ 32).

Lemma count_byte c buf : WriteByte c (count buf) = count (WriteByte c buf).
Proof. unfold count. cbn. by rewrite Zplus_mod_idemp_l, length_app, Nat2Z.inj_add. Qed.

Lemma count_write p buf : Write p (count buf) = count (Write p buf).
Proof. unfold count. cbn. by rewrite Zplus_mod_idemp_l, length_app, Nat2Z.inj_add. Qed.

Lemma count_writes ps : forall buf, fold_left (fun w h => Write h w) ps (count buf) = count (fold_left (fun w h => Write h w) ps buf).
Proof. induction ps as [|p ps IH]; intros buf; [done|]. cbn [fold_left]. by rewrite count_write, IH. Qed.

Lemma write_integers_fold {W : Type} `{MessageWriter W} ds : forall w,
  write_integers ds w = fold_left (fun w h => Write h w) (map (be 4) ds) w.
Proof. unfold write_integers. induction ds as [|d ds IH]; intros w; [done|]. apply IH. Qed.

Lemma count_integers ds buf : write_integers ds (count buf) = count (write_integers ds buf).
Proof. by rewrite !write_integers_fold, count_writes. Qed.

Lemma count_payload msg buf :
  writePayloadTo msg (count buf) = let? buf := writePayloadTo msg buf in Ok (count buf).
Proof.
  unfold writePayloadTo, writeHashCommon. destruct (m_Keepalive msg); [done|].
  destruct (m_Type msg); rewrite ?count_byte, ?count_write, ?count_integers, ?count_write, ?count_byte, ?count_integers, ?count_writes; done.
Qed.

(** The bytes of a message after its length. *)
Definition payload (msg : Message) : result wire_error (list byte) :=
  if m_Keepalive msg then Ok []
  else
    let body := match m_Type msg with
      | Choke | Unchoke | Interested | NotInterested | HaveAll | HaveNone => Ok []
      | Have | AllowedFast | Suggest => Ok (be 4 (m_Index msg))
      | Request | Cancel | Reject => Ok (be 4 (m_Index msg) ++ be 4 (m_Begin msg) ++ be 4 (m_Length msg))%list
      | Bitfield => Ok (marshalBitfield (m_Bitfield msg))
      | Piece => Ok (be 4 (m_Index msg) ++ be 4 (m_Begin msg) ++ m_Piece msg)%list
      | Extended => Ok (m_ExtendedID msg :: m_ExtendedPayload msg)
      | Port => Ok (be 2 (m_Port msg))
      | HashRequest | HashReject =>
          Ok (m_PiecesRoot msg ++ be 4 (m_BaseLayer msg) ++ be 4 (m_Index msg) ++ be 4 (m_Length msg) ++ be 4 (m_ProofLayers msg))%list
      | Hashes =>
          Ok (m_PiecesRoot msg ++ be 4 (m_BaseLayer msg) ++ be 4 (m_Index msg) ++ be 4 (m_Length msg) ++ be 4 (m_ProofLayers msg)
              ++ concat (m_Hashes msg))%list
      | OtherType _ => Err ErrUnknownType
      end in
    let? body := body in Ok (type_byte (m_Type msg) :: body).

Lemma buffer_writes ps : forall buf : list byte, fold_left (fun w h => Write h w) ps buf = (buf ++ concat ps)%list.
Proof. induction ps as [|p ps IH]; intros buf; cbn; [by rewrite app_nil_r|]. by rewrite IH, <- app_assoc. Qed.

Lemma writePayloadTo_buffer msg (buf : list byte) :
  writePayloadTo msg buf = let? p := payload msg in Ok (buf ++ p)%list.
Proof.
  unfold writePayloadTo, payload, writeHashCommon. destruct (m_Keepalive msg); [by rewrite app_nil_r|].
  destruct (m_Type msg); rewrite ?write_integers_fold, ?buffer_writes; cbn -[be marshalBitfield];
    repeat first [rewrite app_nil_r | rewrite <- app_assoc | progress cbn -[be marshalBitfield]]; done.
Qed.

Lemma MarshalBinary_payload msg :
  MarshalBinary msg = let? p := payload msg in Ok (be 4 (Z.of_nat (length p) mod 2 ^ 32) ++ p)%list.
Proof.
  unfold MarshalBinary, WriteTo, getPayloadLength. change (mkLengthWriter 0) with (count []).
  rewrite count_payload, !writePayloadTo_buffer. destruct (payload msg) as [p|e] eqn:E; [|done].
  cbn [lw_n count]. by rewrite writePayloadTo_buffer, E.
Qed.

(** ** What is read *)

Lemma be_length w n : length (be w n) = w.
Proof. unfold be. by rewrite length_rev, length_le_split. Qed.

Lemma from_be_be w n : 0 <= n < 2 ^ (8 * Z.of_nat w) -> from_be (be w n) = n.
Proof. intros. unfold from_be, be. rewrite rev_involutive, le_combine_split, Z.mod_small; [done|]. by rewrite (Z.mul_comm _ 8). Qed.

Lemma be_from_be b : be (length b) (from_be b) = b.
Proof. unfold be, from_be. rewrite split_le_combine' by apply length_rev. apply rev_involutive. Qed.

Lemma from_be_range b : 0 <= from_be b < 2 ^ (8 * Z.of_nat (length b)).
Proof. unfold from_be. pose proof (le_combine_bound (rev b)) as H. by rewrite length_rev in H. Qed.

(** A reader with the bytes [p] left of its message. *)
Definition within (p rest : list byte) : expectReader := mkReader (p ++ rest) (Z.of_nat (length p)).

Lemma ReadFull_within q p rest : ReadFull (Z.of_nat (length q)) (within (q ++ p) rest) = (Ok q, within p rest).
Proof.
  unfold ReadFull, within. cbn [er_N er_R]. rewrite !length_app. destruct (Z.leb_spec (Z.of_nat (length q)) (Z.min (Z.of_nat (length q + length p)) (Z.of_nat (length q + length p + length rest)))); [|lia].
  rewrite Nat2Z.id, <- app_assoc, take_app_length, drop_app_length. do 2 f_equal. lia.
Qed.

Lemma ReadFull_rest p rest : ReadFull (er_N (within p rest)) (within p rest) = (Ok p, within [] rest).
Proof. rewrite <- (ReadFull_within p [] rest). by rewrite app_nil_r. Qed.

Lemma read_be_within w n p rest : 0 <= n < 2 ^ (8 * Z.of_nat w) ->
  read_be (Z.of_nat w) (within (be w n ++ p) rest) = (Ok n, within p rest).
Proof.
  intros. unfold read_be. pose proof (ReadFull_within (be w n) p rest) as E. rewrite be_length in E. rewrite E. by rewrite from_be_be.
Qed.

Lemma ReadByte_within c p rest : ReadByte (within (c :: p) rest) = (Ok c, within p rest).
Proof. unfold ReadByte, within. cbn [length er_N er_R]. destruct (Z.leb_spec (Z.of_nat (S (length p))) 0); [lia|]. cbn. do 2 f_equal. lia. Qed.

(** What a successful read took from the reader. *)
Definition took (b : list byte) (r r' : expectReader) : Prop :=
  er_R r = (b ++ er_R r')%list /\ er_N r = Z.of_nat (length b) + er_N r' /\ 0 <= er_N r'.

Lemma ReadFull_inv n r b r' : 0 <= n -> ReadFull n r = (Ok b, r') -> took b r r' /\ Z.of_nat (length b) = n.
Proof.
  unfold ReadFull, took. intros Hn. case_match eqn:E; [|done]. apply Z.leb_le in E. intros [= <- <-]. cbn [er_R er_N].
  rewrite take_drop, length_take. split_and!; try done; lia.
Qed.

Lemma read_be_inv (w : nat) r n r' : read_be (Z.of_nat w) r = (Ok n, r') -> took (be w n) r r' /\ 0 <= n < 2 ^ (8 * Z.of_nat w).
Proof.
  unfold read_be. destruct (ReadFull (Z.of_nat w) r) as [[b|e] s] eqn:E; [|done]. intros [= <- <-].
  apply ReadFull_inv in E as [E Hb]; [|lia]. apply Nat2Z.inj in Hb. subst w. rewrite be_from_be. split; [done|apply from_be_range].
Qed.

Lemma wire_ReadByte_inv r c r' : ReadByte r = (Ok c, r') -> took [c] r r'.
Proof.
  unfold ReadByte, took. case_match eqn:E; [done|]. apply Z.leb_gt in E. destruct (er_R r) as [|x rest]; [done|].
  intros [= <- <-]. cbn. split_and!; [done|lia..].
Qed.

Lemma took_app a b r r' r'' : took a r r' -> took b r' r'' -> took (a ++ b) r r''.
Proof. intros (Ha & Hn & _) (Hb & Hm & Hp). unfold took. rewrite Ha, Hb, Hn, Hm, length_app, app_assoc. split_and!; [done|lia|done]. Qed.

(** ** Round trips *)

#[local] Opaque be from_be marshalBitfield unmarshalBitfield.

Definition u32 (n : Z) : Prop := 0 <= n < 2 ^ 32.

(** The fields have the values of their Go types. *)
Definition typed (msg : Message) : Prop :=
  length (m_PiecesRoot msg) = 32%nat /\ Forall (fun h => length h = 32%nat) (m_Hashes msg) /\
  u32 (m_Index msg) /\ u32 (m_Begin msg) /\ u32 (m_Length msg) /\ u32 (m_BaseLayer msg) /\ u32 (m_ProofLayers msg) /\
  0 <= m_Port msg < 2 ^ 16 /\ type_of (type_byte (m_Type msg)) = m_Type msg.

(** [m] with the fields of a hash request. *)
Definition with_request (msg m : Message) : Message :=
  m <| m_PiecesRoot := m_PiecesRoot msg |> <| m_BaseLayer := m_BaseLayer msg |> <| m_Index := m_Index msg |>
    <| m_Length := m_Length msg |> <| m_ProofLayers := m_ProofLayers msg |>.

(** What arrives of a message: the fields its type has, a bit field filled up to
    whole bytes. *)
Definition received (msg : Message) : Message :=
  if m_Keepalive msg then zero_message <| m_Keepalive := true |>
  else
    let m := zero_message <| m_Type := m_Type msg |> in
    match m_Type msg with
    | Choke | Unchoke | Interested | NotInterested | HaveAll | HaveNone | OtherType _ => m
    | Have | AllowedFast | Suggest => m <| m_Index := m_Index msg |>
    | Request | Cancel | Reject => m <| m_Index := m_Index msg |> <| m_Begin := m_Begin msg |> <| m_Length := m_Length msg |>
    | Bitfield =>
        let bf := m_Bitfield msg in
        m <| m_Bitfield := (bf ++ replicate (8 * ((length bf + 7) / 8) - length bf) false)%list |>
    | Piece => m <| m_Index := m_Index msg |> <| m_Begin := m_Begin msg |> <| m_Piece := m_Piece msg |>
    | Extended => m <| m_ExtendedID := m_ExtendedID msg |> <| m_ExtendedPayload := m_ExtendedPayload msg |>
    | Port => m <| m_Port := m_Port msg |>
    | HashRequest | HashReject => with_request msg m
    | Hashes => (with_request msg m) <| m_Hashes := m_Hashes msg |>
    end.

(** The decoder has room for the message. *)
Definition fits (d : Decoder) (msg : Message) : Prop :=
  forall p, payload msg = Ok p -> Z.of_nat (length p) < 2 ^ 32 /\ Z.of_nat (length p) <= d_MaxLength d /\
  (m_Keepalive msg = false -> m_Type msg = Piece ->
   match d_Pool d with Some capacity => Z.of_nat (length (m_Piece msg)) <= capacity | None => True end).

Lemma read_hashes_within hs : forall rest, Forall (fun h => length h = 32%nat) hs ->
  read_hashes (length hs) (within (concat hs) rest) = (Ok hs, within [] rest).
Proof.
  induction hs as [|h hs IH]; intros rest Hf; [done|]. apply Forall_cons in Hf as [Hh Hf]. cbn [read_hashes length concat].
  pose proof (ReadFull_within h (concat hs) rest) as E. rewrite Hh in E. change (Z.of_nat 32) with 32 in E. rewrite E, IH by done. done.
Qed.

Lemma concat_length hs : Forall (fun h : list byte => length h = 32%nat) hs -> length (concat hs) = (32 * length hs)%nat.
Proof. induction 1 as [|h hs Hh Hf IH]; [done|]. cbn. rewrite length_app, Hh, IH. lia. Qed.

Lemma hash_count hs rest : Forall (fun h => length h = 32%nat) hs ->
  Z.to_nat ((er_N (within (concat hs) rest) + 31) / 32) = length hs.
Proof.
  intros Hf. unfold within. cbn [er_N]. rewrite concat_length by done.
  replace (Z.of_nat (32 * length hs) + 31) with (31 + Z.of_nat (length hs) * 32) by lia. rewrite Z.div_add by lia.
  change (31 / 32) with 0. lia.
Qed.

Lemma read_be_last w n rest : 0 <= n < 2 ^ (8 * Z.of_nat w) -> read_be (Z.of_nat w) (within (be w n) rest) = (Ok n, within [] rest).
Proof. intros. rewrite <- (app_nil_r (be w n)). by apply read_be_within. Qed.

Lemma readHashRequest_within msg m p rest : typed msg ->
  readHashRequest m
    (within (m_PiecesRoot msg ++ be 4 (m_BaseLayer msg) ++ be 4 (m_Index msg) ++ be 4 (m_Length msg) ++ be 4 (m_ProofLayers msg) ++ p) rest)
  = (Ok (with_request msg m), within p rest).
Proof.
  intros (Hroot & _ & ? & ? & ? & ? & ? & _). unfold readHashRequest.
  assert (forall q, ReadFull 32 (within (m_PiecesRoot msg ++ q) rest) = (Ok (m_PiecesRoot msg), within q rest)) as ->.
  { intros q. rewrite <- (ReadFull_within (m_PiecesRoot msg) q rest). by rewrite Hroot. }
  change 4 with (Z.of_nat 4) in |- *. by rewrite !read_be_within by assumption.
Qed.

Lemma readHashes_within msg m rest : typed msg -> m_Hashes m = [] ->
  readHashes m
    (within (m_PiecesRoot msg ++ be 4 (m_BaseLayer msg) ++ be 4 (m_Index msg) ++ be 4 (m_Length msg) ++ be 4 (m_ProofLayers msg)
             ++ concat (m_Hashes msg)) rest)
  = (Ok ((with_request msg m) <| m_Hashes := m_Hashes msg |>), within [] rest).
Proof.
  intros Ht Hm. pose proof Ht as (_ & Hf & _). unfold readHashes. rewrite readHashRequest_within by done. cbv zeta.
  rewrite hash_count by done. pose proof (read_hashes_within _ rest Hf) as E.
  destruct (m_Hashes msg) as [|h hs]; [done|]. cbn [length] in *. by rewrite E.
Qed.

(** The fields after the type of a message that was written. *)
Lemma readMessageAfterType_within d msg body rest :
  typed msg -> m_Keepalive msg = false -> payload msg = Ok (type_byte (m_Type msg) :: body) -> fits d msg ->
  readMessageAfterType (d_Pool d) (zero_message <| m_Type := m_Type msg |>) (within body rest) = (Ok (received msg), within [] rest).
Proof.
  intros Ht Hk Hp Hfit. specialize (Hfit _ Hp) as (_ & _ & Hpool). specialize (Hpool Hk).
  unfold payload in Hp. rewrite Hk in Hp. unfold received. rewrite Hk. pose proof Ht as (_ & _ & ? & ? & ? & ? & ? & ? & _).
  unfold readMessageAfterType. change (m_Type (zero_message <| m_Type := m_Type msg |>)) with (m_Type msg).
  change 4 with (Z.of_nat 4). change 2 with (Z.of_nat 2).
  destruct (m_Type msg) eqn:T; try discriminate Hp; injection Hp as [= <-]; try done.
  all: rewrite ?read_be_within, ?read_be_last by assumption; try done.
  - rewrite <- unmarshal_marshal. by rewrite ReadFull_rest.
  - rewrite ReadFull_rest. specialize (Hpool eq_refl). cbn [er_N within]. destruct (d_Pool d) as [capacity|]; [|done].
    by destruct (Z.ltb_spec capacity (Z.of_nat (length (m_Piece msg)))); [lia|].
  - by rewrite ReadByte_within, ReadFull_rest.
  - rewrite <- (app_nil_r (be 4 (m_ProofLayers msg))). by rewrite readHashRequest_within.
  - by rewrite readHashes_within.
  - rewrite <- (app_nil_r (be 4 (m_ProofLayers msg))). by rewrite readHashRequest_within.
Qed.

Ltac invert_reads := repeat match goal with
  | H : match ?m with (_, _) => _ end = (Ok _, _) |- _ =>
      let E := fresh "E" in destruct m as [[?|?] ?] eqn:E; [|discriminate H]
  | H : read_be 4 _ = (Ok _, _) |- _ => apply (read_be_inv 4) in H as [? ?]
  | H : read_be 2 _ = (Ok _, _) |- _ => apply (read_be_inv 2) in H as [? ?]
  | H : ReadByte _ = (Ok _, _) |- _ => apply wire_ReadByte_inv in H
  end.

Lemma read_hashes_inv count : forall r hs r', 0 <= er_N r -> read_hashes count r = (Ok hs, r') ->
  Forall (fun h => length h = 32%nat) hs /\ took (concat hs) r r'.
Proof.
  induction count as [|count IH]; intros r hs r' Hr; cbn [read_hashes].
  - intros [= <- <-]. split; [constructor|done].
  - intros H. invert_reads. injection H as <- <-. apply ReadFull_inv in E as [Ht Hl]; [|done].
    apply IH in E0 as [Hf Hs]; [|apply Ht]. split; [constructor; [lia|done]|]. by eapply took_app.
Qed.

Lemma readHashRequest_inv m r msg r' : readHashRequest m r = (Ok msg, r') ->
  exists root base index length proof,
    msg = m <| m_PiecesRoot := root |> <| m_BaseLayer := base |> <| m_Index := index |> <| m_Length := length |> <| m_ProofLayers := proof |> /\
    List.length root = 32%nat /\ u32 base /\ u32 index /\ u32 length /\ u32 proof /\
    took (root ++ be 4 base ++ be 4 index ++ be 4 length ++ be 4 proof) r r'.
Proof.
  unfold readHashRequest. intros H. invert_reads. apply ReadFull_inv in E as [Hroot Hl]; [|done].
  injection H as <- <-. eexists _, _, _, _, _. split; [reflexivity|]. split; [lia|]. split_and!; try done.
  repeat (eapply took_app; [eassumption|]). done.
Qed.

Lemma ReadFull_short n r e r' : 0 <= er_N r -> ReadFull n r = (Err e, r') -> 0 <= er_N r' /\ (er_N r' = 0 \/ er_R r' = []).
Proof.
  unfold ReadFull. intros Hn. case_match; [done|]. intros [= _ <-]. cbn [er_N er_R].
  split; [lia|]. destruct (Z.le_gt_cases (er_N r) (Z.of_nat (length (er_R r)))); [left; lia|right]. apply drop_ge. lia.
Qed.

Lemma read_be_short w r e r' : 0 <= er_N r -> read_be w r = (Err e, r') -> 0 <= er_N r' /\ (er_N r' = 0 \/ er_R r' = []).
Proof.
  unfold read_be. intros Hn. destruct (ReadFull w r) as [[b|e'] s] eqn:E; [done|]. intros [= _ <-]. by eapply ReadFull_short.
Qed.

Lemma readHashRequest_short m r e r' : 0 <= er_N r -> readHashRequest m r = (Err e, r') -> 0 <= er_N r' /\ (er_N r' = 0 \/ er_R r' = []).
Proof.
  unfold readHashRequest. intros Hn H.
  destruct (ReadFull 32 r) as [[root|] r1] eqn:E; [apply ReadFull_inv in E as [(_ & _ & H1) _]; [|done]|injection H as <- <-; by eapply ReadFull_short].
  do 4 (match goal with
    | H : context [read_be 4 ?r], Hr : 0 <= er_N ?r |- _ =>
        let E := fresh "E" in destruct (read_be 4 r) as [[?|?] ?] eqn:E;
        [apply (read_be_inv 4) in E as [(_ & _ & ?) _]|injection H as <- <-; by eapply read_be_short]
    end). done.
Qed.

Lemma readHashes_inv m r msg r' : 0 <= er_N r -> readHashes m r = (Ok msg, r') -> er_N r' = 0 ->
  exists request r1 hs, readHashRequest m r = (Ok request, r1) /\ msg = request <| m_Hashes := hs |> /\
    Forall (fun h => length h = 32%nat) hs /\ took (concat hs) r1 r'.
Proof.
  unfold readHashes. intros Hn. destruct (readHashRequest m r) as [request r1] eqn:E. cbv zeta. intros H H0.
  assert (0 <= er_N r1 /\ (is_ok request = true \/ er_N r1 = 0 \/ er_R r1 = [])) as [Hr1 Hreq].
  { destruct request as [request|e]; [apply readHashRequest_inv in E as (? & ? & ? & ? & ? & _ & _ & _ & _ & _ & _ & _ & _ & ?); tauto|].
    apply readHashRequest_short in E; [tauto|done]. }
  destruct (Z.to_nat ((er_N r1 + 31) / 32)) as [|count] eqn:Ec.
  - destruct request as [request|e]; [|done]. injection H as <- <-. exists request, r1, []. split_and!; try done. 
  - destruct request as [request|e].
    + destruct (read_hashes (S count) r1) as [[hs|] r2] eqn:Es; [|done]. injection H as <- <-.
      apply read_hashes_inv in Es as [Hf Ht]; [|done]. by exists request, r1, hs.
    + exfalso. destruct Hreq as [|[Hz|Hz]]; [done|by rewrite Hz in Ec|]. cbn [read_hashes] in H. unfold ReadFull in H. rewrite Hz in H.
      destruct (Z.leb_spec 32 (Z.min (er_N r1) (Z.of_nat (length (@nil byte))))); [simpl in *; lia|done].
Qed.

Lemma received_bitfield b :
  (unmarshalBitfield b ++ replicate (8 * ((length (unmarshalBitfield b) + 7) / 8) - length (unmarshalBitfield b)) false)%list
  = unmarshalBitfield b.
Proof. by rewrite <- unmarshal_marshal, marshal_unmarshal. Qed.

Ltac solve_typed := unfold typed; cbn; split_and!; first [assumption | done | by constructor | unfold u32; lia].

(** [msg] is a message of type [t] that is written to the bytes that were read. *)
Definition decoded (pool : option Z) (t : MessageType) (r r' : expectReader) (msg : Message) : Prop :=
  m_Type msg = t /\ m_Keepalive msg = false /\ typed msg /\ received msg = msg /\
  (exists body, payload msg = Ok (type_byte t :: body) /\ took body r r') /\
  (t = Piece -> match pool with Some capacity => Z.of_nat (length (m_Piece msg)) <= capacity | None => True end).

Lemma decoded_intro pool t r r' msg body :
  payload msg = Ok (type_byte t :: body) -> took body r r' ->
  m_Type msg = t -> m_Keepalive msg = false -> received msg = msg -> typed msg ->
  (t = Piece -> match pool with Some capacity => Z.of_nat (length (m_Piece msg)) <= capacity | None => True end) ->
  decoded pool t r r' msg.
Proof. intros. unfold decoded. split_and!; try done. by exists body. Qed.

Lemma request_inv pool t r msg r' : t = HashRequest \/ t = HashReject ->
  readHashRequest (zero_message <| m_Type := t |>) r = (Ok msg, r') -> decoded pool t r r' msg.
Proof.
  intros Ht H. apply readHashRequest_inv in H as (root & base & index & length & proof & -> & Hroot & ? & ? & ? & ? & Htook).
  eapply decoded_intro; [|exact Htook|..]; destruct Ht as [-> | ->]; try done; solve_typed.
Qed.

Lemma hashes_inv pool r msg r' : 0 <= er_N r ->
  readHashes (zero_message <| m_Type := Hashes |>) r = (Ok msg, r') -> er_N r' = 0 -> decoded pool Hashes r r' msg.
Proof.
  intros Hn H H0. apply readHashes_inv in H as (request & r1 & hs & H & -> & Hf & Hs); [|done..].
  apply readHashRequest_inv in H as (root & base & index & length & proof & -> & Hroot & ? & ? & ? & ? & Htook).
  pose proof (took_app _ _ _ _ _ Htook Hs) as E. rewrite <- !app_assoc in E.
  eapply decoded_intro; [|exact E|..]; first [reflexivity | solve_typed | discriminate].
Qed.

Lemma readMessageAfterType_inv pool t r msg r' : 0 <= er_N r -> type_of (type_byte t) = t ->
  readMessageAfterType pool (zero_message <| m_Type := t |>) r = (Ok msg, r') -> er_N r' = 0 -> decoded pool t r r' msg.
Proof.
  intros Hn Ht H H0. unfold readMessageAfterType in H. change (m_Type (zero_message <| m_Type := t |>)) with t in H.
  destruct t; try discriminate H.
  all: try (injection H as <- <-; eapply (decoded_intro _ _ _ _ _ []); try done; solve_typed).
  all: invert_reads.
  all: try (injection H as <- <-; eapply decoded_intro; [reflexivity|repeat (eapply took_app; [eassumption|]); eassumption|try done..]; solve_typed).
  - apply ReadFull_inv in E as [Htook _]; [|done]. injection H as <- <-.
    eapply (decoded_intro _ _ _ _ _ a); try solve [done | solve_typed].
    + unfold payload. cbn. by rewrite marshal_unmarshal.
    + unfold received. cbn. by rewrite received_bitfield.
  - destruct (match pool with Some capacity => _ | None => _ end) eqn:Hpool; [done|]. invert_reads. injection H as <- <-.
    match goal with H : took _ _ ?e, E : ReadFull (er_N ?e) _ = _ |- _ =>
      pose proof H as (_ & _ & Hle); apply ReadFull_inv in E as [Htook Hl]; [|done] end.
    eapply decoded_intro; [reflexivity|repeat (eapply took_app; [eassumption|]); eassumption|try solve [done | solve_typed]..].
    intros _. destruct pool as [capacity|]; [|done]. apply Z.ltb_ge in Hpool. cbn. lia.
  - pose proof E as (_ & _ & He). apply ReadFull_inv in E0 as [Htook _]; [|done]. injection H as <- <-.
    eapply decoded_intro; [reflexivity|exact (took_app [_] _ _ _ _ E Htook)|try solve [done | solve_typed]..].
  - apply request_inv; tauto.
  - by apply hashes_inv.
  - apply request_inv; tauto.
Qed.

Lemma read_conn_app b rest : read_conn (length b) (b ++ rest) = (Ok b, rest).
Proof.
  unfold read_conn. rewrite length_app. destruct (Nat.leb_spec (length b) (length b + length rest)); [|lia].
  by rewrite take_app_length, drop_app_length.
Qed.

Lemma read_conn_inv n input b rest : read_conn n input = (Ok b, rest) -> input = (b ++ rest)%list /\ length b = n.
Proof. unfold read_conn. case_match eqn:E; [|done]. apply Nat.leb_le in E. intros [= <- <-]. rewrite take_drop, length_take. split; [done|lia]. Qed.

Lemma payload_cons msg p : payload msg = Ok p ->
  (m_Keepalive msg = true /\ p = []) \/ (m_Keepalive msg = false /\ exists body, p = type_byte (m_Type msg) :: body).
Proof.
  unfold payload. destruct (m_Keepalive msg); [intros [= <-]; tauto|]. right. split; [done|].
  destruct (m_Type msg); try discriminate; injection H as <-; eauto.
Qed.

Lemma Decode_marshal d msg enc rest : typed msg -> fits d msg -> MarshalBinary msg = Ok enc ->
  Decode d zero_message (enc ++ rest) = (Ok (received msg), rest).
Proof.
  intros Ht Hf. rewrite MarshalBinary_payload. destruct (payload msg) as [p|] eqn:Hp; [|done]. intros [= <-].
  pose proof (Hf _ Hp) as (H32 & Hmax & _). rewrite Z.mod_small by lia. unfold Decode.
  pose proof (read_conn_app (be 4 (Z.of_nat (length p))) (p ++ rest)) as E. rewrite be_length, app_assoc in E. rewrite E, from_be_be by (simpl; lia).
  destruct (Z.gtb_spec (Z.of_nat (length p)) (d_MaxLength d)); [lia|].
  destruct (payload_cons _ _ Hp) as [[Hk ->]|[Hk [body ->]]].
  - unfold received. by rewrite Hk.
  - destruct (Z.eqb_spec (Z.of_nat (length (type_byte (m_Type msg) :: body))) 0); [cbn [length] in *; lia|]. fold (within (type_byte (m_Type msg) :: body) rest).
    rewrite ReadByte_within. destruct Ht as (? & ? & ? & ? & ? & ? & ? & ? & Htype). rewrite Htype.
    rewrite readMessageAfterType_within by (unfold typed; tauto). done.
Qed.

Lemma type_of_byte b : type_byte (type_of b) = b /\ type_of (type_byte (type_of b)) = type_of b.
Proof. by destruct b. Qed.

Lemma wire_Decode_inv d input msg rest : Decode d zero_message input = (Ok msg, rest) ->
  typed msg /\ received msg = msg /\ fits d msg /\ exists enc, MarshalBinary msg = Ok enc /\ input = (enc ++ rest)%list.
Proof.
  unfold Decode. destruct (read_conn 4 input) as [[b|] rest'] eqn:E; [|done]. apply read_conn_inv in E as [-> Hb].
  pose proof (from_be_range b) as Hr. pose proof (be_from_be b) as Hbe. rewrite Hb in Hr, Hbe. change (8 * Z.of_nat 4) with 32 in Hr.
  set (n := from_be b) in *. destruct (Z.gtb_spec n (d_MaxLength d)); [done|]. destruct (Z.eqb_spec n 0) as [Hn|Hn].
  - intros [= <- <-]. assert (payload (zero_message <| m_Keepalive := true |>) = Ok []) as Hp by done.
    split; [solve_typed|]. split; [done|]. split; [|eexists; rewrite MarshalBinary_payload, Hp; split; [reflexivity|by rewrite <- Hbe, Hn]].
    intros p. rewrite Hp. intros [= <-]. cbn. split_and!; [done|lia|done].
  - intros HD. destruct (ReadByte (mkReader rest' n)) as [[c|] r1] eqn:Ec; [|done]. apply wire_ReadByte_inv in Ec as (HR & HN & Hpos).
    cbn [er_R er_N] in HR, HN. destruct (type_of_byte c) as [Hc1 Hc2].
    destruct (readMessageAfterType _ _ r1) as [[m|] r2] eqn:Em; [|done]. destruct (Z.eqb_spec (er_N r2) 0) as [Hz|]; [|done].
    injection HD as <- <-. apply readMessageAfterType_inv in Em as (Ht & Hk & Hty & Hrec & (body & Hp & HR2 & HN2 & _) & Hpool); [|done..].
    rewrite Hc1 in Hp. assert (Z.of_nat (length (c :: body)) = n) as Hlen by (cbn [length] in *; lia).
    split_and!; [done..| |].
    + intros p. rewrite Hp. intros [= <-]. split_and!; [lia..|]. intros _ HP. apply Hpool. congruence.
    + eexists. rewrite MarshalBinary_payload, Hp, Hlen, Z.mod_small by lia. split; [reflexivity|].
      rewrite Hbe, HR, HR2. by rewrite <- !app_assoc.
Qed.

Lemma marshal_length msg enc : MarshalBinary msg = Ok enc -> (4 <= length enc)%nat.
Proof.
  rewrite MarshalBinary_payload. destruct (payload msg) as [p|]; [|done]. intros [= <-]. rewrite length_app, be_length. lia.
Qed.

(** The messages and their encodings. *)
Definition encoded (d : Decoder) (msg : Message) (enc : list byte) : Prop :=
  typed msg /\ fits d msg /\ MarshalBinary msg = Ok enc.

Lemma read_messages_encoded d msgs encs : Forall2 (encoded d) msgs encs -> forall fuel, (length (concat encs) < fuel)%nat ->
  read_messages fuel d (concat encs) = (map received msgs, Some ErrEOF).
Proof.
  induction 1 as [|msg enc msgs encs (Ht & Hf & Hm) _ IH]; intros [|fuel] Hfuel; try (cbn in Hfuel; lia); [done|].
  cbn [concat read_messages map] in *. rewrite (Decode_marshal d msg) by done. pose proof (marshal_length _ _ Hm).
  rewrite length_app in Hfuel. rewrite IH by lia. done.
Qed.

Lemma ReadFull_error n r e r' : ReadFull n r = (Err e, r') -> e = ErrUnexpectedEOF.
Proof. unfold ReadFull. case_match; congruence. Qed.

Lemma read_be_error n r e r' : read_be n r = (Err e, r') -> e = ErrUnexpectedEOF.
Proof. unfold read_be. destruct (ReadFull n r) as [[]] eqn:E; [done|]. apply ReadFull_error in E. congruence. Qed.

Lemma ReadByte_error r e r' : ReadByte r = (Err e, r') -> e = ErrUnexpectedEOF.
Proof. unfold ReadByte. repeat case_match; congruence. Qed.

Ltac invert_errors := repeat match goal with
  | H : match ?m with (_, _) => _ end = (Err _, _) |- _ =>
      let E := fresh "E" in destruct m as [[?|?] ?] eqn:E; [try discriminate H|injection H as ? ?; subst]
  | H : read_be _ _ = (Err _, _) |- _ => apply read_be_error in H; congruence
  | H : ReadByte _ = (Err _, _) |- _ => apply ReadByte_error in H; congruence
  | H : ReadFull _ _ = (Err _, _) |- _ => apply ReadFull_error in H; congruence
  end.

Lemma readHashRequest_error m r e r' : readHashRequest m r = (Err e, r') -> e ≠ ErrEOF.
Proof. unfold readHashRequest. intros H ->. invert_errors. Qed.

Lemma read_hashes_error count : forall r e r', read_hashes count r = (Err e, r') -> e ≠ ErrEOF.
Proof.
  induction count as [|count IH]; intros r e r'; cbn [read_hashes]; [done|]. intros H ->. invert_errors. by eapply IH.
Qed.

Lemma readMessageAfterType_error pool m r e r' : readMessageAfterType pool m r = (Err e, r') -> e ≠ ErrEOF.
Proof.
  unfold readMessageAfterType. intros H ->. destruct (m_Type m); try discriminate H; invert_errors.
  all: try (by apply readHashRequest_error in H).
  - destruct (match pool with Some capacity => _ | None => _ end); [done|]. invert_errors.
  - unfold readHashes in H. destruct (readHashRequest m r) as [[request|e] r1] eqn:E; cbv zeta in H;
      [|apply readHashRequest_error in E]; destruct (Z.to_nat _); try congruence;
      destruct (read_hashes _ r1) as [[]] eqn:Eh; try congruence; apply read_hashes_error in Eh; congruence.
Qed.

(** A clean end of the stream is an end before a message. *)
Lemma Decode_eof d input rest : Decode d zero_message input = (Err ErrEOF, rest) -> input = [].
Proof.
  unfold Decode. destruct (read_conn 4 input) as [[b|e] rest'] eqn:E.
  - clear E. intros H. do 2 (case_match; [done|]). destruct (ReadByte _) as [[c|e] r1] eqn:Ec; [|apply ReadByte_error in Ec; congruence].
    destruct (readMessageAfterType _ _ r1) as [[m|e] r2] eqn:Em; [by destruct (negb _)|]. apply readMessageAfterType_error in Em. congruence.
  - unfold read_conn in E. case_match; [done|]. destruct input; [done|]. intros [= -> ->]. discriminate E.
Qed.

Lemma read_messages_inv d fuel : forall input msgs, read_messages fuel d input = (msgs, Some ErrEOF) ->
  Forall (fun msg => received msg = msg) msgs /\ exists encs, Forall2 (encoded d) msgs encs /\ input = concat encs.
Proof.
  induction fuel as [|fuel IH]; intros input msgs; cbn [read_messages]; [done|].
  destruct (Decode d zero_message input) as [[msg|e] rest] eqn:E.
  - apply wire_Decode_inv in E as (Ht & Hr & Hf & enc & Hm & ->). destruct (read_messages fuel d rest) as [msgs' e] eqn:Em. intros [= <- ->].
    apply IH in Em as (Hfa & encs & Hencs & ->). split; [by constructor|]. exists (enc :: encs). split; [by constructor|done].
  - intros [= <- ->]. split; [constructor|]. exists []. split; [constructor|]. by eapply Decode_eof.
Qed.

(** *** The handshake *)

Lemma land_bit c k : 0 <= k -> negb (Z.land c (Z.shiftl 1 k) =? 0) = Z.testbit c k.
Proof.
  intros Hk. rewrite Z.shiftl_1_l. destruct (Z.testbit c k) eqn:E.
  - apply negb_true_iff, Z.eqb_neq. intros H. apply (f_equal (fun z => Z.testbit z k)) in H.
    rewrite Z.land_spec, Z.pow2_bits_true, E, Z.testbit_0_l in H by lia. done.
  - apply negb_false_iff, Z.eqb_eq, Z.bits_inj'. intros i Hi. rewrite Z.land_spec, Z.testbit_0_l.
    destruct (decide (i = k)) as [->|]; [by rewrite E|]. by rewrite Z.pow2_bits_false, andb_false_r by lia.
Qed.

Lemma GetBit_testbit pex bit : length pex = 8%nat -> (bit < 64)%nat ->
  exists c, pex !! (7 - bit / 8)%nat = Some c /\ GetBit pex bit = Some (Z.testbit (byte.unsigned c) (Z.of_nat bit mod 8)).
Proof.
  intros Hl Hb. destruct (lookup_lt_is_Some_2 pex (7 - bit / 8)) as [c Hc]; [lia|]. exists c. split; [done|]. unfold GetBit.
  destruct (Nat.ltb_spec bit 64); [|lia]. rewrite Hc. cbn. rewrite land_bit by (apply Z.mod_pos_bound; lia). done.
Qed.

Lemma SetBit_true pex bit : length pex = 8%nat -> (bit < 64)%nat ->
  exists pex', SetBit pex bit true = Some pex' /\ length pex' = 8%nat /\
  forall i, (i < 64)%nat -> GetBit pex' i = if (i =? bit)%nat then Some true else GetBit pex i.
Proof.
  intros Hl Hb. unfold SetBit. destruct (Nat.ltb_spec bit 64); [|lia]. eexists. split; [reflexivity|].
  split; [by rewrite length_alter|]. intros i Hi.
  set (pex' := alter _ _ _). assert (length pex' = 8%nat) as Hl' by (subst pex'; by rewrite length_alter).
  destruct (GetBit_testbit pex' i Hl' Hi) as (c' & Hc' & ->). destruct (GetBit_testbit pex i Hl Hi) as (c & Hc & ->). subst pex'.
  pose proof (Z.mod_pos_bound (Z.of_nat i) 8). pose proof (Z.mod_pos_bound (Z.of_nat bit) 8).
  destruct (decide (7 - i / 8 = 7 - bit / 8)%nat) as [E|E].
  - rewrite E in Hc, Hc'. rewrite list_lookup_alter_eq, Hc in Hc'. injection Hc' as <-. rewrite or_bit by lia.
    assert (i / 8 = bit / 8)%nat as Hq.
    { pose proof (Nat.Div0.div_lt_upper_bound i 8 8). pose proof (Nat.Div0.div_lt_upper_bound bit 8 8). lia. }
    rewrite <- (place_split i bit Hq). destruct (Z.eqb_spec (7 - Z.of_nat i mod 8) (7 - Z.of_nat bit mod 8)), (Z.eqb_spec (Z.of_nat i mod 8) (Z.of_nat bit mod 8)); try lia; done.
  - rewrite list_lookup_alter_ne, Hc in Hc' by congruence. injection Hc' as <-. destruct (Nat.eqb_spec i bit) as [->|]; done.
Qed.

Lemma NewPeerExtensionBytes_spec bits : Forall (fun b => b < 64)%nat bits ->
  exists pex, NewPeerExtensionBytes bits = Some pex /\ length pex = 8%nat /\
  forall i, (i < 64)%nat -> GetBit pex i = Some (bool_decide (i ∈ bits)).
Proof.
  intros Hf. unfold NewPeerExtensionBytes.
  assert (forall pex, length pex = 8%nat -> exists pex', set_bits pex bits = Some pex' /\ length pex' = 8%nat /\
    forall i, (i < 64)%nat -> GetBit pex' i = if bool_decide (i ∈ bits) then Some true else GetBit pex i) as H.
  { induction Hf as [|b bits Hb _ IH]; intros pex Hl; cbn [set_bits].
    - by exists pex.
    - destruct (SetBit_true pex b Hl Hb) as (pex1 & -> & Hl1 & H1). destruct (IH pex1 Hl1) as (pex2 & E & Hl2 & H2). cbn. exists pex2.
      split_and!; [done..|]. intros i Hi. rewrite H2, H1 by done. do 2 case_bool_decide; destruct (Nat.eqb_spec i b); set_solver. }
  destruct (H (replicate 8 x00)) as (pex & E & Hl & Hb); [done|]. exists pex. split_and!; [done..|]. intros i Hi. rewrite Hb by done.
  case_bool_decide; [done|]. destruct (GetBit_testbit (replicate 8 x00) i) as (c & Hc & ->); [done..|].
  apply lookup_replicate in Hc as [-> _]. f_equal. apply Z.testbit_0_l.
Qed.

Lemma Handshake_reads ih peerID ext bits hash id rest : length bits = 8%nat -> length hash = 20%nat -> length id = 20%nat ->
  Handshake ih peerID ext (Protocol ++ bits ++ hash ++ id ++ rest) =
  (Ok (mkHandshake bits id hash),
   (first_posts ih peerID ext ++ match ih with Some _ => [] | None => [hash; peerID] end)%list, rest).
Proof.
  intros Hb Hh Hi. unfold Handshake.
  pose proof (read_conn_app (Protocol ++ bits ++ hash ++ id) rest) as E. rewrite !length_app, Hb, Hh, Hi, <- !app_assoc in E.
  change (length Protocol + (8 + (20 + 20)))%nat with 68%nat in E. rewrite E. rewrite take_app_length, bool_decide_false by auto.
  cbv zeta. rewrite drop_app_length. rewrite (take_app_length' bits), (drop_app_length' bits) by done.
  by rewrite (take_app_length' hash), (drop_app_length' hash), (take_ge id) by (done || lia).
Qed.

(** ** Properties *)

(** C20: the wire format.  Any sequence of messages that fit the decoder of a
    connection is read back in order, followed by a clean end of the stream: each
    with the fields its type has, a bit field filled up to whole bytes.
    Conversely, if a stream is read to a clean end, then it consists of exactly the
    encodings of the messages that were read: nothing is skipped, and no message
    has a second encoding. *)
Theorem wire_stream_round_trip (d : Decoder) :
  (forall msgs encs, Forall2 (encoded d) msgs encs ->
     read_messages (S (length (concat encs))) d (concat encs) = (map received msgs, Some ErrEOF)) /\
  (forall input msgs, read_messages (S (length input)) d input = (msgs, Some ErrEOF) ->
     Forall (fun msg => received msg = msg) msgs /\ exists encs, Forall2 (encoded d) msgs encs /\ input = concat encs).
Proof. split; [intros msgs encs H; apply read_messages_encoded; [done|lia]|intros input msgs; apply read_messages_inv]. Qed.

(** the handshake.  A peer that offers a torrent and one that accepts it agree:
    from what the other one posts, each learns the other's identity and the
    torrent's hash, and sees exactly the extension bits the other one set; what
    follows on the streams is untouched.  The offering peer posts everything before
    it reads, and the accepting one needs no more than that. *)
Theorem handshake_agrees (ih id_a id_b : list byte) (bits_a bits_b : list nat) (rest_a rest_b : list byte) :
  length ih = 20%nat -> length id_a = 20%nat -> length id_b = 20%nat ->
  Forall (fun b => b < 64)%nat bits_a -> Forall (fun b => b < 64)%nat bits_b ->
  exists ext_a ext_b posts_a posts_b,
    NewPeerExtensionBytes bits_a = Some ext_a /\ NewPeerExtensionBytes bits_b = Some ext_b /\
    Handshake (Some ih) id_a ext_a (concat posts_b ++ rest_b) = (Ok (mkHandshake ext_b id_b ih), posts_a, rest_b) /\
    Handshake None id_b ext_b (concat posts_a ++ rest_a) = (Ok (mkHandshake ext_a id_a ih), posts_b, rest_a) /\
    first_posts (Some ih) id_a ext_a = posts_a /\
    (forall i, (i < 64)%nat -> GetBit ext_a i = Some (bool_decide (i ∈ bits_a)) /\ GetBit ext_b i = Some (bool_decide (i ∈ bits_b))).
Proof.
  intros Hih Ha Hb Hfa Hfb. destruct (NewPeerExtensionBytes_spec _ Hfa) as (ext_a & Ea & La & Ga).
  destruct (NewPeerExtensionBytes_spec _ Hfb) as (ext_b & Eb & Lb & Gb).
  exists ext_a, ext_b, [Protocol; ext_a; ih; id_a], [Protocol; ext_b; ih; id_b]. split_and!; try done.
  - cbn [concat]. rewrite app_nil_r, <- !app_assoc, Handshake_reads by done. done.
  - cbn [concat]. rewrite app_nil_r, <- !app_assoc, Handshake_reads by done. done.
  - intros i Hi. by rewrite Ga, Gb.
Qed.

(** C39: [Message.UnmarshalBinary] decodes keep-alives only.  Its decoder is made
    without a maximal length, which is a maximum of zero: the encoding of every
    other message, if it is shorter than 4 GiB, is refused as too long. *)
Theorem unmarshal_binary_rejects (me msg : Message) (data : list byte) :
  MarshalBinary msg = Ok data -> Z.of_nat (length data) < 2 ^ 32 -> m_Keepalive msg = false ->
  UnmarshalBinary me data = Err ErrTooLong.
Proof.
  rewrite MarshalBinary_payload. destruct (payload msg) as [p|] eqn:Hp; [|done]. intros [= <-] Hl Hk.
  destruct (payload_cons _ _ Hp) as [[? _]|[_ [body ->]]]; [congruence|]. rewrite length_app, be_length in Hl.
  rewrite Z.mod_small by lia. unfold UnmarshalBinary, Decode.
  set (n := Z.of_nat (length (type_byte (m_Type msg) :: body))). pose proof (read_conn_app (be 4 n) (type_byte (m_Type msg) :: body)) as E. rewrite be_length in E. rewrite E.
  rewrite from_be_be by (subst n; simpl in *; lia). destruct (Z.gtb_spec n 0); [done|]. subst n. cbn [length] in *. lia.
Qed.

(** ** Examples *)

Definition sample_have : Message := zero_message <| m_Type := Have |> <| m_Index := 258 |>.

Lemma unmarshal_binary_rejects_witness :
  MarshalBinary sample_have = Ok [x00; x00; x00; x05; x04; x00; x00; x01; x02] /\
  UnmarshalBinary zero_message [x00; x00; x00; x05; x04; x00; x00; x01; x02] = Err ErrTooLong.
Proof. split; [vm_compute; reflexivity|]. apply (unmarshal_binary_rejects _ sample_have); by vm_compute. Defined.

Lemma handshake_agrees_witness :
  exists ext_a ext_b posts_a posts_b,
    NewPeerExtensionBytes [ExtensionBitDht; ExtensionBitLtep] = Some ext_a /\ NewPeerExtensionBytes [ExtensionBitFast] = Some ext_b /\
    Handshake (Some (replicate 20 x01)) (replicate 20 x02) ext_a (concat posts_b ++ []) =
      (Ok (mkHandshake ext_b (replicate 20 x03) (replicate 20 x01)), posts_a, []).
Proof.
  destruct (handshake_agrees (replicate 20 x01) (replicate 20 x02) (replicate 20 x03) [ExtensionBitDht; ExtensionBitLtep] [ExtensionBitFast] [] [])
    as (ext_a & ext_b & posts_a & posts_b & ? & ? & ? & _); try reflexivity; [repeat constructor; unfold ExtensionBitDht, ExtensionBitLtep, ExtensionBitFast; lia..|].
  by exists ext_a, ext_b, posts_a, posts_b.
Defined.

Definition sample_bitfield : Message := zero_message <| m_Type := Bitfield |> <| m_Bitfield := [true; false; true] |>.
Definition sample_stream : list byte :=
  [x00; x00; x00; x05; x04; x00; x00; x01; x02; x00; x00; x00; x02; x05; xa0].

Lemma sample_encoded : Forall2 (encoded (mkPeerDecoder None 100)) [sample_have; sample_bitfield]
  [[x00; x00; x00; x05; x04; x00; x00; x01; x02]; [x00; x00; x00; x02; x05; xa0]].
Proof.
  constructor; [|constructor; [|constructor]].
  all: split; [solve_typed|]; split; [|vm_compute; reflexivity].
  all: intros p Hp; vm_compute in Hp; injection Hp as <-; split; [done|]; split; [done|discriminate].
Qed.

Lemma wire_stream_round_trip_witness :
  read_messages 16 (mkPeerDecoder None 100) sample_stream =
  ([sample_have; sample_bitfield <| m_Bitfield := [true; false; true; false; false; false; false; false] |>], Some ErrEOF).
Proof. exact (proj1 (wire_stream_round_trip (mkPeerDecoder None 100)) _ _ sample_encoded). Defined.
