(* ===== verification/Bencode.v ===== *)
(** * Bencoding

    [pkg/anacrolix-torrent/bencode] for dynamically typed values: the decoder of
    [interface{}] values and of raw values ([decode.go]) and the encoder of the
    same values ([encode.go]).

    The decoder's panics are caught by [Decode] and returned as errors; here they
    are errors from the start. *)

From stdpp Require Import base list sorting.
From Stdlib Require Import ZArith Strings.Byte Lia.
From coqutil Require Import Byte.
From S2P Require Import Prelude.

#[local] Open Scope Z_scope.

#[export] Instance bencode_byte_eq_dec : EqDecision byte := Byte.byte_eq_dec.

Abbreviation bytes := (list byte).

(** ** Values *)

(** What an [interface{}] holds after decoding: [int64], [*big.Int], [string],
    [[]interface{}] or [map[string]interface{}].  A map is the list of its entries,
    in any order. *)
#[local] Unset Elimination Schemes.
Inductive value :=
| VInt (n : Z)
| VBig (n : Z)
| VString (s : bytes)
| VList (l : list value)
| VDict (d : list (bytes * value)).
#[local] Set Elimination Schemes.

Inductive bencode_error :=
| ErrUnexpectedEOF
| SyntaxError (offset : Z)
| ErrLeadingDigit
| ErrStrLen
| ErrShortString
| ErrUnexpectedEnd
| ErrUnusedTrailingBytes (n : Z)
| OutOfFuel.

(** The bytes [e], [d], [l], [i], [:] and [-]. *)
Definition c_e : byte := x65.
Definition c_d : byte := x64.
Definition c_l : byte := x6c.
Definition c_i : byte := x69.
Definition c_colon : byte := x3a.
Definition c_minus : byte := x2d.
Definition c_plus : byte := x2b.

Definition is_digit (b : byte) : bool := (48 <=? byte.unsigned b) && (byte.unsigned b <=? 57).
Definition digit_value (b : byte) : Z := byte.unsigned b - 48.

(** ** Numbers as text *)

Inductive num_error := ErrSyntax | ErrRange.

(** [strconv.ParseUint(s, 10, 64)], from the digits read so far. *)
Fixpoint parse_uint (s : bytes) (n : Z) : result num_error Z :=
  match s with
  | [] => Ok n
  | c :: s =>
      if negb (is_digit c) then Err ErrSyntax
      else if 2 ^ 64 / 10 + 1 <=? n then Err ErrRange
      else let n := n * 10 + digit_value c in if 2 ^ 64 <=? n then Err ErrRange else parse_uint s n
  end.

(** The sign of a number and its digits. *)
Definition signed (s : bytes) : bool * bytes :=
  match s with
  | c :: rest => if bool_decide (c = c_minus) then (true, rest) else if bool_decide (c = c_plus) then (false, rest) else (false, s)
  | [] => (false, s)
  end.

(** [strconv.ParseInt(s, 10, 64)]. *)
Definition ParseInt (s : bytes) : result num_error Z :=
  let '(neg, text) := signed s in
  match text with
  | [] => Err ErrSyntax
  | _ =>
      match parse_uint text 0 with
      | Err e => Err e
      | Ok n =>
          if negb neg && (2 ^ 63 <=? n) then Err ErrRange
          else if neg && (n >? 2 ^ 63) then Err ErrRange
          else Ok (if neg then - n else n)
      end
  end.

(** The value of a text of digits. *)
Definition digits_value (s : bytes) : Z := fold_left (fun n c => n * 10 + digit_value c) s 0.

(** [new(big.Int).SetString(s, 10)]. *)
Definition SetString (s : bytes) : option Z :=
  let '(neg, text) := signed s in
  match text with
  | [] => None
  | _ => if forallb is_digit text then Some (if neg then - digits_value text else digits_value text) else None
  end.

(** The decimal text of a number that is not negative; [fuel] bounds its digits. *)
Fixpoint decimal (fuel : nat) (n : Z) : bytes :=
  match fuel with
  | O => []
  | S fuel =>
      if n <? 10 then [byte.of_Z (48 + n)]
      else (decimal fuel (n / 10) ++ [byte.of_Z (48 + n mod 10)])%list
  end.

(** [strconv.AppendInt] and [big.Int.String]. *)
Definition format_int (n : Z) : bytes :=
  let text := decimal (S (Z.to_nat (Z.log2 (Z.abs n)))) (Z.abs n) in
  if n <? 0 then c_minus :: text else text.

(** ** Encoder *)

(** Go's order of strings: bytes first to last. *)
Fixpoint key_leb (a b : bytes) : bool :=
  match a, b with
  | [], _ => true
  | _ :: _, [] => false
  | x :: a, y :: b =>
      (byte.unsigned x <? byte.unsigned y) || ((byte.unsigned x =? byte.unsigned y) && key_leb a b)
  end.

Definition entry_le {A : Type} (x y : bytes * A) : Prop := key_leb (fst x) (fst y) = true.
#[export] Instance entry_le_dec {A : Type} : RelDecision (@entry_le A).
Proof. intros x y. unfold entry_le. apply _. Defined.

Definition writeStringPrefix (l : Z) : bytes := (format_int l ++ [c_colon])%list.
Definition reflectString (s : bytes) : bytes := (writeStringPrefix (Z.of_nat (length s)) ++ s)%list.

Definition reflect_entry (entry : bytes * bytes) : bytes := (reflectString (fst entry) ++ snd entry)%list.

(** [reflectValue]; the keys of a map are sorted. *)
Fixpoint reflectValue (v : value) : bytes :=
  match v with
  | VInt n | VBig n => (c_i :: format_int n ++ [c_e])%list
  | VString s => reflectString s
  | VList l => (c_l :: concat (map reflectValue l) ++ [c_e])%list
  | VDict d =>
      (c_d :: concat (map reflect_entry (merge_sort entry_le (map (fun '(k, v) => (k, reflectValue v)) d))) ++ [c_e])%list
  end.

Definition Marshal (v : value) : bytes := reflectValue v.

(** ** Decoder *)

Definition DefaultDecodeMaxStrLen : Z := Z.shiftl 1 27 - 1.

Record Decoder := mkBDecoder {
  d_r : bytes;
  d_Offset : Z;
  d_buf : bytes;
}.
#[export] Instance Decoder_eta : Eta Decoder := fun d => mkBDecoder (d_r d) (d_Offset d) (d_buf d).

Abbreviation decoding A := (result bencode_error (A * Decoder)).

(** The input after [n] bytes of it. *)
Definition advance (d : Decoder) (n : nat) : Decoder :=
  d <| d_r ::= drop n |> <| d_Offset ::= fun o => o + Z.of_nat n |>.

(** [d.r.ReadByte] with its error, the end of the input. *)
Definition ReadByte (d : Decoder) : decoding byte :=
  match d_r d with [] => Err ErrUnexpectedEOF | b :: _ => Ok (b, advance d 1) end.

Definition readByte (d : Decoder) : decoding byte :=
  match d_r d with [] => Err (SyntaxError (d_Offset d)) | b :: _ => Ok (b, advance d 1) end.

Fixpoint until (sep : byte) (r : bytes) : option bytes :=
  match r with
  | [] => None
  | b :: r => if bool_decide (b = sep) then Some [] else s ← until sep r; Some (b :: s)
  end.

(** What comes before [sep] goes to the buffer, [sep] is consumed. *)
Definition readUntil (sep : byte) (d : Decoder) : result bencode_error Decoder :=
  match until sep (d_r d) with
  | Some s => Ok ((advance d (S (length s))) <| d_buf ::= fun buf => (buf ++ s)%list |>)
  | None => Err (SyntaxError (d_Offset d + Z.of_nat (length (d_r d))))
  end.

Definition checkBufferedInt (buf : bytes) : bool :=
  match buf with
  | [] | [_] => true
  | c :: rest =>
      match (if bool_decide (c = c_minus) then rest else buf) with
      | c :: _ => (49 <=? byte.unsigned c) && (byte.unsigned c <=? 57)
      | [] => true
      end
  end.

Definition readInt (d : Decoder) : result bencode_error Decoder :=
  let? d := readUntil c_e d in
  if checkBufferedInt (d_buf d) then Ok d else Err ErrLeadingDigit.

(** Called after the [i]. *)
Definition parseIntInterface (d : Decoder) : decoding value :=
  let start := d_Offset d - 1 in
  let? d := readInt d in
  match ParseInt (d_buf d) with
  | Ok n => Ok (VInt n, d <| d_buf := [] |>)
  | Err ErrRange =>
      match SetString (d_buf d) with
      | Some n => Ok (VBig n, d <| d_buf := [] |>)
      | None => Err (SyntaxError start)
      end
  | Err ErrSyntax => Err (SyntaxError start)
  end.

(** The first digit of the length is in the buffer. *)
Definition parseStringLength (d : Decoder) : decoding Z :=
  let start := d_Offset d - 1 in
  let? d := readUntil c_colon d in
  if negb (checkBufferedInt (d_buf d)) then Err ErrLeadingDigit
  else
    match ParseInt (d_buf d) with
    | Err _ => Err (SyntaxError start)
    | Ok length => if length >? DefaultDecodeMaxStrLen then Err ErrStrLen else Ok (length, d <| d_buf := [] |>)
    end.

Definition parseStringInterface (d : Decoder) : decoding bytes :=
  match parseStringLength d with
  | Err e => Err e
  | Ok (n, d) =>
      if Z.of_nat (length (d_r d)) <? n then Err ErrShortString
      else Ok (take (Z.to_nat n) (d_r d), advance d (Z.to_nat n))
  end.

(** [parseValueInterface] with the loops of [parseListInterface] and
    [parseDictInterface]; [None] is the end [e] of the enclosing value. *)
Fixpoint parseValueInterface (fuel : nat) (d : Decoder) : decoding (option value) :=
  match fuel with
  | O => Err OutOfFuel
  | S fuel =>
      match ReadByte d with
      | Err e => Err e
      | Ok (b, d) =>
          if bool_decide (b = c_e) then Ok (None, d)
          else if bool_decide (b = c_d) then
            match parseDictInterface fuel d None with Ok (entries, d) => Ok (Some (VDict entries), d) | Err e => Err e end
          else if bool_decide (b = c_l) then
            match parseListInterface fuel d with Ok (l, d) => Ok (Some (VList l), d) | Err e => Err e end
          else if bool_decide (b = c_i) then
            match parseIntInterface d with Ok (v, d) => Ok (Some v, d) | Err e => Err e end
          else if is_digit b then
            match parseStringInterface (d <| d_buf ::= fun buf => (buf ++ [b])%list |>) with
            | Ok (s, d) => Ok (Some (VString s), d)
            | Err e => Err e
            end
          else Err (SyntaxError (d_Offset d - 1))
      end
  end
with parseListInterface (fuel : nat) (d : Decoder) : decoding (list value) :=
  match fuel with
  | O => Err OutOfFuel
  | S fuel =>
      match parseValueInterface fuel d with
      | Err e => Err e
      | Ok (None, d) => Ok ([], d)
      | Ok (Some v, d) => match parseListInterface fuel d with Ok (l, d) => Ok (v :: l, d) | Err e => Err e end
      end
  end
with parseDictInterface (fuel : nat) (d : Decoder) (lastKey : option bytes) : decoding (list (bytes * value)) :=
  match fuel with
  | O => Err OutOfFuel
  | S fuel =>
      let start := d_Offset d in
      match parseValueInterface fuel d with
      | Err e => Err e
      | Ok (None, d) => Ok ([], d)
      | Ok (Some (VString key), d) =>
          if match lastKey with Some last => key_leb key last | None => false end then Err (SyntaxError start)
          else
            let start := d_Offset d in
            match parseValueInterface fuel d with
            | Err e => Err e
            | Ok (None, d) => Err (SyntaxError start)
            | Ok (Some v, d) =>
                match parseDictInterface fuel d (Some key) with
                | Ok (entries, d) => Ok ((key, v) :: entries, d)
                | Err e => Err e
                end
            end
      | Ok (Some _, d) => Err (SyntaxError (d_Offset d))
      end
  end.

(** Every call but the loops consumes a byte. *)
Definition enough (d : Decoder) : nat := (2 * length (d_r d) + 2)%nat.

(** [Unmarshal(data, &v)] for an [interface{}] variable [v]. *)
Definition Unmarshal (data : bytes) : result bencode_error value :=
  let d := mkBDecoder data 0 [] in
  match parseValueInterface (enough d) d with
  | Err e => Err e
  | Ok (None, _) => Err ErrUnexpectedEnd
  | Ok (Some v, d) => if negb (length (d_r d) =? 0)%nat then Err (ErrUnusedTrailingBytes (Z.of_nat (length (d_r d)))) else Ok v
  end.

(** ** Raw values *)

(** [d.buf.WriteByte] and [d.buf.WriteString]. *)
Definition buffer (s : bytes) (d : Decoder) : Decoder := d <| d_buf ::= fun buf => (buf ++ s)%list |>.

(** A string in [readOneValue], after its first digit was buffered at [start]. *)
Definition read_one_string (start : nat) (d : Decoder) : decoding bool :=
  let? d := readUntil c_colon d in
  match ParseInt (drop start (d_buf d)) with
  | Err _ => Err (SyntaxError (d_Offset d - 1))
  | Ok n =>
      let d := buffer [c_colon] d in
      if Z.of_nat (length (d_r d)) <? n then Err (SyntaxError (d_Offset d + Z.of_nat (length (d_r d))))
      else Ok (true, buffer (take (Z.to_nat n) (d_r d)) (advance d (Z.to_nat n)))
  end.

(** [readOneValue]: [false] leaves an [e] unread; the loop reads values to the end. *)
Fixpoint readOneValue (fuel : nat) (d : Decoder) : decoding bool :=
  match fuel with
  | O => Err OutOfFuel
  | S fuel =>
      match d_r d with
      | [] => Err ErrUnexpectedEOF
      | b :: _ =>
          if bool_decide (b = c_e) then Ok (false, d)
          else
            let d := buffer [b] (advance d 1) in
            if bool_decide (b = c_d) || bool_decide (b = c_l) then
              match read_values fuel d with
              | Err e => Err e
              | Ok (_, d) => match readByte d with Ok (b, d) => Ok (true, buffer [b] d) | Err e => Err e end
              end
            else if bool_decide (b = c_i) then
              match readUntil c_e d with Ok d => Ok (true, buffer [c_e] d) | Err e => Err e end
            else if is_digit b then read_one_string (length (d_buf d) - 1) d
            else Err (SyntaxError (d_Offset d - 1))
      end
  end
with read_values (fuel : nat) (d : Decoder) : decoding unit :=
  match fuel with
  | O => Err OutOfFuel
  | S fuel =>
      match readOneValue fuel d with
      | Err e => Err e
      | Ok (false, d) => Ok (tt, d)
      | Ok (true, d) => read_values fuel d
      end
  end.

(** The raw value an [Unmarshaler] is given, such as [Bytes]; [None] if there is none. *)
Definition raw_value (d : Decoder) : decoding (option bytes) :=
  match readOneValue (enough d) (d <| d_buf := [] |>) with
  | Err e => Err e
  | Ok (ok, d) => Ok (if ok then Some (d_buf d) else None, d)
  end.
