(* ===== verification/BencodeText.v ===== *)
(** * Numbers in bencoding

    Decimal texts: a number has one text that the decoder accepts, the one the
    encoder writes, and it is read back up to its separator. *)

From stdpp Require Import base list sorting.
From Stdlib Require Import ZArith Strings.Byte Lia.
From coqutil Require Import Byte.
From S2P Require Import Prelude Bencode.

#[local] Open Scope Z_scope.

(** ** Decimal numbers *)

Lemma digit_byte k : 0 <= k < 10 -> is_digit (byte.of_Z (48 + k)) = true /\ digit_value (byte.of_Z (48 + k)) = k.
Proof.
  intros Hk. unfold is_digit, digit_value. rewrite byte.unsigned_of_Z. unfold byte.wrap. rewrite Z.mod_small by lia. lia.
Qed.

Lemma is_digit_value b : is_digit b = true -> 0 <= digit_value b < 10 /\ byte.of_Z (48 + digit_value b) = b.
Proof.
  unfold is_digit, digit_value. intros H. split; [lia|]. replace (48 + (byte.unsigned b - 48)) with (byte.unsigned b) by lia. apply byte.of_Z_unsigned.
Qed.

Lemma digits_value_snoc s c : digits_value (s ++ [c]) = digits_value s * 10 + digit_value c.
Proof. unfold digits_value. by rewrite fold_left_app. Qed.

Lemma fold_digits_ge s : forall n, forallb is_digit s = true -> 0 <= n ->
  n <= fold_left (fun n c => n * 10 + digit_value c) s n.
Proof.
  induction s as [|c s IH]; intros n Hs Hn; cbn in *; [lia|]. apply andb_true_iff in Hs as [Hc Hs].
  apply is_digit_value in Hc as [Hc _]. etransitivity; [|apply IH; [done|lia]]. lia.
Qed.

Lemma digits_value_nonneg s : forallb is_digit s = true -> 0 <= digits_value s.
Proof. intros. by apply fold_digits_ge. Qed.

(** A number without leading zeros. *)
Definition plain_digits (s : bytes) : Prop :=
  forallb is_digit s = true /\ match s with [] => False | [_] => True | c :: _ => 1 <= digit_value c end.

Lemma plain_positive c s : plain_digits (c :: s) -> 1 <= digit_value c -> 1 <= digits_value (c :: s).
Proof.
  intros [Hs _] Hc. cbn in Hs. apply andb_true_iff in Hs as [_ Hs]. unfold digits_value. cbn [fold_left].
  etransitivity; [exact Hc|]. pose proof (fold_digits_ge s (0 * 10 + digit_value c) Hs). lia.
Qed.

Lemma plain_snoc s c : plain_digits s -> 1 <= digits_value s -> is_digit c = true -> plain_digits (s ++ [c]).
Proof.
  intros [Hs Hh] Hv Hc. split; [by rewrite forallb_app, Hs; cbn; rewrite Hc|].
  destruct s as [|x [|y s]]; cbn; [done| |done]. unfold digits_value in Hv. cbn in Hv. lia.
Qed.

Lemma decimal_spec fuel : forall n, 0 <= n < 10 ^ Z.of_nat (S fuel) ->
  plain_digits (decimal (S fuel) n) /\ digits_value (decimal (S fuel) n) = n.
Proof.
  induction fuel as [|fuel IH]; intros n Hn; cbn [decimal]; destruct (Z.ltb_spec n 10) as [Hs|Hs].
  1,3: destruct (digit_byte n) as [Hd Hv]; [lia|]; unfold plain_digits, digits_value; cbn; rewrite Hd, Hv; split; [done|lia].
  - cbn in Hn. lia.
  - destruct (IH (n / 10)) as [Hp Hv].
    { split; [apply Z.div_pos; lia|]. apply Z.div_lt_upper_bound; [lia|]. rewrite <- Z.pow_succ_r by lia.
      replace (Z.succ (Z.of_nat (S fuel))) with (Z.of_nat (S (S fuel))) by lia. lia. }
    change (if n / 10 <? 10 then [byte.of_Z (48 + n / 10)] else (decimal fuel (n / 10 / 10) ++ [byte.of_Z (48 + (n / 10) mod 10)])%list)
      with (decimal (S fuel) (n / 10)).
    destruct (digit_byte (n mod 10)) as [Hd Hm]; [apply Z.mod_pos_bound; lia|].
    rewrite digits_value_snoc, Hv, Hm. split; [|pose proof (Z.div_mod n 10); lia].
    apply plain_snoc; [done| |done]. rewrite Hv. apply Z.div_le_lower_bound; lia.
Qed.

Lemma plain_init s c : plain_digits (s ++ [c]) -> s <> [] -> plain_digits s /\ 1 <= digits_value s.
Proof.
  intros [Hs Hh] Hne. rewrite forallb_app in Hs. apply andb_true_iff in Hs as [Hs _].
  destruct s as [|x s]; [done|]. assert (1 <= digit_value x) as Hx by (by destruct s).
  assert (plain_digits (x :: s)) as Hp by (split; [done|by destruct s]). split; [done|by apply plain_positive].
Qed.

Lemma decimal_unique s : plain_digits s -> forall fuel, digits_value s < 10 ^ Z.of_nat (S fuel) -> decimal (S fuel) (digits_value s) = s.
Proof.
  induction s as [|c s IH] using rev_ind; intros Hp fuel Hf; [by destruct Hp|].
  assert (is_digit c = true) as Hc. { destruct Hp as [Hs _]. rewrite forallb_app in Hs. cbn in Hs. by destruct (is_digit c), (forallb is_digit s). }
  apply is_digit_value in Hc as [Hc Hb]. cbn [decimal]. destruct (decide (s = [])) as [->|Hne].
  - replace (digits_value ([] ++ [c])) with (digit_value c) by (symmetry; apply (digits_value_snoc [] c)).
    destruct (Z.ltb_spec (digit_value c) 10); [|lia]. by rewrite Hb.
  - destruct (plain_init s c Hp Hne) as [Hps Hv]. rewrite digits_value_snoc in *.
    destruct (Z.ltb_spec (digits_value s * 10 + digit_value c) 10); [lia|].
    replace ((digits_value s * 10 + digit_value c) / 10) with (digits_value s) by (apply (Z.div_unique _ _ _ (digit_value c)); lia).
    replace ((digits_value s * 10 + digit_value c) mod 10) with (digit_value c) by (apply (Z.mod_unique _ _ (digits_value s)); lia).
    destruct fuel as [|fuel]; [cbn in Hf; lia|]. rewrite Hb, IH; [done|done|].
    rewrite (Nat2Z.inj_succ (S fuel)), Z.pow_succ_r in Hf by lia. lia.
Qed.

Lemma decimal_fuel n : 0 <= n -> n < 10 ^ Z.of_nat (S (Z.to_nat (Z.log2 n))).
Proof.
  intros Hn. destruct (Z.eq_dec n 0) as [->|]; [done|]. pose proof (Z.log2_nonneg n). rewrite Nat2Z.inj_succ, Z2Nat.id by done.
  eapply Z.lt_le_trans; [apply Z.log2_spec; lia|]. apply Z.pow_le_mono_l. lia.
Qed.

Lemma format_nonneg n : 0 <= n -> plain_digits (format_int n) /\ digits_value (format_int n) = n.
Proof.
  intros Hn. unfold format_int. destruct (Z.ltb_spec n 0); [lia|]. rewrite Z.abs_eq by done. apply decimal_spec.
  split; [done|by apply decimal_fuel].
Qed.

Lemma format_neg n : n < 0 -> exists s, format_int n = c_minus :: s /\ plain_digits s /\ digits_value s = - n.
Proof.
  intros Hn. unfold format_int. destruct (Z.ltb_spec n 0); [|lia]. rewrite Z.abs_neq by lia. eexists. split; [reflexivity|].
  apply decimal_spec. split; [lia|]. apply decimal_fuel. lia.
Qed.

(** A number that passes the decoder's test is the text of its value. *)
Lemma format_unique s neg text : signed s = (neg, text) -> checkBufferedInt s = true -> text <> [] -> forallb is_digit text = true ->
  s = format_int (if neg then - digits_value text else digits_value text).
Proof.
  intros Hs Hc Hne Hd. assert (plain_digits text /\ (neg = false -> s = text) /\ (neg = true -> s = c_minus :: text /\ 1 <= digits_value text)) as (Hp & Hpos & Hneg).
  { destruct s as [|c rest]; [cbn in Hs; simplify_eq|]. unfold signed in Hs. unfold checkBufferedInt in Hc.
    case_bool_decide as Hm; [|case_bool_decide as Hplus]; simplify_eq.
    - destruct text as [|x text]; [done|]. apply andb_true_iff in Hc as [Hc1 Hc2]. apply Z.leb_le in Hc1.
      assert (plain_digits (x :: text)) as Hp by (split; [done|unfold digit_value; destruct text; [done|lia]]).
      split_and!; [done..|]. intros _. split; [done|]. apply plain_positive; [done|]. unfold digit_value. lia.
    - by destruct text as [|x text].
    - split_and!; try done. split; [done|]. destruct rest; [done|]. apply andb_true_iff in Hc as [Hc1 _]. unfold digit_value. lia. }
  pose proof (digits_value_nonneg _ Hd). unfold format_int. destruct neg.
  - destruct (Hneg eq_refl) as [-> Hv]. destruct (Z.ltb_spec (- digits_value text) 0); [|lia]. rewrite Z.abs_opp, Z.abs_eq by lia.
    by rewrite decimal_unique by (done || by apply decimal_fuel).
  - rewrite Hpos by done. destruct (Z.ltb_spec (digits_value text) 0); [lia|]. rewrite Z.abs_eq by lia.
    by rewrite decimal_unique by (done || by apply decimal_fuel).
Qed.

(** ** Parsed numbers *)

Lemma parse_uint_spec s : forall n, 0 <= n ->
  match parse_uint s n with
  | Ok m => forallb is_digit s = true /\ m = fold_left (fun n c => n * 10 + digit_value c) s n /\ (n < 2 ^ 64 -> m < 2 ^ 64)
  | Err ErrRange => forallb is_digit s = true -> 2 ^ 64 <= fold_left (fun n c => n * 10 + digit_value c) s n
  | Err ErrSyntax => forallb is_digit s = false
  end.
Proof.
  induction s as [|c s IH]; intros n Hn; cbn [parse_uint forallb fold_left]; [done|].
  destruct (is_digit c) eqn:Hc; [|done]. cbn [negb andb]. apply is_digit_value in Hc as [Hc _].
  destruct (Z.leb_spec (2 ^ 64 / 10 + 1) n) as [Hcut|_].
  { intros Hs. etransitivity; [|apply fold_digits_ge; [done|lia]]. change (2 ^ 64 / 10) with 1844674407370955161 in Hcut. lia. }
  destruct (Z.leb_spec (2 ^ 64) (n * 10 + digit_value c)) as [Hov|Hov].
  { intros Hs. etransitivity; [exact Hov|]. apply fold_digits_ge; [done|lia]. }
  specialize (IH (n * 10 + digit_value c) ltac:(lia)). destruct (parse_uint s _) as [m|[]]; [|done..].
  destruct IH as (? & ? & Hm). split_and!; [done..|]. intros _. by apply Hm.
Qed.

(** What the decoder takes an integer's text for. *)
Definition int_value (s : bytes) : option value :=
  match ParseInt s with
  | Ok n => Some (VInt n)
  | Err ErrRange => VBig <$> SetString s
  | Err ErrSyntax => None
  end.

Definition typed_int (n : Z) : value := if bool_decide (in_i64 n) then VInt n else VBig n.

Lemma ParseInt_spec s neg text : signed s = (neg, text) ->
  let n := if neg then - digits_value text else digits_value text in
  match ParseInt s with
  | Ok m => text <> [] /\ forallb is_digit text = true /\ m = n /\ in_i64 n
  | Err ErrRange => text <> [] /\ (forallb is_digit text = true -> ~ in_i64 n)
  | Err ErrSyntax => text = [] \/ forallb is_digit text = false
  end.
Proof.
  intros Hs n. unfold ParseInt. rewrite Hs. destruct text as [|x text]; [by left|].
  pose proof (parse_uint_spec (x :: text) 0 ltac:(lia)) as H. fold (digits_value (x :: text)) in H.
  destruct (parse_uint (x :: text) 0) as [m|[]].
  - destruct H as (Hd & -> & _). pose proof (digits_value_nonneg _ Hd). subst n. unfold in_i64. destruct neg; cbn [negb andb].
    + destruct (Z.gtb_spec (digits_value (x :: text)) (2 ^ 63)); split_and!; try done; intros; lia.
    + destruct (Z.leb_spec (2 ^ 63) (digits_value (x :: text))); split_and!; try done; intros; lia.
  - by right.
  - split; [done|]. intros Hd. specialize (H Hd). subst n. unfold in_i64. destruct neg; lia.
Qed.

Lemma int_value_inv s v : int_value s = Some v -> checkBufferedInt s = true -> exists n, s = format_int n /\ v = typed_int n.
Proof.
  unfold int_value. destruct (signed s) as [neg text] eqn:Hs. pose proof (ParseInt_spec _ _ _ Hs) as H. cbv zeta in H.
  set (n := if neg then _ else _) in H. intros Hv Hc. exists n. unfold typed_int. destruct (ParseInt s) as [m|[]]; [|done|].
  - destruct H as (Hne & Hd & -> & Hi). simplify_eq. rewrite bool_decide_true by done. split; [|done]. by apply format_unique.
  - unfold SetString in Hv. rewrite Hs in Hv. destruct H as [Hne Hr]. destruct text as [|x text]; [done|].
    destruct (forallb is_digit (x :: text)) eqn:Hd; [|done]. cbn in Hv. injection Hv as <-.
    rewrite bool_decide_false by auto. split; [|by destruct neg]. by apply format_unique.
Qed.

Lemma plain_not_sign c s : plain_digits (c :: s) -> c <> c_minus /\ c <> c_plus.
Proof. intros [Hs _]. cbn in Hs. apply andb_true_iff in Hs as [Hc _]. split; intros ->; done. Qed.

Lemma signed_format n : exists text, signed (format_int n) = (n <? 0, text) /\ plain_digits text /\ digits_value text = Z.abs n.
Proof.
  destruct (Z.ltb_spec n 0) as [Hn|Hn].
  - destruct (format_neg n Hn) as (s & -> & Hp & Hv). exists s. cbn. split_and!; [done..|lia].
  - destruct (format_nonneg n Hn) as [Hp Hv]. exists (format_int n). destruct (format_int n) as [|c s]; [by destruct Hp|].
    destruct (plain_not_sign _ _ Hp). unfold signed. rewrite !bool_decide_false by done. split_and!; [done..|lia].
Qed.

Lemma int_value_format n : int_value (format_int n) = Some (typed_int n).
Proof.
  destruct (signed_format n) as (text & Hs & [Hd Hh] & Hv). pose proof (ParseInt_spec _ _ _ Hs) as H. cbv zeta in H. rewrite Hv in H.
  replace (if n <? 0 then - Z.abs n else Z.abs n) with n in H by (destruct (Z.ltb_spec n 0); lia).
  unfold int_value, typed_int. destruct (ParseInt (format_int n)) as [m|[]].
  - destruct H as (_ & _ & -> & Hi). by rewrite bool_decide_true.
  - destruct H as [->|H]; [done|congruence].
  - unfold SetString. rewrite Hs. destruct H as [Hne Hr]. destruct text as [|x text]; [done|]. rewrite Hd, Hv. cbn.
    rewrite bool_decide_false by auto. do 2 f_equal. destruct (Z.ltb_spec n 0); lia.
Qed.

Lemma ParseInt_format n : in_i64 n -> ParseInt (format_int n) = Ok n.
Proof.
  intros Hi. pose proof (int_value_format n) as H. unfold int_value, typed_int in H. rewrite bool_decide_true in H by done.
  destruct (ParseInt (format_int n)) as [m|[]]; [congruence|done|]. by destruct (SetString _).
Qed.

Lemma checkBufferedInt_format n : checkBufferedInt (format_int n) = true.
Proof.
  assert (forall c s, plain_digits (c :: s) -> s <> [] -> (49 <=? byte.unsigned c) && (byte.unsigned c <=? 57) = true) as Hl.
  { intros c s [Hs Hh] Hne. destruct s; [done|]. cbn in Hs. apply andb_true_iff in Hs as [Hc _].
    unfold is_digit in Hc. unfold digit_value in Hh. lia. }
  destruct (Z.lt_ge_cases n 0) as [Hn|Hn].
  - destruct (format_neg n Hn) as (s & -> & Hp & Hv). destruct s as [|c s]; [by destruct Hp|]. cbn. rewrite bool_decide_true by done.
    destruct (decide (s = [])) as [->|]; [|by eapply Hl]. change [c] with ([] ++ [c])%list in Hv. rewrite digits_value_snoc in Hv.
    change (digits_value []) with 0 in Hv. destruct Hp as [Hs _]. cbn [forallb] in Hs. apply andb_true_iff in Hs as [Hs _].
    unfold is_digit in Hs. unfold digit_value in Hv. lia.
  - destruct (format_nonneg n Hn) as [Hp _]. destruct (format_int n) as [|c [|c2 s]]; [done..|].
    unfold checkBufferedInt. destruct (plain_not_sign _ _ Hp). rewrite bool_decide_false by done. by eapply Hl.
Qed.

(** Digits are none of the separators. *)
Lemma format_separators n c : c ∈ format_int n -> c <> c_e /\ c <> c_colon.
Proof.
  assert (forall s, plain_digits s -> c ∈ s -> c <> c_e /\ c <> c_colon) as Hd.
  { intros s [Hs _] Hc. rewrite forallb_forall in Hs. specialize (Hs c (proj1 (list_elem_of_In _ _) Hc)). split; intros ->; done. }
  destruct (Z.lt_ge_cases n 0) as [Hn|Hn].
  - destruct (format_neg n Hn) as (s & -> & Hp & _). intros [->|H]%elem_of_cons; [done|by eapply Hd].
  - apply Hd, (format_nonneg n Hn).
Qed.

(** ** Reading *)

Lemma until_app sep s r : sep ∉ s -> until sep (s ++ sep :: r) = Some s.
Proof.
  induction s as [|c s IH]; intros H; cbn; [by rewrite bool_decide_true|]. apply not_elem_of_cons in H as [Hc Hs].
  rewrite bool_decide_false by done. by rewrite IH.
Qed.

Lemma until_inv sep r : forall s, until sep r = Some s -> r = (s ++ sep :: drop (S (length s)) r)%list.
Proof.
  induction r as [|c r IH]; intros s; cbn; [done|]. case_bool_decide as Hc; [by intros [= <-]; subst|].
  destruct (until sep r) as [s'|]; [|done]. cbn. intros [= <-]. cbn. f_equal. by apply IH.
Qed.

(** A decoder that reads [r] with an empty buffer. *)
Definition at_input (r : bytes) (o : Z) : Decoder := mkBDecoder r o [].

Lemma advance_app p r o buf : advance (mkBDecoder (p ++ r) o buf) (length p) = mkBDecoder r (o + Z.of_nat (length p)) buf.
Proof.
  transitivity (mkBDecoder (drop (length p) (p ++ r)) (o + Z.of_nat (length p)) buf); [done|]. by rewrite drop_app_length.
Qed.

Lemma readUntil_app sep s r o buf : sep ∉ s ->
  readUntil sep (mkBDecoder (s ++ sep :: r) o buf) = Ok (mkBDecoder r (o + Z.of_nat (S (length s))) (buf ++ s)).
Proof.
  intros Hs. unfold readUntil. cbn [d_r]. rewrite until_app by done.
  pose proof (advance_app (s ++ [sep]) r o buf) as E. rewrite <- app_assoc, length_app in E. cbn [length app] in E.
  rewrite Nat.add_1_r in E. by rewrite E.
Qed.

Lemma readUntil_inv sep d d' : readUntil sep d = Ok d' ->
  exists s, d_r d = (s ++ sep :: d_r d')%list /\ d_Offset d' = d_Offset d + Z.of_nat (S (length s)) /\ d_buf d' = (d_buf d ++ s)%list.
Proof.
  unfold readUntil. destruct (until sep (d_r d)) as [s|] eqn:E; [|done]. intros [= <-]. exists s. apply until_inv in E. done.
Qed.
