(* ===== verification/BencodeProperties.v ===== *)
(** * Properties of bencoding

    The decoder of dynamically typed values accepts exactly what the encoder
    writes, and raw values are taken over byte by byte. *)

From stdpp Require Import base list sorting strings.
From Stdlib Require Import ZArith Strings.Byte Lia.
From coqutil Require Import Byte.
From S2P Require Import Prelude Bencode BencodeText.

#[local] Open Scope Z_scope.

(** ** Values *)

Section ValueInduction.
Variable P : value -> Prop.
Hypothesis HInt : forall n, P (VInt n).
Hypothesis HBig : forall n, P (VBig n).
Hypothesis HString : forall s, P (VString s).
Hypothesis HList : forall l, Forall P l -> P (VList l).
Hypothesis HDict : forall d, Forall (fun e => P (snd e)) d -> P (VDict d).

(** Induction through the lists of a value. *)
Fixpoint value_ind (v : value) : P v :=
  match v with
  | VInt n => HInt n
  | VBig n => HBig n
  | VString s => HString s
  | VList l => HList l ((fix go l : Forall P l :=
      match l with [] => List.Forall_nil P | v :: l => List.Forall_cons P v l (value_ind v) (go l) end) l)
  | VDict d => HDict d ((fix go d : Forall (fun e => P (snd e)) d :=
      match d with [] => List.Forall_nil _ | e :: d => List.Forall_cons (fun e => P (snd e)) e d (value_ind (snd e)) (go d) end) d)
  end.
End ValueInduction.

Definition short (s : bytes) : bool := Z.of_nat (length s) <=? DefaultDecodeMaxStrLen.

(** Keys in strictly increasing order, after [last]. *)
Fixpoint increasing (last : option bytes) (keys : list bytes) : bool :=
  match keys with
  | [] => true
  | k :: keys => negb (match last with Some last => key_leb k last | None => false end) && increasing (Some k) keys
  end.

(** The values a Go program can hold in an [interface{}] of these types, with
    strings the decoder does not refuse for their length. *)
Fixpoint go_value (v : value) : bool :=
  match v with
  | VInt n => bool_decide (in_i64 n)
  | VBig n => negb (bool_decide (in_i64 n))
  | VString s => short s
  | VList l => forallb go_value l
  | VDict d => bool_decide (NoDup (map fst d)) && forallb (fun '(k, v) => short k && go_value v) d
  end.

(** The entries of every map in the order of their keys. *)
Fixpoint sort_value (v : value) : value :=
  match v with
  | VInt n => VInt n
  | VBig n => VBig n
  | VString s => VString s
  | VList l => VList (map sort_value l)
  | VDict d => VDict (merge_sort entry_le (map (fun '(k, v) => (k, sort_value v)) d))
  end.

(** The values the decoder makes: maps listed in order. *)
Fixpoint canonical (v : value) : bool :=
  match v with
  | VInt n => bool_decide (in_i64 n)
  | VBig n => negb (bool_decide (in_i64 n))
  | VString s => short s
  | VList l => forallb canonical l
  | VDict d => increasing None (map fst d) && forallb (fun '(k, v) => short k && canonical v) d
  end.

Lemma key_leb_refl a : key_leb a a = true.
Proof. induction a as [|x a IH]; cbn; [done|]. by rewrite Z.ltb_irrefl, Z.eqb_refl, IH. Qed.

Lemma key_leb_total a : forall b, key_leb a b = true \/ key_leb b a = true.
Proof.
  induction a as [|x a IH]; intros [|y b]; cbn; auto.
  destruct (Z.ltb_spec (byte.unsigned x) (byte.unsigned y)), (Z.ltb_spec (byte.unsigned y) (byte.unsigned x)); auto.
  replace (byte.unsigned y) with (byte.unsigned x) by lia. rewrite Z.eqb_refl. apply IH.
Qed.

Lemma key_leb_trans a : forall b c, key_leb a b = true -> key_leb b c = true -> key_leb a c = true.
Proof.
  induction a as [|x a IH]; intros [|y b] [|z c]; cbn; try done. rewrite !orb_true_iff, !andb_true_iff, !Z.ltb_lt, !Z.eqb_eq.
  intros [|[? ?]] [|[? ?]]; [left; lia..|right]. split; [lia|by eapply IH].
Qed.

Lemma key_leb_antisym a : forall b, key_leb a b = true -> key_leb b a = true -> a = b.
Proof.
  induction a as [|x a IH]; intros [|y b]; cbn; try done. rewrite !orb_true_iff, !andb_true_iff, !Z.ltb_lt, !Z.eqb_eq.
  intros [|[Hx ?]] [|[? ?]]; try lia. apply byte.unsigned_inj in Hx as ->. f_equal. by apply IH.
Qed.

#[export] Instance entry_le_preorder {A : Type} : PreOrder (@entry_le A).
Proof. split; [intros x; apply key_leb_refl|]. intros x y z. apply key_leb_trans. Qed.
#[export] Instance entry_le_total {A : Type} : Total (@entry_le A).
Proof. intros x y. apply key_leb_total. Qed.

Lemma increasing_sorted {A : Type} (d : list (bytes * A)) : forall last, increasing last (map fst d) = true ->
  StronglySorted entry_le d /\ NoDup (map fst d) /\
  (forall l, last = Some l -> Forall (fun e => key_leb (fst e) l = false) d).
Proof.
  induction d as [|[k v] d IH]; intros last; cbn; [split; [constructor|]; split; [constructor|]; intros; constructor|].
  intros [Hk H]%andb_true_iff.
  destruct (IH _ H) as (Hs & Hn & Hl). specialize (Hl k eq_refl). split_and!.
  - constructor; [done|]. eapply Forall_impl; [exact Hl|]. intros [k' v'] Hlt. cbn in Hlt. unfold entry_le. cbn.
    destruct (key_leb_total k k'); [done|congruence].
  - constructor; [|done]. intros Hin. apply list_elem_of_In, in_map_iff in Hin as ([k' v'] & <- & Hin).
    rewrite Forall_forall in Hl. specialize (Hl _ (proj2 (list_elem_of_In _ _) Hin)). cbn in Hl. by rewrite key_leb_refl in Hl.
  - intros l ->. apply negb_true_iff in Hk. constructor; [done|]. eapply Forall_impl; [exact Hl|]. intros [k' v'] Hlt. cbn in *.
    destruct (key_leb k' l) eqn:E; [|done]. assert (key_leb l k = true) by (destruct (key_leb_total l k); congruence).
    by rewrite (key_leb_trans k' l k) in Hlt.
Qed.

Lemma sorted_increasing {A : Type} (d : list (bytes * A)) : StronglySorted entry_le d -> NoDup (map fst d) ->
  forall last, (forall l, last = Some l -> Forall (fun e => key_leb (fst e) l = false) d) -> increasing last (map fst d) = true.
Proof.
  induction 1 as [|[k v] d Hs IH Hf]; intros Hn last Hl; cbn; [done|]. apply NoDup_cons in Hn as [Hk Hn]. apply andb_true_iff. split.
  - destruct last as [l|]; [|done]. specialize (Hl l eq_refl). apply Forall_cons in Hl as [Hl _]. by apply negb_true_iff.
  - apply IH; [done|]. intros l [= <-]. rewrite Forall_forall in Hf |- *. intros [k' v'] Hin. cbn.
    destruct (key_leb k' k) eqn:E; [|done]. specialize (Hf _ Hin). unfold entry_le in Hf. cbn in Hf.
    destruct Hk. apply list_elem_of_In, in_map_iff. exists (k', v'). split; [|by apply list_elem_of_In]. by apply key_leb_antisym.
Qed.

(** Lists of entries with distinct keys that are sorted are determined by their
    entries. *)
Lemma sorted_entries_unique {A : Type} (d d' : list (bytes * A)) :
  StronglySorted entry_le d -> StronglySorted entry_le d' -> NoDup (map fst d) -> d ≡ₚ d' -> d = d'.
Proof.
  intros Hs Hs' Hn Hp. apply (StronglySorted_unique_strong entry_le); [|done..]. intros [k v] [k' v'] H1 H2 Hle Hle'.
  unfold entry_le in *. cbn in *. pose proof (key_leb_antisym _ _ Hle Hle'). subst k'. f_equal. rewrite <- Hp in H2.
  clear -H1 H2 Hn. induction d as [|[k0 v0] d IH]; [by apply not_elem_of_nil in H1|]. apply NoDup_cons in Hn as [Hk Hn].
  assert (forall w, (k, w) ∈ d -> k ∈ map fst d) as Hin.
  { intros w Hw. apply list_elem_of_In, in_map_iff. exists (k, w). split; [done|by apply list_elem_of_In]. }
  apply elem_of_cons in H1 as [[= -> ->]|H1], H2 as [[= H2]|H2]; subst; try done.
  - by apply Hin in H2.
  - by apply Hin in H1.
  - by apply IH.
Qed.

Lemma sort_sorted {A : Type} (d : list (bytes * A)) : StronglySorted entry_le d -> NoDup (map fst d) -> merge_sort entry_le d = d.
Proof.
  intros Hs Hn. symmetry. apply sorted_entries_unique; [done| |done|by rewrite merge_sort_Permutation].
  apply Sorted_StronglySorted; [apply _|]. apply Sorted_merge_sort. apply _.
Qed.

(** The entries of a map as they are written. *)
Definition write_entry (e : bytes * value) : bytes := (reflectString (fst e) ++ reflectValue (snd e))%list.

Lemma reflect_dict d : increasing None (map fst d) = true ->
  reflectValue (VDict d) = (c_d :: concat (map write_entry d) ++ [c_e])%list.
Proof.
  intros Hi. destruct (increasing_sorted d None Hi) as (Hs & Hn & _). cbn [reflectValue]. do 2 f_equal.
  set (written := map _ d).
  assert (map fst written = map fst d) as Hk by (subst written; rewrite map_map; apply map_ext; by intros []).
  rewrite sort_sorted; [|eapply StronglySorted_fmap; [|exact Hs]; intros [] [] H; exact H|by rewrite Hk].
  subst written. rewrite map_map. f_equal. apply map_ext. by intros [].
Qed.

(** ** Decoding what was encoded *)

Lemma ok_at {A : Type} (a : A) r o o' : o = o' -> (Ok (a, at_input r o) : decoding A) = Ok (a, at_input r o').
Proof. by intros ->. Qed.

Lemma parse_int_app n r o : parseIntInterface (at_input (format_int n ++ c_e :: r) o) =
  Ok (typed_int n, at_input r (o + Z.of_nat (S (length (format_int n))))).
Proof.
  unfold parseIntInterface, readInt, at_input. rewrite readUntil_app by (intros H; by apply format_separators in H as [? _]).
  cbn [d_buf app]. rewrite checkBufferedInt_format. pose proof (int_value_format n) as H. unfold int_value in H. cbn [d_buf].
  destruct (ParseInt (format_int n)) as [m|[]]; [injection H as H; by rewrite H|done|].
  destruct (SetString (format_int n)); [|done]. cbn in H. injection H as H. by rewrite H.
Qed.

Lemma format_length_cons n : 0 <= n -> exists b t, format_int n = b :: t /\ is_digit b = true.
Proof.
  intros Hn. destruct (format_nonneg n Hn) as [[Hd Hh] _]. destruct (format_int n) as [|b t]; [done|]. cbn in Hd.
  apply andb_true_iff in Hd as [Hd _]. by exists b, t.
Qed.

Lemma parse_string_app s b t r o : short s = true -> format_int (Z.of_nat (length s)) = b :: t ->
  parseStringInterface (mkBDecoder (t ++ c_colon :: s ++ r) o [b]) =
  Ok (s, at_input r (o + Z.of_nat (S (length t)) + Z.of_nat (length s))).
Proof.
  intros Hs Hf. unfold short in Hs. apply Z.leb_le in Hs. unfold parseStringInterface, parseStringLength.
  rewrite readUntil_app. 2:{ intros H. assert (c_colon ∈ format_int (Z.of_nat (length s))) as Hin by (rewrite Hf; by right). by apply format_separators in Hin as [_ ?]. }
  cbn [d_buf app d_r]. rewrite <- Hf, checkBufferedInt_format. cbn [negb]. change DefaultDecodeMaxStrLen with 134217727 in *.
  rewrite ParseInt_format by (unfold in_i64; lia). destruct (Z.gtb_spec (Z.of_nat (length s)) 134217727); [lia|].
  cbn [d_r]. change (d_r (_ <| d_buf := [] |>)) with (s ++ r)%list. rewrite length_app.
  destruct (Z.ltb_spec (Z.of_nat (length s + length r)) (Z.of_nat (length s))); [lia|]. rewrite Nat2Z.id, take_app_length.
  do 2 f_equal. apply advance_app.
Qed.

Lemma parse_VString fuel s r o : short s = true ->
  parseValueInterface (S fuel) (at_input (reflectString s ++ r) o) =
  Ok (Some (VString s), at_input r (o + Z.of_nat (length (reflectString s)))).
Proof.
  intros Hs. unfold reflectString, writeStringPrefix. destruct (format_length_cons (Z.of_nat (length s))) as (b & t & Hf & Hd); [lia|].
  rewrite Hf. cbn [parseValueInterface ReadByte at_input d_r app].
  assert (b <> c_e /\ b <> c_d /\ b <> c_l /\ b <> c_i) as (? & ? & ? & ?) by (split_and!; intros ->; done).
  rewrite !bool_decide_false by done. rewrite Hd. rewrite <- !app_assoc.
  change ((advance _ 1) <| d_buf ::= _ |>) with (mkBDecoder (t ++ c_colon :: s ++ r) (o + 1) [b]).
  rewrite parse_string_app by done. do 3 f_equal. cbn [length app]. rewrite !length_app. cbn [length]. lia.
Qed.

Lemma parse_end fuel r o : parseValueInterface (S fuel) (at_input (c_e :: r) o) = Ok (None, at_input r (o + 1)).
Proof. done. Qed.

Lemma parse_i fuel r o : parseValueInterface (S fuel) (at_input (c_i :: r) o) =
  match parseIntInterface (at_input r (o + 1)) with Ok (v, d) => Ok (Some v, d) | Err e => Err e end.
Proof. done. Qed.

Lemma parse_l fuel r o : parseValueInterface (S fuel) (at_input (c_l :: r) o) =
  match parseListInterface fuel (at_input r (o + 1)) with Ok (l, d) => Ok (Some (VList l), d) | Err e => Err e end.
Proof. done. Qed.

Lemma parse_d fuel r o : parseValueInterface (S fuel) (at_input (c_d :: r) o) =
  match parseDictInterface fuel (at_input r (o + 1)) None with Ok (d', d) => Ok (Some (VDict d'), d) | Err e => Err e end.
Proof. done. Qed.

(** How a value's decoding looks with enough fuel. *)
Definition decodes (v : value) : Prop := forall fuel r o, (2 * length (reflectValue v) <= fuel)%nat ->
  parseValueInterface fuel (at_input (reflectValue v ++ r) o) = Ok (Some v, at_input r (o + Z.of_nat (length (reflectValue v)))).

Lemma reflect_length v : (1 <= length (reflectValue v))%nat.
Proof.
  destruct v; cbn [reflectValue length]; try lia. unfold reflectString, writeStringPrefix. rewrite !length_app. cbn. lia.
Qed.

Lemma parse_list_app l : Forall decodes l -> forall fuel r o, (2 * length (concat (map reflectValue l)) + 2 <= fuel)%nat ->
  parseListInterface fuel (at_input (concat (map reflectValue l) ++ c_e :: r) o) =
  Ok (l, at_input r (o + Z.of_nat (S (length (concat (map reflectValue l)))))).
Proof.
  induction 1 as [|v l Hv _ IH]; intros [|fuel] r o Hf; try lia; cbn [parseListInterface map concat app].
  - destruct fuel as [|fuel]; [cbn in Hf; lia|]. rewrite parse_end. done.
  - cbn [map concat] in Hf. rewrite length_app in Hf |- *. pose proof (reflect_length v). rewrite <- app_assoc, Hv by lia. rewrite IH by lia.
    do 3 f_equal. lia.
Qed.

Lemma write_entry_length e : (2 <= length (write_entry e))%nat.
Proof. unfold write_entry. rewrite length_app. pose proof (reflect_length (VString (fst e))). pose proof (reflect_length (snd e)). cbn [reflectValue] in *. lia. Qed.

Lemma parse_dict_app d : Forall (fun e => decodes (snd e)) d -> Forall (fun e => short (fst e) = true) d ->
  forall last fuel r o, increasing last (map fst d) = true -> (2 * length (concat (map write_entry d)) + 2 <= fuel)%nat ->
  parseDictInterface fuel (at_input (concat (map write_entry d) ++ c_e :: r) o) last =
  Ok (d, at_input r (o + Z.of_nat (S (length (concat (map write_entry d)))))).
Proof.
  induction 1 as [|[k v] d Hv _ IH]; intros Hs last [|fuel] r o Hi Hf; try lia; cbn [parseDictInterface map concat app].
  - destruct fuel as [|fuel]; [cbn in Hf; lia|]. rewrite parse_end. done.
  - apply Forall_cons in Hs as [Hk Hs]. cbn [map concat] in Hf. rewrite length_app in Hf |- *. pose proof (write_entry_length (k, v)).
    destruct fuel as [|fuel]; [lia|]. unfold write_entry at 1. cbn [fst snd] in *. rewrite <- !app_assoc, parse_VString by done.
    cbn [map fst increasing] in Hi. apply andb_true_iff in Hi as [Hl Hi]. apply negb_true_iff in Hl. rewrite Hl.
    assert (length (write_entry (k, v)) = length (reflectString k) + length (reflectValue v))%nat as Hw by apply length_app.
    pose proof (reflect_length v). rewrite Hv, IH by (done || lia). do 3 f_equal. lia.
Qed.

Lemma decodes_int n v : reflectValue v = (c_i :: format_int n ++ [c_e])%list -> typed_int n = v -> decodes v.
Proof.
  intros Hr <- [|fuel] r o Hf; rewrite Hr in *; [cbn in Hf; lia|]. cbn [app]. rewrite parse_i, <- app_assoc. cbn [app].
  rewrite parse_int_app. apply ok_at. cbn [length]. rewrite length_app. cbn [length]. lia.
Qed.

Lemma decodes_canonical v : canonical v = true -> decodes v.
Proof.
  induction v as [n|n|s|l IH|d IH] using value_ind; intros Hc; cbn [canonical] in Hc.
  - apply (decodes_int n); [done|]. unfold typed_int. by rewrite Hc.
  - apply (decodes_int n); [done|]. unfold typed_int. apply negb_true_iff in Hc. by rewrite Hc.
  - intros [|fuel] r o Hf; [pose proof (reflect_length (VString s)); lia|]. by apply parse_VString.
  - rewrite forallb_forall in Hc. intros [|fuel] r o Hf; cbn [reflectValue length app] in *; [lia|]. rewrite length_app in *. cbn [length] in *.
    rewrite parse_l, <- app_assoc. cbn [app]. rewrite parse_list_app; [apply ok_at; lia| |lia].
    rewrite Forall_forall in IH |- *. intros v Hin. apply IH; [done|]. apply Hc. by apply list_elem_of_In.
  - apply andb_true_iff in Hc as [Hi Hc]. rewrite forallb_forall in Hc.
    assert (Forall (fun e => short (fst e) = true /\ canonical (snd e) = true) d) as Hd.
    { rewrite Forall_forall. intros [k v] Hin. apply andb_true_iff. exact (Hc (k, v) (proj1 (list_elem_of_In _ _) Hin)). }
    intros [|fuel] r o Hf; rewrite reflect_dict in * by done; cbn [length app] in *; [lia|]. rewrite length_app in *. cbn [length] in *.
    rewrite parse_d, <- app_assoc. cbn [app]. rewrite parse_dict_app; [apply ok_at; lia|..|done|lia].
    + eapply Forall_impl; [eapply Forall_and; split; [exact IH|exact Hd]|]. cbn. tauto.
    + eapply Forall_impl; [exact Hd|]. cbn. tauto.
Qed.

(** ** What is decoded was encoded *)

(** [s] was read, and the buffer is empty. *)
Definition consumed (s : bytes) (d d' : Decoder) : Prop :=
  d_r d = (s ++ d_r d')%list /\ d_Offset d' = d_Offset d + Z.of_nat (length s) /\ d_buf d' = [].

Lemma consumed_app s s' d d' d'' : consumed s d d' -> consumed s' d' d'' -> consumed (s ++ s') d d''.
Proof.
  intros (Hr & Ho & _) (Hr' & Ho' & Hb). unfold consumed. rewrite Hr, Hr', Ho', Ho, length_app, app_assoc. split_and!; [done|lia|done].
Qed.

Lemma consumed_length s d d' : consumed s d d' -> length (d_r d) = (length s + length (d_r d'))%nat.
Proof. intros (-> & _). apply length_app. Qed.

Lemma ReadByte_inv d b d' : d_buf d = [] -> ReadByte d = Ok (b, d') -> consumed [b] d d'.
Proof.
  unfold ReadByte, consumed. intros Hb. destruct (d_r d) as [|c r] eqn:Hr; [done|]. intros [= <- <-]. cbn. by rewrite Hr.
Qed.

Lemma parse_int_inv d v d' : d_buf d = [] -> parseIntInterface d = Ok (v, d') ->
  canonical v = true /\ exists n, reflectValue v = (c_i :: format_int n ++ [c_e])%list /\ consumed (format_int n ++ [c_e]) d d'.
Proof.
  unfold parseIntInterface, readInt. intros Hb. destruct (readUntil c_e d) as [d1|] eqn:E; [|done].
  apply readUntil_inv in E as (s & Hr & Ho & Hs). rewrite Hb in Hs. cbn in Hs. destruct (checkBufferedInt (d_buf d1)) eqn:Hc; [|done].
  intros H. assert (int_value s = Some v /\ d' = d1 <| d_buf := [] |>) as [Hv ->].
  { unfold int_value. rewrite Hs in H. destruct (ParseInt s) as [n|[]]; [by simplify_eq|done|]. destruct (SetString s); [|done]. by simplify_eq. }
  rewrite Hs in Hc. destruct (int_value_inv _ _ Hv Hc) as (n & -> & ->). unfold typed_int.
  assert (consumed (format_int n ++ [c_e]) d (d1 <| d_buf := [] |>)) as Hd.
  { unfold consumed. rewrite Hr, length_app, <- app_assoc. cbn. split_and!; [done|lia|done]. }
  case_bool_decide as Hi; cbn; (split; [|by exists n]); [by apply bool_decide_eq_true|by apply negb_true_iff, bool_decide_eq_false].
Qed.

Lemma digit_signed b s : is_digit b = true -> signed (b :: s) = (false, b :: s).
Proof. intros Hd. unfold signed. rewrite !bool_decide_false; [done|by intros ->..]. Qed.

Lemma parse_string_inv d b s d' : d_buf d = [b] -> is_digit b = true -> parseStringInterface d = Ok (s, d') ->
  short s = true /\ b :: d_r d = (reflectString s ++ d_r d')%list /\
  d_Offset d' = d_Offset d + Z.of_nat (length (reflectString s)) - 1 /\ d_buf d' = [].
Proof.
  unfold parseStringInterface, parseStringLength. intros Hb Hd. destruct (readUntil c_colon d) as [d1|] eqn:E; [|done].
  apply readUntil_inv in E as (t & Hr & Ho & Hs). rewrite Hb in Hs. cbn in Hs. rewrite Hs.
  destruct (checkBufferedInt (b :: t)) eqn:Hc; [|done]. cbn [negb].
  pose proof (ParseInt_spec _ _ _ (digit_signed b t Hd)) as HP. cbv zeta in HP. destruct (ParseInt (b :: t)) as [n|]; [|done].
  destruct HP as (_ & Hds & -> & _). pose proof (digits_value_nonneg _ Hds) as Hpos.
  pose proof (format_unique _ _ _ (digit_signed b t Hd) Hc ltac:(done) Hds) as Hf. cbn [negb] in Hf.
  set (n := digits_value (b :: t)) in *. destruct (Z.gtb_spec n DefaultDecodeMaxStrLen); [done|].
  change (d_r (d1 <| d_buf := [] |>)) with (d_r d1). destruct (Z.ltb_spec (Z.of_nat (length (d_r d1))) n); [done|]. intros [= <- <-].
  assert (length (take (Z.to_nat n) (d_r d1)) = Z.to_nat n) as Hl by (rewrite length_take; lia).
  assert (reflectString (take (Z.to_nat n) (d_r d1)) = (b :: t ++ c_colon :: take (Z.to_nat n) (d_r d1))%list) as Hw.
  { unfold reflectString, writeStringPrefix. rewrite Hl, Z2Nat.id, <- Hf by lia. by rewrite <- app_assoc. }
  split_and!.
  - unfold short. rewrite Hl. apply Z.leb_le. lia.
  - rewrite Hw, Hr. cbn [app]. f_equal. rewrite <- app_assoc. cbn [app]. do 2 f_equal. symmetry. apply take_drop.
  - rewrite Hw. cbn [length]. rewrite length_app. cbn [length]. rewrite Hl.
    change (d_Offset (advance (d1 <| d_buf := [] |>) (Z.to_nat n))) with (d_Offset d1 + Z.of_nat (Z.to_nat n)). lia.
  - done.
Qed.

Lemma increasing_cons last k keys :
  match last with Some last => key_leb k last | None => false end = false -> increasing (Some k) keys = true -> increasing last (k :: keys) = true.
Proof. intros H1 H2. cbn. by rewrite H1, H2. Qed.

Tactic Notation "next" hyp(H) ident(E) := match type of H with
  | match ?m with _ => _ end = Ok _ => destruct m as [[? ?]|?] eqn:E; [|discriminate H]
  end.

Lemma parse_inv fuel :
  (forall d v d', d_buf d = [] -> parseValueInterface fuel d = Ok (v, d') ->
     match v with None => consumed [c_e] d d' | Some v => canonical v = true /\ consumed (reflectValue v) d d' end) /\
  (forall d l d', d_buf d = [] -> parseListInterface fuel d = Ok (l, d') ->
     forallb canonical l = true /\ consumed (concat (map reflectValue l) ++ [c_e]) d d') /\
  (forall d last es d', d_buf d = [] -> parseDictInterface fuel d last = Ok (es, d') ->
     increasing last (map fst es) = true /\ forallb (fun '(k, v) => short k && canonical v) es = true /\
     consumed (concat (map write_entry es) ++ [c_e]) d d').
Proof.
  induction fuel as [|fuel (IHv & IHl & IHd)]; [done|]. split_and!.
  - intros d v d' Hb H. cbn [parseValueInterface] in H. next H E. rename b into c. apply ReadByte_inv in E as HR; [|done]. pose proof HR as (Hr & Ho & Hb1).
    case_bool_decide as He; [|case_bool_decide as Hd; [|case_bool_decide as Hl; [|case_bool_decide as Hi; [|destruct (is_digit c) eqn:Hg; [|done]]]]].
    + injection H as <- <-. by subst c.
    + next H E0. injection H as <- <-. apply IHd in E0 as (Hinc & Hall & Hc); [|done]. cbn [canonical]. rewrite Hinc, Hall, reflect_dict by done.
      split; [done|]. subst c. by eapply (consumed_app [c_d]).
    + next H E0. injection H as <- <-. apply IHl in E0 as (Hall & Hc); [|done]. split; [done|]. subst c. by eapply (consumed_app [c_l]).
    + next H E0. injection H as <- <-. apply parse_int_inv in E0 as (Hcan & n & Hw & Hc); [|done]. split; [done|]. rewrite Hw. subst c. by eapply (consumed_app [c_i]).
    + next H E0. injection H as <- <-. apply (parse_string_inv _ c) in E0 as (Hs & Hr2 & Ho2 & Hb2); [|by cbn; rewrite Hb1|done].
      split; [done|]. cbn [reflectValue]. unfold consumed. rewrite Hr, <- Hr2. split_and!; [done| |done].
      rewrite Ho2. cbn. cbn in Ho. lia.
  - intros d l d' Hb H. cbn [parseListInterface] in H. next H E. apply IHv in E; [|done]. destruct o as [v|].
    + next H E0. injection H as <- <-. destruct E as [Hcan Hc]. apply IHl in E0 as [Hall Hc2]; [|apply Hc]. cbn [forallb map concat].
      rewrite Hcan, Hall. split; [done|]. rewrite <- app_assoc. by eapply consumed_app.
    + injection H as <- <-. done.
  - intros d last es d' Hb H. cbn [parseDictInterface] in H. next H E. apply IHv in E; [|done]. destruct o as [[| |key| |]|]; try done.
    + destruct (match last with Some _ => _ | None => _ end) eqn:Hlast; [done|]. next H E0. destruct E as [Hk Hc]. apply IHv in E0; [|apply Hc].
      destruct o as [v|]; [|done]. next H E1. injection H as <- <-. destruct E0 as [Hcan Hc2]. apply IHd in E1 as (Hinc & Hall & Hc3); [|apply Hc2].
      cbn [map fst forallb concat]. cbn [canonical] in Hk. rewrite Hk, Hcan, Hall. split; [by apply increasing_cons|]. split; [done|].
      unfold write_entry at 1. cbn [fst snd]. rewrite <- !app_assoc. eapply consumed_app; [exact Hc|]. by eapply consumed_app.
    + injection H as <- <-. done.
Qed.

(** ** Fuel *)

Lemma readUntil_fuel sep d : readUntil sep d <> Err OutOfFuel.
Proof. unfold readUntil. by destruct (until sep (d_r d)). Qed.

Lemma parse_int_fuel d : parseIntInterface d <> Err OutOfFuel.
Proof.
  unfold parseIntInterface, readInt. pose proof (readUntil_fuel c_e d). destruct (readUntil c_e d) as [d1|]; [|congruence].
  destruct (checkBufferedInt _); [|done]. destruct (ParseInt _) as [|[]]; try done. by destruct (SetString _).
Qed.

Lemma parse_string_fuel d : parseStringInterface d <> Err OutOfFuel.
Proof.
  unfold parseStringInterface, parseStringLength. pose proof (readUntil_fuel c_colon d). destruct (readUntil c_colon d) as [d1|]; [|congruence].
  destruct (negb _); [done|]. destruct (ParseInt _); [|done]. destruct (_ >? _); [done|]. by destruct (_ <? _).
Qed.

Lemma parse_fuel fuel :
  (forall d, d_buf d = [] -> (2 * length (d_r d) + 1 <= fuel)%nat -> parseValueInterface fuel d <> Err OutOfFuel) /\
  (forall d, d_buf d = [] -> (2 * length (d_r d) + 2 <= fuel)%nat -> parseListInterface fuel d <> Err OutOfFuel) /\
  (forall d last, d_buf d = [] -> (2 * length (d_r d) + 2 <= fuel)%nat -> parseDictInterface fuel d last <> Err OutOfFuel).
Proof.
  induction fuel as [|fuel (IHv & IHl & IHd)]; [split_and!; intros; lia|]. destruct (parse_inv fuel) as (PV & _ & _). split_and!.
  - intros d Hb Hf. cbn [parseValueInterface]. destruct (ReadByte d) as [[c d1]|e] eqn:E; [|unfold ReadByte in E; destruct (d_r d); congruence].
    apply ReadByte_inv in E as HR; [|done]. apply consumed_length in HR as Hl. cbn in Hl. destruct HR as (_ & _ & Hb1).
    repeat case_bool_decide; try done.
    + specialize (IHd d1 None Hb1 ltac:(lia)). destruct (parseDictInterface fuel d1 None) as [[]|]; congruence.
    + specialize (IHl d1 Hb1 ltac:(lia)). destruct (parseListInterface fuel d1) as [[]|]; congruence.
    + pose proof (parse_int_fuel d1). destruct (parseIntInterface d1) as [[]|]; congruence.
    + destruct (is_digit c); [|done]. pose proof (parse_string_fuel (d1 <| d_buf ::= fun buf => (buf ++ [c])%list |>)).
      destruct (parseStringInterface _) as [[]|]; congruence.
  - intros d Hb Hf. cbn [parseListInterface]. pose proof (IHv d Hb ltac:(lia)) as H1.
    destruct (parseValueInterface fuel d) as [[[v|] d1]|] eqn:E; [|done|congruence]. apply PV in E as [_ Hc]; [|done].
    pose proof (consumed_length _ _ _ Hc). pose proof (reflect_length v). destruct Hc as (_ & _ & Hb1).
    specialize (IHl d1 Hb1 ltac:(lia)). destruct (parseListInterface fuel d1) as [[]|]; congruence.
  - intros d last Hb Hf. cbn [parseDictInterface]. pose proof (IHv d Hb ltac:(lia)) as H1.
    destruct (parseValueInterface fuel d) as [[[v|] d1]|] eqn:E; [|done|congruence]. apply PV in E as [_ Hc]; [|done].
    pose proof (consumed_length _ _ _ Hc). pose proof (reflect_length v). destruct Hc as (_ & _ & Hb1).
    destruct v as [| |key| |]; try done. destruct (match last with Some _ => _ | None => _ end); [done|].
    pose proof (IHv d1 Hb1 ltac:(lia)) as H3. destruct (parseValueInterface fuel d1) as [[[v|] d2]|] eqn:E; [|done|congruence].
    apply PV in E as [_ Hc2]; [|done]. pose proof (consumed_length _ _ _ Hc2). destruct Hc2 as (_ & _ & Hb2).
    specialize (IHd d2 (Some key) Hb2 ltac:(lia)). destruct (parseDictInterface fuel d2 (Some key)) as [[]|]; congruence.
Qed.

(** ** Sorted maps *)

Lemma map_fst_sort (f : value -> value) (d : list (bytes * value)) : map fst (map (fun '(k, v) => (k, f v)) d) = map fst d.
Proof. rewrite map_map. apply map_ext. by intros []. Qed.

Lemma StronglySorted_sort {A : Type} (d : list (bytes * A)) : StronglySorted entry_le (merge_sort entry_le d).
Proof. apply Sorted_StronglySorted; [apply _|]. apply Sorted_merge_sort. apply _. Qed.

(** Sorting commutes with a change of the values. *)
Lemma sort_map {A B : Type} (f : A -> B) (d : list (bytes * A)) : NoDup (map fst d) ->
  merge_sort entry_le (map (fun '(k, v) => (k, f v)) d) = map (fun '(k, v) => (k, f v)) (merge_sort entry_le d).
Proof.
  intros Hn. apply sorted_entries_unique.
  - apply StronglySorted_sort.
  - eapply StronglySorted_fmap; [|apply StronglySorted_sort]. intros [] [] H. exact H.
  - rewrite merge_sort_Permutation. rewrite map_map. erewrite map_ext; [exact Hn|]. by intros [].
  - rewrite !merge_sort_Permutation. done.
Qed.

Lemma go_value_sort v : go_value v = true -> canonical (sort_value v) = true /\ reflectValue (sort_value v) = reflectValue v.
Proof.
  induction v as [n|n|s|l IH|d IH] using value_ind; intros Hg; cbn [go_value sort_value] in *; [done..| |].
  - rewrite forallb_forall in Hg. rewrite Forall_forall in IH. split.
    + cbn [canonical]. rewrite forallb_forall. intros w (v & <- & Hin)%in_map_iff. apply IH; [by apply list_elem_of_In|by apply Hg].
    + cbn [reflectValue]. rewrite map_map. do 3 f_equal. apply map_ext_in. intros v Hin. apply IH; [by apply list_elem_of_In|by apply Hg].
  - apply andb_true_iff in Hg as [Hn Hg]. apply bool_decide_eq_true in Hn. rewrite forallb_forall in Hg. rewrite Forall_forall in IH.
    assert (forall k v, (k, v) ∈ d -> short k = true /\ canonical (sort_value v) = true /\ reflectValue (sort_value v) = reflectValue v) as Hd.
    { intros k v Hin. specialize (Hg (k, v) (proj1 (list_elem_of_In _ _) Hin)). apply andb_true_iff in Hg as [Hk Hv]. split; [done|]. exact (IH (k, v) Hin Hv). }
    set (sorted := merge_sort entry_le _). assert (sorted ≡ₚ map (fun '(k, v) => (k, sort_value v)) d) as Hp by apply merge_sort_Permutation.
    assert (increasing None (map fst sorted) = true) as Hi.
    { apply sorted_increasing; [apply StronglySorted_sort| |done]. rewrite Hp, map_fst_sort. done. }
    split.
    + cbn [canonical]. rewrite Hi. cbn [andb]. rewrite forallb_forall. intros [k w] Hin%list_elem_of_In. rewrite Hp in Hin.
      apply list_elem_of_In, in_map_iff in Hin as ([k' v] & [= -> <-] & Hin). apply list_elem_of_In, Hd in Hin as (-> & -> & _). done.
    + rewrite reflect_dict by done. cbn [reflectValue]. do 3 f_equal. subst sorted. rewrite !sort_map by done. rewrite !map_map. apply map_ext_in.
      intros [k v] Hin%list_elem_of_In. rewrite merge_sort_Permutation in Hin. apply Hd in Hin as (_ & _ & E). unfold write_entry, reflect_entry. cbn. by rewrite E.
Qed.

Lemma canonical_sorted v : canonical v = true -> go_value v = true /\ sort_value v = v.
Proof.
  induction v as [n|n|s|l IH|d IH] using value_ind; intros Hc; cbn [canonical go_value sort_value] in *; [done..| |].
  - rewrite forallb_forall in Hc |- *. rewrite Forall_forall in IH. split.
    + intros v Hin. apply IH; [by apply list_elem_of_In|by apply Hc].
    + f_equal. rewrite <- (map_id l) at 2. apply map_ext_in. intros v Hin. apply IH; [by apply list_elem_of_In|by apply Hc].
  - apply andb_true_iff in Hc as [Hi Hc]. destruct (increasing_sorted _ _ Hi) as (Hs & Hn & _). rewrite forallb_forall in Hc. rewrite Forall_forall in IH.
    assert (forall k v, (k, v) ∈ d -> short k = true /\ go_value v = true /\ sort_value v = v) as Hd.
    { intros k v Hin. specialize (Hc (k, v) (proj1 (list_elem_of_In _ _) Hin)). apply andb_true_iff in Hc as [Hk Hv]. split; [done|]. exact (IH (k, v) Hin Hv). }
    split.
    + rewrite bool_decide_true by done. cbn [andb]. rewrite forallb_forall. intros [k v] Hin%list_elem_of_In. by apply Hd in Hin as (-> & -> & _).
    + f_equal. rewrite sort_map by done. rewrite sort_sorted by done. rewrite <- (map_id d) at 2. apply map_ext_in.
      intros [k v] Hin%list_elem_of_In. apply Hd in Hin as (_ & _ & E). by rewrite E.
Qed.

(** ** Raw values *)

(** [s] was read and appended to the buffer. *)
Definition copied (s : bytes) (d d' : Decoder) : Prop :=
  d_r d = (s ++ d_r d')%list /\ d_Offset d' = d_Offset d + Z.of_nat (length s) /\ d_buf d' = (d_buf d ++ s)%list.

Lemma copied_nil d : copied [] d d.
Proof. unfold copied. cbn. rewrite app_nil_r. split_and!; [done|lia|done]. Qed.

Lemma copied_app s s' d d' d'' : copied s d d' -> copied s' d' d'' -> copied (s ++ s') d d''.
Proof.
  intros (Hr & Ho & Hb) (Hr' & Ho' & Hb'). unfold copied. rewrite Hr, Hr', Ho', Ho, Hb', Hb, length_app, !app_assoc. split_and!; [done|lia|done].
Qed.

Lemma copied_byte b r d : d_r d = b :: r -> copied [b] d (buffer [b] (advance d 1)).
Proof. unfold copied, buffer, advance. intros Hr. cbn. rewrite Hr. done. Qed.

Lemma readByte_copied d b d' : readByte d = Ok (b, d') -> copied [b] d (buffer [b] d').
Proof. unfold readByte. destruct (d_r d) as [|c r] eqn:Hr; [done|]. intros [= <- <-]. by eapply copied_byte. Qed.

Lemma readUntil_copied sep d d' : readUntil sep d = Ok d' -> exists s, copied (s ++ [sep]) d (buffer [sep] d').
Proof.
  intros (s & Hr & Ho & Hb)%readUntil_inv. exists s. unfold copied, buffer. cbn. rewrite Hr, Ho, Hb, length_app, <- !app_assoc. cbn [length app]. split_and!; [done|lia|done].
Qed.

Lemma read_one_string_copied start d ok d' : read_one_string start d = Ok (ok, d') -> ok = true /\ exists s, copied s d d'.
Proof.
  unfold read_one_string. destruct (readUntil c_colon d) as [d1|] eqn:E; [|done]. apply readUntil_copied in E as (s & Hs).
  destruct (ParseInt _) as [n|]; [|done]. cbv zeta. set (d2 := buffer [c_colon] d1) in *. destruct (Z.ltb_spec (Z.of_nat (length (d_r d2))) n); [done|].
  intros [= <- <-]. split; [done|]. exists ((s ++ [c_colon]) ++ take (Z.to_nat n) (d_r d2))%list. eapply copied_app; [exact Hs|].
  assert (d_r d1 = d_r d2) as Hd by done. clearbody d2. unfold copied, buffer, advance. cbn. rewrite Hd, take_drop, length_take.
  split_and!; [done|lia|done].
Qed.

Lemma readOneValue_copied fuel :
  (forall d ok d', readOneValue fuel d = Ok (ok, d') -> exists s, copied s d d' /\ (ok = true -> s <> []) /\ (ok = false -> d' = d)) /\
  (forall d u d', read_values fuel d = Ok (u, d') -> exists s, copied s d d').
Proof.
  induction fuel as [|fuel [IHv IHl]]; [done|]. split.
  - intros d ok d' H. cbn [readOneValue] in H. destruct (d_r d) as [|b r] eqn:Hr; [done|]. apply copied_byte in Hr as Hb.
    case_bool_decide; [injection H as <- <-; exists []; split; [apply copied_nil|done]|]. cbv zeta in H. set (d1 := buffer [b] (advance d 1)) in *.
    assert (ok = true /\ exists s, copied s d1 d') as [-> [s Hs]].
    { destruct (bool_decide (b = c_d) || bool_decide (b = c_l)).
      - destruct (read_values fuel d1) as [[u d2]|] eqn:E; [|done]. apply IHl in E as [s Hs].
        destruct (readByte d2) as [[c d3]|] eqn:E3; [|done]. injection H as <- <-. apply readByte_copied in E3. split; [done|].
        exists (s ++ [c])%list. by eapply copied_app.
      - case_bool_decide.
        + destruct (readUntil c_e d1) as [d2|] eqn:E; [|done]. injection H as <- <-. apply readUntil_copied in E as [s Hs]. eauto.
        + destruct (is_digit b); [|done]. by apply read_one_string_copied in H. }
    exists ([b] ++ s)%list. split; [by eapply copied_app|done].
  - intros d u d' H. cbn [read_values] in H. destruct (readOneValue fuel d) as [[[] d1]|] eqn:E; [| |done]; apply IHv in E as (s & Hs & _).
    + apply IHl in H as [s' Hs']. exists (s ++ s')%list. by eapply copied_app.
    + simplify_eq. by exists s.
Qed.

Lemma raw_fuel fuel :
  (forall d, (2 * length (d_r d) + 1 <= fuel)%nat -> readOneValue fuel d <> Err OutOfFuel) /\
  (forall d, (2 * length (d_r d) + 2 <= fuel)%nat -> read_values fuel d <> Err OutOfFuel).
Proof.
  induction fuel as [|fuel [IHv IHl]]; [split; intros; lia|]. destruct (readOneValue_copied fuel) as [CV _]. split.
  - intros d Hf. cbn [readOneValue]. destruct (d_r d) as [|b r] eqn:Hr; [done|]. case_bool_decide; [done|]. cbv zeta.
    set (d1 := buffer [b] (advance d 1)). assert (length (d_r d1) = length r) as Hl by (subst d1; cbn; by rewrite Hr).
    cbn [length] in Hf. destruct (bool_decide (b = c_d) || bool_decide (b = c_l)).
    + specialize (IHl d1 ltac:(lia)). destruct (read_values fuel d1) as [[u d2]|]; [|congruence]. unfold readByte. by destruct (d_r d2).
    + case_bool_decide; [pose proof (readUntil_fuel c_e d1); destruct (readUntil c_e d1); congruence|]. destruct (is_digit b); [|done].
      unfold read_one_string. pose proof (readUntil_fuel c_colon d1). destruct (readUntil c_colon d1); [|congruence].
      destruct (ParseInt _); [|done]. cbv zeta. by destruct (_ <? _).
  - intros d Hf. cbn [read_values]. pose proof (IHv d ltac:(lia)). destruct (readOneValue fuel d) as [[[] d1]|] eqn:E; [|done|congruence].
    apply CV in E as (s & (Hr & _) & Hs & _). specialize (Hs eq_refl). apply IHl. rewrite Hr, length_app in Hf. destruct s; [done|]. cbn [length] in Hf. lia.
Qed.

(** A raw value of an encoded one, read after [buf]. *)
Definition raw (v : value) : Prop := forall fuel r o buf, (2 * length (reflectValue v) <= fuel)%nat ->
  readOneValue fuel (mkBDecoder (reflectValue v ++ r) o buf) =
  Ok (true, mkBDecoder r (o + Z.of_nat (length (reflectValue v))) (buf ++ reflectValue v)).

Lemma ok_raw {A : Type} (a : A) r o o' buf buf' : o = o' -> buf = buf' ->
  (Ok (a, mkBDecoder r o buf) : decoding A) = Ok (a, mkBDecoder r o' buf').
Proof. by intros -> ->. Qed.

Lemma advance_buffer b r o buf : buffer [b] (advance (mkBDecoder (b :: r) o buf) 1) = mkBDecoder r (o + 1) (buf ++ [b]).
Proof. done. Qed.

Lemma buffer_mk s r o buf : buffer s (mkBDecoder r o buf) = mkBDecoder r o (buf ++ s).
Proof. done. Qed.

Lemma raw_end fuel r o buf : readOneValue (S fuel) (mkBDecoder (c_e :: r) o buf) = Ok (false, mkBDecoder (c_e :: r) o buf).
Proof. done. Qed.

Lemma raw_list fuel b r o buf : b = c_d \/ b = c_l -> readOneValue (S fuel) (mkBDecoder (b :: r) o buf) =
  match read_values fuel (mkBDecoder r (o + 1) (buf ++ [b])) with
  | Err e => Err e
  | Ok (_, d) => match readByte d with Ok (b, d) => Ok (true, buffer [b] d) | Err e => Err e end
  end.
Proof. intros [-> | ->]; done. Qed.

Lemma raw_values vs : Forall raw vs -> forall fuel r o buf, (2 * length (concat (map reflectValue vs)) + 2 <= fuel)%nat ->
  read_values fuel (mkBDecoder (concat (map reflectValue vs) ++ c_e :: r) o buf) =
  Ok (tt, mkBDecoder (c_e :: r) (o + Z.of_nat (length (concat (map reflectValue vs)))) (buf ++ concat (map reflectValue vs))).
Proof.
  induction 1 as [|v vs Hv _ IH]; intros [|fuel] r o buf Hf; try lia; cbn [read_values map concat app].
  - destruct fuel as [|fuel]; [cbn in Hf; lia|]. rewrite raw_end. apply ok_raw; [cbn; lia|by rewrite app_nil_r].
  - cbn [map concat] in Hf. rewrite length_app in *. pose proof (reflect_length v). rewrite <- app_assoc, Hv, IH by lia.
    apply ok_raw; [lia|by rewrite app_assoc].
Qed.

Lemma raw_delimited b vs fuel r o buf : b = c_d \/ b = c_l -> Forall raw vs -> (2 * length (concat (map reflectValue vs)) + 4 <= fuel)%nat ->
  readOneValue fuel (mkBDecoder ((b :: concat (map reflectValue vs) ++ [c_e]) ++ r) o buf) =
  Ok (true, mkBDecoder r (o + Z.of_nat (length (b :: concat (map reflectValue vs) ++ [c_e])%list))
       (buf ++ b :: concat (map reflectValue vs) ++ [c_e])).
Proof.
  intros Hb Hvs Hf. destruct fuel as [|fuel]; [lia|]. cbn [app]. rewrite raw_list, <- app_assoc by done. cbn [app].
  rewrite raw_values by (done || lia). unfold readByte. cbn [d_r]. rewrite advance_buffer.
  apply ok_raw; [cbn [length]; rewrite length_app; cbn [length]; lia|]. by rewrite <- !app_assoc.
Qed.

Lemma raw_int n v : reflectValue v = (c_i :: format_int n ++ [c_e])%list -> raw v.
Proof.
  intros Hr [|fuel] r o buf Hf; rewrite Hr in *; [cbn in Hf; lia|]. cbn [app].
  change (readOneValue (S fuel) _) with
    (match readUntil c_e (mkBDecoder ((format_int n ++ [c_e]) ++ r) (o + 1) (buf ++ [c_i])) with
     | Ok d => Ok (true, buffer [c_e] d) | Err e => Err e end).
  rewrite <- app_assoc. cbn [app]. rewrite readUntil_app by (intros H; by apply format_separators in H as [? _]). rewrite buffer_mk.
  apply ok_raw; [cbn [length]; rewrite length_app; cbn [length]; lia|]. by rewrite <- !app_assoc.
Qed.

Lemma raw_string s : short s = true -> raw (VString s).
Proof.
  intros Hs [|fuel] r o buf Hf; [pose proof (reflect_length (VString s)); lia|]. unfold short in Hs. apply Z.leb_le in Hs.
  change DefaultDecodeMaxStrLen with 134217727 in Hs. cbn [reflectValue]. unfold reflectString, writeStringPrefix.
  destruct (format_length_cons (Z.of_nat (length s))) as (b & t & Hfm & Hd); [lia|]. rewrite Hfm. rewrite <- !app_assoc. cbn [app readOneValue d_r].
  assert (b <> c_e /\ b <> c_d /\ b <> c_l /\ b <> c_i) as (? & ? & ? & ?) by (split_and!; intros ->; done).
  rewrite !bool_decide_false by done. cbn [orb]. rewrite Hd. cbv zeta.
  rewrite advance_buffer. unfold read_one_string. cbn [d_buf].
  rewrite readUntil_app. 2:{ intros H3. assert (c_colon ∈ format_int (Z.of_nat (length s))) as Hin by (rewrite Hfm; by right). by apply format_separators in Hin as [_ ?]. }
  cbn [d_buf]. rewrite length_app. cbn [length]. rewrite Nat.add_sub, <- app_assoc, drop_app_length. cbn [app]. rewrite <- Hfm.
  rewrite ParseInt_format by (unfold in_i64; lia). cbv zeta.
  rewrite buffer_mk. cbn [d_r]. rewrite length_app.
  destruct (Z.ltb_spec (Z.of_nat (length s + length r)) (Z.of_nat (length s))); [lia|].
  rewrite Nat2Z.id, take_app_length, advance_app, buffer_mk. apply ok_raw.
  - cbn [app length]. rewrite length_app. cbn [length]. lia.
  - rewrite Hfm. by rewrite <- !app_assoc.
Qed.

Lemma raw_canonical v : canonical v = true -> raw v.
Proof.
  induction v as [n|n|s|l IH|d IH] using value_ind; intros Hc; cbn [canonical] in Hc.
  - by apply (raw_int n).
  - by apply (raw_int n).
  - by apply raw_string.
  - rewrite forallb_forall in Hc. intros fuel r o buf Hf. cbn [reflectValue] in *. apply raw_delimited; [by right| |].
    + rewrite Forall_forall in IH |- *. intros v Hin. apply IH; [done|]. apply Hc. by apply list_elem_of_In.
    + cbn [length] in Hf. rewrite length_app in Hf. cbn [length] in Hf. lia.
  - apply andb_true_iff in Hc as [Hi Hc]. rewrite forallb_forall in Hc.
    set (vs := concat (map (fun e => [VString (fst e); snd e]) d)).
    assert (concat (map write_entry d) = concat (map reflectValue vs)) as Hvs.
    { subst vs. clear. induction d as [|[k v] d IH]; [done|]. cbn [map concat app]. rewrite IH. unfold write_entry. cbn. by rewrite <- app_assoc. }
    intros fuel r o buf Hf. rewrite reflect_dict, Hvs in Hf |- * by done. apply raw_delimited; [by left| |].
    + rewrite List.Forall_forall in IH. rewrite Forall_forall. intros v Hin. subst vs. apply list_elem_of_In, in_concat in Hin as (p & ([k w] & <- & Hin)%in_map_iff & Hp).
      specialize (Hc (k, w) Hin). apply andb_true_iff in Hc as [Hk Hw]. destruct Hp as [<-|[<-|[]]]; cbn; [by apply raw_string|].
      by apply (IH (k, w)).
    + cbn [length] in Hf. rewrite length_app in Hf. cbn [length] in Hf. lia.
Qed.

(** ** Properties *)

(** C23: bencoding is canonical.  Decoding into an [interface{}] succeeds on exactly
    the encodings of values whose maps are listed in order, and returns that value:
    no two byte strings decode to the same value, whatever the input.  Encoding any
    value of these types and decoding it gives the value back, with its maps in
    order; and the decoder always returns. *)
Theorem bencode_is_canonical (data : bytes) (v : value) :
  (Unmarshal data = Ok v <-> canonical v = true /\ data = Marshal v) /\
  (go_value v = true -> Unmarshal (Marshal v) = Ok (sort_value v)) /\
  Unmarshal data <> Err OutOfFuel.
Proof.
  assert (forall w, canonical w = true -> Unmarshal (Marshal w) = Ok w) as Hfw.
  { intros w Hw. unfold Unmarshal, Marshal. pose proof (decodes_canonical w Hw) as H. unfold decodes, at_input in H.
    rewrite <- (app_nil_r (reflectValue w)). rewrite H; [done|]. unfold enough. cbn [d_r]. rewrite app_nil_r. lia. }
  split_and!.
  - split; [|by intros [Hc ->]; apply Hfw]. unfold Unmarshal. set (d := mkBDecoder data 0 []).
    destruct (parseValueInterface (enough d) d) as [[[w|] d']|] eqn:E; [|done..]. apply parse_inv in E as [Hc (Hr & _)]; [|done].
    destruct (length (d_r d') =? 0)%nat eqn:Hl; [|done]. intros [= <-]. split; [done|]. apply Nat.eqb_eq, nil_length_inv in Hl.
    rewrite Hl, app_nil_r in Hr. exact Hr.
  - intros Hg. destruct (go_value_sort v Hg) as [Hc Hr]. unfold Marshal. rewrite <- Hr. by apply Hfw.
  - unfold Unmarshal. set (d := mkBDecoder data 0 []).
    pose proof (proj1 (parse_fuel (enough d)) d eq_refl) as Hf. specialize (Hf ltac:(unfold enough; lia)).
    destruct (parseValueInterface (enough d) d) as [[[w|] d']|]; [|done|congruence]. by destruct (negb _).
Qed.

(** raw values are verbatim.  What an [Unmarshaler] such as [Bytes] is given
    (the info dictionary a torrent's hash is computed from) is byte for byte what
    stood in the input, and decoding continues right after it; the raw value of
    anything encoded is the whole encoding; and the reader always returns. *)
Theorem raw_value_is_verbatim (d : Decoder) :
  (forall s d', raw_value d = Ok (Some s, d') -> d_r d = (s ++ d_r d')%list /\ s <> [] /\ d_Offset d' = d_Offset d + Z.of_nat (length s)) /\
  (forall v r, go_value v = true -> d_r d = (Marshal v ++ r)%list -> exists d', raw_value d = Ok (Some (Marshal v), d') /\ d_r d' = r) /\
  raw_value d <> Err OutOfFuel.
Proof.
  unfold raw_value. set (d0 := d <| d_buf := [] |>). split_and!.
  - intros s d' H. destruct (readOneValue (enough d) d0) as [[ok d1]|] eqn:E; [|done]. destruct ok; [|done]. injection H as <- <-.
    apply readOneValue_copied in E as (s & (Hr & Ho & Hb) & Hs & _). specialize (Hs eq_refl). cbn in Hb. rewrite Hb. done.
  - intros v r Hg Hd. destruct (go_value_sort v Hg) as [Hc Hr]. unfold Marshal in *. rewrite <- Hr in *.
    pose proof (raw_canonical _ Hc (enough d) r (d_Offset d) []) as E.
    assert (d0 = mkBDecoder (reflectValue (sort_value v) ++ r) (d_Offset d) []) as -> by (subst d0; rewrite <- Hd; done).
    rewrite E; [by eexists|]. unfold enough. rewrite Hd, length_app. lia.
  - pose proof (proj1 (raw_fuel (enough d)) d0) as Hf. specialize (Hf ltac:(unfold enough; cbn; lia)).
    destruct (readOneValue (enough d) d0) as [[]|]; congruence.
Qed.

(** ** Examples *)

(** A map listed out of order, with a nested list. *)
Definition sample_value : value := VDict [([x62], VInt (-3)); ([x61], VList [VString [x78; x79]; VBig (2 ^ 70)])].

Lemma bencode_is_canonical_witness :
  Marshal sample_value = String.list_byte_of_string "d1:al2:xyi1180591620717411303424ee1:bi-3ee"%string /\
  Unmarshal (Marshal sample_value) = Ok (sort_value sample_value).
Proof.
  split; [vm_compute; reflexivity|].
  apply (proj1 (proj2 (bencode_is_canonical (Marshal sample_value) sample_value))). vm_compute. reflexivity.
Defined.

Lemma raw_value_is_verbatim_witness :
  exists d', raw_value (mkBDecoder (Marshal sample_value ++ [x65]) 7 []) = Ok (Some (Marshal sample_value), d') /\ d_r d' = [x65].
Proof.
  apply (proj1 (proj2 (raw_value_is_verbatim (mkBDecoder (Marshal sample_value ++ [x65]) 7 [])))); vm_compute; reflexivity.
Defined.
