(* ===== verification/LogQueue.v ===== *)
(** * Log sinks

    [internal/logging/async.go]: the queue between the producers of log records
    and one sink.  A ring buffer with a budget of records and bytes, one worker
    that writes records one at a time, [flush] calls that wait for what was
    accepted before them, and [stop], after which the worker drains the queue.

    The machine steps by critical sections of [mu].  The channel [changed] is
    closed and replaced by every signal; it is the number of signals so far, and
    whoever waits on the channel of signal [e] is woken when there was a later one.
    The ghost fields record what was accepted and what was handed to the sink. *)

From stdpp Require Import base gmap list strings.
From Stdlib Require Import ZArith Strings.Byte Lia.
From coqutil Require Import Byte.
From S2P Require Import Prelude.

#[local] Open Scope Z_scope.

#[local] Instance log_byte_eq_dec : EqDecision byte := Byte.byte_eq_dec.

Definition sinkQueueRecords : nat := 512.
Definition sinkQueueBytes : Z := Z.shiftl 2 20.
Definition maxLogRecordBytes : Z := Z.shiftl 64 10.

(** ** State *)

Record DroppedLevels := mkLevels { l_Debug : Z; l_Info : Z; l_Warn : Z; l_Error : Z; l_Unknown : Z }.
#[export] Instance DroppedLevels_eta : Eta DroppedLevels := fun l =>
  mkLevels (l_Debug l) (l_Info l) (l_Warn l) (l_Error l) (l_Unknown l).

(** The counters are [uint64], the queue's sizes [int]. *)
Record SinkStats := mkStats {
  s_Queued : Z;
  s_QueuedBytes : Z;
  s_InFlight : bool;
  s_Accepted : Z;
  s_Completed : Z;
  s_Dropped : Z;
  s_DroppedBytes : Z;
  s_Errors : Z;
  s_Closed : bool;
  s_RejectedAfterClose : Z;
  s_DroppedByLevel : DroppedLevels;
}.
#[export] Instance SinkStats_eta : Eta SinkStats := fun s =>
  mkStats (s_Queued s) (s_QueuedBytes s) (s_InFlight s) (s_Accepted s) (s_Completed s) (s_Dropped s) (s_DroppedBytes s)
    (s_Errors s) (s_Closed s) (s_RejectedAfterClose s) (s_DroppedByLevel s).

Record queuedLog := mkLog { ql_data : list byte; ql_at : Z }.

(** The zero value of an array element. *)
Definition no_log : queuedLog := mkLog [] 0.

(** Where the worker of [run] is. *)
Inductive worker :=
| Running
| Waiting (signal : nat)
| Writing (record : queuedLog)
| Cleaning
| Done.

(** A call of [flush]: its target and the signal it waits for, or its result. *)
Inductive flushing :=
| FlushTest (target : Z)
| FlushWaiting (target : Z) (signal : nat)
| FlushDone (target : Z)
| FlushCancelled.

Record sinkQueue := mkQueue {
  q_items : list queuedLog;
  q_head : nat;
  q_stats : SinkStats;
  q_changed : nat;
  q_worker : worker;
  q_flushes : gmap nat flushing;
  q_accepted : list queuedLog;
  q_written : list queuedLog;
}.
#[export] Instance sinkQueue_eta : Eta sinkQueue := fun q =>
  mkQueue (q_items q) (q_head q) (q_stats q) (q_changed q) (q_worker q) (q_flushes q) (q_accepted q) (q_written q).

Definition newSinkQueue : sinkQueue :=
  mkQueue (replicate sinkQueueRecords no_log) 0
    (mkStats 0 0 false 0 0 0 0 0 false 0 (mkLevels 0 0 0 0 0)) 0 Running ∅ [] [].

(** ** Operations *)

(** [bytes.Contains]. *)
Fixpoint starts_with (p sub : list byte) : bool :=
  match sub, p with
  | [], _ => true
  | c :: sub, b :: p => bool_decide (b = c) && starts_with p sub
  | _ :: _, [] => false
  end.

Fixpoint contains (p sub : list byte) : bool :=
  starts_with p sub || match p with [] => false | _ :: p => contains p sub end.

Definition tag (name : string) : list byte := String.list_byte_of_string name.

Definition add_level (p : list byte) (d : DroppedLevels) : DroppedLevels :=
  let p := take 64 p in
  if contains p (tag "[DEBUG]") then d <| l_Debug ::= fun n => u64 (n + 1) |>
  else if contains p (tag "[INFO]") then d <| l_Info ::= fun n => u64 (n + 1) |>
  else if contains p (tag "[WARN]") then d <| l_Warn ::= fun n => u64 (n + 1) |>
  else if contains p (tag "[ERROR]") then d <| l_Error ::= fun n => u64 (n + 1) |>
  else d <| l_Unknown ::= fun n => u64 (n + 1) |>.

Definition signalLocked (q : sinkQueue) : sinkQueue := q <| q_changed ::= S |>.

Definition size (p : list byte) : Z := Z.of_nat (length p).

Definition refused (q : sinkQueue) (p : list byte) : bool :=
  let s := q_stats q in
  s_Closed s || (s_Queued s =? Z.of_nat sinkQueueRecords) || (size p >? sinkQueueBytes - s_QueuedBytes s).

Definition drop_record (p : list byte) (s : SinkStats) : SinkStats :=
  let s := s <| s_Dropped ::= fun n => u64 (n + 1) |> <| s_DroppedByLevel ::= add_level p |>
             <| s_DroppedBytes ::= fun n => u64 (n + size p) |> in
  if s_Closed s then s <| s_RejectedAfterClose ::= fun n => u64 (n + 1) |> else s.

Definition enqueueAt (q : sinkQueue) (p : list byte) (time : Z) : sinkQueue :=
  if refused q p then q <| q_stats ::= drop_record p |>
  else
    let slot := ((q_head q + Z.to_nat (s_Queued (q_stats q))) mod sinkQueueRecords)%nat in
    signalLocked
      (q <| q_items ::= <[slot := mkLog p time]> |>
         <| q_stats ::= fun s => s <| s_Queued ::= fun n => n + 1 |> <| s_QueuedBytes ::= fun n => n + size p |>
                                   <| s_Accepted ::= fun n => u64 (n + 1) |> |>
         <| q_accepted ::= fun l => (l ++ [mkLog p time])%list |>).

(** The critical section at the head of the loop of [run]. *)
Definition run_take (q : sinkQueue) : sinkQueue :=
  if s_Queued (q_stats q) =? 0
  then q <| q_worker := if s_Closed (q_stats q) then Cleaning else Waiting (q_changed q) |>
  else
    let record := default no_log (q_items q !! q_head q) in
    q <| q_items ::= <[q_head q := no_log]> |>
      <| q_head ::= fun h => ((h + 1) mod sinkQueueRecords)%nat |>
      <| q_stats ::= fun s => s <| s_Queued ::= fun n => n - 1 |> <| s_QueuedBytes ::= fun n => n - size (ql_data record) |>
                                <| s_InFlight := true |> |>
      <| q_worker := Writing record |>.

(** The critical section after the write, which returned [n] and whether it failed. *)
Definition run_written (q : sinkQueue) (record : queuedLog) (n : Z) (failed : bool) : sinkQueue :=
  signalLocked
    (q <| q_stats ::= fun s =>
            (if failed || negb (n =? size (ql_data record)) then s <| s_Errors ::= fun n => u64 (n + 1) |> else s)
              <| s_Completed ::= fun n => u64 (n + 1) |> <| s_InFlight := false |> |>
       <| q_worker := Running |>
       <| q_written ::= fun l => (l ++ [record])%list |>).

Definition run_cleanup (q : sinkQueue) (failed : bool) : sinkQueue :=
  (if failed then q <| q_stats ::= fun s => s <| s_Errors ::= fun n => u64 (n + 1) |> |> else q) <| q_worker := Done |>.

Definition stop (q : sinkQueue) : sinkQueue :=
  if s_Closed (q_stats q) then q else signalLocked (q <| q_stats ::= fun s => s <| s_Closed := true |> |>).

(** [flush]: its first critical section, and the test of its loop. *)
Definition flush_test (q : sinkQueue) (target : Z) : flushing :=
  if s_Completed (q_stats q) <? target then FlushWaiting target (q_changed q) else FlushDone target.

Definition flush_start (q : sinkQueue) (id : nat) : sinkQueue :=
  q <| q_flushes ::= <[id := flush_test q (s_Accepted (q_stats q))]> |>.

Inductive queue_step (q : sinkQueue) : sinkQueue -> Prop :=
| step_enqueue p time : queue_step q (enqueueAt q p time)
| step_take : q_worker q = Running -> queue_step q (run_take q)
| step_wake signal : q_worker q = Waiting signal -> (signal < q_changed q)%nat -> queue_step q (q <| q_worker := Running |>)
| step_written record n failed : q_worker q = Writing record -> queue_step q (run_written q record n failed)
| step_cleanup failed : q_worker q = Cleaning -> queue_step q (run_cleanup q failed)
| step_stop : queue_step q (stop q)
| step_flush id : q_flushes q !! id = None -> queue_step q (flush_start q id)
| step_flush_wake id target signal : q_flushes q !! id = Some (FlushWaiting target signal) -> (signal < q_changed q)%nat ->
    queue_step q (q <| q_flushes ::= <[id := FlushTest target]> |>)
| step_flush_test id target : q_flushes q !! id = Some (FlushTest target) ->
    queue_step q (q <| q_flushes ::= <[id := flush_test q target]> |>)
| step_flush_cancel id target signal : q_flushes q !! id = Some (FlushWaiting target signal) ->
    queue_step q (q <| q_flushes ::= <[id := FlushCancelled]> |>).

Definition queue_reachable : sinkQueue -> Prop := rtc queue_step newSinkQueue.

(** ** Records *)

(** [utf8.RuneStart]. *)
Definition RuneStart (b : byte) : bool := negb (Z.land (byte.unsigned b) 192 =? 128).

(** The UTF-8 text of an ellipsis and [ [truncated]] with a line end. *)
Definition marker : list byte := ([xe2; x80; xa6] ++ tag " [truncated]" ++ [x0a])%list.

Fixpoint rune_end (p : list byte) (end_ : nat) : nat :=
  match end_ with
  | O => O
  | S e => if match p !! end_ with Some b => RuneStart b | None => true end then end_ else rune_end p e
  end.

(** [prepare] after [SanitizeText]. *)
Definition prepare (p : list byte) : list byte :=
  if size p <=? maxLogRecordBytes then p
  else (take (rune_end p (Z.to_nat (maxLogRecordBytes - size marker))) p ++ marker)%list.
