(* ===== verification/LogProperties.v ===== *)
(** * Properties of the log sinks

    The ring buffer of [LogQueue] is a first-in-first-out queue within its budget,
    no wake-up is lost, and a stopped sink is drained. *)

From stdpp Require Import base gmap list strings.
From Stdlib Require Import ZArith Strings.Byte Lia.
From coqutil Require Import Byte.
From S2P Require Import Prelude LogQueue.

#[local] Open Scope Z_scope.

(** ** The ring *)

Definition slot (h k : nat) : nat := ((h + k) mod sinkQueueRecords)%nat.

Definition ring_item (items : list queuedLog) (h k : nat) : queuedLog := default no_log (items !! slot h k).

(** The records waiting in the ring, oldest first. *)
Definition ring (items : list queuedLog) (h n : nat) : list queuedLog := map (ring_item items h) (seq 0 n).

#[local] Opaque sinkQueueRecords.

Lemma capacity_pos : (0 < sinkQueueRecords)%nat.
Proof. apply Nat.ltb_lt. vm_compute. reflexivity. Qed.
#[local] Hint Resolve capacity_pos : core.

Lemma slot_bound h k : (slot h k < sinkQueueRecords)%nat.
Proof. unfold slot. apply Nat.mod_upper_bound. pose proof capacity_pos. lia. Qed.

Lemma slot_inj h k k' : (h < sinkQueueRecords)%nat -> (k < sinkQueueRecords)%nat -> (k' < sinkQueueRecords)%nat -> slot h k = slot h k' -> k = k'.
Proof.
  unfold slot. intros Hh Hk Hk' E. pose proof (Nat.div_mod_eq (h + k) sinkQueueRecords). pose proof (Nat.div_mod_eq (h + k') sinkQueueRecords).
  pose proof (Nat.mod_upper_bound (h + k) sinkQueueRecords ltac:(lia)). pose proof (Nat.mod_upper_bound (h + k') sinkQueueRecords ltac:(lia)).
  set (a := ((h + k) / sinkQueueRecords)%nat) in *. set (b := ((h + k') / sinkQueueRecords)%nat) in *. rewrite E in *.
  assert (a = b \/ a < b \/ b < a)%nat as [->|[|]] by lia; [lia|exfalso; nia..].
Qed.

Lemma slot_0 h : (h < sinkQueueRecords)%nat -> slot h 0 = h.
Proof. intros. unfold slot. rewrite Nat.add_0_r. by apply Nat.mod_small. Qed.

Lemma slot_next h k : slot ((h + 1) mod sinkQueueRecords) k = slot h (S k).
Proof. unfold slot. rewrite Nat.Div0.add_mod_idemp_l. f_equal. lia. Qed.

Lemma ring_push items h n r : length items = sinkQueueRecords -> (h < sinkQueueRecords)%nat -> (n < sinkQueueRecords)%nat ->
  ring (<[slot h n := r]> items) h (S n) = (ring items h n ++ [r])%list.
Proof.
  intros Hl Hh Hn. unfold ring. rewrite seq_S, map_app. cbn [map Nat.add]. f_equal.
  - apply map_ext_in. intros k Hk%in_seq. unfold ring_item. rewrite list_lookup_insert_ne; [done|]. intros E. apply slot_inj in E; lia.
  - unfold ring_item. rewrite list_lookup_insert_eq; [done|]. rewrite Hl. apply slot_bound.
Qed.

Lemma ring_pop items h n : length items = sinkQueueRecords -> (h < sinkQueueRecords)%nat -> (S n <= sinkQueueRecords)%nat ->
  ring items h (S n) = default no_log (items !! h) :: ring (<[h := no_log]> items) ((h + 1) mod sinkQueueRecords) n.
Proof.
  intros Hl Hh Hn. unfold ring. cbn [seq map]. f_equal; [by unfold ring_item; rewrite slot_0|].
  rewrite <- seq_shift, map_map. apply map_ext_in. intros k Hk%in_seq. unfold ring_item. rewrite slot_next, list_lookup_insert_ne; [done|].
  rewrite <- (slot_0 h) at 1 by done. intros E. apply slot_inj in E; lia.
Qed.

Lemma ring_length items h n : length (ring items h n) = n.
Proof. unfold ring. by rewrite length_map, length_seq. Qed.

(** ** The invariant *)

Definition queued (q : sinkQueue) : list queuedLog := ring (q_items q) (q_head q) (Z.to_nat (s_Queued (q_stats q))).

Definition in_flight (q : sinkQueue) : list queuedLog := match q_worker q with Writing r => [r] | _ => [] end.

Definition total (l : list queuedLog) : Z := foldr (fun r n => size (ql_data r) + n) 0 l.

(** What a call of [flush] may rely on; [signal] is the number of signals. *)
Definition flush_ok (q : sinkQueue) (f : flushing) : Prop :=
  match f with
  | FlushTest target => True
  | FlushWaiting target signal => (signal <= q_changed q)%nat /\ (signal = q_changed q -> s_Completed (q_stats q) < target)
  | FlushDone target => Z.of_nat (length (q_accepted q)) < 2 ^ 64 -> target <= Z.of_nat (length (q_written q))
  | FlushCancelled => True
  end.

Record queue_ok (q : sinkQueue) : Prop := {
  ok_items : length (q_items q) = sinkQueueRecords;
  ok_head : (q_head q < sinkQueueRecords)%nat;
  ok_queued : 0 <= s_Queued (q_stats q) <= Z.of_nat sinkQueueRecords;
  ok_bytes : s_QueuedBytes (q_stats q) = total (queued q) /\ total (queued q) <= sinkQueueBytes;
  ok_order : q_accepted q = (q_written q ++ in_flight q ++ queued q)%list;
  ok_accepted : s_Accepted (q_stats q) = u64 (Z.of_nat (length (q_accepted q)));
  ok_completed : s_Completed (q_stats q) = u64 (Z.of_nat (length (q_written q)));
  ok_flight : s_InFlight (q_stats q) = bool_decide (in_flight q <> []);
  ok_worker : match q_worker q with
    | Waiting signal => (signal <= q_changed q)%nat /\ (signal = q_changed q -> s_Queued (q_stats q) = 0 /\ s_Closed (q_stats q) = false)
    | Cleaning | Done => s_Queued (q_stats q) = 0 /\ s_Closed (q_stats q) = true
    | Running | Writing _ => True
    end;
  ok_flushes : map_Forall (fun _ f => flush_ok q f) (q_flushes q);
}.

Lemma total_app l l' : total (l ++ l') = total l + total l'.
Proof. unfold total. induction l as [|r l IH]; cbn; [done|]. rewrite IH. lia. Qed.

Lemma new_ok : queue_ok newSinkQueue.
Proof. split; done. Qed.

(** Only signals, completions and accepted records matter to a waiting flush. *)
Lemma flush_ok_mono q q' f : (q_changed q <= q_changed q')%nat ->
  (q_changed q = q_changed q' -> s_Completed (q_stats q') = s_Completed (q_stats q)) ->
  (length (q_accepted q) <= length (q_accepted q'))%nat -> (length (q_written q) <= length (q_written q'))%nat ->
  flush_ok q f -> flush_ok q' f.
Proof.
  intros Hc Hs Ha Hw. destruct f as [| | |]; cbn; [done| | |done].
  - intros [Hle Hlt]. split; [lia|]. intros ->. assert (q_changed q = q_changed q') as E by lia. rewrite Hs by done. apply Hlt. lia.
  - intros H Hlen. transitivity (Z.of_nat (length (q_written q))); [apply H|]; lia.
Qed.

Lemma flushes_mono q q' : (q_changed q <= q_changed q')%nat ->
  (q_changed q = q_changed q' -> s_Completed (q_stats q') = s_Completed (q_stats q)) ->
  (length (q_accepted q) <= length (q_accepted q'))%nat -> (length (q_written q) <= length (q_written q'))%nat ->
  q_flushes q' = q_flushes q -> map_Forall (fun _ f => flush_ok q f) (q_flushes q) -> map_Forall (fun _ f => flush_ok q' f) (q_flushes q').
Proof. intros Hc Hs Ha Hw -> H id f Hf. apply (flush_ok_mono q); [done..|]. by apply (H id). Qed.

Lemma u64_succ n : u64 (u64 n + 1) = u64 (n + 1).
Proof. unfold u64. apply Zplus_mod_idemp_l. Qed.

Lemma len_snoc {A} (l : list A) x : Z.of_nat (length (l ++ [x])) = Z.of_nat (length l) + 1.
Proof. rewrite length_app. cbn [length]. lia. Qed.

#[local] Opaque u64.

(** The drop and error counters are not part of the invariant. *)
Lemma counters_ok q (g : SinkStats -> SinkStats) :
  (forall s, s_Queued (g s) = s_Queued s /\ s_QueuedBytes (g s) = s_QueuedBytes s /\ s_InFlight (g s) = s_InFlight s
    /\ s_Accepted (g s) = s_Accepted s /\ s_Completed (g s) = s_Completed s /\ s_Closed (g s) = s_Closed s) ->
  queue_ok q -> queue_ok (q <| q_stats ::= g |>).
Proof.
  intros Hg []. destruct q as [items h s ch w fl acc wr]. destruct (Hg s) as (E1 & E2 & E3 & E4 & E5 & E6).
  split; unfold queued, in_flight in *; cbn in *; rewrite ?E1, ?E2, ?E3, ?E4, ?E5, ?E6; try done.
  eapply flushes_mono; [..|exact ok_flushes0]; done.
Qed.

Lemma log_drop_ok q p : queue_ok q -> queue_ok (q <| q_stats ::= drop_record p |>).
Proof. apply counters_ok. intros s. unfold drop_record. destruct s as [? ? ? ? ? ? ? ? [] ?]; repeat split. Qed.

Lemma enqueue_ok q p time : queue_ok q -> queue_ok (enqueueAt q p time).
Proof.
  intros Hok. unfold enqueueAt. destruct (refused q p) eqn:Hr; [by apply log_drop_ok|].
  destruct Hok. destruct q as [items h s ch w fl acc wr]. unfold refused, queued, in_flight in *. cbn in *.
  apply orb_false_iff in Hr as [[Hc Hn]%orb_false_iff Hb]. apply Z.eqb_neq in Hn. rewrite Z.gtb_ltb in Hb. apply Z.ltb_ge in Hb.
  assert (Z.to_nat (s_Queued s + 1) = S (Z.to_nat (s_Queued s))) as En by lia.
  assert (ring (<[slot h (Z.to_nat (s_Queued s)) := mkLog p time]> items) h (Z.to_nat (s_Queued s + 1))
    = (ring items h (Z.to_nat (s_Queued s)) ++ [mkLog p time])%list) as Er by (rewrite En; apply ring_push; [done..|lia]).
  unfold slot in Er. split; unfold queued, in_flight; cbn.
  - by rewrite length_insert.
  - done.
  - lia.
  - rewrite Er, total_app. cbn. lia.
  - rewrite Er, ok_order0, <- !app_assoc. done.
  - by rewrite ok_accepted0, u64_succ, len_snoc.
  - done.
  - done.
  - destruct w; try done.
    + destruct ok_worker0. split; lia.
    + destruct ok_worker0. congruence.
    + destruct ok_worker0. congruence.
  - eapply flushes_mono; [..|exact ok_flushes0]; cbn; [lia..| |done|done]. rewrite length_app. lia.
Qed.

Lemma stop_ok q : queue_ok q -> queue_ok (stop q).
Proof.
  intros Hok. unfold stop. destruct (s_Closed (q_stats q)) eqn:Hc; [done|].
  destruct Hok. destruct q as [items h s ch w fl acc wr]. unfold queued, in_flight in *. cbn in *.
  split; cbn; try done.
  - destruct w; try done; destruct ok_worker0; [split; lia|done..].
  - eapply flushes_mono; [..|exact ok_flushes0]; cbn; done || lia.
Qed.

Lemma take_ok q : q_worker q = Running -> queue_ok q -> queue_ok (run_take q).
Proof.
  intros Hw []. destruct q as [items h s ch w fl acc wr]. unfold run_take, queued, in_flight in *. cbn in Hw. subst w. cbn in *.
  destruct (Z.eqb_spec (s_Queued s) 0) as [Hq|Hq].
  - destruct (s_Closed s) eqn:Hc; split; unfold queued, in_flight; cbn; try done.
  - assert (Z.to_nat (s_Queued s) = S (Z.to_nat (s_Queued s - 1))) as En by lia.
    rewrite En, ring_pop in ok_bytes0, ok_order0 by (done || lia). cbn [total foldr] in ok_bytes0.
    split; unfold queued, in_flight; cbn; try done.
    + by rewrite length_insert.
    + apply Nat.mod_upper_bound. lia.
    + lia.
    + fold (total (ring (<[h:=no_log]> items) ((h + 1) mod sinkQueueRecords) (Z.to_nat (s_Queued s - 1)))) in ok_bytes0.
      unfold size in *. lia.
Qed.

Lemma written_ok q record n failed : q_worker q = Writing record -> queue_ok q -> queue_ok (run_written q record n failed).
Proof.
  intros Hw []. destruct q as [items h s ch w fl acc wr]. unfold run_written, queued, in_flight in *. cbn in Hw. subst w. cbn in *.
  split; unfold queued, in_flight; destruct (failed || _); cbn; try done; try (rewrite <- app_assoc; exact ok_order0);
    try (rewrite ok_completed0, u64_succ, len_snoc; reflexivity);
    (eapply flushes_mono; [..|exact ok_flushes0]; cbn; [lia..|done| |done]; rewrite length_app; lia).
Qed.

Lemma cleanup_ok q failed : q_worker q = Cleaning -> queue_ok q -> queue_ok (run_cleanup q failed).
Proof.
  intros Hw []. destruct q as [items h s ch w fl acc wr]. unfold run_cleanup, queued, in_flight in *. cbn in Hw. subst w. cbn in *.
  destruct failed; (split; unfold queued, in_flight; cbn; [done..|]; eapply flushes_mono; [..|exact ok_flushes0]; done).
Qed.

Lemma wake_ok q signal : q_worker q = Waiting signal -> queue_ok q -> queue_ok (q <| q_worker := Running |>).
Proof.
  intros Hw []. destruct q as [items h s ch w fl acc wr]. unfold queued, in_flight in *. cbn in Hw. subst w. cbn in *.
  split; unfold queued, in_flight; cbn; [done..|]. eapply flushes_mono; [..|exact ok_flushes0]; done.
Qed.

Lemma set_flush_ok q id f : flush_ok q f -> queue_ok q -> queue_ok (q <| q_flushes ::= <[id := f]> |>).
Proof.
  intros Hf []. destruct q as [items h s ch w fl acc wr]. unfold queued, in_flight in *. cbn in *.
  split; unfold queued, in_flight; cbn; [done..|]. apply map_Forall_insert_2; done.
Qed.

Lemma flush_test_ok q target : queue_ok q -> flush_ok q (flush_test q target).
Proof.
  intros []. unfold flush_test. destruct (Z.ltb_spec (s_Completed (q_stats q)) target); cbn; [done|].
  intros Hlen. rewrite ok_completed0, u64_id in H; [done|]. rewrite ok_order0 in Hlen. rewrite length_app in Hlen. lia.
Qed.

Lemma step_ok q q' : queue_step q q' -> queue_ok q -> queue_ok q'.
Proof.
  intros [] Hok.
  - by apply enqueue_ok.
  - by apply take_ok.
  - by eapply wake_ok.
  - by apply written_ok.
  - by apply cleanup_ok.
  - by apply stop_ok.
  - apply set_flush_ok; [by apply flush_test_ok|done].
  - by apply set_flush_ok.
  - apply set_flush_ok; [by apply flush_test_ok|done].
  - by apply set_flush_ok.
Qed.

Lemma steps_ok q q' : rtc queue_step q q' -> queue_ok q -> queue_ok q'.
Proof. induction 1 as [|q q1 q' Hs _ IH]; [done|]. intros Hok. apply IH. by apply (step_ok q). Qed.

Lemma log_reachable_ok q : queue_reachable q -> queue_ok q.
Proof. intros H. apply (steps_ok _ _ H new_ok). Qed.

(** ** Accepted records *)

(** C36: In every state the sink's queue can reach, under any interleaving of producers, worker, flushes and [stop], the records accepted so far
    are, in order, the ones handed to the sink, the one being written and the ones in the ring: none is lost, repeated or reordered.  The ring holds
    [Queued] records of [QueuedBytes] bytes within its budgets, and [Accepted] and [Completed] count the records accepted and written.  A worker that
    waits for a signal that has not come has nothing to do. *)
Theorem log_records_delivered_once q : queue_reachable q ->
  q_accepted q = (q_written q ++ in_flight q ++ queued q)%list
  /\ s_Queued (q_stats q) = Z.of_nat (length (queued q)) /\ s_Queued (q_stats q) <= Z.of_nat sinkQueueRecords
  /\ s_QueuedBytes (q_stats q) = total (queued q) /\ s_QueuedBytes (q_stats q) <= sinkQueueBytes
  /\ s_Accepted (q_stats q) = u64 (Z.of_nat (length (q_accepted q)))
  /\ s_Completed (q_stats q) = u64 (Z.of_nat (length (q_written q)))
  /\ (q_worker q = Waiting (q_changed q) -> queued q = [] /\ s_Closed (q_stats q) = false).
Proof.
  intros []%log_reachable_ok. unfold queued in *. rewrite ring_length. repeat split; try done; try lia.
  - rewrite H in ok_worker0. destruct ok_worker0 as [_ [-> _]]; done.
  - rewrite H in ok_worker0. by destruct ok_worker0 as [_ [_ ?]].
Qed.

(** ** Flush *)

Definition flush_target (f : flushing) : option Z :=
  match f with FlushTest t | FlushWaiting t _ | FlushDone t => Some t | FlushCancelled => None end.

(** A call keeps its target, and what was accepted stays accepted. *)
Definition flush_keeps (id : nat) (t : Z) (q : sinkQueue) : Prop :=
  exists f, q_flushes q !! id = Some f /\ forall t', flush_target f = Some t' -> t' = t.

Lemma flush_test_target q t t' : flush_target (flush_test q t) = Some t' -> t' = t.
Proof. unfold flush_test. destruct (_ <? _); cbn; congruence. Qed.

Lemma set_flush_keeps q id t id' f g : q_flushes q !! id' = Some g -> (forall t', flush_target f = Some t' -> flush_target g = Some t') ->
  flush_keeps id t q -> flush_keeps id t (q <| q_flushes ::= <[id' := f]> |>).
Proof.
  intros Hg Hf (f0 & E & H). destruct (decide (id' = id)) as [->|].
  - exists f. cbn. rewrite lookup_insert_eq. split; [done|]. intros t' Ht'. apply H. rewrite Hg in E. injection E as <-. by apply Hf.
  - exists f0. cbn. by rewrite lookup_insert_ne.
Qed.

Lemma step_keeps q q' id t : queue_step q q' -> flush_keeps id t q -> flush_keeps id t q'.
Proof.
  intros [] Hk; try exact Hk.
  - unfold enqueueAt. by destruct (refused q p).
  - unfold run_take. by destruct (_ =? _).
  - unfold run_cleanup. by destruct failed.
  - unfold stop. by destruct (s_Closed _).
  - destruct Hk as (f & E & H1). exists f. split; [|done]. unfold flush_start. cbn. rewrite lookup_insert_ne; [done|]. intros ->. congruence.
  - eapply set_flush_keeps; [done| |done]. done.
  - eapply set_flush_keeps; [done| |done]. intros t' ->%flush_test_target. done.
  - eapply set_flush_keeps; [done| |done]. done.
Qed.

Lemma step_accepts q q' : queue_step q q' -> q_accepted q `prefix_of` q_accepted q'.
Proof.
  intros []; try done.
  - unfold enqueueAt. destruct (refused q p); [done|]. cbn. by apply prefix_app_r.
  - unfold run_take. by destruct (_ =? _).
  - unfold run_cleanup. by destruct failed.
  - unfold stop. by destruct (s_Closed _).
Qed.

Lemma steps_keep q q' id t : rtc queue_step q q' -> flush_keeps id t q -> flush_keeps id t q' /\ q_accepted q `prefix_of` q_accepted q'.
Proof.
  induction 1 as [|q q1 q' Hs _ IH]; [done|]. intros Hk. destruct IH as [Hk' Hp]; [by apply (step_keeps q)|].
  split; [done|]. etransitivity; [by apply step_accepts|done].
Qed.

(** A [flush] that returned without an error returned after every record accepted before it was called had been handed to the sink, whatever
    producers, other flushes and [stop] did meanwhile (as long as fewer than 2^64 records were accepted). *)
Theorem flush_waits_for_accepted q id q' target : queue_reachable q -> q_flushes q !! id = None ->
  rtc queue_step (flush_start q id) q' -> q_flushes q' !! id = Some (FlushDone target) -> Z.of_nat (length (q_accepted q')) < 2 ^ 64 ->
  q_accepted q `prefix_of` q_written q'.
Proof.
  intros Hr Hid Hsteps Hdone Hlen. pose proof (log_reachable_ok q Hr) as Hok.
  assert (queue_ok (flush_start q id)) as Hok1 by (apply (step_ok q); [by apply step_flush|done]).
  pose proof (steps_ok _ _ Hsteps Hok1) as Hok'.
  destruct (steps_keep _ _ id (s_Accepted (q_stats q)) Hsteps) as [(f & E & Ht) Hp].
  { eexists. unfold flush_start. cbn. rewrite lookup_insert_eq. split; [done|]. intros t'. apply flush_test_target. }
  rewrite Hdone in E. injection E as <-. specialize (Ht target eq_refl). cbn in Hp.
  pose proof (ok_flushes _ Hok' id _ Hdone Hlen) as Hw. pose proof (prefix_length _ _ Hp) as Hpl.
  rewrite Ht, (ok_accepted _ Hok), u64_id in Hw by lia.
  destruct (prefix_weak_total (q_accepted q) (q_written q') (q_accepted q')) as [H|H]; [done| |done|].
  - rewrite (ok_order _ Hok'). by apply prefix_app_r.
  - pose proof (prefix_length _ _ H). apply prefix_length_eq in H; [by rewrite H|lia].
Qed.

(** ** Stop *)

(** One step of the worker, [answer] being what the sink and its cleanup return. *)
Definition worker_step (answer : queuedLog -> Z * bool) (failed : bool) (q : sinkQueue) : sinkQueue :=
  match q_worker q with
  | Running => run_take q
  | Waiting signal => if bool_decide (signal < q_changed q)%nat then q <| q_worker := Running |> else q
  | Writing record => run_written q record (answer record).1 (answer record).2
  | Cleaning => run_cleanup q failed
  | Done => q
  end.

(** How many steps a stopped worker has left. *)
Definition steps_left (q : sinkQueue) : nat :=
  let n := Z.to_nat (s_Queued (q_stats q)) in
  match q_worker q with Running => 2 * n + 2 | Waiting _ | Writing _ => 2 * n + 3 | Cleaning => 1 | Done => 0 end.

Lemma take_left q : q_worker q = Running -> s_Closed (q_stats q) = true -> 0 <= s_Queued (q_stats q) ->
  (steps_left (run_take q) < steps_left q)%nat.
Proof.
  intros Hw Hc Hn. unfold run_take, steps_left. destruct (Z.eqb_spec (s_Queued (q_stats q)) 0); cbn; rewrite Hw, ?Hc; lia.
Qed.

Lemma written_left q record n failed : q_worker q = Writing record -> (steps_left (run_written q record n failed) < steps_left q)%nat.
Proof. intros Hw. unfold run_written, steps_left. rewrite Hw. destruct (failed || _); cbn; lia. Qed.

Lemma cleanup_left q failed : q_worker q = Cleaning -> (steps_left (run_cleanup q failed) < steps_left q)%nat.
Proof. intros Hw. unfold run_cleanup, steps_left. rewrite Hw. destruct failed; cbn; lia. Qed.

Lemma stopped_step q q' : queue_step q q' -> queue_ok q -> s_Closed (q_stats q) = true ->
  s_Closed (q_stats q') = true /\ q_accepted q' = q_accepted q
  /\ (q_worker q' = q_worker q /\ steps_left q' = steps_left q \/ (steps_left q' < steps_left q)%nat).
Proof.
  intros Hs Hok Hc. pose proof (ok_queued q Hok) as Hq. destruct Hs.
  - unfold enqueueAt, refused. rewrite Hc. cbn [orb]. unfold drop_record, steps_left. cbn. rewrite Hc. cbn. auto.
  - split_and!; [unfold run_take; by destruct (_ =? _)..|]. right. apply take_left; [done..|lia].
  - split_and!; [done..|]. right. unfold steps_left. rewrite H. cbn. lia.
  - split_and!; [unfold run_written; by destruct (failed || _)|done|]. right. by apply written_left.
  - split_and!; [unfold run_cleanup; by destruct failed..|]. right. by apply cleanup_left.
  - unfold stop. rewrite Hc. auto.
  - auto.
  - auto.
  - auto.
  - auto.
Qed.

Lemma worker_step_progress answer failed q : queue_ok q -> s_Closed (q_stats q) = true -> q_worker q <> Done ->
  queue_step q (worker_step answer failed q) /\ q_worker (worker_step answer failed q) <> q_worker q.
Proof.
  intros Hok Hc Hd. pose proof (ok_worker q Hok) as Hw. unfold worker_step. destruct (q_worker q) eqn:E; try done.
  - split; [by apply step_take|]. unfold run_take. destruct (_ =? _); cbn; rewrite ?Hc; done.
  - destruct Hw as [Hle Hcur]. rewrite bool_decide_true; [split; [by eapply step_wake; [done|]; destruct (decide (signal = q_changed q)) as [->|]; [destruct Hcur; congruence|lia]|done]|].
    destruct (decide (signal = q_changed q)) as [->|]; [destruct Hcur; congruence|lia].
  - split; [by apply step_written|]. unfold run_written. by destruct (_ || _).
  - split; [by apply step_cleanup|]. unfold run_cleanup. by destruct failed.
Qed.

Lemma steps_left_0 q : steps_left q = O -> q_worker q = Done.
Proof. unfold steps_left. destruct (q_worker q); lia || done. Qed.

Lemma worker_run answer failed n q : queue_ok q -> s_Closed (q_stats q) = true -> (steps_left q <= n)%nat ->
  q_worker (Nat.iter n (worker_step answer failed) q) = Done
  /\ q_written (Nat.iter n (worker_step answer failed) q) = q_accepted q.
Proof.
  revert q. induction n as [|n IH]; intros q Hok Hc Hn.
  - assert (q_worker q = Done) as Hd by (apply steps_left_0; lia). cbn. split; [done|].
    rewrite (ok_order q Hok). unfold in_flight, queued. pose proof (ok_worker q Hok) as Hw. rewrite Hd in *. destruct Hw as [-> _]. cbn. by rewrite app_nil_r.
  - rewrite Nat.iter_succ_r. destruct (decide (steps_left q = O)) as [H0|H0].
    + assert (worker_step answer failed q = q) as -> by (unfold worker_step; by rewrite steps_left_0). apply IH; [done..|lia].
    + assert (q_worker q <> Done) as Hd by (intros Hd; apply H0; unfold steps_left; by rewrite Hd).
      destruct (worker_step_progress answer failed q Hok Hc Hd) as [Hs Hne].
      destruct (stopped_step _ _ Hs Hok Hc) as (Hc' & Ha & Hl). rewrite <- Ha. apply IH; [by apply (step_ok q)|done|]. destruct Hl as [[? _]|]; [done|lia].
Qed.

(** C38: A stopped sink drains.  Whatever the sink and its cleanup answer, the worker ends within [steps_left] of its own steps, with every accepted record
    handed to the sink; until then its next step is enabled, and no step of anybody else adds a record or delays it. *)
Theorem stopped_sink_drains answer failed q : queue_reachable q -> s_Closed (q_stats q) = true ->
  (let q' := Nat.iter (steps_left q) (worker_step answer failed) q in q_worker q' = Done /\ q_written q' = q_accepted q)
  /\ (q_worker q <> Done -> queue_step q (worker_step answer failed q))
  /\ (forall q', queue_step q q' -> s_Closed (q_stats q') = true /\ q_accepted q' = q_accepted q
       /\ (q_worker q' = q_worker q /\ steps_left q' = steps_left q \/ (steps_left q' < steps_left q)%nat)).
Proof.
  intros Hok%log_reachable_ok Hc. split; [by apply worker_run|]. split.
  - intros Hd. by apply worker_step_progress.
  - intros q' Hs. by apply stopped_step.
Qed.

(** ** Long records *)

Lemma rune_end_le p n : (rune_end p n <= n)%nat.
Proof. induction n as [|n IH]; cbn; [done|]. destruct (match p !! _ with Some b => _ | None => _ end); lia. Qed.

(** A prepared record fits the byte budget of an empty queue. *)
Lemma prepare_bound p : size (prepare p) <= maxLogRecordBytes /\ maxLogRecordBytes <= sinkQueueBytes.
Proof.
  split; [|done]. unfold prepare. destruct (Z.leb_spec (size p) maxLogRecordBytes) as [|Hp]; [done|].
  pose proof (rune_end_le p (Z.to_nat (maxLogRecordBytes - size marker))) as He. revert He. generalize (rune_end p (Z.to_nat (maxLogRecordBytes - size marker))).
  intros e He. unfold size at 1. rewrite length_app, length_take, Nat2Z.inj_add. fold (size marker).
  assert (size marker = 16) as Em by done. assert (maxLogRecordBytes = 65536) as Eb by done. rewrite Em, Eb in *. lia.
Qed.

(** ** Witnesses *)

Definition first_log : list byte := tag "[INFO] started".

(** One record accepted, taken by the worker and not yet written. *)
Definition writing_queue : sinkQueue := run_take (enqueueAt newSinkQueue first_log 1).

Lemma writing_reachable : queue_reachable writing_queue.
Proof. eapply rtc_l; [apply (step_enqueue _ first_log 1)|]. apply rtc_once. apply step_take. reflexivity. Qed.

Lemma log_records_delivered_once_witness : q_accepted writing_queue = [mkLog first_log 1] /\ q_written writing_queue = []
  /\ q_accepted writing_queue = (q_written writing_queue ++ in_flight writing_queue ++ queued writing_queue)%list.
Proof. split; [reflexivity|]. split; [reflexivity|]. apply (log_records_delivered_once writing_queue writing_reachable). Defined.

Definition flushed_queue : sinkQueue :=
  let q := run_written (flush_start writing_queue 0) (mkLog first_log 1) 14 false in
  let q := q <| q_flushes ::= <[0%nat := FlushTest 1]> |> in
  q <| q_flushes ::= <[0%nat := flush_test q 1]> |>.

Lemma flush_waits_for_accepted_witness : q_flushes (flush_start writing_queue 0) !! 0%nat = Some (FlushWaiting 1 1)
  /\ q_accepted writing_queue `prefix_of` q_written flushed_queue.
Proof.
  split; [reflexivity|]. apply (flush_waits_for_accepted writing_queue 0 flushed_queue 1 writing_reachable); [reflexivity| |reflexivity|reflexivity].
  eapply rtc_l; [apply (step_written _ (mkLog first_log 1) 14 false); reflexivity|].
  eapply rtc_l; [apply (step_flush_wake _ 0 1 1); [reflexivity|apply Nat.ltb_lt; reflexivity]|].
  apply rtc_once. apply (step_flush_test _ 0 1). reflexivity.
Defined.

Lemma stopped_sink_drains_witness :
  steps_left (stop writing_queue) = 3%nat /\ let q := Nat.iter 3 (worker_step (fun _ => (0, true)) false) (stop writing_queue) in q_worker q = Done /\ q_written q = [mkLog first_log 1].
Proof.
  assert (queue_reachable (stop writing_queue)) as H by (eapply rtc_r; [apply writing_reachable|apply step_stop]).
  split; [reflexivity|]. apply (stopped_sink_drains (fun _ => (0, true)) false (stop writing_queue) H eq_refl).
Defined.
