(* ===== verification/Runtime.v ===== *)
(** * Managed torrents

    One attachment of a torrent to the engine: [ManagedTorrent] of
    [internal/engine/engine.go] together with the part of the library's torrent
    the engine controls (its gates, base priorities and write-error latch), and
    the operations that change a single attachment while [admissionMu] is held:
    [state_transition.go], [quiesce.go], [priority.go], [download_gate.go],
    [selection.go], [recheck.go], [observations.go], [restore.go],
    [missing_payload.go] and [refreshPeerDiscovery] of [swarm_watchdog.go].

    What the operations learn from outside the engine while they run (disk
    probes, persistence callbacks, the verifier) is an argument, [world]. *)

From stdpp Require Import base gmap strings list.
From Stdlib Require Import ZArith Lia.
From S2P Require Import Prelude Models Policy Progress.

Open Scope string_scope.

#[export] Instance ActivationBlockKind_countable : Countable ActivationBlockKind.
Proof.
  refine (inj_countable'
    (fun k => match k with
              | BlockVerification => (0%nat, "") | BlockMissingFiles => (1%nat, "")
              | BlockLegacyError => (2%nat, "") | BlockMetadataPersistence => (3%nat, "")
              | BlockInvalidSelection => (4%nat, "") | BlockOther s => (5%nat, s)
              end)
    (fun p => match p.1 with
              | 0%nat => BlockVerification | 1%nat => BlockMissingFiles
              | 2%nat => BlockLegacyError | 3%nat => BlockMetadataPersistence
              | 4%nat => BlockInvalidSelection | _ => BlockOther p.2
              end) _).
  by intros [].
Defined.

(** ** The library's torrent *)

Inductive PiecePriority := PiecePriorityNone | PiecePriorityNormal | PiecePriorityHigh.

#[export] Instance PiecePriority_eq_dec : EqDecision PiecePriority.
Proof. solve_decision. Defined.

(** The metadata the engine reads: the piece length and the offset and length of
    every file. *)
Record info := mkInfo {
  info_pieceLength : Z;
  info_files : list (Z * Z);
}.

(** What the engine reads and writes of [*torrent.Torrent].  [lib_info] is the
    metadata once it is known; [lib_writeError] is the latched write error,
    [true] when it is ENOSPC. *)
Record library := mkLibrary {
  lib_download : bool;
  lib_upload : bool;
  lib_networking : bool;
  lib_closed : bool;
  lib_info : option info;
  lib_writeError : option bool;
  lib_writeVersion : nat;
  lib_base : list PiecePriority;
  lib_selection : list nat;
}.

#[export] Instance eta_library : Eta library := fun l =>
  mkLibrary (lib_download l) (lib_upload l) (lib_networking l) (lib_closed l) (lib_info l)
    (lib_writeError l) (lib_writeVersion l) (lib_base l) (lib_selection l).

Definition Files (l : library) : list (Z * Z) :=
  match lib_info l with Some i => info_files i | None => [] end.
Definition file_count (l : library) : nat := length (Files l).
Definition has_info (l : library) : bool := match lib_info l with Some _ => true | None => false end.

Definition DisallowDataDownload (l : library) : library := l <| lib_download := false |>.
Definition DisallowDataUpload (l : library) : library := l <| lib_upload := false |>.
Definition AllowDataUpload (l : library) : library := l <| lib_upload := true |>.
Definition EnableNetworking (l : library) : library := l <| lib_networking := true |>.

(** [SetPriority(PiecePriorityNone)] on every file. *)
Definition clear_base (l : library) : library :=
  l <| lib_base := replicate (file_count l) PiecePriorityNone |>.

(** The library refuses to open the gate of a closed torrent or over a latched
    write error; the error tells whether the latch holds ENOSPC. *)
Definition AllowDataDownloadIfNoWriteError (l : library) : result bool library :=
  if lib_closed l then Err false
  else match lib_writeError l with
       | Some enospc => Err enospc
       | None => Ok (l <| lib_download := true |>)
       end.

Definition ClearWriteChunkErrorIfVersion (l : library) (version : nat) : option library :=
  if (version =? lib_writeVersion l)%nat then Some (l <| lib_writeError := None |>) else None.

(** The library's own reaction to a failed chunk write. *)
Definition write_failed (l : library) (enospc : bool) : library :=
  l <| lib_writeError := Some enospc |> <| lib_writeVersion ::= S |> <| lib_download := false |>.

(** Metadata arrives: the files appear with no priority of their own. *)
Definition got_info (l : library) (i : info) : library :=
  if has_info l then l else clear_base (l <| lib_info := Some i |>).

(** ** The attachment *)

Record RecheckOperation := mkOperation {
  op_ID : nat;
  op_Status : string;
}.

#[export] Instance eta_RecheckOperation : Eta RecheckOperation := fun o =>
  mkOperation (op_ID o) (op_Status o).

(** A check in progress: its identity (the pointer) and the public operation it
    reports to, if any. *)
Record verificationAttempt := mkAttempt {
  va_id : nat;
  va_operation : option nat;
}.

#[export] Instance verificationAttempt_eq_dec : EqDecision verificationAttempt.
Proof. solve_decision. Defined.

(** A preparation ticket; [pp_id] is its identity (the pointer). *)
Record payloadPreparation := mkPreparation {
  pp_id : nat;
  pp_epoch : nat;
  pp_fence : RuntimeFence;
  pp_slot : nat;
}.

#[export] Instance payloadPreparation_eq_dec : EqDecision payloadPreparation.
Proof. solve_decision. Defined.

Record IntentApplyFailure := mkFailure {
  iaf_RecordID : string;
  iaf_Revision : Z;
  iaf_Code : string;
}.

Record ManagedTorrent := mkManaged {
  mt_hash : string;
  mt_raw : nat;
  mt_t : library;
  mt_state : TorrentState;
  mt_err : ErrorReason;
  mt_downloadAllStarted : bool;
  mt_addedAt : Z;
  mt_filePriorities : gmap Z FilePriority;
  mt_initializing : bool;
  mt_downloadBlock : string;
  mt_downloadBlockPersisted : bool;
  mt_payloadCause : option string;
  mt_cancelled : bool;
  mt_rechecking : bool;
  mt_queuePosition : Z;
  mt_selectionComplete : bool;
  mt_recheckOperation : option RecheckOperation;
  mt_verificationUncertain : bool;
  mt_runtimeFence : RuntimeFence;
  mt_observationSequence : Z;
  mt_appliedIntentRevision : Z;
  mt_verificationAttempt : option verificationAttempt;
  mt_intentApplyFailure : option IntentApplyFailure;
  mt_terminal : bool;
  mt_policy : runtimePolicy;
  mt_policyEpoch : nat;
  mt_slotToken : nat;
  mt_preparation : option payloadPreparation;
  mt_healthProbe : option payloadPreparation;
  mt_pendingRecheckBytes : Z;
  mt_safetyBlocks : gmap ActivationBlockKind string;
  mt_expectedPayload : gset Z;
}.

#[export] Instance eta_ManagedTorrent : Eta ManagedTorrent := fun m =>
  mkManaged (mt_hash m) (mt_raw m) (mt_t m) (mt_state m) (mt_err m) (mt_downloadAllStarted m)
    (mt_addedAt m) (mt_filePriorities m) (mt_initializing m) (mt_downloadBlock m)
    (mt_downloadBlockPersisted m) (mt_payloadCause m) (mt_cancelled m) (mt_rechecking m)
    (mt_queuePosition m) (mt_selectionComplete m) (mt_recheckOperation m)
    (mt_verificationUncertain m) (mt_runtimeFence m) (mt_observationSequence m)
    (mt_appliedIntentRevision m) (mt_verificationAttempt m) (mt_intentApplyFailure m)
    (mt_terminal m) (mt_policy m) (mt_policyEpoch m) (mt_slotToken m) (mt_preparation m)
    (mt_healthProbe m) (mt_pendingRecheckBytes m) (mt_safetyBlocks m) (mt_expectedPayload m).

Inductive engineError :=
| ErrOperationConflict
| ErrCanceled
| ErrTransition (e : StateTransitionError)
| ErrDownloadBlocked (reason : string)
| ErrNotFound (hash : string)
| ErrPersistence
| ErrTaskLimit
| ErrMissingPayload
| ErrInvalid (text : string).

(** What one critical section learns from outside the engine: the disk probe's
    complaint, whether the metainfo file was saved, the outcome of the three
    persistence callbacks, of merging a stored spec and of starting a task,
    whether the file probed is absent, whether the torrent has active streams or
    readers, the library's piece states and verified bytes, and the clock.
    [w_live] tells whether the engine's context is still live when the section
    looks at it again: shutdown does not wait for [admissionMu]. *)
Record world := mkWorld {
  w_probe : option string;
  w_metadata : bool;
  w_saveBlock : bool;
  w_saveSafety : bool;
  w_saveVerification : bool;
  w_merge : bool;
  w_task : bool;
  w_missing : bool;
  w_streams : bool;
  w_readers : bool;
  w_runs : list PieceStateRun;
  w_completed : Z;
  w_now : Z;
  w_live : bool;
}.

(** [currentTorrent], asked again inside a section that found it true. *)
Definition still (w : world) (current : bool) : bool := current && w_live w.

(** ** State events *)

(** [applyStateEventLocked], after an accepted decision. *)
Definition install (mt : ManagedTorrent) (event : stateEvent) (d : stateDecision) : ManagedTorrent :=
  let mt := if decide (mt_policy mt = d_policy d) then mt else mt <| mt_policyEpoch ::= S |> in
  let mt := mt <| mt_policy := d_policy d |> in
  let mt := if slot (d_policy d) && bool_decide (ev_kind event = stateSlotRequested)
            then mt <| mt_slotToken ::= S |> else mt in
  let next := d_next d in
  let mt := mt <| mt_rechecking := vf_checking next |> <| mt_verificationUncertain := vf_uncertain next |>
               <| mt_initializing := vf_initializing next |> <| mt_downloadBlock := vf_diskBlock next |>
               <| mt_selectionComplete := d_selectionComplete d |>
               <| mt_state := vf_state next |> <| mt_err := vf_err next |>
               <| mt_terminal := d_terminal d |> in
  let mt := if bool_decide (ev_kind event = stateActivated) && ev_diskRecovered event
            then mt <| mt_safetyBlocks := ∅ |> <| mt_expectedPayload := ∅ |> else mt in
  let mt := if d_resetDownload d then mt <| mt_downloadAllStarted := false |> else mt in
  if d_invalidateApplied d then mt <| mt_appliedIntentRevision := 0%Z |> else mt.

Definition applyStateEventLocked (mt : ManagedTorrent) (event : stateEvent)
    : result engineError (stateDecision * ManagedTorrent) :=
  match runtimeTransition (mt_policy mt) event with
  | Err e => Err (ErrTransition e)
  | Ok d => Ok (d, install mt event d)
  end.

Definition applyVerificationEventLocked (mt : ManagedTorrent) (event : verificationEvent)
    : result engineError (stateDecision * ManagedTorrent) :=
  applyStateEventLocked mt ((event_of stateVerification) <| ev_verification := event |>).

(** ** Quiesce and safety faults *)

Definition applyQuiesceLocked (mt : ManagedTorrent) (d : stateDecision) (reason : string) : ManagedTorrent :=
  let mt := if d_closePayload d then mt <| mt_t ::= DisallowDataDownload |> else mt in
  let mt := if d_closeUpload d then mt <| mt_t ::= DisallowDataUpload |> else mt in
  let mt := mt <| mt_payloadCause ::= fun cause => Some (default reason cause) |> in
  if d_clearBasePriorities d && has_info (mt_t mt) then mt <| mt_t ::= clear_base |> else mt.

Definition safety_key (event : stateEventKind) : option (ActivationBlockKind * string) :=
  match event with
  | stateMetadataFailed => Some (BlockMetadataPersistence, ErrMetadataPersistence)
  | stateSelectionInvalid => Some (BlockInvalidSelection, ErrInvalidSelection)
  | statePayloadMissing => Some (BlockMissingFiles, ErrMissingFiles)
  | _ => None
  end.

Definition persistSafetyFaultLocked (w : world) (mt : ManagedTorrent) (event : stateEventKind)
    : ManagedTorrent * option engineError :=
  match safety_key event with
  | None => (mt, None)
  | Some (kind, reason) =>
      let mt := mt <| mt_safetyBlocks ::= <[kind := reason]> |> in
      if rf_Attachment (mt_runtimeFence mt) =? "" then (mt, None)
      else (mt, if w_saveSafety w then None else Some ErrPersistence)
  end.

(** [string(kind)]. *)
Definition event_text (kind : stateEventKind) : string :=
  match kind with
  | stateVerification => "verification"
  | stateSelectionObserved => "selection_observed"
  | stateSlotRequested => "slot_requested"
  | stateSlotReleased => "slot_released"
  | stateDiskBlocked => "disk_blocked"
  | statePaused => "paused"
  | stateRestoreStaged => "restore_staged"
  | stateApplyFailed => "apply_failed"
  | stateMetadataFailed => "metadata_failed"
  | stateSelectionInvalid => "selection_invalid"
  | stateRegistered => "registered"
  | stateActivated => "activated"
  | stateDeleted => "deleted"
  | stateClosed => "closed"
  | statePayloadMissing => "payload_missing"
  | stateUnknown => ""
  end.

Definition quiesceFaultLocked (w : world) (current : bool) (mt : ManagedTorrent) (kind : stateEventKind)
    : ManagedTorrent * option engineError :=
  if negb current then (mt, Some ErrOperationConflict)
  else match applyStateEventLocked mt (event_of kind) with
       | Err e => (mt, Some e)
       | Ok (d, mt) => persistSafetyFaultLocked w (applyQuiesceLocked mt d (event_text kind)) kind
       end.

(** ** File priorities *)

Definition mapToPiecePriority (prio : FilePriority) : PiecePriority :=
  if (prio =? PriorityNone)%Z then PiecePriorityNone
  else if (prio =? PriorityHigh)%Z then PiecePriorityHigh
  else PiecePriorityNormal.

Definition file_indices (files : nat) : list Z := Z.of_nat <$> seq 0 files.

Definition index_in_bounds (files : nat) (index : Z) : bool :=
  ((0 <=? index) && (index <? Z.of_nat files))%Z.

(** Every file without a saved priority gets [PriorityNormal]. *)
Definition default_priorities (files : nat) (priorities : gmap Z FilePriority) : gmap Z FilePriority :=
  foldl (fun m i => match m !! i with Some _ => m | None => <[i := PriorityNormal]> m end)
    priorities (file_indices files).

(** [mt.filePriorities[i]], whose zero value is [PriorityNormal]. *)
Definition priority_at (priorities : gmap Z FilePriority) (i : Z) : FilePriority :=
  default PriorityNormal (priorities !! i).

(** The base priority of a file: queued torrents have none. *)
Definition base_priority (p : runtimePolicy) (prio : FilePriority) : PiecePriority :=
  if negb (payloadEligible p) || (negb (slot p) && negb (payloadComplete p))
  then PiecePriorityNone else mapToPiecePriority prio.

Definition install_priorities (mt : ManagedTorrent) (files : nat) : ManagedTorrent :=
  let priorities := default_priorities files (mt_filePriorities mt) in
  mt <| mt_filePriorities := priorities |>
     <| mt_t ::= fun l =>
          l <| lib_selection := filter (fun i => priority_at priorities (Z.of_nat i) <> PriorityNone)
                                  (seq 0 files) |>
            <| lib_base := (fun i => base_priority (mt_policy mt) (priority_at priorities i))
                             <$> file_indices files |> |>.

Definition applyFilePrioritiesAndDownload (w : world) (mt : ManagedTorrent)
    : ManagedTorrent * option engineError :=
  match lib_info (mt_t mt) with
  | None => (mt, Some (ErrInvalid "metadata not ready"))
  | Some i =>
      let files := length (info_files i) in
      if mt_initializing mt then (mt, Some (ErrInvalid "torrent initialization is not complete"))
      else if forallb (index_in_bounds files) (map_to_list (mt_filePriorities mt)).*1
      then (install_priorities mt files, None)
      else match applyStateEventLocked mt (event_of stateSelectionInvalid) with
           | Err e => (mt, Some e)
           | Ok (d, mt) =>
               let mt := applyQuiesceLocked mt d "invalid file selection" in
               ((persistSafetyFaultLocked w mt stateSelectionInvalid).1,
                 Some (ErrInvalid "persisted file index out of bounds"))
           end
  end.

(** The three commands that change priorities, after the lookup of the torrent. *)
Definition setFilePriority (w : world) (mt : ManagedTorrent) (fileIndex : Z) (priority : FilePriority)
    : ManagedTorrent * option engineError :=
  if (fileIndex <? 0)%Z || negb (ValidFilePriority priority)
  then (mt, Some (ErrInvalid "invalid file priority"))
  else
    let changed := mt <| mt_filePriorities ::= <[fileIndex := priority]> |> <| mt_policyEpoch ::= S |> in
    match lib_info (mt_t mt) with
    | Some i =>
        if index_in_bounds (length (info_files i)) fileIndex then applyFilePrioritiesAndDownload w changed
        else (mt, Some (ErrInvalid "file index out of bounds"))
    | None => (changed, None)
    end.

Definition setTorrentFilesPriority (w : world) (mt : ManagedTorrent) (priority : FilePriority)
    : ManagedTorrent * option engineError :=
  if negb (ValidFilePriority priority) then (mt, Some (ErrInvalid "invalid file priority"))
  else
    let mt := mt <| mt_policyEpoch ::= S |> in
    match lib_info (mt_t mt) with
    | Some i =>
        applyFilePrioritiesAndDownload w
          (mt <| mt_filePriorities ::= fun m => foldl (fun m i => <[i := priority]> m) m
                                           (file_indices (length (info_files i))) |>)
    | None => (mt, Some (ErrInvalid "metadata not ready"))
    end.

Definition valid_entry (l : library) (entry : Z * FilePriority) : bool :=
  negb (entry.1 <? 0)%Z && negb (has_info l && (entry.1 >=? Z.of_nat (file_count l))%Z)
  && ValidFilePriority entry.2.

Definition setFilePriorities (w : world) (mt : ManagedTorrent) (priorities : gmap Z FilePriority)
    : ManagedTorrent * option engineError :=
  if negb (forallb (valid_entry (mt_t mt)) (map_to_list priorities))
  then (mt, Some (ErrInvalid "invalid file priority"))
  else
    let mt := mt <| mt_policyEpoch ::= S |> <| mt_filePriorities ::= fun old => priorities ∪ old |> in
    if has_info (mt_t mt) then applyFilePrioritiesAndDownload w mt else (mt, None).

(** ** Peer discovery *)

(** [refreshPeerDiscovery] on an attachment that is current: discovery opens the upload gate of a torrent that may
    upload, never the payload gate.  The connection limit of the boost, trackers and announcements are the library's. *)
Definition refresh_discovery (w : world) (noUpload downloadAll : bool) (mt : ManagedTorrent) : ManagedTorrent :=
  if negb (uploadEligible (mt_policy mt)) then mt
  else
    let mt := if noUpload then mt else mt <| mt_t ::= AllowDataUpload |> in
    if downloadAll then (applyFilePrioritiesAndDownload w mt).1 else mt.

(** ** Download gate *)

Definition minimumDiskBytes (MinFreeSpaceGB : Z) : Z :=
  let gb := (1024 * 1024 * 1024)%Z in
  let minimum := u64 (Z.max MinFreeSpaceGB 0) in
  if (minimum >? (2 ^ 64 - 1) / gb)%Z then (2 ^ 64 - 1)%Z else u64 (minimum * gb).

Definition blockDownloadLocked (w : world) (current : bool) (mt : ManagedTorrent) (reason : string)
    : ManagedTorrent * option engineError :=
  if negb current then (mt, Some ErrOperationConflict)
  else
    let changed := negb (mt_downloadBlock mt =? reason) in
    match applyStateEventLocked mt ((event_of stateDiskBlocked) <| ev_diskReason := reason |>) with
    | Err e => (mt, Some e)
    | Ok (_, mt) =>
        let mt := if changed then mt <| mt_downloadBlockPersisted := false |> else mt in
        let persist := negb (mt_downloadBlockPersisted mt) in
        let mt := mt <| mt_payloadCause ::= fun cause => Some (default reason cause) |>
                     <| mt_t ::= DisallowDataDownload |> in
        if persist then
          if w_saveBlock w then (mt <| mt_downloadBlockPersisted := true |>, None)
          else (mt, Some ErrPersistence)
        else (mt, None)
    end.

Definition write_reason (enospc : bool) : string :=
  if enospc then "Disk full: ENOSPC from payload writer" else "payload storage write failed".

(** [payloadWriteError], called with a nil error by every caller: it reads the
    library's latch. *)
Definition payloadWriteError (w : world) (current : bool) (mt : ManagedTorrent) : ManagedTorrent :=
  if negb current then mt
  else match lib_writeError (mt_t mt) with
       | None => mt
       | Some enospc => (blockDownloadLocked w (still w current) mt (write_reason enospc)).1
       end.

(** The first critical section of [admitPayloadLocked]: the refusals, and the
    ticket that stays visible while the lock is released. *)
Definition admit_begin (ticket : nat) (current cancelled : bool) (mt : ManagedTorrent)
    : result engineError ManagedTorrent :=
  let p := mt_policy mt in
  if cancelled then Err ErrCanceled
  else if negb (disk p =? "") then Err (ErrDownloadBlocked (disk p))
  else if initializing p || checking p || uncertain p
  then Err (ErrDownloadBlocked "torrent initialization is not complete")
  else if negb (payloadEligible p)
  then Err (ErrDownloadBlocked "torrent is not accepting payload downloads")
  else if negb current then Err ErrOperationConflict
  else match mt_preparation mt with
       | Some _ => Err ErrOperationConflict
       | None =>
           Ok (mt <| mt_preparation :=
                 Some (mkPreparation ticket (mt_policyEpoch mt) (mt_runtimeFence mt) (mt_slotToken mt)) |>)
       end.

Definition still_valid (ticket : payloadPreparation) (mt : ManagedTorrent) : bool :=
  (mt_policyEpoch mt =? pp_epoch ticket)%nat && bool_decide (mt_runtimeFence mt = pp_fence ticket).

(** The second critical section: nothing is opened unless the exact attachment,
    epoch, fence, slot and reservation still match.  [info] tells whether the
    metadata was known, hence saved, when the ticket was taken. *)
Definition admit_end (w : world) (ticket : payloadPreparation) (info current : bool) (mt : ManagedTorrent)
    : ManagedTorrent * option engineError :=
  let owned := bool_decide (mt_preparation mt = Some ticket) in
  let valid := still_valid ticket mt && payloadEligible (mt_policy mt)
               && (mt_slotToken mt =? pp_slot ticket)%nat && current && owned in
  let mt := if owned then mt <| mt_preparation := None |> else mt in
  if negb valid then (mt, Some ErrOperationConflict)
  else match w_probe w with
  | Some reason =>
      let '(mt, persistErr) := blockDownloadLocked w (still w current) mt reason in
      (mt, match persistErr with Some e => Some e | None => Some (ErrDownloadBlocked reason) end)
  | None =>
      if info && negb (w_metadata w)
      then ((quiesceFaultLocked w (still w current) mt stateMetadataFailed).1, Some ErrPersistence)
      else match applyFilePrioritiesAndDownload w mt with
      | (mt, Some e) => (mt, Some e)
      | (mt, None) =>
          match AllowDataDownloadIfNoWriteError (mt_t mt) with
          | Ok l => (mt <| mt_t := l |>, None)
          | Err enospc =>
              let '(mt, persistErr) := blockDownloadLocked w (still w current) mt (write_reason enospc) in
              (mt, match persistErr with
                   | Some e => Some e | None => Some (ErrDownloadBlocked (write_reason enospc)) end)
          end
      end
  end.

(** ** Selection and slots *)

Definition applyBackgroundReleaseLocked (w : world) (mt : ManagedTorrent) (d : stateDecision) : ManagedTorrent :=
  if d_clearBasePriorities d then
    let mt := mt <| mt_t ::= clear_base |> in
    if d_closeBackgroundPayload d && negb (w_streams w) then mt <| mt_t ::= DisallowDataDownload |> else mt
  else mt.

(** The facts [reconcileSelectionLocked] derives from the verified pieces: all
    selected files complete, all files complete, number of selected files. *)
Definition selection_facts (runs : list PieceStateRun) (i : info) (priorities : gmap Z FilePriority)
    : bool * bool * nat :=
  foldl (fun '(selection, all, selected) '(index, (offset, length)) =>
           let complete := file_complete runs (info_pieceLength i) offset length in
           let all := all && complete in
           if (priority_at priorities (Z.of_nat index) =? PriorityNone)%Z then (selection, all, selected)
           else (selection && complete, all, S selected))
    (true, true, 0%nat) (imap pair (info_files i)).

Definition reconcileSelectionLocked (w : world) (current : bool) (mt : ManagedTorrent) : ManagedTorrent :=
  if negb current then mt
  else match lib_info (mt_t mt) with
  | None => mt
  | Some i =>
      if mt_initializing mt || mt_rechecking mt || mt_verificationUncertain mt then mt
      else
        let '(selection, all, selected) := selection_facts (w_runs w) i (mt_filePriorities mt) in
        match applyStateEventLocked mt
                ((event_of stateSelectionObserved) <| ev_metadataKnown := true |>
                   <| ev_selectedComplete := selection |> <| ev_payloadComplete := all |>
                   <| ev_selectionEmpty := (selected =? 0)%nat |>) with
        | Err _ => mt
        | Ok (d, mt) => applyBackgroundReleaseLocked w mt d
        end
  end.

Definition releaseFailedSlotLocked (w : world) (current : bool) (mt : ManagedTorrent) : ManagedTorrent :=
  if negb current then mt
  else match applyStateEventLocked mt (event_of stateSlotReleased) with
       | Err _ => mt
       | Ok (d, mt) => applyBackgroundReleaseLocked w mt d
       end.

(** The critical sections of one turn of [manageResources]: take the health
    ticket; after the probe, settle the ticket and the selection; then ask for a
    slot and decide whether the payload has to be prepared. *)
Definition health_begin (ticket : nat) (current : bool) (mt : ManagedTorrent) : option ManagedTorrent :=
  if negb current then None
  else match mt_healthProbe mt with
       | Some _ => None
       | None => Some (mt <| mt_healthProbe :=
                         Some (mkPreparation ticket (mt_policyEpoch mt) (mt_runtimeFence mt) 0) |>)
       end.

(** [true] when the turn goes on to the slot request. *)
Definition health_settle (w : world) (ticket : payloadPreparation) (current : bool) (mt : ManagedTorrent)
    : ManagedTorrent * bool :=
  let owned := bool_decide (mt_healthProbe mt = Some ticket) in
  let valid := still_valid ticket mt && current && owned in
  let mt := if owned then mt <| mt_healthProbe := None |> else mt in
  if negb valid then (mt, false)
  else match w_probe w with
       | Some reason => ((blockDownloadLocked w (still w current) mt reason).1, false)
       | None => (reconcileSelectionLocked w (still w current) mt, true)
       end.

(** [None] when the slot was refused. *)
Definition request_slot (available : bool) (mt : ManagedTorrent) : option ManagedTorrent :=
  if slot (mt_policy mt) then Some mt
  else match applyStateEventLocked mt ((event_of stateSlotRequested) <| ev_slotAvailable := available |>) with
       | Err _ => None
       | Ok (_, mt) => Some mt
       end.

Definition must_prepare (mt : ManagedTorrent) : bool :=
  slot (mt_policy mt) && payloadEligible (mt_policy mt) && negb (mt_downloadAllStarted mt)
  && bool_decide (mt_preparation mt = None) && has_info (mt_t mt).

(** What [manageResources] does when the admission it asked for failed. *)
Definition admission_failed (w : world) (token : nat) (current : bool) (mt : ManagedTorrent) : ManagedTorrent :=
  if slot (mt_policy mt) && (mt_slotToken mt =? token)%nat
  then releaseFailedSlotLocked w (still w current) (mt <| mt_downloadAllStarted := false |>)
  else mt.

(** ** Verification *)

(** The outcome of a check: a failure, or a cancellation, which dominates when
    errors are joined. *)
Inductive verifyError := VerifyFailed | VerifyCanceled.

Definition join_verify (a b : option verifyError) : option verifyError :=
  match a, b with
  | Some VerifyCanceled, _ | _, Some VerifyCanceled => Some VerifyCanceled
  | Some VerifyFailed, _ | _, Some VerifyFailed => Some VerifyFailed
  | None, None => None
  end.

Definition persist_verification (w : world) : option verifyError :=
  if w_saveVerification w then None else Some VerifyFailed.

(** A write through [attempt.operation], the operation the torrent reports. *)
Definition set_operation_status (attempt : verificationAttempt) (status : string) (mt : ManagedTorrent)
    : ManagedTorrent :=
  match va_operation attempt, mt_recheckOperation mt with
  | Some id, Some operation =>
      if (id =? op_ID operation)%nat
      then mt <| mt_recheckOperation := Some (operation <| op_Status := status |>) |> else mt
  | _, _ => mt
  end.

Definition outcome_status (err : option verifyError) : string :=
  match err with
  | None => "succeeded" | Some VerifyFailed => "failed" | Some VerifyCanceled => "cancelled"
  end.

Definition outcome_event (err : option verifyError) : verificationEvent :=
  match err with
  | None => verificationSucceeded
  | Some VerifyFailed => verificationFailed
  | Some VerifyCanceled => verificationCancelled
  end.

(** The error [completeVerificationLocked] settles on: cancellation of the
    attachment is joined, otherwise the durable veto is updated. *)
Definition settled_outcome (w : world) (mt : ManagedTorrent) (err : option verifyError) : option verifyError :=
  if mt_cancelled mt then join_verify err (Some VerifyCanceled)
  else join_verify err (persist_verification w).

Definition completeVerificationLocked (w : world) (current BTNoUpload : bool)
    (attempt : verificationAttempt) (err : option verifyError) (mt : ManagedTorrent)
    : ManagedTorrent * bool :=
  let owned := bool_decide (mt_verificationAttempt mt = Some attempt) in
  if negb current then
    (if owned then (set_operation_status attempt "cancelled" mt) <| mt_verificationAttempt := None |> else mt,
      false)
  else if negb (owned && mt_rechecking mt) then (mt, false)
  else
    let err := settled_outcome w mt err in
    let mt := set_operation_status attempt (outcome_status err) mt in
    match applyVerificationEventLocked mt (outcome_event err) with
    | Err _ => (mt <| mt_verificationAttempt := None |>, true)
    | Ok (d, mt) =>
        let mt := mt <| mt_verificationAttempt := None |> in
        let mt := if d_closePayload d then mt <| mt_t ::= DisallowDataDownload |> else mt in
        let mt := if d_closeUpload d then mt <| mt_t ::= DisallowDataUpload |> else mt in
        let mt := if d_allowUpload d && negb BTNoUpload && negb (mt_cancelled mt)
                  then mt <| mt_t ::= AllowDataUpload |> else mt in
        (mt, true)
    end.

(** Whether [startRecheckLocked] gets past its refusals (and numbers a new
    operation). *)
Definition recheck_admitted (w : world) (mt : ManagedTorrent) : bool :=
  negb (mt_rechecking mt) && negb (mt_initializing mt) && has_info (mt_t mt) && negb (w_readers w).

Definition startRecheckLocked (w : world) (current BTNoUpload : bool) (attempt operation : nat)
    (mt : ManagedTorrent) : ManagedTorrent * result engineError (option RecheckOperation) :=
  if negb current then (mt, Err ErrCanceled)
  else if mt_rechecking mt then
    (mt, match mt_verificationAttempt mt with
         | Some {| va_operation := Some _ |} => Ok (mt_recheckOperation mt)
         | _ => Err ErrOperationConflict
         end)
  else if negb (recheck_admitted w mt) then (mt, Err ErrOperationConflict)
  else match applyVerificationEventLocked mt verificationBegin with
  | Err e => (mt, Err e)
  | Ok (_, mt) =>
      let a := mkAttempt attempt (Some operation) in
      let o := mkOperation operation "pending" in
      let mt := mt <| mt_recheckOperation := Some o |> <| mt_verificationAttempt := Some a |>
                   <| mt_t ::= DisallowDataDownload |> <| mt_t ::= DisallowDataUpload |>
                   <| mt_t ::= clear_base |> in
      if negb (w_saveVerification w) then
        ((completeVerificationLocked w (still w current) BTNoUpload a (Some VerifyFailed) mt).1, Err ErrPersistence)
      else if negb (w_task w) then
        ((completeVerificationLocked w (still w current) BTNoUpload a (Some VerifyFailed) mt).1, Err ErrTaskLimit)
      else (mt, Ok (Some o))
  end.

(** The verification task's first section: the check runs only for its own
    attempt on a live attachment. *)
Definition begin_check (attempt : verificationAttempt) (mt : ManagedTorrent) : option ManagedTorrent :=
  if negb (bool_decide (mt_verificationAttempt mt = Some attempt)) || mt_cancelled mt then None
  else Some (set_operation_status attempt "running" mt).

Definition verifyInactive_begin (w : world) (current BTNoUpload : bool) (attempt : nat) (mt : ManagedTorrent)
    : ManagedTorrent * option engineError :=
  let p := mt_policy mt in
  if negb (bool_decide (run p = RunPaused)) || checking p || terminal p
  then (mt, Some (ErrInvalid "inactive verification conflicts with current operation"))
  else match applyVerificationEventLocked mt verificationBegin with
  | Err e => (mt, Some e)
  | Ok (_, mt) =>
      let a := mkAttempt attempt None in
      let mt := mt <| mt_verificationAttempt := Some a |> <| mt_t ::= DisallowDataDownload |>
                   <| mt_t ::= DisallowDataUpload |> in
      if w_saveVerification w then (mt, None)
      else ((completeVerificationLocked w (still w current) BTNoUpload a (Some VerifyFailed) mt).1, Some ErrPersistence)
  end.

Definition restoreVerificationBlock (mt : ManagedTorrent) : ManagedTorrent * option engineError :=
  match applyVerificationEventLocked mt verificationRestored with
  | Err e => (mt, Some e)
  | Ok (_, mt) => (mt <| mt_t ::= DisallowDataDownload |> <| mt_t ::= DisallowDataUpload |>, None)
  end.

(** ** Binding and observations *)

Definition valid_binding (fence : RuntimeFence) : bool :=
  negb (rf_Attachment fence =? "") && negb (iv_RecordID (rf_version fence) =? "")
  && negb (iv_Revision (rf_version fence) <? 1)%Z.

(** [bindRuntime], after the lookup of the torrent. *)
Definition bind (w : world) (fence : RuntimeFence) (applied : Z) (mt : ManagedTorrent)
    : ManagedTorrent * option engineError :=
  let old := rf_version (mt_runtimeFence mt) in
  let new := rf_version fence in
  if (0 <? applied)%Z && mt_initializing mt then (mt, Some ErrOperationConflict)
  else if negb (iv_RecordID old =? "")
          && (negb (iv_RecordID old =? iv_RecordID new) || (iv_Revision new <? iv_Revision old)%Z)
  then (mt, Some ErrOperationConflict)
  else if mt_verificationUncertain mt && negb (w_saveVerification w) then (mt, Some ErrPersistence)
  else if negb (bool_decide (mt_safetyBlocks mt = ∅)) && negb (w_saveSafety w) then (mt, Some ErrPersistence)
  else
    let mt := mt <| mt_runtimeFence := fence |> <| mt_observationSequence := 0%Z |>
                 <| mt_appliedIntentRevision := applied |> in
    (if (0 <? applied)%Z then mt <| mt_intentApplyFailure := None |> else mt, None).

Definition intent_failure_codes : list string :=
  ["intent_commit_failed"; "runtime_stage_failed"; "runtime_apply_failed"; "runtime_bind_failed"].

Definition failIntentApply (v : IntentVersion) (code : string) (mt : ManagedTorrent)
    : ManagedTorrent * option engineError :=
  let bound := rf_version (mt_runtimeFence mt) in
  if (negb (iv_RecordID bound =? "") && negb (iv_RecordID bound =? iv_RecordID v))
     || (iv_Revision v <? iv_Revision bound)%Z
     || match mt_intentApplyFailure mt with Some f => (iv_Revision v <? iaf_Revision f)%Z | None => false end
  then (mt, Some ErrOperationConflict)
  else match applyStateEventLocked mt (event_of stateApplyFailed) with
  | Err e => (mt, Some e)
  | Ok (d, mt) =>
      (applyQuiesceLocked
         (mt <| mt_intentApplyFailure := Some (mkFailure (iv_RecordID v) (iv_Revision v) code) |>)
         d "intent reconciliation required", None)
  end.

(** The identity part of an observation: fence, sequence and applied revision. *)
Definition captureObservation (mt : ManagedTorrent)
    : ManagedTorrent * result engineError (RuntimeFence * Z * Z) :=
  if (rf_Attachment (mt_runtimeFence mt) =? "") || (mt_observationSequence mt =? max_i64)%Z
  then (mt, Err ErrOperationConflict)
  else
    let mt := mt <| mt_observationSequence ::= Z.succ |> in
    (mt, Ok (mt_runtimeFence mt, mt_observationSequence mt, mt_appliedIntentRevision mt)).

(** ** Restore, pause and resume *)

(** The fields of a persisted torrent the engine restores. *)
Record saved := mkSaved {
  sv_State : TorrentState;
  sv_Error : ErrorReason;
  sv_DownloadBlock : string;
  sv_QueuePosition : Z;
  sv_Files : list (Z * FilePriority);
}.

Definition persistedPriorities (s : saved) (l : library) : result engineError (gmap Z FilePriority) :=
  if forallb (valid_entry l) (sv_Files s)
  then Ok (foldl (fun m '(index, priority) => <[index := priority]> m) ∅ (sv_Files s))
  else Err (ErrInvalid "invalid persisted file priority").

Definition stageExistingRestore (s : saved) (mt : ManagedTorrent) : ManagedTorrent * option engineError :=
  if mt_rechecking mt || mt_verificationUncertain mt then (mt, Some ErrOperationConflict)
  else match persistedPriorities s (mt_t mt) with
  | Err e => (mt, Some e)
  | Ok priorities =>
      match applyStateEventLocked mt (event_of stateRestoreStaged) with
      | Err e => (mt, Some e)
      | Ok (d, mt) =>
          (applyQuiesceLocked
             (mt <| mt_filePriorities := priorities |> <| mt_queuePosition := sv_QueuePosition s |>)
             d "torrent initialization is not complete", None)
      end
  end.

(** [pauseWithIntent]: the gate closes before the event. *)
Definition pauseWithIntent (s : option saved) (mt : ManagedTorrent) : ManagedTorrent * option engineError :=
  match match s with Some s => persistedPriorities s (mt_t mt) | None => Ok (mt_filePriorities mt) end with
  | Err e => (mt, Some e)
  | Ok priorities =>
      let mt := mt <| mt_t ::= DisallowDataDownload |> in
      match applyStateEventLocked mt ((event_of statePaused) <| ev_fullReconcile := bool_decide (is_Some s) |>) with
      | Err e => (mt, Some e)
      | Ok (d, mt) =>
          let mt := match s with
                    | Some s => mt <| mt_filePriorities := priorities |> <| mt_queuePosition := sv_QueuePosition s |>
                    | None => mt
                    end in
          (applyQuiesceLocked mt d "torrent is paused", None)
      end
  end.

(** The event [FinishRestore] prepares before it releases the lock. *)
Definition restore_event (phase : TorrentState) (mt : ManagedTorrent) : stateEvent :=
  (event_of stateActivated) <| ev_phase := phase |> <| ev_err := mt_err mt |> <| ev_fullReconcile := true |>.

Definition inactive_state (s : TorrentState) : bool :=
  match s with StatePaused | StateError | StateMissingFiles | StateDiskFull => true | _ => false end.

(** The last section of [FinishRestore]: the event and its effects. *)
Definition finish_apply (w : world) (current BTNoUpload : bool) (event : stateEvent) (mt : ManagedTorrent)
    : ManagedTorrent * option engineError :=
  match applyStateEventLocked mt event with
  | Err e => (mt, Some e)
  | Ok (d, mt) =>
      let mt := if ev_diskRecovered event then mt <| mt_downloadBlockPersisted := false |> else mt in
      let inactive := inactive_state (vf_state (d_next d)) in
      let mt := if inactive then mt else mt <| mt_payloadCause := None |> in
      if negb inactive && negb (lib_networking (mt_t mt)) && negb (w_merge w)
      then ((quiesceFaultLocked w (still w current) mt stateApplyFailed).1, Some (ErrInvalid "merge"))
      else
        let mt := if inactive then mt else mt <| mt_t ::= EnableNetworking |> in
        let mt := mt <| mt_t ::= DisallowDataDownload |> in
        let mt := if d_allowUpload d && negb BTNoUpload then mt <| mt_t ::= AllowDataUpload |> else mt in
        let mt := if d_closeUpload d then mt <| mt_t ::= DisallowDataUpload |> else mt in
        (if inactive && has_info (mt_t mt) then mt <| mt_t ::= clear_base |> else mt, None)
  end.

(** After the first unlocked work: metadata and selection faults.  [None] means
    the command goes on. *)
Definition finish_checks (w : world) (info current : bool) (mt : ManagedTorrent)
    : ManagedTorrent * option engineError :=
  if info && negb (w_metadata w)
  then ((quiesceFaultLocked w (still w current) mt stateMetadataFailed).1, Some ErrPersistence)
  else if negb (forallb (valid_entry (mt_t mt)) (map_to_list (mt_filePriorities mt)))
  then ((quiesceFaultLocked w (still w current) mt stateSelectionInvalid).1,
        Some (ErrInvalid "persisted file index out of bounds"))
  else (mt, None).

(** After the disk probe of an explicit Resume: a disk error or a write error
    that arrived meanwhile blocks; the durable block is cleared. *)
Definition resume_recovered (w : world) (version : nat) (current : bool) (mt : ManagedTorrent)
    : ManagedTorrent * option engineError :=
  match w_probe w with
  | Some reason =>
      let '(mt, persistErr) := blockDownloadLocked w (still w current) mt reason in
      (mt, match persistErr with Some e => Some e | None => Some (ErrDownloadBlocked reason) end)
  | None =>
      match ClearWriteChunkErrorIfVersion (mt_t mt) version with
      | None =>
          let reason := "payload write failed during Resume" in
          let '(mt, persistErr) := blockDownloadLocked w (still w current) mt reason in
          (mt, match persistErr with Some e => Some e | None => Some (ErrDownloadBlocked reason) end)
      | Some l =>
          let mt := mt <| mt_t := l |> in
          if w_saveBlock w then (mt, None) else (mt, Some ErrPersistence)
      end
  end.

(** [resumeLocked] before and after the probe. *)
Definition resume_begin (mt : ManagedTorrent) : result engineError ManagedTorrent :=
  if mt_rechecking mt || mt_verificationUncertain mt then Err ErrOperationConflict
  else if mt_initializing mt then Err (ErrInvalid "torrent initialization is not complete")
  else Ok (mt <| mt_t ::= DisallowDataDownload |>).

Definition resume_end (w : world) (version : nat) (current : bool) (mt : ManagedTorrent)
    : ManagedTorrent * option engineError :=
  match resume_recovered w version current mt with
  | (mt, Some e) => (mt, Some e)
  | (mt, None) =>
      match applyStateEventLocked mt
              ((event_of stateActivated) <| ev_phase := StateQueued |> <| ev_diskRecovered := true |>) with
      | Err e => (mt, Some e)
      | Ok (_, mt) =>
          let mt := mt <| mt_downloadBlockPersisted := false |> <| mt_payloadCause := None |> in
          if has_info (mt_t mt) then
            match applyFilePrioritiesAndDownload w mt with
            | (mt, Some e) => (mt, Some e)
            | (mt, None) => (mt <| mt_t ::= AllowDataUpload |>, None)
            end
          else (mt, None)
      end
  end.

(** ** Missing payload *)

Definition verification_veto (mt : ManagedTorrent) : bool :=
  mt_initializing mt || mt_rechecking mt || mt_verificationUncertain mt.

Definition missing_end (w : world) (current : bool) (mt : ManagedTorrent) : ManagedTorrent * option engineError :=
  if negb (w_missing w) then (mt, None)
  else match quiesceFaultLocked w (still w current) mt statePayloadMissing with
       | (mt, Some e) => (mt, Some e)
       | (mt, None) => (mt, Some ErrMissingPayload)
       end.

Definition rememberExpectedPayload (index : Z) (ready : bool) (mt : ManagedTorrent) : ManagedTorrent * bool :=
  let mt := if ready && negb (mt_terminal mt) then mt <| mt_expectedPayload ::= fun s => {[index]} ∪ s |> else mt in
  (mt, bool_decide (index ∈ mt_expectedPayload mt)).

(** ** Creation and retirement *)

(** The literal and the event of [registerTorrent]. *)
Definition zero_managed (hash : string) (raw : nat) (l : library) (now : Z) : ManagedTorrent :=
  mkManaged hash raw l StateNone "" false now ∅ false "" false None false false 0 false None false
    zero_fence 0 0 None None false zero_policy 0 0 None None 0 ∅ ∅.

Definition registration_event (s : option saved) : stateEvent :=
  match s with
  | None => (event_of stateRegistered) <| ev_phase := StateQueued |>
  | Some s => (event_of stateRegistered) <| ev_phase := sv_State s |> <| ev_err := sv_Error s |>
                <| ev_diskReason := sv_DownloadBlock s |> <| ev_staged := true |>
  end.

Definition new_managed (hash : string) (raw : nat) (l : library) (now : Z) (s : option saved) : ManagedTorrent :=
  let mt := zero_managed hash raw l now in
  match s with
  | None => mt
  | Some s =>
      mt <| mt_queuePosition := sv_QueuePosition s |>
         <| mt_downloadBlockPersisted := negb (sv_DownloadBlock s =? "") |>
         <| mt_filePriorities := foldl (fun m '(index, priority) => <[index := priority]> m) ∅ (sv_Files s) |>
  end.

(** The event and quiesce of [Delete] and [Close]. *)
Definition retire (kind : stateEventKind) (reason : string) (mt : ManagedTorrent) : ManagedTorrent :=
  match applyStateEventLocked mt (event_of kind) with
  | Err _ => mt
  | Ok (d, mt) => applyQuiesceLocked mt d reason
  end.
