(* ===== verification/RuntimeSafety.v ===== *)
(** * Safety of a managed torrent

    The invariant of one attachment and the proof that every operation of
    [Runtime] keeps it: the policy is well formed, the copied projections agree
    with it, the library's download gate is open only while the policy permits
    payload, and (engine Resume apart) the upload gate only while it permits
    uploads.  The lemmas are collected in the hint database [runtime]. *)

From stdpp Require Import base gmap strings list.
From Stdlib Require Import ZArith Lia.
From S2P Require Import Prelude Models Policy Progress Runtime.

Open Scope string_scope.

(** ** Invariant of an attachment *)

(** The projections copied by [applyStateEventLocked] agree with the policy. *)
Definition copied (mt : ManagedTorrent) : Prop :=
  let p := mt_policy mt in
  (mt_state mt, mt_err mt) = projection p /\ mt_rechecking mt = checking p /\
  mt_verificationUncertain mt = uncertain p /\ mt_initializing mt = initializing p /\
  mt_downloadBlock mt = disk p /\ mt_selectionComplete mt = selectedComplete p /\
  mt_terminal mt = terminal p.

Definition runtime_facts (mt : ManagedTorrent) : Prop :=
  policy_ok (mt_policy mt) /\ (registered (mt_policy mt) = true -> copied mt).

Definition gate_ok (mt : ManagedTorrent) : Prop :=
  lib_download (mt_t mt) = true -> payloadEligible (mt_policy mt) = true.

Definition upload_ok (mt : ManagedTorrent) : Prop :=
  lib_upload (mt_t mt) = true -> uploadEligible (mt_policy mt) = true.

(** [strict] also asks for the upload gate. *)
Definition runtime_ok (strict : bool) (mt : ManagedTorrent) : Prop :=
  runtime_facts mt /\ gate_ok mt /\ (strict = true -> upload_ok mt).

(** An accepted event that revokes a permission tells its caller to close the
    corresponding gate. *)
Lemma revoking_event_closes (p : runtimePolicy) (event : stateEvent) (d : stateDecision) :
  runtimeTransition p event = Ok d ->
  (payloadEligible p = true -> payloadEligible (d_policy d) = true \/ d_closePayload d = true) /\
  (uploadEligible p = true -> uploadEligible (d_policy d) = true \/ d_closeUpload d = true).
Proof.
  assert (Hneg : forall b, b = true \/ negb b = true) by (intros []; auto).
  intros H. transition_cases H; cbn; split; intros; auto.
Qed.

Lemma event_inv (mt : ManagedTorrent) (event : stateEvent) (d : stateDecision) (mt' : ManagedTorrent) :
  applyStateEventLocked mt event = Ok (d, mt') ->
  runtimeTransition (mt_policy mt) event = Ok d /\ mt' = install mt event d.
Proof. unfold applyStateEventLocked. intros. by destruct (runtimeTransition _ _); simplify_eq. Qed.

(** [install] writes the policy, its projections and a few counters only. *)
Lemma install_view (mt : ManagedTorrent) (event : stateEvent) (d : stateDecision) :
  mt_policy (install mt event d) = d_policy d /\ mt_t (install mt event d) = mt_t mt /\
  (mt_state (install mt event d), mt_err (install mt event d)) = (vf_state (d_next d), vf_err (d_next d)) /\
  mt_rechecking (install mt event d) = vf_checking (d_next d) /\
  mt_verificationUncertain (install mt event d) = vf_uncertain (d_next d) /\
  mt_initializing (install mt event d) = vf_initializing (d_next d) /\
  mt_downloadBlock (install mt event d) = vf_diskBlock (d_next d) /\
  mt_selectionComplete (install mt event d) = d_selectionComplete d /\
  mt_terminal (install mt event d) = d_terminal d /\
  mt_hash (install mt event d) = mt_hash mt /\ mt_raw (install mt event d) = mt_raw mt.
Proof.
  unfold install.
  destruct (decide _), (_ && bool_decide (_ = stateSlotRequested)), (_ && ev_diskRecovered event),
    (d_resetDownload d), (d_invalidateApplied d); by repeat split.
Qed.

Lemma decision_copies (p : runtimePolicy) (event : stateEvent) (d : stateDecision) :
  runtimeTransition p event = Ok d ->
  let n := d_policy d in
  (vf_state (d_next d), vf_err (d_next d)) = projection n /\ vf_checking (d_next d) = checking n /\
  vf_uncertain (d_next d) = uncertain n /\ vf_initializing (d_next d) = initializing n /\
  vf_diskBlock (d_next d) = disk n /\ d_selectionComplete d = selectedComplete n /\
  d_terminal d = terminal n.
Proof.
  intros (_ & _ & n & d0 & _ & ->)%runtimeTransition_inv. cbn. repeat split. by destruct (projection n).
Qed.

Lemma event_facts (mt : ManagedTorrent) (event : stateEvent) (d : stateDecision) (mt' : ManagedTorrent) :
  applyStateEventLocked mt event = Ok (d, mt') -> runtime_facts mt -> runtime_facts mt'.
Proof.
  intros [Ht ->]%event_inv [Hok _].
  destruct (install_view mt event d) as (Hp & _ & Hs & Hr & Hu & Hi & Hd & Hc & Hterm & _).
  pose proof (decision_copies _ _ _ Ht) as Hcopies. cbv zeta in Hcopies.
  unfold runtime_facts, copied. rewrite Hp, Hs, Hr, Hu, Hi, Hd, Hc, Hterm.
  split; [by eapply transition_ok | by intros].
Qed.

(** An accepted event whose closing effects are carried out keeps the gates
    safe. *)
Lemma event_gates (mt : ManagedTorrent) (event : stateEvent) (d : stateDecision) (mt' : ManagedTorrent) :
  applyStateEventLocked mt event = Ok (d, mt') ->
  mt_t mt' = mt_t mt /\
  (gate_ok mt -> gate_ok mt' \/ d_closePayload d = true) /\
  (upload_ok mt -> upload_ok mt' \/ d_closeUpload d = true).
Proof.
  intros [Ht ->]%event_inv.
  destruct (install_view mt event d) as (Hp & Hl & _).
  destruct (revoking_event_closes _ _ _ Ht) as [Hpay Hup].
  unfold gate_ok, upload_ok. rewrite Hp, Hl. split; [done|].
  split; intros Hok; [destruct (d_closePayload d) | destruct (d_closeUpload d)]; auto; left; intros Hopen;
    [destruct (Hpay (Hok Hopen)) | destruct (Hup (Hok Hopen))]; done.
Qed.

(** *** Every operation keeps the invariant *)

(** Use an accepted event: its facts, the unchanged library torrent and what it
    asks to close. *)
Ltac use_event H :=
  let Hf := fresh "Hfacts" in let Hl := fresh "Hlib" in
  let Hg := fresh "Hgate" in let Hu := fresh "Hupload" in
  pose proof (event_facts _ _ _ _ H) as Hf; pose proof (event_gates _ _ _ _ H) as (Hl & Hg & Hu).

(** Close a goal [runtime_ok _ mt'] where [mt'] differs from a torrent with known
    facts only in fields the invariant does not read, or has its gates closed. *)
Ltac settle :=
  split; [solve [auto | eassumption] | split; [|let H := fresh in intros H];
    (let Hopen := fresh "Hopen" in intros Hopen); cbn in *; try discriminate;
    unfold gate_ok, upload_ok in *; cbn in *; intuition congruence].

Lemma runtime_ok_lax (strict : bool) (mt : ManagedTorrent) : runtime_ok strict mt -> runtime_ok false mt.
Proof. intros (Hf & Hg & _). by split. Qed.

Lemma quiesce_ok (strict : bool) (mt : ManagedTorrent) (d : stateDecision) (reason : string) :
  runtime_facts mt ->
  gate_ok mt \/ d_closePayload d = true ->
  (strict = true -> upload_ok mt \/ d_closeUpload d = true) ->
  runtime_ok strict (applyQuiesceLocked mt d reason).
Proof.
  intros Hf Hg Hu. unfold applyQuiesceLocked.
  destruct (d_closePayload d), (d_closeUpload d), (d_clearBasePriorities d && _); settle.
Qed.

Lemma event_quiesce_ok (strict : bool) (mt mt' : ManagedTorrent) (event : stateEvent) (d : stateDecision) reason :
  runtime_ok strict mt -> applyStateEventLocked mt event = Ok (d, mt') ->
  runtime_ok strict (applyQuiesceLocked mt' d reason).
Proof.
  intros (Hf & Hg & Hu) H. use_event H. apply quiesce_ok; auto.
Qed.

Lemma persistSafety_ok (strict : bool) (w : world) (mt : ManagedTorrent) (kind : stateEventKind) :
  runtime_ok strict mt -> runtime_ok strict (persistSafetyFaultLocked w mt kind).1.
Proof.
  intros (Hf & Hg & Hu). unfold persistSafetyFaultLocked.
  destruct (safety_key kind) as [[k reason]|]; [|by split]. case_match; settle.
Qed.

Lemma quiesceFault_ok (strict : bool) (w : world) (current : bool) (mt : ManagedTorrent) (kind : stateEventKind) :
  runtime_ok strict mt -> runtime_ok strict (quiesceFaultLocked w current mt kind).1.
Proof.
  intros Hok. unfold quiesceFaultLocked. destruct (negb current); [done|].
  destruct (applyStateEventLocked _ _) as [[d mt']|] eqn:He; [|done].
  eapply persistSafety_ok, event_quiesce_ok; eauto.
Qed.

Lemma filePriorities_ok (strict : bool) (w : world) (mt : ManagedTorrent) :
  runtime_ok strict mt -> runtime_ok strict (applyFilePrioritiesAndDownload w mt).1.
Proof.
  intros Hok. unfold applyFilePrioritiesAndDownload.
  destruct (lib_info _) as [i|]; [|done]. destruct (mt_initializing mt); [done|].
  destruct (forallb _ _); [destruct Hok as (? & ? & ?); settle|].
  destruct (applyStateEventLocked _ _) as [[d mt']|] eqn:He; [|done].
  eapply persistSafety_ok, event_quiesce_ok; eauto.
Qed.

(** Success installs priorities and touches neither the policy nor the gates. *)
Lemma filePriorities_done (w : world) (mt mt' : ManagedTorrent) :
  applyFilePrioritiesAndDownload w mt = (mt', None) ->
  exists i, lib_info (mt_t mt) = Some i /\ mt_initializing mt = false /\
    forallb (index_in_bounds (length (info_files i))) (map_to_list (mt_filePriorities mt)).*1 = true /\
    mt' = install_priorities mt (length (info_files i)).
Proof.
  unfold applyFilePrioritiesAndDownload. intros.
  destruct (lib_info _) as [i|]; [|done]. destruct (mt_initializing mt); [done|].
  destruct (forallb _ _) eqn:?; [simplify_eq; eauto|].
  by destruct (applyStateEventLocked _ _) as [[]|].
Qed.

Lemma refresh_discovery_ok (strict : bool) w noUpload downloadAll mt :
  runtime_ok strict mt -> runtime_ok strict (refresh_discovery w noUpload downloadAll mt).
Proof.
  intros Hok. unfold refresh_discovery. destruct (uploadEligible (mt_policy mt)) eqn:Hu; [|done]. cbn [negb]. cbv zeta.
  assert (runtime_ok strict (if noUpload then mt else mt <| mt_t ::= AllowDataUpload |>)) as Hopen.
  { destruct noUpload; [done|]. destruct Hok as (? & ? & ?). split; [done|]. split; [done|]. intros _ _. exact Hu. }
  destruct downloadAll; [by apply filePriorities_ok|done].
Qed.

Lemma setFilePriority_ok (strict : bool) w mt index priority :
  runtime_ok strict mt -> runtime_ok strict (setFilePriority w mt index priority).1.
Proof.
  intros Hok. unfold setFilePriority. destruct (_ || _); [done|].
  destruct (lib_info _) as [i|]; [destruct (index_in_bounds _ _); [apply filePriorities_ok|done]|];
    destruct Hok as (? & ? & ?); settle.
Qed.

Lemma setTorrentFilesPriority_ok (strict : bool) w mt priority :
  runtime_ok strict mt -> runtime_ok strict (setTorrentFilesPriority w mt priority).1.
Proof.
  intros Hok. unfold setTorrentFilesPriority. destruct (negb _); [done|].
  case_match; [apply filePriorities_ok|]; destruct Hok as (? & ? & ?); settle.
Qed.

Lemma setFilePriorities_ok (strict : bool) w mt priorities :
  runtime_ok strict mt -> runtime_ok strict (setFilePriorities w mt priorities).1.
Proof.
  intros Hok. unfold setFilePriorities. destruct (negb _); [done|].
  case_match; [apply filePriorities_ok|]; destruct Hok as (? & ? & ?); settle.
Qed.

(** A disk block never asks to close the upload gate. *)
Lemma disk_event_upload (mt mt' : ManagedTorrent) (reason : string) (d : stateDecision) :
  applyStateEventLocked mt ((event_of stateDiskBlocked) <| ev_diskReason := reason |>) = Ok (d, mt') ->
  d_closeUpload d = false.
Proof. intros [H _]%event_inv. by transition_cases H. Qed.

Lemma block_ok (strict : bool) w current mt reason :
  runtime_ok strict mt -> runtime_ok strict (blockDownloadLocked w current mt reason).1.
Proof.
  intros (Hf & Hg & Hu). unfold blockDownloadLocked. destruct (negb current); [by split|].
  destruct (applyStateEventLocked _ _) as [[d mt']|] eqn:He; [|by split].
  pose proof (disk_event_upload _ _ _ _ He). use_event He.
  assert (strict = true -> upload_ok mt') by (intros; destruct Hupload; [auto|done|congruence]).
  destruct (negb (mt_downloadBlock mt =? reason)); repeat case_match; settle.
Qed.

Lemma payloadWriteError_ok (strict : bool) w current mt :
  runtime_ok strict mt -> runtime_ok strict (payloadWriteError w current mt).
Proof.
  intros Hok. unfold payloadWriteError. destruct (negb current); [done|].
  case_match; [by apply block_ok | done].
Qed.

Lemma admit_begin_ok (strict : bool) ticket current cancelled mt mt' :
  runtime_ok strict mt -> admit_begin ticket current cancelled mt = Ok mt' -> runtime_ok strict mt'.
Proof.
  intros (Hf & Hg & Hu). unfold admit_begin. intros. repeat case_match; simplify_eq. settle.
Qed.

Lemma admit_end_ok (strict : bool) w ticket info current mt :
  runtime_ok strict mt -> runtime_ok strict (admit_end w ticket info current mt).1.
Proof.
  intros Hok. unfold admit_end.
  set (owned := bool_decide (mt_preparation mt = Some ticket)).
  set (mt0 := if owned then _ else mt).
  assert (Hok0 : runtime_ok strict mt0) by (destruct Hok as (? & ? & ?), owned; settle).
  assert (Hpolicy : mt_policy mt0 = mt_policy mt) by (by destruct owned).
  clearbody mt0. destruct (negb (_ && _)) eqn:Hvalid; [done|]. split_bools.
  destruct (w_probe w) as [reason|].
  { pose proof (block_ok strict w (still w current) mt0 reason Hok0). by destruct (blockDownloadLocked _ _ _ _). }
  destruct (info && _); [by apply quiesceFault_ok|].
  pose proof (filePriorities_ok strict w mt0 Hok0) as Hok1.
  destruct (applyFilePrioritiesAndDownload w mt0) as [mt1 [e|]] eqn:Hprio; [done|]. cbn in Hok1.
  apply filePriorities_done in Hprio as (i & _ & _ & _ & ->).
  destruct (AllowDataDownloadIfNoWriteError _) as [l|enospc] eqn:Hallow.
  - unfold AllowDataDownloadIfNoWriteError in Hallow. repeat case_match; simplify_eq.
    destruct Hok1 as (? & ? & ?). split; [done|]. split; [|done]. intros _. cbn. congruence.
  - pose proof (block_ok strict w (still w current) _ (write_reason enospc) Hok1).
    by destruct (blockDownloadLocked _ _ _ _).
Qed.

(** An event that closes no gate and is accepted keeps the invariant as is. *)
Lemma event_open_ok (strict : bool) (mt mt' : ManagedTorrent) (event : stateEvent) (d : stateDecision) :
  runtime_ok strict mt -> applyStateEventLocked mt event = Ok (d, mt') ->
  d_closePayload d = false -> d_closeUpload d = false -> runtime_ok strict mt'.
Proof.
  intros (Hf & Hg & Hu) H. use_event H. intros Hp Hup. split; [auto|].
  split; [destruct Hgate; [auto|done|congruence] | intros; destruct Hupload; [auto|done|congruence]].
Qed.

Lemma background_event_open (mt mt' : ManagedTorrent) (event : stateEvent) (d : stateDecision) :
  ev_kind event = stateSelectionObserved \/ ev_kind event = stateSlotRequested \/
  ev_kind event = stateSlotReleased ->
  applyStateEventLocked mt event = Ok (d, mt') -> d_closePayload d = false /\ d_closeUpload d = false.
Proof. intros Hk [H _]%event_inv. transition_cases H; intuition congruence. Qed.

Lemma background_ok (strict : bool) w mt d :
  runtime_ok strict mt -> runtime_ok strict (applyBackgroundReleaseLocked w mt d).
Proof.
  intros (Hf & Hg & Hu). unfold applyBackgroundReleaseLocked. repeat case_match; settle.
Qed.

Lemma background_event_ok (strict : bool) w mt mt' event d :
  ev_kind event = stateSelectionObserved \/ ev_kind event = stateSlotRequested \/
  ev_kind event = stateSlotReleased ->
  runtime_ok strict mt -> applyStateEventLocked mt event = Ok (d, mt') ->
  runtime_ok strict mt' /\ runtime_ok strict (applyBackgroundReleaseLocked w mt' d).
Proof.
  intros Hk Hok H. destruct (background_event_open _ _ _ _ Hk H).
  assert (runtime_ok strict mt') by eauto using event_open_ok. split; [done|]. by apply background_ok.
Qed.

Lemma reconcile_ok (strict : bool) w current mt :
  runtime_ok strict mt -> runtime_ok strict (reconcileSelectionLocked w current mt).
Proof.
  intros Hok. unfold reconcileSelectionLocked. destruct (negb current); [done|].
  destruct (lib_info _) as [i|]; [|done]. destruct (_ || _); [done|].
  destruct (selection_facts _ _ _) as [[selection all] selected].
  destruct (applyStateEventLocked _ _) as [[d mt']|] eqn:He; [|done].
  eapply background_event_ok in He as [_ ?]; eauto.
Qed.

Lemma releaseFailedSlot_ok (strict : bool) w current mt :
  runtime_ok strict mt -> runtime_ok strict (releaseFailedSlotLocked w current mt).
Proof.
  intros Hok. unfold releaseFailedSlotLocked. destruct (negb current); [done|].
  destruct (applyStateEventLocked _ _) as [[d mt']|] eqn:He; [|done].
  eapply background_event_ok in He as [_ ?]; eauto.
Qed.

Lemma health_begin_ok (strict : bool) ticket current mt mt' :
  runtime_ok strict mt -> health_begin ticket current mt = Some mt' -> runtime_ok strict mt'.
Proof. intros (Hf & Hg & Hu). unfold health_begin. intros. repeat case_match; simplify_eq. settle. Qed.

Lemma health_settle_ok (strict : bool) w ticket current mt :
  runtime_ok strict mt -> runtime_ok strict (health_settle w ticket current mt).1.
Proof.
  intros Hok. unfold health_settle.
  set (owned := bool_decide _). set (mt0 := if owned then _ else mt).
  assert (Hok0 : runtime_ok strict mt0) by (destruct Hok as (? & ? & ?), owned; settle).
  clearbody mt0. destruct (negb _); [done|].
  case_match; [by apply block_ok | by apply reconcile_ok].
Qed.

Lemma request_slot_ok (strict : bool) available mt mt' :
  runtime_ok strict mt -> request_slot available mt = Some mt' -> runtime_ok strict mt'.
Proof.
  intros Hok. unfold request_slot. intros H. case_match; [by simplify_eq|].
  destruct (applyStateEventLocked _ _) as [[d mt1]|] eqn:He; simplify_eq.
  edestruct background_event_open; [|exact He|]; eauto using event_open_ok.
Qed.

Lemma admission_failed_ok (strict : bool) w token current mt :
  runtime_ok strict mt -> runtime_ok strict (admission_failed w token current mt).
Proof.
  intros Hok. unfold admission_failed. case_match; [|done].
  apply releaseFailedSlot_ok. destruct Hok as (? & ? & ?); settle.
Qed.

Lemma operation_view (attempt : verificationAttempt) (status : string) (mt : ManagedTorrent) :
  exists o, set_operation_status attempt status mt = mt <| mt_recheckOperation := o |>.
Proof.
  unfold set_operation_status. destruct mt. repeat case_match; cbn; by eexists.
Qed.

Lemma operation_ok (strict : bool) attempt status mt :
  runtime_ok strict mt -> runtime_ok strict (set_operation_status attempt status mt).
Proof. destruct (operation_view attempt status mt) as [o ->]. intros (? & ? & ?). settle. Qed.

(** Upload is allowed by a decision only when the policy allows it. *)
Lemma allowed_upload (p : runtimePolicy) (event : stateEvent) (d : stateDecision) :
  runtimeTransition p event = Ok d -> d_allowUpload d = true -> uploadEligible (d_policy d) = true.
Proof. intros H. by transition_cases H. Qed.

Lemma verification_closes (mt mt' : ManagedTorrent) (event : verificationEvent) (d : stateDecision) :
  applyVerificationEventLocked mt event = Ok (d, mt') ->
  d_closePayload d = true /\ (d_allowUpload d = true -> uploadEligible (mt_policy mt') = true).
Proof.
  intros [H ->]%event_inv. destruct (install_view mt ((event_of stateVerification) <| ev_verification := event |>) d)
    as [-> _].
  split; [by transition_cases H | by eapply allowed_upload].
Qed.

Lemma completeVerification_ok (strict : bool) w current no attempt err mt :
  runtime_ok strict mt ->
  runtime_ok strict (completeVerificationLocked w current no attempt err mt).1.
Proof.
  intros Hok. unfold completeVerificationLocked.
  destruct (negb current).
  { case_match; [|done]. cbn. pose proof (operation_ok strict attempt "cancelled" mt Hok) as (? & ? & ?). settle. }
  destruct (negb (_ && _)); [done|].
  set (err' := settled_outcome w mt err).
  pose proof (operation_ok strict attempt (outcome_status err') mt Hok) as Hok1.
  destruct (operation_view attempt (outcome_status err') mt) as [o Ho].
  rewrite Ho in *. clear Ho.
  destruct (applyVerificationEventLocked _ _) as [[d mt1]|] eqn:He;
    [|destruct Hok1 as (? & ? & ?); cbn; settle].
  destruct (verification_closes _ _ _ _ He) as [-> Hallow]. destruct Hok1 as (Hf & Hg & Hu). use_event He.
  cbn. destruct (d_closeUpload d), (d_allowUpload d && _ && _) eqn:?; split_bools; settle.
Qed.

Lemma startRecheck_ok (strict : bool) w current no attempt operation mt :
  runtime_ok strict mt -> runtime_ok strict (startRecheckLocked w current no attempt operation mt).1.
Proof.
  intros Hok. unfold startRecheckLocked.
  destruct (negb current); [done|]. destruct (mt_rechecking mt); [done|].
  destruct (negb (recheck_admitted w mt)); [done|].
  destruct (applyVerificationEventLocked _ _) as [[d mt1]|] eqn:He; [|done].
  destruct Hok as (Hf & Hg & Hu). use_event He. cbv zeta.
  match goal with |- context [completeVerificationLocked _ _ _ _ _ ?m] =>
    assert (runtime_ok strict m) by settle end.
  repeat case_match; try by apply completeVerification_ok. done.
Qed.

Lemma begin_check_ok (strict : bool) attempt mt mt' :
  runtime_ok strict mt -> begin_check attempt mt = Some mt' -> runtime_ok strict mt'.
Proof.
  intros Hok. unfold begin_check. intros. case_match; simplify_eq. by apply operation_ok.
Qed.

Lemma verifyInactive_ok (strict : bool) w current no attempt mt :
  runtime_ok strict mt -> runtime_ok strict (verifyInactive_begin w current no attempt mt).1.
Proof.
  intros Hok. unfold verifyInactive_begin. destruct (_ || _); [done|].
  destruct (applyVerificationEventLocked _ _) as [[d mt1]|] eqn:He; [|done].
  destruct Hok as (Hf & Hg & Hu). use_event He. cbv zeta.
  match goal with |- context [completeVerificationLocked _ _ _ _ _ ?m] =>
    assert (runtime_ok strict m) by settle end.
  case_match; [done | by apply completeVerification_ok].
Qed.

Lemma restoreVerification_ok (strict : bool) mt :
  runtime_ok strict mt -> runtime_ok strict (restoreVerificationBlock mt).1.
Proof.
  intros Hok. unfold restoreVerificationBlock.
  destruct (applyVerificationEventLocked _ _) as [[d mt1]|] eqn:He; [|done].
  destruct Hok as (Hf & Hg & Hu). use_event He. settle.
Qed.

Lemma bind_ok (strict : bool) w fence applied mt :
  runtime_ok strict mt -> runtime_ok strict (bind w fence applied mt).1.
Proof.
  intros (Hf & Hg & Hu). unfold bind. do 4 (case_match; [by split|]). case_match; settle.
Qed.

Lemma failIntentApply_ok (strict : bool) v code mt :
  runtime_ok strict mt -> runtime_ok strict (failIntentApply v code mt).1.
Proof.
  intros Hok. unfold failIntentApply. destruct (_ || _); [done|].
  destruct (applyStateEventLocked _ _) as [[d mt1]|] eqn:He; [|done].
  destruct Hok as (Hf & Hg & Hu). use_event He. apply quiesce_ok; auto.
Qed.

Lemma captureObservation_ok (strict : bool) mt :
  runtime_ok strict mt -> runtime_ok strict (captureObservation mt).1.
Proof. intros (Hf & Hg & Hu). unfold captureObservation. case_match; settle. Qed.

Lemma stageExistingRestore_ok (strict : bool) s mt :
  runtime_ok strict mt -> runtime_ok strict (stageExistingRestore s mt).1.
Proof.
  intros Hok. unfold stageExistingRestore. destruct (_ || _); [done|].
  destruct (persistedPriorities _ _); [|done].
  destruct (applyStateEventLocked _ _) as [[d mt1]|] eqn:He; [|done].
  destruct Hok as (Hf & Hg & Hu). use_event He. apply quiesce_ok; auto.
Qed.

Lemma pauseWithIntent_ok (strict : bool) s mt :
  runtime_ok strict mt -> runtime_ok strict (pauseWithIntent s mt).1.
Proof.
  intros Hok. unfold pauseWithIntent.
  destruct (match s with Some _ => _ | None => _ end) as [priorities|e]; [|done]. cbv zeta.
  match goal with |- context [applyStateEventLocked ?m _] =>
    assert (runtime_ok strict m) as (Hf & Hg & Hu) by (destruct Hok as (? & ? & ?); settle) end.
  destruct (applyStateEventLocked _ _) as [[d mt1]|] eqn:He; [|by split].
  use_event He. destruct s; apply quiesce_ok; auto.
Qed.

Lemma finish_checks_ok (strict : bool) w info current mt :
  runtime_ok strict mt -> runtime_ok strict (finish_checks w info current mt).1.
Proof.
  intros Hok. unfold finish_checks. destruct (_ && _); [by apply quiesceFault_ok|].
  destruct (negb _); [by apply quiesceFault_ok | done].
Qed.

Lemma inactive_projection (p : runtimePolicy) :
  run p = RunPaused \/ run p = RunEnabled -> inactive_state (projection p).1 = false ->
  checking p = false ->
  run p = RunEnabled /\ disk p = "" /\ (fault p).1 = StateNone /\ verificationFault p = false.
Proof.
  unfold projection. intros [Hr|Hr] H Hc; rewrite Hr in *; cbn in H; [done|].
  rewrite Hc in H. destruct (String.eqb_spec (disk p) ""); cbn in H; [|done].
  destruct (bool_decide_reflect ((fault p).1 = StateNone)) as [|Hf]; cbn in H.
  - by destruct (verificationFault p).
  - unfold fault in H, Hf. repeat case_match; by cbn in *.
Qed.

(** An activation that leaves the torrent out of the inactive phases makes it
    eligible. *)
Lemma activation_eligible (p : runtimePolicy) (event : stateEvent) (d : stateDecision) :
  runtimeTransition p event = Ok d -> ev_kind event = stateActivated ->
  inactive_state (vf_state (d_next d)) = false -> payloadEligible (d_policy d) = true.
Proof.
  intros H Hk Hactive.
  assert (Hn : let n := d_policy d in registered n = true /\ terminal n = false /\ initializing n = false /\
    checking n = false /\ uncertain n = false /\ (run n = RunPaused \/ run n = RunEnabled)).
  { transition_cases H; try congruence; cbn; split_and!; auto. }
  cbv zeta in Hn. destruct Hn as (Hr & Ht & Hi & Hc & Hu & Hrun).
  destruct (decision_copies _ _ _ H) as [Hp _]. cbv zeta in Hp.
  apply (f_equal fst) in Hp. cbn in Hp. rewrite Hp in Hactive. clear H Hk Hp.
  destruct (inactive_projection _ Hrun Hactive) as (Hrun' & Hd & Hf & Hv); [done|].
  apply payloadEligible_spec. split; [|done]. constructor; try done. by apply fault_none, fault_phase.
Qed.

Lemma finish_apply_ok (strict : bool) w current no event mt :
  ev_kind event = stateActivated ->
  runtime_ok strict mt -> runtime_ok strict (finish_apply w current no event mt).1.
Proof.
  intros Hk Hok. unfold finish_apply.
  destruct (applyStateEventLocked _ _) as [[d mt1]|] eqn:He; [|done].
  destruct (event_inv _ _ _ _ He) as [Ht Hmt1].
  assert (Hp1 : mt_policy mt1 = d_policy d) by (subst mt1; apply install_view). clear Hmt1.
  pose proof (allowed_upload _ _ _ Ht) as Hallow.
  pose proof (activation_eligible _ _ _ Ht Hk) as Hactive.
  rewrite <- Hp1 in Hallow, Hactive. destruct Hok as (Hf & Hg & Hu). use_event He.
  destruct (inactive_state _); cbv zeta beta.
  - cbn [negb andb]. destruct (ev_diskRecovered event), (d_allowUpload d && negb no) eqn:?, (d_closeUpload d);
      repeat case_match; split_bools; settle.
  - specialize (Hactive eq_refl).
    assert (uploadEligible (mt_policy mt1) = true) 
      by (apply payloadEligible_spec in Hactive as []; by apply uploadEligible_spec).
    cbn [negb andb]. destruct (_ && negb (w_merge w)).
    + apply quiesceFault_ok. destruct (ev_diskRecovered event); settle.
    + destruct (ev_diskRecovered event), (d_allowUpload d && negb no) eqn:?, (d_closeUpload d); settle.
Qed.

Lemma recovered_ok (strict : bool) w version current mt :
  runtime_ok strict mt -> runtime_ok strict (resume_recovered w version current mt).1.
Proof.
  intros Hok. unfold resume_recovered.
  assert (Hblock : forall reason, runtime_ok strict (blockDownloadLocked w (still w current) mt reason).1)
    by (intros; by apply block_ok).
  destruct (w_probe w) as [reason|].
  { specialize (Hblock reason). by destruct (blockDownloadLocked _ _ _ _). }
  unfold ClearWriteChunkErrorIfVersion. destruct (version =? _)%nat.
  - cbv zeta. destruct (w_saveBlock w); destruct Hok as (? & ? & ?); settle.
  - cbv zeta. specialize (Hblock "payload write failed during Resume"). by destruct (blockDownloadLocked _ _ _ _).
Qed.

Lemma resume_begin_ok (strict : bool) mt mt' :
  runtime_ok strict mt -> resume_begin mt = Ok mt' -> runtime_ok strict mt'.
Proof.
  intros (? & ? & ?). unfold resume_begin. intros. repeat case_match; simplify_eq. settle.
Qed.

(** The activation of an engine Resume revokes nothing. *)
Lemma resume_event_eligible (p : runtimePolicy) (d : stateDecision) :
  runtimeTransition p ((event_of stateActivated) <| ev_phase := StateQueued |> <| ev_diskRecovered := true |>) = Ok d ->
  payloadEligible p = true -> payloadEligible (d_policy d) = true.
Proof.
  intros H. transition_cases H; cbn in *; try done.
  intros [[] ?]%payloadEligible_spec. by apply payloadEligible_spec.
Qed.

(** An explicit engine Resume keeps everything but the upload gate. *)
Lemma resume_end_ok w version current mt :
  runtime_ok false mt -> runtime_ok false (resume_end w version current mt).1.
Proof.
  intros Hok. unfold resume_end. pose proof (recovered_ok false w version current mt Hok) as Hok0.
  destruct (resume_recovered w version current mt) as [mt0 [e|]]; [done|]. cbn in Hok0.
  destruct (applyStateEventLocked _ _) as [[d mt1]|] eqn:He; [|done].
  assert (Hok1 : runtime_ok false mt1).
  { destruct Hok0 as (Hf & Hg & _). pose proof (event_facts _ _ _ _ He Hf).
    apply event_inv in He as [Ht ->]. split; [done|]. split; [|done].
    destruct (install_view mt0 ((event_of stateActivated) <| ev_phase := StateQueued |> <| ev_diskRecovered := true |>) d)
      as (Hp & Hl & _).
    unfold gate_ok in *. rewrite Hp, Hl. intros. eapply resume_event_eligible; eauto. }
  cbv zeta. match goal with |- context [applyFilePrioritiesAndDownload w ?m] =>
    assert (Hok2 : runtime_ok false m) by (destruct Hok1 as (? & ? & ?); settle);
    pose proof (filePriorities_ok false w m Hok2) as Hok3 end.
  case_match; [|done].
  destruct (applyFilePrioritiesAndDownload w _) as [mt2 [e|]]; [done|]. cbn in Hok3.
  destruct Hok3 as (? & ? & ?). settle.
Qed.

Lemma missing_end_ok (strict : bool) w current mt :
  runtime_ok strict mt -> runtime_ok strict (missing_end w current mt).1.
Proof.
  intros Hok. unfold missing_end. destruct (negb _); [done|].
  pose proof (quiesceFault_ok strict w (still w current) mt statePayloadMissing Hok).
  by destruct (quiesceFaultLocked _ _ _ _) as [mt' []].
Qed.

Lemma rememberExpectedPayload_ok (strict : bool) index ready mt :
  runtime_ok strict mt -> runtime_ok strict (rememberExpectedPayload index ready mt).1.
Proof. intros (? & ? & ?). unfold rememberExpectedPayload. cbn. case_match; settle. Qed.

Lemma retire_ok (strict : bool) kind reason mt :
  runtime_ok strict mt -> runtime_ok strict (retire kind reason mt).
Proof.
  intros Hok. unfold retire. destruct (applyStateEventLocked _ _) as [[d mt1]|] eqn:He; [|done].
  by eapply event_quiesce_ok.
Qed.

(** Library torrents are handed over with the payload gate closed; a staged one
    has its upload gate closed as well. *)
Definition handed_over (l : library) (s : option saved) : Prop :=
  lib_download l = false /\ (is_Some s -> lib_upload l = false).

Lemma new_managed_facts hash raw l now s : runtime_facts (new_managed hash raw l now s).
Proof. destruct s; split; try done; apply zero_policy_ok. Qed.

Lemma registration_ok hash raw l now s d mt :
  handed_over l s ->
  applyStateEventLocked (new_managed hash raw l now s) (registration_event s) = Ok (d, mt) ->
  runtime_ok true mt.
Proof.
  intros [Hdown Hup] He. pose proof (event_facts _ _ _ _ He (new_managed_facts _ _ _ _ _)) as Hf.
  pose proof (event_gates _ _ _ _ He) as (Hl & _). apply event_inv in He as [Ht Hmt].
  assert (Hl' : mt_t mt = l) by (rewrite Hl; by destruct s).
  split; [done|]. split; [unfold gate_ok; rewrite Hl', Hdown; done|].
  intros _. unfold upload_ok. rewrite Hl'. destruct s as [s|]; [rewrite Hup; done|].
  intros _. rewrite Hmt, (proj1 (install_view _ _ _)). by vm_compute in Ht; simplify_eq.
Qed.

(** The library's own steps. *)
Lemma write_failed_ok (strict : bool) enospc mt :
  runtime_ok strict mt -> runtime_ok strict (mt <| mt_t ::= fun l => write_failed l enospc |>).
Proof. intros (? & ? & ?). settle. Qed.

Lemma got_info_ok (strict : bool) i mt :
  runtime_ok strict mt -> runtime_ok strict (mt <| mt_t ::= fun l => got_info l i |>).
Proof.
  intros (? & ? & ?). split; [done|]. unfold gate_ok, upload_ok in *. cbn. unfold got_info.
  case_match; cbn; auto.
Qed.

Create HintDb runtime discriminated.
#[export] Hint Resolve quiesceFault_ok filePriorities_ok refresh_discovery_ok setFilePriority_ok setTorrentFilesPriority_ok
  setFilePriorities_ok block_ok payloadWriteError_ok admit_end_ok reconcile_ok
  releaseFailedSlot_ok health_settle_ok admission_failed_ok
  completeVerification_ok startRecheck_ok verifyInactive_ok restoreVerification_ok bind_ok
  failIntentApply_ok captureObservation_ok stageExistingRestore_ok pauseWithIntent_ok finish_checks_ok
  finish_apply_ok recovered_ok resume_end_ok missing_end_ok rememberExpectedPayload_ok
  retire_ok write_failed_ok got_info_ok : runtime.

(** The operations that may refuse, used forwards. *)
Ltac accepted :=
  repeat match goal with
  | H : admit_begin _ _ _ _ = Ok _ |- _ => eapply admit_begin_ok in H; [|eassumption]
  | H : health_begin _ _ _ = Some _ |- _ => eapply health_begin_ok in H; [|eassumption]
  | H : request_slot _ _ = Some _ |- _ => eapply request_slot_ok in H; [|eassumption]
  | H : begin_check _ _ = Some _ |- _ => eapply begin_check_ok in H; [|eassumption]
  | H : resume_begin _ = Ok _ |- _ => eapply resume_begin_ok in H; [|eassumption]
  end.
