(* ===== verification/RuntimeFrame.v ===== *)
(** * What the operations of a managed torrent leave alone

    [keeps] relates an attachment to its later self across an operation: its
    identity, fence and slot token are unchanged, its policy epoch grows when the
    policy changes, it gains no slot, its download gate is not opened and an open
    question about its data stays open.  Every operation of [Runtime] has this
    frame except the four that are meant to do more: a slot request, a binding,
    the end of an admission and a successful check. *)

From stdpp Require Import base gmap strings list.
From Stdlib Require Import ZArith Lia.
From S2P Require Import Prelude Models Policy Progress Runtime RuntimeSafety.

Open Scope string_scope.

Definition keeps (a b : ManagedTorrent) : Prop :=
  mt_hash b = mt_hash a /\ mt_raw b = mt_raw a /\ mt_runtimeFence b = mt_runtimeFence a /\
  mt_slotToken b = mt_slotToken a /\ (mt_policyEpoch a <= mt_policyEpoch b)%nat /\
  (mt_policyEpoch b = mt_policyEpoch a -> mt_policy b = mt_policy a) /\
  (slot (mt_policy b) = true -> slot (mt_policy a) = true) /\
  (lib_download (mt_t b) = true -> lib_download (mt_t a) = true) /\
  (uncertain (mt_policy a) = true -> uncertain (mt_policy b) = true).

#[export] Instance keeps_refl : Reflexive keeps.
Proof. intros a. repeat split; auto. Qed.

#[export] Instance keeps_trans : Transitive keeps.
Proof.
  unfold keeps. intros a b c (->&->&->&->&?&?&?&?&?) (?&?&?&?&?&Hp&?&?&?). repeat split; auto; [lia|].
  intros. rewrite Hp by lia. auto with lia.
Qed.

(** Only a slot request grants a slot. *)
Lemma slot_requested (p : runtimePolicy) (event : stateEvent) (d : stateDecision) :
  runtimeTransition p event = Ok d -> ev_kind event <> stateSlotRequested ->
  slot (d_policy d) = true -> slot p = true.
Proof. intros H Hk. transition_cases H; try done; congruence. Qed.

(** Only a successful check settles an open question. *)
Lemma stays_uncertain (p : runtimePolicy) (event : stateEvent) (d : stateDecision) :
  runtimeTransition p event = Ok d ->
  (ev_kind event = stateVerification -> ev_verification event <> verificationSucceeded) ->
  uncertain p = true -> uncertain (d_policy d) = true.
Proof. intros H Hk Hu. transition_cases H; cbn; try done; try congruence; by destruct Hk. Qed.

Lemma install_counters (mt : ManagedTorrent) (event : stateEvent) (d : stateDecision) :
  mt_runtimeFence (install mt event d) = mt_runtimeFence mt /\
  mt_policyEpoch (install mt event d) =
    (if decide (mt_policy mt = d_policy d) then mt_policyEpoch mt else S (mt_policyEpoch mt)) /\
  mt_slotToken (install mt event d) =
    (if slot (d_policy d) && bool_decide (ev_kind event = stateSlotRequested)
     then S (mt_slotToken mt) else mt_slotToken mt).
Proof.
  unfold install.
  destruct (decide _), (_ && bool_decide (_ = stateSlotRequested)), (_ && ev_diskRecovered event),
    (d_resetDownload d), (d_invalidateApplied d); by repeat split.
Qed.

Lemma event_keeps (mt : ManagedTorrent) (event : stateEvent) (d : stateDecision) (mt' : ManagedTorrent) :
  applyStateEventLocked mt event = Ok (d, mt') -> ev_kind event <> stateSlotRequested ->
  (ev_kind event = stateVerification -> ev_verification event <> verificationSucceeded) -> keeps mt mt'.
Proof.
  intros [Ht ->]%event_inv Hk Hv.
  destruct (install_view mt event d) as (Hp & Hl & _ & _ & _ & _ & _ & _ & _ & Hh & Hr).
  destruct (install_counters mt event d) as (Hf & He & Hs).
  rewrite (bool_decide_eq_false_2 _ Hk), andb_false_r in Hs.
  unfold keeps. rewrite Hp, Hl, Hh, Hr, Hf, He, Hs. repeat split; auto.
  - destruct (decide _); lia.
  - destruct (decide _); [done|lia].
  - by eapply slot_requested.
  - by eapply stays_uncertain.
Qed.

(** Use the frame of the accepted events of the context, then compare fields. *)
Ltac keep :=
  repeat match goal with
  | H : applyStateEventLocked _ _ = Ok _ |- _ => apply event_keeps in H; [|done..]
  | H : applyVerificationEventLocked _ _ = Ok _ |- _ => apply event_keeps in H; [|done..]
  end;
  unfold keeps in *; cbn in *; intuition (try congruence; try lia).

Lemma quiesce_keeps mt d reason : keeps mt (applyQuiesceLocked mt d reason).
Proof. unfold applyQuiesceLocked. repeat case_match; keep. Qed.

Lemma persistSafety_keeps w mt kind : keeps mt (persistSafetyFaultLocked w mt kind).1.
Proof. unfold persistSafetyFaultLocked. repeat case_match; keep. Qed.

Lemma quiesceFault_keeps w current mt kind :
  kind <> stateSlotRequested -> keeps mt (quiesceFaultLocked w current mt kind).1.
Proof.
  intros. unfold quiesceFaultLocked. destruct (negb current); [done|].
  destruct (applyStateEventLocked _ _) as [[d mt']|] eqn:He; [|done].
  etrans; [by eapply event_keeps | etrans; [apply quiesce_keeps | apply persistSafety_keeps]].
Qed.

Lemma filePriorities_keeps w mt : keeps mt (applyFilePrioritiesAndDownload w mt).1.
Proof.
  unfold applyFilePrioritiesAndDownload. destruct (lib_info _) as [i|]; [|done].
  destruct (mt_initializing mt); [done|]. destruct (forallb _ _); [keep|].
  destruct (applyStateEventLocked _ _) as [[d mt']|] eqn:He; [|done].
  etrans; [by eapply event_keeps | etrans; [apply quiesce_keeps | apply persistSafety_keeps]].
Qed.

Lemma refresh_discovery_keeps w noUpload downloadAll mt : keeps mt (refresh_discovery w noUpload downloadAll mt).
Proof.
  unfold refresh_discovery. destruct (negb _); [done|]. cbv zeta.
  transitivity (if noUpload then mt else mt <| mt_t ::= AllowDataUpload |>); [destruct noUpload; [done|]; keep|].
  destruct downloadAll; [apply filePriorities_keeps|done].
Qed.

Lemma setFilePriority_keeps w mt index priority : keeps mt (setFilePriority w mt index priority).1.
Proof.
  unfold setFilePriority. destruct (_ || _); [done|].
  destruct (lib_info _) as [i|]; [destruct (index_in_bounds _ _); [|done]|].
  - etrans; [|apply filePriorities_keeps]. keep.
  - keep.
Qed.

Lemma setTorrentFilesPriority_keeps w mt priority : keeps mt (setTorrentFilesPriority w mt priority).1.
Proof.
  unfold setTorrentFilesPriority. destruct (negb _); [done|].
  case_match; [etrans; [|apply filePriorities_keeps]|]; keep.
Qed.

Lemma setFilePriorities_keeps w mt priorities : keeps mt (setFilePriorities w mt priorities).1.
Proof.
  unfold setFilePriorities. destruct (negb _); [done|].
  case_match; [etrans; [|apply filePriorities_keeps]|]; keep.
Qed.

Lemma block_keeps w current mt reason : keeps mt (blockDownloadLocked w current mt reason).1.
Proof.
  unfold blockDownloadLocked. destruct (negb current); [done|].
  destruct (applyStateEventLocked _ _) as [[d mt']|] eqn:He; [|done].
  destruct (negb (mt_downloadBlock mt =? reason)); repeat case_match; keep.
Qed.

Lemma payloadWriteError_keeps w current mt : keeps mt (payloadWriteError w current mt).
Proof. unfold payloadWriteError. repeat case_match; try apply block_keeps; done. Qed.

Lemma admit_begin_keeps ticket current cancelled mt mt' :
  admit_begin ticket current cancelled mt = Ok mt' -> keeps mt mt'.
Proof. unfold admit_begin. intros. repeat case_match; simplify_eq. keep. Qed.

Lemma background_keeps w mt d : keeps mt (applyBackgroundReleaseLocked w mt d).
Proof. unfold applyBackgroundReleaseLocked. repeat case_match; keep. Qed.

Lemma reconcile_keeps w current mt : keeps mt (reconcileSelectionLocked w current mt).
Proof.
  unfold reconcileSelectionLocked. destruct (negb current); [done|].
  destruct (lib_info _) as [i|]; [|done]. destruct (_ || _); [done|].
  destruct (selection_facts _ _ _) as [[selection all] selected].
  destruct (applyStateEventLocked _ _) as [[d mt']|] eqn:He; [|done].
  etrans; [by eapply event_keeps | apply background_keeps].
Qed.

Lemma releaseFailedSlot_keeps w current mt : keeps mt (releaseFailedSlotLocked w current mt).
Proof.
  unfold releaseFailedSlotLocked. destruct (negb current); [done|].
  destruct (applyStateEventLocked _ _) as [[d mt']|] eqn:He; [|done].
  etrans; [by eapply event_keeps | apply background_keeps].
Qed.

Lemma health_begin_keeps ticket current mt mt' : health_begin ticket current mt = Some mt' -> keeps mt mt'.
Proof. unfold health_begin. intros. repeat case_match; simplify_eq. keep. Qed.

Lemma health_settle_keeps w ticket current mt : keeps mt (health_settle w ticket current mt).1.
Proof.
  unfold health_settle. set (owned := bool_decide (mt_healthProbe mt = Some ticket)).
  set (mt0 := if owned then _ else mt).
  assert (Hk : keeps mt mt0) by (unfold mt0; destruct owned; keep). clearbody mt0.
  destruct (negb _); [done|]. etrans; [exact Hk|].
  case_match; [apply block_keeps | apply reconcile_keeps].
Qed.

Lemma admission_failed_keeps w token current mt : keeps mt (admission_failed w token current mt).
Proof.
  unfold admission_failed. case_match; [|done]. etrans; [|apply releaseFailedSlot_keeps]. keep.
Qed.

Lemma operation_keeps attempt status mt : keeps mt (set_operation_status attempt status mt).
Proof. destruct (operation_view attempt status mt) as [o ->]. keep. Qed.

(** A check that succeeds: it is the current attempt of a current attachment and
    the durable veto was lifted; payload stays closed and the slot is free. *)
Record verified (w : world) (current : bool) (attempt : verificationAttempt) (mt mt' : ManagedTorrent) : Prop := {
  verified_current : current = true;
  verified_attempt : mt_verificationAttempt mt = Some attempt;
  verified_checking : mt_rechecking mt = true;
  verified_persisted : w_saveVerification w = true;
  verified_live : mt_cancelled mt = false;
  verified_closed : slot (mt_policy mt') = false /\ lib_download (mt_t mt') = false;
  verified_frame : mt_hash mt' = mt_hash mt /\ mt_raw mt' = mt_raw mt /\
    mt_runtimeFence mt' = mt_runtimeFence mt /\ mt_slotToken mt' = mt_slotToken mt /\
    (mt_policyEpoch mt <= mt_policyEpoch mt')%nat;
}.

Lemma success_event (mt mt' : ManagedTorrent) (d : stateDecision) :
  applyVerificationEventLocked mt verificationSucceeded = Ok (d, mt') ->
  slot (mt_policy mt') = false /\ d_closePayload d = true /\ mt_hash mt' = mt_hash mt /\ mt_raw mt' = mt_raw mt /\
  mt_runtimeFence mt' = mt_runtimeFence mt /\ mt_slotToken mt' = mt_slotToken mt /\
  (mt_policyEpoch mt <= mt_policyEpoch mt')%nat.
Proof.
  intros [Ht ->]%event_inv. set (event := _ <| ev_verification := _ |>) in *.
  destruct (install_view mt event d) as (-> & _ & _ & _ & _ & _ & _ & _ & _ & -> & ->).
  destruct (install_counters mt event d) as (-> & -> & Htok).
  assert (Hs : slot (d_policy d) = false /\ d_closePayload d = true) by by transition_cases Ht.
  destruct Hs as [Hs Hc]. rewrite Hs in Htok. cbn in Htok. rewrite Htok.
  split_and!; try done. destruct (decide _); lia.
Qed.

Lemma completeVerification_cases w current no attempt err mt :
  let mt' := (completeVerificationLocked w current no attempt err mt).1 in
  keeps mt mt' \/ (err = None /\ verified w current attempt mt mt').
Proof.
  cbv zeta. unfold completeVerificationLocked. destruct current; cbn [negb].
  2: { left. case_match; [|done]. pose proof (operation_keeps attempt "cancelled" mt). keep. }
  destruct (negb (_ && _)) eqn:Howned; [by left|]. split_bools.
  destruct (settled_outcome w mt err) as [f|] eqn:Hout; cbv zeta.
  - left. etrans; [apply (operation_keeps attempt (outcome_status (Some f)))|].
    destruct (applyVerificationEventLocked _ _) as [[d mt1]|] eqn:He; [|keep].
    apply event_keeps in He; [|done|by destruct f].
    destruct (d_closePayload d), (d_closeUpload d), (d_allowUpload d && _ && _); keep.
  - destruct (operation_view attempt (outcome_status None) mt) as [o Ho]. rewrite Ho. cbn [outcome_event].
    destruct (applyVerificationEventLocked _ _) as [[d mt1]|] eqn:He; [|left; keep]. right.
    destruct (success_event _ _ _ He) as (Hs & -> & Hframe).
    assert (Hparts : err = None /\ w_saveVerification w = true /\ mt_cancelled mt = false).
    { unfold settled_outcome, persist_verification in Hout.
      destruct (mt_cancelled mt), err as [[]|], (w_saveVerification w); done. }
    destruct Hparts as (-> & Hsave & Hlive). split; [done|].
    destruct (d_closeUpload d), (d_allowUpload d && _ && _); by constructor.
Qed.

Lemma completeVerification_keeps w current no attempt f mt :
  keeps mt (completeVerificationLocked w current no attempt (Some f) mt).1.
Proof. by destruct (completeVerification_cases w current no attempt (Some f) mt) as [|[? _]]. Qed.

Lemma startRecheck_keeps w current no attempt operation mt :
  keeps mt (startRecheckLocked w current no attempt operation mt).1.
Proof.
  unfold startRecheckLocked. destruct (negb current); [done|]. destruct (mt_rechecking mt); [done|].
  destruct (negb (recheck_admitted w mt)); [done|].
  destruct (applyVerificationEventLocked _ _) as [[d mt1]|] eqn:He; [|done]. cbv zeta.
  repeat case_match; [etrans; [|apply completeVerification_keeps].. |]; keep.
Qed.

Lemma begin_check_keeps attempt mt mt' : begin_check attempt mt = Some mt' -> keeps mt mt'.
Proof. unfold begin_check. intros. case_match; simplify_eq. apply operation_keeps. Qed.

Lemma verifyInactive_keeps w current no attempt mt : keeps mt (verifyInactive_begin w current no attempt mt).1.
Proof.
  unfold verifyInactive_begin. destruct (_ || _); [done|].
  destruct (applyVerificationEventLocked _ _) as [[d mt1]|] eqn:He; [|done]. cbv zeta.
  case_match; [|etrans; [|apply completeVerification_keeps]]; keep.
Qed.

Lemma restoreVerification_keeps mt : keeps mt (restoreVerificationBlock mt).1.
Proof.
  unfold restoreVerificationBlock. destruct (applyVerificationEventLocked _ _) as [[d mt1]|] eqn:He; [|done]. keep.
Qed.

Lemma failIntentApply_keeps v code mt : keeps mt (failIntentApply v code mt).1.
Proof.
  unfold failIntentApply. destruct (_ || _); [done|].
  destruct (applyStateEventLocked _ _) as [[d mt1]|] eqn:He; [|done].
  etrans; [|apply quiesce_keeps]. keep.
Qed.

Lemma captureObservation_keeps mt : keeps mt (captureObservation mt).1.
Proof. unfold captureObservation. case_match; keep. Qed.

Lemma stageExistingRestore_keeps s mt : keeps mt (stageExistingRestore s mt).1.
Proof.
  unfold stageExistingRestore. destruct (_ || _); [done|]. destruct (persistedPriorities _ _); [|done].
  destruct (applyStateEventLocked _ _) as [[d mt1]|] eqn:He; [|done].
  etrans; [|apply quiesce_keeps]. keep.
Qed.

Lemma pauseWithIntent_keeps s mt : keeps mt (pauseWithIntent s mt).1.
Proof.
  unfold pauseWithIntent. destruct (match s with Some _ => _ | None => _ end) as [priorities|e]; [|done]. cbv zeta.
  destruct (applyStateEventLocked _ _) as [[d mt1]|] eqn:He; [|keep].
  destruct s; (etrans; [|apply quiesce_keeps]); keep.
Qed.

Lemma finish_checks_keeps w info current mt : keeps mt (finish_checks w info current mt).1.
Proof.
  unfold finish_checks. destruct (_ && _); [by apply quiesceFault_keeps|].
  destruct (negb _); [by apply quiesceFault_keeps | done].
Qed.

Lemma finish_apply_keeps w current no event mt :
  ev_kind event = stateActivated -> keeps mt (finish_apply w current no event mt).1.
Proof.
  intros Hk. unfold finish_apply.
  destruct (applyStateEventLocked _ _) as [[d mt1]|] eqn:He; [|done].
  apply event_keeps in He; [|congruence..].
  destruct (inactive_state _); cbv zeta beta; cbn [negb andb].
  - destruct (ev_diskRecovered event), (d_allowUpload d && negb no), (d_closeUpload d); repeat case_match; keep.
  - destruct (_ && negb (w_merge w)).
    + etrans; [|by apply quiesceFault_keeps]. destruct (ev_diskRecovered event); keep.
    + destruct (ev_diskRecovered event), (d_allowUpload d && negb no), (d_closeUpload d); keep.
Qed.

Lemma recovered_keeps w version current mt : keeps mt (resume_recovered w version current mt).1.
Proof.
  unfold resume_recovered. destruct (w_probe w) as [reason|].
  { pose proof (block_keeps w (still w current) mt reason). by destruct (blockDownloadLocked _ _ _ _). }
  unfold ClearWriteChunkErrorIfVersion. destruct (version =? _)%nat; cbv zeta.
  - destruct (w_saveBlock w); keep.
  - pose proof (block_keeps w (still w current) mt "payload write failed during Resume").
    by destruct (blockDownloadLocked _ _ _ _).
Qed.

Lemma resume_begin_keeps mt mt' : resume_begin mt = Ok mt' -> keeps mt mt'.
Proof. unfold resume_begin. intros. repeat case_match; simplify_eq. keep. Qed.

Lemma resume_end_keeps w version current mt : keeps mt (resume_end w version current mt).1.
Proof.
  unfold resume_end. pose proof (recovered_keeps w version current mt) as Hk.
  destruct (resume_recovered w version current mt) as [mt0 [e|]]; [done|]. cbn in Hk.
  etrans; [exact Hk|]. clear Hk.
  destruct (applyStateEventLocked _ _) as [[d mt1]|] eqn:He; [|done]. cbv zeta.
  apply event_keeps in He; [|done..]. case_match; [|keep].
  match goal with |- context [applyFilePrioritiesAndDownload w ?m] =>
    assert (Hm : keeps mt0 m) by keep; pose proof (filePriorities_keeps w m) as Hk end.
  destruct (applyFilePrioritiesAndDownload w _) as [mt2 [e|]]; [by etrans|].
  etrans; [exact Hm|]. etrans; [exact Hk|]. clear. keep.
Qed.

Lemma missing_end_keeps w current mt : keeps mt (missing_end w current mt).1.
Proof.
  unfold missing_end. destruct (negb _); [done|].
  pose proof (quiesceFault_keeps w (still w current) mt statePayloadMissing).
  destruct (quiesceFaultLocked _ _ _ _) as [mt' []]; auto.
Qed.

Lemma rememberExpectedPayload_keeps index ready mt : keeps mt (rememberExpectedPayload index ready mt).1.
Proof. unfold rememberExpectedPayload. cbn. case_match; keep. Qed.

Lemma retire_keeps kind reason mt : kind <> stateSlotRequested -> keeps mt (retire kind reason mt).
Proof.
  intros. unfold retire. destruct (applyStateEventLocked _ _) as [[d mt1]|] eqn:He; [|done].
  etrans; [by eapply event_keeps | apply quiesce_keeps].
Qed.
