(* ===== verification/Engine.v ===== *)
(** * The engine

    The engine of [internal/engine]: its registries of attachments and the
    critical sections of [admissionMu], as a step function over [event]s.  An
    operation that releases the lock while it probes the disk, saves metadata,
    verifies or drops a torrent leaves a [job] behind; continuing the job is an
    event of its own, so that every interleaving of operations is a sequence of
    events.

    Pointers are natural numbers: an attachment ([*ManagedTorrent]) is its key in
    [e_heap], a library torrent its [mt_raw], tickets and attempts are numbered by
    [e_next]. *)

From stdpp Require Import base gmap strings list.
From Stdlib Require Import ZArith Lia.
From S2P Require Import Prelude Models Policy Progress Runtime.

Open Scope string_scope.

(** ** State *)

Record config := mkConfig {
  MaxActiveDownloads : Z;
  BTNoUpload : bool;
}.

(** The fence [runRuntimeWorkLocked] takes before it releases the lock. *)
Record runtimeWork := mkWork {
  rw_epoch : nat;
  rw_fence : RuntimeFence;
}.

(** The rest of an operation that has released [admissionMu]. *)
Inductive job :=
| JobHealth (id : nat) (ticket : payloadPreparation)
| JobAdmit (id : nat) (ticket : payloadPreparation) (info : bool) (token : option nat)
| JobResume (id : nat) (work : runtimeWork) (version : nat)
| JobFinish (id : nat) (work : runtimeWork) (info manual : bool) (event : stateEvent)
| JobRecover (id : nat) (work : runtimeWork) (version : nat) (event : stateEvent)
| JobMissing (id : nat) (work : runtimeWork)
| JobTrackers (id : nat) (work : runtimeWork)
| JobMetadata (id : nat) (work : runtimeWork)
| JobRegister (id : nat)
| JobDrop (id : nat)
| JobDetached (id : nat)
| JobDropRaw (raw : nat)
| JobCheck (id : nat) (attempt : verificationAttempt)
| JobVerify (id : nat) (attempt : verificationAttempt).

Record Engine := mkEngine {
  e_cancelled : bool;
  e_heap : gmap nat ManagedTorrent;
  e_managed : gmap string nat;
  e_detaching : gmap string nat;
  e_registering : gmap string nat;
  e_dropped : gset nat;
  e_next : nat;
  e_nextRecheckID : nat;
  e_jobs : gmap nat job;
}.

#[export] Instance eta_Engine : Eta Engine := fun e =>
  mkEngine (e_cancelled e) (e_heap e) (e_managed e) (e_detaching e) (e_registering e) (e_dropped e)
    (e_next e) (e_nextRecheckID e) (e_jobs e).

Definition new_engine : Engine := mkEngine false ∅ ∅ ∅ ∅ ∅ 0 0 ∅.

(** ** Helpers *)

Definition current (e : Engine) (id : nat) (mt : ManagedTorrent) : bool :=
  negb (e_cancelled e) && bool_decide (e_managed e !! mt_hash mt = Some id).

Definition put (id : nat) (mt : ManagedTorrent) (e : Engine) : Engine := e <| e_heap ::= <[id := mt]> |>.

(** A fresh pointer is taken by bumping [e_next]. *)
Definition add_job (j : job) (e : Engine) : Engine :=
  e <| e_jobs ::= <[e_next e := j]> |> <| e_next ::= S |>.

(** Cancelling the engine's context cancels every attachment's. *)
Definition shutdown (e : Engine) : Engine :=
  e <| e_cancelled := true |> <| e_heap ::= fmap (fun mt => mt <| mt_cancelled := true |>) |>.

Definition after (w : world) (e : Engine) : Engine := if w_live w then e else shutdown e.

(** The torrent a command names by hash, unless the engine is shut down. *)
Definition lookup (e : Engine) (hash : string) : option (nat * ManagedTorrent) :=
  id ← e_managed e !! hash; mt ← e_heap e !! id; Some (id, mt).

Definition live_lookup (e : Engine) (hash : string) : option (nat * ManagedTorrent) :=
  if e_cancelled e then None else lookup e hash.

(** Apply an operation to the torrent of a hash. *)
Definition on (found : option (nat * ManagedTorrent)) (f : nat -> ManagedTorrent -> Engine -> Engine) (e : Engine)
    : Engine :=
  match found with Some (id, mt) => f id mt e | None => e end.

Definition on_id (id : nat) (f : nat -> ManagedTorrent -> Engine -> Engine) (e : Engine) : Engine :=
  on (mt ← e_heap e !! id; Some (id, mt)) f e.

(** An operation on one attachment. *)
Definition update (w : world) (f : ManagedTorrent -> ManagedTorrent) (id : nat) (mt : ManagedTorrent) (e : Engine)
    : Engine := after w (put id (f mt) e).

Definition fence_of (mt : ManagedTorrent) : runtimeWork := mkWork (mt_policyEpoch mt) (mt_runtimeFence mt).

(** [runRuntimeWorkLocked] up to the release of the lock. *)
Definition begin_work (mk : runtimeWork -> job) (id : nat) (mt : ManagedTorrent) (e : Engine) : Engine :=
  if current e id mt then add_job (mk (fence_of mt)) (put id mt e) else put id mt e.

(** ... and its validation once the lock is taken again. *)
Definition work_valid (e : Engine) (id : nat) (work : runtimeWork) (mt : ManagedTorrent) : bool :=
  (mt_policyEpoch mt =? rw_epoch work)%nat && bool_decide (mt_runtimeFence mt = rw_fence work)
  && current e id mt.

Definition if_valid (work : runtimeWork) (f : nat -> ManagedTorrent -> Engine -> Engine)
    (id : nat) (mt : ManagedTorrent) (e : Engine) : Engine :=
  if work_valid e id work mt then f id mt e else e.

(** ** Scheduling *)

(** The comparator of the pass order of [manageResources]. *)
Definition order_less (a b : ManagedTorrent) : bool :=
  let pa := mt_queuePosition a in let pb := mt_queuePosition b in
  if ((0 <? pa) && (0 <? pb) && negb (pa =? pb))%Z then (pa <? pb)%Z
  else if negb (eqb (0 <? pa) (0 <? pb))%Z then (0 <? pa)%Z
  else if negb (mt_addedAt a =? mt_addedAt b)%Z then (mt_addedAt a <? mt_addedAt b)%Z
  else String.ltb (mt_hash a) (mt_hash b).

Definition owns_slot (e : Engine) (id : nat) : bool :=
  match e_heap e !! id with Some mt => slot (mt_policy mt) | None => false end.

Definition slotCountLocked (e : Engine) : Z :=
  Z.of_nat (size (filter (fun entry : string * nat => owns_slot e entry.2 = true) (e_managed e))).

Definition waiting (p : runtimePolicy) : bool :=
  payloadEligible p && negb (slot p) && negb (selectedComplete p) && negb (payloadComplete p).

(** One round of the loop of [schedulerHeadLocked] over the torrents, in any
    order. *)
Definition head_round (first : option (nat * ManagedTorrent)) (entry : nat * ManagedTorrent)
    : option (nat * ManagedTorrent) :=
  let mt := entry.2 in
  if negb (waiting (mt_policy mt)) then first
  else match first with
  | None => Some entry
  | Some (_, f) =>
      let p := mt_queuePosition mt in let position := mt_queuePosition f in
      let before :=
        if ((0 <? p) && (0 <? position) && negb (p =? position))%Z then (p <? position)%Z
        else if negb (eqb (0 <? p) (0 <? position))%Z then (0 <? p)%Z
        else if negb (mt_addedAt mt =? mt_addedAt f)%Z then (mt_addedAt mt <? mt_addedAt f)%Z
        else String.ltb (mt_hash mt) (mt_hash f) in
      if before then Some entry else first
  end.

Definition schedule (torrents : list (nat * ManagedTorrent)) : option (nat * ManagedTorrent) :=
  foldl head_round None torrents.

(** The managed torrents with their identities. *)
Definition managed_torrents (e : Engine) : list (nat * ManagedTorrent) :=
  omap (fun '(_, id) => mt ← e_heap e !! id; Some (id, mt)) (map_to_list (e_managed e)).

Definition schedulerHeadLocked (e : Engine) : option nat := fst <$> schedule (managed_torrents e).

(** ** Admission *)

(** [admitPayloadLocked] up to the release of the lock; [None] is an immediate
    refusal. *)
Definition start_admission (token : option nat) (id : nat) (mt : ManagedTorrent) (e : Engine) : option Engine :=
  match admit_begin (e_next e) (current e id mt) (e_cancelled e) mt with
  | Err _ => None
  | Ok mt' =>
      match mt_preparation mt' with
      | Some ticket => Some (add_job (JobAdmit id ticket (has_info (mt_t mt')) token) (put id mt' e))
      | None => None
      end
  end.

Definition admission_or (token : option nat) (otherwise : Engine) (id : nat) (mt : ManagedTorrent) (e : Engine)
    : Engine := default otherwise (start_admission token id mt e).

Definition CheckPayloadAdmission (id : nat) (mt : ManagedTorrent) (e : Engine) : Engine :=
  admission_or None e id mt e.

Definition end_admission (w : world) (ticket : payloadPreparation) (info : bool) (token : option nat)
    (id : nat) (mt : ManagedTorrent) (e : Engine) : Engine :=
  let '(mt', err) := admit_end w ticket info (current e id mt) mt in
  match err, token with
  | Some _, Some token => after w (put id (admission_failed w token (still w (current e id mt)) mt') e)
  | _, _ => after w (put id mt' e)
  end.

(** The two sections of one turn of [manageResources]. *)
Definition begin_health (id : nat) (mt : ManagedTorrent) (e : Engine) : Engine :=
  match health_begin (e_next e) (current e id mt) mt with
  | None => e
  | Some mt' =>
      match mt_healthProbe mt' with
      | Some ticket => add_job (JobHealth id ticket) (put id mt' e)
      | None => e
      end
  end.

Definition capacity (cfg : config) (e : Engine) (id : nat) : bool :=
  (slotCountLocked e <? MaxActiveDownloads cfg)%Z && bool_decide (schedulerHeadLocked e = Some id).

(** The end of the turn once the slot is owned: prepare the payload; a refusal
    releases the slot at once. *)
Definition prepare_payload (w : world) (id : nat) (mt : ManagedTorrent) (e : Engine) : Engine :=
  if must_prepare mt then
    let mt := mt <| mt_downloadAllStarted := true |> in
    admission_or (Some (mt_slotToken mt))
      (put id (admission_failed w (mt_slotToken mt) (still w (current e id mt)) mt) e) id mt e
  else put id mt e.

Definition end_health (cfg : config) (w : world) (ticket : payloadPreparation)
    (id : nat) (mt : ManagedTorrent) (e : Engine) : Engine :=
  let '(mt, proceed) := health_settle w ticket (current e id mt) mt in
  let e := put id mt e in
  if negb proceed then after w e
  else match request_slot (capacity cfg e id) mt with
       | None => after w e
       | Some mt => after w (prepare_payload w id mt (put id mt e))
       end.

(** ** Registration and retirement *)

(** Another attachment reserves the hash, the library torrent or its info hash. *)
Definition conflicts (e : Engine) (infohash : nat -> string) (hash : string) (raw : nat)
    (registry : gmap string nat) : list ManagedTorrent :=
  omap (fun '(key, id) =>
          owner ← e_heap e !! id;
          if (key =? hash) || (mt_raw owner =? raw)%nat || (infohash (mt_raw owner) =? infohash raw)
          then Some owner else None)
    (map_to_list registry).

(** A refused registration drops its library torrent, unless the owner found
    first has the same one; [pick] is the owner a map iteration meets first. *)
Definition refuse (pick raw : nat) (owner : ManagedTorrent) (owners : list ManagedTorrent) (e : Engine) : Engine :=
  let found := default owner (owners !! pick) in
  if (mt_raw found =? raw)%nat then e else add_job (JobDropRaw raw) e.

(** [discardRegistrationLocked] up to the release of the lock. *)
Definition discardRegistrationLocked (id : nat) (mt : ManagedTorrent) (e : Engine) : Engine :=
  let e := if bool_decide (e_registering e !! mt_hash mt = Some id)
           then e <| e_registering ::= delete (mt_hash mt) |> else e in
  add_job (JobDrop id)
    (put id (mt <| mt_cancelled := true |>) (e <| e_detaching ::= <[mt_hash mt := id]> |>)).

(** The last section of [registerTorrent]: publish, or discard. *)
Definition finish_registration (w : world) (id : nat) (mt : ManagedTorrent) (e : Engine) : Engine :=
  if (has_info (mt_t mt) && negb (w_metadata w)) || e_cancelled e || bool_decide (mt_raw mt ∈ e_dropped e)
     || negb (bool_decide (e_registering e !! mt_hash mt = Some id))
  then discardRegistrationLocked id mt e
  else e <| e_registering ::= delete (mt_hash mt) |> <| e_managed ::= <[mt_hash mt := id]> |>.

(** The key under which the library torrent is already managed, if any. *)
Definition managed_as (e : Engine) (raw : nat) : option string :=
  head (omap (fun '(key, id) => mt ← e_heap e !! id; if (mt_raw mt =? raw)%nat then Some key else None)
          (map_to_list (e_managed e))).

(** [w_task] tells whether [beginWork] succeeded before the lock was taken. *)
Definition registerTorrent (w : world) (pick : nat) (infohash : nat -> string) (identity : string) (raw : nat) (l : library)
    (s : option saved) (e : Engine) : Engine :=
  if e_cancelled e then if w_task w then add_job (JobDropRaw raw) e else e
  else if bool_decide (raw ∈ e_dropped e) then e
  else
    let hash := if identity =? "" then infohash raw else identity in
    match conflicts e infohash hash raw (e_detaching e), conflicts e infohash hash raw (e_registering e) with
    | owner :: owners, _ => refuse pick raw owner owners e
    | [], owner :: owners => refuse pick raw owner owners e
    | [], [] =>
        let hash := default hash (managed_as e raw) in
        match e_managed e !! hash with
        | Some _ => e
        | None =>
            let id := e_next e in
            let mt := new_managed hash raw l (w_now w) s in
            let e := e <| e_next ::= S |> in
            match applyStateEventLocked mt (registration_event s) with
            | Err _ => discardRegistrationLocked id mt e
            | Ok (_, mt) =>
                let e := put id mt e <| e_registering ::= <[hash := id]> |> in
                if has_info l then add_job (JobRegister id) e else finish_registration w id mt e
            end
        end
    end.

Definition drop_raw (raw : nat) (e : Engine) : Engine :=
  e <| e_dropped ::= fun s => {[raw]} ∪ s |>
    <| e_heap ::= fmap (fun mt => if (mt_raw mt =? raw)%nat then mt <| mt_t ::= fun l => l <| lib_closed := true |> |> else mt) |>.

Definition detached (id : nat) (mt : ManagedTorrent) (e : Engine) : Engine :=
  if bool_decide (e_detaching e !! mt_hash mt = Some id) then e <| e_detaching ::= delete (mt_hash mt) |> else e.

Definition Delete (infohash : nat -> string) (hash : string) (e : Engine) : Engine :=
  if e_cancelled e then e
  else if bool_decide (is_Some (e_detaching e !! hash)) then e
  else if existsb (fun '(key, id) =>
                     (key =? hash) || match e_heap e !! id with
                                      | Some owner => infohash (mt_raw owner) =? hash | None => false end)
            (map_to_list (e_registering e)) then e
  else on (lookup e hash) (fun id mt e =>
    add_job (JobDrop id)
      (put id (retire stateDeleted "torrent deleted" (mt <| mt_cancelled := true |>))
         (e <| e_managed ::= delete hash |> <| e_detaching ::= <[hash := id]> |>))) e.

(** [Close]: shutdown, then every managed torrent is retired. *)
Definition Close (e : Engine) : Engine :=
  let e := shutdown e in
  e <| e_heap ::= map_imap (fun id mt =>
         Some (if bool_decide (e_managed e !! mt_hash mt = Some id) then retire stateClosed "engine closed" mt else mt)) |>.

(** ** Verification *)

Definition StartRecheck (cfg : config) (w : world) (id : nat) (mt : ManagedTorrent) (e : Engine) : Engine :=
  let attempt := e_next e in
  let operation := S (e_nextRecheckID e) in
  let '(mt', r) := startRecheckLocked w (current e id mt) (BTNoUpload cfg) attempt operation mt in
  if current e id mt && recheck_admitted w mt then
    let e := put id mt' e <| e_next ::= S |> <| e_nextRecheckID := operation |> in
    after w match r with
            | Ok _ => add_job (JobCheck id (mkAttempt attempt (Some operation))) e
            | Err _ => e
            end
  else after w e.

Definition VerifyInactive (cfg : config) (w : world) (id : nat) (mt : ManagedTorrent) (e : Engine) : Engine :=
  let attempt := e_next e in
  let '(mt', err) := verifyInactive_begin w (current e id mt) (BTNoUpload cfg) attempt mt in
  let e := put id mt' e <| e_next ::= S |> in
  after w match err with
          | None => add_job (JobVerify id (mkAttempt attempt None)) e
          | Some _ => e
          end.

Definition finishVerification (cfg : config) (w : world) (attempt : verificationAttempt) (err : option verifyError)
    (id : nat) (mt : ManagedTorrent) (e : Engine) : Engine :=
  after w (put id (completeVerificationLocked w (current e id mt) (BTNoUpload cfg) attempt err mt).1 e).

(** The verification task: a stale or cancelled attempt finishes as cancelled. *)
Definition run_check (cfg : config) (w : world) (attempt : verificationAttempt)
    (id : nat) (mt : ManagedTorrent) (e : Engine) : Engine :=
  match begin_check attempt mt with
  | None => finishVerification cfg w attempt (Some VerifyCanceled) id mt e
  | Some mt => add_job (JobVerify id attempt) (put id mt e)
  end.

(** The queued "deferred-recheck" callback. *)
Definition deferred_recheck (cfg : config) (w : world) (id : nat) (mt : ManagedTorrent) (e : Engine) : Engine :=
  let expected := mt_pendingRecheckBytes mt in
  if mt_cancelled mt || negb (has_info (mt_t mt)) || negb (current e id mt) || (expected <=? 0)%Z then e
  else
    let started := StartRecheck cfg w id mt e in
    let done := fun e => on_id id (fun id mt => put id (mt <| mt_pendingRecheckBytes := 0%Z |>)) e in
    if (w_completed w <? expected)%Z then
      match (startRecheckLocked w (current e id mt) (BTNoUpload cfg) 0 0 mt).2 with
      | Ok _ => done started
      | Err _ => started
      end
    else done e.

(** ** Metadata *)

(** [watchMetadata] once the metadata is known: public trackers, the metainfo
    file, then the admission of a reserved slot, whose outcome is ignored. *)
Definition metadata_known (public : bool) (id : nat) (mt : ManagedTorrent) (e : Engine) : Engine :=
  if negb (has_info (mt_t mt)) then e
  else begin_work (if public then JobTrackers id else JobMetadata id) id mt e.

Definition metadata_saved (w : world) (id : nat) (mt : ManagedTorrent) (e : Engine) : Engine :=
  if negb (w_metadata w)
  then after w (put id (quiesceFaultLocked w (still w (current e id mt)) mt stateMetadataFailed).1 e)
  else if slot (mt_policy mt) && negb (mt_downloadAllStarted mt) && payloadEligible (mt_policy mt)
  then
    let mt := mt <| mt_downloadAllStarted := true |> in
    after w (admission_or None (put id mt e) id mt e)
  else after w e.

(** ** Restore and resume *)

Definition FinishRestore (phase : TorrentState) (manual : bool) (id : nat) (mt : ManagedTorrent) (e : Engine)
    : Engine :=
  let event := restore_event phase mt in
  if is_ok (runtimeTransition (mt_policy mt) event)
  then begin_work (fun work => JobFinish id work (has_info (mt_t mt)) manual event) id mt e
  else e.

Definition continue_restore (cfg : config) (w : world) (info manual : bool) (event : stateEvent)
    (id : nat) (mt : ManagedTorrent) (e : Engine) : Engine :=
  match finish_checks w info (current e id mt) mt with
  | (mt, Some _) => after w (put id mt e)
  | (mt, None) =>
      if manual
      then after w (begin_work (fun work => JobRecover id work (lib_writeVersion (mt_t mt)) event) id mt e)
      else after w (put id (finish_apply w (current e id mt) (BTNoUpload cfg) event mt).1 e)
  end.

Definition recover_restore (cfg : config) (w : world) (version : nat) (event : stateEvent)
    (id : nat) (mt : ManagedTorrent) (e : Engine) : Engine :=
  match resume_recovered w version (current e id mt) mt with
  | (mt, Some _) => after w (put id mt e)
  | (mt, None) =>
      after w (put id (finish_apply w (current e id mt) (BTNoUpload cfg)
                         (event <| ev_diskRecovered := true |>) mt).1 e)
  end.

Definition Resume (id : nat) (mt : ManagedTorrent) (e : Engine) : Engine :=
  match resume_begin mt with
  | Err _ => e
  | Ok mt => begin_work (fun work => JobResume id work (lib_writeVersion (mt_t mt))) id mt e
  end.

Definition detectMissing (id : nat) (mt : ManagedTorrent) (e : Engine) : Engine :=
  if negb (current e id mt) || verification_veto mt then e else begin_work (JobMissing id) id mt e.

Definition refreshPeerDiscovery (cfg : config) (w : world) (downloadAll : bool) (id : nat) (mt : ManagedTorrent) (e : Engine) : Engine :=
  if current e id mt then update w (refresh_discovery w (BTNoUpload cfg) downloadAll) id mt e else e.

(** ** Events *)

Inductive event :=
| EvShutdown
| EvClose
| EvRegister (w : world) (pick : nat) (infohash : nat -> string) (identity : string) (raw : nat) (l : library)
    (s : option saved)
| EvDelete (infohash : nat -> string) (hash : string)
| EvContinue (j : nat) (w : world) (outcome : option verifyError)
| EvHealth (id : nat)
| EvCheckAdmission (hash : string)
| EvSetFilePriority (w : world) (hash : string) (index : Z) (priority : FilePriority)
| EvSetTorrentFilesPriority (w : world) (hash : string) (priority : FilePriority)
| EvSetFilePriorities (w : world) (hash : string) (priorities : gmap Z FilePriority)
| EvSetQueuePosition (hash : string) (position : Z)
| EvWriteFailed (id : nat) (enospc : bool)
| EvGotInfo (id : nat) (i : info)
| EvStorageError (w : world) (id : nat)
| EvStartRecheck (w : world) (hash : string)
| EvScheduleRecheck (hash : string) (bytes : Z)
| EvDeferredRecheck (w : world) (id : nat)
| EvVerifyInactive (w : world) (hash : string)
| EvRestoreVerificationBlock (hash : string)
| EvBind (w : world) (expected : nat) (fence : RuntimeFence) (applied : Z)
| EvFailIntentApply (expected : nat) (v : IntentVersion) (code : string)
| EvCaptureObservation (hash : string)
| EvStageRestore (hash : string) (s : saved)
| EvFinishRestore (hash : string) (phase : TorrentState) (manual : bool)
| EvPause (hash : string) (s : option saved)
| EvResume (hash : string)
| EvMissing (id : nat)
| EvRemember (id : nat) (index : Z) (ready : bool)
| EvMetadata (hash : string) (raw : nat) (public : bool)
| EvDiscovery (w : world) (id : nat) (downloadAll : bool).

(** The rest of an operation, once the lock is taken again. *)
Definition continue (cfg : config) (w : world) (outcome : option verifyError) (j : job) (e : Engine) : Engine :=
  match j with
  | JobHealth id ticket => on_id id (end_health cfg w ticket) e
  | JobAdmit id ticket info token => on_id id (end_admission w ticket info token) e
  | JobResume id work version =>
      on_id id (if_valid work (fun id mt e =>
        update w (fun mt => (resume_end w version (current e id mt) mt).1) id mt e)) e
  | JobFinish id work info manual event => on_id id (if_valid work (continue_restore cfg w info manual event)) e
  | JobRecover id work version event => on_id id (if_valid work (recover_restore cfg w version event)) e
  | JobMissing id work =>
      on_id id (if_valid work (fun id mt e =>
        update w (fun mt => (missing_end w (current e id mt) mt).1) id mt e)) e
  | JobTrackers id work => on_id id (if_valid work (begin_work (JobMetadata id))) e
  | JobMetadata id work => on_id id (if_valid work (metadata_saved w)) e
  | JobRegister id => on_id id (finish_registration w) e
  | JobDrop id => on_id id (fun id mt e => add_job (JobDetached id) (drop_raw (mt_raw mt) e)) e
  | JobDetached id => on_id id detached e
  | JobDropRaw raw => drop_raw raw e
  | JobCheck id attempt => on_id id (run_check cfg w attempt) e
  | JobVerify id attempt => on_id id (finishVerification cfg w attempt outcome) e
  end.

Definition step (cfg : config) (ev : event) (e : Engine) : Engine :=
  match ev with
  | EvShutdown => shutdown e
  | EvClose => Close e
  | EvRegister w pick infohash identity raw l s => registerTorrent w pick infohash identity raw l s e
  | EvDelete infohash hash => Delete infohash hash e
  | EvContinue j w outcome =>
      match e_jobs e !! j with
      | Some job => continue cfg w outcome job (e <| e_jobs ::= delete j |>)
      | None => e
      end
  | EvHealth id => on_id id begin_health e
  | EvCheckAdmission hash => on (lookup e hash) CheckPayloadAdmission e
  | EvSetFilePriority w hash index priority =>
      on (live_lookup e hash) (update w (fun mt => (setFilePriority w mt index priority).1)) e
  | EvSetTorrentFilesPriority w hash priority =>
      on (live_lookup e hash) (update w (fun mt => (setTorrentFilesPriority w mt priority).1)) e
  | EvSetFilePriorities w hash priorities =>
      on (live_lookup e hash) (update w (fun mt => (setFilePriorities w mt priorities).1)) e
  | EvSetQueuePosition hash position =>
      on (lookup e hash) (fun id mt => put id (mt <| mt_queuePosition := position |>)) e
  | EvWriteFailed id enospc =>
      on_id id (fun id mt => put id (mt <| mt_t ::= fun l => write_failed l enospc |>)) e
  | EvGotInfo id i => on_id id (fun id mt => put id (mt <| mt_t ::= fun l => got_info l i |>)) e
  | EvStorageError w id =>
      on_id id (fun id mt e => update w (payloadWriteError w (current e id mt)) id mt e) e
  | EvStartRecheck w hash => on (lookup e hash) (StartRecheck cfg w) e
  | EvScheduleRecheck hash bytes =>
      on (lookup e hash) (fun id mt e =>
        if (bytes <=? 0)%Z then e else put id (mt <| mt_pendingRecheckBytes ::= Z.max bytes |>) e) e
  | EvDeferredRecheck w id => on_id id (deferred_recheck cfg w) e
  | EvVerifyInactive w hash => on (lookup e hash) (VerifyInactive cfg w) e
  | EvRestoreVerificationBlock hash =>
      on (lookup e hash) (fun id mt => put id (restoreVerificationBlock mt).1) e
  | EvBind w expected fence applied =>
      if negb (valid_binding fence) then e
      else on (live_lookup e (iv_Hash (rf_version fence))) (fun id mt e =>
             if (mt_raw mt =? expected)%nat then put id (bind w fence applied mt).1 e else e) e
  | EvFailIntentApply expected v code =>
      if (iv_RecordID v =? "") || (iv_Revision v <? 1)%Z
         || negb (bool_decide (code ∈ intent_failure_codes)) then e
      else on (lookup e (iv_Hash v)) (fun id mt e =>
             if (mt_raw mt =? expected)%nat then put id (failIntentApply v code mt).1 e else e) e
  | EvCaptureObservation hash => on (lookup e hash) (fun id mt => put id (captureObservation mt).1) e
  | EvStageRestore hash s => on (live_lookup e hash) (fun id mt => put id (stageExistingRestore s mt).1) e
  | EvFinishRestore hash phase manual => on (live_lookup e hash) (FinishRestore phase manual) e
  | EvPause hash s => on (live_lookup e hash) (fun id mt => put id (pauseWithIntent s mt).1) e
  | EvResume hash => on (live_lookup e hash) Resume e
  | EvMissing id => on_id id detectMissing e
  | EvRemember id index ready => on_id id (fun id mt => put id (rememberExpectedPayload index ready mt).1) e
  | EvMetadata hash raw public =>
      on (live_lookup e hash) (fun id mt e =>
        if (mt_raw mt =? raw)%nat then metadata_known public id mt e else e) e
  | EvDiscovery w id downloadAll => on_id id (refreshPeerDiscovery cfg w downloadAll) e
  end.

Definition run_events (cfg : config) (evs : list event) (e : Engine) : Engine := foldl (fun e ev => step cfg ev e) e evs.
