(* ===== verification/EngineFrame.v ===== *)
(** * How a step changes the attachments of the engine

    [heap_keeps] lifts the frame of one attachment to the engine; every step has
    it, up to the new attachment of a registration and the four changes that are
    meant to happen: a granted slot, a binding, an opened gate, a successful check
    ([change]). *)

From stdpp Require Import base gmap strings list.
From Stdlib Require Import ZArith Lia.
From S2P Require Import Prelude Models Policy Progress Runtime RuntimeSafety RuntimeFrame Engine.

Open Scope string_scope.

Definition heap_keeps (e e' : Engine) : Prop :=
  forall id mt', e_heap e' !! id = Some mt' -> exists mt, e_heap e !! id = Some mt /\ keeps mt mt'.

#[export] Instance heap_keeps_refl : Reflexive heap_keeps.
Proof. intros e id mt H. by exists mt. Qed.

#[export] Instance heap_keeps_trans : Transitive heap_keeps.
Proof.
  intros e1 e2 e3 H12 H23 id mt (mt2 & (mt1 & H1 & ?)%H12 & ?)%H23. exists mt1. split; [done|]. by etrans.
Qed.

Lemma put_keeps e id mt mt' : e_heap e !! id = Some mt -> keeps mt mt' -> heap_keeps e (put id mt' e).
Proof.
  intros Hid Hk i m. unfold put. cbn. destruct (decide (i = id)) as [->|].
  - rewrite lookup_insert_eq. intros [= <-]. eauto.
  - rewrite lookup_insert_ne by done. eauto using keeps_refl.
Qed.

(** The same when the registries were changed first. *)
Lemma put_keeps_in e e' id mt mt' :
  e_heap e' = e_heap e -> e_heap e !! id = Some mt -> keeps mt mt' -> heap_keeps e (put id mt' e').
Proof. intros He Hid Hk i m. unfold put. cbn. rewrite He. by apply (put_keeps e id mt mt'). Qed.

Lemma add_job_keeps e j : heap_keeps e (add_job j e).
Proof. by intros i m ?; exists m. Qed.

Lemma shutdown_keeps e : heap_keeps e (shutdown e).
Proof.
  intros i m. unfold shutdown. cbn. rewrite lookup_fmap. intros (mt & ? & ->)%fmap_Some.
  exists mt. split; [done|]. keep.
Qed.

Lemma after_keeps w e e' : heap_keeps e e' -> heap_keeps e (after w e').
Proof. intros. unfold after. case_match; [done|]. etrans; [done|]. apply shutdown_keeps. Qed.

Lemma drop_raw_keeps raw e : heap_keeps e (drop_raw raw e).
Proof.
  intros i m. unfold drop_raw. cbn. rewrite lookup_fmap. intros (mt & ? & ->)%fmap_Some.
  exists mt. split; [done|]. case_match; keep.
Qed.

Lemma on_id_keeps e id f :
  (forall mt, e_heap e !! id = Some mt -> heap_keeps e (f id mt e)) -> heap_keeps e (on_id id f e).
Proof. intros H. unfold on_id, on. destruct (e_heap e !! id) as [mt|] eqn:E; cbn; [by apply H | done]. Qed.

Lemma lookup_inv e hash id mt :
  lookup e hash = Some (id, mt) -> e_managed e !! hash = Some id /\ e_heap e !! id = Some mt.
Proof.
  unfold lookup. destruct (e_managed e !! hash) as [i|]; cbn; [|done].
  destruct (e_heap e !! i) as [m|] eqn:E; cbn; [|done]. by intros [= -> ->].
Qed.

Lemma live_lookup_inv e hash id mt :
  live_lookup e hash = Some (id, mt) -> e_managed e !! hash = Some id /\ e_heap e !! id = Some mt.
Proof. unfold live_lookup. destruct (e_cancelled e); [done|]. apply lookup_inv. Qed.

Lemma on_keeps e found f :
  (forall id mt, found = Some (id, mt) -> e_heap e !! id = Some mt) ->
  (forall id mt, e_heap e !! id = Some mt -> heap_keeps e (f id mt e)) -> heap_keeps e (on found f e).
Proof. intros Hf H. unfold on. destruct found as [[id mt]|]; [by eauto | done]. Qed.

Lemma update_keeps w f e id mt :
  e_heap e !! id = Some mt -> keeps mt (f mt) -> heap_keeps e (update w f id mt e).
Proof. intros. apply after_keeps. by eapply put_keeps. Qed.

Lemma begin_work_keeps mk e id mt mt' :
  e_heap e !! id = Some mt -> keeps mt mt' -> heap_keeps e (begin_work mk id mt' e).
Proof.
  intros. unfold begin_work. case_match; [|by eapply put_keeps].
  etrans; [by eapply put_keeps | apply add_job_keeps].
Qed.

Lemma if_valid_keeps work f e id mt :
  heap_keeps e (f id mt e) -> heap_keeps e (if_valid work f id mt e).
Proof. intros. unfold if_valid. by case_match. Qed.

Lemma start_admission_keeps token e e' id mt mt' :
  e_heap e !! id = Some mt -> keeps mt mt' -> start_admission token id mt' e = Some e' -> heap_keeps e e'.
Proof.
  intros Hid Hk. unfold start_admission.
  destruct (admit_begin _ _ _ _) as [mt1|] eqn:E; [|done]. apply admit_begin_keeps in E.
  case_match; [|done]. intros [= <-]. etrans; [|apply add_job_keeps]. eapply put_keeps; [done|]. by etrans.
Qed.

Lemma admission_or_keeps token e o id mt mt' :
  e_heap e !! id = Some mt -> keeps mt mt' -> heap_keeps e o -> heap_keeps e (admission_or token o id mt' e).
Proof.
  intros Hid Hk Ho. unfold admission_or. destruct (start_admission _ _ _ _) as [e'|] eqn:E; cbn; [|done].
  by eapply start_admission_keeps.
Qed.

Lemma prepare_keeps w e id mt mt' :
  e_heap e !! id = Some mt -> keeps mt mt' -> heap_keeps e (prepare_payload w id mt' e).
Proof.
  intros Hid Hk. unfold prepare_payload. case_match; [|by eapply put_keeps].
  assert (keeps mt (mt' <| mt_downloadAllStarted := true |>)) by (etrans; [done|]; clear; keep).
  eapply admission_or_keeps; [done..|].
  eapply put_keeps; [done|]. etrans; [done|]. apply admission_failed_keeps.
Qed.

Lemma begin_health_keeps e id mt : e_heap e !! id = Some mt -> heap_keeps e (begin_health id mt e).
Proof.
  intros Hid. unfold begin_health. destruct (health_begin _ _ _) as [mt'|] eqn:E; [|done].
  apply health_begin_keeps in E. case_match; [|done].
  etrans; [by eapply put_keeps | apply add_job_keeps].
Qed.

(** A discarded registration keeps its attachment, if it was published in the
    heap at all. *)
Lemma discard_keeps e id mt : e_heap e !! id = Some mt -> heap_keeps e (discardRegistrationLocked id mt e).
Proof.
  intros Hid. unfold discardRegistrationLocked. etrans; [|apply add_job_keeps].
  case_match; (eapply put_keeps_in; [done | exact Hid | clear; keep]).
Qed.

Lemma finish_registration_keeps w e id mt :
  e_heap e !! id = Some mt -> heap_keeps e (finish_registration w id mt e).
Proof.
  intros Hid. unfold finish_registration. case_match; [by apply discard_keeps|].
  by intros i m ?; exists m.
Qed.

Lemma detached_keeps e id mt : heap_keeps e (detached id mt e).
Proof. unfold detached. case_match; by intros i m ?; exists m. Qed.

Lemma Delete_keeps infohash hash e : heap_keeps e (Delete infohash hash e).
Proof.
  unfold Delete. repeat (case_match; [done|]). apply on_keeps; [by intros ?? [_ ?]%lookup_inv|].
  intros id mt Hid. etrans; [|apply add_job_keeps].
  eapply put_keeps_in; [done | exact Hid|]. etrans; [|by apply retire_keeps]. clear; keep.
Qed.

Lemma Close_keeps e : heap_keeps e (Close e).
Proof.
  etrans; [apply shutdown_keeps|]. intros i m. unfold Close. cbn -[shutdown].
  rewrite map_lookup_imap. intros (mt & Hi & [= <-])%bind_Some.
  exists mt. split; [done|]. case_match; [by apply retire_keeps | done].
Qed.

Lemma StartRecheck_keeps cfg w e id mt : e_heap e !! id = Some mt -> heap_keeps e (StartRecheck cfg w id mt e).
Proof.
  intros Hid. unfold StartRecheck.
  pose proof (startRecheck_keeps w (current e id mt) (BTNoUpload cfg) (e_next e) (S (e_nextRecheckID e)) mt) as Hk.
  destruct (startRecheckLocked _ _ _ _ _ _) as [mt' r]. case_match; apply after_keeps; [|done].
  case_match; [etrans; [|apply add_job_keeps]|]; exact (put_keeps _ _ _ _ Hid Hk).
Qed.

Lemma VerifyInactive_keeps cfg w e id mt : e_heap e !! id = Some mt -> heap_keeps e (VerifyInactive cfg w id mt e).
Proof.
  intros Hid. unfold VerifyInactive.
  pose proof (verifyInactive_keeps w (current e id mt) (BTNoUpload cfg) (e_next e) mt) as Hk.
  destruct (verifyInactive_begin _ _ _ _ _) as [mt' err]. apply after_keeps.
  case_match; [|etrans; [|apply add_job_keeps]]; exact (put_keeps _ _ _ _ Hid Hk).
Qed.

Lemma finishVerification_keeps cfg w attempt f e id mt mt' :
  e_heap e !! id = Some mt -> keeps mt mt' -> heap_keeps e (finishVerification cfg w attempt (Some f) id mt' e).
Proof.
  intros. unfold finishVerification. apply after_keeps. eapply put_keeps; [done|]. etrans; [done|].
  apply completeVerification_keeps.
Qed.

Lemma run_check_keeps cfg w attempt e id mt :
  e_heap e !! id = Some mt -> heap_keeps e (run_check cfg w attempt id mt e).
Proof.
  intros. unfold run_check. destruct (begin_check _ _) as [mt'|] eqn:E;
    [|by eapply finishVerification_keeps].
  apply begin_check_keeps in E. etrans; [by eapply put_keeps | apply add_job_keeps].
Qed.

Lemma deferred_recheck_keeps cfg w e id mt :
  e_heap e !! id = Some mt -> heap_keeps e (deferred_recheck cfg w id mt e).
Proof.
  intros Hid. unfold deferred_recheck. case_match; [done|].
  assert (Hdone : forall e0, heap_keeps e0
    (on_id id (fun id mt => put id (mt <| mt_pendingRecheckBytes := 0%Z |>)) e0)).
  { intros e0. apply on_id_keeps. intros m Hm. eapply put_keeps; [exact Hm|]. clear; keep. }
  repeat case_match; (etrans; [|apply Hdone]) || idtac; try by apply StartRecheck_keeps. done.
Qed.

Lemma metadata_saved_keeps w e id mt : e_heap e !! id = Some mt -> heap_keeps e (metadata_saved w id mt e).
Proof.
  intros Hid. unfold metadata_saved.
  case_match; [apply after_keeps; eapply put_keeps; [done | by apply quiesceFault_keeps]|].
  case_match; apply after_keeps; [|done].
  assert (keeps mt (mt <| mt_downloadAllStarted := true |>)) by (clear; keep).
  eapply admission_or_keeps; [done..|]. by eapply put_keeps.
Qed.

Lemma continue_restore_keeps cfg w info manual event e id mt :
  ev_kind event = stateActivated ->
  e_heap e !! id = Some mt -> heap_keeps e (continue_restore cfg w info manual event id mt e).
Proof.
  intros Hk Hid. unfold continue_restore. pose proof (finish_checks_keeps w info (current e id mt) mt) as Hc.
  destruct (finish_checks _ _ _ _) as [mt1 [err|]]; cbn in Hc; [apply after_keeps; by eapply put_keeps|].
  case_match; apply after_keeps; [by eapply begin_work_keeps|].
  eapply put_keeps; [done|]. etrans; [exact Hc|]. by apply finish_apply_keeps.
Qed.

Lemma recover_restore_keeps cfg w version event e id mt :
  ev_kind event = stateActivated ->
  e_heap e !! id = Some mt -> heap_keeps e (recover_restore cfg w version event id mt e).
Proof.
  intros Hk Hid. unfold recover_restore. pose proof (recovered_keeps w version (current e id mt) mt) as Hc.
  destruct (resume_recovered _ _ _ _) as [mt1 [err|]]; cbn in Hc; apply after_keeps; [by eapply put_keeps|].
  eapply put_keeps; [done|]. etrans; [exact Hc|]. by apply finish_apply_keeps.
Qed.

Lemma Resume_keeps e id mt : e_heap e !! id = Some mt -> heap_keeps e (Resume id mt e).
Proof.
  intros Hid. unfold Resume. destruct (resume_begin mt) as [mt'|] eqn:E; [|done].
  apply resume_begin_keeps in E. by eapply begin_work_keeps.
Qed.

(** ** The four deliberate changes *)

(** An admission that succeeds: the ticket is the one the attachment holds, its
    epoch, fence and slot token are current, nothing failed meanwhile; only the
    gate, the base priorities and the ticket change. *)
Record opened (w : world) (ticket : payloadPreparation) (info current : bool) (mt mt' : ManagedTorrent) : Prop := {
  opened_valid : still_valid ticket mt = true;
  opened_eligible : payloadEligible (mt_policy mt) = true;
  opened_slot : mt_slotToken mt = pp_slot ticket;
  opened_current : current = true;
  opened_owned : mt_preparation mt = Some ticket;
  opened_probe : w_probe w = None;
  opened_metadata : info = true -> w_metadata w = true;
  opened_writes : lib_writeError (mt_t mt) = None;
  opened_frame : mt_hash mt' = mt_hash mt /\ mt_raw mt' = mt_raw mt /\
    mt_runtimeFence mt' = mt_runtimeFence mt /\ mt_slotToken mt' = mt_slotToken mt /\
    mt_policyEpoch mt' = mt_policyEpoch mt /\ mt_policy mt' = mt_policy mt;
}.

Lemma admit_end_cases w ticket info current mt :
  match admit_end w ticket info current mt with
  | (mt', None) => opened w ticket info current mt mt'
  | (mt', Some _) => keeps mt mt'
  end.
Proof.
  unfold admit_end. set (owned := bool_decide (mt_preparation mt = Some ticket)).
  set (mt0 := if owned then _ else mt).
  assert (Hk : keeps mt mt0 /\ mt_t mt0 = mt_t mt /\ mt_policyEpoch mt0 = mt_policyEpoch mt /\ mt_policy mt0 = mt_policy mt)
    by (unfold mt0; destruct owned; split_and!; try done; clear; keep).
  destruct Hk as (Hk & Hlib & Hep & Hpol). clearbody mt0.
  destruct (negb (_ && _)) eqn:Hvalid; [done|]. split_bools.
  destruct (w_probe w) as [reason|] eqn:Hprobe.
  { pose proof (block_keeps w (still w current) mt0 reason).
    destruct (blockDownloadLocked _ _ _ _) as [? []]; by etrans. }
  destruct (info && _) eqn:Hmeta; [etrans; [done | by apply quiesceFault_keeps]|].
  pose proof (filePriorities_keeps w mt0) as Hk1.
  destruct (applyFilePrioritiesAndDownload w mt0) as [mt1 [err|]] eqn:Hprio; [by etrans|]. cbn in Hk1.
  destruct (filePriorities_done _ _ _ Hprio) as (i & _ & _ & _ & ->).
  destruct (AllowDataDownloadIfNoWriteError _) as [l|enospc] eqn:Hallow.
  - unfold AllowDataDownloadIfNoWriteError in Hallow. cbn in Hallow. rewrite Hlib in Hallow.
    destruct (lib_closed (mt_t mt)); [done|]. destruct (lib_writeError (mt_t mt)) eqn:Hw; [done|].
    destruct Hk as (?&?&?&?&_). constructor; try done; cbn; try congruence.
    + by apply bool_decide_eq_true in H0.
    + intros ->. by destruct (w_metadata w).
  - pose proof (block_keeps w (still w current) (install_priorities mt0 (length (info_files i))) (write_reason enospc)).
    destruct (blockDownloadLocked _ _ _ _) as [? []]; (etrans; [exact Hk|]); by etrans.
Qed.

Inductive change (cfg : config) (ev : event) (e : Engine) (id : nat) (mt mt' : ManagedTorrent) : Prop :=
| change_keep : keeps mt mt' -> change cfg ev e id mt mt'
| change_grant j w outcome ticket mt1 mt2 e0 :
    ev = EvContinue j w outcome -> e_jobs e !! j = Some (JobHealth id ticket) ->
    keeps mt mt1 -> e_heap e0 = <[id := mt1]> (e_heap e) -> e_managed e0 = e_managed e ->
    e_cancelled e0 = e_cancelled e -> current e id mt = true ->
    capacity cfg e0 id = true -> slot (mt_policy mt1) = false ->
    request_slot true mt1 = Some mt2 -> keeps mt2 mt' -> change cfg ev e id mt mt'
| change_bind w fence applied :
    ev = EvBind w (mt_raw mt) fence applied -> valid_binding fence = true ->
    bind w fence applied mt = (mt', None) -> change cfg ev e id mt mt'
| change_open j w outcome ticket info token mt1 :
    ev = EvContinue j w outcome -> e_jobs e !! j = Some (JobAdmit id ticket info token) ->
    opened w ticket info (current e id mt) mt mt1 -> keeps mt1 mt' -> change cfg ev e id mt mt'
| change_verified j w attempt mt1 :
    ev = EvContinue j w None -> e_jobs e !! j = Some (JobVerify id attempt) ->
    verified w (current e id mt) attempt mt mt1 -> keeps mt1 mt' -> change cfg ev e id mt mt'.

Definition is_register (ev : event) : bool :=
  match ev with EvRegister _ _ _ _ _ _ _ => true | _ => false end.

(** A step changes existing attachments as [change] says and creates at most one
    new one, without a slot and with its gate closed. *)
Definition step_ok (cfg : config) (ev : event) (e e' : Engine) : Prop :=
  forall id mt', e_heap e' !! id = Some mt' ->
    (exists mt, e_heap e !! id = Some mt /\ change cfg ev e id mt mt') \/
    (is_register ev = true /\ e_heap e !! id = None /\ id < e_next e' /\
     slot (mt_policy mt') = false /\ lib_download (mt_t mt') = false).

Lemma heap_keeps_step cfg ev e e' : heap_keeps e e' -> step_ok cfg ev e e'.
Proof. intros H id mt' (mt & ? & ?)%H. left. exists mt. split; [done|]. by constructor. Qed.


(** Fresh pointers: every attachment is older than the next one. *)
Definition fresh_heap (e : Engine) : Prop := forall id, e_next e <= id -> e_heap e !! id = None.

Lemma request_slot_cases available mt mt' :
  request_slot available mt = Some mt' ->
  (slot (mt_policy mt) = true /\ mt' = mt) \/
  (slot (mt_policy mt) = false /\ available = true /\ request_slot true mt = Some mt').
Proof.
  unfold request_slot. destruct (slot (mt_policy mt)) eqn:Hs; [intros [= <-]; by left|]. intros H. right.
  destruct available; [done|]. exfalso.
  destruct (applyStateEventLocked _ _) as [[d mt1]|] eqn:He; [|done].
  apply event_inv in He as [Ht _]. by transition_cases Ht.
Qed.

Lemma end_health_step cfg ev j w outcome ticket e e0 id mt :
  ev = EvContinue j w outcome -> e_jobs e !! j = Some (JobHealth id ticket) ->
  e_heap e0 = e_heap e -> e_managed e0 = e_managed e -> e_cancelled e0 = e_cancelled e ->
  e_heap e !! id = Some mt -> step_ok cfg ev e (end_health cfg w ticket id mt e0).
Proof.
  intros Hev Hj Hh Hm Hc Hid. unfold end_health.
  assert (Hcur : current e0 id mt = current e id mt) by (unfold current; by rewrite Hm, Hc).
  pose proof (health_settle_keeps w ticket (current e0 id mt) mt) as Hk.
  destruct (health_settle _ _ _ _) as [mt1 proceed] eqn:Hset. cbn in Hk.
  assert (Hput : heap_keeps e (put id mt1 e0)) by by eapply put_keeps_in.
  destruct proceed; cbn [negb]; [|by apply heap_keeps_step, after_keeps].
  assert (Hcurrent : current e id mt = true).
  { unfold health_settle in Hset. rewrite Hcur in Hset. destruct (current e id mt); [done|].
    rewrite andb_false_r in Hset. cbn in Hset. by destruct (bool_decide _) in Hset. }
  destruct (request_slot _ mt1) as [mt2|] eqn:Hreq; [|by apply heap_keeps_step, after_keeps].
  assert (Hprep : heap_keeps (put id mt2 (put id mt1 e0))
                    (after w (prepare_payload w id mt2 (put id mt2 (put id mt1 e0))))).
  { apply after_keeps. eapply prepare_keeps; [|reflexivity]. apply lookup_insert_eq. }
  intros i m (m2 & Hi & Hm2)%Hprep. unfold put in Hi. cbn in Hi. rewrite Hh in Hi. left.
  destruct (decide (i = id)) as [->|Hne].
  - rewrite lookup_insert_eq in Hi. injection Hi as <-. exists mt. split; [done|].
    destruct (request_slot_cases _ _ _ Hreq) as [[Hs ->]|(Hs & Hcap & Hgrant)].
    + apply change_keep. by etrans.
    + eapply (change_grant _ _ _ _ _ _ j w outcome ticket mt1 mt2 (put id mt1 e0)); try done. unfold put. cbn. by rewrite Hh.
  - rewrite !lookup_insert_ne in Hi by done. exists m2. split; [done|]. by apply change_keep.
Qed.

Lemma end_admission_step cfg ev j w outcome ticket info token e e0 id mt :
  ev = EvContinue j w outcome -> e_jobs e !! j = Some (JobAdmit id ticket info token) ->
  e_heap e0 = e_heap e -> e_managed e0 = e_managed e -> e_cancelled e0 = e_cancelled e ->
  e_heap e !! id = Some mt -> step_ok cfg ev e (end_admission w ticket info token id mt e0).
Proof.
  intros Hev Hj Hh Hm Hc Hid. unfold end_admission.
  assert (Hcur : current e0 id mt = current e id mt) by (unfold current; by rewrite Hm, Hc).
  pose proof (admit_end_cases w ticket info (current e0 id mt) mt) as Hcases.
  destruct (admit_end _ _ _ _ _) as [mt1 err]. rewrite Hcur in *.
  assert (Hkeep : forall mt2, keeps mt mt2 -> step_ok cfg ev e (after w (put id mt2 e0))).
  { intros. apply heap_keeps_step, after_keeps. by eapply put_keeps_in. }
  destruct err as [err|].
  { destruct token; apply Hkeep; [|done]. etrans; [exact Hcases | apply admission_failed_keeps]. }
  assert (Hput : step_ok cfg ev e (after w (put id mt1 e0))).
  { intros i m (m1 & Hi & Hk)%(after_keeps w (put id mt1 e0)); [|done].
    unfold put in Hi. cbn in Hi. rewrite Hh in Hi. left.
    destruct (decide (i = id)) as [->|Hne].
    - rewrite lookup_insert_eq in Hi. injection Hi as <-. exists mt. split; [done|]. by eapply change_open.
    - rewrite lookup_insert_ne in Hi by done. exists m1. split; [done|]. by apply change_keep. }
  by destruct token.
Qed.

Lemma finishVerification_step cfg ev j w outcome attempt e e0 id mt :
  ev = EvContinue j w outcome -> e_jobs e !! j = Some (JobVerify id attempt) ->
  e_heap e0 = e_heap e -> e_managed e0 = e_managed e -> e_cancelled e0 = e_cancelled e ->
  e_heap e !! id = Some mt -> step_ok cfg ev e (finishVerification cfg w attempt outcome id mt e0).
Proof.
  intros Hev Hj Hh Hm Hc Hid. unfold finishVerification.
  assert (Hcur : current e0 id mt = current e id mt) by (unfold current; by rewrite Hm, Hc).
  destruct (completeVerification_cases w (current e0 id mt) (BTNoUpload cfg) attempt outcome mt) as [Hk|[-> Hv]].
  { apply heap_keeps_step, after_keeps. by eapply put_keeps_in. }
  rewrite Hcur in *. set (mt1 := (completeVerificationLocked _ _ _ _ _ _).1) in *.
  intros i m (m1 & Hi & Hk)%(after_keeps w (put id mt1 e0)); [|done].
  unfold put in Hi. cbn in Hi. rewrite Hh in Hi. left.
  destruct (decide (i = id)) as [->|Hne].
  - rewrite lookup_insert_eq in Hi. injection Hi as <-. exists mt. split; [done|]. by eapply change_verified.
  - rewrite lookup_insert_ne in Hi by done. exists m1. split; [done|]. by apply change_keep.
Qed.

(** The attachment a registration creates. *)
Lemma created_keeps e id mt :
  e_heap e !! id = None -> slot (mt_policy mt) = false -> lib_download (mt_t mt) = false ->
  forall e', heap_keeps (put id mt e) e' ->
  forall i m, e_heap e' !! i = Some m ->
    (exists m0, e_heap e !! i = Some m0 /\ keeps m0 m) \/
    (e_heap e !! i = None /\ i = id /\ slot (mt_policy m) = false /\ lib_download (mt_t m) = false).
Proof.
  intros Hnone Hs Hl e' Hk i m (m1 & Hi & Hm)%Hk. unfold put in Hi. cbn in Hi.
  destruct (decide (i = id)) as [->|Hne].
  - rewrite lookup_insert_eq in Hi. injection Hi as <-. right. do 2 (split; [done|]).
    destruct Hm as (_&_&_&_&_&_&Hslot&Hgate&_).
    split; apply not_true_is_false; intros E; [apply Hslot in E | apply Hgate in E]; congruence.
  - rewrite lookup_insert_ne in Hi by done. left. eauto.
Qed.

(** The library hands torrents over with their gates closed. *)
Definition admissible (ev : event) : Prop :=
  match ev with EvRegister _ _ _ _ _ l s => handed_over l s | _ => True end.

Lemma registered_closed hash raw l now s d mt :
  lib_download l = false ->
  applyStateEventLocked (new_managed hash raw l now s) (registration_event s) = Ok (d, mt) ->
  slot (mt_policy mt) = false /\ lib_download (mt_t mt) = false /\ mt_raw mt = raw /\ mt_hash mt = hash /\
  has_info (mt_t mt) = has_info l.
Proof.
  intros Hl He. apply event_keeps in He as Hk; [|by destruct s..].
  destruct (event_gates _ _ _ _ He) as [Hlib _].
  assert (Hnew : mt_t (new_managed hash raw l now s) = l /\ slot (mt_policy (new_managed hash raw l now s)) = false /\
    mt_raw (new_managed hash raw l now s) = raw /\ mt_hash (new_managed hash raw l now s) = hash) by by destruct s.
  destruct Hnew as (Ht & Hs & Hr & Hh), Hk as (?&?&_&_&_&_&Hslot&_). rewrite Hlib, Ht.
  split_and!; try congruence. apply not_true_is_false. intros E%Hslot. congruence.
Qed.

Lemma registerTorrent_step cfg w pick infohash identity raw l s e :
  fresh_heap e -> handed_over l s ->
  step_ok cfg (EvRegister w pick infohash identity raw l s) e (registerTorrent w pick infohash identity raw l s e).
Proof.
  intros Hfresh [Hl _]. unfold registerTorrent.
  assert (Hnone : e_heap e !! e_next e = None) by (apply Hfresh; lia).
  case_match; [apply heap_keeps_step; case_match; [apply add_job_keeps | done]|]. case_match; [by apply heap_keeps_step|]. cbv zeta.
  assert (Hrefuse : forall owner owners, heap_keeps e (refuse pick raw owner owners e)).
  { intros. unfold refuse. case_match; [done | apply add_job_keeps]. }
  destruct (conflicts e infohash _ raw (e_detaching e)); [|by apply heap_keeps_step].
  destruct (conflicts e infohash _ raw (e_registering e)); [|by apply heap_keeps_step].
  set (hash := default _ (managed_as e raw)). clearbody hash. case_match; [by apply heap_keeps_step|].
  assert (Hcreate : forall mt e', slot (mt_policy mt) = false -> lib_download (mt_t mt) = false ->
    e_next e < e_next e' -> heap_keeps (put (e_next e) mt e) e' ->
    step_ok cfg (EvRegister w pick infohash identity raw l s) e e').
  { intros mt e' Hs Hd Hnext Hk i m Hi.
    destruct (created_keeps e (e_next e) mt Hnone Hs Hd e' Hk i m Hi) as [(m0 & ? & ?)|(?&->&?)]; [left|by right].
    exists m0. split; [done|]. by apply change_keep. }
  destruct (applyStateEventLocked _ _) as [[d mt]|] eqn:He.
  - destruct (registered_closed _ _ _ _ _ _ _ Hl He) as (Hs & Hd & _). apply (Hcreate mt); [done..| |].
    { unfold finish_registration, discardRegistrationLocked. repeat case_match; cbn; lia. }
    case_match; [by intros i m ?; exists m|].
    etrans; [|apply finish_registration_keeps; apply lookup_insert_eq]. by intros i m ?; exists m.
  - apply (Hcreate (new_managed hash raw l (w_now w) s)); [by destruct s..| |];
    unfold discardRegistrationLocked; [case_match; cbn; lia|].
    etrans; [|apply add_job_keeps].
    case_match; intros i m; unfold put; cbn; (destruct (decide (i = e_next e)) as [->|];
      [rewrite !lookup_insert_eq; intros [= <-]; eexists; split; [done|]; clear; keep
      | rewrite !lookup_insert_ne by done; intros ?; by exists m]).
Qed.

(** The job of a finished restore carries an activation. *)
Definition job_event_ok (j : job) : Prop :=
  match j with
  | JobFinish _ _ _ _ event | JobRecover _ _ _ event => ev_kind event = stateActivated
  | _ => True
  end.

Lemma continue_step cfg j w outcome e job :
  e_jobs e !! j = Some job -> job_event_ok job ->
  step_ok cfg (EvContinue j w outcome) e (continue cfg w outcome job (e <| e_jobs ::= delete j |>)).
Proof.
  intros Hj Hjob. set (e0 := e <| e_jobs ::= delete j |>).
  assert (He0 : heap_keeps e e0) by by intros i m ?; exists m.
  assert (Hkeep : forall e', heap_keeps e0 e' -> step_ok cfg (EvContinue j w outcome) e e').
  { intros. apply heap_keeps_step. by etrans. }
  destruct job; cbn [continue].
  1: { unfold on_id, on. destruct (e_heap e0 !! id) as [mt|] eqn:E; cbn; [|by apply Hkeep].
       by eapply end_health_step. }
  1: { unfold on_id, on. destruct (e_heap e0 !! id) as [mt|] eqn:E; cbn; [|by apply Hkeep].
       by eapply end_admission_step. }
  12: { unfold on_id, on. destruct (e_heap e0 !! id) as [mt|] eqn:E; cbn; [|by apply Hkeep].
       by eapply finishVerification_step. }
  all: apply Hkeep; try (apply on_id_keeps; intros mt Hid).
  - apply if_valid_keeps, update_keeps; [done | apply resume_end_keeps].
  - by apply if_valid_keeps, continue_restore_keeps.
  - by apply if_valid_keeps, recover_restore_keeps.
  - apply if_valid_keeps, update_keeps; [done | apply missing_end_keeps].
  - apply if_valid_keeps. by eapply begin_work_keeps.
  - by apply if_valid_keeps, metadata_saved_keeps.
  - by apply finish_registration_keeps.
  - etrans; [apply drop_raw_keeps | apply add_job_keeps].
  - apply detached_keeps.
  - apply drop_raw_keeps.
  - by apply run_check_keeps.
Qed.

Ltac lookup_step :=
  apply on_keeps; [intros ?? [_ ?]%lookup_inv; assumption || (intros ?? [_ ?]%live_lookup_inv; assumption)
                  | intros id mt Hid].

Lemma EvBind_step cfg w expected fence applied e :
  step_ok cfg (EvBind w expected fence applied) e (step cfg (EvBind w expected fence applied) e).
Proof.
  cbn [step]. destruct (valid_binding fence) eqn:Hv; cbn [negb]; [|by apply heap_keeps_step].
  unfold on. destruct (live_lookup _ _) as [[id mt]|] eqn:Hl; [|by apply heap_keeps_step].
  apply live_lookup_inv in Hl as [_ Hid].
  destruct (Nat.eqb_spec (mt_raw mt) expected) as [<-|]; [|by apply heap_keeps_step].
  assert (Hbind : forall mt', bind w fence applied mt = (mt', None) \/ mt' = mt ->
    step_ok cfg (EvBind w (mt_raw mt) fence applied) e (put id mt' e)).
  { intros mt' Hm i m. unfold put. cbn. destruct (decide (i = id)) as [->|].
    - rewrite lookup_insert_eq. intros [= <-]. left. exists mt. split; [done|].
      destruct Hm as [Hm| ->]; [by eapply change_bind | by apply change_keep].
    - rewrite lookup_insert_ne by done. intros. left. exists m. split; [done|]. by apply change_keep. }
  apply Hbind. unfold bind. cbv zeta.
  repeat (case_match; [by right|]). by left.
Qed.
