(* ===== verification/EngineSafety.v ===== *)
(** * Safety of the engine

    Invariants of the reachable engine states and the properties they give:
    gates open only with permission and only through a valid admission, slots
    bounded by the configuration, bindings that never go back, attachments that
    are never registered twice. *)

From stdpp Require Import base gmap strings list.
From Stdlib Require Import ZArith Lia.
From S2P Require Import Prelude Models Policy Progress Runtime RuntimeSafety RuntimeFrame Engine EngineFrame.

Open Scope string_scope.

(** ** Jobs and pointers *)

(** What a pending job may be: restores carry activations; [strict] excludes the
    engine's own Resume. *)
Definition job_fine (strict : bool) (j : job) : Prop :=
  match j with
  | JobFinish _ _ _ _ event | JobRecover _ _ _ event => ev_kind event = stateActivated
  | JobResume _ _ _ => strict = false
  | _ => True
  end.

Definition jobs_grow (strict : bool) (e e' : Engine) : Prop :=
  e_next e <= e_next e' /\
  forall j job, e_jobs e' !! j = Some job -> e_jobs e !! j = Some job \/ job_fine strict job.

#[export] Instance jobs_grow_refl strict : Reflexive (jobs_grow strict).
Proof. split; auto. Qed.

#[export] Instance jobs_grow_trans strict : Transitive (jobs_grow strict).
Proof. intros e1 e2 e3 [? H1] [? H2]. split; [lia|]. intros j job [?%H1|?]%H2; auto. Qed.

Lemma grow_add_job strict e e' j : job_fine strict j -> jobs_grow strict e e' -> jobs_grow strict e (add_job j e').
Proof.
  intros Hj [Hn Hjobs]. unfold add_job. split; [cbn; lia|]. intros i job. cbn.
  destruct (decide (i = e_next e')) as [->|].
  - rewrite lookup_insert_eq. intros [= <-]. by right.
  - rewrite lookup_insert_ne by done. apply Hjobs.
Qed.

Lemma grow_after strict w e e' : jobs_grow strict e e' -> jobs_grow strict e (after w e').
Proof. intros H. unfold after. case_match; exact H. Qed.

Lemma grow_put strict e e' id mt : jobs_grow strict e e' -> jobs_grow strict e (put id mt e').
Proof. done. Qed.

Lemma grow_on strict e found f :
  (forall id mt, jobs_grow strict e (f id mt e)) -> jobs_grow strict e (on found f e).
Proof. intros. unfold on. destruct found as [[]|]; [done | reflexivity]. Qed.

Lemma grow_next strict e e' : e_next e <= e_next e' -> e_jobs e' = e_jobs e -> jobs_grow strict e e'.
Proof. intros ? Hj. split; [done|]. rewrite Hj. auto. Qed.

Lemma grow_admission strict token e e' o id mt :
  jobs_grow strict e e' -> jobs_grow strict e o -> jobs_grow strict e (admission_or token o id mt e').
Proof.
  intros. unfold admission_or, start_admission. destruct (admit_begin _ _ _ _) as [mt'|]; [|done].
  destruct (mt_preparation mt'); [|done]. cbn. by apply grow_add_job.
Qed.

Ltac grow :=
  repeat first
    [ reflexivity
    | apply grow_admission
    | apply grow_after | apply grow_put | apply grow_on; intros
    | apply grow_add_job; [by cbn|]
    | match goal with |- context [match ?x with _ => _ end] => destruct x eqn:? end
    | apply grow_next; [cbn; lia | done] ].

Lemma continue_grow strict cfg w outcome j e :
  job_fine strict j -> jobs_grow strict e (continue cfg w outcome j e).
Proof.
  intros Hj. destruct j; cbn [continue]; unfold on_id; try (apply grow_on; intros);
    unfold end_health, end_admission, if_valid, update, continue_restore, recover_restore, begin_work,
      metadata_saved, finish_registration, discardRegistrationLocked, drop_raw, detached, run_check,
      finishVerification, prepare_payload; cbv zeta; cbn in Hj.
  all: grow.
Qed.

Lemma StartRecheck_grow strict cfg w id mt e : jobs_grow strict e (StartRecheck cfg w id mt e).
Proof. unfold StartRecheck. cbv zeta. grow. Qed.

(** The events of a run; [strict] runs never call the engine's own Resume. *)
Definition fine (strict : bool) (ev : event) : Prop :=
  admissible ev /\ match ev with EvResume _ => strict = false | _ => True end.

Lemma step_grow strict cfg ev e :
  fine strict ev -> (forall j job, e_jobs e !! j = Some job -> job_fine strict job) ->
  jobs_grow strict e (step cfg ev e).
Proof.
  intros [_ Hev] Hjobs. destruct ev; cbn [step].
  all: try (destruct (e_jobs e !! j) as [job|] eqn:Hj; [|reflexivity];
    transitivity (e <| e_jobs ::= delete j |>); [|by apply continue_grow, (Hjobs j)];
    split; [done|]; intros i job'; cbn; intros [_ ?]%lookup_delete_Some; by left).
  all: unfold on_id, registerTorrent, Delete, Close, shutdown, refuse, discardRegistrationLocked,
    finish_registration, begin_health, CheckPayloadAdmission, update,
    StartRecheck, VerifyInactive, deferred_recheck, FinishRestore, Resume, detectMissing, metadata_known,
    refreshPeerDiscovery, begin_work; cbv zeta.
  all: grow.
  - etrans; [apply StartRecheck_grow|]. unfold on_id. grow.
  - apply StartRecheck_grow.
Qed.

(** ** Reachable engines *)

Inductive engine_reachable (strict : bool) (cfg : config) : Engine -> Prop :=
| engine_new : engine_reachable strict cfg new_engine
| engine_step e ev :
    engine_reachable strict cfg e -> fine strict ev -> engine_reachable strict cfg (step cfg ev e).

Record engine_wf (strict : bool) (e : Engine) : Prop := {
  wf_fresh : fresh_heap e;
  wf_jobs : forall j job, e_jobs e !! j = Some job -> job_fine strict job;
}.

Lemma job_fine_event strict j : job_fine strict j -> job_event_ok j.
Proof. by destruct j. Qed.

Lemma step_changes strict cfg ev e :
  engine_wf strict e -> fine strict ev -> step_ok cfg ev e (step cfg ev e).
Proof.
  intros [Hfresh Hjobs] [Hadm _]. destruct ev.
  all: lazymatch goal with
    | |- step_ok _ (EvRegister _ _ _ _ _ _ _) _ _ => idtac
    | |- step_ok _ (EvContinue _ _ _) _ _ => idtac
    | |- step_ok _ (EvBind _ _ _ _) _ _ => idtac
    | _ => apply heap_keeps_step; cbn [step];
    try (apply on_keeps; [(by intros ?? [_ ?]%lookup_inv) || by intros ?? [_ ?]%live_lookup_inv | intros i mt Hid]);
    try (apply on_id_keeps; intros mt Hid) end.
  - apply shutdown_keeps.
  - apply Close_keeps.
  - by apply registerTorrent_step.
  - apply Delete_keeps.
  - cbn [step]. destruct (e_jobs e !! j) as [job|] eqn:Hj; [|by apply heap_keeps_step].
    apply continue_step; [done|]. by eapply job_fine_event, Hjobs.
  - by apply begin_health_keeps.
  - unfold CheckPayloadAdmission. by eapply admission_or_keeps.
  - apply update_keeps; [done | apply setFilePriority_keeps].
  - apply update_keeps; [done | apply setTorrentFilesPriority_keeps].
  - apply update_keeps; [done | apply setFilePriorities_keeps].
  - eapply put_keeps; [exact Hid|]. clear; keep.
  - eapply put_keeps; [exact Hid|]. clear; keep.
  - eapply put_keeps; [exact Hid|]. unfold got_info. destruct (has_info (mt_t mt)) eqn:?; unfold keeps; cbn; rewrite Heqb; by repeat split.
  - apply update_keeps; [done | apply payloadWriteError_keeps].
  - by apply StartRecheck_keeps.
  - case_match; [done|]. eapply put_keeps; [exact Hid|]. clear; keep.
  - by apply deferred_recheck_keeps.
  - by apply VerifyInactive_keeps.
  - eapply put_keeps; [exact Hid | apply restoreVerification_keeps].
  - apply EvBind_step.
  - case_match; [done|]. apply on_keeps; [by intros ?? [_ ?]%lookup_inv | intros i mt Hid].
    case_match; [|done]. eapply put_keeps; [exact Hid | apply failIntentApply_keeps].
  - eapply put_keeps; [exact Hid | apply captureObservation_keeps].
  - eapply put_keeps; [exact Hid | apply stageExistingRestore_keeps].
  - unfold FinishRestore. cbv zeta. case_match; [|done]. by eapply begin_work_keeps.
  - eapply put_keeps; [exact Hid | apply pauseWithIntent_keeps].
  - by apply Resume_keeps.
  - unfold detectMissing. case_match; [done|]. by eapply begin_work_keeps.
  - eapply put_keeps; [exact Hid | apply rememberExpectedPayload_keeps].
  - case_match; [|done]. unfold metadata_known. case_match; [done|]. by eapply begin_work_keeps.
  - unfold refreshPeerDiscovery. case_match; [|done]. apply update_keeps; [done | apply refresh_discovery_keeps].
Qed.

Lemma step_wf strict cfg ev e : engine_wf strict e -> fine strict ev -> engine_wf strict (step cfg ev e).
Proof.
  intros Hwf Hev. pose proof (step_changes _ cfg _ _ Hwf Hev) as Hstep.
  destruct Hwf as [Hfresh Hjobs]. destruct (step_grow strict cfg ev e Hev Hjobs) as [Hnext Hgrow]. constructor.
  - intros id Hid. destruct (e_heap (step cfg ev e) !! id) as [mt|] eqn:E; [exfalso|done].
    destruct (Hstep _ _ E) as [(mt0 & H0 & _)|(_ & _ & ? & _)]; [|lia].
    rewrite Hfresh in H0; [done|lia].
  - intros j job [?|?]%Hgrow; eauto.
Qed.

Lemma reachable_wf strict cfg e : engine_reachable strict cfg e -> engine_wf strict e.
Proof. induction 1; [by constructor|]. by apply step_wf. Qed.

(** ** Every attachment keeps its invariant *)

Definition heap_ok (strict : bool) (e : Engine) : Prop :=
  forall id mt, e_heap e !! id = Some mt -> runtime_ok strict mt.

Lemma put_ok strict e id mt : heap_ok strict e -> runtime_ok strict mt -> heap_ok strict (put id mt e).
Proof.
  intros He Hmt i m. unfold put. cbn. destruct (decide (i = id)) as [->|].
  - rewrite lookup_insert_eq. by intros [= <-].
  - rewrite lookup_insert_ne by done. apply He.
Qed.

Lemma shutdown_ok strict e : heap_ok strict e -> heap_ok strict (shutdown e).
Proof.
  intros He i m. unfold shutdown. cbn. rewrite lookup_fmap. intros (mt & ?%He & ->)%fmap_Some. done.
Qed.

Lemma after_ok strict w e : heap_ok strict e -> heap_ok strict (after w e).
Proof. intros. unfold after. case_match; [done | by apply shutdown_ok]. Qed.

Lemma add_job_ok strict j e : heap_ok strict e -> heap_ok strict (add_job j e).
Proof. done. Qed.

Lemma drop_raw_ok strict raw e : heap_ok strict e -> heap_ok strict (drop_raw raw e).
Proof.
  intros He i m. unfold drop_raw. cbn. rewrite lookup_fmap. intros (mt & ?%He & ->)%fmap_Some. by case_match.
Qed.

Lemma admission_or_ok strict token o id mt e :
  heap_ok strict e -> heap_ok strict o -> runtime_ok strict mt -> heap_ok strict (admission_or token o id mt e).
Proof.
  intros. unfold admission_or, start_admission. destruct (admit_begin _ _ _ _) as [mt'|] eqn:E; [|done].
  accepted. case_match; [|done]. by apply add_job_ok, put_ok.
Qed.

Lemma on_ok strict found f e :
  heap_ok strict e -> (forall id mt, found = Some (id, mt) -> e_heap e !! id = Some mt) ->
  (forall id mt, runtime_ok strict mt -> heap_ok strict (f id mt e)) -> heap_ok strict (on found f e).
Proof. intros He Hf H. unfold on. destruct found as [[id mt]|]; [|done]. apply H, (He id). eauto. Qed.

Lemma on_id_ok strict id f e :
  heap_ok strict e -> (forall mt, runtime_ok strict mt -> heap_ok strict (f id mt e)) ->
  heap_ok strict (on_id id f e).
Proof.
  intros He H. unfold on_id, on. destruct (e_heap e !! id) as [mt|] eqn:E; cbn; [|done]. apply H. by apply (He id).
Qed.

(** Changes of fields the invariant does not read. *)
Lemma started_ok strict mt b : runtime_ok strict mt -> runtime_ok strict (mt <| mt_downloadAllStarted := b |>).
Proof. done. Qed.
Lemma cancelled_ok strict mt : runtime_ok strict mt -> runtime_ok strict (mt <| mt_cancelled := true |>).
Proof. done. Qed.
#[local] Hint Resolve started_ok cancelled_ok : runtime.

Ltac sound :=
  repeat first
    [ assumption
    | apply after_ok | apply put_ok | apply add_job_ok | apply admission_or_ok
    | progress accepted | solve [auto with runtime]
    | match goal with |- heap_ok _ (match ?x with _ => _ end) => destruct x eqn:? end
    | match goal with |- heap_ok _ (let '(_, _) := ?x in _) => destruct x eqn:? end ].

Lemma begin_work_ok strict mk id mt e :
  heap_ok strict e -> runtime_ok strict mt -> heap_ok strict (begin_work mk id mt e).
Proof. intros. unfold begin_work. sound. Qed.

Lemma end_health_ok strict cfg w ticket id mt e :
  heap_ok strict e -> runtime_ok strict mt -> heap_ok strict (end_health cfg w ticket id mt e).
Proof.
  intros He Hmt. unfold end_health. pose proof (health_settle_ok strict w ticket (current e id mt) mt Hmt) as H1.
  destruct (health_settle _ _ _ _) as [mt1 proceed]. cbn in H1. cbv zeta.
  assert (He1 : heap_ok strict (put id mt1 e)) by by apply put_ok.
  case_match; [by apply after_ok|].
  destruct (request_slot _ _) as [mt2|] eqn:Hreq; [|by apply after_ok].
  accepted.
  unfold prepare_payload. cbv zeta. sound.
Qed.

Lemma end_admission_ok strict w ticket info token id mt e :
  heap_ok strict e -> runtime_ok strict mt -> heap_ok strict (end_admission w ticket info token id mt e).
Proof.
  intros He Hmt. unfold end_admission. pose proof (admit_end_ok strict w ticket info (current e id mt) mt Hmt) as H1.
  destruct (admit_end _ _ _ _ _) as [mt1 err]. cbn in H1. sound.
Qed.

Lemma restore_ok strict cfg w info manual event id mt e :
  ev_kind event = stateActivated ->
  heap_ok strict e -> runtime_ok strict mt -> heap_ok strict (continue_restore cfg w info manual event id mt e).
Proof.
  intros Hk He Hmt. unfold continue_restore.
  pose proof (finish_checks_ok strict w info (current e id mt) mt Hmt) as H1.
  destruct (finish_checks _ _ _ _) as [mt1 err]. cbn in H1.
  assert (runtime_ok strict (finish_apply w (current e id mt1) (BTNoUpload cfg) event mt1).1)
    by by apply finish_apply_ok.
  destruct err; [sound|]. case_match; [apply after_ok; by apply begin_work_ok | sound].
Qed.

Lemma recover_ok strict cfg w version event id mt e :
  ev_kind event = stateActivated ->
  heap_ok strict e -> runtime_ok strict mt -> heap_ok strict (recover_restore cfg w version event id mt e).
Proof.
  intros Hk He Hmt. unfold recover_restore.
  pose proof (recovered_ok strict w version (current e id mt) mt Hmt) as H1.
  destruct (resume_recovered _ _ _ _) as [mt1 err]. cbn in H1.
  assert (runtime_ok strict (finish_apply w (current e id mt1) (BTNoUpload cfg)
            (event <| ev_diskRecovered := true |>) mt1).1) by by apply finish_apply_ok.
  destruct err; sound.
Qed.

Lemma discard_ok strict id mt e :
  heap_ok strict e -> runtime_ok strict mt -> heap_ok strict (discardRegistrationLocked id mt e).
Proof. intros. unfold discardRegistrationLocked. apply add_job_ok, put_ok; [by case_match | done]. Qed.

Lemma continue_ok strict cfg w outcome j e :
  job_fine strict j -> heap_ok strict e -> heap_ok strict (continue cfg w outcome j e).
Proof.
  intros Hj He. destruct j; cbn [continue]; try (apply on_id_ok; [done|]; intros mt Hmt); unfold if_valid, update.
  - by apply end_health_ok.
  - by apply end_admission_ok.
  - cbn in Hj. subst strict. sound.
  - case_match; [by apply restore_ok | done].
  - case_match; [by apply recover_ok | done].
  - sound.
  - case_match; [by apply begin_work_ok | done].
  - unfold metadata_saved. cbv zeta. sound.
  - unfold finish_registration. case_match; [by apply discard_ok | done].
  - apply add_job_ok. by apply drop_raw_ok.
  - unfold detached. by case_match.
  - by apply drop_raw_ok.
  - unfold run_check, finishVerification. sound.
  - unfold finishVerification. sound.
Qed.

Lemma StartRecheck_ok strict cfg w id mt e :
  heap_ok strict e -> runtime_ok strict mt -> heap_ok strict (StartRecheck cfg w id mt e).
Proof.
  intros He Hmt. unfold StartRecheck.
  pose proof (startRecheck_ok strict w (current e id mt) (BTNoUpload cfg) (e_next e) (S (e_nextRecheckID e)) mt Hmt) as H1.
  destruct (startRecheckLocked _ _ _ _ _ _) as [mt1 r]. cbn in H1. cbv zeta.
  assert (heap_ok strict (put id mt1 e)) by by apply put_ok.
  repeat case_match; by apply after_ok.
Qed.

Lemma deferred_recheck_ok strict cfg w id mt e :
  heap_ok strict e -> runtime_ok strict mt -> heap_ok strict (deferred_recheck cfg w id mt e).
Proof.
  intros He Hmt. unfold deferred_recheck. case_match; [done|].
  assert (Hdone : forall e0, heap_ok strict e0 -> heap_ok strict
    (on_id id (fun id mt => put id (mt <| mt_pendingRecheckBytes := 0%Z |>)) e0)).
  { intros e0 He0. apply on_id_ok; [done|]. intros m Hm. by apply put_ok. }
  repeat case_match; try apply Hdone; try by apply StartRecheck_ok. done.
Qed.

Lemma VerifyInactive_ok strict cfg w id mt e :
  heap_ok strict e -> runtime_ok strict mt -> heap_ok strict (VerifyInactive cfg w id mt e).
Proof.
  intros He Hmt. unfold VerifyInactive.
  pose proof (verifyInactive_ok strict w (current e id mt) (BTNoUpload cfg) (e_next e) mt Hmt) as H1.
  destruct (verifyInactive_begin _ _ _ _ _) as [mt1 err]. cbn in H1. cbv zeta.
  assert (heap_ok strict (put id mt1 e)) by by apply put_ok.
  case_match; by apply after_ok.
Qed.

Lemma registerTorrent_ok strict w pick infohash identity raw l s e :
  handed_over l s -> heap_ok strict e ->
  heap_ok strict (registerTorrent w pick infohash identity raw l s e).
Proof.
  intros Hl He. unfold registerTorrent. case_match; [by case_match|]. case_match; [done|]. cbv zeta.
  assert (Hrefuse : forall owner owners, heap_ok strict (refuse pick raw owner owners e))
    by (intros; unfold refuse; by case_match).
  destruct (conflicts e infohash _ raw (e_detaching e)); [|done].
  destruct (conflicts e infohash _ raw (e_registering e)); [|done].
  set (hash := default _ (managed_as e raw)). clearbody hash. case_match; [done|].
  assert (Hnew : runtime_ok strict (new_managed hash raw l (w_now w) s) \/ s = None).
  { destruct Hl as [Hd Hu]. destruct s as [s|]; [left|by right]. split; [apply new_managed_facts|].
    split; [|intros _]; intros Hopen; cbn in Hopen; [congruence|]. rewrite Hu in Hopen; [done|by eexists]. }
  destruct (applyStateEventLocked _ _) as [[d mt]|] eqn:Hev.
  - assert (runtime_ok strict mt).
    { pose proof (registration_ok _ _ _ _ _ _ _ Hl Hev) as Hok.
      destruct strict; [done | by apply runtime_ok_lax in Hok]. }
    assert (Hput : heap_ok strict (put (e_next e) mt e)) by by apply put_ok.
    case_match; [done|]. unfold finish_registration. case_match; [by apply discard_ok | done].
  - apply discard_ok; [done|]. destruct Hnew as [|Hnone]; [done|]. subst s. by vm_compute in Hev.
Qed.

Lemma step_heap_ok strict cfg ev e :
  engine_wf strict e -> fine strict ev -> heap_ok strict e -> heap_ok strict (step cfg ev e).
Proof.
  intros [_ Hjobs] [Hadm Hev] He. destruct ev; cbn [step].
  all: try (apply on_ok; [done | (by intros ?? [_ ?]%lookup_inv) || by intros ?? [_ ?]%live_lookup_inv | intros i mt Hmt]);
    try (apply on_id_ok; [done|]; intros mt Hmt); unfold update.
  all: try solve [sound].
  - by apply shutdown_ok.
  - intros i m. unfold Close. cbn -[shutdown]. rewrite map_lookup_imap.
    intros (mt & Hi%(shutdown_ok _ _ He) & [= <-])%bind_Some. case_match; [by apply retire_ok | done].
  - by apply registerTorrent_ok.
  - unfold Delete. repeat (case_match; [done|]).
    apply on_ok; [done | by intros ?? [_ ?]%lookup_inv | intros i mt Hmt].
    apply add_job_ok, put_ok; [done|]. by apply retire_ok.
  - destruct (e_jobs e !! j) as [job|] eqn:Hj; [|done]. apply continue_ok; [by eapply Hjobs | done].
  - unfold begin_health. sound.
  - by apply StartRecheck_ok.
  - by apply deferred_recheck_ok.
  - by apply VerifyInactive_ok.
  - case_match; [done|].
    apply on_ok; [done | by intros ?? [_ ?]%live_lookup_inv | intros i mt Hmt]. sound.
  - case_match; [done|].
    apply on_ok; [done | by intros ?? [_ ?]%lookup_inv | intros i mt Hmt]. sound.
  - unfold FinishRestore. cbv zeta. case_match; [by apply begin_work_ok | done].
  - unfold Resume. destruct (resume_begin mt) eqn:E; [|done]. accepted. by apply begin_work_ok.
  - unfold detectMissing. case_match; [done | by apply begin_work_ok].
  - unfold metadata_known. repeat case_match; try done; by apply begin_work_ok.
  - unfold refreshPeerDiscovery. case_match; [|done]. sound.
Qed.

Lemma reachable_heap_ok strict cfg e : engine_reachable strict cfg e -> heap_ok strict e.
Proof. induction 1; [done|]. apply step_heap_ok; eauto using reachable_wf. Qed.
