(* ===== verification/EngineRegistry.v ===== *)
(** * Registries of the engine

    Which attachment owns which hash and which library torrent: the invariant of
    [managedTorrents], [registering] and [detaching] and its preservation by
    every step.  On top of it, the count of download slots. *)

From stdpp Require Import base gmap strings list.
From Stdlib Require Import ZArith Lia.
From S2P Require Import Prelude Models Policy Progress Runtime RuntimeSafety RuntimeFrame Engine EngineFrame.
From S2P Require Import EngineSafety.

Open Scope string_scope.

(** ** Steps that leave the registries alone *)

(** Jobs that do not touch the registries. *)
Definition plain (j : job) : Prop :=
  match j with JobRegister _ | JobDrop _ | JobDetached _ => False | _ => True end.

(** Jobs that may be added without further obligation. *)
Definition calm (j : job) : Prop := match j with JobRegister _ | JobDetached _ => False | _ => True end.

Record quiet (e e' : Engine) : Prop := {
  quiet_managed : e_managed e' = e_managed e;
  quiet_detaching : e_detaching e' = e_detaching e;
  quiet_registering : e_registering e' = e_registering e;
  quiet_dropped : e_dropped e ⊆ e_dropped e';
  quiet_heap : dom (e_heap e) ⊆ dom (e_heap e');
  quiet_jobs : forall j job, e_jobs e' !! j = Some job -> e_jobs e !! j = Some job \/ calm job;
}.

#[export] Instance quiet_refl : Reflexive quiet.
Proof. constructor; auto. Qed.

#[export] Instance quiet_trans : Transitive quiet.
Proof.
  intros e1 e2 e3 [Hm Hd Hr Hdr Hh Hj] []. constructor; try congruence; set_solver.
Qed.

Lemma quiet_add_job e e' j : calm j -> quiet e e' -> quiet e (add_job j e').
Proof.
  intros Hp []. constructor; try done. intros i job. unfold add_job. cbn.
  destruct (decide (i = e_next e')) as [->|]; [rewrite lookup_insert_eq; intros [= <-]; by right|].
  rewrite lookup_insert_ne by done. auto.
Qed.

Lemma quiet_put e e' id mt : quiet e e' -> quiet e (put id mt e').
Proof. intros []. constructor; try done. unfold put. cbn. rewrite dom_insert. set_solver. Qed.

Lemma quiet_shutdown e e' : quiet e e' -> quiet e (shutdown e').
Proof. intros []. constructor; try done. unfold shutdown. cbn. by rewrite dom_fmap. Qed.

Lemma quiet_after w e e' : quiet e e' -> quiet e (after w e').
Proof. intros. unfold after. case_match; [done | by apply quiet_shutdown]. Qed.

Lemma quiet_on e found f : (forall id mt, quiet e (f id mt e)) -> quiet e (on found f e).
Proof. intros. unfold on. destruct found as [[]|]; [done | reflexivity]. Qed.

Lemma quiet_admission token e e' o id mt :
  quiet e e' -> quiet e o -> quiet e (admission_or token o id mt e').
Proof.
  intros. unfold admission_or, start_admission. destruct (admit_begin _ _ _ _) as [mt'|]; [|done].
  destruct (mt_preparation mt'); [|done]. cbn. apply quiet_add_job; [done|]. by apply quiet_put.
Qed.

(** A change of counters only. *)
Lemma quiet_counters e e' e'' :
  quiet e e' -> e_managed e'' = e_managed e' -> e_detaching e'' = e_detaching e' ->
  e_registering e'' = e_registering e' -> e_dropped e'' = e_dropped e' -> e_heap e'' = e_heap e' ->
  e_jobs e'' = e_jobs e' -> quiet e e''.
Proof.
  intros [] Hm Hd Hr Hdr Hh Hj. constructor; rewrite ?Hdr, ?Hh, ?Hj; congruence || done.
Qed.

Ltac hush :=
  repeat first
    [ assumption
    | reflexivity
    | apply quiet_admission | apply quiet_after | apply quiet_put | apply quiet_shutdown
    | apply quiet_on; intros
    | apply quiet_add_job; [exact I|]
    | match goal with |- context [match ?x with _ => _ end] => destruct x eqn:? end ].

Lemma StartRecheck_quiet cfg w id mt e : quiet e (StartRecheck cfg w id mt e).
Proof.
  unfold StartRecheck. cbv zeta.
  destruct (startRecheckLocked _ _ _ _ _ _) as [mt' r]. case_match; apply quiet_after; [|reflexivity].
  case_match; [apply quiet_add_job; [exact I|]|]; (eapply quiet_counters; [apply (quiet_put e e id mt'); reflexivity|done..]).
Qed.

Lemma drop_raw_quiet raw e : quiet e (drop_raw raw e).
Proof. unfold drop_raw. constructor; cbn; try done; [set_solver|by rewrite dom_fmap|auto]. Qed.

Lemma continue_quiet cfg w outcome j e : plain j -> quiet e (continue cfg w outcome j e).
Proof.
  intros Hj. destruct j; cbn in Hj; try done; cbn [continue]; try apply drop_raw_quiet; unfold on_id;
    apply quiet_on; intros;
    unfold end_health, end_admission, if_valid, update, continue_restore, recover_restore, begin_work,
      metadata_saved, run_check, finishVerification, prepare_payload; cbv zeta.
  all: hush.
Qed.

(** The events that change the registries. *)
Definition registry_event (e : Engine) (ev : event) : Prop :=
  match ev with
  | EvRegister _ _ _ _ _ _ _ | EvDelete _ _ => True
  | EvContinue j _ _ => match e_jobs e !! j with Some job => ~ plain job | None => False end
  | _ => False
  end.

Lemma delete_job_quiet j e : quiet e (e <| e_jobs ::= delete j |>).
Proof. constructor; cbn; try done. intros i job [_ ?]%lookup_delete_Some. by left. Qed.

Lemma step_quiet cfg ev e : ~ registry_event e ev -> quiet e (step cfg ev e).
Proof.
  intros Hev. destruct ev; cbn [step]; cbn [registry_event] in Hev; try tauto.
  all: unfold on_id; try (apply quiet_on; intros).
  all: try solve [unfold update, begin_health, CheckPayloadAdmission, FinishRestore, Resume, detectMissing,
    metadata_known, refreshPeerDiscovery, begin_work; cbv zeta; hush].
  - unfold Close. constructor; cbn; try done; [|auto]. rewrite <- (dom_fmap (fun mt => mt <| mt_cancelled := true |>)).
    intros i Hi. apply elem_of_dom in Hi as [m Hm]. apply elem_of_dom. rewrite map_lookup_imap, Hm. by eexists.
  - destruct (e_jobs e !! j) as [job|] eqn:Hj; [|reflexivity].
    transitivity (e <| e_jobs ::= delete j |>); [apply delete_job_quiet|]. apply continue_quiet.
    destruct job; cbn in *; tauto.
  - apply StartRecheck_quiet.
  - unfold deferred_recheck. cbv zeta. case_match; [reflexivity|].
    assert (Hdone : forall e0, quiet e0 (on_id id0 (fun id mt => put id (mt <| mt_pendingRecheckBytes := 0%Z |>)) e0))
      by (intros; unfold on_id; hush).
    case_match; [|apply Hdone]. case_match; [|apply StartRecheck_quiet].
    etrans; [apply StartRecheck_quiet | apply Hdone].
  - unfold VerifyInactive. cbv zeta. destruct (verifyInactive_begin _ _ _ _ _) as [mt' err].
    apply quiet_after. case_match; [|apply quiet_add_job; [exact I|]];
      (eapply quiet_counters; [apply (quiet_put e e id mt'); reflexivity|done..]).
Qed.

(** ** The invariant *)

(** [registry] maps hashes to attachments that carry them. *)
Definition names (e : Engine) (registry : gmap string nat) : Prop :=
  forall hash id, registry !! hash = Some id -> exists mt, e_heap e !! id = Some mt /\ mt_hash mt = hash.

Record registry_ok (e : Engine) : Prop := {
  ro_managed : names e (e_managed e);
  ro_detaching : names e (e_detaching e);
  ro_registering : names e (e_registering e);
  ro_disjoint : forall hash, is_Some (e_managed e !! hash) ->
    e_detaching e !! hash = None /\ e_registering e !! hash = None;
  ro_reserved : forall hash, is_Some (e_registering e !! hash) -> e_detaching e !! hash = None;
  ro_raw : forall id1 id2 mt1 mt2, e_heap e !! id1 = Some mt1 -> e_heap e !! id2 = Some mt2 ->
    mt_raw mt1 = mt_raw mt2 -> id1 = id2;
  ro_owned : forall id mt, e_heap e !! id = Some mt ->
    e_managed e !! mt_hash mt = Some id \/ e_detaching e !! mt_hash mt = Some id \/
    e_registering e !! mt_hash mt = Some id \/ mt_raw mt ∈ e_dropped e;
  ro_slot : forall id mt, e_heap e !! id = Some mt -> slot (mt_policy mt) = true ->
    e_managed e !! mt_hash mt = Some id;
  ro_job_register : forall j id, e_jobs e !! j = Some (JobRegister id) ->
    exists mt, e_heap e !! id = Some mt /\ e_registering e !! mt_hash mt = Some id;
  ro_job_once : forall j1 j2 id, e_jobs e !! j1 = Some (JobRegister id) -> e_jobs e !! j2 = Some (JobRegister id) ->
    j1 = j2;
  ro_job_detached : forall j id, e_jobs e !! j = Some (JobDetached id) ->
    exists mt, e_heap e !! id = Some mt /\ mt_raw mt ∈ e_dropped e;
}.

Lemma request_slot_frame available mt mt' :
  request_slot available mt = Some mt' ->
  mt_hash mt' = mt_hash mt /\ mt_raw mt' = mt_raw mt /\ mt_t mt' = mt_t mt /\ mt_runtimeFence mt' = mt_runtimeFence mt.
Proof.
  unfold request_slot. intros H. case_match; [by simplify_eq|].
  destruct (applyStateEventLocked _ _) as [[d mt1]|] eqn:He; simplify_eq.
  apply event_inv in He as [_ ->].
  destruct (install_view mt ((event_of stateSlotRequested) <| ev_slotAvailable := available |>) d)
    as (_ & Hl & _ & _ & _ & _ & _ & _ & _ & Hh & Hr).
  destruct (install_counters mt ((event_of stateSlotRequested) <| ev_slotAvailable := available |>) d) as (Hf & _). done.
Qed.

Lemma request_slot_uncertain available mt mt' :
  request_slot available mt = Some mt' -> uncertain (mt_policy mt') = uncertain (mt_policy mt).
Proof.
  unfold request_slot. intros H. case_match; [by simplify_eq|].
  destruct (applyStateEventLocked _ _) as [[d mt1]|] eqn:He; simplify_eq.
  apply event_inv in He as [Ht ->]. match goal with |- context [install mt ?ev d] => destruct (install_view mt ev d) as (-> & _) end.
  by transition_cases Ht.
Qed.

Lemma bind_frame w fence applied mt mt' :
  bind w fence applied mt = (mt', None) ->
  mt_hash mt' = mt_hash mt /\ mt_raw mt' = mt_raw mt /\ mt_t mt' = mt_t mt /\ mt_policy mt' = mt_policy mt /\
  mt_runtimeFence mt' = fence.
Proof.
  unfold bind. cbv zeta. intros. do 4 (case_match; [done|]). case_match; by simplify_eq.
Qed.

(** A binding keeps the record and does not lower its revision. *)
Lemma bind_monotone w fence applied mt mt' :
  bind w fence applied mt = (mt', None) ->
  let old := rf_version (mt_runtimeFence mt) in let new := rf_version fence in
  iv_RecordID old <> "" -> iv_RecordID new = iv_RecordID old /\ (iv_Revision old <= iv_Revision new)%Z.
Proof.
  unfold bind. cbv zeta. intros H Hne. case_match; [done|].
  rewrite (proj2 (String.eqb_neq _ _) Hne) in H. cbn [negb andb] in H.
  destruct (negb _ || _) eqn:E; [done|]. split_bools. split; [congruence|lia].
Qed.

Lemma change_identity cfg ev e id mt mt' :
  change cfg ev e id mt mt' -> mt_hash mt' = mt_hash mt /\ mt_raw mt' = mt_raw mt.
Proof.
  intros [Hk|? ? ? ? mt1 mt2 e0 _ _ Hk1 _ _ _ _ _ _ Hreq Hk2|w fence applied _ _ Hb|? w ? ? ? ? mt1 _ _ Ho Hk|? w ? mt1 _ _ Hv Hk].
  - by destruct Hk as (?&?&_).
  - apply request_slot_frame in Hreq as (?&?&_). destruct Hk1 as (?&?&_), Hk2 as (?&?&_). split; congruence.
  - apply bind_frame in Hb. tauto.
  - destruct (opened_frame _ _ _ _ _ _ Ho) as (?&?&_), Hk as (?&?&_). split; congruence.
  - destruct (verified_frame _ _ _ _ _ Hv) as (?&?&_), Hk as (?&?&_). split; congruence.
Qed.

Lemma change_slot cfg ev e id mt mt' :
  change cfg ev e id mt mt' -> slot (mt_policy mt') = true ->
  slot (mt_policy mt) = true \/ e_managed e !! mt_hash mt = Some id.
Proof.
  intros [Hk|? ? ? ? mt1 mt2 e0 _ _ _ _ _ _ Hcur _ _ _ _|w fence applied _ _ Hb|? w ? ? ? ? mt1 _ _ Ho Hk|? w ? mt1 _ _ Hv Hk] Hs.
  - destruct Hk as (_&_&_&_&_&_&Hk&_). auto.
  - right. unfold current in Hcur. by split_bools.
  - apply bind_frame in Hb as (_&_&_&Hp&_). rewrite Hp in Hs. auto.
  - destruct (opened_frame _ _ _ _ _ _ Ho) as (_&_&_&_&_&Hp), Hk as (_&_&_&_&_&_&Hk&_). rewrite <- Hp. auto.
  - destruct (verified_closed _ _ _ _ _ Hv), Hk as (_&_&_&_&_&_&Hk&_). apply Hk in Hs. congruence.
Qed.

(** Attachments keep their hash and library torrent; a new slot belongs to a
    managed one. *)
Record same_owners (e e' : Engine) : Prop := {
  so_back : forall id mt', e_heap e' !! id = Some mt' ->
    exists mt, e_heap e !! id = Some mt /\ mt_hash mt' = mt_hash mt /\ mt_raw mt' = mt_raw mt /\
      (slot (mt_policy mt') = true -> slot (mt_policy mt) = true \/ e_managed e !! mt_hash mt = Some id);
  so_forth : forall id mt, e_heap e !! id = Some mt ->
    exists mt', e_heap e' !! id = Some mt' /\ mt_hash mt' = mt_hash mt /\ mt_raw mt' = mt_raw mt;
}.

Lemma same_owners_intro e e' :
  dom (e_heap e) ⊆ dom (e_heap e') ->
  (forall id mt', e_heap e' !! id = Some mt' ->
    exists mt, e_heap e !! id = Some mt /\ mt_hash mt' = mt_hash mt /\ mt_raw mt' = mt_raw mt /\
      (slot (mt_policy mt') = true -> slot (mt_policy mt) = true \/ e_managed e !! mt_hash mt = Some id)) ->
  same_owners e e'.
Proof.
  intros Hdom Hback. constructor; [done|]. intros id mt Hid.
  assert (is_Some (e_heap e' !! id)) as [mt' Hid'].
  { apply elem_of_dom, Hdom, elem_of_dom. by eexists. }
  destruct (Hback _ _ Hid') as (mt0 & Hmt0 & ? & ? & _). exists mt'. simplify_eq. auto.
Qed.

Lemma heap_keeps_owners e e' : dom (e_heap e) ⊆ dom (e_heap e') -> heap_keeps e e' -> same_owners e e'.
Proof.
  intros Hdom Hk. apply same_owners_intro; [done|]. intros id mt' (mt & ? & Hm)%Hk. exists mt.
  destruct Hm as (?&?&_&_&_&_&?&_). split_and!; auto.
Qed.

Lemma names_owners e e' registry : same_owners e e' -> names e registry -> names e' registry.
Proof. intros [_ Hf] Hn hash id (mt & (mt' & ? & ? & _)%Hf & ?)%Hn. exists mt'. split; congruence. Qed.

Lemma raw_owners e e' :
  same_owners e e' ->
  (forall id1 id2 mt1 mt2, e_heap e !! id1 = Some mt1 -> e_heap e !! id2 = Some mt2 ->
    mt_raw mt1 = mt_raw mt2 -> id1 = id2) ->
  forall id1 id2 mt1 mt2, e_heap e' !! id1 = Some mt1 -> e_heap e' !! id2 = Some mt2 ->
    mt_raw mt1 = mt_raw mt2 -> id1 = id2.
Proof.
  intros [Hb _] H id1 id2 mt1 mt2 (m1 & ? & _ & Hr1 & _)%Hb (m2 & ? & _ & Hr2 & _)%Hb E.
  eapply H; eauto. congruence.
Qed.

Lemma quiet_registry e e' : registry_ok e -> same_owners e e' -> quiet e e' -> registry_ok e'.
Proof.
  intros [] Hso []. destruct (Hso) as [Hb Hf]. constructor.
  - rewrite quiet_managed0. eauto using names_owners.
  - rewrite quiet_detaching0. eauto using names_owners.
  - rewrite quiet_registering0. eauto using names_owners.
  - by rewrite quiet_managed0, quiet_detaching0, quiet_registering0.
  - by rewrite quiet_detaching0, quiet_registering0.
  - by apply (raw_owners e e').
  - intros id mt' (mt & Hid & Hh & Hr & _)%Hb. rewrite Hh, Hr, quiet_managed0, quiet_detaching0, quiet_registering0.
    destruct (ro_owned0 _ _ Hid) as [?|[?|[?|?]]]; eauto 6.
  - intros id mt' (mt & Hid & Hh & _ & Hs)%Hb Hslot. rewrite Hh, quiet_managed0. destruct (Hs Hslot); eauto.
  - intros j id [(mt & (mt' & ? & Hh & _)%Hf & ?)%ro_job_register0|[]]%quiet_jobs0.
    exists mt'. rewrite Hh, quiet_registering0. auto.
  - intros j1 j2 id [H1|[]]%quiet_jobs0 [H2|[]]%quiet_jobs0. eauto.
  - intros j id [(mt & (mt' & ? & _ & Hr)%Hf & ?)%ro_job_detached0|[]]%quiet_jobs0.
    exists mt'. rewrite Hr. auto.
Qed.

(** Jobs of the registries disappear when they are continued. *)
Lemma continued_registry j e : registry_ok e -> registry_ok (e <| e_jobs ::= delete j |>).
Proof.
  intros H. apply (quiet_registry e); [done| |apply delete_job_quiet].
  by apply heap_keeps_owners; [|intros i m ?; exists m].
Qed.

(** A registering attachment whose job is gone moves to [target]: published, or
    detaching. *)
Section Moves.
  Context (e : Engine) (id : nat) (mt : ManagedTorrent).
  Hypothesis Hok : registry_ok e.
  Hypothesis Hid : e_heap e !! id = Some mt.
  Hypothesis Hreg : e_registering e !! mt_hash mt = Some id.
  Hypothesis Hjob : forall j, e_jobs e !! j <> Some (JobRegister id).

(** A registering hash is in no other registry. *)
Lemma registering_alone : e_managed e !! mt_hash mt = None /\ e_detaching e !! mt_hash mt = None.
Proof using Hok Hreg.
  split; [|by apply (ro_reserved _ Hok); eexists].
  destruct (e_managed e !! mt_hash mt) eqn:E; [|done].
  destruct (ro_disjoint _ Hok (mt_hash mt)) as [_ H]; [by eexists|]. congruence.
Qed.

Lemma slot_not_registering : slot (mt_policy mt) = false.
Proof using Hok Hid Hreg.
  apply not_true_is_false. intros H. apply (ro_slot _ Hok _ _ Hid) in H.
  destruct registering_alone. congruence.
Qed.

Lemma publish_registry :
  registry_ok (e <| e_registering ::= delete (mt_hash mt) |> <| e_managed ::= <[mt_hash mt := id]> |>).
Proof using Hok Hid Hreg Hjob.
  destruct registering_alone as [Hm Hd]. destruct Hok. constructor; cbn; try done.
  - intros h i. destruct (decide (h = mt_hash mt)) as [->|].
    + rewrite lookup_insert_eq. intros [= <-]. eauto.
    + rewrite lookup_insert_ne by done. apply ro_managed0.
  - intros h i [_ ?]%lookup_delete_Some. eauto.
  - intros h. destruct (decide (h = mt_hash mt)) as [->|].
    + intros _. by rewrite lookup_delete_eq.
    + rewrite lookup_insert_ne, lookup_delete_ne by done. apply ro_disjoint0.
  - intros h [i [_ ?]%lookup_delete_Some]. eauto.
  - intros i m Hi. destruct (decide (mt_hash m = mt_hash mt)) as [E|].
    + destruct (ro_owned0 _ _ Hi) as [?|[?|[?|?]]]; rewrite E in *; simplify_eq; [|by auto 6].
      left. by rewrite lookup_insert_eq.
    + rewrite lookup_insert_ne, lookup_delete_ne by done. by apply ro_owned0.
  - intros i m Hi Hs. pose proof (ro_slot0 _ _ Hi Hs) as E.
    rewrite lookup_insert_ne; [done|]. congruence.
  - intros j i Hj. destruct (ro_job_register0 _ _ Hj) as (m & Hi & Hr). exists m. split; [done|].
    apply lookup_delete_Some. split; [|done]. intros E. rewrite <- E, Hreg in Hr. simplify_eq. by eapply Hjob.
Qed.

Lemma withdraw_registry :
  registry_ok (e <| e_registering ::= delete (mt_hash mt) |> <| e_detaching ::= <[mt_hash mt := id]> |>).
Proof using Hok Hid Hreg Hjob.
  destruct registering_alone as [Hm Hd]. destruct Hok. constructor; cbn; try done.
  - intros h i. destruct (decide (h = mt_hash mt)) as [->|].
    + rewrite lookup_insert_eq. intros [= <-]. eauto.
    + rewrite lookup_insert_ne by done. apply ro_detaching0.
  - intros h i [_ ?]%lookup_delete_Some. eauto.
  - intros h Hh. destruct (decide (h = mt_hash mt)) as [->|]; [by rewrite Hm in Hh; destruct Hh|].
    rewrite lookup_insert_ne, lookup_delete_ne by done. by apply ro_disjoint0.
  - intros h [i [? ?]%lookup_delete_Some]. rewrite lookup_insert_ne by done. eauto.
  - intros i m Hi. destruct (decide (mt_hash m = mt_hash mt)) as [E|].
    + destruct (ro_owned0 _ _ Hi) as [?|[?|[?|?]]]; rewrite E in *; simplify_eq; [|by auto 6].
      right; left. by rewrite lookup_insert_eq.
    + rewrite lookup_insert_ne, lookup_delete_ne by done. by apply ro_owned0.
  - intros j i Hj. destruct (ro_job_register0 _ _ Hj) as (m & Hi & Hr). exists m. split; [done|].
    apply lookup_delete_Some. split; [|done]. intros E. rewrite <- E, Hreg in Hr. simplify_eq. by eapply Hjob.
Qed.

Lemma discard_registry : registry_ok (discardRegistrationLocked id mt e).
Proof using Hok Hid Hreg Hjob.
  unfold discardRegistrationLocked. rewrite bool_decide_eq_true_2 by done.
  eapply quiet_registry; [exact withdraw_registry| |].
  - apply heap_keeps_owners.
    + cbn. rewrite dom_insert. set_solver.
    + etrans; [|apply add_job_keeps]. eapply put_keeps; [exact Hid|]. clear; keep.
  - by apply quiet_add_job, quiet_put.
Qed.

Lemma finish_registration_registry w : registry_ok (finish_registration w id mt e).
Proof using Hok Hid Hreg Hjob.
  unfold finish_registration. case_match; [apply discard_registry | apply publish_registry].
Qed.

End Moves.

(** A managed attachment without a slot is detached. *)
Lemma detach_registry e id mt :
  registry_ok e -> e_heap e !! id = Some mt -> e_managed e !! mt_hash mt = Some id -> slot (mt_policy mt) = false ->
  registry_ok (e <| e_managed ::= delete (mt_hash mt) |> <| e_detaching ::= <[mt_hash mt := id]> |>).
Proof.
  intros Hok Hid Hm Hs. destruct (ro_disjoint _ Hok (mt_hash mt)) as [Hd Hr]; [by eexists|].
  destruct Hok. constructor; cbn; try done.
  - intros h i [_ ?]%lookup_delete_Some. eauto.
  - intros h i. destruct (decide (h = mt_hash mt)) as [->|].
    + rewrite lookup_insert_eq. intros [= <-]. eauto.
    + rewrite lookup_insert_ne by done. apply ro_detaching0.
  - intros h [i [? ?]%lookup_delete_Some]. rewrite lookup_insert_ne by done. eauto.
  - intros h Hh. destruct (decide (h = mt_hash mt)) as [->|]; [by rewrite Hr in Hh; destruct Hh|].
    rewrite lookup_insert_ne by done. by apply ro_reserved0.
  - intros i m Hi. destruct (decide (mt_hash m = mt_hash mt)) as [E|].
    + destruct (ro_owned0 _ _ Hi) as [?|[?|[?|?]]]; rewrite E in *; simplify_eq; [|by auto 6].
      right; left. by rewrite lookup_insert_eq.
    + rewrite lookup_insert_ne, lookup_delete_ne by done. by apply ro_owned0.
  - intros i m Hi Hslot. pose proof (ro_slot0 _ _ Hi Hslot) as E. apply lookup_delete_Some. split; [|done].
    intros E'. rewrite <- E', Hm in E. simplify_eq. congruence.
Qed.

(** A dropped attachment leaves [detaching]. *)
Lemma detached_registry e id mt :
  registry_ok e -> e_heap e !! id = Some mt -> mt_raw mt ∈ e_dropped e -> registry_ok (detached id mt e).
Proof.
  intros Hok Hid Hdrop. unfold detached. case_bool_decide as Hd; [|done].
  destruct Hok. constructor; cbn; try done.
  - intros h i [_ ?]%lookup_delete_Some. eauto.
  - intros h [Hn1 Hn2]%ro_disjoint0. split; [|done]. apply lookup_delete_None. by right.
  - intros h Hn%ro_reserved0. apply lookup_delete_None. by right.
  - intros i m Hi. destruct (ro_owned0 _ _ Hi) as [?|[Hdet|[?|?]]]; [by auto| |by auto..].
    destruct (decide (mt_hash m = mt_hash mt)) as [E|].
    + rewrite E, Hd in Hdet. simplify_eq. auto.
    + right; left. by rewrite lookup_delete_ne.
Qed.

(** ** Registration *)

Lemma conflicts_none e infohash hash raw registry :
  names e registry -> conflicts e infohash hash raw registry = [] ->
  registry !! hash = None /\
  forall h id mt, registry !! h = Some id -> e_heap e !! id = Some mt -> mt_raw mt <> raw.
Proof.
  intros Hn Hc.
  assert (Hall : forall h id mt, registry !! h = Some id -> e_heap e !! id = Some mt -> h <> hash /\ mt_raw mt <> raw).
  { intros h id mt Hh Hid. apply elem_of_map_to_list in Hh.
    destruct (decide ((h =? hash) || (mt_raw mt =? raw)%nat || (infohash (mt_raw mt) =? infohash raw) = true)) as [E|E].
    - assert (mt ∈ conflicts e infohash hash raw registry) as Hin.
      { unfold conflicts. apply list_elem_of_omap. exists (h, id). split; [done|]. rewrite Hid. cbn. by rewrite E. }
      rewrite Hc in Hin. by apply elem_of_nil in Hin.
    - apply not_true_is_false in E. split_bools. done. }
  split.
  - destruct (registry !! hash) as [id|] eqn:E; [|done]. destruct (Hn _ _ E) as (mt & Hid & _).
    by destruct (Hall _ _ _ E Hid).
  - intros h id mt Hh Hid. by destruct (Hall _ _ _ Hh Hid).
Qed.

Lemma managed_as_none e raw h id mt :
  managed_as e raw = None -> e_managed e !! h = Some id -> e_heap e !! id = Some mt -> mt_raw mt <> raw.
Proof.
  unfold managed_as. intros Hn Hh Hid E. apply elem_of_map_to_list in Hh.
  match type of Hn with head ?l = _ => assert (h ∈ l) as Hin end.
  { apply list_elem_of_omap. exists (h, id). split; [done|]. rewrite Hid. cbn. by rewrite E, Nat.eqb_refl. }
  destruct (omap _ _); [by apply elem_of_nil in Hin | done].
Qed.

Lemma managed_as_some e raw h : managed_as e raw = Some h -> is_Some (e_managed e !! h).
Proof.
  unfold managed_as. intros Hs. match type of Hs with head ?l = _ => assert (h ∈ l) as Hin end.
  { destruct (omap _ _); [done|]. cbn in Hs. simplify_eq. left. }
  apply list_elem_of_omap in Hin as ([k i] & Hk%elem_of_map_to_list & Hb).
  destruct (e_heap e !! i) as [m|]; cbn in Hb; [|done]. case_match; simplify_eq. by eexists.
Qed.

Section Creation.
  Context (e : Engine) (id : nat) (mt : ManagedTorrent).
  Hypothesis Hok : registry_ok e.
  Hypothesis Hfresh : e_heap e !! id = None.
  Hypothesis Hslot : slot (mt_policy mt) = false.
  Hypothesis Hmanaged : e_managed e !! mt_hash mt = None.
  Hypothesis Hdetaching : e_detaching e !! mt_hash mt = None.
  Hypothesis Hregistering : e_registering e !! mt_hash mt = None.
  Hypothesis Hraw : forall i m, e_heap e !! i = Some m -> mt_raw m <> mt_raw mt.

Lemma created_heap i m : <[id := mt]> (e_heap e) !! i = Some m -> (i = id /\ m = mt) \/ (i <> id /\ e_heap e !! i = Some m).
Proof using Type.
  destruct (decide (i = id)) as [->|]; [rewrite lookup_insert_eq; intros [= <-]; by left|].
  rewrite lookup_insert_ne by done. by right.
Qed.

Lemma created_names registry : names e registry -> names (put id mt e) registry.
Proof using Hfresh.
  intros Hn h i (m & Hi & ?)%Hn. exists m. split; [|done]. cbn. rewrite lookup_insert_ne; [done|]. congruence.
Qed.

Lemma created_raw i1 i2 m1 m2 :
  <[id := mt]> (e_heap e) !! i1 = Some m1 -> <[id := mt]> (e_heap e) !! i2 = Some m2 ->
  mt_raw m1 = mt_raw m2 -> i1 = i2.
Proof using Hok Hraw.
  intros [[-> ->]|[_ H1]]%created_heap [[-> ->]|[_ H2]]%created_heap E; try done.
  - by apply Hraw in H2.
  - by apply Hraw in H1.
  - by eapply (ro_raw _ Hok).
Qed.

Lemma create_registering : registry_ok ((put id mt e) <| e_registering ::= <[mt_hash mt := id]> |>).
Proof using Hok Hfresh Hslot Hmanaged Hdetaching Hregistering Hraw.
  pose proof created_raw. pose proof Hok as []. constructor; cbn; try done.
  - by apply created_names.
  - by apply created_names.
  - intros h i. destruct (decide (h = mt_hash mt)) as [->|].
    + rewrite lookup_insert_eq. intros [= <-]. exists mt. cbn. by rewrite lookup_insert_eq.
    + rewrite lookup_insert_ne by done. by apply created_names.
  - intros h Hh. rewrite lookup_insert_ne; [by apply ro_disjoint0|]. intros <-. rewrite Hmanaged in Hh. by destruct Hh.
  - intros h. destruct (decide (h = mt_hash mt)) as [->|]; [done|]. rewrite lookup_insert_ne by done. apply ro_reserved0.
  - intros i m [[-> ->]|[Hne Hi]]%created_heap; [by rewrite lookup_insert_eq; auto|].
    destruct (ro_owned0 _ _ Hi) as [?|[?|[Hr|?]]]; [by auto..| |by auto].
    rewrite lookup_insert_ne; [by auto|]. congruence.
  - intros i m [[-> ->]|[Hne Hi]]%created_heap Hs; [congruence|]. by apply ro_slot0.
  - intros j i (m & Hi & Hr)%ro_job_register0. exists m. rewrite !lookup_insert_ne; [done|congruence|congruence].
  - intros j i (m & Hi & Hr)%ro_job_detached0. exists m. rewrite lookup_insert_ne; [done|congruence].
Qed.

Lemma create_detaching : registry_ok ((put id mt e) <| e_detaching ::= <[mt_hash mt := id]> |>).
Proof using Hok Hfresh Hslot Hmanaged Hdetaching Hregistering Hraw.
  pose proof created_raw. pose proof Hok as []. constructor; cbn; try done.
  - by apply created_names.
  - intros h i. destruct (decide (h = mt_hash mt)) as [->|].
    + rewrite lookup_insert_eq. intros [= <-]. exists mt. cbn. by rewrite lookup_insert_eq.
    + rewrite lookup_insert_ne by done. by apply created_names.
  - by apply created_names.
  - intros h Hh. rewrite lookup_insert_ne; [by apply ro_disjoint0|]. intros <-. rewrite Hmanaged in Hh. by destruct Hh.
  - intros h Hh. rewrite lookup_insert_ne; [by apply ro_reserved0|]. intros <-. rewrite Hregistering in Hh. by destruct Hh.
  - intros i m [[-> ->]|[Hne Hi]]%created_heap; [by rewrite lookup_insert_eq; auto|].
    destruct (ro_owned0 _ _ Hi) as [?|[Hr|[?|?]]]; [by auto| |by auto..].
    rewrite lookup_insert_ne; [by auto|]. congruence.
  - intros i m [[-> ->]|[Hne Hi]]%created_heap Hs; [congruence|]. by apply ro_slot0.
  - intros j i (m & Hi & Hr)%ro_job_register0. exists m. rewrite lookup_insert_ne; [done|congruence].
  - intros j i (m & Hi & Hr)%ro_job_detached0. exists m. rewrite lookup_insert_ne; [done|congruence].
Qed.

End Creation.

Lemma registry_same e e' :
  e_heap e' = e_heap e -> e_managed e' = e_managed e -> e_detaching e' = e_detaching e ->
  e_registering e' = e_registering e -> e_dropped e' = e_dropped e -> e_jobs e' = e_jobs e ->
  registry_ok e -> registry_ok e'.
Proof.
  intros Hh Hm Hd Hr Hdr Hj Hok. apply (quiet_registry e); [done| |].
  - apply heap_keeps_owners; [by rewrite Hh|]. intros i m. rewrite Hh. intros. by exists m.
  - by apply (quiet_counters e e).
Qed.

Lemma add_register_job e id mt :
  registry_ok e -> e_heap e !! id = Some mt -> e_registering e !! mt_hash mt = Some id ->
  (forall j, e_jobs e !! j <> Some (JobRegister id)) -> registry_ok (add_job (JobRegister id) e).
Proof.
  intros Hok Hid Hreg Hno. destruct Hok. constructor; cbn; try done.
  - intros j i [[<- [= <-]]|[_ ?]]%lookup_insert_Some; eauto.
  - intros j1 j2 i [[<- [= <-]]|[_ H1]]%lookup_insert_Some [[<- E]|[_ H2]]%lookup_insert_Some; try done.
    + by apply Hno in H2.
    + injection E as <-. by apply Hno in H1.
    + eauto.
  - intros j i [[_ ?]|[_ ?]]%lookup_insert_Some; [done|]. eauto.
Qed.

(** Nobody owns the library torrent of an accepted registration. *)
Lemma raw_unowned e raw :
  registry_ok e -> raw ∉ e_dropped e ->
  (forall h id mt, e_detaching e !! h = Some id -> e_heap e !! id = Some mt -> mt_raw mt <> raw) ->
  (forall h id mt, e_registering e !! h = Some id -> e_heap e !! id = Some mt -> mt_raw mt <> raw) ->
  managed_as e raw = None ->
  forall id mt, e_heap e !! id = Some mt -> mt_raw mt <> raw.
Proof.
  intros Hok Hdrop Hd Hr Hm id mt Hid. destruct (ro_owned _ Hok _ _ Hid) as [?|[?|[?|?]]]; eauto using managed_as_none.
  set_solver.
Qed.

Lemma registerTorrent_registry w pick infohash identity raw l s e :
  fresh_heap e -> handed_over l s -> registry_ok e ->
  registry_ok (registerTorrent w pick infohash identity raw l s e).
Proof.
  intros Hfresh [Hl _] Hok. unfold registerTorrent.
  assert (Hdrop : forall r, registry_ok (add_job (JobDropRaw r) e)).
  { intros. apply (quiet_registry e); [done| |by apply quiet_add_job].
    by apply heap_keeps_owners; [|apply add_job_keeps]. }
  case_match; [by case_match|]. case_bool_decide as Hnd; [done|]. cbv zeta.
  set (hash := if identity =? "" then infohash raw else identity). clearbody hash.
  destruct (conflicts e infohash hash raw (e_detaching e)) eqn:Hcd; [|unfold refuse; by case_match].
  destruct (conflicts e infohash hash raw (e_registering e)) eqn:Hcr; [|unfold refuse; by case_match].
  apply conflicts_none in Hcd as [Hd Hdr]; [|by apply ro_detaching].
  apply conflicts_none in Hcr as [Hr Hrr]; [|by apply ro_registering].
  destruct (managed_as e raw) as [key|] eqn:Has; cbn [default].
  { apply managed_as_some in Has as [? Has]. unfold id. by rewrite Has. }
  destruct (e_managed e !! hash) eqn:Hm; [done|].
  pose proof (raw_unowned e raw Hok Hnd Hdr Hrr Has) as Hraw.
  assert (Hnone : e_heap e !! e_next e = None) by (apply Hfresh; lia).
  assert (Hjobs : forall j, e_jobs e !! j <> Some (JobRegister (e_next e))).
  { intros j (m & Hi & _)%(ro_job_register _ Hok). congruence. }
  destruct (applyStateEventLocked _ _) as [[d mt]|] eqn:Hev.
  - destruct (registered_closed _ _ _ _ _ _ _ Hl Hev) as (Hs & _ & Hmr & Hmh & _). rewrite <- Hmh, <- Hmr in *.
    match goal with |- context [add_job _ ?x] => set (e1 := x) end.
    assert (Hok1 : registry_ok e1).
    { eapply registry_same; [..|eapply (create_registering e (e_next e) mt)]; try done. }
    assert (Hid1 : e_heap e1 !! e_next e = Some mt) by apply lookup_insert_eq.
    assert (Hreg1 : e_registering e1 !! mt_hash mt = Some (e_next e)) by apply lookup_insert_eq.
    case_match; [by eapply add_register_job | by apply finish_registration_registry].
  - unfold discardRegistrationLocked. cbn [e_registering].
    set (mt := new_managed hash raw l (w_now w) s) in *.
    assert (Hmt : mt_hash mt = hash /\ mt_raw mt = raw /\ slot (mt_policy mt) = false) by (unfold mt; by destruct s).
    destruct Hmt as (Hmh & Hmr & Hs). rewrite <- Hmh, <- Hmr in *.
    rewrite bool_decide_eq_false_2 by (cbn; congruence).
    eapply quiet_registry; [apply (create_detaching e (e_next e) (mt <| mt_cancelled := true |>)); done| |].
    + by apply heap_keeps_owners; [|intros i m ?; exists m].
    + eapply quiet_add_job; [done|]. eapply quiet_counters; [reflexivity|done..].
Qed.

Lemma Delete_registry infohash hash e :
  heap_ok false e -> registry_ok e -> registry_ok (Delete infohash hash e).
Proof.
  intros Hheap Hok. unfold Delete. case_match; [done|]. case_match; [done|]. case_match; [done|].
  unfold on. destruct (lookup e hash) as [[id mt]|] eqn:Hl; [|done].
  apply lookup_inv in Hl as [Hm Hid]. destruct (ro_managed _ Hok _ _ Hm) as (mt0 & Hid0 & Hh). simplify_eq.
  set (mt' := retire stateDeleted "torrent deleted" (mt <| mt_cancelled := true |>)).
  assert (Hkeeps : keeps mt mt') by (etrans; [|by apply retire_keeps]; clear; keep).
  assert (Hs : slot (mt_policy mt') = false).
  { destruct (Hheap _ _ Hid) as ([Hp _] & _). unfold mt', retire, applyStateEventLocked.
    destruct (runtimeTransition _ _) as [d|err] eqn:Ht.
    - destruct (install_view (mt <| mt_cancelled := true |>) (event_of stateDeleted) d) as [Hpol _].
      unfold applyQuiesceLocked. transition_cases Ht; repeat case_match; cbn in *; by rewrite ?Hpol.
    - cbn. destruct (slot (mt_policy mt)) eqn:E; [|done].
      destruct (ok_slot _ Hp E) as [[[Hr Hterm] _]%payloadEligible_spec _].
      unfold runtimeTransition in Ht. cbn in Ht. by rewrite Hterm, Hr in Ht. }
  destruct Hkeeps as (Hh' & Hr' & _).
  set (e1 := put id mt' e).
  assert (Hok1 : registry_ok e1).
  { apply (quiet_registry e); [done| |by apply quiet_put].
    apply same_owners_intro; [cbn; rewrite dom_insert; set_solver|].
    intros i m. cbn. destruct (decide (i = id)) as [->|].
    - rewrite lookup_insert_eq. intros [= <-]. exists mt. split_and!; auto.
    - rewrite lookup_insert_ne by done. intros. exists m. split_and!; auto. }
  assert (Hok2 : registry_ok (e1 <| e_managed ::= delete (mt_hash mt') |> <| e_detaching ::= <[mt_hash mt' := id]> |>)).
  { apply detach_registry; [done|apply lookup_insert_eq|by rewrite Hh'|done]. }
  rewrite Hh' in Hok2. eapply quiet_registry; [exact Hok2| |].
  - by apply heap_keeps_owners; [|intros i m ?; exists m].
  - eapply quiet_add_job; [done|]. eapply quiet_counters; [reflexivity|done..].
Qed.

(** ** Every step *)

Lemma add_job_lookup e j i job :
  e_jobs (add_job j e) !! i = Some job -> (i = e_next e /\ job = j) \/ e_jobs e !! i = Some job.
Proof. unfold add_job. cbn. intros [[-> ->]|[_ ?]]%lookup_insert_Some; auto. Qed.

Lemma drop_registry e id mt :
  registry_ok e -> e_heap e !! id = Some mt -> registry_ok (add_job (JobDetached id) (drop_raw (mt_raw mt) e)).
Proof.
  intros Hok Hid.
  assert (Hok1 : registry_ok (drop_raw (mt_raw mt) e)).
  { apply (quiet_registry e); [done| |apply drop_raw_quiet].
    apply heap_keeps_owners; [cbn; by rewrite dom_fmap | apply drop_raw_keeps]. }
  assert (Hid1 : exists m, e_heap (drop_raw (mt_raw mt) e) !! id = Some m /\ mt_raw m = mt_raw mt).
  { cbn. rewrite lookup_fmap, Hid. cbn. eexists. split; [done|]. by case_match. }
  destruct Hid1 as (m & Hm & Hraw). destruct Hok1. constructor; try done.
  - intros j i [[_ ?]|?]%add_job_lookup; [done|]. by apply (ro_job_register0 j).
  - intros j1 j2 i [[_ ?]|?]%add_job_lookup [[_ ?]|?]%add_job_lookup; try done.
    by eapply ro_job_once0.
  - intros j i [[_ [= ->]]|?]%add_job_lookup; [|by eapply ro_job_detached0].
    exists m. split; [done|]. cbn. rewrite Hraw. set_solver.
Qed.

Lemma continue_registry cfg w outcome j job e :
  registry_ok e -> e_jobs e !! j = Some job -> ~ plain job ->
  registry_ok (continue cfg w outcome job (e <| e_jobs ::= delete j |>)).
Proof.
  intros Hok Hj Hp. pose proof (continued_registry j e Hok) as Hok0.
  destruct job; cbn in Hp; try tauto; cbn [continue]; unfold on_id, on.
  all: destruct (e_heap _ !! id) as [mt|] eqn:Hid; cbn [mbind option_bind]; [|done].
  - destruct (ro_job_register _ Hok _ _ Hj) as (m & Hm & Hr). cbn in Hid. simplify_eq.
    apply finish_registration_registry; [done..|]. cbn. intros j' [Hne Hj']%lookup_delete_Some.
    apply Hne. by eapply (ro_job_once _ Hok).
  - by apply drop_registry.
  - destruct (ro_job_detached _ Hok _ _ Hj) as (m & Hm & Hr). cbn in Hid. simplify_eq.
    by apply detached_registry.
Qed.

Lemma registry_event_dec e ev : {registry_event e ev} + {~ registry_event e ev}.
Proof.
  destruct ev; cbn; try (right; tauto); try (left; tauto).
  destruct (e_jobs e !! j) as [job|]; [|right; tauto]. destruct job; cbn; solve [left; tauto | right; tauto].
Qed.

Lemma step_registry strict cfg ev e :
  engine_wf strict e -> heap_ok strict e -> fine strict ev -> registry_ok e -> registry_ok (step cfg ev e).
Proof.
  intros Hwf Hheap Hev Hok. destruct (registry_event_dec e ev) as [Hr|Hr].
  - destruct ev; cbn in Hr; try done; cbn [step].
    + apply registerTorrent_registry; [apply Hwf|apply Hev|done].
    + apply Delete_registry; [|done]. intros i m Hm. by eapply runtime_ok_lax, Hheap.
    + destruct (e_jobs e !! j) eqn:Hj; [|done]. by apply continue_registry.
  - apply step_quiet with (cfg := cfg) in Hr as Hq. apply (quiet_registry e); [done| |done].
    apply same_owners_intro; [apply Hq|]. intros id mt' Hid.
    destruct (step_changes _ cfg _ _ Hwf Hev _ _ Hid) as [(mt & Hmt & Hc)|(Hreg & _)].
    + exists mt. destruct (change_identity _ _ _ _ _ _ Hc). eauto using change_slot.
    + by destruct ev.
Qed.

Lemma reachable_registry strict cfg e : engine_reachable strict cfg e -> registry_ok e.
Proof.
  induction 1; [by constructor|]. eapply step_registry; eauto using reachable_wf, reachable_heap_ok.
Qed.

(** ** Slots *)

(** The attachments that own a slot. *)
Definition slot_owners (e : Engine) : gset nat :=
  dom (filter (fun entry : nat * ManagedTorrent => slot (mt_policy entry.2) = true) (e_heap e)).

Lemma elem_of_slot_owners e id :
  id ∈ slot_owners e <-> exists mt, e_heap e !! id = Some mt /\ slot (mt_policy mt) = true.
Proof.
  unfold slot_owners. rewrite elem_of_dom. split.
  - intros [mt [? ?]%map_lookup_filter_Some]. eauto.
  - intros (mt & ? & ?). exists mt. by apply map_lookup_filter_Some.
Qed.

(** The count the engine makes over the managed torrents is the number of slots
    in existence. *)
Lemma slotCount_owners e : registry_ok e -> slotCountLocked e = Z.of_nat (size (slot_owners e)).
Proof.
  intros Hok. unfold slotCountLocked. f_equal.
  set (m := filter (fun entry : string * nat => owns_slot e entry.2 = true) (e_managed e)).
  assert (Hm : forall h i, m !! h = Some i <-> e_managed e !! h = Some i /\ owns_slot e i = true).
  { intros. apply map_lookup_filter_Some. }
  assert (Hnodup : NoDup (map_to_list m).*2).
  { apply NoDup_fmap_2_strong; [|apply NoDup_map_to_list].
    intros [h1 i1] [h2 i2] H1%elem_of_map_to_list H2%elem_of_map_to_list E. cbn in E. subst i2. f_equal.
    apply Hm in H1 as [(m1 & ? & <-)%(ro_managed _ Hok) _], H2 as [(m2 & ? & <-)%(ro_managed _ Hok) _]. congruence. }
  assert (Hset : slot_owners e = list_to_set (map_to_list m).*2).
  { apply set_eq. intros id. rewrite elem_of_slot_owners, elem_of_list_to_set, list_elem_of_fmap. split.
    - intros (mt & Hid & Hs). exists (mt_hash mt, id). split; [done|]. apply elem_of_map_to_list, Hm.
      split; [by apply (ro_slot _ Hok)|]. unfold owns_slot. by rewrite Hid.
    - intros ([h i] & -> & [_ Ho]%elem_of_map_to_list%Hm). unfold owns_slot in Ho. cbn.
      destruct (e_heap e !! i) as [mt|]; [eauto|done]. }
  rewrite Hset, size_list_to_set by done. by rewrite length_fmap, length_map_to_list.
Qed.

(** A slot that appears was granted in this step, to the torrent whose turn it
    is. *)
Lemma new_slot cfg ev e id mt mt' :
  change cfg ev e id mt mt' -> slot (mt_policy mt') = true -> slot (mt_policy mt) = false ->
  exists j w outcome ticket mt1, ev = EvContinue j w outcome /\ e_jobs e !! j = Some (JobHealth id ticket) /\
    keeps mt mt1 /\ slot (mt_policy mt1) = false /\ capacity cfg (put id mt1 e) id = true.
Proof.
  intros [Hk|j w o ticket mt1 mt2 e0 Hev Hj Hk1 Hh Hm Hc _ Hcap Hs1 _ _|w fence applied _ _ Hb|? w ? ? ? ? mt1 _ _ Ho Hk|? w ? mt1 _ _ Hv Hk]
    Hs' Hs.
  - destruct Hk as (_&_&_&_&_&_&Hk&_). rewrite Hk in Hs by done. done.
  - exists j, w, o, ticket, mt1. split_and!; try done. revert Hcap.
    unfold capacity, slotCountLocked, owns_slot, schedulerHeadLocked, managed_torrents, put. cbn. by rewrite Hh, Hm.
  - apply bind_frame in Hb as (_&_&_&Hp&_). congruence.
  - destruct (opened_frame _ _ _ _ _ _ Ho) as (_&_&_&_&_&Hp), Hk as (_&_&_&_&_&_&Hk&_).
    rewrite Hp in Hk. rewrite Hk in Hs by done. done.
  - destruct (verified_closed _ _ _ _ _ Hv) as [Hv' _], Hk as (_&_&_&_&_&_&Hk&_). apply Hk in Hs'. congruence.
Qed.

(** The slots in existence never exceed the configured number. *)
Lemma step_slots strict cfg ev e :
  engine_wf strict e -> registry_ok e -> fine strict ev ->
  (Z.of_nat (size (slot_owners e)) <= Z.max 0 (MaxActiveDownloads cfg))%Z ->
  (Z.of_nat (size (slot_owners (step cfg ev e))) <= Z.max 0 (MaxActiveDownloads cfg))%Z.
Proof.
  intros Hwf Hok Hev Hle. pose proof (step_changes _ cfg _ _ Hwf Hev) as Hstep.
  assert (Hnew : forall i, i ∈ slot_owners (step cfg ev e) -> i ∈ slot_owners e \/
    exists j w outcome ticket mt mt1, e_heap e !! i = Some mt /\ ev = EvContinue j w outcome /\
      e_jobs e !! j = Some (JobHealth i ticket) /\ keeps mt mt1 /\ slot (mt_policy mt1) = false /\
      capacity cfg (put i mt1 e) i = true).
  { intros i (mt' & Hi & Hs)%elem_of_slot_owners.
    destruct (Hstep _ _ Hi) as [(mt & Hmt & Hc)|(_ & _ & _ & ? & _)]; [|congruence].
    destruct (slot (mt_policy mt)) eqn:E; [left; apply elem_of_slot_owners; eauto|right].
    destruct (new_slot _ _ _ _ _ _ Hc Hs E) as (j & w & o & ticket & mt1 & ?). eauto 10. }
  destruct (decide (slot_owners (step cfg ev e) ⊆ slot_owners e)) as [Hsub|Hnsub].
  { apply subseteq_size in Hsub. lia. }
  apply not_set_Forall_Exists in Hnsub as (i & Hi & Hni); [|apply _].
  destruct (Hnew i Hi) as [?|(j & w & o & ticket & mt & mt1 & Hmt & Hevj & Hj & Hk & Hs1 & Hcap)]; [done|].
  set (e0 := put i mt1 e) in *.
  assert (Hok0 : registry_ok e0).
  { apply (quiet_registry e); [done| |by apply quiet_put].
    apply heap_keeps_owners; [cbn; rewrite dom_insert; set_solver|]. by eapply put_keeps. }
  unfold capacity in Hcap. apply andb_true_iff in Hcap as [Hcap _].
  rewrite (slotCount_owners _ Hok0) in Hcap.
  assert (Hsub : slot_owners (step cfg ev e) ⊆ slot_owners e0 ∪ {[i]}).
  { intros k Hk'. destruct (decide (k = i)) as [->|Hne]; [set_solver|]. apply elem_of_union_l.
    destruct (Hnew k Hk') as [(m & Hm & Hs)%elem_of_slot_owners|(j' & w' & o' & t' & _ & _ & _ & Hev' & Hj' & _)].
    - apply elem_of_slot_owners. exists m. split; [|done]. unfold e0, put. cbn. by rewrite lookup_insert_ne.
    - rewrite Hevj in Hev'. simplify_eq. }
  apply subseteq_size in Hsub. pose proof (size_union_alt (slot_owners e0) {[i]}) as Hu.
  pose proof (subseteq_size ({[i]} ∖ slot_owners e0) {[i]} ltac:(set_solver)) as H1.
  rewrite size_singleton in H1. apply Z.ltb_lt in Hcap. lia.
Qed.

Lemma reachable_slots strict cfg e :
  engine_reachable strict cfg e -> (slotCountLocked e <= Z.max 0 (MaxActiveDownloads cfg))%Z.
Proof.
  intros H. rewrite slotCount_owners by eauto using reachable_registry.
  induction H; [by rewrite (size_empty : size (slot_owners new_engine) = 0); lia|].
  eapply step_slots; eauto using reachable_wf, reachable_registry.
Qed.
