(* ===== verification/Scheduler.v ===== *)
(** * The scheduler's queue

    The queue order of [resource_manager.go]: the comparator of the pass order
    and the choice of [schedulerHeadLocked], which both implement one strict
    total order, independent of the order in which the map of torrents is
    iterated. *)

From stdpp Require Import base gmap strings list.
From Stdlib Require Import ZArith Lia OrderedTypeEx.
From S2P Require Import Prelude Models Policy Runtime Engine.

#[local] Open Scope list_scope.

(** The order: positioned torrents first, by position; then by the time they were
    added; then by hash. *)
Definition queue_before (a b : ManagedTorrent) : Prop :=
  let pa := mt_queuePosition a in let pb := mt_queuePosition b in
  ((0 < pa /\ pb <= 0) \/
   (((0 < pa /\ 0 < pb) \/ (pa <= 0 /\ pb <= 0)) /\
    ((0 < pa /\ pa < pb) \/
     ((pa <= 0 \/ pa = pb) /\
      (mt_addedAt a < mt_addedAt b \/
       (mt_addedAt a = mt_addedAt b /\ String_as_OT.lt (mt_hash a) (mt_hash b)))))))%Z.

Lemma ltb_lt (a b : string) : String.ltb a b = true <-> String_as_OT.lt a b.
Proof.
  rewrite <- String_as_OT.cmp_lt. unfold String.ltb, String_as_OT.cmp. by destruct (String.compare a b).
Qed.

Lemma order_less_spec (a b : ManagedTorrent) : order_less a b = true <-> queue_before a b.
Proof.
  unfold order_less, queue_before. cbv zeta.
  set (pa := mt_queuePosition a). set (pb := mt_queuePosition b).
  destruct (Z.ltb_spec 0 pa), (Z.ltb_spec 0 pb), (Z.eqb_spec pa pb), (Z.eqb_spec (mt_addedAt a) (mt_addedAt b));
    cbn; rewrite ?Z.ltb_lt, ?ltb_lt; lia || (split; intros; intuition lia).
Qed.

#[export] Instance queue_before_trans : Transitive queue_before.
Proof.
  unfold queue_before. intros a b c H1 H2.
  assert (Hs : String_as_OT.lt (mt_hash a) (mt_hash b) -> String_as_OT.lt (mt_hash b) (mt_hash c) ->
    String_as_OT.lt (mt_hash a) (mt_hash c)) by apply String_as_OT.lt_trans.
  cbv zeta in *. destruct_or?; destruct_and?; destruct_or?; intuition lia.
Qed.

Lemma queue_before_irrefl (a : ManagedTorrent) : ~ queue_before a a.
Proof.
  intros H. unfold queue_before in H. cbv zeta in H.
  assert (Hs : ~ String_as_OT.lt (mt_hash a) (mt_hash a)) by (intros E; by apply String_as_OT.lt_not_eq in E).
  intuition lia.
Qed.

Lemma queue_before_total (a b : ManagedTorrent) :
  mt_hash a <> mt_hash b -> queue_before a b \/ queue_before b a.
Proof.
  intros Hne. unfold queue_before. cbv zeta.
  assert (Hs : String_as_OT.lt (mt_hash a) (mt_hash b) \/ String_as_OT.lt (mt_hash b) (mt_hash a)).
  { destruct (String_as_OT.compare (mt_hash a) (mt_hash b)) as [?|E|?]; [by left | by destruct Hne | by right]. }
  destruct (Z.lt_total (mt_queuePosition a) (mt_queuePosition b)) as [?|[?|?]],
    (Z.lt_total (mt_addedAt a) (mt_addedAt b)) as [?|[?|?]], (Z.le_gt_cases (mt_queuePosition a) 0),
    (Z.le_gt_cases (mt_queuePosition b) 0), Hs; try lia; solve [left; intuition lia | right; intuition lia].
Qed.

(** One round of the head search compares with [order_less]. *)
Lemma head_round_spec (first : option (nat * ManagedTorrent)) (entry : nat * ManagedTorrent) :
  head_round first entry =
  if waiting (mt_policy entry.2) then
    match first with
    | None => Some entry
    | Some f => if order_less entry.2 f.2 then Some entry else first
    end
  else first.
Proof. unfold head_round, order_less. by destruct (waiting _), first as [[]|]. Qed.

(** The torrents that wait for a slot. *)
Definition waits (entry : nat * ManagedTorrent) : Prop := waiting (mt_policy entry.2) = true.

(** [x] is the first waiting torrent of [l] in queue order. *)
Definition first_in_queue (l : list (nat * ManagedTorrent)) (x : nat * ManagedTorrent) : Prop :=
  x ∈ l /\ waits x /\ forall y, y ∈ l -> waits y -> y = x \/ queue_before x.2 y.2.

Definition distinct_hashes (l : list (nat * ManagedTorrent)) : Prop :=
  forall x y, x ∈ l -> y ∈ l -> mt_hash x.2 = mt_hash y.2 -> x = y.

Lemma schedule_spec (l seen : list (nat * ManagedTorrent)) (first : option (nat * ManagedTorrent)) :
  distinct_hashes (seen ++ l) ->
  match first with Some x => first_in_queue seen x | None => forall y, y ∈ seen -> ~ waits y end ->
  match foldl head_round first l with
  | Some x => first_in_queue (seen ++ l) x
  | None => forall y, y ∈ seen ++ l -> ~ waits y
  end.
Proof.
  revert seen first. induction l as [|e l IH]; intros seen first Hd Hfirst; cbn; [by rewrite app_nil_r|].
  rewrite (cons_middle e seen l), app_assoc in *. apply IH; [done|]. clear IH.
  rewrite head_round_spec. destruct (waiting (mt_policy e.2)) eqn:Hw.
  - destruct first as [x|].
    + destruct Hfirst as (Hx & Hwx & Hmin). destruct (order_less e.2 x.2) eqn:Ho.
      * apply order_less_spec in Ho. split; [set_solver|]. split; [done|].
        intros y [Hy| ->%list_elem_of_singleton]%elem_of_app Hwy; [|by left].
        right. destruct (Hmin y Hy Hwy) as [->|]; [done|by etrans].
      * split; [set_solver|]. split; [done|].
        intros y [Hy| ->%list_elem_of_singleton]%elem_of_app Hwy; [by auto|].
        destruct (decide (mt_hash e.2 = mt_hash x.2)) as [E|Hne]; [left; apply Hd; set_solver|right].
        destruct (queue_before_total _ _ Hne) as [H%order_less_spec|]; [congruence|done].
    + split; [set_solver|]. split; [done|]. intros y [Hy| ->%list_elem_of_singleton]%elem_of_app Hwy; [|by left].
      by destruct (Hfirst y Hy).
  - destruct first as [x|].
    + destruct Hfirst as (Hx & Hwx & Hmin). split; [set_solver|]. split; [done|].
      intros y [Hy| ->%list_elem_of_singleton]%elem_of_app Hwy; [by auto|]. unfold waits in Hwy. congruence.
    + intros y [Hy| ->%list_elem_of_singleton]%elem_of_app; [by auto|]. unfold waits. by rewrite Hw.
Qed.

Lemma first_in_queue_unique (l : list (nat * ManagedTorrent)) (x y : nat * ManagedTorrent) :
  first_in_queue l x -> first_in_queue l y -> x = y.
Proof.
  intros (Hx & Hwx & Hminx) (Hy & Hwy & Hminy).
  destruct (Hminx y Hy Hwy) as [|H1]; [done|]. destruct (Hminy x Hx Hwx) as [|H2]; [done|].
  exfalso. by apply (queue_before_irrefl x.2), (queue_before_trans _ y.2).
Qed.
