(* ===== verification/EngineRuns.v ===== *)
(** * Sample runs of the engine

    Concrete runs from the empty engine, evaluated by the witnesses of the
    properties of the next files, and the fact that they are reachable. *)

From stdpp Require Import base gmap strings list.
From Stdlib Require Import ZArith Lia.
From S2P Require Import Prelude Models Policy Progress Runtime RuntimeSafety RuntimeFrame Engine EngineFrame.
From S2P Require Import EngineSafety EngineRegistry Scheduler.

Open Scope string_scope.

(** ** Sample runs *)

Definition one_slot : config := mkConfig 1 false.

(** Every probe and callback succeeds; nothing is verified yet. *)
Definition calm_world : world :=
  mkWorld None true true true true true true false false false [] 0 0 true.

Definition one_file : info := mkInfo 4 [(0, 8)%Z].

(** A library torrent as [AddTorrentSpec] hands it over. *)
Definition fresh_library (i : option info) : library := mkLibrary false true true false i None 0 [] [].

Definition register (i : option info) : event :=
  EvRegister calm_world 0 (fun _ => "h") "" 7 (fresh_library i) None.

Definition go (j : nat) : event := EvContinue j calm_world None.

(** Registration with metadata, a turn of the scheduler, and the admission. *)
Definition started : list event := [register (Some one_file); go 1; EvHealth 0; go 2; go 3].

Definition sample (evs : list event) : Engine := run_events one_slot evs new_engine.

Definition sample_torrent (evs : list event) : ManagedTorrent :=
  default (new_managed "" 0 (fresh_library None) 0 None) (e_heap (sample evs) !! 0).

(** Decides [fine]. *)
Definition fine_b (strict : bool) (ev : event) : bool :=
  match ev with
  | EvRegister _ _ _ _ _ l s =>
      negb (lib_download l) && match s with None => true | Some _ => negb (lib_upload l) end
  | EvResume _ => negb strict
  | _ => true
  end.

(** The race: a slot is granted before the metadata is known; the metadata
    arrives and its admission takes a ticket; a priority command comes in before
    the probe returns. *)
Definition metadata_race : list event :=
  [register None; EvHealth 0; go 1; EvGotInfo 0 one_file; EvMetadata "h" 7 false; go 2;
   EvSetFilePriority calm_world "h" 0 PriorityHigh; go 3].

(** A recheck of a registered torrent, to its end. *)
Definition checked : list event := [register (Some one_file); go 1; EvStartRecheck calm_world "h"; go 3; go 4].

(** A binding of the sample torrent. *)
Definition sample_fence : RuntimeFence := mkRuntimeFence (mkIntentVersion "h" "record" 3) "attachment".

Definition bind_sample : event := EvBind calm_world 7 sample_fence 0.

(** A restored record with a failed check, then the engine's own Resume. *)
Definition failed_record : saved := mkSaved StateError ErrVerificationFailed "" 0 [].

Definition resume_after_failure : list event :=
  [EvRegister calm_world 0 (fun _ => "h") "" 7 ((fresh_library (Some one_file)) <| lib_upload := false |>) (Some failed_record);
   go 1; EvFinishRestore "h" StateError false; go 2; EvResume "h"; go 3].

(** ** Reachability of sample runs *)

Lemma fine_b_spec strict ev : fine_b strict ev = true -> fine strict ev.
Proof.
  unfold fine, admissible, handed_over. destruct ev; cbn; intros H; try done; split; try done.
  - split_bools. split; [done|]. intros [sv ->]. by apply negb_true_iff.
  - by destruct strict.
Qed.

Lemma run_reachable strict cfg evs e :
  engine_reachable strict cfg e -> forallb (fine_b strict) evs = true ->
  engine_reachable strict cfg (run_events cfg evs e).
Proof.
  revert e. induction evs as [|ev evs IH]; intros e He Hf; [done|]. cbn in Hf. split_bools.
  cbn. apply IH; [|done]. constructor; [done|]. by apply fine_b_spec.
Qed.

Lemma sample_reach strict evs : forallb (fine_b strict) evs = true -> engine_reachable strict one_slot (sample evs).
Proof. intros. apply run_reachable; [constructor | done]. Qed.
