(* ===== verification/EngineProperties.v ===== *)
(** * Properties of the engine

    What the invariants of the previous files say about every reachable engine
    state and every step, for all interleavings of commands, probes, checks and
    library events. *)

From stdpp Require Import base gmap strings list.
From Stdlib Require Import ZArith Lia.
From S2P Require Import Prelude Models Policy Progress Runtime RuntimeSafety RuntimeFrame Engine EngineFrame.
From S2P Require Import EngineSafety EngineRegistry Scheduler EngineRuns.

Open Scope string_scope.

(** The work of an operation that released the lock through
    [runRuntimeWorkLocked]. *)
Definition fenced_job (j : job) : option (nat * runtimeWork) :=
  match j with
  | JobResume id work _ | JobFinish id work _ _ _ | JobRecover id work _ _ | JobMissing id work
  | JobTrackers id work | JobMetadata id work => Some (id, work)
  | _ => None
  end.

(** ** Properties *)

(** C2: in every reachable state, whatever the interleaving of commands, probes
    and library events, a torrent's payload gate is open only while its policy
    permits payload, the operational fields shown to clients are the projection
    of that policy, and, as long as the engine's own [Resume] is not called, its
    upload gate is open only while the policy permits uploads. *)
Theorem gates_open_only_with_permission strict cfg e id mt :
  engine_reachable strict cfg e -> e_heap e !! id = Some mt ->
  (lib_download (mt_t mt) = true -> payloadEligible (mt_policy mt) = true) /\
  (strict = true -> lib_upload (mt_t mt) = true -> uploadEligible (mt_policy mt) = true) /\
  policy_ok (mt_policy mt) /\ (registered (mt_policy mt) = true -> copied mt).
Proof.
  intros He Hid. destruct (reachable_heap_ok _ _ _ He _ _ Hid) as ([Hp Hc] & Hg & Hu). auto.
Qed.

Lemma gates_open_only_with_permission_witness :
  lib_download (mt_t (sample_torrent started)) = true /\
  payloadEligible (mt_policy (sample_torrent started)) = true.
Proof.
  split; [by vm_compute|].
  apply (gates_open_only_with_permission true one_slot (sample started) 0 (sample_torrent started)).
  - apply sample_reach. by vm_compute.
  - by vm_compute.
  - by vm_compute.
Defined.

(** C5: the payload gate of a torrent opens only at the end of an admission whose
    ticket is still the torrent's own: same attachment, policy epoch, fence and
    slot as when the ticket was taken, a clean disk probe, saved metadata and no
    latched write error. *)
Theorem gate_opens_only_by_admission strict cfg e ev id mt mt' :
  engine_reachable strict cfg e -> fine strict ev ->
  e_heap e !! id = Some mt -> e_heap (step cfg ev e) !! id = Some mt' ->
  lib_download (mt_t mt) = false -> lib_download (mt_t mt') = true ->
  exists j w outcome ticket info token,
    ev = EvContinue j w outcome /\ e_jobs e !! j = Some (JobAdmit id ticket info token) /\
    current e id mt = true /\ mt_preparation mt = Some ticket /\
    mt_policyEpoch mt = pp_epoch ticket /\ mt_runtimeFence mt = pp_fence ticket /\ mt_slotToken mt = pp_slot ticket /\
    payloadEligible (mt_policy mt) = true /\
    w_probe w = None /\ (info = true -> w_metadata w = true) /\ lib_writeError (mt_t mt) = None.
Proof.
  intros He Hev Hid Hid' Hclosed Hopen.
  destruct (step_changes _ cfg _ _ (reachable_wf _ _ _ He) Hev _ _ Hid') as [(m & Hm & Hc)|(_ & Hm & _)]; [|congruence].
  simplify_eq.
  destruct Hc as [Hk|? ? ? ? mt1 mt2 e0 _ _ Hk1 _ _ _ _ _ _ Hreq Hk2|w fence applied _ _ Hb|
    j w o ticket info token mt1 ? ? Ho Hk|? w ? mt1 _ _ Hv Hk].
  - destruct Hk as (_&_&_&_&_&_&_&Hk&_). rewrite Hk in Hclosed by done. done.
  - apply request_slot_frame in Hreq as (_&_&Ht&_). destruct Hk1 as (_&_&_&_&_&_&_&Hk1&_), Hk2 as (_&_&_&_&_&_&_&Hk2&_).
    rewrite Ht in Hk2. rewrite Hk1 in Hclosed by auto. done.
  - apply bind_frame in Hb as (_&_&Ht&_). congruence.
  - destruct Ho. unfold still_valid in *. split_bools. exists j, w, o, ticket, info, token. by split_and!.
  - destruct (verified_closed _ _ _ _ _ Hv) as [_ Hv'], Hk as (_&_&_&_&_&_&_&Hk&_). rewrite Hk in Hv' by done. done.
Qed.

Lemma gate_opens_only_by_admission_witness :
  let e := sample (take 4 started) in let mt := sample_torrent (take 4 started) in
  exists j w outcome ticket info token,
    go 3 = EvContinue j w outcome /\ e_jobs e !! j = Some (JobAdmit 0 ticket info token) /\
    current e 0 mt = true /\ mt_preparation mt = Some ticket /\
    mt_policyEpoch mt = pp_epoch ticket /\ mt_runtimeFence mt = pp_fence ticket /\ mt_slotToken mt = pp_slot ticket /\
    payloadEligible (mt_policy mt) = true /\
    w_probe w = None /\ (info = true -> w_metadata w = true) /\ lib_writeError (mt_t mt) = None.
Proof.
  apply (gate_opens_only_by_admission true one_slot (sample (take 4 started)) (go 3) 0
           (sample_torrent (take 4 started)) (sample_torrent started)).
  - apply sample_reach. by vm_compute.
  - by apply fine_b_spec.
  - by vm_compute.
  - by vm_compute.
  - by vm_compute.
  - by vm_compute.
Defined.

(** C9: at every moment the torrents that own a download slot are as many as the
    engine counts, and never more than configured. *)
Theorem slots_within_limit strict cfg e :
  engine_reachable strict cfg e ->
  slotCountLocked e = Z.of_nat (size (slot_owners e)) /\
  (slotCountLocked e <= Z.max 0 (MaxActiveDownloads cfg))%Z.
Proof.
  intros He. split; [apply slotCount_owners; by eapply reachable_registry | by eapply reachable_slots].
Qed.

Lemma slots_within_limit_witness : slotCountLocked (sample started) = 1%Z /\ (slotCountLocked (sample started) <= 1)%Z.
Proof.
  split; [by vm_compute|]. apply (slots_within_limit true one_slot (sample started)).
  apply sample_reach. by vm_compute.
Defined.

(** C21: doubt about a torrent's data, once raised, is settled only by the end of
    the check that is the torrent's current one, without error, on a live and
    current attachment, and only once the result is durable; the payload gate is
    closed afterwards and the slot given back. *)
Theorem doubt_settled_only_by_current_check strict cfg e ev id mt mt' :
  engine_reachable strict cfg e -> fine strict ev ->
  e_heap e !! id = Some mt -> e_heap (step cfg ev e) !! id = Some mt' ->
  uncertain (mt_policy mt) = true -> uncertain (mt_policy mt') = false ->
  exists j w attempt,
    ev = EvContinue j w None /\ e_jobs e !! j = Some (JobVerify id attempt) /\
    current e id mt = true /\ mt_cancelled mt = false /\
    mt_verificationAttempt mt = Some attempt /\ mt_rechecking mt = true /\ w_saveVerification w = true /\
    slot (mt_policy mt') = false /\ lib_download (mt_t mt') = false.
Proof.
  intros He Hev Hid Hid' Hu Hu'.
  destruct (step_changes _ cfg _ _ (reachable_wf _ _ _ He) Hev _ _ Hid') as [(m & Hm & Hc)|(_ & Hm & _)]; [|congruence].
  simplify_eq.
  destruct Hc as [Hk|? ? ? ? mt1 mt2 e0 _ _ Hk1 _ _ _ _ _ _ Hreq Hk2|w fence applied _ _ Hb|
    ? w ? ? ? ? mt1 _ _ Ho Hk|j w attempt mt1 ? ? Hv Hk].
  - destruct Hk as (_&_&_&_&_&_&_&_&Hk). rewrite Hk in Hu' by done. done.
  - apply request_slot_uncertain in Hreq. destruct Hk1 as (_&_&_&_&_&_&_&_&Hk1), Hk2 as (_&_&_&_&_&_&_&_&Hk2).
    rewrite Hk2 in Hu'; [done|]. rewrite Hreq. auto.
  - apply bind_frame in Hb as (_&_&_&Hp&_). congruence.
  - destruct (opened_frame _ _ _ _ _ _ Ho) as (_&_&_&_&_&Hp), Hk as (_&_&_&_&_&_&_&_&Hk).
    rewrite Hp in Hk. rewrite Hk in Hu' by done. done.
  - destruct Hv as [? ? ? ? ? [Hs Hl] _], Hk as (_&_&_&_&_&_&Hk1&Hk2&_).
    exists j, w, attempt. split_and!; try done.
    + destruct (slot (mt_policy mt')); [|done]. rewrite Hk1 in Hs; done.
    + destruct (lib_download (mt_t mt')); [|done]. rewrite Hk2 in Hl; done.
Qed.

Lemma doubt_settled_only_by_current_check_witness :
  let e := sample (take 4 checked) in let mt := sample_torrent (take 4 checked) in
  exists j w attempt,
    go 4 = EvContinue j w None /\ e_jobs e !! j = Some (JobVerify 0 attempt) /\
    current e 0 mt = true /\ mt_cancelled mt = false /\
    mt_verificationAttempt mt = Some attempt /\ mt_rechecking mt = true /\ w_saveVerification w = true /\
    slot (mt_policy (sample_torrent checked)) = false /\ lib_download (mt_t (sample_torrent checked)) = false.
Proof.
  apply (doubt_settled_only_by_current_check true one_slot (sample (take 4 checked)) (go 4) 0
           (sample_torrent (take 4 checked)) (sample_torrent checked)).
  - apply sample_reach. by vm_compute.
  - by apply fine_b_spec.
  - by vm_compute.
  - by vm_compute.
  - by vm_compute.
  - by vm_compute.
Defined.

(** C24: the fence of an attachment changes only by a binding made for its own
    library torrent, to a complete fence; a record, once bound, is never replaced
    by another one and its revision never decreases. *)
Theorem bindings_never_go_back strict cfg e ev id mt mt' :
  engine_reachable strict cfg e -> fine strict ev ->
  e_heap e !! id = Some mt -> e_heap (step cfg ev e) !! id = Some mt' ->
  mt_runtimeFence mt' <> mt_runtimeFence mt ->
  exists w applied,
    ev = EvBind w (mt_raw mt) (mt_runtimeFence mt') applied /\ valid_binding (mt_runtimeFence mt') = true /\
    let old := rf_version (mt_runtimeFence mt) in let new := rf_version (mt_runtimeFence mt') in
    iv_RecordID old <> "" -> iv_RecordID new = iv_RecordID old /\ (iv_Revision old <= iv_Revision new)%Z.
Proof.
  intros He Hev Hid Hid' Hne.
  destruct (step_changes _ cfg _ _ (reachable_wf _ _ _ He) Hev _ _ Hid') as [(m & Hm & Hc)|(_ & Hm & _)]; [|congruence].
  simplify_eq.
  destruct Hc as [Hk|? ? ? ? mt1 mt2 e0 _ _ Hk1 _ _ _ _ _ _ Hreq Hk2|w fence applied Hb Hv Hbind|
    ? w ? ? ? ? mt1 _ _ Ho Hk|? w ? mt1 _ _ Hv Hk]; [| | |exfalso|exfalso]; [exfalso|exfalso| |..].
  - by destruct Hk as (_&_&?&_).
  - apply request_slot_frame in Hreq as (_&_&_&Hf). destruct Hk1 as (_&_&?&_), Hk2 as (_&_&?&_). congruence.
  - pose proof (bind_monotone _ _ _ _ _ Hbind) as Hmono. apply bind_frame in Hbind as (_&_&_&_&Hf).
    exists w, applied. rewrite Hf. by split_and!.
  - destruct (opened_frame _ _ _ _ _ _ Ho) as (_&_&?&_), Hk as (_&_&?&_). congruence.
  - destruct (verified_frame _ _ _ _ _ Hv) as (_&_&?&_), Hk as (_&_&?&_). congruence.
Qed.

Lemma bindings_never_go_back_witness :
  let evs := [register (Some one_file); go 1] in
  exists w applied,
    bind_sample = EvBind w (mt_raw (sample_torrent evs)) (mt_runtimeFence (sample_torrent (evs ++ [bind_sample]))) applied /\
    valid_binding (mt_runtimeFence (sample_torrent (evs ++ [bind_sample]))) = true.
Proof.
  set (evs := [register (Some one_file); go 1]). cbv zeta.
  destruct (bindings_never_go_back true one_slot (sample evs) bind_sample 0
           (sample_torrent evs) (sample_torrent (evs ++ [bind_sample]))) as (w & applied & H1 & H2 & _).
  - apply sample_reach. by vm_compute.
  - by apply fine_b_spec.
  - by vm_compute.
  - by vm_compute.
  - by vm_compute.
  - exists w, applied. split; [exact H1 | exact H2].
Defined.

(** C17: every registry names attachments by their hash; a hash is managed,
    registering or detaching in at most one place; no library torrent has two
    attachments; an attachment is in a registry until its library torrent is
    dropped; only managed torrents own a slot. *)
Theorem one_owner_per_torrent strict cfg e :
  engine_reachable strict cfg e ->
  (forall hash id, e_managed e !! hash = Some id \/ e_detaching e !! hash = Some id \/ e_registering e !! hash = Some id ->
    exists mt, e_heap e !! id = Some mt /\ mt_hash mt = hash) /\
  (forall hash, is_Some (e_managed e !! hash) -> e_detaching e !! hash = None /\ e_registering e !! hash = None) /\
  (forall hash, is_Some (e_registering e !! hash) -> e_detaching e !! hash = None) /\
  (forall id1 id2 mt1 mt2, e_heap e !! id1 = Some mt1 -> e_heap e !! id2 = Some mt2 ->
    mt_raw mt1 = mt_raw mt2 -> id1 = id2) /\
  (forall id mt, e_heap e !! id = Some mt ->
    e_managed e !! mt_hash mt = Some id \/ e_detaching e !! mt_hash mt = Some id \/
    e_registering e !! mt_hash mt = Some id \/ mt_raw mt ∈ e_dropped e) /\
  (forall id mt, e_heap e !! id = Some mt -> slot (mt_policy mt) = true -> e_managed e !! mt_hash mt = Some id).
Proof.
  intros [Hm Hd Hr]%reachable_registry. split_and!; try done.
  intros hash id [H|[H|H]]; [by apply Hm | by apply Hd | by apply Hr].
Qed.

Lemma one_owner_per_torrent_witness :
  exists mt, e_heap (sample started) !! 0 = Some mt /\ mt_hash mt = "h".
Proof.
  apply (one_owner_per_torrent true one_slot (sample started)).
  - apply sample_reach. by vm_compute.
  - left. by vm_compute.
Defined.

(** an operation whose torrent changed while the lock was released (another
    policy epoch or fence, a detached attachment, a cancelled engine) has no
    effect: a fenced continuation only ends, and a stale admission reports a
    conflict, forgets its own reservation and touches neither policy, slot nor
    gate. *)
Theorem stale_work_is_discarded cfg e j job w outcome id mt :
  e_jobs e !! j = Some job -> e_heap e !! id = Some mt ->
  (forall work, fenced_job job = Some (id, work) -> work_valid e id work mt = false ->
    step cfg (EvContinue j w outcome) e = e <| e_jobs ::= delete j |>) /\
  (forall ticket info, still_valid ticket mt && (mt_slotToken mt =? pp_slot ticket)%nat && current e id mt = false ->
    let r := admit_end w ticket info (current e id mt) mt in
    r.2 = Some ErrOperationConflict /\ mt_policy r.1 = mt_policy mt /\ mt_t r.1 = mt_t mt /\
    (mt_preparation mt <> Some ticket -> r.1 = mt)).
Proof.
  intros Hj Hid. split.
  - intros work Hf Hv. cbn [step]. rewrite Hj.
    destruct job; cbn in Hf; simplify_eq; cbn [continue]; unfold on_id; cbn [e_heap];
      change (e_heap (e <| e_jobs ::= delete j |>)) with (e_heap e); rewrite Hid; cbn [mbind option_bind on];
      unfold if_valid; change (work_valid (e <| e_jobs ::= delete j |>) id work mt) with (work_valid e id work mt);
      by rewrite Hv.
  - intros ticket info Hv. unfold admit_end. cbv zeta.
    assert (still_valid ticket mt && payloadEligible (mt_policy mt) && (mt_slotToken mt =? pp_slot ticket)%nat
              && current e id mt && bool_decide (mt_preparation mt = Some ticket) = false) as ->.
    { destruct (still_valid ticket mt), (mt_slotToken mt =? pp_slot ticket)%nat, (current e id mt),
        (payloadEligible (mt_policy mt)); try done. }
    cbn [negb]. destruct (bool_decide_reflect (mt_preparation mt = Some ticket)); by split_and!.
Qed.

Lemma stale_work_is_discarded_witness :
  let evs := [register None; EvHealth 0; go 1; EvGotInfo 0 one_file; EvMetadata "h" 7 false;
              EvSetFilePriority calm_world "h" 0 PriorityHigh] in
  step one_slot (go 2) (sample evs) = (sample evs) <| e_jobs ::= delete 2 |>.
Proof.
  cbv zeta. set (evs := [_; _; _; _; _; _]).
  destruct (stale_work_is_discarded one_slot (sample evs) 2 (JobMetadata 0 (mkWork 2 zero_fence))
    calm_world None 0 (sample_torrent evs)) as [H _].
  - by vm_compute.
  - by vm_compute.
  - apply (H (mkWork 2 zero_fence)); by vm_compute.
Defined.

(** the engine's own [Resume] opens the upload gate whatever the policy says:
    a torrent restored with a failed check is reachable with its upload gate open
    although the policy denies uploads. *)
Theorem resume_opens_upload_unconditionally :
  exists e id mt, engine_reachable false one_slot e /\ e_heap e !! id = Some mt /\
    verificationFault (mt_policy mt) = true /\ uploadEligible (mt_policy mt) = false /\ lib_upload (mt_t mt) = true.
Proof.
  exists (sample resume_after_failure), 0, (sample_torrent resume_after_failure).
  split; [apply sample_reach; by vm_compute|]. split_and!; vm_compute; reflexivity.
Qed.
