(* ===== verification/SchedulerTurn.v ===== *)
(** * A turn of the scheduler

    What one turn of [manageResources] for one torrent does when nothing disturbs
    its probe: the first waiting torrent gets a slot and its gate opens; a torrent
    whose first admission was refused while its metadata arrived keeps its slot
    with the gate closed. *)

From stdpp Require Import base gmap strings list.
From Stdlib Require Import ZArith Lia.
From S2P Require Import Prelude Models Policy Progress Runtime RuntimeSafety RuntimeFrame Engine EngineFrame.
From S2P Require Import EngineSafety EngineRegistry Scheduler EngineRuns.

Open Scope string_scope.

(** A turn of the scheduler for one torrent, its probe undisturbed. *)
Definition turn (cfg : config) (id : nat) (w : world) (e : Engine) : Engine :=
  run_events cfg [EvHealth id; EvContinue (e_next e) w None] e.

Definition turns (cfg : config) (id : nat) (ws : list world) (e : Engine) : Engine :=
  foldl (fun e w => turn cfg id w e) e ws.

(** A torrent that owns a slot and may download, but whose gate is closed with
    nothing under way to open it. *)
Record stranded (e : Engine) (id : nat) (mt : ManagedTorrent) : Prop := {
  st_heap : e_heap e !! id = Some mt;
  st_current : current e id mt = true;
  st_slot : slot (mt_policy mt) = true;
  st_eligible : payloadEligible (mt_policy mt) = true;
  st_started : mt_downloadAllStarted mt = true;
  st_closed : lib_download (mt_t mt) = false;
  st_preparation : mt_preparation mt = None;
  st_probe : mt_healthProbe mt = None;
}.

(** The disk is healthy, the engine live and the torrent's selection unfinished. *)
Definition unfinished (mt : ManagedTorrent) (w : world) : Prop :=
  w_probe w = None /\ w_live w = true /\
  exists i selected, lib_info (mt_t mt) = Some i /\
    selection_facts (w_runs w) i (mt_filePriorities mt) = (false, false, selected).

(** The policy after the selection was found unfinished. *)
Definition observed (p : runtimePolicy) (selected : nat) : runtimePolicy :=
  p <| selectedComplete := false |> <| payloadComplete := false |> <| selectionEmpty := (selected =? 0)%nat |>.

(** A torrent that waits for a slot, with nothing under way. *)
Record idle (e : Engine) (id : nat) (mt : ManagedTorrent) : Prop := {
  id_heap : e_heap e !! id = Some mt;
  id_current : current e id mt = true;
  id_started : mt_downloadAllStarted mt = false;
  id_preparation : mt_preparation mt = None;
  id_probe : mt_healthProbe mt = None;
}.

(** The library can take the payload: the saved priorities name its files, no
    write failed and the torrent was not closed. *)
Definition ready (mt : ManagedTorrent) : Prop :=
  forallb (index_in_bounds (file_count (mt_t mt))) (map_to_list (mt_filePriorities mt)).*1 = true /\
  lib_writeError (mt_t mt) = None /\ lib_closed (mt_t mt) = false.

(** A turn and the admission it asks for, both undisturbed. *)
Definition full_turn (cfg : config) (id : nat) (w : world) (e : Engine) : Engine :=
  step cfg (EvContinue (S (e_next e)) w None) (turn cfg id w e).

(** ** One turn of the scheduler *)

(** A turn for a torrent whose turn it may take, its probe undisturbed: the
    ticket is its own again when the probe returns, so the turn is the second
    section of the operation on the torrent as it was. *)
Lemma turn_undisturbed cfg id w e mt :
  e_heap e !! id = Some mt -> current e id mt = true -> mt_healthProbe mt = None ->
  exists e0 ticket, turn cfg id w e = end_health cfg w ticket id (mt <| mt_healthProbe := Some ticket |>) e0 /\
    still_valid ticket mt = true /\ e_heap e0 = <[id := mt <| mt_healthProbe := Some ticket |>]> (e_heap e) /\
    e_managed e0 = e_managed e /\ e_cancelled e0 = e_cancelled e /\ e_next e0 = S (e_next e).
Proof.
  intros Hid Hcur Hp. set (t := mkPreparation (e_next e) (mt_policyEpoch mt) (mt_runtimeFence mt) 0).
  set (e1 := add_job (JobHealth id t) (put id (mt <| mt_healthProbe := Some t |>) e)).
  exists (e1 <| e_jobs ::= delete (e_next e) |>), t. split_and!; try done.
  - unfold turn, run_events. cbn [foldl].
    assert (step cfg (EvHealth id) e = e1) as ->.
    { cbn [step]. unfold on_id. rewrite Hid. cbn [mbind option_bind on]. unfold begin_health, health_begin.
      by rewrite Hcur, Hp. }
    cbn [step].
    assert (e_jobs e1 !! e_next e = Some (JobHealth id t)) as -> by apply lookup_insert_eq.
    cbn [continue]. unfold on_id.
    assert (e_heap (e1 <| e_jobs ::= delete (e_next e) |>) !! id = Some (mt <| mt_healthProbe := Some t |>)) as ->
      by apply lookup_insert_eq.
    done.
  - unfold still_valid. cbn. rewrite Nat.eqb_refl, bool_decide_eq_true_2; done.
Qed.

(** Settling an undisturbed, healthy turn reconciles the selection. *)
Lemma settle_undisturbed w ticket mt :
  still_valid ticket mt = true -> w_probe w = None -> mt_healthProbe mt = None -> w_live w = true ->
  health_settle w ticket true (mt <| mt_healthProbe := Some ticket |>) = (reconcileSelectionLocked w true mt, true).
Proof.
  intros Hv Hp Hh Hl. unfold health_settle. rewrite bool_decide_eq_true_2 by done.
  change (still_valid ticket (mt <| mt_healthProbe := Some ticket |>)) with (still_valid ticket mt).
  rewrite Hv, Hp. cbn [andb negb]. unfold still. rewrite Hl. f_equal. f_equal. destruct mt. cbn in *. by subst.
Qed.

Lemma observe_unfinished p selected :
  payloadEligible p = true ->
  runtimeTransition p ((event_of stateSelectionObserved) <| ev_metadataKnown := true |>
    <| ev_selectedComplete := false |> <| ev_payloadComplete := false |>
    <| ev_selectionEmpty := (selected =? 0)%nat |>) =
  Ok (finish_decision (observed p selected) zero_decision).
Proof.
  intros He. assert (He' : payloadEligible (observed p selected) = true) by done.
  apply payloadEligible_spec in He as [[Hr Ht _ Hi Hc Hu _ _] _].
  unfold runtimeTransition. rewrite Ht, Hr. cbn [negb andb step_event ev_kind event_of].
  unfold step_selection_observed. cbn. rewrite Hi, Hc, Hu. cbn. fold (observed p selected). by rewrite He'.
Qed.

(** The fields [install] does not touch. *)
Lemma install_rest mt event d :
  mt_filePriorities (install mt event d) = mt_filePriorities mt /\
  mt_preparation (install mt event d) = mt_preparation mt /\ mt_healthProbe (install mt event d) = mt_healthProbe mt /\
  mt_queuePosition (install mt event d) = mt_queuePosition mt /\ mt_addedAt (install mt event d) = mt_addedAt mt /\
  mt_downloadAllStarted (install mt event d) = (if d_resetDownload d then false else mt_downloadAllStarted mt).
Proof.
  unfold install.
  destruct (decide _), (_ && bool_decide (_ = stateSlotRequested)), (_ && ev_diskRecovered event),
    (d_resetDownload d), (d_invalidateApplied d); by repeat split.
Qed.

(** An unfinished selection takes nothing from a torrent that may download. *)
Lemma reconcile_unfinished w mt :
  payloadEligible (mt_policy mt) = true -> unfinished mt w ->
  let mt' := reconcileSelectionLocked w true mt in
  (verification_veto mt = true /\ mt' = mt \/ exists selected, mt_policy mt' = observed (mt_policy mt) selected) /\
  mt_hash mt' = mt_hash mt /\ mt_t mt' = mt_t mt /\ mt_filePriorities mt' = mt_filePriorities mt /\
  mt_downloadAllStarted mt' = mt_downloadAllStarted mt /\ mt_preparation mt' = mt_preparation mt /\
  mt_healthProbe mt' = mt_healthProbe mt /\ mt_queuePosition mt' = mt_queuePosition mt /\
  mt_addedAt mt' = mt_addedAt mt.
Proof.
  intros He (Hp & Hl & i & selected & Hi & Hsel). cbv zeta. unfold reconcileSelectionLocked. cbn [negb]. rewrite Hi.
  fold (verification_veto mt). destruct (verification_veto mt); [by auto 12|]. rewrite Hsel.
  unfold applyStateEventLocked. rewrite observe_unfinished by done. cbn -[install].
  match goal with |- context [install mt ?ev ?d] =>
    destruct (install_view mt ev d) as (-> & -> & _ & _ & _ & _ & _ & _ & _ & -> & _);
    destruct (install_rest mt ev d) as (-> & -> & -> & -> & -> & ->) end.
  split; [right; by exists selected | done].
Qed.

Lemma current_same e e' id mt mt' :
  e_managed e' = e_managed e -> e_cancelled e' = e_cancelled e -> mt_hash mt' = mt_hash mt ->
  current e' id mt' = current e id mt.
Proof. unfold current. by intros -> -> ->. Qed.

(** A healthy turn leaves a stranded torrent stranded: it owns its slot, and its
    preparation counts as started. *)
Lemma stranded_turn cfg e id mt w :
  stranded e id mt -> unfinished mt w ->
  exists mt', stranded (turn cfg id w e) id mt' /\ mt_t mt' = mt_t mt /\
    mt_filePriorities mt' = mt_filePriorities mt.
Proof.
  intros [Hid Hcur Hs He Hst Hcl Hpr Hpb] Hun.
  destruct (turn_undisturbed cfg id w e mt Hid Hcur Hpb) as (e0 & t & -> & Hv & Hh & Hm & Hc & _).
  pose proof (reconcile_unfinished w mt He Hun) as (Hpol & Hhash & Ht & Hf & Hds & Hp' & Hh' & _).
  destruct (Hun) as (Hp & Hl & _).
  set (r := reconcileSelectionLocked w true mt) in *.
  assert (Hslot : slot (mt_policy r) = true /\ payloadEligible (mt_policy r) = true).
  { destruct Hpol as [[_ ->]|[k ->]]; done. }
  destruct Hslot as [Hslot Helig]. exists r.
  unfold end_health. rewrite (current_same e e0 _ mt), Hcur by done.
  rewrite settle_undisturbed by done. fold r. cbn [negb].
  unfold request_slot. rewrite Hslot. unfold after, prepare_payload, must_prepare. rewrite Hl, Hds, Hst, andb_false_r. cbn [andb].
  split; [|done]. constructor; try congruence; [apply lookup_insert_eq|].
  rewrite <- Hcur. by apply current_same.
Qed.

Lemma stranded_turns cfg id ws e mt :
  stranded e id mt -> Forall (unfinished mt) ws -> exists mt', stranded (turns cfg id ws e) id mt'.
Proof.
  revert e mt. induction ws as [|w ws IH]; intros e mt Hs Hws; [by exists mt|].
  apply Forall_cons in Hws as [Hw Hws]. cbn.
  destruct (stranded_turn cfg e id mt w Hs Hw) as (mt' & Hs' & Ht & Hf). apply (IH _ mt'); [done|].
  eapply Forall_impl; [exact Hws|]. unfold unfinished. by rewrite Ht, Hf.
Qed.

(** ** A slot for the first in the queue *)

Lemma elem_of_managed e id mt :
  (id, mt) ∈ managed_torrents e <-> (exists hash, e_managed e !! hash = Some id) /\ e_heap e !! id = Some mt.
Proof.
  unfold managed_torrents. rewrite list_elem_of_omap. split.
  - intros ([h i] & Hin%elem_of_map_to_list & Hm). destruct (e_heap e !! i) eqn:E; cbn in Hm; simplify_eq. eauto.
  - intros [[h Hh] Hm]. exists (h, id). split; [by apply elem_of_map_to_list|]. by rewrite Hm.
Qed.

Lemma managed_distinct e : names e (e_managed e) -> distinct_hashes (managed_torrents e).
Proof.
  intros Hok [i1 m1] [i2 m2] [[h1 H1] Hm1]%elem_of_managed [[h2 H2] Hm2]%elem_of_managed E. cbn in E.
  destruct (Hok _ _ H1) as (? & ? & <-), (Hok _ _ H2) as (? & ? & <-). simplify_eq.
  rewrite E in H1. by simplify_eq.
Qed.

Lemma schedule_first l :
  distinct_hashes l ->
  match schedule l with Some x => first_in_queue l x | None => forall y, y ∈ l -> ~ waits y end.
Proof. intros Hd. exact (schedule_spec l [] None Hd ltac:(set_solver)). Qed.

Lemma head_spec e id mt :
  names e (e_managed e) -> first_in_queue (managed_torrents e) (id, mt) -> schedulerHeadLocked e = Some id.
Proof.
  intros Hok Hfirst. unfold schedulerHeadLocked.
  pose proof (schedule_first _ (managed_distinct e Hok)) as H.
  destruct (schedule (managed_torrents e)) as [x|].
  - by rewrite (first_in_queue_unique _ _ _ H Hfirst).
  - destruct Hfirst as (? & Hw & _). by destruct (H (id, mt)).
Qed.

(** The choice depends on the set of torrents only. *)
Lemma schedule_permutation l l' : distinct_hashes l -> l' ≡ₚ l -> schedule l' = schedule l.
Proof.
  intros Hd Hp. pose proof (schedule_first l Hd) as H.
  assert (Hd' : distinct_hashes l') by (intros x y; rewrite Hp; apply Hd).
  pose proof (schedule_first l' Hd') as H'.
  destruct (schedule l) as [x|], (schedule l') as [y|]; try done.
  - f_equal. apply (first_in_queue_unique l); [|done]. destruct H' as (Hy & Hw & Hmin). rewrite Hp in Hy.
    split_and!; try done. intros z. rewrite <- Hp. apply Hmin.
  - destruct H as (Hx & Hw & _). rewrite <- Hp in Hx. by destruct (H' x).
  - destruct H' as (Hy & Hw & _). rewrite Hp in Hy. by destruct (H y).
Qed.

(** A torrent that changes neither its place in the queue nor its need of a slot
    stays first. *)
Lemma first_in_queue_put e e' id mt mt' :
  e_heap e' = <[id := mt']> (e_heap e) -> e_managed e' = e_managed e ->
  first_in_queue (managed_torrents e) (id, mt) ->
  waiting (mt_policy mt') = true -> mt_hash mt' = mt_hash mt -> mt_queuePosition mt' = mt_queuePosition mt ->
  mt_addedAt mt' = mt_addedAt mt -> first_in_queue (managed_torrents e') (id, mt').
Proof.
  intros Hheap Hman (Hin & Hw & Hmin) Hw' Hh Hq Ha. apply elem_of_managed in Hin as [Hm Hid]. split_and!.
  - apply elem_of_managed. rewrite Hman, Hheap. split; [done|]. apply lookup_insert_eq.
  - done.
  - intros [i m] [Hm' Hi]%elem_of_managed Hwm. rewrite Hman in Hm'. rewrite Hheap in Hi.
    apply lookup_insert_Some in Hi as [[-> ->]|[Hne Hi]]; [by left|].
    right. destruct (Hmin (i, m)) as [[= -> ->]|H]; [by apply elem_of_managed|done|done|].
    unfold queue_before in *. cbn in *. by rewrite Hq, Ha, Hh.
Qed.

Lemma names_put e e' id mt mt' registry :
  e_heap e' = <[id := mt']> (e_heap e) -> e_heap e !! id = Some mt -> mt_hash mt' = mt_hash mt ->
  names e registry -> names e' registry.
Proof.
  intros Hh Hid Hhash Hn h i (m & Hm & Hmh)%Hn. rewrite Hh. destruct (decide (i = id)) as [->|].
  - exists mt'. rewrite lookup_insert_eq. split; [done|]. congruence.
  - exists m. by rewrite lookup_insert_ne.
Qed.

Lemma slotCount_put e e' id mt mt' :
  e_heap e' = <[id := mt']> (e_heap e) -> e_managed e' = e_managed e -> e_heap e !! id = Some mt ->
  slot (mt_policy mt') = slot (mt_policy mt) -> slotCountLocked e' = slotCountLocked e.
Proof.
  intros Hh Hm Hid Hs. unfold slotCountLocked. rewrite Hm. do 2 f_equal. apply map_filter_ext.
  intros h i _. unfold owns_slot. cbn. rewrite Hh.
  destruct (decide (i = id)) as [->|]; [by rewrite lookup_insert_eq, Hid, Hs | by rewrite lookup_insert_ne].
Qed.

(** A waiting torrent gets the slot that is offered. *)
Lemma grant_waiting p :
  waiting p = true ->
  runtimeTransition p ((event_of stateSlotRequested) <| ev_slotAvailable := true |>) =
    Ok (finish_decision (p <| slot := true |>) zero_decision).
Proof.
  unfold waiting. rewrite !andb_true_iff, !negb_true_iff. intros [[[He Hs] Hsc] Hpc].
  pose proof He as [[Hr Ht _ _ _ _ _ _] _]%payloadEligible_spec.
  unfold runtimeTransition. rewrite Ht, Hr. cbn [negb andb].
  change (step_event p _) with (step_slot_requested p ((event_of stateSlotRequested) <| ev_slotAvailable := true |>)).
  unfold step_slot_requested. by rewrite He, Hs, Hsc, Hpc.
Qed.

Lemma request_granted mt :
  waiting (mt_policy mt) = true ->
  exists mt', request_slot true mt = Some mt' /\ mt_policy mt' = (mt_policy mt) <| slot := true |> /\ copied mt' /\
    mt_hash mt' = mt_hash mt /\ mt_t mt' = mt_t mt /\ mt_filePriorities mt' = mt_filePriorities mt /\
    mt_downloadAllStarted mt' = mt_downloadAllStarted mt /\ mt_preparation mt' = mt_preparation mt.
Proof.
  intros Hw. unfold request_slot, applyStateEventLocked.
  pose proof (grant_waiting _ Hw) as Ht. set (ev := (event_of stateSlotRequested) <| ev_slotAvailable := true |>) in *.
  set (d := finish_decision _ zero_decision) in *. rewrite Ht.
  assert (slot (mt_policy mt) = false) as -> by (unfold waiting in Hw; by split_bools).
  exists (install mt ev d). split; [done|].
  destruct (install_view mt ev d) as (Hp & Hl & Hs & Hr & Hu & Hi & Hd & Hc & Hterm & Hh & _).
  destruct (install_rest mt ev d) as (Hf & Hpr & _ & _ & _ & Hds).
  pose proof (decision_copies _ _ _ Ht) as Hcopies. cbv zeta in Hcopies.
  split; [exact Hp|]. split; [unfold copied; by rewrite Hp, Hs, Hr, Hu, Hi, Hd, Hc, Hterm|].
  rewrite Hh, Hl, Hf, Hds, Hpr. by split_and!.
Qed.

(** An admission taken and finished without interference opens the gate. *)
Lemma admit_begin_accepts n mt :
  payloadEligible (mt_policy mt) = true -> mt_preparation mt = None ->
  admit_begin n true false mt =
    Ok (mt <| mt_preparation := Some (mkPreparation n (mt_policyEpoch mt) (mt_runtimeFence mt) (mt_slotToken mt)) |>).
Proof.
  intros He Hp. unfold admit_begin. rewrite He, Hp. cbn.
  apply payloadEligible_spec in He as [[_ _ _ Hi Hc Hu _ _] Hd]. by rewrite Hi, Hc, Hu, Hd.
Qed.

Lemma admit_end_opens w n mt :
  payloadEligible (mt_policy mt) = true -> mt_initializing mt = false -> has_info (mt_t mt) = true -> ready mt ->
  w_probe w = None -> w_metadata w = true ->
  let t := mkPreparation n (mt_policyEpoch mt) (mt_runtimeFence mt) (mt_slotToken mt) in
  exists mt', admit_end w t true true (mt <| mt_preparation := Some t |>) = (mt', None) /\
    lib_download (mt_t mt') = true /\ mt_policy mt' = mt_policy mt /\ mt_state mt' = mt_state mt.
Proof.
  intros He Hi Hinfo (Hb & Hw & Hc) Hp Hm. cbv zeta. unfold admit_end.
  rewrite bool_decide_eq_true_2 by done. unfold still_valid. cbn -[applyFilePrioritiesAndDownload].
  rewrite He, !Nat.eqb_refl, bool_decide_eq_true_2, Hp, Hm by done. cbn -[applyFilePrioritiesAndDownload].
  unfold applyFilePrioritiesAndDownload, file_count, Files, has_info in *. cbn.
  destruct (lib_info (mt_t mt)) as [i|]; [|done]. rewrite Hi, Hb. cbn.
  unfold AllowDataDownloadIfNoWriteError. cbn. rewrite Hc, Hw. eexists. by split.
Qed.

(** The slot request of a turn succeeds for the first in the queue, if the
    engine has a slot left. *)
Lemma turn_grants cfg e id mt w :
  registry_ok e -> idle e id mt -> first_in_queue (managed_torrents e) (id, mt) ->
  (slotCountLocked e < MaxActiveDownloads cfg)%Z -> unfinished mt w ->
  exists e0 granted, turn cfg id w e = prepare_payload w id granted e0 /\
    current e0 id granted = true /\ e_next e0 = S (e_next e) /\
    slot (mt_policy granted) = true /\ payloadEligible (mt_policy granted) = true /\
    payloadComplete (mt_policy granted) = false /\ copied granted /\
    mt_t granted = mt_t mt /\ mt_filePriorities granted = mt_filePriorities mt /\
    mt_downloadAllStarted granted = false /\ mt_preparation granted = None.
Proof.
  intros Hok [Hid Hcur Hst Hpr Hpb] Hfirst Hcount Hun.
  destruct (Hfirst) as (_ & Hw & _). unfold waits in Hw. cbn in Hw.
  assert (He : payloadEligible (mt_policy mt) = true) by (unfold waiting in Hw; by split_bools).
  destruct (turn_undisturbed cfg id w e mt Hid Hcur Hpb) as (e0 & t & Hturn & Hv & Hh & Hm & Hc & Hn).
  pose proof (reconcile_unfinished w mt He Hun) as (Hpol & Hhash & Ht & Hf & Hds & Hp' & Hh' & Hq & Ha).
  destruct Hun as (Hp & Hl & _). set (r := reconcileSelectionLocked w true mt) in *.
  assert (Hwr : waiting (mt_policy r) = true /\ slot (mt_policy r) = slot (mt_policy mt)).
  { destruct Hpol as [[_ ->]|[k ->]]; [done|]. split; [|done]. revert Hw. unfold waiting. cbn.
    change (payloadEligible (observed (mt_policy mt) k)) with (payloadEligible (mt_policy mt)).
    destruct (payloadEligible _), (slot _); done. }
  destruct Hwr as [Hwr Hsr].
  assert (Hheap : e_heap (put id r e0) = <[id := r]> (e_heap e)) by (cbn; by rewrite Hh, insert_insert_eq).
  assert (Hcap : capacity cfg (put id r e0) id = true).
  { unfold capacity. rewrite (slotCount_put e _ id mt r) by done.
    rewrite (head_spec _ id r); [|eapply names_put; [done..|]; cbn; rewrite Hm; apply (ro_managed _ Hok)|by eapply first_in_queue_put].
    by rewrite (proj2 (Z.ltb_lt _ _) Hcount), bool_decide_eq_true_2. }
  assert (Hcur0 : forall m, mt_hash m = mt_hash mt -> current e0 id m = true).
  { intros m Hm'. rewrite <- Hcur. by apply current_same. }
  destruct (request_granted r Hwr) as (g & Hreq & Hpg & Hcg & Hhg & Htg & Hfg & Hdg & Hprg).
  exists (put id g (put id r e0)), g. split.
  { rewrite Hturn. unfold end_health. rewrite Hcur0 by done. rewrite settle_undisturbed by done. fold r. cbn [negb].
    rewrite Hcap, Hreq. unfold after. by rewrite Hl. }
  unfold waiting in Hwr. split_bools. rewrite Hpg. split_and!; try done; try congruence.
  change (current e0 id g = true). apply Hcur0. congruence.
Qed.

(** The preparation that follows takes a ticket that stays its own until the
    admission ends. *)
Lemma prepared_opens cfg w e id mt :
  current e id mt = true -> slot (mt_policy mt) = true -> payloadEligible (mt_policy mt) = true -> copied mt ->
  mt_downloadAllStarted mt = false -> mt_preparation mt = None -> has_info (mt_t mt) = true -> ready mt ->
  w_probe w = None -> w_metadata w = true -> w_live w = true ->
  exists mt', e_heap (step cfg (EvContinue (e_next e) w None) (prepare_payload w id mt e)) !! id = Some mt' /\
    lib_download (mt_t mt') = true /\ mt_policy mt' = mt_policy mt /\ mt_state mt' = mt_state mt.
Proof.
  intros Hcur Hs He Hcop Hds Hpr Hinfo Hready Hp Hm Hl.
  set (m1 := mt <| mt_downloadAllStarted := true |>).
  set (t := mkPreparation (e_next e) (mt_policyEpoch m1) (mt_runtimeFence m1) (mt_slotToken m1)).
  set (e1 := add_job (JobAdmit id t true (Some (mt_slotToken mt))) (put id (m1 <| mt_preparation := Some t |>) e)).
  assert (prepare_payload w id mt e = e1) as ->.
  { unfold prepare_payload, must_prepare. rewrite Hs, He, Hds, Hinfo, bool_decide_eq_true_2 by done. cbn [andb negb].
    unfold admission_or, start_admission. change (current e id _) with (current e id mt). rewrite Hcur.
    assert (e_cancelled e = false) as -> by (unfold current in Hcur; by split_bools).
    rewrite admit_begin_accepts by done. cbn. by rewrite Hinfo. }
  destruct (admit_end_opens w (e_next e) m1) as (m2 & Hend & Ho & Hpol & Hstate); try done.
  { destruct Hcop as (_ & _ & _ & Hi & _). apply payloadEligible_spec in He as [[] _]. cbn. congruence. }
  exists m2. split; [|done]. cbn [step].
  assert (e_jobs e1 !! e_next e = Some (JobAdmit id t true (Some (mt_slotToken mt)))) as -> by apply lookup_insert_eq.
  cbn [continue]. unfold on_id. set (e2 := e1 <| e_jobs ::= _ |>).
  assert (e_heap e2 !! id = Some (m1 <| mt_preparation := Some t |>)) as -> by apply lookup_insert_eq.
  cbn [mbind option_bind on]. unfold end_admission.
  change (current e2 id _) with (current e id mt). rewrite Hcur. fold t in Hend. rewrite Hend.
  unfold after. rewrite Hl. apply lookup_insert_eq.
Qed.

(** ** Properties *)

(** C12: a free slot and a healthy disk start the head of the queue.  In every
    state the engine reaches, let a torrent wait with nothing under way and stand
    first in queue order, while fewer torrents than the limit own a slot.  Let its
    metadata be known and saved, its selection unfinished, its saved priorities
    name its files, no write error be latched and the library torrent be open.
    Then one undisturbed turn of the scheduler starts its download: it owns a slot,
    is shown as downloading and its payload gate is open. *)
Theorem first_in_queue_starts strict cfg e id mt w :
  engine_reachable strict cfg e -> idle e id mt -> first_in_queue (managed_torrents e) (id, mt) ->
  (slotCountLocked e < MaxActiveDownloads cfg)%Z -> unfinished mt w -> w_metadata w = true -> ready mt ->
  exists mt', e_heap (full_turn cfg id w e) !! id = Some mt' /\ lib_download (mt_t mt') = true /\
    slot (mt_policy mt') = true /\ mt_state mt' = StateDownloading.
Proof.
  intros Hr Hidle Hfirst Hcount Hun Hm Hready.
  destruct (turn_grants cfg e id mt w) as (e0 & g & Hturn & Hcur & Hn & Hs & He & Hpc & Hcop & Ht & Hf & Hds & Hpr);
    [by eapply reachable_registry|done..|].
  destruct Hun as (Hp & Hl & i & k & Hi & _).
  destruct (prepared_opens cfg w e0 id g) as (m & Hm' & Ho & Hpol & Hst); try done.
  { rewrite Ht. unfold has_info. by rewrite Hi. }
  { unfold ready in *. by rewrite Ht, Hf. }
  exists m. unfold full_turn. rewrite Hturn, <- Hn. split_and!; try done; [congruence|].
  destruct Hcop as (Hproj & _). apply payloadEligible_spec in He as [Hc Hd].
  rewrite projection_clear, Hpc, Hs in Hproj by done. cbn in Hproj. congruence.
Qed.


Lemma first_in_queue_starts_witness :
  let e := sample [register (Some one_file); go 1] in
  exists mt', e_heap (full_turn one_slot 0 calm_world e) !! 0 = Some mt' /\ lib_download (mt_t mt') = true /\
    slot (mt_policy mt') = true /\ mt_state mt' = StateDownloading.
Proof.
  set (evs := [register (Some one_file); go 1]). cbv zeta.
  assert (Hall : managed_torrents (sample evs) = [(0, sample_torrent evs)]) by (vm_compute; reflexivity).
  apply (first_in_queue_starts true one_slot (sample evs) 0 (sample_torrent evs) calm_world).
  - apply sample_reach. by vm_compute.
  - constructor; vm_compute; reflexivity.
  - rewrite Hall. split; [by apply list_elem_of_singleton|]. split; [vm_compute; reflexivity|].
    intros y ->%list_elem_of_singleton _. left. reflexivity.
  - by vm_compute.
  - do 2 (split; [vm_compute; reflexivity|]). exists one_file, 1%nat. split; vm_compute; reflexivity.
  - by vm_compute.
  - split_and!; vm_compute; reflexivity.
Defined.

(** the loop over the map of torrents in [schedulerHeadLocked] finds the first
    waiting torrent of the queue order (positioned torrents by position, then by
    the time they were added, then by hash), whatever the order of iteration. *)
Theorem scheduler_head_is_first strict cfg e :
  engine_reachable strict cfg e ->
  (forall id, schedulerHeadLocked e = Some id <-> exists mt, first_in_queue (managed_torrents e) (id, mt)) /\
  (forall l, l ≡ₚ managed_torrents e -> fst <$> schedule l = schedulerHeadLocked e).
Proof.
  intros Hok%reachable_registry%ro_managed. split.
  - intros id. split; [|intros [mt ?]; by eapply head_spec]. unfold schedulerHeadLocked.
    pose proof (schedule_first _ (managed_distinct e Hok)) as H.
    destruct (schedule (managed_torrents e)) as [[i mt]|]; [|done]. intros [= <-]. by exists mt.
  - intros l Hl. unfold schedulerHeadLocked. by rewrite (schedule_permutation _ l (managed_distinct e Hok) Hl).
Qed.

Lemma scheduler_head_is_first_witness :
  exists mt, first_in_queue (managed_torrents (sample [register (Some one_file); go 1])) (0, mt).
Proof.
  apply (scheduler_head_is_first true one_slot (sample [register (Some one_file); go 1])).
  - apply sample_reach. by vm_compute.
  - by vm_compute.
Defined.

(** a priority command that arrives while the admission after the metadata is
    under way makes that admission fail, and its failure is ignored: a reachable
    engine then holds a torrent that owns the only slot with its gate closed, and
    no number of healthy turns of the scheduler changes that. *)
Theorem metadata_conflict_strands_slot :
  exists e id mt, engine_reachable true one_slot e /\ stranded e id mt /\ unfinished mt calm_world /\
    forall ws, Forall (unfinished mt) ws -> exists mt', stranded (turns one_slot id ws e) id mt'.
Proof.
  exists (sample metadata_race), 0, (sample_torrent metadata_race).
  assert (Hs : stranded (sample metadata_race) 0 (sample_torrent metadata_race)) by (constructor; vm_compute; reflexivity).
  split; [apply sample_reach; by vm_compute|]. split; [exact Hs|]. split.
  - do 2 (split; [vm_compute; reflexivity|]). exists one_file, 1%nat. split; vm_compute; reflexivity.
  - intros ws Hws. exact (stranded_turns one_slot 0 ws _ _ Hs Hws).
Qed.
