(* ===== verification/Sha256.v ===== *)
(** * SHA-256

    [crypto/sha256], the digest the repository stores beside a checkpoint and
    as the version of a catalog: FIPS 180-4 on lists of bytes, with 32-bit
    words as wrapped integers. *)

From stdpp Require Import base list strings.
From Stdlib Require Import ZArith Strings.Byte Lia.
From coqutil Require Import Byte Word.LittleEndianList.
From S2P Require Import Prelude.

#[local] Open Scope Z_scope.

Definition u32 (z : Z) : Z := z mod 2 ^ 32.

Definition rotr (n x : Z) : Z := Z.lor (Z.shiftr x n) (u32 (Z.shiftl x (32 - n))).

(** The primes below [bound], in order. *)
Definition primes_below (bound : nat) : list Z :=
  filter (fun n => forallb (fun d => negb (n mod d =? 0)) (seqZ 2 (n - 2)) = true) (seqZ 2 (Z.of_nat bound - 2)).

(** The integer cube root, by the bits from [2 ^ bits] down. *)
Fixpoint cube_root (bits : nat) (root n : Z) : Z :=
  let candidate := root + 2 ^ Z.of_nat bits in
  let root := if candidate ^ 3 <=? n then candidate else root in
  match bits with
  | O => root
  | S bits => cube_root bits root n
  end.

(** The first 32 bits of the fractional parts of the cube roots of the first 64
    primes, and of the square roots of the first eight. *)
Definition round_constants : list Z :=
  Eval vm_compute in map (fun p => u32 (cube_root 40 0 (p * 2 ^ 96))) (primes_below 312).
Definition initial_words : list Z :=
  Eval vm_compute in map (fun p => u32 (Z.sqrt (p * 2 ^ 64))) (primes_below 20).

Record digest_state := mkDigest { ha : Z; hb : Z; hc : Z; hd : Z; he : Z; hf : Z; hg : Z; hh : Z }.

Definition initial_digest : digest_state :=
  let word i := nth i initial_words 0 in
  mkDigest (word 0%nat) (word 1%nat) (word 2%nat) (word 3%nat) (word 4%nat) (word 5%nat) (word 6%nat) (word 7%nat).

Definition be_word (w : Z) : list byte := rev (le_split 4 w).
Definition of_be (bytes : list byte) : Z := le_combine (rev bytes).

(** The message followed by the bit 1, zeros, and its length in bits. *)
Definition pad (message : list byte) : list byte :=
  let n := length message in
  (message ++ x80 :: replicate ((119 - n mod 64) mod 64) x00
   ++ rev (le_split 8 (u64 (8 * Z.of_nat n))))%list.

Fixpoint words (count : nat) (bytes : list byte) : list Z :=
  match count with
  | O => []
  | S count => of_be (firstn 4 bytes) :: words count (skipn 4 bytes)
  end.

(** One round: the first word of the sixteen-word window of the schedule is
    consumed and the word sixteen places later is appended. *)
Definition round (state : digest_state * list Z) (k : Z) : digest_state * list Z :=
  let '(mkDigest a b c d e f g h, window) := state in
  let word i := nth i window 0 in
  let sum1 := Z.lxor (Z.lxor (rotr 6 e) (rotr 11 e)) (rotr 25 e) in
  let choice := Z.lxor (Z.land e f) (Z.land (2 ^ 32 - 1 - e) g) in
  let t1 := u32 (h + sum1 + choice + k + word 0%nat) in
  let sum0 := Z.lxor (Z.lxor (rotr 2 a) (rotr 13 a)) (rotr 22 a) in
  let majority := Z.lxor (Z.lxor (Z.land a b) (Z.land a c)) (Z.land b c) in
  let t2 := u32 (sum0 + majority) in
  let s0 := Z.lxor (Z.lxor (rotr 7 (word 1%nat)) (rotr 18 (word 1%nat))) (Z.shiftr (word 1%nat) 3) in
  let s1 := Z.lxor (Z.lxor (rotr 17 (word 14%nat)) (rotr 19 (word 14%nat))) (Z.shiftr (word 14%nat) 10) in
  let next := u32 (s1 + word 9%nat + s0 + word 0%nat) in
  (mkDigest (u32 (t1 + t2)) a b c (u32 (d + t1)) e f g, (skipn 1 window ++ [next])%list).

Definition compress (h : digest_state) (block : list byte) : digest_state :=
  let r := fst (fold_left round round_constants (h, words 16 block)) in
  mkDigest (u32 (ha h + ha r)) (u32 (hb h + hb r)) (u32 (hc h + hc r)) (u32 (hd h + hd r))
           (u32 (he h + he r)) (u32 (hf h + hf r)) (u32 (hg h + hg r)) (u32 (hh h + hh r)).

Fixpoint compress_blocks (count : nat) (h : digest_state) (bytes : list byte) : digest_state :=
  match count with
  | O => h
  | S count => compress_blocks count (compress h (firstn 64 bytes)) (skipn 64 bytes)
  end.

Definition sha256 (message : list byte) : list byte :=
  let padded := pad message in
  let h := compress_blocks (length padded / 64) initial_digest padded in
  (be_word (ha h) ++ be_word (hb h) ++ be_word (hc h) ++ be_word (hd h)
   ++ be_word (he h) ++ be_word (hf h) ++ be_word (hg h) ++ be_word (hh h))%list.

(** [fmt.Sprintf] of a byte slice with the verb [x]. *)
Definition hex_digit (n : Z) : byte :=
  byte.of_Z (if n <? 10 then 48 + n else 87 + n).

Definition hex_of (bytes : list byte) : string :=
  String.string_of_list_byte
    (flat_map (fun b => [hex_digit (Z.shiftr (byte.unsigned b) 4); hex_digit (Z.land (byte.unsigned b) 15)]) bytes).

Lemma sha256_length message : length (sha256 message) = 32%nat.
Proof. unfold sha256, be_word. rewrite !length_app, !length_rev, !length_le_split. done. Qed.

(** A message fills its blocks exactly. *)
Lemma pad_blocks message : (length (pad message) mod 64 = 0)%nat.
Proof.
  unfold pad. rewrite length_app. cbn [length]. rewrite length_app, length_replicate, length_rev, length_le_split.
  set (n := length message).
  pose proof (Nat.mod_upper_bound n 64 ltac:(done)) as Hr.
  rewrite (Nat.div_mod_eq n 64) at 1.
  generalize dependent (n mod 64)%nat. intros r Hr.
  replace (64 * (n / 64) + r + S ((119 - r) mod 64 + 8))%nat
    with ((r + S ((119 - r) mod 64 + 8)) + (n / 64) * 64)%nat by lia.
  rewrite Nat.Div0.mod_add.
  do 64 (destruct r as [|r]; [reflexivity|]). lia.
Qed.

(** The digests of the standard's examples. *)
Lemma sha256_abc :
  hex_of (sha256 (String.list_byte_of_string "abc")) =
  "ba7816bf8f01cfea414140de5dae2223b00361a396177a9cb410ff61f20015ad"%string.
Proof. vm_compute. reflexivity. Qed.

Lemma sha256_two_blocks :
  hex_of (sha256 (String.list_byte_of_string "abcdbcdecdefdefgefghfghighijhijkijkljklmklmnlmnomnopnopq")) =
  "248d6a61d20638b8e5c026930c3e6039a33ce45964ff2167f6ecedd419db06c1"%string.
Proof. vm_compute. reflexivity. Qed.
