(* ===== verification/Tables.v ===== *)
(** * Tables of the durable library

    The schema of [internal/repository/migrations], as the last migration
    leaves it: a row type per table, the tables as finite maps from their
    primary keys, and the statements that fire triggers or cascade.  A
    statement that a constraint or a trigger aborts is an error and changes
    nothing.  The counters [read_model_version], [read_version] and
    [storage_catalog_version], the time columns and [piece_completion] are left
    out: no modelled operation reads them.  An integer column is a [Z]. *)

From stdpp Require Import base gmap list strings.
From Stdlib Require Import ZArith Strings.Byte Lia.
From S2P Require Import Prelude Models.

#[local] Open Scope Z_scope.

(** ** Errors *)

Inductive RepoError :=
| ErrTorrentNotFound
| ErrFileNotFound
| ErrInvalidPriority
| ErrMetadataPending
| ErrStateConflict
| ErrStaleObservation
| ErrDeletionCancelled
| ErrStorageQueueFull
| ErrResumeIntegrity
| ErrResumeDurability
| ErrVolumeUnregistered
| ErrNoRows
| ErrFastInvalid
| ErrFastBudget
| ErrFast (what : string)
| ErrMessage (message : string)
| ErrConstraint (what : string).

#[export] Instance RepoError_eq_dec : EqDecision RepoError.
Proof. solve_decision. Defined.

(** ** Rows *)

Record torrent_row := mkTorrentRow {
  t_name : string;
  t_title : string;
  t_data : string;
  t_poster : string;
  t_category : string;
  t_size : Z;
  t_downloaded : Z;
  t_state : TorrentState;
  t_error : string;
  t_source_uri : string;
  t_is_temporary : bool;
  (** The JSON text of the list, or [None] for the empty text. *)
  t_cleanup_paths : option (list string);
  t_cleanup_ready : bool;
  t_deletion_mode : string;
  t_deletion_error : string;
  t_progress_source : string;
  t_progress_observed_at : Z;
  t_piece_length : Z;
  t_num_pieces : Z;
  t_metadata_known : bool;
  t_metadata_format : string;
  t_catalog_version : string;
}.
#[export] Instance Eta_torrent_row : Eta torrent_row := fun r =>
  mkTorrentRow (t_name r) (t_title r) (t_data r) (t_poster r) (t_category r) (t_size r) (t_downloaded r)
    (t_state r) (t_error r) (t_source_uri r) (t_is_temporary r) (t_cleanup_paths r) (t_cleanup_ready r)
    (t_deletion_mode r) (t_deletion_error r) (t_progress_source r) (t_progress_observed_at r)
    (t_piece_length r) (t_num_pieces r) (t_metadata_known r) (t_metadata_format r) (t_catalog_version r).

Record file_row := mkFileRow {
  fi_path : string;
  fi_size : Z;
  fi_downloaded : Z;
  fi_priority : FilePriority;
  fi_is_media : bool;
  fi_offset : Z;
  fi_offset_known : bool;
  fi_metadata_path : string;
}.
#[export] Instance Eta_file_row : Eta file_row := fun r =>
  mkFileRow (fi_path r) (fi_size r) (fi_downloaded r) (fi_priority r) (fi_is_media r) (fi_offset r)
    (fi_offset_known r) (fi_metadata_path r).

Record intent_row := mkIntentRow {
  in_record_id : string;
  in_run : RunIntent;
  in_revision : Z;
  in_attachment : string;
  in_sequence : Z;
  in_applied : Z;
  in_observed_state : TorrentState;
  in_observed_error : string;
}.
#[export] Instance Eta_intent_row : Eta intent_row := fun r =>
  mkIntentRow (in_record_id r) (in_run r) (in_revision r) (in_attachment r) (in_sequence r) (in_applied r)
    (in_observed_state r) (in_observed_error r).

Record storage_row := mkStorageRow {
  st_version : Z;
  st_root : string;
  st_state : string;
  st_manifest : string;
  st_error : string;
  st_storage_id : string;
  st_revision : Z;
  st_prefix : string;
  st_name_hint : string;
}.
#[export] Instance Eta_storage_row : Eta storage_row := fun r =>
  mkStorageRow (st_version r) (st_root r) (st_state r) (st_manifest r) (st_error r) (st_storage_id r)
    (st_revision r) (st_prefix r) (st_name_hint r).

(** The columns [location_*], which are only carried. *)
Record location_row := mkLocationRow {
  lo_source : string;
  lo_target : string;
  lo_method : string;
  lo_extra_bytes : Z;
  lo_alternatives : Z;
  lo_alternative_bytes : Z;
  lo_analysis : string;
  lo_free_bytes : option Z;
}.
Definition no_location : location_row := mkLocationRow "" "" "" 0 0 0 "" None.

Record recovery_row := mkRecoveryRow {
  rc_record_id : string;
  rc_version : Z;
  rc_reason : string;
  rc_mode : string;
  rc_stage : string;
  rc_removed_data : string;
  rc_error : string;
  rc_failure_code : string;
  rc_journal : string;
  rc_location : location_row;
}.
#[export] Instance Eta_recovery_row : Eta recovery_row := fun r =>
  mkRecoveryRow (rc_record_id r) (rc_version r) (rc_reason r) (rc_mode r) (rc_stage r) (rc_removed_data r)
    (rc_error r) (rc_failure_code r) (rc_journal r) (rc_location r).

Record owner_row := mkOwnerRow {
  ow_record_id : string;
  ow_mapping_revision : Z;
  ow_mutation_epoch : Z;
  ow_generation : Z;
  ow_invalidated : bool;
}.
#[export] Instance Eta_owner_row : Eta owner_row := fun r =>
  mkOwnerRow (ow_record_id r) (ow_mapping_revision r) (ow_mutation_epoch r) (ow_generation r) (ow_invalidated r).

Record checkpoint_row := mkCheckpointRow {
  cp_payload : list byte;
  cp_revoked : list byte;
  cp_integrity : list byte;
}.

Record file_inventory_row := mkFileInventoryRow {
  fv_record_id : string;
  fv_mapping_revision : Z;
  fv_metadata_path : string;
  fv_size : Z;
  fv_expected : bool;
  fv_presence : string;
  fv_reason : string;
  fv_observed_at_ms : Z;
}.
#[export] Instance Eta_file_inventory_row : Eta file_inventory_row := fun r =>
  mkFileInventoryRow (fv_record_id r) (fv_mapping_revision r) (fv_metadata_path r) (fv_size r) (fv_expected r)
    (fv_presence r) (fv_reason r) (fv_observed_at_ms r).

Record inventory_row := mkInventoryRow {
  iv_mapping_revision : Z;
  iv_session : string;
  iv_status : string;
  iv_reason : string;
  iv_cursor : Z;
  iv_observed_at_ms : Z;
}.
#[export] Instance Eta_inventory_row : Eta inventory_row := fun r =>
  mkInventoryRow (iv_mapping_revision r) (iv_session r) (iv_status r) (iv_reason r) (iv_cursor r)
    (iv_observed_at_ms r).

(** ** The database *)

Definition kind_key (k : ActivationBlockKind) : nat + string :=
  match k with
  | BlockVerification => inl 0%nat
  | BlockMissingFiles => inl 1%nat
  | BlockLegacyError => inl 2%nat
  | BlockMetadataPersistence => inl 3%nat
  | BlockInvalidSelection => inl 4%nat
  | BlockOther s => inr s
  end.
Definition key_kind (k : nat + string) : ActivationBlockKind :=
  match k with
  | inl 0%nat => BlockVerification
  | inl 1%nat => BlockMissingFiles
  | inl 2%nat => BlockLegacyError
  | inl 3%nat => BlockMetadataPersistence
  | inl _ => BlockInvalidSelection
  | inr s => BlockOther s
  end.
#[export] Instance ActivationBlockKind_countable : Countable ActivationBlockKind.
Proof. apply (inj_countable' kind_key key_kind). by intros []. Defined.

Record db := mkDb {
  torrents : gmap string torrent_row;
  (** [torrent_order], in the order of its [id]. *)
  torrent_order : list string;
  files : gmap (string * Z) file_row;
  viewed_history : gset (string * Z);
  torrent_intents : gmap string intent_row;
  torrent_activation_blocks : gmap (string * ActivationBlockKind) string;
  torrent_download_blocks : gmap string string;
  torrent_storage : gmap string storage_row;
  storage_recovery : gmap string recovery_row;
  (** [kind] by storage, record, operation version and path. *)
  storage_claims : gmap (string * string * Z * string) string;
  resume_owners : gmap string owner_row;
  resume_checkpoints : gmap string checkpoint_row;
  file_inventory : gmap (string * Z) file_inventory_row;
  storage_inventory : gmap string inventory_row;
  inventory_session : string;
  (** Token and state by root. *)
  storage_volumes : gmap string (string * string);
  (** The pragmas [journal_mode] and [synchronous] of the connections. *)
  journal_mode : string;
  synchronous : Z;
}.
#[export] Instance Eta_db : Eta db := fun d =>
  mkDb (torrents d) (torrent_order d) (files d) (viewed_history d) (torrent_intents d)
    (torrent_activation_blocks d) (torrent_download_blocks d) (torrent_storage d) (storage_recovery d)
    (storage_claims d) (resume_owners d) (resume_checkpoints d) (file_inventory d) (storage_inventory d)
    (inventory_session d) (storage_volumes d) (journal_mode d) (synchronous d).

Definition empty_db : db :=
  mkDb ∅ [] ∅ ∅ ∅ ∅ ∅ ∅ ∅ ∅ ∅ ∅ ∅ ∅ "" ∅ "wal" 2.

(** A statement or a transaction: its value and the database after it. *)
Definition tx (A : Type) : Type := db -> result RepoError (A * db).

Notation "'let?' ' p ':=' c 'in' k" :=
  (match c with Ok p => k | Err e => Err e end)
  (at level 10, p strict pattern, c at level 100, k at level 200) : go_scope.

(** [BeginWrite], the body, and [Commit]; an early return rolls back.  A single
    statement outside a transaction is one of its own. *)
Definition atomically {A} (body : tx A) (d : db) : result RepoError A * db :=
  match body d with
  | Ok (a, d') => (Ok a, d')
  | Err e => (Err e, d)
  end.

(** A statement outside a transaction whose number of affected rows is tested
    after it took effect. *)
Definition affecting_one (statement : tx Z) (e : RepoError) (d : db) : result RepoError unit * db :=
  match statement d with
  | Ok (n, d') => (if n =? 1 then Ok tt else Err e, d')
  | Err e => (Err e, d)
  end.

(** ** Fences of the resume heads

    The triggers of the migrations 20 and 21 invalidate the heads that match a
    condition and advance their epoch; an exhausted epoch aborts. *)

Definition invalidate (o : owner_row) : owner_row :=
  o <| ow_invalidated := true |> <| ow_mutation_epoch := ow_mutation_epoch o + 1 |>.

Definition exhausted (check : string -> owner_row -> bool) (d : db) : bool :=
  existsb (fun '(sid, o) => check sid o && (ow_mutation_epoch o =? max_i64)) (map_to_list (resume_owners d)).

Definition fence_owners (check select : string -> owner_row -> bool) (d : db) : result RepoError db :=
  if exhausted check d then Err (ErrConstraint "resume epoch exhausted")
  else Ok (d <| resume_owners ::= map_imap (fun sid o => Some (if select sid o then invalidate o else o)) |>).

Definition fence_storage (storage_id : string) (d : db) : result RepoError db :=
  let select sid (_ : owner_row) := (sid =? storage_id)%string in fence_owners select select d.

Definition fence_record (record_id : string) (d : db) : result RepoError db :=
  let select (_ : string) o := (ow_record_id o =? record_id)%string in fence_owners select select d.

(** ** Recovery journals *)

Definition quiet_stage (stage : string) : bool :=
  (stage =? "planned")%string || (stage =? "analyzed")%string
  || (stage =? "completed")%string || (stage =? "cancelled")%string.

Definition storage_of_hash (d : db) (hash sid : string) : bool :=
  match torrent_storage d !! hash with Some s => (st_storage_id s =? sid)%string | None => false end.

(** The triggers [resume_journal_insert] and [resume_journal_update]. *)
Definition resume_journal (hash : string) (new : recovery_row) (d : db) : result RepoError db :=
  if quiet_stage (rc_stage new) then Ok d
  else fence_owners (fun _ o => (ow_record_id o =? rc_record_id new)%string)
         (fun sid o => (ow_record_id o =? rc_record_id new)%string && storage_of_hash d hash sid) d.

Definition set_recovery (hash : string) (new : recovery_row) (d : db) : db :=
  d <| storage_recovery ::= <[hash := new]> |>.

(** [UPDATE storage_recovery SET ... WHERE hash=? AND ...]. *)
Definition update_recovery (hash : string) (selected : recovery_row -> bool)
    (set : recovery_row -> recovery_row) : tx Z := fun d =>
  match storage_recovery d !! hash with
  | Some old =>
      if selected old then
        let? d := resume_journal hash (set old) d in
        Ok (1, set_recovery hash (set old) d)
      else Ok (0, d)
  | None => Ok (0, d)
  end.

(** [INSERT INTO storage_recovery ... ON CONFLICT(hash) DO UPDATE ...]: the
    trigger before the insertion fires also when the row exists. *)
Definition upsert_recovery (hash : string) (row : recovery_row)
    (conflict : recovery_row -> option recovery_row) : tx Z := fun d =>
  let? d := resume_journal hash row d in
  match storage_recovery d !! hash with
  | None =>
      if bool_decide (is_Some (torrents d !! hash)) then Ok (1, set_recovery hash row d)
      else Err (ErrConstraint "foreign key")
  | Some old =>
      match conflict old with
      | Some new =>
          let? d := resume_journal hash new d in
          Ok (1, set_recovery hash new d)
      | None => Ok (0, d)
      end
  end.

(** ** Torrents *)

Definition record_of_hash (d : db) (hash record : string) : bool :=
  match torrent_intents d !! hash with Some i => (in_record_id i =? record)%string | None => false end.

(** The trigger [resume_deletion_intent], before the update. *)
Definition resume_deletion_intent (hash : string) (old new : torrent_row) (d : db) : result RepoError db :=
  if negb (t_deletion_mode new =? "")%string && negb (t_deletion_mode old =? t_deletion_mode new)%string
  then let select (_ : string) o := record_of_hash d hash (ow_record_id o) in fence_owners select select d
  else Ok d.

(** The trigger [recovery_deletion_intent], after it. *)
Definition recovery_deletion_intent (hash : string) (old new : torrent_row) (d : db) : result RepoError db :=
  if (t_deletion_mode old =? "")%string && negb (t_deletion_mode new =? "")%string then
    match torrent_intents d !! hash with
    | None => Ok d
    | Some i =>
        let? '(_, d) := upsert_recovery hash
          (mkRecoveryRow (in_record_id i) 1 "deletion_pending" (t_deletion_mode new) "intent" "none" "" "" "" no_location)
          (fun r => Some (r <| rc_version := rc_version r + 1 |> <| rc_reason := "deletion_pending"%string |>
                            <| rc_stage := "intent"%string |> <| rc_removed_data := "none"%string |>
                            <| rc_error := ""%string |> <| rc_failure_code := ""%string |>
                            <| rc_mode := t_deletion_mode new |>)) d in
        Ok d
    end
  else Ok d.

(** [UPDATE torrents SET ... WHERE hash=? AND ...]. *)
Definition update_torrent (hash : string) (selected : torrent_row -> bool)
    (set : torrent_row -> torrent_row) : tx Z := fun d =>
  match torrents d !! hash with
  | Some old =>
      if selected old then
        let? d := resume_deletion_intent hash old (set old) d in
        let? d := recovery_deletion_intent hash old (set old) (d <| torrents ::= <[hash := set old]> |>) in
        Ok (1, d)
      else Ok (0, d)
  | None => Ok (0, d)
  end.

(** The run intent a new torrent starts with, by its state. *)
Definition initial_run (state : TorrentState) : RunIntent :=
  match state with
  | StateQueued | StateDownloading | StateSeeding | StateStreaming | StateDiskFull => RunEnabled
  | _ => RunPaused
  end.

Definition records (d : db) : list string := map (in_record_id ∘ snd) (map_to_list (torrent_intents d)).

(** [INSERT INTO torrents], with the triggers [torrent_order_insert] and
    [torrents_initialize_intent]; [random] is the hexadecimal [randomblob(16)]. *)
Definition insert_torrent (hash : string) (row : torrent_row) (random : string) : tx unit := fun d =>
  if bool_decide (is_Some (torrents d !! hash)) then Err (ErrConstraint "torrents.hash")
  else if bool_decide (hash ∈ torrent_order d) then Err (ErrConstraint "torrent_order.hash")
  else if bool_decide (is_Some (torrent_intents d !! hash)) then Err (ErrConstraint "torrent_intents.hash")
  else if bool_decide (random ∈ records d) then Err (ErrConstraint "torrent_intents.record_id")
  else Ok (tt, d <| torrents ::= <[hash := row]> |>
                 <| torrent_order := (torrent_order d ++ [hash])%list |>
                 <| torrent_intents ::= <[hash := mkIntentRow random (initial_run (t_state row)) 1 "" 0 0 StateNone ""]> |>).

(** The cascade of a deleted intent and the trigger [resume_record_delete]. *)
Definition delete_intent (hash : string) (d : db) : result RepoError db :=
  match torrent_intents d !! hash with
  | None => Ok d
  | Some i =>
      let? d := fence_record (in_record_id i) d in
      Ok (d <| torrent_intents ::= delete hash |>
            <| torrent_activation_blocks ::= filter (fun '((record, _), _) => record <> in_record_id i) |>)
  end.

(** [DELETE FROM torrents WHERE hash=?] with its cascades. *)
Definition delete_torrent_row (hash : string) (d : db) : result RepoError db :=
  match torrents d !! hash with
  | None => Ok d
  | Some _ =>
      let? d := delete_intent hash d in
      Ok (d <| torrents ::= delete hash |>
            <| torrent_order ::= filter (fun h => h <> hash) |>
            <| files ::= filter (fun '((h, _), _) => h <> hash) |>
            <| file_inventory ::= filter (fun '((h, _), _) => h <> hash) |>
            <| storage_recovery ::= delete hash |>)
  end.

(** ** Storage mappings *)

Definition same_geometry (a b : storage_row) : bool :=
  (st_root a =? st_root b)%string && (st_version a =? st_version b) && (st_prefix a =? st_prefix b)%string.

(** The trigger [resume_mapping_change]. *)
Definition resume_mapping_change (old new : storage_row) (d : db) : result RepoError db :=
  if (st_storage_id old =? st_storage_id new)%string && (st_revision old =? st_revision new)
     && same_geometry old new
  then Ok d else fence_storage (st_storage_id old) d.

(** The trigger [resume_mapping_workflow]. *)
Definition resume_mapping_workflow (old new : storage_row) (d : db) : result RepoError db :=
  if (negb (st_state new =? "ready")%string || negb (st_manifest new =? "")%string)
     && negb ((st_state old =? st_state new)%string && (st_manifest old =? st_manifest new)%string)
  then fence_storage (st_storage_id old) d else Ok d.

(** The trigger [inventory_mapping]. *)
Definition inventory_mapping (hash : string) (new : storage_row) (d : db) : db :=
  d <| storage_inventory ::= alter (fun v => v <| iv_mapping_revision := st_revision new |>
         <| iv_status := "pending"%string |> <| iv_cursor := -1 |> <| iv_observed_at_ms := 0 |>) (st_storage_id new) |>
    <| file_inventory ::= map_imap (fun '(h, _) v =>
         Some (if (h =? hash)%string then v <| fv_mapping_revision := st_revision new |>
                 <| fv_presence := "unknown"%string |> <| fv_observed_at_ms := 0 |> else v)) |>.

Definition set_storage (hash : string) (new : storage_row) (d : db) : db :=
  d <| torrent_storage ::= <[hash := new]> |>.

(** The trigger [storage_mapping_revision]: it updates the row once more. *)
Definition storage_mapping_revision (hash : string) (old new : storage_row) (d : db) : result RepoError db :=
  if same_geometry old new then Ok d
  else if max_i64 <=? st_revision old then Err (ErrConstraint "mapping revision exhausted")
  else
    let next := new <| st_revision := st_revision old + 1 |> in
    let? d := resume_mapping_change new next d in
    Ok (inventory_mapping hash next (set_storage hash next d)).

(** [UPDATE torrent_storage] of the row [old] with all its triggers; no
    statement sets [revision] itself. *)
Definition write_storage (hash : string) (old new : storage_row) (d : db) : result RepoError db :=
  let? d := resume_mapping_change old new d in
  let? d := resume_mapping_workflow old new d in
  storage_mapping_revision hash old new (set_storage hash new d).

(** The identity the trigger [storage_owner_insert] gives a row without one:
    that of another row with the same root, or a random one. *)
Definition inherited_storage_id (d : db) (hash root random : string) : string :=
  match list_find (fun '(h, s) => h <> hash /\ st_root s = root /\ root <> "" /\ st_storage_id s <> "")%string
          (map_to_list (torrent_storage d)) with
  | Some (_, (_, s)) => st_storage_id s
  | None => random
  end.

(** [INSERT INTO torrent_storage ... ON CONFLICT(hash) ...]: [conflict] is the
    row that replaces an existing one, if the clause updates it. *)
Definition upsert_storage (hash : string) (row : storage_row)
    (conflict : storage_row -> option storage_row) (random : string) : tx Z := fun d =>
  match torrent_storage d !! hash with
  | Some old =>
      match conflict old with
      | Some new => let? d := write_storage hash old new d in Ok (1, d)
      | None => Ok (0, d)
      end
  | None =>
      let d := set_storage hash row d in
      if (st_storage_id row =? "")%string then
        let? d := write_storage hash row
                    (row <| st_storage_id := inherited_storage_id d hash (st_root row) random |>) d in
        Ok (1, d)
      else Ok (1, d)
  end.

(** [DELETE FROM torrent_storage WHERE hash=?] of one row, with the trigger
    [resume_mapping_delete]. *)
Definition delete_storage (hash : string) (d : db) : result RepoError db :=
  match torrent_storage d !! hash with
  | None => Ok d
  | Some s =>
      let? d := fence_storage (st_storage_id s) d in
      Ok (d <| torrent_storage ::= delete hash |>)
  end.

(** A statement applied to the selected keys, one row after the other. *)
Fixpoint each_row {K} (step : K -> db -> result RepoError db) (keys : list K) (d : db) : result RepoError db :=
  match keys with
  | [] => Ok d
  | key :: keys => let? d := step key d in each_row step keys d
  end.

Definition storage_keys (selected : string -> storage_row -> bool) (d : db) : list string :=
  map fst (List.filter (fun '(hash, s) => selected hash s) (map_to_list (torrent_storage d))).

(** [UPDATE torrent_storage SET ... WHERE ...] of every selected row: how many. *)
Definition update_storage (selected : string -> storage_row -> bool) (set : storage_row -> storage_row) : tx Z := fun d =>
  let keys := storage_keys selected d in
  let? d := each_row (fun hash d =>
              match torrent_storage d !! hash with
              | Some old => write_storage hash old (set old) d
              | None => Ok d
              end) keys d in
  Ok (Z.of_nat (length keys), d).
