(* ===== verification/IntentStore.v ===== *)
(** * Intents, observations and activation blocks

    [internal/repository/intent.go] and the intent side of [catalog.go],
    [torrent_repo.go] and [download_blocks.go]: the commands on the durable run
    intent, the runtime fences and what a runtime may write under one.  A
    context that ends while an operation waits makes it fail without effect. *)

From stdpp Require Import base gmap list strings.
From Stdlib Require Import ZArith Strings.Byte Lia.
From S2P Require Import Prelude Models Paths Layout Sha256 Tables.

#[local] Open Scope Z_scope.

(** ** Commands and observations ([internal/models/intent.go]) *)

Record TorrentIntent := mkTorrentIntent {
  ti_Version : IntentVersion;
  ti_Run : RunIntent;
}.

Record FileObservation := mkFileObservation {
  fo_Index : Z;
  fo_VerifiedBytes : Z;
}.

Record UserMetadata := mkUserMetadata {
  um_Title : string;
  um_Data : string;
  um_Poster : string;
  um_Category : string;
}.

Record FileCatalog := mkFileCatalog {
  fc_MetadataPath : string;
  fc_Index : Z;
  fc_Path : string;
  fc_Size : Z;
  fc_Offset : Z;
  fc_IsMedia : bool;
}.

Record TorrentCatalog := mkTorrentCatalog {
  tc_Format : string;
  tc_Name : string;
  tc_Size : Z;
  tc_PieceLength : Z;
  tc_NumPieces : Z;
  tc_Files : list FileCatalog;
}.

Record NewTorrentRecord := mkNewTorrentRecord {
  nt_Hash : string;
  nt_Name : string;
  nt_SourceURI : string;
  nt_Run : RunIntent;
  nt_Temporary : bool;
  nt_Metadata : UserMetadata;
  nt_Catalog : option TorrentCatalog;
}.

Record RuntimeObservation := mkRuntimeObservation {
  ob_Fence : RuntimeFence;
  ob_Sequence : Z;
  ob_AppliedRevision : Z;
  ob_State : TorrentState;
  ob_Error : ErrorReason;
  ob_ProgressSource : string;
  ob_ObservedAt : Z;
  ob_VerifiedBytes : Z;
  ob_Files : list FileObservation;
}.

(** ** Conditions of the statements *)

(** [EXISTS(SELECT 1 FROM torrents t WHERE t.hash=? AND t.deletion_mode='')]. *)
Definition not_deleting (d : db) (hash : string) : bool :=
  match torrents d !! hash with Some t => (t_deletion_mode t =? "")%string | None => false end.

(** [EXISTS(SELECT 1 FROM torrent_storage s WHERE s.hash=? AND s.state='moving')]. *)
Definition moving (d : db) (hash : string) : bool :=
  match torrent_storage d !! hash with Some s => (st_state s =? "moving")%string | None => false end.

(** [EXISTS(SELECT 1 FROM torrent_activation_blocks b WHERE b.record_id=?)]. *)
Definition blocked (d : db) (record : string) : bool :=
  existsb (fun '((r, _), _) => (r =? record)%string) (map_to_list (torrent_activation_blocks d)).

Definition at_version (v : IntentVersion) (i : intent_row) : bool :=
  (in_record_id i =? iv_RecordID v)%string && (in_revision i =? iv_Revision v).

Definition at_fence (f : RuntimeFence) (i : intent_row) : bool :=
  at_version (rf_version f) i && (in_attachment i =? rf_Attachment f)%string.

Definition set_intent (hash : string) (i : intent_row) (d : db) : db :=
  d <| torrent_intents ::= <[hash := i]> |>.

(** [UPDATE torrent_intents SET ... WHERE hash=? AND ...]. *)
Definition update_intent (hash : string) (selected : intent_row -> bool)
    (set : intent_row -> intent_row) : tx Z := fun d =>
  match torrent_intents d !! hash with
  | Some i => if selected i then Ok (1, set_intent hash (set i) d) else Ok (0, d)
  | None => Ok (0, d)
  end.

Definition next_version (v : IntentVersion) : IntentVersion :=
  mkIntentVersion (iv_Hash v) (iv_RecordID v) (iv_Revision v + 1).

(** ** Run intent *)

Definition GetIntent (d : db) (hash : string) : option TorrentIntent :=
  (fun i => mkTorrentIntent (mkIntentVersion hash (in_record_id i) (in_revision i)) (in_run i))
    <$> torrent_intents d !! hash.

(** The deletion of the blocks an explicit retry may clear. *)
Definition clear_retryable (record : string) (d : db) : db :=
  d <| torrent_activation_blocks ::=
         filter (fun '((r, k), _) => ~ (r = record /\ ResumeRetryable k = true)) |>.

Definition command_state (run : RunIntent) : TorrentState :=
  if bool_decide (run = RunPaused) then StatePaused else StateQueued.

Definition commitRunIntent_tx (v : IntentVersion) (run : RunIntent) (retry : bool) : tx IntentVersion := fun d =>
  let d := if retry then clear_retryable (iv_RecordID v) d else d in
  let? '(n, d) := update_intent (iv_Hash v)
    (fun i => at_version v i && not_deleting d (iv_Hash v) && negb (moving d (iv_Hash v))
              && (bool_decide (run = RunPaused) || negb (blocked d (in_record_id i))))
    (fun i => i <| in_run := run |> <| in_revision := in_revision i + 1 |>) d in
  if negb (n =? 1) then Err ErrStateConflict
  else
    let? '(_, d) := update_torrent (iv_Hash v) (fun _ => true)
      (fun t => t <| t_state := command_state run |> <| t_error := ""%string |>) d in
    Ok (next_version v, d).

Definition commitRunIntent (d : db) (v : IntentVersion) (run : RunIntent) (retry : bool)
    : result RepoError IntentVersion * db :=
  if negb (RunIntent_Valid run) || (iv_Hash v =? "")%string || (iv_RecordID v =? "")%string
     || (iv_Revision v <? 1) || (iv_Revision v =? max_i64)
  then (Err (ErrMessage "invalid intent command"), d)
  else atomically (commitRunIntent_tx v run retry) d.

Definition CommitRunIntent (d : db) (v : IntentVersion) (run : RunIntent) := commitRunIntent d v run false.
Definition CommitResumeRetry (d : db) (v : IntentVersion) := commitRunIntent d v RunEnabled true.

(** ** Runtime attachments *)

(** [token] is the hexadecimal text of the sixteen random bytes. *)
Definition AttachRuntime (d : db) (v : IntentVersion) (token : string) : result RepoError RuntimeFence * db :=
  match affecting_one (update_intent (iv_Hash v)
          (fun i => at_version v i && (in_revision i >? 0) && not_deleting d (iv_Hash v) && negb (moving d (iv_Hash v)))
          (fun i => i <| in_attachment := token |> <| in_sequence := 0 |> <| in_applied := 0 |>)) ErrStateConflict d with
  | (Ok _, d) => (Ok (mkRuntimeFence v token), d)
  | (Err e, d) => (Err e, d)
  end.

(** ** Observations *)

(** The loop over the observed files: their total, or the error. *)
Fixpoint check_observed (observed : list FileObservation) (seen : gset Z) (fileBytes : Z) : result RepoError Z :=
  match observed with
  | [] => Ok fileBytes
  | f :: observed =>
      if (fo_Index f <? 0) || (fo_VerifiedBytes f <? 0) || bool_decide (fo_Index f ∈ seen)
         || (fo_VerifiedBytes f >? max_i64 - fileBytes)
      then Err (ErrMessage "invalid file observation")
      else check_observed observed ({[fo_Index f]} ∪ seen) (i64 (fileBytes + fo_VerifiedBytes f))
  end.

(** The files of a torrent by index. *)
Definition files_of (d : db) (hash : string) : list (Z * file_row) :=
  omap (fun '((h, i), f) => if (h =? hash)%string then Some (i, f) else None) (map_to_list (files d)).

(** The expectation that a verified file is present. *)
Definition expect_file (o : RuntimeObservation) (index : Z) (d : db) : db :=
  let hash := iv_Hash (rf_version (ob_Fence o)) in
  let record := iv_RecordID (rf_version (ob_Fence o)) in
  match files d !! (hash, index), torrent_storage d !! hash with
  | Some f, Some s =>
      if negb (st_state s =? "ready")%string then d
      else
        let excluded := mkFileInventoryRow record (st_revision s) (fi_path f) (fi_size f) true "present" ""
                          (Z.quot (ob_ObservedAt o) 1000000) in
        match file_inventory d !! (hash, index) with
        | Some old =>
            if negb (fv_expected old) || negb (fv_record_id old =? record)%string
               || negb (fv_mapping_revision old =? st_revision s)
               || negb (fv_metadata_path old =? fi_path f)%string || negb (fv_size old =? fi_size f)
            then d <| file_inventory ::= <[(hash, index) := excluded]> |>
            else d
        | None => d <| file_inventory ::= <[(hash, index) := excluded]> |>
        end
  | _, _ => d
  end.

(** The loop that writes the observed files; [values] was read before it. *)
Fixpoint save_observed (o : RuntimeObservation) (verified : bool) (values : gmap (string * Z) file_row)
    (observed : list FileObservation) (d : db) : result RepoError db :=
  match observed with
  | [] => Ok d
  | f :: observed =>
      let key := (iv_Hash (rf_version (ob_Fence o)), fo_Index f) in
      match values !! key with
      | None => Err ErrFileNotFound
      | Some current =>
          if fo_VerifiedBytes f >? fi_size current then Err ErrFileNotFound
          else
            let d := if verified && negb (fo_VerifiedBytes f =? fi_downloaded current)
                     then d <| files ::= alter (fun r => r <| fi_downloaded := fo_VerifiedBytes f |>) key |> else d in
            let d := if verified && (fo_VerifiedBytes f >? 0) then expect_file o (fo_Index f) d else d in
            save_observed o verified values observed d
      end
  end.

Definition verified_source (o : RuntimeObservation) : bool := (ob_ProgressSource o =? "verified")%string.

Definition save_progress (o : RuntimeObservation) (fileBytes : Z) (d : db) : result RepoError db :=
  let hash := iv_Hash (rf_version (ob_Fence o)) in
  if negb (length (files_of d hash) =? length (ob_Files o))%nat || negb (fileBytes =? ob_VerifiedBytes o)
  then Err (ErrMessage "verified observation must cover the complete file catalog")
  else
    let? '(n, d) := update_torrent hash
      (fun t => (ob_VerifiedBytes o >=? 0) && (ob_VerifiedBytes o <=? t_size t))
      (fun t => t <| t_downloaded := ob_VerifiedBytes o |> <| t_progress_source := "verified"%string |>
                  <| t_progress_observed_at := ob_ObservedAt o |>) d in
    if negb (n =? 1) then Err (ErrMessage "verified bytes exceed catalog size") else Ok d.

Definition SaveRuntimeObservation_tx (o : RuntimeObservation) (fileBytes : Z) : tx unit := fun d =>
  let fence := ob_Fence o in
  let hash := iv_Hash (rf_version fence) in
  let? '(n, d) := update_intent hash
    (fun i => at_fence fence i && (in_sequence i <? ob_Sequence o) && not_deleting d hash && negb (moving d hash))
    (fun i => i <| in_sequence := ob_Sequence o |> <| in_applied := ob_AppliedRevision o |>
                <| in_observed_state := ob_State o |> <| in_observed_error := ob_Error o |>) d in
  if negb (n =? 1) then Err ErrStaleObservation
  else
    let? d := if verified_source o then save_progress o fileBytes d else Ok d in
    let? d := save_observed o (verified_source o) (files d) (ob_Files o) d in
    Ok (tt, d).

Definition SaveRuntimeObservation (d : db) (o : RuntimeObservation) : result RepoError unit * db :=
  let fence := ob_Fence o in
  let version := rf_version fence in
  if (iv_Hash version =? "")%string || (iv_RecordID version =? "")%string || (rf_Attachment fence =? "")%string
     || (iv_Revision version <? 1) || (ob_Sequence o <? 1) || (ob_AppliedRevision o <? 0)
     || (ob_AppliedRevision o >? iv_Revision version) || (ob_VerifiedBytes o <? 0)
  then (Err (ErrMessage "invalid runtime observation"), d)
  else if negb (ob_ProgressSource o =? "unknown")%string && negb (ob_ProgressSource o =? "checking")%string
          && negb (verified_source o) || verified_source o && (ob_ObservedAt o <=? 0)
  then (Err (ErrMessage "invalid observation provenance"), d)
  else match check_observed (ob_Files o) ∅ 0 with
       | Err e => (Err e, d)
       | Ok fileBytes => atomically (SaveRuntimeObservation_tx o fileBytes) d
       end.

(** ** Activation blocks *)

(** [INSERT INTO torrent_activation_blocks SELECT record_id,... FROM
    torrent_intents WHERE ... ON CONFLICT DO UPDATE]. *)
Definition put_block (hash : string) (selected : intent_row -> bool) (kind : ActivationBlockKind)
    (reason : string) : tx Z := fun d =>
  match torrent_intents d !! hash with
  | Some i =>
      if selected i then Ok (1, d <| torrent_activation_blocks ::= <[(in_record_id i, kind) := reason]> |>)
      else Ok (0, d)
  | None => Ok (0, d)
  end.

Definition PutActivationBlock (d : db) (f : RuntimeFence) (kind : ActivationBlockKind) (reason : string)
    : result RepoError unit * db :=
  if negb (ActivationBlockKind_Valid kind) || (reason =? "")%string || (rf_Attachment f =? "")%string
  then (Err (ErrMessage "invalid activation block"), d)
  else affecting_one (put_block (iv_Hash (rf_version f)) (at_fence f) kind reason) ErrStateConflict d.

Definition safety_kind (kind : ActivationBlockKind) : bool :=
  match kind with
  | BlockMetadataPersistence | BlockInvalidSelection | BlockMissingFiles => true
  | _ => false
  end.

Definition PutRuntimeSafetyBlock (d : db) (f : RuntimeFence) (kind : ActivationBlockKind) (reason : string)
    : result RepoError unit * db :=
  let v := rf_version f in
  if negb (safety_kind kind) || (reason =? "")%string || (rf_Attachment f =? "")%string || (iv_Revision v <? 1)
  then (Err (ErrMessage "invalid runtime safety block"), d)
  else affecting_one (put_block (iv_Hash v)
         (fun i => (in_record_id i =? iv_RecordID v)%string && (in_revision i >=? iv_Revision v)
                   && (in_attachment i =? rf_Attachment f)%string) kind reason) ErrStateConflict d.

Definition ClearActivationBlock (d : db) (f : RuntimeFence) (kind : ActivationBlockKind)
    : result RepoError unit * db :=
  if negb (ActivationBlockKind_Valid kind) || (rf_Attachment f =? "")%string
  then (Err (ErrMessage "invalid activation block kind"), d)
  else atomically (fun d =>
    match torrent_intents d !! iv_Hash (rf_version f) with
    | Some i =>
        if at_fence f i
        then Ok (tt, d <| torrent_activation_blocks ::= delete (iv_RecordID (rf_version f), kind) |>)
        else Err ErrStateConflict
    | None => Err ErrStateConflict
    end) d.

(** The kinds in the order of their names. *)
Definition kinds_by_name : list ActivationBlockKind :=
  [BlockInvalidSelection; BlockLegacyError; BlockMetadataPersistence; BlockMissingFiles; BlockVerification].

Definition ActivationBlocks (d : db) (v : IntentVersion) : list (ActivationBlockKind * string) :=
  match torrent_intents d !! iv_Hash v with
  | Some i =>
      if at_version v i
      then omap (fun k => (fun reason => (k, reason)) <$> torrent_activation_blocks d !! (in_record_id i, k)) kinds_by_name
      else []
  | None => []
  end.

(** ** Download blocks *)

Definition SaveDownloadBlock (d : db) (hash reason : string) : db :=
  if (reason =? "")%string then d <| torrent_download_blocks ::= delete hash |>
  else d <| torrent_download_blocks ::= <[hash := reason]> |>.

Definition DownloadBlock (d : db) (hash : string) : string :=
  default EmptyString (torrent_download_blocks d !! hash).

(** ** Catalog and metadata commands *)

Definition advanceIntent (v : IntentVersion) : tx unit := fun d =>
  if (iv_Revision v <? 1) || (iv_Revision v =? max_i64) || (iv_RecordID v =? "")%string then Err ErrStateConflict
  else
    let? '(n, d) := update_intent (iv_Hash v) (fun i => at_version v i && not_deleting d (iv_Hash v))
      (fun i => i <| in_revision := in_revision i + 1 |>) d in
    if negb (n =? 1) then Err ErrStateConflict else Ok (tt, d).

Definition intentVersionTx (d : db) (hash : string) : result RepoError IntentVersion :=
  match torrent_intents d !! hash with
  | Some i => Ok (mkIntentVersion hash (in_record_id i) (in_revision i))
  | None => Err ErrNoRows
  end.

Definition requireFence (d : db) (f : RuntimeFence) : result RepoError unit :=
  let v := rf_version f in
  if (iv_RecordID v =? "")%string || (rf_Attachment f =? "")%string || (iv_Revision v <? 1) then Err ErrStateConflict
  else match torrent_intents d !! iv_Hash v with
       | Some i =>
           if at_fence f i && not_deleting d (iv_Hash v) && negb (moving d (iv_Hash v)) then Ok tt
           else Err ErrStateConflict
       | None => Err ErrStateConflict
       end.

Definition nonempty_or (new old : string) : string := if negb (new =? "")%string then new else old.

Definition changes_metadata (m : UserMetadata) (permanent : bool) (t : torrent_row) : bool :=
  let differs new old := negb (new =? "")%string && negb (new =? old)%string in
  permanent && t_is_temporary t || differs (um_Title m) (t_title t) || differs (um_Data m) (t_data t)
  || differs (um_Poster m) (t_poster t) || differs (um_Category m) (t_category t).

Definition CommitAddMetadata_tx (v : IntentVersion) (m : UserMetadata) (permanent : bool) : tx IntentVersion := fun d =>
  match torrents d !! iv_Hash v, torrent_intents d !! iv_Hash v with
  | Some t, Some i =>
      if negb (t_deletion_mode t =? "")%string || moving d (iv_Hash v) then Err ErrStateConflict
      else if negb (bool_decide (mkIntentVersion (iv_Hash v) (in_record_id i) (in_revision i) = v)) then Err ErrStateConflict
      else if negb (changes_metadata m permanent t) then Ok (v, d)
      else
        let? '(_, d) := advanceIntent v d in
        let? '(_, d) := update_torrent (iv_Hash v) (fun _ => true)
          (fun t => t <| t_title := nonempty_or (um_Title m) (t_title t) |>
                      <| t_data := nonempty_or (um_Data m) (t_data t) |>
                      <| t_poster := nonempty_or (um_Poster m) (t_poster t) |>
                      <| t_category := nonempty_or (um_Category m) (t_category t) |>
                      <| t_is_temporary := if permanent then false else t_is_temporary t |>) d in
        Ok (next_version v, d)
  | _, _ => Err ErrStateConflict
  end.

Definition CommitAddMetadata (d : db) (v : IntentVersion) (m : UserMetadata) (permanent : bool)
    : result RepoError IntentVersion * db :=
  atomically (CommitAddMetadata_tx v m permanent) d.

Definition UpdateUserMetadata (d : db) (v : IntentVersion) (m : UserMetadata) := CommitAddMetadata d v m false.

Definition no_metadata : UserMetadata := mkUserMetadata "" "" "" "".

Definition MakePermanent (d : db) (hash : string) : result RepoError bool * db :=
  match GetIntent d hash with
  | None => (Ok false, d)
  | Some i =>
      match CommitAddMetadata d (ti_Version i) no_metadata true with
      | (Ok _, d) => (Ok true, d)
      | (Err e, d) => (Err e, d)
      end
  end.

(** *** Catalogs *)

Definition aligned_format (format : string) : bool := (format =? "v2")%string || (format =? "hybrid")%string.

(** The loop of [validateCatalog] from the file number [i]: size and pieces. *)
Fixpoint check_catalog_files (aligned : bool) (pieceLength : Z) (i : Z) (listed : list FileCatalog)
    (size offset pieces : Z) : result RepoError (Z * Z) :=
  match listed with
  | [] => Ok (size, pieces)
  | f :: listed =>
      if negb (fc_Index f =? i) || (fc_Size f <? 0) || negb (fc_Offset f =? offset)
         || (fc_Size f >? max_i64 - size) || (fc_Size f >? max_i64 - offset)
         || negb (is_ok (ValidateRelative (fc_Path f)))
      then Err (ErrMessage "invalid file catalog")
      else
        let size := i64 (size + fc_Size f) in
        let offset := i64 (offset + fc_Size f) in
        if aligned then
          let pieces := i64 (pieces + Z.quot (fc_Size f) pieceLength) in
          let rem := Z.rem (fc_Size f) pieceLength in
          if negb (rem =? 0) then
            let padding := pieceLength - rem in
            if padding >? max_i64 - offset then Err (ErrMessage "catalog offset overflow")
            else check_catalog_files aligned pieceLength (i + 1) listed size (i64 (offset + padding)) (i64 (pieces + 1))
          else check_catalog_files aligned pieceLength (i + 1) listed size offset pieces
        else check_catalog_files aligned pieceLength (i + 1) listed size offset pieces
  end.

Definition validateCatalog (c : TorrentCatalog) : result RepoError unit :=
  if (tc_Size c <? 0) || (tc_PieceLength c <=? 0) || (tc_NumPieces c <? 0)
     || negb ((tc_Format c =? "")%string || (tc_Format c =? "v1")%string || aligned_format (tc_Format c))
  then Err (ErrMessage "invalid catalog metadata")
  else
    let? '(size, pieces) := check_catalog_files (aligned_format (tc_Format c)) (tc_PieceLength c) 0 (tc_Files c) 0 0 0 in
    if negb (size =? tc_Size c) then Err (ErrMessage "inconsistent catalog size")
    else
      let pieces := if aligned_format (tc_Format c) then pieces
                    else Z.quot size (tc_PieceLength c) + (if Z.rem size (tc_PieceLength c) =? 0 then 0 else 1) in
      if negb (tc_Format c =? "")%string && negb (pieces =? tc_NumPieces c)
      then Err (ErrMessage "inconsistent catalog piece count") else Ok tt.

Section Catalog.
(** The text [encoding/json] gives for a catalog. *)
Context (catalog_json : TorrentCatalog -> list byte).

Definition catalogVersion (c : TorrentCatalog) : string := hex_of (sha256 (catalog_json c)).

(** Does the row of a known file contradict the catalog? *)
Definition file_conflicts (c : TorrentCatalog) (known : bool) (oldFormat : string) (index : Z) (r : file_row) : bool :=
  match (if index <? 0 then None else tc_Files c !! Z.to_nat index) with
  | None => true
  | Some f =>
      let legacyPath := negb known && (fi_path r =? path_join (tc_Name c) (fc_Path f))%string in
      negb (fi_metadata_path r =? "")%string && negb (fc_MetadataPath f =? "")%string
        && negb (fi_metadata_path r =? fc_MetadataPath f)%string
      || negb (fi_path r =? fc_Path f)%string && negb legacyPath
      || negb (fi_size r =? fc_Size f)
      || fi_offset_known r && negb (fi_offset r =? fc_Offset f)
         && (negb (oldFormat =? "")%string || (tc_Format c =? "")%string)
  end.

Definition save_file (hash : string) (d : db) (f : FileCatalog) : db :=
  let row := match files d !! (hash, fc_Index f) with
             | None => mkFileRow (fc_Path f) (fc_Size f) 0 0 (fc_IsMedia f) (fc_Offset f) true (fc_MetadataPath f)
             | Some r => r <| fi_path := fc_Path f |> <| fi_offset := fc_Offset f |> <| fi_offset_known := true |>
                           <| fi_is_media := fc_IsMedia f |>
                           <| fi_metadata_path := nonempty_or (fc_MetadataPath f) (fi_metadata_path r) |>
             end in
  d <| files ::= <[(hash, fc_Index f) := row]> |>.

Definition saveCatalogTx (hash : string) (c : TorrentCatalog) (d : db) : result RepoError db :=
  match torrents d !! hash with
  | None => Err ErrNoRows
  | Some t =>
      if t_metadata_known t && (negb (t_size t =? tc_Size c) || negb (t_piece_length t =? tc_PieceLength c)
                                || negb (t_num_pieces t =? tc_NumPieces c))
      then Err ErrStateConflict
      else if negb (t_metadata_format t =? "")%string && negb (t_metadata_format t =? tc_Format c)%string
      then Err ErrStateConflict
      else if existsb (fun '(index, r) => file_conflicts c (t_metadata_known t) (t_metadata_format t) index r)
                (files_of d hash)
      then Err ErrStateConflict
      else
        let? '(_, d) := update_torrent hash (fun _ => true)
          (fun t => t <| t_name := tc_Name c |> <| t_size := tc_Size c |> <| t_piece_length := tc_PieceLength c |>
                      <| t_num_pieces := tc_NumPieces c |> <| t_metadata_known := true |>
                      <| t_metadata_format := tc_Format c |> <| t_catalog_version := catalogVersion c |>) d in
        Ok (fold_left (save_file hash) (tc_Files c) d)
  end.

Definition SaveCatalog (d : db) (f : RuntimeFence) (c : TorrentCatalog) : result RepoError unit * db :=
  let v := rf_version f in
  match validateCatalog c with
  | Err e => (Err e, d)
  | Ok _ =>
      match torrents d !! iv_Hash v, torrent_intents d !! iv_Hash v with
      | Some t, Some i =>
          if at_fence f i && (t_deletion_mode t =? "")%string && negb (moving d (iv_Hash v)) then
            if (t_catalog_version t =? catalogVersion c)%string then (Ok tt, d)
            else atomically (fun d =>
              let? _ := requireFence d f in
              let? d := saveCatalogTx (iv_Hash v) c d in
              Ok (tt, d)) d
          else (Err ErrStateConflict, d)
      | _, _ => (Err ErrStateConflict, d)
      end
  end.

(** [random] is the record identity the trigger draws. *)
Definition CreateTorrent (d : db) (n : NewTorrentRecord) (random : string) : result RepoError unit * db :=
  if (nt_Hash n =? "")%string || negb (RunIntent_Valid (nt_Run n))
  then (Err (ErrMessage "invalid new torrent record"), d)
  else
    match (match nt_Catalog n with Some c => validateCatalog c | None => Ok tt end) with
    | Err e => (Err e, d)
    | Ok _ => atomically (fun d =>
        let m := nt_Metadata n in
        let? '(_, d) := insert_torrent (nt_Hash n)
          (mkTorrentRow (nt_Name n) (um_Title m) (um_Data m) (um_Poster m) (um_Category m) 0 0
             (command_state (nt_Run n)) "" (nt_SourceURI n) (nt_Temporary n) None false "" "" "unknown" 0 0 0 false "" "")
          random d in
        match nt_Catalog n with
        | Some c => let? d := saveCatalogTx (nt_Hash n) c d in Ok (tt, d)
        | None => Ok (tt, d)
        end) d
    end.

End Catalog.

(** *** File priorities *)

Definition updatePriority_tx (hash : string) (index : option Z) (priority : FilePriority) : tx unit := fun d =>
  let selected i := match index with Some index => index =? i | None => true end in
  if existsb (fun '(i, _) => selected i) (files_of d hash) then
    let d := d <| files ::= map_imap (fun '(h, i) r =>
                 Some (if (h =? hash)%string && selected i then r <| fi_priority := priority |> else r)) |> in
    let? v := intentVersionTx d hash in
    advanceIntent v d
  else if negb (bool_decide (is_Some (torrents d !! hash))) then Err ErrTorrentNotFound
  else if (length (files_of d hash) =? 0)%nat then Err ErrMetadataPending
  else Err ErrFileNotFound.

Definition UpdateFilePriority (d : db) (hash : string) (fileIndex : Z) (priority : FilePriority)
    : result RepoError unit * db :=
  if (fileIndex <? 0) || negb (ValidFilePriority priority) then (Err ErrInvalidPriority, d)
  else atomically (updatePriority_tx hash (Some fileIndex) priority) d.

Definition UpdateTorrentFilesPriority (d : db) (hash : string) (priority : FilePriority)
    : result RepoError unit * db :=
  if negb (ValidFilePriority priority) then (Err ErrInvalidPriority, d)
  else atomically (updatePriority_tx hash None priority) d.

(** ** The queue of temporary torrents *)

Definition TemporaryQueue (d : db) : list string :=
  List.filter (fun hash => match torrents d !! hash with Some t => t_is_temporary t | None => false end)
    (torrent_order d).
