(* ===== verification/StorageStore.v ===== *)
(** * Storage mappings, operations and deletions

    [internal/repository/storage*.go], [recovery.go], [cleanup.go] and
    [DeleteTorrent]: where the payload of a torrent lies, the namespace claims
    of a running storage operation, the recovery journal, the deletion workflow
    and its cancellation, and the inventory of files. *)

From stdpp Require Import base gmap list strings.
From Stdlib Require Import ZArith Lia.
From S2P Require Import Prelude Models Paths Layout FastResume Tables IntentStore.

#[local] Open Scope Z_scope.

(** A [StorageMapping]: the row of a hash. *)
Record StorageMapping := mkStorageMapping {
  m_Hash : string;
  m_row : storage_row;
}.

Definition m_StorageID (m : StorageMapping) : string := st_storage_id (m_row m).
Definition m_Revision (m : StorageMapping) : Z := st_revision (m_row m).

Definition mapping_layout (m : StorageMapping) : Layout :=
  mkLayout (st_version (m_row m)) (st_root (m_row m)) (st_prefix (m_row m)).

Definition Ready (m : StorageMapping) : bool :=
  (st_state (m_row m) =? "ready")%string && (st_manifest (m_row m) =? "")%string
  && is_ok (Layout_Validate (mapping_layout m)).

(** A [RecoveryRecord]: the row of a hash. *)
Record RecoveryRecord := mkRecoveryRecord {
  v_Hash : string;
  v_row : recovery_row;
}.

(** ** Mappings *)

Definition find_mapping (d : db) (hash : string) : option StorageMapping :=
  mkStorageMapping hash <$> torrent_storage d !! hash.

(** [random] is the identity the trigger [storage_owner_insert] draws, here and
    below. *)
Definition SaveStorageMapping (d : db) (m : StorageMapping) (random : string) : result RepoError Z * db :=
  let new := m_row m in
  atomically (upsert_storage (m_Hash m) (new <| st_revision := 1 |>)
    (fun old => Some (new <| st_storage_id := st_storage_id old |> <| st_revision := st_revision old |>)) random) d.

Definition EnsureStorageMapping (d : db) (m : StorageMapping) (random : string) : result RepoError Z * db :=
  atomically (upsert_storage (m_Hash m) ((m_row m) <| st_revision := 1 |>) (fun _ => None) random) d.

Definition SaveStorageAlias (d : db) (m : StorageMapping) (random : string) : result RepoError unit * db :=
  let new := m_row m in
  affecting_one (upsert_storage (m_Hash m) (new <| st_revision := Z.max 1 (st_revision new) |>)
    (fun old =>
       if (st_root old =? st_root new)%string
          && ((st_storage_id new =? "")%string || (st_storage_id old =? st_storage_id new)%string)
       then Some (old <| st_version := st_version new |> <| st_state := st_state new |>
                      <| st_manifest := st_manifest new |> <| st_error := st_error new |>
                      <| st_prefix := st_prefix new |>)
       else None) random) ErrStateConflict d.

Definition SaveStorageMappingForRecord (d : db) (m : StorageMapping) (recordID random : string)
    : result RepoError unit * db :=
  let new := m_row m in
  affecting_one (fun d =>
    if record_of_hash d (m_Hash m) recordID then
      upsert_storage (m_Hash m) (new <| st_revision := 1 |>)
        (fun old => Some (new <| st_storage_id := st_storage_id old |> <| st_revision := st_revision old |>)) random d
    else Ok (0, d)) ErrStateConflict d.

Definition claimable (s : storage_row) : bool := (st_state s =? "ready")%string || (st_state s =? "reserved")%string.

Definition ClaimStorageAlias (d : db) (alias owner random : string) : result RepoError unit * db :=
  match atomically (fun d =>
          match torrent_storage d !! owner with
          | Some s =>
              if claimable s && (st_manifest s =? "")%string
              then upsert_storage alias (s <| st_manifest := ""%string |> <| st_error := ""%string |>) (fun _ => None) random d
              else Ok (0, d)
          | None => Ok (0, d)
          end) d with
  | (Err e, d) => (Err e, d)
  | (Ok _, d) =>
      match torrent_storage d !! alias, torrent_storage d !! owner with
      | Some a, Some o =>
          if negb (st_root a =? st_root o)%string || negb (st_storage_id a =? st_storage_id o)%string
             || negb (st_prefix a =? st_prefix o)%string || negb (st_revision a =? st_revision o)
             || negb (claimable a)
          then (Err (ErrMessage "storage alias conflict"), d) else (Ok tt, d)
      | _, _ => (Err (ErrMessage "storage alias conflict"), d)
      end
  end.

(** The torrents a hash may stand for: itself and its aliases. *)
Definition owner_candidates (d : db) (hash : string) : list string :=
  List.filter (fun h => (h =? hash)%string ||
      match torrent_storage d !! h, torrent_storage d !! hash with
      | Some s, Some alias => (st_storage_id s =? st_storage_id alias)%string && negb (st_storage_id s =? "")%string
      | _, _ => false
      end)
    (map fst (map_to_list (torrents d))).

Fixpoint single_owner (candidates : list string) (owner : string) : result RepoError string :=
  match candidates with
  | [] => Ok owner
  | next :: candidates =>
      if negb (owner =? "")%string && negb (owner =? next)%string then Err ErrStateConflict
      else single_owner candidates next
  end.

Definition StorageOwner (d : db) (hash : string) : result RepoError string :=
  single_owner (owner_candidates d hash) "".

Definition SetStoragePreparationError (d : db) (m : StorageMapping) (recordID message : string)
    : result RepoError bool * db :=
  match atomically (update_storage
          (fun _ s => (st_storage_id s =? m_StorageID m)%string && (st_revision s =? m_Revision m)
                      && negb (st_error s =? message)%string && record_of_hash d (m_Hash m) recordID)
          (fun s => s <| st_error := message |>)) d with
  | (Ok n, d) => (Ok (n >? 0), d)
  | (Err e, d) => (Err e, d)
  end.

(** ** Fences and claims *)

Definition same_mapping (m : StorageMapping) (s : storage_row) : bool :=
  (st_storage_id s =? m_StorageID m)%string && (st_revision s =? m_Revision m) && same_geometry s (m_row m).

Definition checkStorageFence (d : db) (m : StorageMapping) (id : string) : result RepoError unit :=
  match torrent_storage d !! m_Hash m with
  | Some s =>
      if record_of_hash d (m_Hash m) id && same_mapping m s && not_deleting d (m_Hash m) then Ok tt
      else Err ErrStateConflict
  | None => Err ErrStateConflict
  end.

(** The owner and path of every claim and of every root. *)
Definition occupied (d : db) : list (string * string) :=
  (map (fun '((sid, _, _, path), _) => (sid, path)) (map_to_list (storage_claims d))
   ++ omap (fun '(_, s) => if (st_root s =? "")%string then None else Some (st_storage_id s, st_root s))
        (map_to_list (torrent_storage d)))%list.

Section Namespace.
(** [strings.ToLower] after Unicode normalisation, as in [CollisionKey]. *)
Context (fold : string -> string).

Definition collides (a b : string) : bool := Overlap (CollisionKey fold a) (CollisionKey fold b).

Definition checkStorageClaims (d : db) (owner path : string) : result RepoError unit :=
  if existsb (fun '(id, other) => negb (id =? owner)%string && collides path other) (occupied d)
  then Err ErrStateConflict else Ok tt.

Definition layout_error (e : LayoutError) : RepoError := ErrMessage "invalid layout".

Definition setStorageLayoutTx (before : StorageMapping) (recordID : string) (next : Layout) (d : db)
    : result RepoError db :=
  match Layout_Validate next with
  | Err e => Err (layout_error e)
  | Ok _ =>
      let? _ := checkStorageClaims d (m_StorageID before) (l_Root next) in
      let owned := if negb (recordID =? "")%string then record_of_hash d (m_Hash before) recordID
                   else forallb (fun hash => negb (storage_of_hash d hash (m_StorageID before)))
                          (map fst (map_to_list (torrents d))) in
      if negb owned then Err ErrStateConflict
      else if negb (match torrent_storage d !! m_Hash before with Some s => same_mapping before s | None => false end)
      then Err ErrStateConflict
      else if existsb (fun '(_, s) =>
                if (st_storage_id s =? m_StorageID before)%string then negb (same_mapping before s)
                else negb (st_root s =? "")%string && collides (st_root s) (l_Root next))
                (map_to_list (torrent_storage d))
      then Err ErrStateConflict
      else
        let? '(_, d) := update_storage
          (fun _ s => (st_storage_id s =? m_StorageID before)%string && (st_revision s =? m_Revision before))
          (fun s => s <| st_root := l_Root next |> <| st_version := l_Version next |> <| st_prefix := l_Prefix next |>
                      <| st_state := "ready"%string |> <| st_error := ""%string |>) d in
        Ok d
  end.

Definition SetStorageLayout (d : db) (before : StorageMapping) (recordID : string) (next : Layout)
    : result RepoError unit * db :=
  match Layout_Validate next with
  | Err e => (Err (layout_error e), d)
  | Ok _ => atomically (fun d => let? d := setStorageLayoutTx before recordID next d in Ok (tt, d)) d
  end.

(** ** Storage operations *)

Record StorageClaim := mkStorageClaim {
  sc_StorageID : string;
  sc_RecordID : string;
  sc_Version : Z;
  sc_Path : string;
  sc_Kind : string;
}.

Fixpoint check_claims (d : db) (m : StorageMapping) (v : RecoveryRecord) (claims : list StorageClaim)
    : result RepoError unit :=
  match claims with
  | [] => Ok tt
  | c :: claims =>
      if negb (sc_StorageID c =? m_StorageID m)%string || negb (sc_RecordID c =? rc_record_id (v_row v))%string
         || negb (sc_Version c =? rc_version (v_row v)) || negb (is_ok (ValidateRelative (sc_Path c)))
      then Err ErrStateConflict
      else
        let? _ := checkStorageClaims d (sc_StorageID c) (sc_Path c) in
        check_claims d m v claims
  end.

Definition claim_kind (kind : string) : bool :=
  (kind =? "source")%string || (kind =? "target")%string || (kind =? "staging")%string || (kind =? "retained")%string.

Definition insert_claim (c : StorageClaim) (d : db) : result RepoError db :=
  let key := (sc_StorageID c, sc_RecordID c, sc_Version c, sc_Path c) in
  if negb (claim_kind (sc_Kind c)) then Err (ErrConstraint "storage_claims.kind")
  else if bool_decide (is_Some (storage_claims d !! key)) then Err (ErrConstraint "storage_claims")
  else Ok (d <| storage_claims ::= <[key := sc_Kind c]> |>).

Definition location_operation (r : recovery_row) : bool :=
  (rc_reason r =? "storage_move")%string || (rc_reason r =? "storage_locate")%string.

Definition pending_operations (d : db) : Z :=
  Z.of_nat (length (List.filter (fun '(_, r) => location_operation r && negb (quiet_stage (rc_stage r)))
                      (map_to_list (storage_recovery d)))).

Definition CreateStorageOperation_tx (m : StorageMapping) (v : RecoveryRecord) (previousVersion : Z)
    (claims : list StorageClaim) : tx unit := fun d =>
  let r := v_row v in
  let? _ := checkStorageFence d m (rc_record_id r) in
  let current := match storage_recovery d !! v_Hash v with
                 | Some old => if (rc_record_id old =? rc_record_id r)%string then rc_version old else 0
                 | None => 0
                 end in
  if negb (current =? previousVersion) || negb (rc_version r =? i64 (current + 1)) || (rc_version r <? 1)
  then Err ErrStateConflict
  else if pending_operations d >=? 64 then Err ErrStorageQueueFull
  else
    let? _ := check_claims d m v claims in
    let? '(_, d) := upsert_recovery (v_Hash v)
      (mkRecoveryRow (rc_record_id r) (rc_version r) (rc_reason r) "" (rc_stage r) "unknown" "" "" (rc_journal r) (rc_location r))
      (fun old => Some (old <| rc_version := rc_version r |> <| rc_reason := rc_reason r |> <| rc_stage := rc_stage r |>
                            <| rc_journal := rc_journal r |> <| rc_error := ""%string |> <| rc_failure_code := ""%string |>
                            <| rc_location := rc_location r |>)) d in
    let d := d <| storage_claims ::= filter (fun '((_, record, _, _), kind) =>
                    ~ (record = rc_record_id r /\ kind <> "retained"%string)) |> in
    let? d := each_row insert_claim claims d in
    Ok (tt, d).

Definition CreateStorageOperation (d : db) (m : StorageMapping) (v : RecoveryRecord) (previousVersion : Z)
    (claims : list StorageClaim) : result RepoError unit * db :=
  atomically (CreateStorageOperation_tx m v previousVersion claims) d.

(** The row of exactly this operation at the stage [from]. *)
Definition at_stage (v : RecoveryRecord) (from : string) (old : recovery_row) : bool :=
  (rc_record_id old =? rc_record_id (v_row v))%string && (rc_version old =? rc_version (v_row v))
  && (rc_reason old =? rc_reason (v_row v))%string && (rc_stage old =? from)%string.

Definition TransitionStorageOperation (d : db) (m : StorageMapping) (v : RecoveryRecord) (from : string)
    : result RepoError unit * db :=
  let r := v_row v in
  atomically (fun d =>
    let? _ := checkStorageFence d m (rc_record_id r) in
    let? '(n, d) := update_recovery (v_Hash v) (at_stage v from)
      (fun old => old <| rc_stage := rc_stage r |> <| rc_journal := rc_journal r |> <| rc_error := rc_error r |>
                      <| rc_failure_code := rc_failure_code r |> <| rc_location := rc_location r |>) d in
    if negb (n =? 1) then Err ErrStateConflict else Ok (tt, d)) d.

Definition inventory_reason : string := "Expected file absent during inventory".

Definition forget_inventory (record : string) (d : db) : db :=
  d <| file_inventory ::= filter (fun '(_, v) => fv_record_id v <> record) |>
    <| torrent_activation_blocks ::= filter (fun '((r, k), reason) =>
         ~ (r = record /\ k = BlockMissingFiles /\ reason = inventory_reason)) |>.

Definition CommitStorageOperation_tx (before : StorageMapping) (v : RecoveryRecord) (next : Layout) (paused : bool)
    : tx unit := fun d =>
  let r := v_row v in
  let? _ := checkStorageFence d before (rc_record_id r) in
  match storage_recovery d !! v_Hash v with
  | None => Err ErrNoRows
  | Some old =>
      if negb ((rc_record_id old =? rc_record_id r)%string && (rc_version old =? rc_version r)
               && (rc_reason old =? rc_reason r)%string) then Err ErrNoRows
      else if negb (rc_stage old =? "published")%string then Err ErrStateConflict
      else
        let? d := setStorageLayoutTx before (rc_record_id r) next d in
        let d := if paused then forget_inventory (rc_record_id r) d else d in
        let? '(_, d) := update_recovery (v_Hash v)
          (fun old => (rc_record_id old =? rc_record_id r)%string && (rc_version old =? rc_version r))
          (fun old => old <| rc_stage := "committed"%string |> <| rc_error := ""%string |>
                          <| rc_failure_code := ""%string |> <| rc_journal := rc_journal r |>) d in
        let d := d <| storage_claims ::= map_imap (fun '(_, record, version, _) kind =>
                        Some (if (record =? rc_record_id r)%string && (version =? rc_version r) && (kind =? "source")%string
                              then "retained"%string else kind)) |> in
        let d := d <| torrent_intents ::= fmap (fun i =>
                        if (in_record_id i =? rc_record_id r)%string
                        then i <| in_attachment := ""%string |> <| in_sequence := 0 |> <| in_applied := 0 |>
                               <| in_run := if paused then RunPaused else in_run i |>
                               <| in_revision := in_revision i +
                                    (if paused && negb (bool_decide (in_run i = RunPaused)) then 1 else 0) |>
                        else i) |> in
        Ok (tt, d)
  end.

Definition CommitStorageOperation (d : db) (before : StorageMapping) (v : RecoveryRecord) (next : Layout)
    (paused : bool) : result RepoError unit * db :=
  atomically (CommitStorageOperation_tx before v next paused) d.

Fixpoint retain_claims (m : StorageMapping) (r : recovery_row) (retained : list string) (d : db) : result RepoError db :=
  match retained with
  | [] => Ok d
  | path :: retained =>
      if negb (is_ok (ValidateRelative path)) then Err (ErrMessage "invalid relative path")
      else
        let? d := insert_claim (mkStorageClaim (m_StorageID m) (rc_record_id r) (rc_version r) path "retained") d in
        retain_claims m r retained d
  end.

Definition FinishStorageOperation (d : db) (m : StorageMapping) (v : RecoveryRecord) (from : string)
    (retained : list string) : result RepoError unit * db :=
  let r := v_row v in
  atomically (fun d =>
    let? _ := checkStorageFence d m (rc_record_id r) in
    let? '(n, d) := update_recovery (v_Hash v) (at_stage v from)
      (fun old => old <| rc_stage := rc_stage r |> <| rc_journal := rc_journal r |> <| rc_error := ""%string |>
                      <| rc_failure_code := ""%string |>) d in
    if negb (n =? 1) then Err ErrStateConflict
    else
      let d := d <| storage_claims ::= filter (fun '((_, record, version, _), _) =>
                      ~ (record = rc_record_id r /\ version = rc_version r)) |> in
      let? d := retain_claims m r retained d in
      Ok (tt, d)) d.

End Namespace.

(** ** Recovery records *)

Definition NextRecoveryVersion (d : db) (v : RecoveryRecord) : result RepoError unit * db :=
  affecting_one (update_recovery (v_Hash v)
    (fun old => (rc_record_id old =? rc_record_id (v_row v))%string && (rc_version old =? rc_version (v_row v))
                && (rc_version old <? max_i64))
    (fun old => old <| rc_version := rc_version old + 1 |>)) ErrStateConflict d.

Definition Recovery (d : db) (hash : string) : option RecoveryRecord :=
  mkRecoveryRecord hash <$> storage_recovery d !! hash.

Definition SaveRecovery (d : db) (v : RecoveryRecord) : result RepoError unit * db :=
  let r := v_row v in
  affecting_one (fun d =>
    if record_of_hash d (v_Hash v) (rc_record_id r) then
      upsert_recovery (v_Hash v)
        (mkRecoveryRow (rc_record_id r) (rc_version r) (rc_reason r) "" (rc_stage r) (rc_removed_data r) (rc_error r)
           (rc_failure_code r) (rc_journal r) no_location)
        (fun old => if (rc_record_id old =? rc_record_id r)%string && (rc_version old =? rc_version r)
                    then Some (old <| rc_reason := rc_reason r |> <| rc_stage := rc_stage r |>
                                   <| rc_removed_data := rc_removed_data r |> <| rc_error := rc_error r |>
                                   <| rc_journal := rc_journal r |> <| rc_failure_code := rc_failure_code r |>)
                    else None) d
    else Ok (0, d)) ErrStateConflict d.

Definition ClearRecovery (d : db) (hash id : string) (version : Z) : result RepoError unit * db :=
  affecting_one (fun d =>
    match storage_recovery d !! hash with
    | Some r => if (rc_record_id r =? id)%string && (rc_version r =? version)
                then Ok (1, d <| storage_recovery ::= delete hash |>) else Ok (0, d)
    | None => Ok (0, d)
    end) ErrStateConflict d.

(** ** Deletion *)

Definition cancelling (stage : string) : bool := (stage =? "cancel_requested")%string || (stage =? "cancelled")%string.

Definition DeletionGate (d : db) (hash id : string) : result RepoError unit :=
  match storage_recovery d !! hash with
  | Some r =>
      if (rc_record_id r =? id)%string && (rc_reason r =? "deletion_pending")%string && record_of_hash d hash id
      then if cancelling (rc_stage r) then Err ErrDeletionCancelled else Ok tt
      else Err ErrDeletionCancelled
  | None => Err ErrDeletionCancelled
  end.

Definition RequestDeletionCancel_tx (hash id : string) (version : Z) : tx unit := fun d =>
  let? '(n, d) := update_recovery hash
    (fun r => (rc_record_id r =? id)%string && (rc_version r =? version)
              && ((rc_reason r =? "deletion_pending")%string
                  || (rc_reason r =? "deletion_cancelled")%string && (rc_stage r =? "cancelled")%string))
    (fun r => r <| rc_stage := if (rc_stage r =? "cancelled")%string then rc_stage r else "cancel_requested"%string |>) d in
  if negb (n =? 1) then Err ErrStateConflict
  else
    let? '(_, d) := update_intent hash (fun i => (in_record_id i =? id)%string)
      (fun i => i <| in_run := RunPaused |>
                  <| in_revision := in_revision i + (if bool_decide (in_run i = RunPaused) then 0 else 1) |>) d in
    Ok (tt, d).

Definition RequestDeletionCancel (d : db) (hash id : string) (version : Z) : result RepoError unit * db :=
  atomically (RequestDeletionCancel_tx hash id version) d.

Definition CompleteDeletionCancel_tx (hash id : string) (version : Z) : tx unit := fun d =>
  let? '(n, d) := update_recovery hash
    (fun r => (rc_record_id r =? id)%string && (rc_version r =? version) && cancelling (rc_stage r))
    (fun r => r <| rc_reason := "deletion_cancelled"%string |> <| rc_stage := "cancelled"%string |>
                <| rc_error := ""%string |>) d in
  if negb (n =? 1) then Err ErrStateConflict
  else
    let? '(_, d) := update_torrent hash (fun _ => record_of_hash d hash id)
      (fun t => t <| t_deletion_mode := ""%string |> <| t_deletion_error := ""%string |> <| t_cleanup_paths := None |>
                  <| t_cleanup_ready := false |> <| t_state := StatePaused |>) d in
    Ok (tt, d).

Definition CompleteDeletionCancel (d : db) (hash id : string) (version : Z) : result RepoError unit * db :=
  atomically (CompleteDeletionCancel_tx hash id version) d.

Definition AdvanceDeletion (d : db) (hash id stage removed : string) : result RepoError unit * db :=
  affecting_one (update_recovery hash
    (fun r => (rc_record_id r =? id)%string && (rc_reason r =? "deletion_pending")%string && negb (cancelling (rc_stage r)))
    (fun r => r <| rc_stage := stage |> <| rc_removed_data := nonempty_or removed (rc_removed_data r) |>))
    ErrDeletionCancelled d.

Definition MarkDeletionPartial (d : db) (hash id : string) : result RepoError Z * db :=
  atomically (update_recovery hash
    (fun r => (rc_record_id r =? id)%string && (rc_reason r =? "deletion_pending")%string)
    (fun r => r <| rc_removed_data := "partial"%string |>)) d.

Definition deletion_conflict : RepoError := ErrMessage "torrent missing or conflicting deletion mode".

Definition CleanupPaths (d : db) (hash : string) : result RepoError (list string * bool) :=
  match torrents d !! hash with
  | None => Err ErrNoRows
  | Some t => Ok (match t_cleanup_paths t with Some paths => (paths, true) | None => ([], false) end)
  end.

Definition CleanupReady (d : db) (hash : string) : result RepoError bool :=
  match torrents d !! hash with None => Err ErrNoRows | Some t => Ok (t_cleanup_ready t) end.

Definition writeCleanupPaths (d : db) (hash : string) (paths : list string) (ready : bool) : result RepoError unit * db :=
  affecting_one (update_torrent hash
    (fun t => (t_deletion_mode t =? "")%string || (t_deletion_mode t =? "payload")%string)
    (fun t => t <| t_cleanup_paths := Some paths |> <| t_cleanup_ready := ready |> <| t_state := StatePaused |>
                <| t_deletion_mode := "payload"%string |> <| t_deletion_error := ""%string |>)) deletion_conflict d.

Definition SaveCleanupPaths (d : db) (hash : string) (paths : list string) := writeCleanupPaths d hash paths true.
Definition BeginCleanup (d : db) (hash : string) (paths : list string) := writeCleanupPaths d hash paths false.

Definition BeginForget (d : db) (hash : string) : result RepoError unit * db :=
  affecting_one (update_torrent hash
    (fun t => (t_deletion_mode t =? "")%string || (t_deletion_mode t =? "keep")%string)
    (fun t => t <| t_cleanup_paths := Some [] |> <| t_cleanup_ready := true |> <| t_state := StatePaused |>
                <| t_deletion_mode := "keep"%string |> <| t_deletion_error := ""%string |>)) deletion_conflict d.

Definition SaveDeletionError (d : db) (hash cause : string) : result RepoError Z * db :=
  atomically (update_torrent hash (fun t => negb (t_deletion_mode t =? "")%string)
    (fun t => t <| t_deletion_error := cause |>)) d.

(** The mapping rows a payload deletion removes. *)
Definition deleted_storage (d : db) (hash root : string) : list string :=
  if (root =? "")%string then [hash]
  else if existsb (fun h => match torrent_storage d !! h with Some s => (st_root s =? root)%string | None => false end)
            (map fst (map_to_list (torrents d)))
  then []
  else storage_keys (fun _ s => (st_root s =? root)%string) d.

Definition DeleteTorrent_tx (hash : string) : tx unit := fun d =>
  let mode := match torrents d !! hash with Some t => t_deletion_mode t | None => ""%string end in
  let root := match torrents d !! hash, torrent_storage d !! hash with
              | Some _, Some s => st_root s
              | _, _ => ""%string
              end in
  let cancelled := match storage_recovery d !! hash with
                   | Some r => (rc_stage r =? "cancel_requested")%string
                   | None => false
                   end in
  if negb (mode =? "")%string && cancelled then Err ErrDeletionCancelled
  else
    let d := d <| storage_claims ::= filter (fun '((_, record, _, _), kind) =>
                    ~ (kind <> "retained"%string /\ record_of_hash d hash record = true)) |>
               <| torrent_download_blocks ::= delete hash |>
               <| viewed_history ::= filter (fun '(h, _) => h <> hash) |>
               <| files ::= filter (fun '((h, _), _) => h <> hash) |> in
    let? d := delete_torrent_row hash d in
    let? d := if (mode =? "payload")%string then each_row delete_storage (deleted_storage d hash root) d else Ok d in
    Ok (tt, d).

Definition DeleteTorrent (d : db) (hash : string) : result RepoError unit * db := atomically (DeleteTorrent_tx hash) d.

(** ** Inventory *)

Record InventoryFile := mkInventoryFile {
  if_MetadataPath : string;
  if_Index : Z;
  if_Path : string;
  if_Size : Z;
  if_Expected : bool;
  if_Presence : string;
  if_Reason : string;
  if_ObservedAt : Z;
}.

Definition BeginVolumeEnrollment (d : db) (root : string) (freshOnly : bool) (random : string)
    : result RepoError (string * string) * db :=
  atomically (fun d =>
    if freshOnly && negb (bool_decide (torrents d = ∅)) then Err ErrVolumeUnregistered
    else match storage_volumes d !! root with
         | Some v => Ok (v, d)
         | None => Ok ((random, "enrolling"%string), d <| storage_volumes ::= <[root := (random, "enrolling"%string)]> |>)
         end) d.

Definition FinishVolumeEnrollment (d : db) (root token : string) : result RepoError unit * db :=
  affecting_one (fun d =>
    match storage_volumes d !! root with
    | Some (t, _) => if (t =? token)%string then Ok (1, d <| storage_volumes ::= <[root := (token, "ready"%string)]> |>)
                     else Ok (0, d)
    | None => Ok (0, d)
    end) ErrStateConflict d.

(** The row a new session gives an owner. *)
Definition begin_inventory (session : string) (d : db) (s : storage_row) : db :=
  d <| storage_inventory ::= <[st_storage_id s :=
         match storage_inventory d !! st_storage_id s with
         | Some v => v <| iv_mapping_revision := st_revision s |> <| iv_session := session |>
                       <| iv_status := "pending"%string |> <| iv_cursor := -1 |> <| iv_observed_at_ms := 0 |>
         | None => mkInventoryRow (st_revision s) session "pending" "" (-1) 0
         end]> |>.

Definition BeginInventorySession (d : db) (session : string) : db :=
  fold_left (begin_inventory session)
    (omap (fun '(hash, s) => if (st_state s =? "ready")%string && bool_decide (is_Some (torrents d !! hash))
                             then Some s else None) (map_to_list (torrent_storage d)))
    (d <| inventory_session := session |>).

Definition PrimeNewInventory (d : db) (m : StorageMapping) (session : string) : result RepoError unit * db :=
  atomically (fun d =>
    if negb (inventory_session d =? session)%string then Err ErrStateConflict
    else match storage_inventory d !! m_StorageID m with
         | Some _ => Ok (tt, d)
         | None => Ok (tt, d <| storage_inventory ::=
                            <[m_StorageID m := mkInventoryRow (m_Revision m) session "ready" "" (-1) 0]> |>)
         end) d.

Definition save_inventory_file (m : StorageMapping) (id : string) (f : InventoryFile) (d : db) : result RepoError db :=
  let key := (m_Hash m, if_Index f) in
  match files d !! key with
  | None => Err ErrStateConflict
  | Some r =>
      if negb ((fi_path r =? if_Path f)%string && (fi_size r =? if_Size f)) then Err ErrStateConflict
      else if negb (if_MetadataPath f =? "")%string
              && negb ((fi_metadata_path r =? "")%string || (fi_metadata_path r =? if_MetadataPath f)%string)
      then Err ErrStateConflict
      else
        let d := if negb (if_MetadataPath f =? "")%string
                 then d <| files ::= <[key := r <| fi_metadata_path := if_MetadataPath f |>]> |> else d in
        Ok (d <| file_inventory ::= <[key := mkFileInventoryRow id (m_Revision m) (if_Path f) (if_Size f)
                   (if_Expected f) (if_Presence f) (if_Reason f) (if_ObservedAt f)]> |>)
  end.

Definition SaveInventory_tx (m : StorageMapping) (id session status reason : string) (cursor now : Z)
    (listed : list InventoryFile) (repair : bool) : tx unit := fun d =>
  let? _ := checkStorageFence d m id in
  if negb (inventory_session d =? session)%string || (session =? "")%string then Err ErrStateConflict
  else
    let? d := each_row (save_inventory_file m id) listed d in
    let d := d <| storage_inventory ::=
                    <[m_StorageID m := mkInventoryRow (m_Revision m) session status reason cursor now]> |> in
    let key := (id, BlockMissingFiles) in
    if (reason =? "expected_file_missing")%string then
      match torrent_activation_blocks d !! key with
      | Some _ => Ok (tt, d)
      | None => Ok (tt, d <| torrent_activation_blocks ::= <[key := inventory_reason]> |>)
      end
    else if repair && (status =? "ready")%string then
      if bool_decide (torrent_activation_blocks d !! key = Some inventory_reason)
      then Ok (tt, d <| torrent_activation_blocks ::= delete key |>) else Ok (tt, d)
    else Ok (tt, d).

Definition SaveInventory (d : db) (m : StorageMapping) (id session status reason : string) (cursor now : Z)
    (listed : list InventoryFile) (repair : bool) : result RepoError unit * db :=
  atomically (SaveInventory_tx m id session status reason cursor now listed repair) d.

Definition QueueInventory (d : db) (m : StorageMapping) (id session : string) (now : Z) :=
  SaveInventory d m id session "pending" "" (-1) now [] false.
