(* ===== verification/ResumeStore.v ===== *)
(** * Durable resume checkpoints

    [internal/repository/resume*.go] with [FromStorage] and [StorageClaims] of
    [internal/fastresume/storage.go]: a head per storage owner with an epoch
    that every mutation advances, the checkpoint published under it, and the
    two ends of its life, the seal that publishes what a backend has verified
    and the restore that hands it to the next opening.  Pointers that the code
    compares with nil are present here. *)

From stdpp Require Import base gmap list strings.
From Stdlib Require Import ZArith Strings.Byte Lia.
From coqutil Require Import Byte.
From S2P Require Import Prelude Models Paths Layout FastResume Codec Sha256 Tables IntentStore StorageStore.

#[local] Open Scope Z_scope.

#[export] Instance byte_eq_dec : EqDecision byte := Byte.byte_eq_dec.

Definition fast_error (e : CheckpointError) : RepoError :=
  match e with
  | ErrInvalid => ErrFastInvalid
  | ErrBudget => ErrFastBudget
  | ErrUnexpectedEOF => ErrFast "unexpected EOF"
  | Diverged => ErrFast "diverged"
  end.

Definition lift {A} (r : result CheckpointError A) : result RepoError A :=
  match r with Ok a => Ok a | Err e => Err (fast_error e) end.

(** ** Fences *)

Record ResumeToken := mkResumeToken {
  tk_StorageID : string;
  tk_RecordID : string;
  tk_MappingRevision : Z;
  tk_Epoch : Z;
  tk_Generation : Z;
}.
#[export] Instance ResumeToken_eq_dec : EqDecision ResumeToken.
Proof. solve_decision. Defined.

Record ResumeSnapshot := mkResumeSnapshot {
  rs_Token : ResumeToken;
  rs_Invalidated : bool;
  rs_Checkpoint : option Checkpoint;
  rs_Revoked : list byte;
}.

(** The records that own a storage identity. *)
Definition owning_hashes (d : db) (sid : string) : list string :=
  List.filter (fun hash => storage_of_hash d hash sid) (map fst (map_to_list (torrent_intents d))).

Definition active_journal (d : db) (sid : string) : bool :=
  existsb (fun '(hash, r) => storage_of_hash d hash sid && negb (quiet_stage (rc_stage r)))
    (map_to_list (storage_recovery d)).

Definition conflicting_alias (d : db) (m : StorageMapping) : bool :=
  existsb (fun '(_, s) => (st_storage_id s =? m_StorageID m)%string
                          && (negb (same_geometry s (m_row m)) || negb (st_revision s =? m_Revision m)
                              || negb (st_state s =? "ready")%string || negb (st_manifest s =? "")%string))
    (map_to_list (torrent_storage d)).

Definition checkResumeFence (d : db) (m : StorageMapping) (record : string) : result RepoError unit :=
  if negb (Ready m) || (record =? "")%string then Err ErrStateConflict
  else if (len (m_StorageID m) >? MaxIdentityLength) || (len record >? MaxIdentityLength) then Err ErrFastBudget
  else
    let? _ := checkStorageFence d m record in
    if conflicting_alias d m then Err ErrStateConflict
    else if negb (length (owning_hashes d (m_StorageID m)) =? 1)%nat then Err ErrStateConflict
    else if active_journal d (m_StorageID m) then Err ErrStateConflict
    else Ok tt.

Definition checkResumeDurability (d : db) : result RepoError unit :=
  if negb (lower (journal_mode d) =? "wal")%string || negb (synchronous d =? 2) then Err ErrResumeDurability else Ok tt.

(** The checks of [beginResumeWrite], the first statements of a transaction. *)
Definition beginResumeWrite (d : db) (m : StorageMapping) (record : string) : result RepoError unit :=
  let? _ := checkResumeDurability d in checkResumeFence d m record.

Definition head_token (owner : string) (o : owner_row) : ResumeToken :=
  mkResumeToken owner (ow_record_id o) (ow_mapping_revision o) (ow_mutation_epoch o) (ow_generation o).

Definition readResumeHead (d : db) (owner : string) : result RepoError (option ResumeSnapshot) :=
  match resume_owners d !! owner with
  | None => Ok None
  | Some o =>
      if (len owner >? 256) || (len (ow_record_id o) >? 256) then Err (ErrMessage "NULL")
      else if (ow_mutation_epoch o <=? 0) || (ow_generation o <? 0) || (ow_mapping_revision o <=? 0)
      then Err ErrResumeIntegrity
      else Ok (Some (mkResumeSnapshot (head_token owner o) (ow_invalidated o) None []))
  end.

Definition set_owner (owner : string) (o : owner_row) (d : db) : db :=
  d <| resume_owners ::= <[owner := o]> |>.

(** [INSERT INTO resume_owners], with the checks of the columns. *)
Definition insert_owner (owner record : string) (revision : Z) (d : db) : result RepoError db :=
  if (owner =? "")%string || (len owner >? 256) || (record =? "")%string || (len record >? 256) || (revision <=? 0)
  then Err (ErrConstraint "resume_owners")
  else Ok (set_owner owner (mkOwnerRow record revision 1 0 true) d).

Definition CaptureResume_tx (m : StorageMapping) (record : string) : tx ResumeToken := fun d =>
  let? _ := beginResumeWrite d m record in
  let? s := readResumeHead d (m_StorageID m) in
  let? d := match s with
            | None => insert_owner (m_StorageID m) record (m_Revision m) d
            | Some s =>
                if negb (tk_RecordID (rs_Token s) =? record)%string
                   || negb (tk_MappingRevision (rs_Token s) =? m_Revision m) then
                  if tk_Epoch (rs_Token s) =? max_i64 then Err ErrStateConflict
                  else if m_Revision m <=? 0 then Err (ErrConstraint "resume_owners")
                  else Ok (d <| resume_owners ::= alter (fun o =>
                             o <| ow_record_id := record |> <| ow_mapping_revision := m_Revision m |>
                               <| ow_mutation_epoch := ow_mutation_epoch o + 1 |> <| ow_invalidated := true |>)
                             (m_StorageID m) |>)
                else Ok d
            end in
  let? s := readResumeHead d (m_StorageID m) in
  match s with
  | Some s => Ok (rs_Token s, d)
  | None => Err (ErrMessage "nil")
  end.

Definition CaptureResume (d : db) (m : StorageMapping) (record : string) : result RepoError ResumeToken * db :=
  atomically (CaptureResume_tx m record) d.

(** ** Checkpoints *)

Definition resumeIntegrity (token : ResumeToken) (blob revoked : list byte) : list byte :=
  sha256 (String.list_byte_of_string "TSH-resume-integrity-1"
          ++ enc_integer (len (tk_StorageID token)) ++ String.list_byte_of_string (tk_StorageID token)
          ++ enc_integer (len (tk_RecordID token)) ++ String.list_byte_of_string (tk_RecordID token)
          ++ enc_integer (tk_MappingRevision token) ++ enc_integer (tk_Epoch token) ++ enc_integer (tk_Generation token)
          ++ enc_integer (Z.of_nat (length blob)) ++ enc_integer (Z.of_nat (length revoked))
          ++ blob ++ revoked)%list.

Definition readResumePayload (d : db) (token : ResumeToken) : result RepoError (list byte * list byte) :=
  match resume_checkpoints d !! tk_StorageID token with
  | None => Err ErrResumeIntegrity
  | Some row =>
      if (Z.of_nat (length (cp_payload row)) >? MaxCheckpointBytes)
         || (Z.of_nat (length (cp_revoked row)) >? Z.quot MaxPieces 8) then Err ErrFastBudget
      else if negb (bool_decide (cp_integrity row = resumeIntegrity token (cp_payload row) (cp_revoked row)))
      then Err ErrResumeIntegrity
      else Ok (cp_payload row, cp_revoked row)
  end.

Section Checkpoints.
Context (fold : string -> string).

Definition decodeResume (s : ResumeSnapshot) (blob revoked : list byte) : result RepoError ResumeSnapshot :=
  let? c := lift (Decode fold blob) in
  let i := c_Identity c in
  let t := rs_Token s in
  if negb (StorageID i =? tk_StorageID t)%string || negb (RecordID i =? tk_RecordID t)%string
     || negb (MappingRevision i =? tk_MappingRevision t) || negb (Generation c =? tk_Generation t)
  then Err ErrResumeIntegrity
  else
    let? _ := lift (ValidateBitmap revoked (PieceCount i)) in
    Ok (mkResumeSnapshot t (rs_Invalidated s) (Some c) revoked).

Definition LoadResume (d : db) (m : StorageMapping) (record : string) : result RepoError (option ResumeSnapshot) :=
  let? _ := checkResumeDurability d in
  let? _ := checkResumeFence d m record in
  let? s := readResumeHead d (m_StorageID m) in
  match s with
  | None => Ok None
  | Some s =>
      if negb (tk_RecordID (rs_Token s) =? record)%string || negb (tk_MappingRevision (rs_Token s) =? m_Revision m)
      then Err ErrStateConflict
      else if rs_Invalidated s then Ok (Some s)
      else
        let? '(blob, revoked) := readResumePayload d (rs_Token s) in
        let? s := decodeResume s blob revoked in
        Ok (Some s)
  end.

Definition checkResumeToken (d : db) (token : ResumeToken) : result RepoError ResumeSnapshot :=
  let? s := readResumeHead d (tk_StorageID token) in
  match s with
  | None => Err ErrStateConflict
  | Some s =>
      if negb (bool_decide (rs_Token s = token)) || (tk_Epoch token <=? 0) || (tk_Epoch token =? max_i64)
      then Err ErrStateConflict else Ok s
  end.

(** The start of the transactions that hold a token. *)
Definition begin_with_token (d : db) (m : StorageMapping) (token : ResumeToken) : result RepoError ResumeSnapshot :=
  let? _ := beginResumeWrite d m (tk_RecordID token) in
  if negb (tk_StorageID token =? m_StorageID m)%string || negb (tk_MappingRevision token =? m_Revision m)
  then Err ErrStateConflict
  else checkResumeToken d token.

(** [INSERT INTO resume_checkpoints ... ON CONFLICT DO UPDATE] with the checks
    of the columns. *)
Definition put_checkpoint (owner : string) (row : checkpoint_row) (d : db) : result RepoError db :=
  if (Z.of_nat (length (cp_payload row)) >? 4194304) || (Z.of_nat (length (cp_revoked row)) >? 524288)
     || negb (length (cp_integrity row) =? 32)%nat || negb (bool_decide (is_Some (resume_owners d !! owner)))
  then Err (ErrConstraint "resume_checkpoints")
  else Ok (d <| resume_checkpoints ::= <[owner := row]> |>).

Definition published (token : ResumeToken) : ResumeToken :=
  mkResumeToken (tk_StorageID token) (tk_RecordID token) (tk_MappingRevision token)
    (tk_Epoch token + 1) (tk_Generation token + 1).

Definition advanced (token : ResumeToken) : ResumeToken :=
  mkResumeToken (tk_StorageID token) (tk_RecordID token) (tk_MappingRevision token)
    (tk_Epoch token + 1) (tk_Generation token).

Definition CommitResume_tx (m : StorageMapping) (token : ResumeToken) (c : Checkpoint) (blob : list byte)
    : tx ResumeToken := fun d =>
  let? _ := begin_with_token d m token in
  let next := published token in
  let revoked := replicate (length (Pieces c)) x00 in
  let? d := put_checkpoint (tk_StorageID token) (mkCheckpointRow blob revoked (resumeIntegrity next blob revoked)) d in
  Ok (next, d <| resume_owners ::= alter (fun o => o <| ow_generation := tk_Generation next |>
                      <| ow_mutation_epoch := tk_Epoch next |> <| ow_invalidated := false |>) (tk_StorageID next) |>).

Definition CommitResume (d : db) (m : StorageMapping) (token : ResumeToken) (c : Checkpoint)
    : result RepoError ResumeToken * db :=
  let i := c_Identity c in
  if (tk_Generation token =? max_i64) || negb (Generation c =? tk_Generation token + 1)
     || negb (RecordID i =? tk_RecordID token)%string || negb (StorageID i =? tk_StorageID token)%string
     || negb (MappingRevision i =? tk_MappingRevision token)
     || negb (id_LayoutVersion i =? st_version (m_row m)) || negb (id_Root i =? st_root (m_row m))%string
     || negb (id_Prefix i =? st_prefix (m_row m))%string
  then (Err ErrStateConflict, d)
  else match Encode fold c with
       | Err e => (Err (fast_error e), d)
       | Ok blob => atomically (CommitResume_tx m token c blob) d
       end.

Definition byte_and (a b : byte) : byte := byte.of_Z (Z.land (byte.unsigned a) (byte.unsigned b)).
Definition byte_or (a b : byte) : byte := byte.of_Z (Z.lor (byte.unsigned a) (byte.unsigned b)).

(** The loop that adds the revoked bits: whether any is new, and the bits;
    [None] is an index out of range. *)
Fixpoint add_revoked (mask pieces revoked : list byte) : option (bool * list byte) :=
  match revoked with
  | [] => Some (false, [])
  | r :: revoked =>
      match mask, pieces with
      | m :: mask, p :: pieces =>
          match add_revoked mask pieces revoked with
          | Some (changed, rest) =>
              let bits := byte_and m p in
              Some (negb (byte.unsigned (and_not bits r) =? 0) || changed, byte_or r bits :: rest)
          | None => None
          end
      | _, _ => None
      end
  end.

Definition RevokeResume_tx (m : StorageMapping) (token : ResumeToken) (mask : list byte) : tx ResumeToken := fun d =>
  let? s := begin_with_token d m token in
  if rs_Invalidated s then Ok (token, d)
  else
    let? '(blob, revoked) := readResumePayload d token in
    let? s := decodeResume s blob revoked in
    match rs_Checkpoint s with
    | None => Err (ErrMessage "nil")
    | Some c =>
        let? _ := lift (ValidateBitmap mask (PieceCount (c_Identity c))) in
        match add_revoked mask (Pieces c) revoked with
        | None => Err (ErrMessage "index out of range")
        | Some (false, _) => Ok (token, d)
        | Some (true, revoked) =>
            let next := advanced token in
            Ok (next, d <| resume_checkpoints ::= alter (fun row =>
                             mkCheckpointRow (cp_payload row) revoked (resumeIntegrity next blob revoked)) (tk_StorageID next) |>
                        <| resume_owners ::= alter (fun o => o <| ow_mutation_epoch := tk_Epoch next |>) (tk_StorageID next) |>)
        end
    end.

Definition RevokeResume (d : db) (m : StorageMapping) (token : ResumeToken) (mask : list byte)
    : result RepoError ResumeToken * db := atomically (RevokeResume_tx m token mask) d.

Definition InvalidateResume (d : db) (m : StorageMapping) (token : ResumeToken) : result RepoError ResumeToken * db :=
  atomically (fun d =>
    let? _ := begin_with_token d m token in
    let next := advanced token in
    Ok (next, d <| resume_owners ::= alter (fun o => o <| ow_invalidated := true |>
                      <| ow_mutation_epoch := tk_Epoch next |>) (tk_StorageID next) |>)) d.

(** ** Barriers before mutations ([resume_mutation.go]) *)

(** The mapping and record that own a storage identity, when it is one. *)
Definition ResumeOwnerMapping (d : db) (storageID : string) : result RepoError (StorageMapping * string) :=
  match owning_hashes d storageID with
  | [hash] =>
      match torrent_storage d !! hash, torrent_intents d !! hash with
      | Some s, Some i => Ok (mkStorageMapping hash s, in_record_id i)
      | _, _ => Err ErrStateConflict
      end
  | _ => Err ErrStateConflict
  end.

Definition ResumeUnboundMutationSafe (d : db) (m : StorageMapping) : result RepoError bool :=
  let exact := match torrent_storage d !! m_Hash m with Some s => same_mapping m s | None => false end in
  let? head := readResumeHead d (m_StorageID m) in
  Ok (exact && (length (owning_hashes d (m_StorageID m)) =? 0)%nat
      && match head with None => true | Some s => rs_Invalidated s end).

Definition InvalidateResumeMutation_tx (m : StorageMapping) (record : string) : tx unit := fun d =>
  let? _ := checkResumeDurability d in
  if negb (match torrent_storage d !! m_Hash m with
           | Some s => same_mapping m s && record_of_hash d (m_Hash m) record
           | None => false
           end) then Err ErrStateConflict
  else
    let? head := readResumeHead d (m_StorageID m) in
    match head with
    | None => Ok (tt, d)
    | Some s =>
        if tk_Epoch (rs_Token s) =? max_i64 then Err ErrStateConflict
        else Ok (tt, d <| resume_owners ::= alter invalidate (m_StorageID m) |>)
    end.

Definition InvalidateResumeMutation (d : db) (m : StorageMapping) (record : string) : result RepoError unit * db :=
  if (record =? "")%string then (Err ErrStateConflict, d)
  else atomically (InvalidateResumeMutation_tx m record) d.

(** The answer [true] means that no live checkpoint remains to be revoked. *)
Definition RevokeResumeMutation (d : db) (m : StorageMapping) (record : string) (pieces : list byte)
    : result RepoError bool * db :=
  match LoadResume d m record with
  | Err e => (Err e, d)
  | Ok None => (Ok true, d)
  | Ok (Some saved) =>
      if rs_Invalidated saved then (Ok true, d)
      else match rs_Checkpoint saved with
           | None => (Err (ErrMessage "nil"), d)
           | Some c =>
               match lift (ValidateBitmap pieces (PieceCount (c_Identity c))) with
               | Err e => (Err e, d)
               | Ok _ =>
                   match RevokeResume d m (rs_Token saved) pieces with
                   | (Ok _, d) => (Ok false, d)
                   | (Err e, d) => (Err e, d)
                   end
               end
           end
  end.

(** What [NewResumeMutationHooks] gives a backend: the pieces still persisted
    and whether they may be restored. *)
Record ResumeHooks := mkResumeHooks {
  hk_Pending : list byte;
  hk_RestoreCandidate : bool;
  hk_Reason : string;
}.

Definition no_hooks (pieces : Z) (reason : string) : ResumeHooks :=
  mkResumeHooks (replicate (Z.to_nat (Z.quot (pieces + 7) 8)) x00) false reason.

(** [Pieces[i] &^ Revoked[i]] for every byte of [Pending]. *)
Fixpoint pending_bits (count : nat) (pieces revoked : list byte) : option (list byte) :=
  match count with
  | O => Some []
  | S count =>
      match pieces, revoked with
      | p :: pieces, r :: revoked => cons (and_not p r) <$> pending_bits count pieces revoked
      | _, _ => None
      end
  end.

(** A saved checkpoint of other geometry than the torrent that is opened. *)
Definition foreign_checkpoint (pieces pieceLength : Z) (saved : option ResumeSnapshot) : bool :=
  match saved with
  | Some s => negb (rs_Invalidated s) &&
      match rs_Checkpoint s with
      | Some c => negb (PieceCount (c_Identity c) =? pieces) || negb (PieceLength (c_Identity c) =? pieceLength)
      | None => true
      end
  | None => false
  end.

Definition invalidate_and (hooks : option ResumeHooks) (d : db) (m : StorageMapping) (record : string)
    : result RepoError (option ResumeHooks) * db :=
  match InvalidateResumeMutation d m record with
  | (Err e, d) => (Err e, d)
  | (Ok _, d) => (Ok hooks, d)
  end.

Definition tolerated (e : RepoError) : bool :=
  match e with ErrResumeIntegrity | ErrFastInvalid | ErrFastBudget => true | _ => false end.

Definition rejection_reason (e : RepoError) : string :=
  match e with
  | ErrFastBudget => "budget_exceeded"
  | ErrResumeIntegrity => "checkpoint_integrity_error"
  | _ => "invalid_checkpoint"
  end.

(** [during] is what other operations do between the two transactions. *)
Definition NewResumeMutationHooks (d : db) (m : StorageMapping) (record : string) (pieces pieceLength : Z)
    (strict : bool) (during : db -> db) : result RepoError (option ResumeHooks) * db :=
  if (pieces <? 0) || (pieces >? MaxPieces) then invalidate_and None d m record
  else if strict then invalidate_and (Some (no_hooks pieces "strict_mode")) d m record
  else
    match CaptureResume d m record with
    | (Err e, d) => (Err e, d)
    | (Ok _, d) =>
        let d := during d in
        match LoadResume d m record with
        | Err e =>
            if tolerated e then invalidate_and (Some (no_hooks pieces (rejection_reason e))) d m record
            else (Err e, d)
        | Ok saved =>
            if foreign_checkpoint pieces pieceLength saved
            then invalidate_and (Some (no_hooks pieces "invalid_checkpoint")) d m record
            else match saved with
                 | Some (mkResumeSnapshot _ false (Some c) revoked) =>
                     match pending_bits (Z.to_nat (Z.quot (pieces + 7) 8)) (Pieces c) revoked with
                     | None => (Err (ErrMessage "index out of range"), d)
                     | Some bits =>
                         let reason := if existsb (fun r => negb (byte.unsigned r =? 0)) revoked
                                       then "pieces_revoked"%string else "restored"%string in
                         (Ok (Some (mkResumeHooks bits true reason)), d)
                     end
                 | _ => (Ok (Some (no_hooks pieces "no_checkpoint")), d)
                 end
        end
    end.

(** ** Seal and restore ([resume_adapter.go], [fastresume/storage.go]) *)

Record CheckpointFile := mkCheckpointFile {
  cf_Path : string;
  cf_Offset : Z;
  cf_Length : Z;
  cf_Evidence : Evidence;
}.

Record FileCheckpoint := mkFileCheckpoint {
  nc_InfoHash : string;
  nc_Root : string;
  nc_PieceLength : Z;
  nc_PieceCount : Z;
  nc_ExtentLength : Z;
  nc_Files : list CheckpointFile;
  nc_Complete : list byte;
}.

(** What the metainfo of an attachment determines: its canonical storage hash
    and the answer of [catalogIdentity], the completed identity and the files. *)
Record Attachment := mkAttachment {
  at_hash : string;
  at_catalog : result CheckpointError (Identity * list File);
}.

Fixpoint bind_evidence (native : list CheckpointFile) (listed : list File) : result CheckpointError (list File) :=
  match native, listed with
  | [], [] => Ok []
  | n :: native, f :: listed =>
      if negb (cf_Path n =? f_Path f)%string || negb (cf_Offset n =? Offset f) || negb (cf_Length n =? Length f)
      then Err ErrInvalid
      else
        let? rest := bind_evidence native listed in
        Ok (mkFile (f_Path f) (Offset f) (Length f) (cf_Evidence n) :: rest)
  | _, _ => Err ErrInvalid
  end.

Definition FromStorage (a : Attachment) (generation nowMS : Z) (native : FileCheckpoint) : result CheckpointError Checkpoint :=
  let? '(id, listed) := at_catalog a in
  if negb (nc_InfoHash native =? at_hash a)%string || negb (nc_Root native =? id_Root id)%string
     || negb (nc_PieceLength native =? PieceLength id) || negb (nc_PieceCount native =? PieceCount id)
     || negb (nc_ExtentLength native =? ExtentLength id) || negb (length (nc_Files native) =? length listed)%nat
  then Err ErrInvalid
  else
    let? bound := bind_evidence (nc_Files native) listed in
    let c := mkCheckpoint SchemaVersion id generation nowMS bound (nc_Complete native) in
    let? _ := Checkpoint_Validate fold c in
    Ok c.

Fixpoint storage_files (saved listed : list File) : result CheckpointError (list CheckpointFile) :=
  match saved, listed with
  | [], [] => Ok []
  | s :: saved, f :: listed =>
      if negb (f_Path s =? f_Path f)%string || negb (Offset s =? Offset f) || negb (Length s =? Length f)
      then Err ErrInvalid
      else
        let? rest := storage_files saved listed in
        Ok (mkCheckpointFile (f_Path s) (Offset s) (Length s) (f_Evidence s) :: rest)
  | _, _ => Err ErrInvalid
  end.

Definition StorageClaims (a : Attachment) (saved : Checkpoint) (revoked : list byte) : result CheckpointError FileCheckpoint :=
  let? _ := Checkpoint_Validate fold saved in
  let? '(expected, listed) := at_catalog a in
  if negb (bool_decide (expected = c_Identity saved)) || negb (length listed =? length (Files saved))%nat
  then Err ErrInvalid
  else
    let? _ := ValidateBitmap revoked (PieceCount expected) in
    match revoke (Pieces saved) revoked with
    | None => Err ErrInvalid
    | Some (_, complete) =>
        let? listed := storage_files (Files saved) listed in
        Ok (mkFileCheckpoint (at_hash a) (id_Root expected) (PieceLength expected) (PieceCount expected)
              (ExtentLength expected) listed complete)
    end.

(** [ResumeSource.validate] against the identity the source carries. *)
Definition validate_source (base : Identity) (m : StorageMapping) : result RepoError unit :=
  if negb (StorageID base =? m_StorageID m)%string || negb (MappingRevision base =? m_Revision m)
     || negb (id_Root base =? st_root (m_row m))%string || negb (id_Prefix base =? st_prefix (m_row m))%string
     || negb (id_LayoutVersion base =? st_version (m_row m))
  then Err ErrFastInvalid else Ok tt.

(** The publication callback of [SealResume]. *)
Definition seal_publish (d : db) (m : StorageMapping) (a : Attachment) (token : ResumeToken)
    (authorized : result RepoError unit) (nowMS : Z) (native : FileCheckpoint) : result RepoError unit * db :=
  match authorized with
  | Err e => (Err e, d)
  | Ok _ =>
      match FromStorage a (tk_Generation token + 1) nowMS native with
      | Err e => (Err (fast_error e), d)
      | Ok c =>
          match CommitResume d m token c with
          | (Ok _, d) => (Ok tt, d)
          | (Err e, d) => (Err e, d)
          end
      end
  end.

(** [SealResume]: [captured] is the answer of the backend's capture, the state
    it flushed or its error, and [during] what happened to the database while
    the backend was quiesced; [authorized] are the two answers of the source. *)
Definition SealResume (d : db) (m : StorageMapping) (base : Identity) (a : Attachment)
    (authorized : result RepoError unit * result RepoError unit) (nowMS : Z)
    (captured : result RepoError FileCheckpoint) (during : db -> db) : result RepoError unit * db :=
  match validate_source base m, fst authorized with
  | Err e, _ | Ok _, Err e => (Err e, d)
  | Ok _, Ok _ =>
      match CaptureResume d m (RecordID base) with
      | (Err e, d) => (Err e, d)
      | (Ok token, d) =>
          if tk_Generation token =? max_i64 then (Err ErrFastInvalid, d)
          else
            let d := during d in
            match captured with
            | Err e => (Err e, d)
            | Ok native => seal_publish d m a token (snd authorized) nowMS native
            end
      end
  end.

(** [restoreResumeOnce] up to the backend: the claims it is given. *)
Definition restore_claims (d : db) (m : StorageMapping) (base : Identity) (a : Attachment)
    : result RepoError (ResumeToken * FileCheckpoint) :=
  let? _ := validate_source base m in
  let? saved := LoadResume d m (RecordID base) in
  match saved with
  | Some (mkResumeSnapshot token false (Some c) revoked) =>
      let? claims := lift (StorageClaims a c revoked) in Ok (token, claims)
  | _ => Err ErrStateConflict
  end.

(** The authorization the backend asks for when it has checked the files. *)
Definition authorize_restore (d : db) (m : StorageMapping) (base : Identity) (token : ResumeToken) : result RepoError unit :=
  let? latest := LoadResume d m (RecordID base) in
  match latest with
  | Some s => if rs_Invalidated s || negb (bool_decide (rs_Token s = token)) then Err ErrStateConflict else Ok tt
  | None => Err ErrStateConflict
  end.

Definition CheckResumeAdmission (d : db) (m : StorageMapping) (record : string) : result RepoError unit :=
  checkResumeFence d m record.

End Checkpoints.
