(* ===== verification/Library.v ===== *)
(** * Runs of the library

    Every operation of the repository that writes, as an event with the values
    it is given (the random identities and the time included), and the database
    after a sequence of them.  An operation that fails leaves what its
    transaction rolls back, so a driver error or a cancelled context is the
    absence of its event.  The operations that span several transactions appear
    as the transactions they are made of, in any interleaving. *)

From stdpp Require Import base gmap list strings.
From Stdlib Require Import ZArith Strings.Byte Lia.
From S2P Require Import Prelude Models Paths Layout FastResume Codec Tables IntentStore StorageStore ResumeStore.

#[local] Open Scope Z_scope.

Inductive operation :=
| OpCreateTorrent (n : NewTorrentRecord) (random : string)
| OpCommitRunIntent (v : IntentVersion) (run : RunIntent)
| OpCommitResumeRetry (v : IntentVersion)
| OpAttachRuntime (v : IntentVersion) (token : string)
| OpSaveRuntimeObservation (o : RuntimeObservation)
| OpPutActivationBlock (f : RuntimeFence) (kind : ActivationBlockKind) (reason : string)
| OpPutRuntimeSafetyBlock (f : RuntimeFence) (kind : ActivationBlockKind) (reason : string)
| OpClearActivationBlock (f : RuntimeFence) (kind : ActivationBlockKind)
| OpSaveDownloadBlock (hash reason : string)
| OpSaveCatalog (f : RuntimeFence) (c : TorrentCatalog)
| OpCommitAddMetadata (v : IntentVersion) (m : UserMetadata) (permanent : bool)
| OpMakePermanent (hash : string)
| OpUpdateFilePriority (hash : string) (fileIndex : Z) (priority : FilePriority)
| OpUpdateTorrentFilesPriority (hash : string) (priority : FilePriority)
| OpSaveStorageMapping (m : StorageMapping) (random : string)
| OpEnsureStorageMapping (m : StorageMapping) (random : string)
| OpSaveStorageAlias (m : StorageMapping) (random : string)
| OpSaveStorageMappingForRecord (m : StorageMapping) (recordID random : string)
| OpClaimStorageAlias (alias owner random : string)
| OpSetStoragePreparationError (m : StorageMapping) (recordID message : string)
| OpSetStorageLayout (before : StorageMapping) (recordID : string) (next : Layout)
| OpCreateStorageOperation (m : StorageMapping) (v : RecoveryRecord) (previousVersion : Z) (claims : list StorageClaim)
| OpTransitionStorageOperation (m : StorageMapping) (v : RecoveryRecord) (from : string)
| OpCommitStorageOperation (before : StorageMapping) (v : RecoveryRecord) (next : Layout) (paused : bool)
| OpFinishStorageOperation (m : StorageMapping) (v : RecoveryRecord) (from : string) (retained : list string)
| OpNextRecoveryVersion (v : RecoveryRecord)
| OpSaveRecovery (v : RecoveryRecord)
| OpClearRecovery (hash id : string) (version : Z)
| OpRequestDeletionCancel (hash id : string) (version : Z)
| OpCompleteDeletionCancel (hash id : string) (version : Z)
| OpAdvanceDeletion (hash id stage removed : string)
| OpMarkDeletionPartial (hash id : string)
| OpSaveCleanupPaths (hash : string) (paths : list string)
| OpBeginCleanup (hash : string) (paths : list string)
| OpBeginForget (hash : string)
| OpSaveDeletionError (hash cause : string)
| OpDeleteTorrent (hash : string)
| OpBeginVolumeEnrollment (root : string) (freshOnly : bool) (random : string)
| OpFinishVolumeEnrollment (root token : string)
| OpBeginInventorySession (session : string)
| OpPrimeNewInventory (m : StorageMapping) (session : string)
| OpSaveInventory (m : StorageMapping) (id session status reason : string) (cursor now : Z)
    (listed : list InventoryFile) (repair : bool)
| OpCaptureResume (m : StorageMapping) (record : string)
| OpCommitResume (m : StorageMapping) (token : ResumeToken) (c : Checkpoint)
| OpRevokeResume (m : StorageMapping) (token : ResumeToken) (mask : list byte)
| OpInvalidateResume (m : StorageMapping) (token : ResumeToken)
| OpInvalidateResumeMutation (m : StorageMapping) (record : string).

Section Runs.
Context (fold : string -> string) (catalog_json : TorrentCatalog -> list byte).

Definition apply (d : db) (op : operation) : db :=
  match op with
  | OpCreateTorrent n random => snd (CreateTorrent catalog_json d n random)
  | OpCommitRunIntent v run => snd (CommitRunIntent d v run)
  | OpCommitResumeRetry v => snd (CommitResumeRetry d v)
  | OpAttachRuntime v token => snd (AttachRuntime d v token)
  | OpSaveRuntimeObservation o => snd (SaveRuntimeObservation d o)
  | OpPutActivationBlock f kind reason => snd (PutActivationBlock d f kind reason)
  | OpPutRuntimeSafetyBlock f kind reason => snd (PutRuntimeSafetyBlock d f kind reason)
  | OpClearActivationBlock f kind => snd (ClearActivationBlock d f kind)
  | OpSaveDownloadBlock hash reason => SaveDownloadBlock d hash reason
  | OpSaveCatalog f c => snd (SaveCatalog catalog_json d f c)
  | OpCommitAddMetadata v m permanent => snd (CommitAddMetadata d v m permanent)
  | OpMakePermanent hash => snd (MakePermanent d hash)
  | OpUpdateFilePriority hash fileIndex priority => snd (UpdateFilePriority d hash fileIndex priority)
  | OpUpdateTorrentFilesPriority hash priority => snd (UpdateTorrentFilesPriority d hash priority)
  | OpSaveStorageMapping m random => snd (SaveStorageMapping d m random)
  | OpEnsureStorageMapping m random => snd (EnsureStorageMapping d m random)
  | OpSaveStorageAlias m random => snd (SaveStorageAlias d m random)
  | OpSaveStorageMappingForRecord m recordID random => snd (SaveStorageMappingForRecord d m recordID random)
  | OpClaimStorageAlias alias owner random => snd (ClaimStorageAlias d alias owner random)
  | OpSetStoragePreparationError m recordID message => snd (SetStoragePreparationError d m recordID message)
  | OpSetStorageLayout before recordID next => snd (SetStorageLayout fold d before recordID next)
  | OpCreateStorageOperation m v previousVersion claims => snd (CreateStorageOperation fold d m v previousVersion claims)
  | OpTransitionStorageOperation m v from => snd (TransitionStorageOperation d m v from)
  | OpCommitStorageOperation before v next paused => snd (CommitStorageOperation fold d before v next paused)
  | OpFinishStorageOperation m v from retained => snd (FinishStorageOperation d m v from retained)
  | OpNextRecoveryVersion v => snd (NextRecoveryVersion d v)
  | OpSaveRecovery v => snd (SaveRecovery d v)
  | OpClearRecovery hash id version => snd (ClearRecovery d hash id version)
  | OpRequestDeletionCancel hash id version => snd (RequestDeletionCancel d hash id version)
  | OpCompleteDeletionCancel hash id version => snd (CompleteDeletionCancel d hash id version)
  | OpAdvanceDeletion hash id stage removed => snd (AdvanceDeletion d hash id stage removed)
  | OpMarkDeletionPartial hash id => snd (MarkDeletionPartial d hash id)
  | OpSaveCleanupPaths hash paths => snd (SaveCleanupPaths d hash paths)
  | OpBeginCleanup hash paths => snd (BeginCleanup d hash paths)
  | OpBeginForget hash => snd (BeginForget d hash)
  | OpSaveDeletionError hash cause => snd (SaveDeletionError d hash cause)
  | OpDeleteTorrent hash => snd (DeleteTorrent d hash)
  | OpBeginVolumeEnrollment root freshOnly random => snd (BeginVolumeEnrollment d root freshOnly random)
  | OpFinishVolumeEnrollment root token => snd (FinishVolumeEnrollment d root token)
  | OpBeginInventorySession session => BeginInventorySession d session
  | OpPrimeNewInventory m session => snd (PrimeNewInventory d m session)
  | OpSaveInventory m id session status reason cursor now listed repair =>
      snd (SaveInventory d m id session status reason cursor now listed repair)
  | OpCaptureResume m record => snd (CaptureResume d m record)
  | OpCommitResume m token c => snd (CommitResume fold d m token c)
  | OpRevokeResume m token mask => snd (RevokeResume fold d m token mask)
  | OpInvalidateResume m token => snd (InvalidateResume d m token)
  | OpInvalidateResumeMutation m record => snd (InvalidateResumeMutation d m record)
  end.

Fixpoint run (ops : list operation) (d : db) : db :=
  match ops with
  | [] => d
  | op :: ops => run ops (apply d op)
  end.

End Runs.
