(* ===== verification/LibraryFrame.v ===== *)
(** * What the statements touch

    The tables each statement and each operation of the repository may change,
    and its effect on the resume heads: outside the resume operations a head is
    left alone or invalidated with a greater epoch. *)

From stdpp Require Import base gmap list strings.
From Stdlib Require Import ZArith Strings.Byte Lia.
From S2P Require Import Prelude Models Paths Layout FastResume Codec Tables IntentStore StorageStore ResumeStore Library.

#[local] Open Scope Z_scope.

Inductive table :=
| Torrents | Order | TorrentFiles | Viewed | Intents | Blocks | DownloadBlocks | Storage | Recoveries
| Claims | Owners | Checkpoints | FileInventory | StorageInventory | Session | Volumes | Pragmas.
#[export] Instance table_eq_dec : EqDecision table.
Proof. solve_decision. Defined.

Definition untouched (t : table) (d d' : db) : Prop :=
  match t with
  | Torrents => torrents d' = torrents d
  | Order => torrent_order d' = torrent_order d
  | TorrentFiles => files d' = files d
  | Viewed => viewed_history d' = viewed_history d
  | Intents => torrent_intents d' = torrent_intents d
  | Blocks => torrent_activation_blocks d' = torrent_activation_blocks d
  | DownloadBlocks => torrent_download_blocks d' = torrent_download_blocks d
  | Storage => torrent_storage d' = torrent_storage d
  | Recoveries => storage_recovery d' = storage_recovery d
  | Claims => storage_claims d' = storage_claims d
  | Owners => resume_owners d' = resume_owners d
  | Checkpoints => resume_checkpoints d' = resume_checkpoints d
  | FileInventory => file_inventory d' = file_inventory d
  | StorageInventory => storage_inventory d' = storage_inventory d
  | Session => inventory_session d' = inventory_session d
  | Volumes => storage_volumes d' = storage_volumes d
  | Pragmas => journal_mode d' = journal_mode d /\ synchronous d' = synchronous d
  end.

(** Only the listed tables may change. *)
Definition frame (ts : list table) (d d' : db) : Prop :=
  forall t, bool_decide (t ∈ ts) = false -> untouched t d d'.

Lemma untouched_refl t d : untouched t d d.
Proof. by destruct t. Qed.

Lemma untouched_trans t d1 d2 d3 : untouched t d1 d2 -> untouched t d2 d3 -> untouched t d1 d3.
Proof. destruct t; cbn; try congruence. by intros [-> ->] [-> ->]. Qed.

#[export] Instance frame_preorder ts : PreOrder (frame ts).
Proof.
  split.
  - intros d t _. apply untouched_refl.
  - intros d1 d2 d3 H1 H2 t Ht. eapply untouched_trans; eauto.
Qed.

Lemma frame_weaken ts ts' d d' :
  forallb (fun t => bool_decide (t ∈ ts')) ts = true -> frame ts d d' -> frame ts' d d'.
Proof.
  intros Hsub H t Ht. apply H. apply bool_decide_eq_false. intros Hin.
  apply bool_decide_eq_false in Ht. apply Ht.
  rewrite forallb_forall in Hsub. apply (bool_decide_unpack _), Is_true_eq_left, Hsub. by apply list_elem_of_In.
Qed.

(** A relation that holds along a transaction is proved backwards from its last
    database: through the record updates and through the statements. *)
Ltac chain_with step :=
  repeat match goal with
  | |- ?R ?d ?d => reflexivity
  | |- ?R ?d (update_field _ ?y) => transitivity y; [|step]
  | |- ?R ?d (set_recovery _ _ ?y) => transitivity y; [|step]
  | |- ?R ?d (set_storage _ _ ?y) => transitivity y; [|step]
  | |- ?R ?d (set_intent _ _ ?y) => transitivity y; [|step]
  | |- ?R ?d (set_owner _ _ ?y) => transitivity y; [|step]
  | H : ?c ?d1 = Ok (_, ?d2) |- ?R ?d ?d2 => is_var d2; transitivity d1; [clear H|step]
  | H : ?c ?d1 = Ok ?d2 |- ?R ?d ?d2 => is_var d2; transitivity d1; [clear H|step]
  end.

Create HintDb frames.

Ltac frame_step :=
  first
    [ by (intros []; cbn; try discriminate; intros _)
    | eapply frame_weaken; [|solve [eauto with frames]]; reflexivity
    | solve [eauto with frames] ].

(** Follow the tests of a body down to its answer. *)
Ltac branches := repeat (case_match; simplify_eq/=; try done).

Ltac frame_body := intros; branches; chain_with frame_step.

Lemma fence_owners_frame check select d d' : fence_owners check select d = Ok d' -> frame [Owners] d d'.
Proof. unfold fence_owners. frame_body. Qed.
#[export] Hint Resolve fence_owners_frame : frames.

Lemma fence_storage_frame sid d d' : fence_storage sid d = Ok d' -> frame [Owners] d d'.
Proof. apply fence_owners_frame. Qed.
Lemma fence_record_frame record d d' : fence_record record d = Ok d' -> frame [Owners] d d'.
Proof. apply fence_owners_frame. Qed.
#[export] Hint Resolve fence_storage_frame fence_record_frame : frames.

Lemma resume_journal_frame hash r d d' : resume_journal hash r d = Ok d' -> frame [Owners] d d'.
Proof. unfold resume_journal. frame_body. Qed.
#[export] Hint Resolve resume_journal_frame : frames.

Lemma update_recovery_frame hash sel set d n d' :
  update_recovery hash sel set d = Ok (n, d') -> frame [Owners; Recoveries] d d'.
Proof. unfold update_recovery. frame_body. Qed.
Lemma upsert_recovery_frame hash row conflict d n d' :
  upsert_recovery hash row conflict d = Ok (n, d') -> frame [Owners; Recoveries] d d'.
Proof. unfold upsert_recovery. frame_body. Qed.
#[export] Hint Resolve update_recovery_frame upsert_recovery_frame : frames.

Lemma resume_deletion_intent_frame hash old new d d' :
  resume_deletion_intent hash old new d = Ok d' -> frame [Owners] d d'.
Proof. unfold resume_deletion_intent. frame_body. Qed.
Lemma recovery_deletion_intent_frame hash old new d d' :
  recovery_deletion_intent hash old new d = Ok d' -> frame [Owners; Recoveries] d d'.
Proof. unfold recovery_deletion_intent. frame_body. Qed.
#[export] Hint Resolve resume_deletion_intent_frame recovery_deletion_intent_frame : frames.

Lemma update_torrent_frame hash sel set d n d' :
  update_torrent hash sel set d = Ok (n, d') -> frame [Torrents; Owners; Recoveries] d d'.
Proof. unfold update_torrent. frame_body. Qed.
Lemma insert_torrent_frame hash row random d u d' :
  insert_torrent hash row random d = Ok (u, d') -> frame [Torrents; Order; Intents] d d'.
Proof. unfold insert_torrent. frame_body. Qed.
Lemma delete_intent_frame hash d d' : delete_intent hash d = Ok d' -> frame [Owners; Intents; Blocks] d d'.
Proof. unfold delete_intent. frame_body. Qed.
#[export] Hint Resolve update_torrent_frame insert_torrent_frame delete_intent_frame : frames.

Lemma delete_torrent_row_frame hash d d' : delete_torrent_row hash d = Ok d' ->
  frame [Owners; Intents; Blocks; Torrents; Order; TorrentFiles; FileInventory; Recoveries] d d'.
Proof. unfold delete_torrent_row. frame_body. Qed.
#[export] Hint Resolve delete_torrent_row_frame : frames.

Lemma resume_mapping_change_frame old new d d' : resume_mapping_change old new d = Ok d' -> frame [Owners] d d'.
Proof. unfold resume_mapping_change. frame_body. Qed.
Lemma resume_mapping_workflow_frame old new d d' : resume_mapping_workflow old new d = Ok d' -> frame [Owners] d d'.
Proof. unfold resume_mapping_workflow. frame_body. Qed.
Lemma inventory_mapping_frame hash new d : frame [StorageInventory; FileInventory] d (inventory_mapping hash new d).
Proof. unfold inventory_mapping. chain_with frame_step. Qed.
#[export] Hint Resolve resume_mapping_change_frame resume_mapping_workflow_frame inventory_mapping_frame : frames.

Definition storage_tables : list table := [Owners; Storage; StorageInventory; FileInventory].

Lemma storage_mapping_revision_frame hash old new d d' : storage_mapping_revision hash old new d = Ok d' ->
  frame storage_tables d d'.
Proof.
  unfold storage_mapping_revision. intros. branches.
  etransitivity; [|eapply frame_weaken, inventory_mapping_frame; done]. chain_with frame_step.
Qed.
#[export] Hint Resolve storage_mapping_revision_frame : frames.

Lemma write_storage_frame hash old new d d' : write_storage hash old new d = Ok d' -> frame storage_tables d d'.
Proof. unfold write_storage. frame_body. Qed.
#[export] Hint Resolve write_storage_frame : frames.

Lemma upsert_storage_frame hash row conflict random d n d' :
  upsert_storage hash row conflict random d = Ok (n, d') -> frame storage_tables d d'.
Proof. unfold upsert_storage. frame_body. Qed.
Lemma delete_storage_frame hash d d' : delete_storage hash d = Ok d' -> frame storage_tables d d'.
Proof. unfold delete_storage. frame_body. Qed.
#[export] Hint Resolve upsert_storage_frame delete_storage_frame : frames.

(** A relation kept by every row is kept by all of them. *)
Lemma each_row_rel {K} (R : relation db) `{!PreOrder R} (step : K -> db -> result RepoError db) keys :
  (forall key d d', step key d = Ok d' -> R d d') ->
  forall d d', each_row step keys d = Ok d' -> R d d'.
Proof.
  intros Hstep. induction keys as [|key keys IH]; intros d d' H; simplify_eq/=; [reflexivity|].
  destruct (step key d) as [d1|] eqn:E; [|done]. etransitivity; eauto.
Qed.

Lemma update_storage_frame sel set d n d' : update_storage sel set d = Ok (n, d') -> frame storage_tables d d'.
Proof.
  unfold update_storage. intros. case_match eqn:E; simplify_eq. revert E. apply each_row_rel; [apply _|].
  intros. branches; eauto with frames.
Qed.
#[export] Hint Resolve update_storage_frame : frames.

Lemma update_intent_frame hash sel set d n d' : update_intent hash sel set d = Ok (n, d') -> frame [Intents] d d'.
Proof. unfold update_intent. frame_body. Qed.
Lemma advanceIntent_frame v d u d' : advanceIntent v d = Ok (u, d') -> frame [Intents] d d'.
Proof. unfold advanceIntent. intros. branches. eauto using update_intent_frame. Qed.
Lemma put_block_frame hash sel kind reason d n d' : put_block hash sel kind reason d = Ok (n, d') -> frame [Blocks] d d'.
Proof. unfold put_block. frame_body. Qed.
#[export] Hint Resolve update_intent_frame advanceIntent_frame put_block_frame : frames.

(** ** Operations *)

Lemma atomically_rel {A} (R : relation db) `{!PreOrder R} (body : tx A) d :
  (forall a d', body d = Ok (a, d') -> R d d') -> R d (snd (atomically body d)).
Proof. unfold atomically. intros H. destruct (body d) as [[a d']|e]; cbn; [by eapply H|reflexivity]. Qed.

Lemma affecting_one_rel (R : relation db) `{!PreOrder R} (statement : tx Z) e d :
  (forall n d', statement d = Ok (n, d') -> R d d') -> R d (snd (affecting_one statement e d)).
Proof. unfold affecting_one. intros H. destruct (statement d) as [[n d']|]; cbn; [by eapply H|reflexivity]. Qed.

Lemma fold_left_rel {A} (R : relation db) `{!PreOrder R} (step : db -> A -> db) xs :
  (forall d x, R d (step d x)) -> forall d, R d (fold_left step xs d).
Proof. intros H. induction xs as [|x xs IH]; intros d; cbn; [reflexivity|]. etransitivity; [apply H|apply IH]. Qed.

Definition touches (op : operation) : list table :=
  match op with
  | OpCreateTorrent _ _ => [Torrents; Order; Intents; TorrentFiles; Owners; Recoveries]
  | OpCommitRunIntent _ _ | OpCommitResumeRetry _ => [Intents; Blocks; Torrents; Owners; Recoveries]
  | OpAttachRuntime _ _ => [Intents]
  | OpSaveRuntimeObservation _ => [Intents; Torrents; Owners; Recoveries; TorrentFiles; FileInventory]
  | OpPutActivationBlock _ _ _ | OpPutRuntimeSafetyBlock _ _ _ | OpClearActivationBlock _ _ => [Blocks]
  | OpSaveDownloadBlock _ _ => [DownloadBlocks]
  | OpSaveCatalog _ _ => [Torrents; Owners; Recoveries; TorrentFiles]
  | OpCommitAddMetadata _ _ _ | OpMakePermanent _ => [Intents; Torrents; Owners; Recoveries]
  | OpUpdateFilePriority _ _ _ | OpUpdateTorrentFilesPriority _ _ => [TorrentFiles; Intents]
  | OpSaveStorageMapping _ _ | OpEnsureStorageMapping _ _ | OpSaveStorageAlias _ _
  | OpSaveStorageMappingForRecord _ _ _ | OpClaimStorageAlias _ _ _ | OpSetStoragePreparationError _ _ _
  | OpSetStorageLayout _ _ _ => storage_tables
  | OpCreateStorageOperation _ _ _ _ | OpFinishStorageOperation _ _ _ _ => [Owners; Recoveries; Claims]
  | OpCommitStorageOperation _ _ _ _ =>
      [Owners; Storage; StorageInventory; FileInventory; Recoveries; Claims; Intents; Blocks]
  | OpTransitionStorageOperation _ _ _ | OpNextRecoveryVersion _ | OpSaveRecovery _ | OpClearRecovery _ _ _
  | OpAdvanceDeletion _ _ _ _ | OpMarkDeletionPartial _ _ => [Owners; Recoveries]
  | OpRequestDeletionCancel _ _ _ => [Owners; Recoveries; Intents]
  | OpCompleteDeletionCancel _ _ _ | OpSaveCleanupPaths _ _ | OpBeginCleanup _ _ | OpBeginForget _
  | OpSaveDeletionError _ _ => [Owners; Recoveries; Torrents]
  | OpDeleteTorrent _ =>
      [Owners; Intents; Blocks; Torrents; Order; TorrentFiles; FileInventory; Recoveries; Claims; DownloadBlocks;
       Viewed; Storage; StorageInventory]
  | OpBeginVolumeEnrollment _ _ _ | OpFinishVolumeEnrollment _ _ => [Volumes]
  | OpBeginInventorySession _ => [Session; StorageInventory]
  | OpPrimeNewInventory _ _ => [StorageInventory]
  | OpSaveInventory _ _ _ _ _ _ _ _ _ => [TorrentFiles; FileInventory; StorageInventory; Blocks]
  | OpCaptureResume _ _ | OpInvalidateResume _ _ | OpInvalidateResumeMutation _ _ => [Owners]
  | OpCommitResume _ _ _ | OpRevokeResume _ _ _ => [Owners; Checkpoints]
  end.

(** The unfolding of an operation to its transaction. *)
Ltac open_op :=
  match goal with
  | |- ?R ?d (snd (atomically _ ?d)) => apply atomically_rel; [apply _|]
  | |- ?R ?d (snd (affecting_one _ _ ?d)) => apply affecting_one_rel; [apply _|]
  end.

(** An operation that goes on with the answer of another one. *)
Ltac open_answer :=
  match goal with
  | |- ?R ?d (snd (match ?p with (_, _) => _ end)) =>
      let E := fresh in let d1 := fresh "d" in
      destruct p as [[?|?] d1] eqn:E; cbn [snd];
      (replace d1 with (snd p) by (by rewrite E)); clear E
  end.

Ltac unfold_op :=
  unfold CreateTorrent, CommitRunIntent, CommitResumeRetry, commitRunIntent, commitRunIntent_tx, AttachRuntime,
    SaveRuntimeObservation, SaveRuntimeObservation_tx, PutActivationBlock, PutRuntimeSafetyBlock,
    ClearActivationBlock, SaveDownloadBlock, SaveCatalog, MakePermanent, CommitAddMetadata, CommitAddMetadata_tx,
    UpdateFilePriority, UpdateTorrentFilesPriority, updatePriority_tx, SaveStorageMapping, EnsureStorageMapping,
    SaveStorageAlias, SaveStorageMappingForRecord, ClaimStorageAlias, SetStoragePreparationError, SetStorageLayout,
    CreateStorageOperation, CreateStorageOperation_tx, TransitionStorageOperation, CommitStorageOperation,
    CommitStorageOperation_tx, FinishStorageOperation, NextRecoveryVersion, SaveRecovery, ClearRecovery,
    RequestDeletionCancel, RequestDeletionCancel_tx, CompleteDeletionCancel, CompleteDeletionCancel_tx,
    AdvanceDeletion, MarkDeletionPartial, SaveCleanupPaths, BeginCleanup, writeCleanupPaths, BeginForget,
    SaveDeletionError, DeleteTorrent, DeleteTorrent_tx, BeginVolumeEnrollment, FinishVolumeEnrollment,
    PrimeNewInventory, SaveInventory, SaveInventory_tx, clear_retryable, forget_inventory.

Ltac unfold_resume :=
  unfold CaptureResume, CaptureResume_tx, CommitResume, CommitResume_tx, RevokeResume, RevokeResume_tx,
    InvalidateResume, InvalidateResumeMutation, InvalidateResumeMutation_tx.

(** Down to the transactions of an operation. *)
Ltac open_ops :=
  repeat match goal with
  | |- ?R ?d ?d => reflexivity
  | |- ?R ?d (snd (_, ?d1)) => cbn [snd]
  | |- ?R ?d (snd (atomically _ ?d)) => open_op; intros ? ?
  | |- ?R ?d (snd (affecting_one _ _ ?d)) => open_op; intros ? ?
  | |- ?R ?d (snd (if ?b then _ else _)) => destruct b eqn:?
  | |- ?R ?d (snd (match ?p with (_, _) => _ end)) => open_answer
  | |- ?R ?d (snd (match ?p with Ok _ => _ | Err _ => _ end)) => destruct p eqn:?
  | |- ?R ?d (snd (match ?p with Some _ => _ | None => _ end)) => destruct p eqn:?
  end.

Section Operations.
Context (fold : string -> string) (catalog_json : TorrentCatalog -> list byte).

Lemma saveCatalogTx_frame hash c d d' :
  saveCatalogTx catalog_json hash c d = Ok d' -> frame [Torrents; Owners; Recoveries; TorrentFiles] d d'.
Proof.
  unfold saveCatalogTx. intros. branches.
  etransitivity; [|apply fold_left_rel; [apply _|]; intros; unfold save_file; frame_step].
  chain_with frame_step.
Qed.
Hint Resolve saveCatalogTx_frame : frames.

Lemma setStorageLayoutTx_frame before recordID next d d' :
  setStorageLayoutTx fold before recordID next d = Ok d' -> frame storage_tables d d'.
Proof. unfold setStorageLayoutTx. intros. branches; eauto with frames. Qed.
Hint Resolve setStorageLayoutTx_frame : frames.

Lemma expect_file_frame o index d : frame [FileInventory] d (expect_file o index d).
Proof. unfold expect_file. branches; chain_with frame_step. Qed.

Lemma save_observed_frame o verified values observed : forall d d',
  save_observed o verified values observed d = Ok d' -> frame [TorrentFiles; FileInventory] d d'.
Proof.
  induction observed as [|f observed IH]; intros d d' H; simplify_eq/=; [reflexivity|].
  case_match; [|done]. case_match; [done|]. apply IH in H. etransitivity; [|exact H]. clear H IH.
  do 2 case_match; try (etransitivity; [|eapply frame_weaken, expect_file_frame; reflexivity]); chain_with frame_step.
Qed.
Hint Resolve save_observed_frame : frames.

Lemma save_progress_frame o fileBytes d d' :
  save_progress o fileBytes d = Ok d' -> frame [Torrents; Owners; Recoveries] d d'.
Proof. unfold save_progress. intros. branches; eauto with frames. Qed.
Hint Resolve save_progress_frame : frames.

Lemma begin_inventory_frame session d s : frame [StorageInventory] d (begin_inventory session d s).
Proof. unfold begin_inventory. frame_step. Qed.

Lemma insert_claim_frame c d d' : insert_claim c d = Ok d' -> frame [Claims] d d'.
Proof. unfold insert_claim. frame_body. Qed.
Lemma insert_claims_frame claims d d' : each_row insert_claim claims d = Ok d' -> frame [Claims] d d'.
Proof. apply each_row_rel; [apply _|]. intros ???. apply insert_claim_frame. Qed.
Lemma retain_claims_frame m r retained : forall d d', retain_claims m r retained d = Ok d' -> frame [Claims] d d'.
Proof.
  induction retained as [|path retained IH]; intros d d' H; simplify_eq/=; [reflexivity|].
  case_match; [done|]. case_match eqn:E; [|done]. etransitivity; [by eapply insert_claim_frame|eauto].
Qed.
Lemma delete_storages_frame keys d d' : each_row delete_storage keys d = Ok d' -> frame storage_tables d d'.
Proof. apply each_row_rel; [apply _|]. intros ???. apply delete_storage_frame. Qed.
Lemma save_inventory_files_frame m id listed d d' :
  each_row (save_inventory_file m id) listed d = Ok d' -> frame [TorrentFiles; FileInventory] d d'.
Proof. apply each_row_rel; [apply _|]. unfold save_inventory_file. frame_body. Qed.
Hint Resolve insert_claims_frame retain_claims_frame delete_storages_frame save_inventory_files_frame : frames.

Lemma insert_owner_frame owner record revision d d' : insert_owner owner record revision d = Ok d' -> frame [Owners] d d'.
Proof. unfold insert_owner. frame_body. Qed.
Lemma put_checkpoint_frame owner row d d' : put_checkpoint owner row d = Ok d' -> frame [Checkpoints] d d'.
Proof. unfold put_checkpoint. frame_body. Qed.
Hint Resolve insert_owner_frame put_checkpoint_frame : frames.

(** No operation changes a table outside those it is listed with. *)
Lemma apply_frame op d : frame (touches op) d (apply fold catalog_json d op).
Proof.
  destruct op; cbn [apply touches]; unfold_op; open_ops; frame_body.
  { unfold BeginInventorySession.
    transitivity (d <| inventory_session := session |>); [frame_step|].
    apply (fold_left_rel _). intros. eapply frame_weaken, begin_inventory_frame. reflexivity. }
  all: unfold_resume; open_ops; frame_body.
Qed.
End Operations.
