(* ===== verification/ResumeFences.v ===== *)
(** * Fences of the resume heads

    Outside the operations on checkpoints no statement of the repository grants
    anything to a resume head: it keeps the head or invalidates it with a
    greater epoch, and never touches a checkpoint. *)

From stdpp Require Import base gmap list strings.
From Stdlib Require Import ZArith Strings.Byte Lia.
From S2P Require Import Prelude Models Paths Layout FastResume Codec Tables IntentStore StorageStore ResumeStore.
From S2P Require Import Library LibraryFrame.

#[local] Open Scope Z_scope.

Record head_fenced (o o' : owner_row) : Prop := mkHeadFenced {
  hf_record : ow_record_id o' = ow_record_id o;
  hf_mapping : ow_mapping_revision o' = ow_mapping_revision o;
  hf_generation : ow_generation o' = ow_generation o;
  hf_epoch : o' = o \/ ow_mutation_epoch o < ow_mutation_epoch o' /\ ow_invalidated o' = true;
}.

#[export] Instance head_fenced_preorder : PreOrder head_fenced.
Proof.
  split; [by split; auto|].
  intros o1 o2 o3 [????] [??? H']. split; try congruence.
  destruct hf_epoch0 as [->|[]], H' as [->|[]]; auto; right; split; auto; lia.
Qed.

Definition fenced (d d' : db) : Prop :=
  resume_checkpoints d' = resume_checkpoints d /\
  forall sid, option_Forall2 head_fenced (resume_owners d !! sid) (resume_owners d' !! sid).

#[export] Instance fenced_preorder : PreOrder fenced.
Proof.
  split; [by split|]. intros d1 d2 d3 [? H1] [? H2]. split; [congruence|].
  intros sid. etransitivity; [apply H1|apply H2].
Qed.

Lemma fenced_of_frame ts d d' :
  frame ts d d' -> bool_decide (Owners ∈ ts) || bool_decide (Checkpoints ∈ ts) = false -> fenced d d'.
Proof.
  intros H Hts. apply orb_false_iff in Hts as [Ho Hc].
  split; [exact (H Checkpoints Hc)|]. intros sid. pose proof (H Owners Ho) as E. cbn in E. by rewrite E.
Qed.

Lemma invalidate_fenced o : head_fenced o (invalidate o).
Proof. split; try done. right. cbn. split; [lia|done]. Qed.

Lemma fence_owners_fenced check select d d' : fence_owners check select d = Ok d' -> fenced d d'.
Proof.
  unfold fence_owners. case_match; [done|]. intros ?; simplify_eq. split; [done|].
  intros sid. cbn. rewrite map_lookup_imap. destruct (resume_owners d !! sid) as [o|]; cbn; [|constructor].
  constructor. case_match; [apply invalidate_fenced|done].
Qed.

Create HintDb fences.

Ltac fence_step :=
  first
    [ by (split; [done|intros ?; cbn; reflexivity])
    | solve [eauto with fences]
    | eapply fenced_of_frame; [solve [eauto with frames]|]; reflexivity ].

Ltac fence_body := intros; branches; chain_with fence_step.

Lemma fence_storage_fenced sid d d' : fence_storage sid d = Ok d' -> fenced d d'.
Proof. apply fence_owners_fenced. Qed.
Lemma fence_record_fenced record d d' : fence_record record d = Ok d' -> fenced d d'.
Proof. apply fence_owners_fenced. Qed.
#[export] Hint Resolve fence_owners_fenced fence_storage_fenced fence_record_fenced : fences.

Lemma resume_journal_fenced hash r d d' : resume_journal hash r d = Ok d' -> fenced d d'.
Proof. unfold resume_journal. fence_body. Qed.
#[export] Hint Resolve resume_journal_fenced : fences.

Lemma update_recovery_fenced hash sel set d n d' : update_recovery hash sel set d = Ok (n, d') -> fenced d d'.
Proof. unfold update_recovery. fence_body. Qed.
Lemma upsert_recovery_fenced hash row conflict d n d' : upsert_recovery hash row conflict d = Ok (n, d') -> fenced d d'.
Proof. unfold upsert_recovery. fence_body. Qed.
#[export] Hint Resolve update_recovery_fenced upsert_recovery_fenced : fences.

Lemma resume_deletion_intent_fenced hash old new d d' : resume_deletion_intent hash old new d = Ok d' -> fenced d d'.
Proof. unfold resume_deletion_intent. fence_body. Qed.
Lemma recovery_deletion_intent_fenced hash old new d d' : recovery_deletion_intent hash old new d = Ok d' -> fenced d d'.
Proof. unfold recovery_deletion_intent. fence_body. Qed.
#[export] Hint Resolve resume_deletion_intent_fenced recovery_deletion_intent_fenced : fences.

Lemma update_torrent_fenced hash sel set d n d' : update_torrent hash sel set d = Ok (n, d') -> fenced d d'.
Proof. unfold update_torrent. fence_body. Qed.
Lemma delete_intent_fenced hash d d' : delete_intent hash d = Ok d' -> fenced d d'.
Proof. unfold delete_intent. fence_body. Qed.
#[export] Hint Resolve update_torrent_fenced delete_intent_fenced : fences.

Lemma delete_torrent_row_fenced hash d d' : delete_torrent_row hash d = Ok d' -> fenced d d'.
Proof. unfold delete_torrent_row. fence_body. Qed.
#[export] Hint Resolve delete_torrent_row_fenced : fences.

Lemma resume_mapping_change_fenced old new d d' : resume_mapping_change old new d = Ok d' -> fenced d d'.
Proof. unfold resume_mapping_change. fence_body. Qed.
Lemma resume_mapping_workflow_fenced old new d d' : resume_mapping_workflow old new d = Ok d' -> fenced d d'.
Proof. unfold resume_mapping_workflow. fence_body. Qed.
#[export] Hint Resolve resume_mapping_change_fenced resume_mapping_workflow_fenced : fences.

Lemma storage_mapping_revision_fenced hash old new d d' : storage_mapping_revision hash old new d = Ok d' -> fenced d d'.
Proof.
  unfold storage_mapping_revision. intros. branches.
  etransitivity; [|eapply fenced_of_frame; [apply inventory_mapping_frame|reflexivity]]. chain_with fence_step.
Qed.
#[export] Hint Resolve storage_mapping_revision_fenced : fences.

Lemma write_storage_fenced hash old new d d' : write_storage hash old new d = Ok d' -> fenced d d'.
Proof. unfold write_storage. fence_body. Qed.
#[export] Hint Resolve write_storage_fenced : fences.

Lemma upsert_storage_fenced hash row conflict random d n d' :
  upsert_storage hash row conflict random d = Ok (n, d') -> fenced d d'.
Proof. unfold upsert_storage. fence_body. Qed.
Lemma delete_storage_fenced hash d d' : delete_storage hash d = Ok d' -> fenced d d'.
Proof. unfold delete_storage. fence_body. Qed.
Lemma update_storage_fenced sel set d n d' : update_storage sel set d = Ok (n, d') -> fenced d d'.
Proof.
  unfold update_storage. intros. case_match eqn:E; simplify_eq. revert E. apply each_row_rel; [apply _|].
  intros. branches; eauto with fences.
Qed.
Lemma delete_storages_fenced keys d d' : each_row delete_storage keys d = Ok d' -> fenced d d'.
Proof. apply each_row_rel; [apply _|]. intros ???. apply delete_storage_fenced. Qed.
#[export] Hint Resolve upsert_storage_fenced delete_storage_fenced update_storage_fenced delete_storages_fenced : fences.

(** The operations on checkpoints. *)
Definition resume_operation (op : operation) : bool :=
  match op with
  | OpCaptureResume _ _ | OpCommitResume _ _ _ | OpRevokeResume _ _ _ | OpInvalidateResume _ _
  | OpInvalidateResumeMutation _ _ => true
  | _ => false
  end.

Section Operations.
Context (fold : string -> string) (catalog_json : TorrentCatalog -> list byte).

Lemma saveCatalogTx_fenced hash c d d' : saveCatalogTx catalog_json hash c d = Ok d' -> fenced d d'.
Proof.
  unfold saveCatalogTx. intros. branches.
  etransitivity; [|apply fold_left_rel; [apply _|]; intros; unfold save_file; fence_step].
  chain_with fence_step.
Qed.
Lemma setStorageLayoutTx_fenced before recordID next d d' :
  setStorageLayoutTx fold before recordID next d = Ok d' -> fenced d d'.
Proof. unfold setStorageLayoutTx. intros. branches; eauto with fences. Qed.
Lemma save_progress_fenced o fileBytes d d' : save_progress o fileBytes d = Ok d' -> fenced d d'.
Proof. unfold save_progress. intros. branches; eauto with fences. Qed.
Hint Resolve saveCatalogTx_fenced setStorageLayoutTx_fenced save_progress_fenced : fences.
Hint Resolve save_observed_frame insert_claims_frame retain_claims_frame save_inventory_files_frame : frames.

Lemma apply_fenced op d : resume_operation op = false -> fenced d (apply fold catalog_json d op).
Proof.
  intros Hop.
  destruct op; try discriminate Hop; cbn [apply]; unfold_op; open_ops; fence_body.
  eapply fenced_of_frame; [apply (apply_frame fold catalog_json (OpBeginInventorySession session))|reflexivity].
Qed.
End Operations.
