(* ===== verification/ResumeSafety.v ===== *)
(** * Resume heads and what they claim

    The epoch of a head only grows, a checkpoint is published only under the
    exact head that was captured, and the pieces a live head claims shrink until
    the next publication. *)

From stdpp Require Import base gmap list strings.
From Stdlib Require Import ZArith Strings.Byte Lia.
From coqutil Require Import Byte.
From S2P Require Import Prelude Models Paths Layout FastResume Codec Sha256 Tables IntentStore StorageStore ResumeStore.
From S2P Require Import Library LibraryFrame ResumeFences.

#[local] Open Scope Z_scope.

(** ** Inversion of the operations *)

Lemma readResumeHead_Some d owner s : readResumeHead d owner = Ok (Some s) ->
  exists o, resume_owners d !! owner = Some o /\ rs_Token s = head_token owner o /\
    rs_Invalidated s = ow_invalidated o.
Proof. unfold readResumeHead. intros. branches. eauto. Qed.

Lemma readResumeHead_bounds d owner s : readResumeHead d owner = Ok (Some s) ->
  exists o, resume_owners d !! owner = Some o /\ 0 < ow_mutation_epoch o /\ 0 <= ow_generation o /\
    0 < ow_mapping_revision o /\ len owner <= 256 /\ len (ow_record_id o) <= 256.
Proof.
  unfold readResumeHead. destruct (resume_owners d !! owner) as [o|]; [|done].
  case_match; [done|]. case_match; [done|]. intros _. exists o. split_and!; try done; lia.
Qed.

Lemma begin_with_token_bounds d m token s : begin_with_token d m token = Ok s ->
  exists o, resume_owners d !! tk_StorageID token = Some o /\ 0 < ow_mutation_epoch o /\ 0 <= ow_generation o /\
    0 < ow_mapping_revision o /\ len (tk_StorageID token) <= 256 /\ len (ow_record_id o) <= 256.
Proof.
  unfold begin_with_token, checkResumeToken. destruct (beginResumeWrite _ _ _); [|done]. case_match; [done|].
  destruct (readResumeHead d (tk_StorageID token)) as [[s'|]|] eqn:E; [|done..]. intros _.
  by eapply readResumeHead_bounds.
Qed.

Lemma begin_with_token_inv d m token s : begin_with_token d m token = Ok s ->
  tk_StorageID token = m_StorageID m /\ checkResumeFence d m (tk_RecordID token) = Ok tt /\
  checkResumeDurability d = Ok tt /\ tk_MappingRevision token = m_Revision m /\ 0 < tk_Epoch token /\
  exists o, resume_owners d !! m_StorageID m = Some o /\ token = head_token (m_StorageID m) o /\
    rs_Token s = token /\ rs_Invalidated s = ow_invalidated o.
Proof.
  unfold begin_with_token, beginResumeWrite, checkResumeToken. intros. branches. split_bools.
  match goal with E : readResumeHead _ _ = _ |- _ => apply readResumeHead_Some in E as (o & Ho & Ht & Hi) end.
  repeat match goal with u : unit |- _ => destruct u end.
  assert (tk_StorageID token = m_StorageID m) as Heq by done. rewrite Heq in *.
  split_and!; try done; try lia. exists o. split_and!; try done. congruence.
Qed.

(** ** Epochs *)

(** The head is the one of the token or a later one. *)
Definition head_reached (t : ResumeToken) (d : db) : Prop :=
  exists o, resume_owners d !! tk_StorageID t = Some o /\
    (head_token (tk_StorageID t) o = t \/ tk_Epoch t < ow_mutation_epoch o).

Definition head_passed (t : ResumeToken) (d : db) : Prop :=
  exists o, resume_owners d !! tk_StorageID t = Some o /\ tk_Epoch t < ow_mutation_epoch o.

Lemma head_passed_reached t d : head_passed t d -> head_reached t d.
Proof. intros (o & ? & ?). exists o. auto. Qed.

(** The transitions of one head: it stays with its checkpoint, or its epoch
    grows. *)
Definition heads_advance (d d' : db) : Prop :=
  forall sid o, resume_owners d !! sid = Some o ->
    exists o', resume_owners d' !! sid = Some o' /\
      (o' = o /\ resume_checkpoints d' !! sid = resume_checkpoints d !! sid \/
       ow_mutation_epoch o < ow_mutation_epoch o').

#[export] Instance heads_advance_preorder : PreOrder heads_advance.
Proof.
  split; [by intros d sid o ?; eauto 6|].
  intros d1 d2 d3 H1 H2 sid o Ho. destruct (H1 _ _ Ho) as (o2 & Ho2 & H12).
  destruct (H2 _ _ Ho2) as (o3 & Ho3 & H23). exists o3. split; [done|].
  destruct H12 as [[-> E1]|?], H23 as [[-> E2]|?]; [left; split; congruence|right; lia..].
Qed.

Lemma fenced_advance d d' : fenced d d' -> heads_advance d d'.
Proof.
  intros [Hc H] sid o Ho. specialize (H sid). rewrite Ho in H. rewrite Hc.
  destruct (resume_owners d' !! sid) as [o'|]; [|by inversion H].
  assert (head_fenced o o') as Hf by (by inversion H).
  exists o'. split; [done|]. destruct (hf_epoch _ _ Hf) as [->|[]]; auto.
Qed.

Lemma alter_owner_advance f sid d (g : gmap string checkpoint_row -> gmap string checkpoint_row) :
  (forall o, resume_owners d !! sid = Some o -> ow_mutation_epoch o < ow_mutation_epoch (f o)) ->
  (forall sid', sid' <> sid -> g (resume_checkpoints d) !! sid' = resume_checkpoints d !! sid') ->
  heads_advance d (d <| resume_checkpoints ::= g |> <| resume_owners ::= alter f sid |>).
Proof.
  intros Hf Hg sid' o Ho. cbn. destruct (decide (sid' = sid)) as [->|].
  - exists (f o). rewrite lookup_alter_eq, Ho. auto.
  - exists o. rewrite lookup_alter_ne, Hg by done. auto.
Qed.

Lemma alter_head_advance f sid d :
  (forall o, resume_owners d !! sid = Some o -> ow_mutation_epoch o < ow_mutation_epoch (f o)) ->
  heads_advance d (d <| resume_owners ::= alter f sid |>).
Proof. intros Hf. by apply (alter_owner_advance f sid d id). Qed.

(** An operation on the heads answers, or it changes nothing. *)
Lemma atomically_cases {A} (body : tx A) d :
  (exists a d', body d = Ok (a, d') /\ atomically body d = (Ok a, d')) \/
  (exists e, body d = Err e /\ atomically body d = (Err e, d)).
Proof. unfold atomically. destruct (body d) as [[a d']|e]; eauto 6. Qed.

(** *** Capture *)

Definition rebind (record : string) (revision : Z) (o : owner_row) : owner_row :=
  o <| ow_record_id := record |> <| ow_mapping_revision := revision |>
    <| ow_mutation_epoch := ow_mutation_epoch o + 1 |> <| ow_invalidated := true |>.

Lemma CaptureResume_tx_inv d m record t d' : CaptureResume_tx m record d = Ok (t, d') ->
  checkResumeDurability d = Ok tt /\ checkResumeFence d m record = Ok tt /\ tk_StorageID t = m_StorageID m /\
  tk_RecordID t = record /\ tk_MappingRevision t = m_Revision m /\
  exists o, resume_owners d' !! m_StorageID m = Some o /\ t = head_token (m_StorageID m) o /\
    (d' = d
     \/ resume_owners d !! m_StorageID m = None /\ 0 < m_Revision m /\
        len (m_StorageID m) <= 256 /\ len record <= 256 /\
        o = mkOwnerRow record (m_Revision m) 1 0 true /\ d' = set_owner (m_StorageID m) o d
     \/ exists old, resume_owners d !! m_StorageID m = Some old /\ 0 < m_Revision m /\ len record <= 256 /\
        o = rebind record (m_Revision m) old /\
        d' = d <| resume_owners ::= alter (rebind record (m_Revision m)) (m_StorageID m) |>).
Proof.
  unfold CaptureResume_tx. intros H.
  destruct (beginResumeWrite d m record) as [[]|] eqn:Eb; [|done].
  assert (checkResumeDurability d = Ok tt /\ checkResumeFence d m record = Ok tt) as [? Hfence].
  { unfold beginResumeWrite in Eb. by destruct (checkResumeDurability d) as [[]|]. }
  assert (len record <= 256 /\ len (m_StorageID m) <= 256) as [??].
  { unfold checkResumeFence in Hfence. case_match; [done|]. case_match eqn:El; [done|].
    split_bools. unfold MaxIdentityLength in *. lia. }
  destruct (readResumeHead d (m_StorageID m)) as [hd|] eqn:Eh; [|done].
  destruct (match hd with Some s => _ | None => _ end) as [a|] eqn:Ea in H; [|done].
  destruct (readResumeHead a (m_StorageID m)) as [[s'|]|] eqn:Er; [|done..]. simplify_eq.
  apply readResumeHead_Some in Er as (o' & Ho' & Ht' & _). rewrite Ht'. do 3 (split; [done|]).
  destruct hd as [s|].
  - apply readResumeHead_Some in Eh as (o & Ho & Ht & _). rewrite Ht in Ea. cbn in Ea.
    destruct (_ || _) eqn:Ebound in Ea.
    + case_match; [done|]. case_match; [done|]. simplify_eq. cbn in Ho'. rewrite lookup_alter_eq, Ho in Ho'.
      simplify_eq/=. do 2 (split; [done|]). eexists. rewrite lookup_alter_eq, Ho. do 2 (split; [done|]).
      right; right. exists o. split_and!; try done. lia.
    + split_bools. simplify_eq. cbn. split; [done|]. split; [lia|]. eauto 6.
  - unfold insert_owner in Ea. case_match eqn:Ec; [done|]. simplify_eq. cbn in Ho'. rewrite lookup_insert_eq in Ho'.
    simplify_eq/=. do 2 (split; [done|]). eexists. rewrite lookup_insert_eq. do 2 (split; [done|]). right; left.
    unfold readResumeHead in Eh. branches. split_bools. split_and!; try done. lia.
Qed.

Lemma CaptureResume_inv d m record t d' : CaptureResume d m record = (Ok t, d') ->
  CaptureResume_tx m record d = Ok (t, d').
Proof. unfold CaptureResume, atomically. intros. branches. Qed.

Section Publication.
Context (fold : string -> string).

(** *** Publication *)

Definition publish_head (next : ResumeToken) (o : owner_row) : owner_row :=
  o <| ow_generation := tk_Generation next |> <| ow_mutation_epoch := tk_Epoch next |> <| ow_invalidated := false |>.

Definition published_row (token : ResumeToken) (c : Checkpoint) (blob : list byte) : checkpoint_row :=
  let revoked := replicate (length (Pieces c)) x00 in
  mkCheckpointRow blob revoked (resumeIntegrity (published token) blob revoked).

Lemma CommitResume_inv d m token c next d' : CommitResume fold d m token c = (Ok next, d') ->
  exists blob o, Encode fold c = Ok blob /\ Generation c = tk_Generation token + 1 /\
    RecordID (c_Identity c) = tk_RecordID token /\ StorageID (c_Identity c) = m_StorageID m /\
    MappingRevision (c_Identity c) = tk_MappingRevision token /\ next = published token /\
    checkResumeDurability d = Ok tt /\ checkResumeFence d m (tk_RecordID token) = Ok tt /\
    resume_owners d !! m_StorageID m = Some o /\ token = head_token (m_StorageID m) o /\ 0 < tk_Epoch token /\
    tk_MappingRevision token = m_Revision m /\ Z.of_nat (length (Pieces c)) <= 524288 /\
    d' = d <| resume_checkpoints ::= <[m_StorageID m := published_row token c blob]> |>
           <| resume_owners ::= alter (publish_head next) (m_StorageID m) |>.
Proof.
  unfold CommitResume. case_match eqn:Eg; [done|]. destruct (Encode fold c) as [blob|] eqn:He; [|done].
  intros H. destruct (atomically_cases (CommitResume_tx m token c blob) d) as [(t' & d1 & Hb & Ha)|(e & _ & Ha)];
    rewrite Ha in H; simplify_eq.
  unfold CommitResume_tx in Hb. destruct (begin_with_token d m token) as [s|] eqn:Es; [|done].
  apply begin_with_token_inv in Es as (Hsid & ? & ? & ? & ? & o & Ho & Ht & _).
  unfold put_checkpoint in Hb. cbn [cp_payload cp_revoked cp_integrity] in Hb. destruct (_ || _) eqn:Ec in Hb; [done|].
  simplify_eq Hb. intros <- <-. apply orb_false_iff in Ec as [Ec _]. apply orb_false_iff in Ec as [Ec _].
  apply orb_false_iff in Ec as [_ Ec]. rewrite length_replicate in Ec.
  split_bools. exists blob, o. rewrite Hsid in *. unfold published_row.
  split_and!; try done; try lia; try congruence.
Qed.

Lemma CommitResume_cases d m token c :
  (exists next d', CommitResume fold d m token c = (Ok next, d')) \/
  (exists e, CommitResume fold d m token c = (Err e, d)).
Proof.
  unfold CommitResume. case_match; [eauto|]. case_match; [|eauto].
  match goal with |- context [atomically ?b d] => destruct (atomically_cases b d) as [(?&?&_&->)|(?&_&->)] end; eauto.
Qed.

(** *** Revocation *)

Definition revoked_row (next : ResumeToken) (blob revoked : list byte) (row : checkpoint_row) : checkpoint_row :=
  mkCheckpointRow (cp_payload row) revoked (resumeIntegrity next blob revoked).

Definition advance_head (next : ResumeToken) (o : owner_row) : owner_row :=
  o <| ow_mutation_epoch := tk_Epoch next |>.

Lemma readResumePayload_inv d token blob revoked : readResumePayload d token = Ok (blob, revoked) ->
  exists row, resume_checkpoints d !! tk_StorageID token = Some row /\ cp_payload row = blob /\ cp_revoked row = revoked /\
    Z.of_nat (length blob) <= MaxCheckpointBytes /\ Z.of_nat (length revoked) <= Z.quot MaxPieces 8 /\
    cp_integrity row = resumeIntegrity token blob revoked.
Proof.
  unfold readResumePayload. destruct (resume_checkpoints d !! _) as [row|]; [|done].
  case_match eqn:El; [done|]. case_match eqn:Ei; [done|]. intros; simplify_eq.
  exists row. split_bools. split_and!; try done; lia.
Qed.

Lemma decodeResume_inv s blob revoked s' : decodeResume fold s blob revoked = Ok s' ->
  exists c, Decode fold blob = Ok c /\ s' = mkResumeSnapshot (rs_Token s) (rs_Invalidated s) (Some c) revoked /\
    StorageID (c_Identity c) = tk_StorageID (rs_Token s) /\ RecordID (c_Identity c) = tk_RecordID (rs_Token s) /\
    MappingRevision (c_Identity c) = tk_MappingRevision (rs_Token s) /\ Generation c = tk_Generation (rs_Token s) /\
    validBitmap revoked (PieceCount (c_Identity c)) = true.
Proof.
  unfold decodeResume, lift. destruct (Decode fold blob) as [c|]; [|done].
  case_match eqn:Ei; [done|]. unfold ValidateBitmap. destruct (validBitmap _ _) eqn:Ev; [|done]. cbn.
  intros; simplify_eq. exists c. split_bools. split_and!; try done; lia.
Qed.

(** What a successful revocation did. *)
Inductive revocation (d : db) (m : StorageMapping) (token : ResumeToken) (mask : list byte)
    : ResumeToken -> db -> Prop :=
| revoked_dead o : resume_owners d !! m_StorageID m = Some o -> ow_invalidated o = true ->
    revocation d m token mask token d
| revoked_already o row c revoked : resume_owners d !! m_StorageID m = Some o ->
    resume_checkpoints d !! m_StorageID m = Some row -> Decode fold (cp_payload row) = Ok c ->
    validBitmap (cp_revoked row) (PieceCount (c_Identity c)) = true ->
    validBitmap mask (PieceCount (c_Identity c)) = true ->
    add_revoked mask (Pieces c) (cp_revoked row) = Some (false, revoked) ->
    revocation d m token mask token d
| revoked_now o row c revoked : resume_owners d !! m_StorageID m = Some o ->
    ow_invalidated o = false ->
    token = head_token (m_StorageID m) o ->
    resume_checkpoints d !! m_StorageID m = Some row -> Decode fold (cp_payload row) = Ok c ->
    StorageID (c_Identity c) = m_StorageID m -> RecordID (c_Identity c) = tk_RecordID token ->
    MappingRevision (c_Identity c) = tk_MappingRevision token -> Generation c = tk_Generation token ->
    Z.of_nat (length (cp_payload row)) <= MaxCheckpointBytes ->
    Z.of_nat (length (cp_revoked row)) <= Z.quot MaxPieces 8 ->
    validBitmap (cp_revoked row) (PieceCount (c_Identity c)) = true ->
    validBitmap mask (PieceCount (c_Identity c)) = true ->
    add_revoked mask (Pieces c) (cp_revoked row) = Some (true, revoked) ->
    revocation d m token mask (advanced token)
      (d <| resume_checkpoints ::= alter (revoked_row (advanced token) (cp_payload row) revoked) (m_StorageID m) |>
         <| resume_owners ::= alter (advance_head (advanced token)) (m_StorageID m) |>).

Lemma RevokeResume_inv d m token mask next d' :
  RevokeResume fold d m token mask = (Ok next, d') -> revocation d m token mask next d'.
Proof.
  unfold RevokeResume. intros H.
  destruct (atomically_cases (RevokeResume_tx fold m token mask) d) as [(t' & d1 & Hb & Ha)|(e & _ & Ha)];
    rewrite Ha in H; simplify_eq.
  unfold RevokeResume_tx in Hb. destruct (begin_with_token d m token) as [s|] eqn:Es; [|done].
  apply begin_with_token_inv in Es as (Hsid & ? & ? & ? & ? & o & Ho & Ht & Hst & Hinv).
  destruct (rs_Invalidated s) eqn:Einv; [simplify_eq; by eapply revoked_dead|].
  destruct (readResumePayload d token) as [[blob revoked]|] eqn:Ep; [|done].
  apply readResumePayload_inv in Ep as (row & Hrow & <- & <- & ? & ? & _). rewrite Hsid in Hrow.
  destruct (decodeResume fold s _ _) as [s'|] eqn:Ed; [|done].
  apply decodeResume_inv in Ed as (c & Hdec & -> & ? & ? & ? & ? & Hrv). rewrite Hst in *. cbn in Hb.
  unfold lift, ValidateBitmap in Hb. destruct (validBitmap mask _) eqn:Ev; [|done]. cbn in Hb.
  destruct (add_revoked _ _ _) as [[[] revoked]|] eqn:Ea; [| |done]; simplify_eq Hb; intros <- <-.
  - rewrite Hsid in *. by eapply revoked_now.
  - by eapply revoked_already.
Qed.

Lemma RevokeResume_cases d m token mask :
  (exists next d', RevokeResume fold d m token mask = (Ok next, d')) \/
  (exists e, RevokeResume fold d m token mask = (Err e, d)).
Proof.
  unfold RevokeResume.
  destruct (atomically_cases (RevokeResume_tx fold m token mask) d) as [(?&?&_&->)|(?&_&->)]; eauto.
Qed.

End Publication.

(** *** Invalidation *)

Definition kill_head (next : ResumeToken) (o : owner_row) : owner_row :=
  o <| ow_invalidated := true |> <| ow_mutation_epoch := tk_Epoch next |>.

Lemma InvalidateResume_inv d m token next d' : InvalidateResume d m token = (Ok next, d') ->
  exists o, resume_owners d !! m_StorageID m = Some o /\ token = head_token (m_StorageID m) o /\
    next = advanced token /\ d' = d <| resume_owners ::= alter (kill_head next) (m_StorageID m) |>.
Proof.
  unfold InvalidateResume. intros H.
  match type of H with atomically ?b d = _ =>
    destruct (atomically_cases b d) as [(t' & d1 & Hb & Ha)|(e & _ & Ha)]; rewrite Ha in H; simplify_eq end.
  cbn beta in Hb. destruct (begin_with_token d m token) as [s|] eqn:Es; [|done].
  apply begin_with_token_inv in Es as (Hsid & ? & ? & ? & ? & o & Ho & Ht & _).
  simplify_eq Hb. intros <- <-. exists o. by rewrite Hsid.
Qed.

Lemma InvalidateResumeMutation_inv d m record d' : InvalidateResumeMutation d m record = (Ok tt, d') ->
  (resume_owners d !! m_StorageID m = None /\ d' = d) \/
  (exists o, resume_owners d !! m_StorageID m = Some o /\
     d' = d <| resume_owners ::= alter invalidate (m_StorageID m) |>).
Proof.
  unfold InvalidateResumeMutation. destruct (record =? "")%string; [done|]. intros H.
  destruct (atomically_cases (InvalidateResumeMutation_tx m record) d) as [(t' & d1 & Hb & Ha)|(e & _ & Ha)];
    rewrite Ha in H; simplify_eq.
  unfold InvalidateResumeMutation_tx in Hb. destruct (checkResumeDurability d); [|done].
  destruct (negb _); [done|]. destruct (readResumeHead d (m_StorageID m)) as [[s|]|] eqn:Eh; [| |done].
  - apply readResumeHead_Some in Eh as (o & Ho & _). case_match; [done|]. simplify_eq. right. eauto.
  - simplify_eq. left. unfold readResumeHead in Eh. by branches.
Qed.

(** ** Heads only advance *)

Section Steps.
Context (fold : string -> string) (catalog_json : TorrentCatalog -> list byte).

Lemma apply_advance op d : heads_advance d (apply fold catalog_json d op).
Proof.
  destruct (resume_operation op) eqn:Hop; [|by apply fenced_advance, apply_fenced].
  destruct op; try discriminate Hop; cbn [apply].
  - unfold CaptureResume. open_op. intros t d' (_ & _ & _ & _ & _ & o & Ho & Ht & Hd)%CaptureResume_tx_inv.
    destruct Hd as [->|[(Hn & _ & _ & _ & _ & ->)|(old & Hold & _ & _ & _ & ->)]]; [done| |].
    + intros sid o' Ho'. cbn. exists o'. split; [|by left]. rewrite lookup_insert_ne; [done|]. congruence.
    + apply alter_head_advance. intros o' ?. simplify_eq. cbn. lia.
  - destruct (CommitResume_cases fold d m token c) as [(next & d' & E)|(e & E)]; rewrite E; cbn; [|done].
    apply CommitResume_inv in E as (blob & o & _ & _ & _ & _ & _ & -> & _ & _ & Ho & Ht & _ & _ & _ & ->).
    apply alter_owner_advance; [|by intros; rewrite lookup_insert_ne]. intros o' Ho'. simplify_eq. cbn. lia.
  - destruct (RevokeResume_cases fold d m token mask0) as [(next & d' & E)|(e & E)]; rewrite E; cbn; [|done].
    apply RevokeResume_inv in E as [| |o row c revoked Ho _ Ht]; [done..|].
    apply alter_owner_advance; [|by intros; rewrite lookup_alter_ne]. intros o' Ho'. simplify_eq. cbn. lia.
  - destruct (InvalidateResume d m token) as [[next|e] d'] eqn:E; cbn.
    + apply InvalidateResume_inv in E as (o & Ho & Ht & -> & ->). apply alter_head_advance.
      intros o' Ho'. simplify_eq. cbn. lia.
    + unfold InvalidateResume, atomically in E. by branches.
  - destruct (InvalidateResumeMutation d m record) as [[[]|e] d'] eqn:E; cbn.
    + apply InvalidateResumeMutation_inv in E as [[_ ->]|(o & Ho & ->)]; [done|].
      apply alter_head_advance. intros o' Ho'. cbn. lia.
    + unfold InvalidateResumeMutation, atomically in E. by branches.
Qed.

Lemma run_rel (R : relation db) `{!PreOrder R} ops :
  (forall op d, op ∈ ops -> R d (apply fold catalog_json d op)) -> forall d, R d (run fold catalog_json ops d).
Proof.
  induction ops as [|op ops IH]; intros H d; cbn; [reflexivity|].
  etransitivity; [apply H; left|]. apply IH. intros. apply H. by right.
Qed.

Lemma run_app ops ops' d : run fold catalog_json (ops ++ ops')%list d = run fold catalog_json ops' (run fold catalog_json ops d).
Proof. revert d. induction ops; intros; cbn; auto. Qed.

Lemma run_advance ops d : heads_advance d (run fold catalog_json ops d).
Proof. apply (run_rel _). intros. apply apply_advance. Qed.

Lemma reached_advance t d d' : heads_advance d d' -> head_reached t d -> head_reached t d'.
Proof.
  intros H (o & Ho & Ht). destruct (H _ _ Ho) as (o' & Ho' & Hle). exists o'. split; [done|].
  destruct Hle as [[-> _]|Hlt]; [done|]. right. destruct Ht as [<-|]; cbn; lia.
Qed.

Lemma passed_advance t d d' : heads_advance d d' -> head_passed t d -> head_passed t d'.
Proof.
  intros H (o & Ho & Ht). destruct (H _ _ Ho) as (o' & Ho' & Hle). exists o'. split; [done|].
  destruct Hle as [[-> _]|]; lia.
Qed.

(** A token the head has left behind publishes nothing. *)
Lemma CommitResume_passed d m token c : head_passed token d -> exists e, CommitResume fold d m token c = (Err e, d).
Proof.
  intros (o & Ho & Hlt). destruct (CommitResume_cases fold d m token c) as [(next & d' & E)|]; [|done].
  apply CommitResume_inv in E as (blob & o' & _ & _ & _ & _ & _ & _ & _ & _ & Ho' & Ht & _).
  rewrite Ht in Ho, Hlt. cbn in Ho, Hlt. simplify_eq. lia.
Qed.

(** ** Claims *)

(** The pieces a live head claims. *)
Definition claims (d : db) (sid : string) (p : Z) : Prop :=
  exists o row c, resume_owners d !! sid = Some o /\ ow_invalidated o = false /\
    resume_checkpoints d !! sid = Some row /\ Decode fold (cp_payload row) = Ok c /\
    bit (Pieces c) p = true /\ bit (cp_revoked row) p = false.

(** The pieces a load grants to the opening of a mapping. *)
Definition granted (d : db) (m : StorageMapping) (record : string) (p : Z) : Prop :=
  exists token c revoked, LoadResume fold d m record = Ok (Some (mkResumeSnapshot token false (Some c) revoked)) /\
    bit (Pieces c) p = true /\ bit revoked p = false.

Lemma granted_claims d m record p : granted d m record p -> claims d (m_StorageID m) p.
Proof.
  intros (token & c & revoked & H & Hp & Hr). unfold LoadResume in H.
  destruct (checkResumeDurability d); [|done]. destruct (checkResumeFence d m record); [|done].
  destruct (readResumeHead d (m_StorageID m)) as [[s|]|] eqn:Eh; [|done..].
  apply readResumeHead_Some in Eh as (o & Ho & Ht & Hi). case_match; [done|].
  destruct (rs_Invalidated s) eqn:Ei; [by simplify_eq|].
  destruct (readResumePayload d _) as [[blob rv]|] eqn:Ep; [|done].
  destruct (decodeResume fold s blob rv) as [s'|] eqn:Ed; [|done]. simplify_eq.
  apply decodeResume_inv in Ed as (c' & Hdec & Heq & _). simplify_eq.
  apply readResumePayload_inv in Ep as (row & Hrow & <- & <- & _). rewrite Ht in Hrow. cbn in Hrow.
  eexists o, row, _. done.
Qed.

(** A head that is kept or invalidated claims no more than before. *)
Lemma fenced_claims d d' sid p : fenced d d' -> claims d' sid p -> claims d sid p.
Proof.
  intros [Hc Hf] (o' & row & c & Ho' & Hi & Hrow & Hrest). specialize (Hf sid). rewrite Ho' in Hf.
  destruct (resume_owners d !! sid) as [o|] eqn:Ho; [|by inversion Hf].
  assert (head_fenced o o') as H by (by inversion Hf). rewrite Hc in Hrow.
  destruct (hf_epoch _ _ H) as [->|[_ ?]]; [|congruence]. exists o, row, c. done.
Qed.

(** Nor does a head changed by a function that keeps it dead. *)
Lemma altered_claims f sid d sid' p :
  (forall o, ow_invalidated (f o) = false -> ow_invalidated o = false) ->
  claims (d <| resume_owners ::= alter f sid |>) sid' p -> claims d sid' p.
Proof.
  intros Hf (o & row & c & Ho & Hi & Hrest). cbn in *. destruct (decide (sid' = sid)) as [->|].
  - rewrite lookup_alter_eq in Ho. apply fmap_Some in Ho as (o' & Ho & ->). exists o', row, c. split_and!; try done; auto.
    all: by destruct Hrest as (? & ? & ? & ?).
  - rewrite lookup_alter_ne in Ho by done. exists o, row, c. done.
Qed.

End Steps.

(** ** Bitmaps *)

Lemma bit_cons b bits p : 0 <= p ->
  bit (b :: bits) p = if p <? 8 then Z.testbit (byte.unsigned b) p else bit bits (p - 8).
Proof.
  intros Hp. unfold bit. destruct (Z.ltb_spec p 8).
  - by rewrite Z.div_small, Z.mod_small by lia.
  - replace (p - 8) with (p + -1 * 8) by lia. rewrite Z.div_add, Z.mod_add by lia.
    assert (1 <= p / 8) by (apply Z.div_le_lower_bound; lia).
    by replace (Z.to_nat (p / 8)) with (S (Z.to_nat (p / 8 + -1))) by lia.
Qed.

Lemma byte_or_bit a b i : 0 <= i < 8 ->
  Z.testbit (byte.unsigned (byte_or a b)) i = Z.testbit (byte.unsigned a) i || Z.testbit (byte.unsigned b) i.
Proof.
  intros. unfold byte_or. rewrite byte.unsigned_of_Z. unfold byte.wrap.
  by rewrite Z.mod_pow2_bits_low, Z.lor_spec by lia.
Qed.

Lemma byte_and_bit a b i : 0 <= i < 8 ->
  Z.testbit (byte.unsigned (byte_and a b)) i = Z.testbit (byte.unsigned a) i && Z.testbit (byte.unsigned b) i.
Proof.
  intros. unfold byte_and. rewrite byte.unsigned_of_Z. unfold byte.wrap.
  by rewrite Z.mod_pow2_bits_low, Z.land_spec by lia.
Qed.

(** The loop never runs out of its bitmaps, adds exactly the masked pieces, and
    reports whether any of them was not revoked before. *)
Lemma add_revoked_spec revoked : forall mask pieces,
  length mask = length revoked -> length pieces = length revoked ->
  exists changed revoked', add_revoked mask pieces revoked = Some (changed, revoked') /\
    length revoked' = length revoked /\
    (forall p, 0 <= p -> bit revoked' p = bit revoked p || bit mask p && bit pieces p) /\
    (changed = false -> forall p, 0 <= p -> bit mask p && bit pieces p = true -> bit revoked p = true).
Proof.
  induction revoked as [|r revoked IH]; intros [|m mask] [|q pieces]; try done; cbn [length add_revoked].
  - intros _ _. exists false, []. split_and!; [done..| |]; intros; unfold bit in *; by rewrite !lookup_nil in *.
  - intros [= Hm] [= Hq]. destruct (IH mask pieces Hm Hq) as (changed & revoked' & -> & Hl & Hb & Hc).
    eexists _, _. split; [done|]. split; [cbn; by f_equal|]. split.
    + intros p Hp. rewrite !bit_cons by done. destruct (Z.ltb_spec p 8); [|apply Hb; lia].
      by rewrite byte_or_bit, byte_and_bit by lia.
    + intros [E Hch]%orb_false_iff p Hp. rewrite !bit_cons by done.
      destruct (Z.ltb_spec p 8); [|apply Hc; [done|lia]]. intros Hset.
      apply negb_false_iff, Z.eqb_eq in E. pose proof (and_not_bit (byte_and m q) r p ltac:(lia)) as Hn.
      rewrite E, Z.testbit_0_l, byte_and_bit, Hset in Hn by lia. by destruct (Z.testbit (byte.unsigned r) p).
Qed.

(** Bitmaps of the same number of pieces have the same length. *)
Lemma same_bitmap_length a b pieces :
  validBitmap a pieces = true -> validBitmap b pieces = true -> length a = length b.
Proof. intros Ha%validBitmap_length Hb%validBitmap_length. lia. Qed.

Lemma decoded_bitmap fold blob c : Decode fold blob = Ok c -> validBitmap (Pieces c) (PieceCount (c_Identity c)) = true.
Proof. intros (Hv & _)%Decode_inv. by apply (Checkpoint_Validate_inv fold c Hv). Qed.

Section Claims.
Context (fold : string -> string) (catalog_json : TorrentCatalog -> list byte).
Abbreviation apply := (apply fold catalog_json).
Abbreviation run := (run fold catalog_json).

(** A revocation leaves no masked piece claimed, and adds no claim. *)
Lemma revocation_claims d m token mask next d' p : 0 <= p ->
  revocation fold d m token mask next d' ->
  (forall sid, claims fold d' sid p -> claims fold d sid p) /\
  (bit mask p = true -> ~ claims fold d' (m_StorageID m) p).
Proof.
  intros Hp [o Ho Hi|o row c revoked Ho Hrow Hdec Hvr Hvm Ha|
             o row c revoked Ho Hi Ht Hrow Hdec _ _ _ _ _ _ Hvr Hvm Ha].
  - split; [done|]. intros _ (o' & row & c & Ho' & ? & _). simplify_eq. congruence.
  - split; [done|]. intros Hm (o' & row' & c' & _ & _ & Hrow' & Hdec' & Hb & Hr). simplify_eq.
    assert (c' = c) as -> by congruence. pose proof (decoded_bitmap _ _ _ Hdec) as Hvp.
    destruct (add_revoked_spec (cp_revoked row) mask (Pieces c)) as (ch & rv & E & _ & _ & Hno);
      [by eapply same_bitmap_length..|]. rewrite Ha in E. simplify_eq.
    by rewrite (Hno eq_refl p Hp) in Hr; [|rewrite Hm, Hb].
  - pose proof (decoded_bitmap _ _ _ Hdec) as Hvp.
    destruct (add_revoked_spec (cp_revoked row) mask (Pieces c)) as (ch & rv & E & _ & Hall & _);
      [by eapply same_bitmap_length..|]. rewrite Ha in E. simplify_eq.
    assert (forall sid o' row' c', resume_checkpoints (d <| resume_checkpoints ::= alter (revoked_row (advanced (head_token (m_StorageID m) o)) (cp_payload row) rv) (m_StorageID m) |>) !! sid = Some row' ->
      resume_owners d !! sid = Some o' -> ow_invalidated o' = false -> Decode fold (cp_payload row') = Ok c' ->
      bit (Pieces c') p = true -> bit (cp_revoked row') p = false ->
      claims fold d sid p /\ (sid = m_StorageID m -> bit mask p = false)) as Hkey.
    { intros sid o' row' c' Hrow' Ho' Hi' Hdec' Hb Hr. cbn in Hrow'. destruct (decide (sid = m_StorageID m)) as [->|].
      - rewrite lookup_alter_eq, Hrow in Hrow'. simplify_eq/=. assert (c' = c) as -> by congruence. rewrite Hall in Hr by done.
        apply orb_false_iff in Hr as [Hr Hm]. split; [by eexists _, row, c|]. intros _. by rewrite Hb, andb_true_r in Hm.
      - rewrite lookup_alter_ne in Hrow' by done. split; [by exists o', row', c'|done]. }
    split.
    + intros sid Hc. apply altered_claims in Hc; [|done]. destruct Hc as (o' & row' & c' & ? & ? & ? & ? & ? & ?).
      by eapply Hkey.
    + intros Hm Hc. apply altered_claims in Hc; [|done]. destruct Hc as (o' & row' & c' & ? & ? & ? & ? & ? & ?).
      destruct (Hkey (m_StorageID m) o' row' c') as [_ Hno]; try done. by rewrite Hno in Hm.
Qed.

(** A publication of the piece [p] for the storage [sid]. *)
Definition publishes (d : db) (op : operation) (sid : string) (p : Z) : Prop :=
  exists m token c next, op = OpCommitResume m token c /\ m_StorageID m = sid /\
    fst (CommitResume fold d m token c) = Ok next /\ bit (Pieces c) p = true /\ head_reached token d /\
    ~ head_passed token d.

(** The integer fields of a published checkpoint hold [int64] values. *)
Definition op_typed (op : operation) : Prop :=
  match op with OpCommitResume _ _ c => checkpoint_typed c | _ => True end.

Lemma Encode_Decode c blob : checkpoint_typed c -> Encode fold c = Ok blob -> Decode fold blob = Ok c.
Proof.
  unfold Encode. intros Hty He. destruct (Checkpoint_Validate fold c) as [[]|] eqn:Hv; [|done].
  destruct (Z.gtb_spec (Z.of_nat (length (enc_checkpoint c))) MaxCheckpointBytes); [done|].
  injection He as <-. by apply Decode_enc.
Qed.

Lemma CommitResume_claims d m token c sid p : checkpoint_typed c ->
  claims fold (snd (CommitResume fold d m token c)) sid p ->
  claims fold d sid p \/ publishes d (OpCommitResume m token c) sid p.
Proof.
  intros Hty. destruct (CommitResume_cases fold d m token c) as [(next & d' & E)|(e & E)]; rewrite E; cbn; [|by left].
  pose proof E as E'. apply CommitResume_inv in E as (blob & o & Henc & _ & _ & _ & _ & -> & _ & _ & Ho & Ht & _ & _ & _ & ->).
  intros (o' & row & c' & Ho' & Hi & Hrow & Hdec & Hb & Hr). cbn in Ho', Hrow.
  destruct (decide (sid = m_StorageID m)) as [->|].
  - right. exists m, token, c, (published token). rewrite E'. split_and!; try done.
    + rewrite lookup_insert_eq in Hrow. simplify_eq/=. apply Encode_Decode in Henc; [|done].
      by assert (c' = c) as <- by congruence.
    + exists o. rewrite Ht. auto.
    + intros (o2 & Ho2 & Hlt). rewrite Ht in Ho2, Hlt. cbn in Ho2, Hlt. simplify_eq. lia.
  - left. rewrite lookup_insert_ne in Hrow by done. rewrite lookup_alter_ne in Ho' by done. by exists o', row, c'.
Qed.

Lemma CaptureResume_claims d m record sid p : claims fold (snd (CaptureResume d m record)) sid p -> claims fold d sid p.
Proof.
  destruct (CaptureResume d m record) as [[t|e] d'] eqn:E; cbn.
  - intros Hc. apply CaptureResume_inv, CaptureResume_tx_inv in E as (_ & _ & _ & _ & _ & o & Ho & Ht & Hd).
    destruct Hd as [->|[(Hn & _ & _ & _ & -> & ->)|(old & Hold & _ & _ & _ & ->)]]; [done| |by eapply altered_claims, Hc].
    destruct Hc as (o' & row & c & Ho' & Hi & Hrest). cbn in *. destruct (decide (sid = m_StorageID m)) as [->|].
    + rewrite lookup_insert_eq in Ho'. by simplify_eq.
    + rewrite lookup_insert_ne in Ho' by done. by exists o', row, c.
  - unfold CaptureResume, atomically in E. by branches.
Qed.

Lemma apply_claims op d sid p : 0 <= p -> op_typed op -> claims fold (apply d op) sid p ->
  claims fold d sid p \/ publishes d op sid p.
Proof.
  intros Hp Hty. destruct (resume_operation op) eqn:Hop; [|intros; left; by eapply fenced_claims, H; apply apply_fenced].
  destruct op; try discriminate Hop; cbn [Library.apply].
  - left. by eapply CaptureResume_claims.
  - by apply CommitResume_claims.
  - left. destruct (RevokeResume_cases fold d m token mask0) as [(next & d' & E)|(e & E)]; rewrite E in *; [|done].
    apply RevokeResume_inv, (revocation_claims _ _ _ _ _ _ p) in E as [Hc _]; [|done]. by apply Hc.
  - left. destruct (InvalidateResume d m token) as [[next|e] d'] eqn:E; cbn in *.
    + apply InvalidateResume_inv in E as (o & _ & _ & _ & ->). by eapply altered_claims, H.
    + unfold InvalidateResume, atomically in E. by branches.
  - left. destruct (InvalidateResumeMutation d m record) as [[[]|e] d'] eqn:E; cbn in *.
    + apply InvalidateResumeMutation_inv in E as [[_ ->]|(o & Ho & ->)]; [done|]. by eapply altered_claims, H.
    + unfold InvalidateResumeMutation, atomically in E. by branches.
Qed.

(** Over a run: a piece claimed at the end was claimed at the start or
    published on the way. *)
Lemma run_claims ops sid p : 0 <= p -> forall d, Forall op_typed ops -> claims fold (run ops d) sid p ->
  claims fold d sid p \/
  exists before op after, ops = (before ++ op :: after)%list /\ publishes (run before d) op sid p.
Proof.
  intros Hp. induction ops as [|op ops IH]; intros d Hty Hc; cbn in *; [by left|].
  apply Forall_cons in Hty as [Hop Hty]. destruct (IH _ Hty Hc) as [Hc'|(before & op' & after & -> & Hpub)].
  - apply apply_claims in Hc' as [|Hpub]; [by left| |done..]. right. by exists [], op, ops.
  - right. by exists (op :: before), op', after.
Qed.

End Claims.
