(* ===== verification/ResumeInvariant.v ===== *)
(** * Live heads and barriers

    Every live head has a checkpoint that reads back, and every operation that
    begins to change payload or its identity advances the head of the storage. *)

From stdpp Require Import base gmap list strings.
From Stdlib Require Import ZArith Strings.Byte Lia.
From coqutil Require Import Byte.
From S2P Require Import Prelude Models Paths Layout FastResume Codec Sha256 Tables IntentStore StorageStore ResumeStore.
From S2P Require Import Library LibraryFrame ResumeFences ResumeSafety.

#[local] Open Scope Z_scope.

(** ** Bitmaps of a number of pieces *)

Lemma byte_high_bits b i : 8 <= i -> Z.testbit (byte.unsigned b) i = false.
Proof.
  intros. pose proof (byte.unsigned_range b). destruct (decide (byte.unsigned b = 0)) as [->|]; [apply Z.testbit_0_l|].
  apply Z.bits_above_log2; [lia|]. apply Z.log2_lt_pow2; [lia|].
  assert (2 ^ 8 <= 2 ^ i) by (apply Z.pow_le_mono_r; lia). lia.
Qed.

Lemma last_is_lookup {A} (l : list A) : last l = l !! (length l - 1)%nat.
Proof. rewrite last_lookup. f_equal. lia. Qed.

Lemma shiftr_zero a k : 0 <= k -> Z.shiftr a k = 0 <-> forall i, k <= i -> Z.testbit a i = false.
Proof.
  intros Hk. split.
  - intros H i Hi. pose proof (Z.shiftr_spec a k (i - k) ltac:(lia)) as E. rewrite H, Z.testbit_0_l in E.
    by rewrite Z.sub_add in E.
  - intros H. apply Z.bits_inj'. intros i Hi. rewrite Z.shiftr_spec, Z.testbit_0_l by lia. apply H. lia.
Qed.

(** A bitmap is valid when it has the right length and no bit past the pieces. *)
Lemma validBitmap_iff bits n :
  validBitmap bits n = true <->
  0 <= n <= MaxPieces /\ Z.of_nat (length bits) = (n + 7) / 8 /\ forall p, n <= p -> bit bits p = false.
Proof.
  unfold validBitmap, bitmapBytes. destruct (_ || _) eqn:E.
  { split; [done|]. intros (? & Hl & _). rewrite <- Z.quot_div_nonneg in Hl by lia. lia. }
  split_bools. assert (0 <= n <= MaxPieces) as Hn by lia.
  assert (Z.of_nat (length bits) = (n + 7) / 8) as Hl by (rewrite <- Z.quot_div_nonneg; lia).
  rewrite Z.rem_mod_nonneg by lia. pose proof (Z.mod_pos_bound n 8).
  pose proof (Z.div_mod n 8 ltac:(lia)) as Hdm. set (k := n mod 8) in *. set (q := n / 8) in *.
  assert (forall p, n <= p -> p / 8 < Z.of_nat (length bits) -> 0 < k /\ p / 8 = Z.of_nat (length bits) - 1 /\ k <= p mod 8) as Hpos.
  { intros p Hp Hlt. rewrite Hl in Hlt |- *. pose proof (Z.mod_pos_bound p 8). pose proof (Z.div_mod p 8 ltac:(lia)).
    assert (q <= p / 8) by (apply Z.div_le_mono; lia).
    assert (k = 0 \/ 0 < k) as [E0|] by lia.
    - replace (n + 7) with (7 + q * 8) in Hlt by lia. rewrite Z.div_add in Hlt by lia.
      change (7 / 8) with 0 in Hlt. lia.
    - replace (n + 7) with (k + 7 + q * 8) in Hlt |- * by lia. rewrite Z.div_add in Hlt |- * by lia.
      assert ((k + 7) / 8 = 1) as E1 by (symmetry; apply (Z.div_unique _ 8 1 (k - 1)); lia). lia. }
  split.
  - intros Hv. split_and!; [lia..|done|]. intros p Hp. unfold bit.
    destruct (bits !! Z.to_nat (p / 8)) as [b|] eqn:Eb; [|done]. apply lookup_lt_Some in Eb as Hlt.
    pose proof (Z.div_pos p 8). destruct (Hpos p Hp ltac:(lia)) as (Hk & Hpq & Hkp).
    rewrite (proj2 (Z.eqb_neq k 0)) in Hv by lia. cbn in Hv. apply Z.eqb_eq in Hv.
    rewrite last_is_lookup in Hv. replace (length bits - 1)%nat with (Z.to_nat (p / 8)) in Hv by lia.
    rewrite Eb in Hv. exact (proj1 (shiftr_zero _ k ltac:(lia)) Hv _ Hkp).
  - intros (_ & _ & Hb). destruct (Z.eqb_spec k 0) as [|Hk]; [done|]. cbn. apply Z.eqb_eq, shiftr_zero; [lia|].
    intros i Hi. destruct (decide (8 <= i)); [by apply byte_high_bits|].
    rewrite last_is_lookup. set (p := 8 * (Z.of_nat (length bits) - 1) + i).
    assert (Z.of_nat (length bits) = q + 1) as Hlen.
    { rewrite Hl. replace (n + 7) with (k + 7 + q * 8) by lia. rewrite Z.div_add by lia.
      assert ((k + 7) / 8 = 1) as -> by (symmetry; apply (Z.div_unique _ 8 1 (k - 1)); lia). lia. }
    specialize (Hb p ltac:(lia)). unfold bit in Hb.
    replace (p / 8) with (Z.of_nat (length bits) - 1) in Hb by (apply (Z.div_unique _ _ _ i); lia).
    replace (p mod 8) with i in Hb by (apply (Z.mod_unique _ _ (Z.of_nat (length bits) - 1)); lia).
    replace (length bits - 1)%nat with (Z.to_nat (Z.of_nat (length bits) - 1)) by lia.
    destruct (bits !! _) as [b|]; [done|]. by rewrite Z.testbit_0_l.
Qed.

Lemma zero_bit n p : bit (replicate n x00) p = false.
Proof.
  unfold bit. destruct (replicate n x00 !! Z.to_nat (p / 8)) as [b|] eqn:E; [|done].
  apply lookup_replicate in E as [-> _]. apply Z.testbit_0_l.
Qed.

Lemma zero_bitmap bits n : validBitmap bits n = true -> validBitmap (replicate (length bits) x00) n = true.
Proof.
  rewrite !validBitmap_iff, length_replicate. intros (? & ? & _). split_and!; [lia..|done|]. intros. apply zero_bit.
Qed.

Lemma add_revoked_valid mask pieces revoked changed revoked' n :
  validBitmap mask n = true -> validBitmap pieces n = true -> validBitmap revoked n = true ->
  add_revoked mask pieces revoked = Some (changed, revoked') -> validBitmap revoked' n = true.
Proof.
  intros Hm Hp Hr Ha.
  destruct (add_revoked_spec revoked mask pieces) as (? & ? & E & Hl & Hb & _); [by eapply same_bitmap_length..|].
  rewrite Ha in E. simplify_eq. apply validBitmap_iff in Hm as (? & ? & Hm), Hr as (_ & ? & Hr).
  apply validBitmap_iff. split_and!; [lia..|]. intros p Hn. rewrite Hb by lia. by rewrite Hr, Hm.
Qed.

(** ** The invariant *)

Section Invariant.
Context (fold : string -> string) (catalog_json : TorrentCatalog -> list byte).
Abbreviation apply := (apply fold catalog_json).
Abbreviation run := (run fold catalog_json).

(** The checkpoint a head was published with. *)
Record backs (sid : string) (o : owner_row) (row : checkpoint_row) (c : Checkpoint) : Prop := mkBacks {
  bk_payload : Z.of_nat (length (cp_payload row)) <= MaxCheckpointBytes;
  bk_revoked : Z.of_nat (length (cp_revoked row)) <= Z.quot MaxPieces 8;
  bk_integrity : cp_integrity row = resumeIntegrity (head_token sid o) (cp_payload row) (cp_revoked row);
  bk_decodes : Decode fold (cp_payload row) = Ok c;
  bk_storage : StorageID (c_Identity c) = sid;
  bk_record : RecordID (c_Identity c) = ow_record_id o;
  bk_mapping : MappingRevision (c_Identity c) = ow_mapping_revision o;
  bk_generation : Generation c = ow_generation o;
  bk_bitmap : validBitmap (cp_revoked row) (PieceCount (c_Identity c)) = true;
}.

Record head_ok (d : db) (sid : string) (o : owner_row) : Prop := mkHeadOk {
  ho_epoch : 0 < ow_mutation_epoch o;
  ho_generation : 0 <= ow_generation o;
  ho_mapping : 0 < ow_mapping_revision o;
  ho_storage : len sid <= 256;
  ho_record : len (ow_record_id o) <= 256;
  ho_live : ow_invalidated o = false -> exists row c, resume_checkpoints d !! sid = Some row /\ backs sid o row c;
}.

Definition heads_ok (d : db) : Prop := forall sid o, resume_owners d !! sid = Some o -> head_ok d sid o.

Lemma fenced_heads_ok d d' : fenced d d' -> heads_ok d -> heads_ok d'.
Proof.
  intros [Hc Hf] Hok sid o' Ho'. specialize (Hf sid). rewrite Ho' in Hf.
  destruct (resume_owners d !! sid) as [o|] eqn:Ho; [|by inversion Hf].
  assert (head_fenced o o') as [Hr Hm Hg He] by (by inversion Hf).
  destruct (Hok _ _ Ho). destruct He as [->|[Hlt Hi]]; [split; try done; by rewrite Hc|].
  split; rewrite ?Hr, ?Hm, ?Hg; try done; try lia. congruence.
Qed.

(** A head that is killed needs no checkpoint. *)
Lemma altered_heads_ok f sid d : heads_ok d ->
  (forall o, resume_owners d !! sid = Some o -> ow_invalidated (f o) = true /\ 0 < ow_mutation_epoch (f o) /\
     ow_generation (f o) = ow_generation o /\ 0 < ow_mapping_revision (f o) /\ len (ow_record_id (f o)) <= 256) ->
  heads_ok (d <| resume_owners ::= alter f sid |>).
Proof.
  intros Hok Hf sid' o. cbn. destruct (decide (sid' = sid)) as [->|].
  - rewrite lookup_alter_eq. intros (o' & Ho & ->)%fmap_Some. destruct (Hok _ _ Ho).
    destruct (Hf _ Ho) as (Hi & ? & Hg & ? & ?). split; rewrite ?Hg; try done. congruence.
  - rewrite lookup_alter_ne by done. intros Ho. by destruct (Hok _ _ Ho).
Qed.

(** The head of a publication. *)
Lemma CommitResume_head d m token c next d' : checkpoint_typed c -> CommitResume fold d m token c = (Ok next, d') ->
  exists o blob, resume_owners d' !! m_StorageID m = Some o /\ head_token (m_StorageID m) o = next /\
    ow_invalidated o = false /\ head_ok d' (m_StorageID m) o /\
    resume_checkpoints d' !! m_StorageID m = Some (published_row token c blob) /\
    backs (m_StorageID m) o (published_row token c blob) c.
Proof.
  intros Hty E. assert (exists s, begin_with_token d m token = Ok s) as [s Hs].
  { unfold CommitResume in E. case_match; [done|]. case_match; [|done]. unfold atomically, CommitResume_tx in E.
    destruct (begin_with_token d m token); [eauto|done]. }
  apply begin_with_token_bounds in Hs as (o1 & Ho1 & Hep & Hgen & Hmap & Hlen1 & Hlen2).
  apply CommitResume_inv in E as (blob & o & Henc & Hg & Hr & Hsid & Hm & -> & _ & _ & Ho & -> & He & Hmr & Hlen & ->).
  cbn in Ho1, Hg, Hr, Hm, Hlen1. simplify_eq.
  pose proof (Encode_Decode _ _ _ Hty Henc) as Hdec.
  assert (Z.of_nat (length blob) <= MaxCheckpointBytes) by by apply Decode_inv in Hdec as (_ & _ & _ & ?).
  assert (backs (m_StorageID m) (publish_head (published (head_token (m_StorageID m) o)) o)
            (published_row (head_token (m_StorageID m) o) c blob) c) as Hb.
  { split; cbn; try done.
    - rewrite length_replicate. change (MaxPieces ÷ 8) with 524288. done.
    - apply zero_bitmap. by eapply decoded_bitmap. }
  eexists _, blob. cbn. rewrite lookup_alter_eq, lookup_insert_eq, Ho. split; [done|]. split; [done|]. split; [done|].
  split; [|done]. split; cbn; try done; try lia. intros _. eexists _, c. rewrite lookup_insert_eq. done.
Qed.

Lemma CommitResume_heads_ok d m token c : checkpoint_typed c -> heads_ok d ->
  heads_ok (snd (CommitResume fold d m token c)).
Proof.
  intros Hty Hok. destruct (CommitResume_cases fold d m token c) as [(next & d' & E)|(e & E)]; rewrite E; cbn; [|done].
  pose proof (CommitResume_head _ _ _ _ _ _ Hty E) as (o & blob & Ho & _ & _ & Hh & _).
  apply CommitResume_inv in E as (? & ? & _ & _ & _ & _ & _ & _ & _ & _ & _ & _ & _ & _ & _ & ->).
  intros sid o' Ho'. destruct (decide (sid = m_StorageID m)) as [->|]; [by rewrite Ho in Ho'; simplify_eq|].
  cbn in Ho'. rewrite lookup_alter_ne in Ho' by done. destruct (Hok _ _ Ho') as [? ? ? ? ? Hl]. split; try done.
  intros Hi. destruct (Hl Hi) as (row & c' & ? & ?). exists row, c'. cbn. by rewrite lookup_insert_ne.
Qed.

Lemma RevokeResume_heads_ok d m token mask : heads_ok d -> heads_ok (snd (RevokeResume fold d m token mask)).
Proof.
  intros Hok. destruct (RevokeResume_cases fold d m token mask) as [(next & d' & E)|(e & E)]; rewrite E; cbn; [|done].
  apply RevokeResume_inv in E as [| |o row c revoked Ho Hi -> Hrow Hdec Hs Hr Hm Hg ? ? Hvr Hvm Ha]; [done..|].
  cbn in Hr, Hm, Hg. intros sid o'. cbn. destruct (decide (sid = m_StorageID m)) as [->|].
  - rewrite lookup_alter_eq, Ho. intros [= <-]. destruct (Hok _ _ Ho). split; cbn; try done; try lia. intros _.
    eexists _, c. rewrite lookup_alter_eq, Hrow. split; [done|]. pose proof (decoded_bitmap _ _ _ Hdec) as Hvp.
    pose proof (add_revoked_valid _ _ _ _ _ _ Hvm Hvp Hvr Ha) as Hv.
    split; cbn; try done. pose proof (same_bitmap_length _ _ _ Hv Hvr). lia.
  - rewrite lookup_alter_ne by done. intros Ho'. pose proof (Hok _ _ Ho') as [? ? ? ? ? Hl].
    split; try done. cbn. by rewrite lookup_alter_ne.
Qed.

Lemma CaptureResume_heads_ok d m record : heads_ok d -> heads_ok (snd (CaptureResume d m record)).
Proof.
  intros Hok. destruct (CaptureResume d m record) as [[t|e] d'] eqn:E; cbn.
  - apply CaptureResume_inv, CaptureResume_tx_inv in E as (_ & _ & _ & _ & _ & o & Ho & Ht & Hd).
    destruct Hd as [->|[(Hn & ? & ? & ? & -> & ->)|(old & Hold & ? & ? & _ & ->)]]; [done| |].
    + intros sid o'. cbn. destruct (decide (sid = m_StorageID m)) as [->|].
      * rewrite lookup_insert_eq. intros [= <-]. by split.
      * rewrite lookup_insert_ne by done. intros Ho'. by destruct (Hok _ _ Ho').
    + apply altered_heads_ok; [done|]. intros o' Ho'. simplify_eq. destruct (Hok _ _ Hold). cbn. split_and!; try done. lia.
  - unfold CaptureResume, atomically in E. by branches.
Qed.

Lemma apply_heads_ok op d : op_typed op -> heads_ok d -> heads_ok (apply d op).
Proof.
  intros Hty Hok. destruct (resume_operation op) eqn:Hop; [|by eapply fenced_heads_ok, Hok; apply apply_fenced].
  destruct op; try discriminate Hop; cbn [Library.apply].
  - by apply CaptureResume_heads_ok.
  - by apply CommitResume_heads_ok.
  - by apply RevokeResume_heads_ok.
  - destruct (InvalidateResume d m token) as [[next|e] d'] eqn:E; cbn.
    + apply InvalidateResume_inv in E as (o & Ho & -> & -> & ->). apply altered_heads_ok; [done|].
      intros o' Ho'. simplify_eq. destruct (Hok _ _ Ho). cbn. split_and!; try done. lia.
    + unfold InvalidateResume, atomically in E. by branches.
  - destruct (InvalidateResumeMutation d m record) as [[[]|e] d'] eqn:E; cbn.
    + apply InvalidateResumeMutation_inv in E as [[_ ->]|(o & Ho & ->)]; [done|]. apply altered_heads_ok; [done|].
      intros o' Ho'. destruct (Hok _ _ Ho'). cbn. split_and!; try done. lia.
    + unfold InvalidateResumeMutation, atomically in E. by branches.
Qed.

Lemma run_heads_ok ops : Forall op_typed ops -> forall d, heads_ok d -> heads_ok (run ops d).
Proof. induction 1; intros d Hok; cbn; [done|]. by apply IHForall, apply_heads_ok. Qed.

Lemma empty_heads_ok : heads_ok empty_db.
Proof. intros sid o Ho. cbn in Ho. by rewrite lookup_empty in Ho. Qed.

(** The head of a live owner loads. *)
Lemma head_ok_load d m record o : head_ok d (m_StorageID m) o ->
  checkResumeDurability d = Ok tt -> checkResumeFence d m record = Ok tt ->
  resume_owners d !! m_StorageID m = Some o -> ow_record_id o = record -> ow_mapping_revision o = m_Revision m ->
  if ow_invalidated o
  then LoadResume fold d m record = Ok (Some (mkResumeSnapshot (head_token (m_StorageID m) o) true None []))
  else exists row c, resume_checkpoints d !! m_StorageID m = Some row /\ backs (m_StorageID m) o row c /\
    LoadResume fold d m record =
      Ok (Some (mkResumeSnapshot (head_token (m_StorageID m) o) false (Some c) (cp_revoked row))).
Proof.
  intros [He Hg Hmp Hs Hrec Hl] Hdur Hf Ho Hr Hm.
  assert (readResumeHead d (m_StorageID m) =
          Ok (Some (mkResumeSnapshot (head_token (m_StorageID m) o) (ow_invalidated o) None []))) as Hh.
  { unfold readResumeHead. rewrite Ho. do 2 (case_match; [lia|]). done. }
  unfold LoadResume. rewrite Hdur, Hf, Hh. cbn [rs_Token rs_Invalidated head_token tk_RecordID tk_MappingRevision].
  rewrite (proj2 (String.eqb_eq _ _) Hr), (proj2 (Z.eqb_eq _ _) Hm). cbn [negb orb].
  destruct (ow_invalidated o) eqn:Ei; [done|].
  destruct (Hl eq_refl) as (row & c & Hrow & Hb). exists row, c. split; [done|]. split; [done|].
  destruct Hb as [? ? Hi Hd ? ? ? ? Hv].
  assert (readResumePayload d (head_token (m_StorageID m) o) = Ok (cp_payload row, cp_revoked row)) as ->.
  { unfold readResumePayload. cbn [tk_StorageID head_token]. rewrite Hrow. case_match; [lia|].
    by rewrite bool_decide_eq_true_2. }
  unfold decodeResume, lift. rewrite Hd. cbn [rs_Token head_token tk_StorageID tk_RecordID tk_MappingRevision tk_Generation].
  match goal with |- context [if ?b then Err ErrResumeIntegrity else _] => destruct b eqn:Eb2 end.
  - rewrite !orb_true_iff in Eb2. destruct Eb2 as [[[?|?]|?]|?]; split_bools; done || lia.
  - by unfold ValidateBitmap; rewrite Hv.
Qed.

End Invariant.
