(* ===== verification/ResumeMutations.v ===== *)
(** * Mutations and the epoch of a head

    What the database says of a payload: the mappings of its storage, the active
    journals of its record and the deletion of its record.  No operation of the
    repository changes any of it and leaves the head of the storage at its epoch:
    the triggers of the migrations 20 and 21 sit on every statement that could. *)

From stdpp Require Import base gmap list strings.
From Stdlib Require Import ZArith Strings.Byte Lia.
From S2P Require Import Prelude Models Paths Layout FastResume Codec Tables IntentStore StorageStore ResumeStore.
From S2P Require Import Library LibraryFrame ResumeFences ResumeSafety.

#[local] Open Scope Z_scope.

(** The head of a storage is beyond an epoch. *)
Definition beyond (d : db) (sid : string) (epoch : Z) : Prop :=
  exists o, resume_owners d !! sid = Some o /\ epoch < ow_mutation_epoch o.

Lemma beyond_advance d d' sid epoch : heads_advance d d' -> beyond d sid epoch -> beyond d' sid epoch.
Proof.
  intros Hadv (o & Ho & Hlt). destruct (Hadv _ _ Ho) as (o' & Ho' & Hle). exists o'. split; [done|].
  destruct Hle as [[-> _]|]; lia.
Qed.

(** A fence passes the heads it selects. *)
Lemma fence_owners_passes check select d d' sid o :
  fence_owners check select d = Ok d' -> resume_owners d !! sid = Some o -> select sid o = true ->
  beyond d' sid (ow_mutation_epoch o).
Proof.
  unfold fence_owners. case_match; [done|]. intros ? Ho Hs. simplify_eq. unfold beyond. cbn.
  rewrite map_lookup_imap, Ho. cbn. rewrite Hs. eexists. split; [done|]. cbn. lia.
Qed.

(** A mapping a seal may still rely on: its identity, revision and place are the
    old ones, and no preparation of it began. *)
Definition mapping_kept (old new : storage_row) : bool :=
  (st_storage_id old =? st_storage_id new)%string && (st_revision old =? st_revision new) && same_geometry old new
  && ((st_state new =? "ready")%string && (st_manifest new =? "")%string
      || (st_state old =? st_state new)%string && (st_manifest old =? st_manifest new)%string).

(** A change, from [d] to [d'], to what a head of the storage [sid] for the
    record [record] rests on. *)
Inductive mutates (sid record : string) (d d' : db) : Prop :=
| mutates_mapping hash s : torrent_storage d !! hash = Some s -> st_storage_id s = sid ->
    (forall s', torrent_storage d' !! hash = Some s' -> mapping_kept s s' = false) -> mutates sid record d d'
| mutates_journal hash r : storage_of_hash d hash sid = true -> rc_record_id r = record ->
    storage_recovery d' !! hash = Some r -> storage_recovery d !! hash <> Some r ->
    quiet_stage (rc_stage r) = false -> mutates sid record d d'
| mutates_record hash : record_of_hash d hash record = true -> record_of_hash d' hash record = false ->
    mutates sid record d d'
| mutates_deletion hash t : record_of_hash d hash record = true -> torrents d !! hash = Some t ->
    (forall t', torrents d' !! hash = Some t' ->
       t_deletion_mode t' <> ""%string /\ t_deletion_mode t' <> t_deletion_mode t) -> mutates sid record d d'.

(** Its complement, in the form that composes. *)
Record settled (sid record : string) (d d' : db) : Prop := mkSettled {
  se_mapping hash s : torrent_storage d !! hash = Some s -> st_storage_id s = sid ->
    exists s', torrent_storage d' !! hash = Some s' /\ mapping_kept s s' = true;
  se_journal hash r : storage_of_hash d hash sid = true -> rc_record_id r = record ->
    storage_recovery d' !! hash = Some r -> storage_recovery d !! hash = Some r \/ quiet_stage (rc_stage r) = true;
  se_record hash : record_of_hash d hash record = true -> record_of_hash d' hash record = true;
  se_deletion hash t : record_of_hash d hash record = true -> torrents d !! hash = Some t ->
    exists t', torrents d' !! hash = Some t' /\
      (t_deletion_mode t' = ""%string \/ t_deletion_mode t' = t_deletion_mode t);
}.

Lemma settled_mutates sid record d d' : settled sid record d d' -> ~ mutates sid record d d'.
Proof.
  intros [Hm Hj Hr Hd] [hash s Hs Hid Hno|hash r Hs Hrec Hl Hne Hq|hash H H'|hash t H Ht Hno].
  - destruct (Hm _ _ Hs Hid) as (s' & Hs' & Hk). rewrite (Hno _ Hs') in Hk. done.
  - destruct (Hj _ _ Hs Hrec Hl); congruence.
  - specialize (Hr _ H). congruence.
  - destruct (Hd _ _ H Ht) as (t' & Ht' & Hor). destruct (Hno _ Ht'), Hor; done.
Qed.

Lemma mapping_kept_inv old new : mapping_kept old new = true ->
  st_storage_id old = st_storage_id new /\ st_revision old = st_revision new /\ same_geometry old new = true /\
  (st_state new = "ready"%string /\ st_manifest new = ""%string \/
   st_state old = st_state new /\ st_manifest old = st_manifest new).
Proof.
  unfold mapping_kept. intros H. split_bools. split_and!; try done; [lia|].
  apply orb_true_iff in H0 as [H0|H0]; split_bools; auto.
Qed.

Lemma same_geometry_iff a b : same_geometry a b = true <->
  st_root a = st_root b /\ st_version a = st_version b /\ st_prefix a = st_prefix b.
Proof.
  unfold same_geometry. rewrite !andb_true_iff, !String.eqb_eq, Z.eqb_eq. tauto.
Qed.

Lemma mapping_kept_intro old new :
  st_storage_id old = st_storage_id new -> st_revision old = st_revision new -> same_geometry old new = true ->
  (st_state new = "ready"%string /\ st_manifest new = ""%string \/
   st_state old = st_state new /\ st_manifest old = st_manifest new) -> mapping_kept old new = true.
Proof.
  intros H1 H2 H3 H4. unfold mapping_kept. rewrite H1, H2, H3, String.eqb_refl, Z.eqb_refl. cbn.
  destruct H4 as [[-> ->]|[-> ->]]; [done|]. by rewrite !String.eqb_refl, orb_true_r.
Qed.

Lemma mapping_kept_refl s : mapping_kept s s = true.
Proof. apply mapping_kept_intro; auto. by apply same_geometry_iff. Qed.

Lemma mapping_kept_trans s1 s2 s3 : mapping_kept s1 s2 = true -> mapping_kept s2 s3 = true -> mapping_kept s1 s3 = true.
Proof.
  intros (? & ? & G1 & H1)%mapping_kept_inv (? & ? & G2 & H2)%mapping_kept_inv.
  apply same_geometry_iff in G1, G2. apply mapping_kept_intro; try congruence.
  - apply same_geometry_iff. destruct G1 as (? & ? & ?), G2 as (? & ? & ?). split_and!; congruence.
  - destruct H2 as [|[E1 E2]]; [by left|]. destruct H1 as [[]|[]]; [left|right]; split; congruence.
Qed.

#[export] Instance settled_preorder sid record : PreOrder (settled sid record).
Proof.
  split.
  - intros d. split; eauto using mapping_kept_refl.
  - intros d1 d2 d3 [Hm Hj Hr Hd] [Hm' Hj' Hr' Hd']. split.
    + intros hash s Hs Hid. destruct (Hm _ _ Hs Hid) as (s2 & Hs2 & Hk2).
      destruct (Hm' hash s2) as (s3 & Hs3 & Hk3); [done|by apply mapping_kept_inv in Hk2 as (<- & _)|].
      eauto using mapping_kept_trans.
    + intros hash r Hs Hrec Hl. assert (storage_of_hash d2 hash sid = true) as Hs2.
      { unfold storage_of_hash in *. destruct (torrent_storage d1 !! hash) as [s|] eqn:E; [|done].
        apply String.eqb_eq in Hs. destruct (Hm _ _ E Hs) as (s2 & -> & (<- & _)%mapping_kept_inv).
        by apply String.eqb_eq. }
      destruct (Hj' _ _ Hs2 Hrec Hl) as [Hl2|]; [|by right]. eauto.
    + eauto.
    + intros hash t H Ht. destruct (Hd _ _ H Ht) as (t2 & Ht2 & H2).
      destruct (Hd' hash t2) as (t3 & Ht3 & H3); [eauto..|]. exists t3. split; [done|].
      destruct H3 as [|H3]; [by left|]. rewrite H3. auto.
Qed.

Section Guards.
Context (sid record : string).

(** A statement that is fenced: the head moves on with every mutation. *)
Definition guarded (d d' : db) : Prop :=
  fenced d d' /\
  forall o, resume_owners d !! sid = Some o -> ow_record_id o = record ->
    settled sid record d d' \/ beyond d' sid (ow_mutation_epoch o).

#[local] Instance guarded_preorder : PreOrder guarded.
Proof.
  split; [by intros d; split; [|left]|]. intros d1 d2 d3 [Hf1 H1] [Hf2 H2]. split; [by etransitivity|].
  intros o Ho Hr. destruct (H1 _ Ho Hr) as [Hs|Hb]; [|right; eauto using beyond_advance, fenced_advance].
  destruct (fenced_advance _ _ Hf1 _ _ Ho) as (o2 & Ho2 & [[-> _]|Hlt]).
  - destruct (H2 _ Ho2 Hr) as [Hs2|]; [left; by etransitivity|by right].
  - right. eapply beyond_advance; [by apply fenced_advance|]. by exists o2.
Qed.

Definition mutable : list table := [Torrents; Intents; Storage; Recoveries].

Lemma settled_of_frame ts d d' :
  frame ts d d' -> forallb (fun t => negb (bool_decide (t ∈ ts))) mutable = true -> settled sid record d d'.
Proof.
  intros H Hts. rewrite forallb_forall in Hts.
  assert (forall t, t ∈ mutable -> untouched t d d') as Hu.
  { intros t Ht. apply H, negb_true_iff, Hts. by apply list_elem_of_In. }
  assert (torrents d' = torrents d) as Et by (apply (Hu Torrents); set_solver).
  assert (torrent_intents d' = torrent_intents d) as Ei by (apply (Hu Intents); set_solver).
  assert (torrent_storage d' = torrent_storage d) as Es by (apply (Hu Storage); set_solver).
  assert (storage_recovery d' = storage_recovery d) as Er by (apply (Hu Recoveries); set_solver).
  split; unfold record_of_hash; rewrite ?Et, ?Ei, ?Es, ?Er; eauto using mapping_kept_refl.
Qed.

Lemma guarded_of_frame ts d d' :
  frame ts d d' -> forallb (fun t => negb (bool_decide (t ∈ ts))) mutable = true -> fenced d d' -> guarded d d'.
Proof. intros H Hts Hf. split; [done|]. left. by eapply settled_of_frame. Qed.

(** ** Statements on journals *)

Lemma journal_guarded hash r d d' :
  resume_journal hash r d = Ok d' -> guarded d (set_recovery hash r d').
Proof.
  intros H. pose proof (resume_journal_frame _ _ _ _ H) as Hfr. split; [etransitivity; [by eapply resume_journal_fenced|fence_step]|].
  intros o Ho Hrec. unfold resume_journal in H. destruct (quiet_stage (rc_stage r)) eqn:Hq.
  - simplify_eq. left. split; cbn; eauto using mapping_kept_refl. intros h r' _ _ Hl.
    apply lookup_insert_Some in Hl as [[_ ->]|[_ ?]]; auto.
  - destruct ((ow_record_id o =? rc_record_id r)%string && storage_of_hash d hash sid) eqn:Es;
      [right; by eapply fence_owners_passes in H|]. left.
    pose proof (Hfr Torrents eq_refl) as Et. pose proof (Hfr Intents eq_refl) as Ei.
    pose proof (Hfr Storage eq_refl) as Est. pose proof (Hfr Recoveries eq_refl) as Er. cbn in Et, Ei, Est, Er.
    split; unfold record_of_hash; cbn; rewrite ?Et, ?Ei, ?Est, ?Er; eauto using mapping_kept_refl.
    intros h r' Hs Hr' Hl. apply lookup_insert_Some in Hl as [[<- <-]|[_ ?]]; [|by left].
    rewrite Hs, andb_true_r in Es. apply String.eqb_neq in Es. congruence.
Qed.

Lemma resume_journal_guarded hash r d d' : resume_journal hash r d = Ok d' -> guarded d d'.
Proof.
  intros H. eapply guarded_of_frame; [by eapply resume_journal_frame|done|by eapply resume_journal_fenced].
Qed.

Lemma update_recovery_guarded hash sel set d n d' : update_recovery hash sel set d = Ok (n, d') -> guarded d d'.
Proof. unfold update_recovery. intros. branches; [by apply journal_guarded|reflexivity..]. Qed.

Lemma upsert_recovery_guarded hash row conflict d n d' : upsert_recovery hash row conflict d = Ok (n, d') -> guarded d d'.
Proof.
  unfold upsert_recovery. intros. branches.
  - etransitivity; [by eapply resume_journal_guarded|by apply journal_guarded].
  - by eapply resume_journal_guarded.
  - by apply journal_guarded.
Qed.

(** ** Statements on torrents and records *)

Lemma deletion_guarded hash old new d d' : torrents d !! hash = Some old ->
  resume_deletion_intent hash old new d = Ok d' -> guarded d (d' <| torrents ::= <[hash := new]> |>).
Proof.
  intros Hold H. pose proof (resume_deletion_intent_frame _ _ _ _ _ H) as Hfr.
  split; [etransitivity; [by eapply resume_deletion_intent_fenced|fence_step]|].
  intros o Ho Hrec. pose proof (Hfr Torrents eq_refl) as Et. pose proof (Hfr Intents eq_refl) as Ei.
  pose proof (Hfr Storage eq_refl) as Est. pose proof (Hfr Recoveries eq_refl) as Er. cbn in Et, Ei, Est, Er.
  assert (beyond d' sid (ow_mutation_epoch o) \/ (record_of_hash d hash record = true ->
    t_deletion_mode new = ""%string \/ t_deletion_mode new = t_deletion_mode old)) as [|Hkeep]; [|by right|left].
  { unfold resume_deletion_intent in H. destruct (negb _ && negb _) eqn:E.
    - destruct (record_of_hash d hash record) eqn:Eh; [left|by right]. eapply fence_owners_passes in H; [done..|by rewrite Hrec].
    - right. intros _. apply andb_false_iff in E. rewrite !negb_false_iff, !String.eqb_eq in E. destruct E; auto. }
  split; unfold record_of_hash; cbn; rewrite ?Et, ?Ei, ?Est, ?Er; eauto using mapping_kept_refl.
  intros h t Hh Ht. destruct (decide (h = hash)) as [->|].
  - rewrite lookup_insert_eq. simplify_eq. eauto.
  - rewrite lookup_insert_ne by done. eauto.
Qed.

Lemma recovery_deletion_guarded hash old new d d' : recovery_deletion_intent hash old new d = Ok d' -> guarded d d'.
Proof. unfold recovery_deletion_intent. intros. branches; eauto using upsert_recovery_guarded; reflexivity. Qed.

Lemma update_torrent_guarded hash sel set d n d' : update_torrent hash sel set d = Ok (n, d') -> guarded d d'.
Proof.
  unfold update_torrent. intros. branches; [|reflexivity..].
  etransitivity; [by eapply deletion_guarded|by eapply recovery_deletion_guarded].
Qed.

(** New rows settle everything. *)
Lemma insert_torrent_guarded hash row random d u d' : insert_torrent hash row random d = Ok (u, d') -> guarded d d'.
Proof.
  unfold insert_torrent. intros. branches. split; [fence_step|]. left.
  repeat match goal with H : bool_decide (is_Some _) = false |- _ => apply bool_decide_eq_false, eq_None_not_Some in H end.
  split; unfold record_of_hash; cbn; eauto using mapping_kept_refl.
  - intros h Hh. destruct (decide (h = hash)) as [->|]; [|by rewrite lookup_insert_ne].
    by destruct (torrent_intents d !! hash).
  - intros h t _ Ht. rewrite lookup_insert_ne; [eauto|]. congruence.
Qed.

Lemma delete_torrent_row_guarded hash d d' : delete_torrent_row hash d = Ok d' -> guarded d d'.
Proof.
  intros H. split; [by eapply delete_torrent_row_fenced|]. intros o Ho Hrec.
  unfold delete_torrent_row, delete_intent in H. destruct (torrents d !! hash) as [t|] eqn:Et; [|left; by simplify_eq].
  destruct (torrent_intents d !! hash) as [i|] eqn:Ei.
  - destruct (fence_record (in_record_id i) d) as [d1|] eqn:Ef; [|done]. simplify_eq.
    destruct (decide (in_record_id i = ow_record_id o)) as [E|Hne].
    { right. eapply fence_owners_passes in Ef; [done..|]. by apply String.eqb_eq. }
    left. pose proof (fence_record_frame _ _ _ Ef) as Hfr.
    pose proof (Hfr Torrents eq_refl) as Et'. pose proof (Hfr Intents eq_refl) as Ei'.
    pose proof (Hfr Storage eq_refl) as Est. pose proof (Hfr Recoveries eq_refl) as Er. cbn in Et', Ei', Est, Er.
    assert (forall h, record_of_hash d h (ow_record_id o) = true -> h <> hash) as Hh.
    { intros h Hh ->. unfold record_of_hash in Hh. rewrite Ei in Hh. by apply String.eqb_eq in Hh. }
    split; unfold record_of_hash; cbn; rewrite ?Et', ?Ei', ?Est, ?Er; eauto using mapping_kept_refl.
    + intros h r _ _ [_ ?]%lookup_delete_Some. by left.
    + intros h Hr. by rewrite lookup_delete_ne by (by intros <-; eapply Hh).
    + intros h t' Hr Ht'. rewrite lookup_delete_ne by (by intros <-; eapply Hh). eauto.
  - simplify_eq. left.
    assert (forall h, record_of_hash d h (ow_record_id o) = true -> h <> hash) as Hh.
    { intros h Hh ->. unfold record_of_hash in Hh. by rewrite Ei in Hh. }
    split; cbn; eauto using mapping_kept_refl.
    + intros h r _ _ [_ ?]%lookup_delete_Some. by left.
    + intros h t' Hr Ht'. rewrite lookup_delete_ne by (by intros <-; eapply Hh). eauto.
Qed.

Lemma map_intents_guarded f d : (forall i, in_record_id (f i) = in_record_id i) ->
  guarded d (d <| torrent_intents ::= fmap f |>).
Proof.
  intros Hf. split; [fence_step|]. left. split; cbn; eauto using mapping_kept_refl.
  intros h. unfold record_of_hash. cbn. rewrite lookup_fmap.
  destruct (torrent_intents d !! h); cbn; [|done]. by rewrite Hf.
Qed.

Lemma update_intent_guarded hash sel set d n d' : (forall i, in_record_id (set i) = in_record_id i) ->
  update_intent hash sel set d = Ok (n, d') -> guarded d d'.
Proof.
  intros Hset. unfold update_intent. intros. branches; [|reflexivity..].
  split; [fence_step|]. left. split; cbn; eauto using mapping_kept_refl.
  intros h. unfold record_of_hash. cbn. destruct (decide (h = hash)) as [->|]; [|by rewrite lookup_insert_ne].
  rewrite lookup_insert_eq. match goal with E : torrent_intents d !! hash = _ |- _ => rewrite E end. by rewrite Hset.
Qed.

Lemma forget_recovery_guarded hash d : guarded d (d <| storage_recovery ::= delete hash |>).
Proof.
  split; [fence_step|]. left. split; cbn; eauto using mapping_kept_refl.
  intros h r _ _ [_ ?]%lookup_delete_Some. by left.
Qed.

(** ** Statements on mappings *)

(** A mapping replaced after its triggers: it is kept, or its head was fenced. *)
Lemma settled_storage hash old new d d' :
  frame storage_tables d d' -> torrent_storage d !! hash = Some old ->
  torrent_storage d' = <[hash := new]> (torrent_storage d) ->
  (st_storage_id old = sid -> mapping_kept old new = true) -> settled sid record d d'.
Proof.
  intros Hfr Hold Hnew Hk. pose proof (Hfr Torrents eq_refl) as Et. pose proof (Hfr Intents eq_refl) as Ei.
  pose proof (Hfr Recoveries eq_refl) as Er. cbn in Et, Ei, Er.
  split; unfold record_of_hash; cbn; rewrite ?Et, ?Ei, ?Hnew, ?Er; eauto.
  intros h s Hs Hid. destruct (decide (h = hash)) as [->|].
  - rewrite lookup_insert_eq. simplify_eq. eauto.
  - rewrite lookup_insert_ne by done. eauto using mapping_kept_refl.
Qed.

Lemma write_storage_table hash old new d d' : write_storage hash old new d = Ok d' ->
  exists row, torrent_storage d' = <[hash := row]> (torrent_storage d) /\ (same_geometry old new = true -> row = new).
Proof.
  unfold write_storage. intros H. destruct (resume_mapping_change old new d) as [d1|] eqn:E1; [|done].
  destruct (resume_mapping_workflow old new d1) as [d2|] eqn:E2; [|done].
  pose proof (resume_mapping_change_frame _ _ _ _ E1 Storage eq_refl) as F1.
  pose proof (resume_mapping_workflow_frame _ _ _ _ E2 Storage eq_refl) as F2. cbn in F1, F2.
  unfold storage_mapping_revision in H. destruct (same_geometry old new) eqn:Eg.
  - simplify_eq. exists new. cbn. by rewrite F2, F1.
  - case_match; [done|]. destruct (resume_mapping_change new _ _) as [d3|] eqn:E3; [|done]. simplify_eq.
    pose proof (resume_mapping_change_frame _ _ _ _ E3 Storage eq_refl) as F3. cbn in F3.
    exists (new <| st_revision := st_revision old + 1 |>). split; [|done]. cbn. by rewrite F3, F2, F1, insert_insert_eq.
Qed.

Lemma write_storage_settles hash old new d d' o : write_storage hash old new d = Ok d' ->
  resume_owners d !! st_storage_id old = Some o ->
  mapping_kept old new = true \/ beyond d' (st_storage_id old) (ow_mutation_epoch o).
Proof.
  intros H Ho. unfold write_storage in H. destruct (resume_mapping_change old new d) as [d1|] eqn:E1; [|done].
  destruct (resume_mapping_workflow old new d1) as [d2|] eqn:E2; [|done].
  assert (heads_advance d2 d') as A2.
  { apply fenced_advance. etransitivity; [|by eapply storage_mapping_revision_fenced]. fence_step. }
  pose proof (fenced_advance _ _ (resume_mapping_workflow_fenced _ _ _ _ E2)) as A1.
  unfold resume_mapping_change in E1. destruct (_ && _) eqn:Ek in E1; cycle 1.
  { right. eapply beyond_advance; [exact A2|]. eapply beyond_advance; [exact A1|].
    eapply fence_owners_passes in E1; [done..|]. apply String.eqb_refl. }
  simplify_eq. unfold resume_mapping_workflow in E2. destruct (_ && _) eqn:Ew in E2.
  { right. eapply beyond_advance; [exact A2|]. eapply fence_owners_passes in E2; [done..|]. apply String.eqb_refl. }
  left. split_bools. apply mapping_kept_intro; try done; [lia|]. apply andb_false_iff in Ew as [Ew|Ew].
  - apply orb_false_iff in Ew as [E3 E4]. apply negb_false_iff, String.eqb_eq in E3, E4. auto.
  - apply negb_false_iff in Ew. split_bools. auto.
Qed.

Lemma write_storage_guarded hash old new d d' : torrent_storage d !! hash = Some old ->
  write_storage hash old new d = Ok d' -> guarded d d'.
Proof.
  intros Hold H. split; [by eapply write_storage_fenced|]. intros o Ho Hrec.
  destruct (write_storage_table _ _ _ _ _ H) as (row & Hrow & Hnew).
  pose proof (write_storage_frame _ _ _ _ _ H) as Hfr.
  destruct (decide (st_storage_id old = sid)) as [E|Hne]; [|left; by eapply settled_storage].
  rewrite <- E in Ho. destruct (write_storage_settles _ _ _ _ _ _ H Ho) as [Hk|]; [left|right; by rewrite <- E].
  eapply settled_storage; [done..|]. intros _. rewrite Hnew; [done|]. by apply mapping_kept_inv in Hk as (_ & _ & ? & _).
Qed.

Lemma new_storage_guarded hash row d : torrent_storage d !! hash = None -> guarded d (set_storage hash row d).
Proof.
  intros Hn. split; [fence_step|]. left. split; cbn; eauto.
  intros h s Hs _. rewrite lookup_insert_ne by congruence. eauto using mapping_kept_refl.
Qed.

Lemma upsert_storage_guarded hash row conflict random d n d' :
  upsert_storage hash row conflict random d = Ok (n, d') -> guarded d d'.
Proof.
  unfold upsert_storage. intros. branches; try reflexivity; [by eapply write_storage_guarded| |by apply new_storage_guarded].
  etransitivity; [by apply new_storage_guarded|]. eapply write_storage_guarded; [|done]. apply lookup_insert_eq.
Qed.

Lemma delete_storage_guarded hash d d' : delete_storage hash d = Ok d' -> guarded d d'.
Proof.
  intros H. split; [by eapply delete_storage_fenced|]. intros o Ho Hrec. unfold delete_storage in H.
  destruct (torrent_storage d !! hash) as [s|] eqn:Es; [|left; by simplify_eq].
  destruct (fence_storage (st_storage_id s) d) as [d1|] eqn:Ef; [|done]. simplify_eq.
  destruct (decide (sid = st_storage_id s)) as [E|Hne].
  { right. eapply fence_owners_passes in Ef; [done..|]. by apply String.eqb_eq. }
  left. pose proof (fence_storage_frame _ _ _ Ef) as Hfr. pose proof (Hfr Torrents eq_refl) as Et.
  pose proof (Hfr Intents eq_refl) as Ei. pose proof (Hfr Storage eq_refl) as Est.
  pose proof (Hfr Recoveries eq_refl) as Er. cbn in Et, Ei, Est, Er.
  split; unfold record_of_hash; cbn; rewrite ?Et, ?Ei, ?Est, ?Er; eauto.
  intros h s' Hs' Hid. rewrite lookup_delete_ne by congruence. eauto using mapping_kept_refl.
Qed.

Lemma update_storage_guarded sel set d n d' : update_storage sel set d = Ok (n, d') -> guarded d d'.
Proof.
  unfold update_storage. intros. case_match eqn:E; simplify_eq. revert E. apply each_row_rel; [apply _|].
  intros. branches. by eapply write_storage_guarded.
Qed.

Lemma delete_storages_guarded keys d d' : each_row delete_storage keys d = Ok d' -> guarded d d'.
Proof. apply each_row_rel; [apply _|]. intros ???. apply delete_storage_guarded. Qed.

Lemma advanceIntent_guarded v d u d' : advanceIntent v d = Ok (u, d') -> guarded d d'.
Proof. unfold advanceIntent. intros. branches. eapply update_intent_guarded; [|eassumption]. done. Qed.
End Guards.

#[export] Existing Instance guarded_preorder.

Create HintDb guards.
#[export] Hint Resolve resume_journal_guarded update_recovery_guarded upsert_recovery_guarded update_torrent_guarded
  insert_torrent_guarded delete_torrent_row_guarded advanceIntent_guarded forget_recovery_guarded
  upsert_storage_guarded delete_storage_guarded update_storage_guarded delete_storages_guarded : guards.

Ltac guard_step :=
  first
    [ solve [eauto with guards]
    | by (eapply update_intent_guarded; [|eassumption])
    | by (apply map_intents_guarded; intros; case_match)
    | by (split; [fence_step|left; split; cbn; eauto using mapping_kept_refl])
    | eapply guarded_of_frame; [solve [eauto with frames]|reflexivity|fence_step] ].

Ltac guard_body := intros; branches; chain_with guard_step.

(** ** Operations *)

Section Operations.
Context (fold : string -> string) (catalog_json : TorrentCatalog -> list byte) (sid record : string).

Lemma saveCatalogTx_guarded hash c d d' : saveCatalogTx catalog_json hash c d = Ok d' -> guarded sid record d d'.
Proof.
  unfold saveCatalogTx. intros. branches.
  etransitivity; [|apply fold_left_rel; [apply _|]; intros; unfold save_file; guard_step].
  chain_with guard_step.
Qed.
Lemma setStorageLayoutTx_guarded before id next d d' :
  setStorageLayoutTx fold before id next d = Ok d' -> guarded sid record d d'.
Proof. unfold setStorageLayoutTx. intros. branches; eauto with guards. Qed.
Lemma save_progress_guarded o fileBytes d d' : save_progress o fileBytes d = Ok d' -> guarded sid record d d'.
Proof. unfold save_progress. intros. branches; eauto with guards. Qed.
Hint Resolve saveCatalogTx_guarded setStorageLayoutTx_guarded save_progress_guarded : guards.
Hint Resolve save_observed_frame insert_claims_frame retain_claims_frame save_inventory_files_frame : frames.

Lemma operation_guarded op d : resume_operation op = false -> guarded sid record d (apply fold catalog_json d op).
Proof.
  intros Hop.
  destruct (forallb (fun t => negb (bool_decide (t ∈ touches op))) mutable) eqn:Ht.
  { eapply guarded_of_frame; [apply apply_frame|done|by apply apply_fenced]. }
  destruct op; try discriminate Hop; try discriminate Ht; cbn [apply]; unfold_op; open_ops; guard_body.
Qed.

Lemma apply_settled op d : resume_operation op = true -> settled sid record d (apply fold catalog_json d op).
Proof. intros Hop. eapply settled_of_frame; [apply apply_frame|]. by destruct op. Qed.

(** An operation that changes what a head rests on moves the head. *)
Lemma mutates_beyond op d o :
  resume_owners d !! sid = Some o -> ow_record_id o = record -> mutates sid record d (apply fold catalog_json d op) ->
  beyond (apply fold catalog_json d op) sid (ow_mutation_epoch o).
Proof.
  intros Ho Hr Hm. destruct (resume_operation op) eqn:Hop.
  - exfalso. by eapply settled_mutates, Hm; apply apply_settled.
  - destruct (proj2 (operation_guarded op d Hop) o Ho Hr) as [Hs|]; [|done]. exfalso. by eapply settled_mutates.
Qed.
End Operations.
