(* ===== verification/ResumeBarriers.v ===== *)
(** * Barriers

    The operations that begin to change a payload, its place or its record
    leave every earlier token of the storage behind: the named ones whenever they
    are accepted, and any other whenever its effect is a mutation. *)

From stdpp Require Import base gmap list strings.
From Stdlib Require Import ZArith Strings.Byte Lia.
From S2P Require Import Prelude Models Paths Layout FastResume Codec Tables IntentStore StorageStore ResumeStore.
From S2P Require Import Library LibraryFrame ResumeFences ResumeSafety ResumeMutations.

#[local] Open Scope Z_scope.

(** To pass a token it is enough to pass the exact head. *)
Lemma passes_exact t d d' : heads_advance d d' -> head_reached t d ->
  (forall o, resume_owners d !! tk_StorageID t = Some o -> head_token (tk_StorageID t) o = t ->
     beyond d' (tk_StorageID t) (tk_Epoch t)) ->
  head_passed t d'.
Proof.
  intros Hadv (o & Ho & [Ht|Hlt]) Hex.
  - by apply (Hex o).
  - apply (passed_advance t d d' Hadv). exists o. done.
Qed.

(** The start of a deletion. *)
Lemma update_torrent_passes hash sel set d n d' sid o :
  update_torrent hash sel set d = Ok (n, d') -> n = 1 -> resume_owners d !! sid = Some o ->
  record_of_hash d hash (ow_record_id o) = true -> not_deleting d hash = true ->
  (forall t, t_deletion_mode (set t) <> ""%string) ->
  beyond d' sid (ow_mutation_epoch o).
Proof.
  unfold update_torrent, not_deleting. destruct (torrents d !! hash) as [t|]; [|by intros; simplify_eq].
  destruct (sel t); [|by intros; simplify_eq]. intros H _ Ho Hrec Hnd Hset. apply String.eqb_eq in Hnd.
  destruct (resume_deletion_intent _ _ _ d) as [d1|] eqn:E1; [|done].
  destruct (recovery_deletion_intent _ _ _ _) as [d2|] eqn:E2; [|done]. simplify_eq.
  apply recovery_deletion_intent_fenced, fenced_advance in E2.
  unfold resume_deletion_intent in E1. rewrite Hnd in E1.
  rewrite (proj2 (String.eqb_neq _ _) (Hset t)) in E1. cbn [negb andb] in E1.
  rewrite (proj2 (String.eqb_neq _ _)) in E1 by (intros E; by apply (Hset t)). cbn in E1.
  eapply beyond_advance; [exact E2|]. by eapply fence_owners_passes in E1.
Qed.

(** Its end, with the record. *)
Lemma delete_torrent_row_passes hash d d' sid o :
  delete_torrent_row hash d = Ok d' -> is_Some (torrents d !! hash) -> resume_owners d !! sid = Some o ->
  record_of_hash d hash (ow_record_id o) = true ->
  beyond d' sid (ow_mutation_epoch o).
Proof.
  unfold delete_torrent_row, delete_intent, record_of_hash. intros H [t Ht] Ho Hrec. rewrite Ht in H.
  destruct (torrent_intents d !! hash) as [i|]; [|done].
  destruct (fence_record (in_record_id i) d) as [d1|] eqn:E; [|done]. simplify_eq. cbn.
  eapply fence_owners_passes in E; [done..|]. apply String.eqb_eq in Hrec. rewrite <- Hrec. apply String.eqb_refl.
Qed.

(** A journal of an active stage. *)
Lemma upsert_recovery_passes hash row conflict d n d' sid o :
  upsert_recovery hash row conflict d = Ok (n, d') -> resume_owners d !! sid = Some o ->
  quiet_stage (rc_stage row) = false -> ow_record_id o = rc_record_id row -> storage_of_hash d hash sid = true ->
  beyond d' sid (ow_mutation_epoch o).
Proof.
  unfold upsert_recovery. intros H Ho Hq Hr Hs. destruct (resume_journal hash row d) as [d1|] eqn:E; [|done].
  unfold resume_journal in E. rewrite Hq in E.
  eapply (fence_owners_passes _ _ _ _ sid o) in E; [|done|by rewrite Hr, String.eqb_refl, Hs].
  eapply beyond_advance, E. apply fenced_advance. branches; chain_with fence_step.
Qed.

Lemma update_recovery_passes hash sel set d n d' sid o :
  update_recovery hash sel set d = Ok (n, d') -> n = 1 -> resume_owners d !! sid = Some o ->
  (forall old, storage_recovery d !! hash = Some old -> sel old = true ->
     quiet_stage (rc_stage (set old)) = false /\ rc_record_id (set old) = ow_record_id o) ->
  storage_of_hash d hash sid = true -> beyond d' sid (ow_mutation_epoch o).
Proof.
  unfold update_recovery. intros H Hn Ho Hset Hs. destruct (storage_recovery d !! hash) as [old|]; [|simplify_eq; lia].
  destruct (sel old) eqn:Esel; [|simplify_eq; lia]. destruct (Hset old eq_refl Esel) as [Hq Hr].
  destruct (resume_journal hash (set old) d) as [d1|] eqn:E; [|done]. simplify_eq.
  unfold resume_journal in E. rewrite Hq in E.
  eapply (fence_owners_passes _ _ _ _ sid o) in E; [exact E|done|by rewrite Hr, String.eqb_refl, Hs].
Qed.

(** A change of the layout. *)
Lemma write_storage_passes hash old new d d' o :
  write_storage hash old new d = Ok d' -> resume_owners d !! st_storage_id old = Some o ->
  same_geometry old new = false ->
  beyond d' (st_storage_id old) (ow_mutation_epoch o).
Proof.
  unfold write_storage, resume_mapping_change at 1. intros H Ho Hg. rewrite Hg, andb_false_r in H.
  destruct (fence_storage _ d) as [d1|] eqn:E; [|done].
  eapply fence_owners_passes in E; [|done|apply String.eqb_refl].
  eapply beyond_advance, E. apply fenced_advance. branches; chain_with fence_step.
Qed.

Lemma storage_keys_lookup sel d hash :
  hash ∈ storage_keys sel d -> exists s, torrent_storage d !! hash = Some s /\ sel hash s = true.
Proof.
  unfold storage_keys. rewrite list_elem_of_fmap. intros ([h s] & -> & Hin).
  apply list_elem_of_In, filter_In in Hin as [Hin Hs]. apply list_elem_of_In, elem_of_map_to_list in Hin. eauto.
Qed.

Lemma storage_keys_elem sel d hash s :
  torrent_storage d !! hash = Some s -> sel hash s = true -> hash ∈ storage_keys sel d.
Proof.
  intros Hl Hs. unfold storage_keys. apply list_elem_of_fmap. exists (hash, s). split; [done|].
  apply list_elem_of_In, filter_In. split; [|done]. by apply list_elem_of_In, elem_of_map_to_list.
Qed.

Lemma update_storage_passes sel set d n d' sid o hash s :
  update_storage sel set d = Ok (n, d') -> resume_owners d !! sid = Some o ->
  torrent_storage d !! hash = Some s -> sel hash s = true ->
  (forall h s, torrent_storage d !! h = Some s -> sel h s = true ->
     st_storage_id s = sid /\ same_geometry s (set s) = false) ->
  beyond d' sid (ow_mutation_epoch o).
Proof.
  unfold update_storage. intros H Ho Hs Hsel Hall.
  destruct (storage_keys sel d) as [|k keys] eqn:Ek.
  { pose proof (storage_keys_elem _ _ _ _ Hs Hsel) as Hin. rewrite Ek in Hin. by apply elem_of_nil in Hin. }
  destruct (storage_keys_lookup sel d k) as (sk & Hk & Hselk); [rewrite Ek; left|].
  destruct (Hall _ _ Hk Hselk) as [<- Hg]. cbn [each_row] in H. rewrite Hk in H.
  destruct (write_storage k sk (set sk) d) as [d1|] eqn:E1; [|done].
  destruct (each_row _ keys d1) as [d2|] eqn:E2; [|done]. simplify_eq.
  eapply write_storage_passes in E1; [|done..]. eapply beyond_advance, E1.
  revert E2. apply each_row_rel; [apply _|]. intros. apply fenced_advance. branches; eauto with fences.
Qed.

Section Barriers.
Context (fold : string -> string) (catalog_json : TorrentCatalog -> list byte).

(** The accepted operations that end the authority of the token [t]. *)
Inductive barrier (d : db) (t : ResumeToken) : operation -> Prop :=
| barrier_mutation m record : m_StorageID m = tk_StorageID t ->
    fst (InvalidateResumeMutation d m record) = Ok tt -> barrier d t (OpInvalidateResumeMutation m record)
| barrier_recheck m token next : m_StorageID m = tk_StorageID t ->
    fst (InvalidateResume d m token) = Ok next -> barrier d t (OpInvalidateResume m token)
| barrier_revoke m token mask next : m_StorageID m = tk_StorageID t ->
    fst (RevokeResume fold d m token mask) = Ok next -> next <> token -> barrier d t (OpRevokeResume m token mask)
| barrier_cleanup hash paths : record_of_hash d hash (tk_RecordID t) = true -> not_deleting d hash = true ->
    fst (BeginCleanup d hash paths) = Ok tt -> barrier d t (OpBeginCleanup hash paths)
| barrier_forget hash : record_of_hash d hash (tk_RecordID t) = true -> not_deleting d hash = true ->
    fst (BeginForget d hash) = Ok tt -> barrier d t (OpBeginForget hash)
| barrier_delete hash : record_of_hash d hash (tk_RecordID t) = true -> is_Some (torrents d !! hash) ->
    fst (DeleteTorrent d hash) = Ok tt -> barrier d t (OpDeleteTorrent hash)
| barrier_operation m v previous claimed : m_StorageID m = tk_StorageID t -> m_Hash m = v_Hash v ->
    rc_record_id (v_row v) = tk_RecordID t -> quiet_stage (rc_stage (v_row v)) = false ->
    fst (CreateStorageOperation fold d m v previous claimed) = Ok tt ->
    barrier d t (OpCreateStorageOperation m v previous claimed)
| barrier_layout before record next : m_StorageID before = tk_StorageID t -> mapping_layout before <> next ->
    fst (SetStorageLayout fold d before record next) = Ok tt -> barrier d t (OpSetStorageLayout before record next)
| barrier_transition m v from : m_StorageID m = tk_StorageID t -> m_Hash m = v_Hash v ->
    rc_record_id (v_row v) = tk_RecordID t -> quiet_stage (rc_stage (v_row v)) = false ->
    fst (TransitionStorageOperation d m v from) = Ok tt -> barrier d t (OpTransitionStorageOperation m v from)
| barrier_commit before v next paused : m_StorageID before = tk_StorageID t -> m_Hash before = v_Hash v ->
    rc_record_id (v_row v) = tk_RecordID t -> fst (CommitStorageOperation fold d before v next paused) = Ok tt ->
    barrier d t (OpCommitStorageOperation before v next paused)
| barrier_recovery v : storage_of_hash d (v_Hash v) (tk_StorageID t) = true -> rc_record_id (v_row v) = tk_RecordID t ->
    quiet_stage (rc_stage (v_row v)) = false -> fst (SaveRecovery d v) = Ok tt -> barrier d t (OpSaveRecovery v)
| barrier_progress hash id stage removed : storage_of_hash d hash (tk_StorageID t) = true -> id = tk_RecordID t ->
    quiet_stage stage = false -> fst (AdvanceDeletion d hash id stage removed) = Ok tt ->
    barrier d t (OpAdvanceDeletion hash id stage removed)
| barrier_effect op : mutates (tk_StorageID t) (tk_RecordID t) d (apply fold catalog_json d op) -> barrier d t op.

Lemma checkStorageFence_inv d m id : checkStorageFence d m id = Ok tt ->
  exists s, torrent_storage d !! m_Hash m = Some s /\ st_storage_id s = m_StorageID m /\
    st_revision s = m_Revision m /\ same_geometry s (m_row m) = true /\
    record_of_hash d (m_Hash m) id = true /\ not_deleting d (m_Hash m) = true.
Proof.
  unfold checkStorageFence. destruct (torrent_storage d !! m_Hash m) as [s|]; [|done].
  destruct (_ && _) eqn:E; [|done]. intros _. exists s. unfold same_mapping in E. split_bools.
  split_and!; try done. lia.
Qed.

(** The transaction behind an accepted operation. *)
Lemma atomically_accepted {A} (body : tx A) d a :
  fst (atomically body d) = Ok a -> body d = Ok (a, snd (atomically body d)).
Proof. unfold atomically. destruct (body d) as [[? ?]|]; cbn; congruence. Qed.

Lemma affecting_one_accepted statement e d :
  fst (affecting_one statement e d) = Ok tt -> statement d = Ok (1, snd (affecting_one statement e d)).
Proof.
  unfold affecting_one. destruct (statement d) as [[n d']|]; cbn; [|done].
  destruct (Z.eqb_spec n 1) as [->|]; congruence.
Qed.

Lemma deletion_passes t d hash sel set e : head_reached t d ->
  heads_advance d (snd (affecting_one (update_torrent hash sel set) e d)) ->
  record_of_hash d hash (tk_RecordID t) = true -> not_deleting d hash = true ->
  (forall t, t_deletion_mode (set t) <> ""%string) ->
  fst (affecting_one (update_torrent hash sel set) e d) = Ok tt ->
  head_passed t (snd (affecting_one (update_torrent hash sel set) e d)).
Proof.
  intros Hr Hadv Hrec Hnd Hset Hok%affecting_one_accepted. apply (passes_exact t d); [done..|].
  intros o Ho Ht. eapply update_torrent_passes in Hok; [|done..|by rewrite <- Ht in Hrec|done|done].
  rewrite <- Ht at 2. exact Hok.
Qed.

Lemma DeleteTorrent_passes t d hash : head_reached t d -> record_of_hash d hash (tk_RecordID t) = true ->
  is_Some (torrents d !! hash) -> fst (DeleteTorrent d hash) = Ok tt ->
  head_passed t (snd (DeleteTorrent d hash)).
Proof using fold catalog_json.
  intros Hr Hrec Ht Hok. apply (passes_exact t d); [apply (apply_advance fold catalog_json (OpDeleteTorrent hash))|done|].
  intros o Ho Heq. unfold DeleteTorrent in *. apply atomically_accepted in Hok.
  set (d' := snd _) in *. clearbody d'. unfold DeleteTorrent_tx in Hok. case_match; [done|].
  match type of Hok with context [delete_torrent_row hash ?x] => set (d1 := x) in * end.
  destruct (delete_torrent_row hash d1) as [d2|] eqn:E; [|done].
  eapply (delete_torrent_row_passes _ _ _ (tk_StorageID t) o) in E; [|done|done|by rewrite <- Heq in Hrec].
  eapply beyond_advance; [|rewrite <- Heq at 2; exact E].
  apply fenced_advance. branches; eauto with fences.
Qed.

Lemma CreateStorageOperation_passes t d m v previous claimed : head_reached t d ->
  m_StorageID m = tk_StorageID t -> m_Hash m = v_Hash v -> rc_record_id (v_row v) = tk_RecordID t ->
  quiet_stage (rc_stage (v_row v)) = false -> fst (CreateStorageOperation fold d m v previous claimed) = Ok tt ->
  head_passed t (snd (CreateStorageOperation fold d m v previous claimed)).
Proof using fold catalog_json.
  intros Hr Hsid Hh Hrec Hq Hok.
  apply (passes_exact t d); [apply (apply_advance fold catalog_json (OpCreateStorageOperation m v previous claimed))|done|].
  intros o Ho Heq. unfold CreateStorageOperation in *. apply atomically_accepted in Hok.
  set (d' := snd _) in *. clearbody d'. unfold CreateStorageOperation_tx in Hok.
  destruct (checkStorageFence d m _) as [[]|] eqn:Ef; [|done]. case_match; [done|]. case_match; [done|].
  destruct (check_claims fold d m v claimed); [|done].
  destruct (upsert_recovery _ _ _ d) as [[n d1]|] eqn:E; [|done].
  eapply (upsert_recovery_passes _ _ _ _ _ _ (tk_StorageID t) o) in E; [|done|done|by rewrite Hrec, <- Heq|].
  - eapply beyond_advance; [|rewrite <- Heq at 2; exact E]. apply fenced_advance.
    destruct (each_row _ _ _) as [d2|] eqn:E3 in Hok; [|done]. simplify_eq.
    apply insert_claims_frame, fenced_of_frame in E3; [|reflexivity]. etransitivity; [|exact E3]. fence_step.
  - apply checkStorageFence_inv in Ef as (s & Hs & Hid & _). unfold storage_of_hash.
    rewrite <- Hh, Hs, <- Hsid. by apply String.eqb_eq.
Qed.

Lemma SetStorageLayout_passes t d before record next : head_reached t d ->
  m_StorageID before = tk_StorageID t -> mapping_layout before <> next ->
  fst (SetStorageLayout fold d before record next) = Ok tt ->
  head_passed t (snd (SetStorageLayout fold d before record next)).
Proof using fold catalog_json.
  intros Hr Hsid Hne Hok.
  apply (passes_exact t d); [apply (apply_advance fold catalog_json (OpSetStorageLayout before record next))|done|].
  intros o Ho Heq. unfold SetStorageLayout in *. destruct (Layout_Validate next) eqn:Ev; [|done].
  apply atomically_accepted in Hok. set (d' := snd _) in *. clearbody d'. cbn beta in Hok.
  destruct (setStorageLayoutTx fold before record next d) as [d1|] eqn:E; [|done]. simplify_eq.
  unfold setStorageLayoutTx in E. rewrite Ev in E. destruct (checkStorageClaims _ _ _ _); [|done].
  case_match; [done|]. case_match eqn:Em; [done|]. case_match eqn:Ex; [done|].
  destruct (update_storage _ _ d) as [[n d1]|] eqn:Eu; [|done]. simplify_eq.
  apply negb_false_iff in Em. destruct (torrent_storage d !! m_Hash before) as [s|] eqn:Es; [|done].
  assert (forall h s, torrent_storage d !! h = Some s -> st_storage_id s = m_StorageID before -> same_mapping before s = true) as Hall.
  { intros h s' Hl Hid. destruct (same_mapping before s') eqn:Es'; [done|].
    assert (existsb (fun '(_, s) => if (st_storage_id s =? m_StorageID before)%string then negb (same_mapping before s)
              else negb (st_root s =? "")%string && collides fold (st_root s) (l_Root next)) (map_to_list (torrent_storage d)) = true);
      [|congruence].
    apply existsb_exists. exists (h, s'). split; [by apply list_elem_of_In, elem_of_map_to_list|].
    by rewrite (proj2 (String.eqb_eq _ _) Hid), Es'. }
  eapply (update_storage_passes _ _ _ _ _ (tk_StorageID t) o) in Eu; [rewrite <- Heq at 2; exact Eu|done|exact Es| |].
  - unfold same_mapping in Em. split_bools. cbn. by rewrite (proj2 (String.eqb_eq _ _)), H2 by done.
  - intros h s' Hl Hsel. cbn in Hsel. split_bools. rewrite <- Hsid. split; [done|].
    assert (same_mapping before s' = true) as Hm by (by eapply Hall). unfold same_mapping, same_geometry in *. split_bools.
    apply not_true_is_false. intros Hs. split_bools. apply Hne. unfold mapping_layout. cbn in *. destruct next; cbn in *.
    f_equal; try lia; congruence.
Qed.

Lemma fenced_storage d m id hash sid : checkStorageFence d m id = Ok tt -> m_StorageID m = sid -> m_Hash m = hash ->
  storage_of_hash d hash sid = true.
Proof.
  intros (s & Hs & Hid & _)%checkStorageFence_inv <- <-. unfold storage_of_hash. rewrite Hs. by apply String.eqb_eq.
Qed.

Lemma TransitionStorageOperation_passes t d m v from : head_reached t d ->
  m_StorageID m = tk_StorageID t -> m_Hash m = v_Hash v -> rc_record_id (v_row v) = tk_RecordID t ->
  quiet_stage (rc_stage (v_row v)) = false -> fst (TransitionStorageOperation d m v from) = Ok tt ->
  head_passed t (snd (TransitionStorageOperation d m v from)).
Proof using fold catalog_json.
  intros Hr Hsid Hh Hrec Hq Hok.
  apply (passes_exact t d); [apply (apply_advance fold catalog_json (OpTransitionStorageOperation m v from))|done|].
  intros o Ho Heq. unfold TransitionStorageOperation in *. apply atomically_accepted in Hok.
  set (d' := snd _) in *. clearbody d'. cbn beta in Hok.
  destruct (checkStorageFence d m _) as [[]|] eqn:Ef; [|done].
  destruct (update_recovery _ _ _ d) as [[n d1]|] eqn:E; [|done]. case_match eqn:En; [done|]. simplify_eq. split_bools.
  eapply (update_recovery_passes _ _ _ _ _ _ (tk_StorageID t) o) in E; [rewrite <- Heq at 2; exact E|lia|done| |].
  - intros old _ Hs. split; [done|]. unfold at_stage in Hs. split_bools. cbn. rewrite <- Heq in Hrec. cbn in Hrec. congruence.
  - by eapply fenced_storage.
Qed.

Lemma update_recovery_row hash sel set d n d' old :
  update_recovery hash sel set d = Ok (n, d') -> storage_recovery d !! hash = Some old -> sel old = true ->
  storage_recovery d' !! hash = Some (set old).
Proof.
  unfold update_recovery. intros H Hl Hsel. rewrite Hl, Hsel in H.
  destruct (resume_journal hash (set old) d) as [d1|]; [|done]. simplify_eq. apply lookup_insert_eq.
Qed.

(** The committed row replaces the published one. *)
Lemma CommitStorageOperation_mutates sid d before v next paused :
  m_StorageID before = sid -> m_Hash before = v_Hash v ->
  fst (CommitStorageOperation fold d before v next paused) = Ok tt ->
  mutates sid (rc_record_id (v_row v)) d (snd (CommitStorageOperation fold d before v next paused)).
Proof.
  intros Hsid Hh Hok. unfold CommitStorageOperation in *. apply atomically_accepted in Hok.
  set (d' := snd _) in *. clearbody d'. unfold CommitStorageOperation_tx in Hok.
  destruct (checkStorageFence d before _) as [[]|] eqn:Ef; [|done].
  destruct (storage_recovery d !! v_Hash v) as [old|] eqn:Eold; [|done].
  case_match eqn:Em; [done|]. case_match eqn:Es; [done|]. split_bools.
  destruct (setStorageLayoutTx fold before _ next d) as [d1|] eqn:El; [|done].
  apply setStorageLayoutTx_frame in El. pose proof (El Recoveries eq_refl) as Er. cbn in Er.
  destruct (update_recovery _ _ _ _) as [[n d2]|] eqn:Eu; [|done].
  eapply (update_recovery_row _ _ _ _ _ _ old) in Eu; cycle 1.
  { transitivity (storage_recovery d1 !! v_Hash v); [by destruct paused|by rewrite Er]. }
  { cbn. apply andb_true_iff. split; [by apply String.eqb_eq|lia]. }
  simplify_eq. eapply mutates_journal; [by eapply fenced_storage| |exact Eu| |done]; [done|].
  rewrite Eold. intros E%(inj Some). apply (f_equal rc_stage) in E. cbn in E. congruence.
Qed.

Lemma SaveRecovery_passes t d v : head_reached t d -> storage_of_hash d (v_Hash v) (tk_StorageID t) = true ->
  rc_record_id (v_row v) = tk_RecordID t -> quiet_stage (rc_stage (v_row v)) = false ->
  fst (SaveRecovery d v) = Ok tt -> head_passed t (snd (SaveRecovery d v)).
Proof using fold catalog_json.
  intros Hr Hs Hrec Hq Hok. apply (passes_exact t d); [apply (apply_advance fold catalog_json (OpSaveRecovery v))|done|].
  intros o Ho Heq. unfold SaveRecovery in *. apply affecting_one_accepted in Hok. set (d' := snd _) in *. clearbody d'.
  destruct (record_of_hash d _ _); [|done].
  eapply (upsert_recovery_passes _ _ _ _ _ _ (tk_StorageID t) o) in Hok; [rewrite <- Heq at 2; exact Hok|done..| |done].
  rewrite <- Heq in Hrec. done.
Qed.

Lemma AdvanceDeletion_passes t d hash id stage removed : head_reached t d ->
  storage_of_hash d hash (tk_StorageID t) = true -> id = tk_RecordID t -> quiet_stage stage = false ->
  fst (AdvanceDeletion d hash id stage removed) = Ok tt -> head_passed t (snd (AdvanceDeletion d hash id stage removed)).
Proof using fold catalog_json.
  intros Hr Hs Hid Hq Hok.
  apply (passes_exact t d); [apply (apply_advance fold catalog_json (OpAdvanceDeletion hash id stage removed))|done|].
  intros o Ho Heq. unfold AdvanceDeletion in *. apply affecting_one_accepted in Hok. set (d' := snd _) in *. clearbody d'.
  eapply (update_recovery_passes _ _ _ _ _ _ (tk_StorageID t) o) in Hok; [rewrite <- Heq at 2; exact Hok|done..| |done].
  intros old _ Hsel. split_bools. split; [done|]. rewrite <- Heq in Hid. cbn in *. congruence.
Qed.

Lemma mutates_passes t d op : head_reached t d ->
  mutates (tk_StorageID t) (tk_RecordID t) d (apply fold catalog_json d op) -> head_passed t (apply fold catalog_json d op).
Proof.
  intros Hr Hm. apply (passes_exact t d); [apply apply_advance|done|]. intros o Ho Heq.
  rewrite <- Heq at 2. eapply mutates_beyond; [exact Ho| |exact Hm]. by rewrite <- Heq.
Qed.

Lemma barrier_passes t d op : head_reached t d -> barrier d t op -> head_passed t (apply fold catalog_json d op).
Proof.
  intros Hr Hb. destruct Hb as [m record Hsid Hok|m token next Hsid Hok|m token mask next Hsid Hok Hne|hash paths Hrec Hnd Hok
    |hash Hrec Hnd Hok|hash Hrec Ht Hok|m v previous claimed Hsid Hh Hrec Hq Hok|before record next Hsid Hne Hok
    |m v from Hsid Hh Hrec Hq Hok|before v next paused Hsid Hh Hrec Hok|v Hs Hrec Hq Hok|hash id stage removed Hs Hid Hq Hok
    |op Hm]; [cbn [apply]..|by apply mutates_passes].
  - destruct (InvalidateResumeMutation d m record) as [r d'] eqn:E; cbn in *; subst r.
    destruct Hr as (o & Ho & Hle). apply InvalidateResumeMutation_inv in E as [[Hn ->]|(o' & Ho' & ->)]; [congruence|].
    rewrite Hsid in *. simplify_eq. eexists. cbn. rewrite lookup_alter_eq, Ho. split; [done|]. cbn.
    destruct Hle as [<-|]; cbn; lia.
  - destruct (InvalidateResume d m token) as [r d'] eqn:E; cbn in *; subst r.
    destruct Hr as (o & Ho & Hle). apply InvalidateResume_inv in E as (o' & Ho' & -> & -> & ->).
    rewrite Hsid in *. simplify_eq. eexists. cbn. rewrite lookup_alter_eq, Ho. split; [done|]. cbn.
    destruct Hle as [<-|]; cbn; lia.
  - destruct (RevokeResume fold d m token mask) as [r d'] eqn:E; cbn in *; subst r.
    destruct Hr as (o & Ho & Hle). apply RevokeResume_inv in E. revert Hne.
    destruct E as [| |o' row c revoked Ho' _ ->]; [done..|]. intros _. rewrite Hsid in *. simplify_eq. eexists. cbn. rewrite lookup_alter_eq, Ho. split; [done|]. cbn.
    destruct Hle as [<-|]; cbn; lia.
  - apply deletion_passes; try done. apply (apply_advance fold catalog_json (OpBeginCleanup hash paths)).
  - apply deletion_passes; try done. apply (apply_advance fold catalog_json (OpBeginForget hash)).
  - by apply DeleteTorrent_passes.
  - by apply CreateStorageOperation_passes.
  - by apply SetStorageLayout_passes.
  - by apply TransitionStorageOperation_passes.
  - apply (mutates_passes t d (OpCommitStorageOperation before v next paused)); [done|]. rewrite <- Hrec.
    by apply CommitStorageOperation_mutates.
  - by apply SaveRecovery_passes.
  - by apply AdvanceDeletion_passes.
Qed.
End Barriers.
