(* ===== verification/ResumeProperties.v ===== *)
(** * Properties of the durable checkpoints *)

From stdpp Require Import base gmap list strings.
From Stdlib Require Import ZArith Strings.Byte Lia.
From coqutil Require Import Byte.
From S2P Require Import Prelude Models Paths Layout FastResume Codec Sha256 Tables IntentStore StorageStore ResumeStore.
From S2P Require Import Library LibraryFrame ResumeFences ResumeSafety ResumeInvariant ResumeMutations ResumeBarriers.

#[local] Open Scope Z_scope.

(** ** From the backend and back *)

Definition native_file_typed (f : CheckpointFile) : Prop :=
  in_i64 (cf_Offset f) /\ in_i64 (cf_Length f) /\ in_i64 (Size (cf_Evidence f)) /\ in_i64 (ModifiedNS (cf_Evidence f)).

(** The integers of a captured state hold [int64] values. *)
Definition capture_typed (id : Identity) (nowMS : Z) (native : FileCheckpoint) : Prop :=
  identity_typed id /\ in_i64 nowMS /\ Forall native_file_typed (nc_Files native).

(** A small library: one torrent of ten bytes in pieces of four, laid out as in
    the sample checkpoint, with its mapping. *)
Definition no_json (_ : TorrentCatalog) : list byte := [].
Definition plain_fold (s : string) : string := s.

Definition demo_hash : string := "aa".
Definition demo_mapping : StorageMapping :=
  mkStorageMapping demo_hash (mkStorageRow 2 "payload/Show" "ready" "" "" "storage" 1 "Show" "").
Definition demo_record : NewTorrentRecord :=
  mkNewTorrentRecord demo_hash "Show" "" RunEnabled false no_metadata None.
Definition demo_db : db :=
  run plain_fold no_json [OpCreateTorrent demo_record "record"; OpEnsureStorageMapping demo_mapping "unused"] empty_db.

(** What its backend has verified, and the answer of its metainfo. *)
Definition demo_native : FileCheckpoint :=
  mkFileCheckpoint demo_hash "payload/Show" 4 3 10
    [mkCheckpointFile "Show/a.mkv" 0 6 (mkEvidence true "inode-1" 6 100);
     mkCheckpointFile "Show/b.mkv" 6 4 (mkEvidence true "inode-2" 4 100)] [x07].
Definition demo_attachment : Attachment := mkAttachment demo_hash (Ok (sample_identity, [sample_a; sample_b])).

Definition demo_seal (during : db -> db) (d : db) : result RepoError unit * db :=
  SealResume plain_fold d demo_mapping sample_identity demo_attachment (Ok tt, Ok tt) 1000 (Ok demo_native) during.

(** The head its first capture gives. *)
Definition demo_token : ResumeToken := mkResumeToken "storage" "record" 1 1 0.

(** After one seal. *)
Definition demo_sealed : db := snd (demo_seal id demo_db).

(** After the revocation of the last piece. *)
Definition demo_revoked : db := snd (RevokeResumeMutation plain_fold demo_sealed demo_mapping "record" [x04]).

Lemma revoke_zero pieces : exists hit, revoke pieces (replicate (length pieces) x00) = Some (hit, pieces).
Proof.
  induction pieces as [|b pieces [hit IH]]; cbn; [by eexists|]. rewrite IH. eexists. repeat f_equal.
  unfold and_not. change (byte.unsigned x00) with 0. rewrite Z.ldiff_0_r. apply byte.of_Z_unsigned.
Qed.

Lemma bind_evidence_inv native : forall listed bound, bind_evidence native listed = Ok bound ->
  storage_files bound listed = Ok native /\ length bound = length listed /\
  (Forall native_file_typed native -> Forall file_typed bound).
Proof.
  induction native as [|n native IH]; intros [|f listed] bound H; simplify_eq/=; [by split_and!|].
  case_match eqn:E; [done|]. destruct (bind_evidence native listed) as [rest|] eqn:Er; [|done]. simplify_eq.
  destruct (IH _ _ Er) as (Hf & Hl & Ht). split_bools. assert (cf_Offset n = Offset f /\ cf_Length n = Length f) as [Eo El] by lia.
  cbn. rewrite !String.eqb_refl, !Z.eqb_refl. cbn. rewrite Hf. split_and!.
  - destruct n; cbn in *. by subst.
  - by f_equal.
  - intros [Hn Hrest]%Forall_cons. constructor; [|by apply Ht]. unfold native_file_typed in Hn. rewrite Eo, El in Hn. done.
Qed.

Section Roundtrip.
Context (fold : string -> string).

Lemma FromStorage_inv a generation nowMS native c id listed :
  FromStorage fold a generation nowMS native = Ok c -> at_catalog a = Ok (id, listed) ->
  c_Identity c = id /\ Generation c = generation /\
  (in_i64 generation -> capture_typed id nowMS native -> checkpoint_typed c) /\
  StorageClaims fold a c (replicate (length (Pieces c)) x00) = Ok native.
Proof.
  unfold FromStorage. intros H Ha. rewrite Ha in H. case_match eqn:E; [done|].
  destruct (bind_evidence _ _) as [bound|] eqn:Eb; [|done].
  destruct (Checkpoint_Validate fold _) as [[]|] eqn:Ev in H; [|done]. simplify_eq.
  apply bind_evidence_inv in Eb as (Hf & Hl & Ht). split_bools. cbn. do 2 (split; [done|]). split.
  - intros ? (? & ? & ?). split_and!; try done. by apply Ht.
  - unfold StorageClaims. rewrite Ev, Ha. cbn [c_Identity Files Pieces]. rewrite bool_decide_eq_true_2 by done.
    rewrite Hl, Nat.eqb_refl. cbn [negb orb].
    apply Checkpoint_Validate_inv in Ev as (_ & _ & _ & _ & _ & Hv & _). cbn in Hv.
    unfold ValidateBitmap. rewrite (zero_bitmap _ _ Hv). cbn [negb].
    destruct (revoke_zero (nc_Complete native)) as [hit ->]. rewrite Hf. f_equal. destruct native; cbn in *.
    repeat match goal with E : (_ =? _) = true |- _ => apply Z.eqb_eq in E end. congruence.
Qed.

Lemma CommitResume_fence d m token c next d' record : CommitResume fold d m token c = (Ok next, d') ->
  checkResumeFence d' m record = checkResumeFence d m record /\ checkResumeDurability d' = checkResumeDurability d.
Proof. intros (?&?&_&_&_&_&_&_&_&_&_&_&_&_&_&->)%CommitResume_inv. done. Qed.

(** What a publication restores. *)
Lemma seal_publish_restores d m base a token nowMS native d' id listed :
  seal_publish fold d m a token (Ok tt) nowMS native = (Ok tt, d') -> at_catalog a = Ok (id, listed) ->
  validate_source base m = Ok tt -> RecordID base = tk_RecordID token ->
  in_i64 (tk_Generation token) -> capture_typed id nowMS native ->
  exists token', restore_claims fold d' m base a = Ok (token', native).
Proof.
  unfold seal_publish. intros H Ha Hval Hrec Hgen Hty.
  destruct (FromStorage fold a _ nowMS native) as [c|] eqn:Ef; [|done].
  destruct (FromStorage_inv _ _ _ _ _ _ _ Ef Ha) as (Hid & Hg & Htyped & Hclaims).
  destruct (CommitResume fold d m token c) as [[next|] d1] eqn:E; [|done]. simplify_eq.
  assert (checkpoint_typed c) as Hct.
  { apply Htyped; [|done]. rewrite <- Hg. pose proof E as E2.
    unfold CommitResume in E2. case_match eqn:Eg; [done|]. split_bools. unfold in_i64, max_i64 in *. lia. }
  pose proof (CommitResume_head _ _ _ _ _ _ _ Hct E) as (o & blob & Ho & Ht & Hi & Hh & Hrow & Hb).
  pose proof (CommitResume_fence _ _ _ _ _ _ (tk_RecordID token) E) as [Hf Hd].
  apply CommitResume_inv in E as (blob' & o1 & _ & _ & Hr & _ & Hm & -> & Hdur & Hfence & _ & Htok & _ & Hmr & _ & _).
  rewrite Hdur in Hd. rewrite Hfence in Hf.
  assert (ow_record_id o = tk_RecordID token /\ ow_mapping_revision o = m_Revision m) as [Hor Hom].
  { pose proof (f_equal tk_RecordID Ht). pose proof (f_equal tk_MappingRevision Ht). cbn in *. split; congruence. }
  pose proof (head_ok_load _ _ _ _ _ Hh Hd Hf Ho Hor Hom) as Hload. rewrite Hi in Hload.
  destruct Hload as (row & c' & Hrow' & Hb' & Hload).
  assert (row = published_row token c blob) as -> by congruence.
  assert (c' = c) as -> by (pose proof (bk_decodes _ _ _ _ _ Hb); pose proof (bk_decodes _ _ _ _ _ Hb'); congruence).
  eexists. unfold restore_claims. rewrite Hval, Hrec, Hload. cbn [published_row cp_revoked]. by rewrite Hclaims.
Qed.
End Roundtrip.

(** ** Theorems *)

Lemma CaptureResume_reached d m record t d1 : CaptureResume d m record = (Ok t, d1) -> head_reached t d1.
Proof.
  intros (_ & _ & Hs & _ & _ & o & Ho & -> & _)%CaptureResume_inv%CaptureResume_tx_inv. exists o. cbn. auto.
Qed.

(** C11: a seal never publishes what a mutation overtook.  After the head was
    captured, let an operation begin to change the payload of the storage, its
    place or its record: an accepted revocation, invalidation, deletion, layout
    change, or journal write of an active stage, or any operation of the
    repository whose effect is such a change (a mapping of the storage that is
    removed, moved or put to work, an active journal of the record that is written,
    the record removed or its deletion begun).  Then the seal that holds the
    captured head fails, in every interleaving with other operations, and adds
    nothing to what its capture and those operations did. *)
Theorem barrier_stops_seal (fold : string -> string) (catalog_json : TorrentCatalog -> list byte)
    (d : db) (m : StorageMapping) (base : Identity) (a : Attachment)
    (authorized : result RepoError unit * result RepoError unit) (nowMS : Z)
    (captured : result RepoError FileCheckpoint) (before after : list operation) (op : operation)
    (t : ResumeToken) (d1 : db) :
  CaptureResume d m (RecordID base) = (Ok t, d1) ->
  barrier fold catalog_json (run fold catalog_json before d1) t op ->
  let during := run fold catalog_json (before ++ op :: after)%list in
  let seal := SealResume fold d m base a authorized nowMS captured during in
  is_ok (fst seal) = false /\ snd seal ∈ [d; d1; during d1].
Proof.
  intros Hc Hb during. unfold SealResume.
  destruct (validate_source base m); [|split; [done|set_solver]]. destruct (fst authorized); [|split; [done|set_solver]].
  rewrite Hc. assert (head_passed t (during d1)) as Hp.
  { unfold during. rewrite run_app. cbn [run]. eapply passed_advance; [apply run_advance|]. apply barrier_passes; [|done].
    eapply reached_advance; [apply run_advance|]. by eapply CaptureResume_reached. }
  case_match; [split; [done|set_solver]|]. case_match; [|split; [done|set_solver]]. unfold seal_publish.
  case_match; [|split; [done|set_solver]]. case_match; [|split; [done|set_solver]].
  edestruct CommitResume_passed as [e E]; [exact Hp|]. rewrite E. split; [done|set_solver].
Qed.

(** The mapping of the sample at another place. *)
Definition demo_moved : StorageMapping :=
  mkStorageMapping demo_hash (mkStorageRow 2 "payload/Other" "ready" "" "" "storage" 1 "Other" "").

Lemma barrier_stops_seal_witness :
  let during := run plain_fold no_json
    ([OpSaveDownloadBlock "bb" "Disk full"] ++ [OpSaveStorageMapping demo_moved "unused"])%list in
  is_ok (fst (demo_seal id demo_db)) = true /\ is_ok (fst (demo_seal during demo_db)) = false.
Proof.
  split; [by vm_compute|].
  refine (proj1 (barrier_stops_seal plain_fold no_json demo_db demo_mapping sample_identity demo_attachment (Ok tt, Ok tt)
    1000 (Ok demo_native) [OpSaveDownloadBlock "bb" "Disk full"] []
    (OpSaveStorageMapping demo_moved "unused")
    demo_token (snd (CaptureResume demo_db demo_mapping "record")) _ _)).
  - by vm_compute.
  - apply barrier_effect. apply (mutates_mapping _ _ _ _ demo_hash (m_row demo_mapping)); [by vm_compute|done|].
    intros s' Hs'. vm_compute in Hs'. injection Hs' as <-. by vm_compute.
Defined.

(** *** Revocation *)

Lemma LoadResume_no_claims fold d m record s p : LoadResume fold d m record = Ok s ->
  match s with Some s => rs_Invalidated s = true | None => True end -> ~ claims fold d (m_StorageID m) p.
Proof.
  unfold LoadResume. destruct (checkResumeDurability d); [|done]. destruct (checkResumeFence d m record); [|done].
  destruct (readResumeHead d (m_StorageID m)) as [[s0|]|] eqn:Eh; [| |done].
  - apply readResumeHead_Some in Eh as (o & Ho & _ & Hi). case_match; [done|].
    destruct (rs_Invalidated s0) eqn:Es; intros.
    + intros (o' & _ & _ & Ho' & Hi' & _). simplify_eq. congruence.
    + destruct (readResumePayload d (rs_Token s0)) as [[blob rv]|]; [|done].
      destruct (decodeResume fold s0 blob rv) as [s1|] eqn:Ed; [|done]. simplify_eq.
      apply decodeResume_inv in Ed as (c & _ & -> & _). cbn in *. congruence.
  - intros _ _ (o' & _ & _ & Ho' & _). unfold readResumeHead in Eh. rewrite Ho' in Eh. by branches.
Qed.

Lemma RevokeResumeMutation_clears fold d m record mask answer d1 p : 0 <= p ->
  RevokeResumeMutation fold d m record mask = (Ok answer, d1) -> bit mask p = true ->
  ~ claims fold d1 (m_StorageID m) p.
Proof.
  unfold RevokeResumeMutation. intros Hp H Hm. destruct (LoadResume fold d m record) as [saved|] eqn:El; [|done].
  pose proof (LoadResume_no_claims _ _ _ _ _ p El) as Hno. destruct saved as [s|]; [|by simplify_eq; apply Hno].
  destruct (rs_Invalidated s) eqn:Ei; [by simplify_eq; apply Hno|]. destruct (rs_Checkpoint s); [|done].
  destruct (lift _); [|done]. destruct (RevokeResume fold d m (rs_Token s) mask) as [[next|] d2] eqn:Er; [|done].
  simplify_eq. apply RevokeResume_inv in Er. by apply (revocation_claims _ _ _ _ _ _ _ p Hp Er).
Qed.

(** C16: a revoked piece is trusted again only by a new seal.  After a successful
    revocation, no run of the library makes a load grant the piece unless the run
    contains an accepted publication that claims it, made under a token that was
    the current head at that moment and no older than the head the revocation
    left. *)
Theorem revoked_piece_needs_new_seal (fold : string -> string) (catalog_json : TorrentCatalog -> list byte)
    (d : db) (m m' : StorageMapping) (record record' : string) (mask : list byte) (answer : bool) (d1 : db)
    (ops : list operation) (p : Z) :
  0 <= p -> bit mask p = true -> m_StorageID m' = m_StorageID m -> Forall op_typed ops ->
  RevokeResumeMutation fold d m record mask = (Ok answer, d1) ->
  granted fold (run fold catalog_json ops d1) m' record' p ->
  exists before m2 token c after, ops = (before ++ OpCommitResume m2 token c :: after)%list /\
    m_StorageID m2 = m_StorageID m /\ bit (Pieces c) p = true /\
    is_ok (fst (CommitResume fold (run fold catalog_json before d1) m2 token c)) = true /\
    forall o, resume_owners d1 !! m_StorageID m = Some o -> ow_mutation_epoch o <= tk_Epoch token.
Proof.
  intros Hp Hm Hs Hty Hr Hg. apply granted_claims in Hg. rewrite Hs in Hg.
  destruct (run_claims fold catalog_json ops (m_StorageID m) p Hp d1 Hty Hg) as [Hc|(before & op & after & -> & Hpub)].
  - by apply RevokeResumeMutation_clears with (p := p) in Hr.
  - destruct Hpub as (m2 & token & c & next & -> & Hs2 & Hok & Hb & (o2 & Ho2 & Hle) & Hnp).
    exists before, m2, token, c, after. split_and!; try done; [by rewrite Hok|].
    intros o Ho. destruct (run_advance fold catalog_json before d1 _ _ Ho) as (o' & Ho' & Hadv).
    assert (tk_StorageID token = m_StorageID m) as Htk.
    { destruct (CommitResume fold _ m2 token c) as [r d2] eqn:E; cbn in Hok; subst r.
      by apply CommitResume_inv in E as (_ & ? & _ & _ & _ & _ & _ & _ & _ & _ & _ & -> & _). }
    rewrite Htk in *. simplify_eq. destruct Hle as [<-|Hlt]; [cbn|exfalso; apply Hnp; exists o2; by rewrite Htk].
    destruct Hadv as [[-> _]|]; lia.
Qed.

Lemma revoked_piece_needs_new_seal_witness :
  granted plain_fold demo_sealed demo_mapping "record" 2 /\
  exists before m2 token c after,
    [OpCaptureResume demo_mapping "record"; OpCommitResume demo_mapping (mkResumeToken "storage" "record" 1 3 1)
       (mkCheckpoint 1 sample_identity 2 2000 [sample_a; sample_b] [x07])]
      = (before ++ OpCommitResume m2 token c :: after)%list /\
    m_StorageID m2 = "storage"%string /\ bit (Pieces c) 2 = true /\
    is_ok (fst (CommitResume plain_fold (run plain_fold no_json before demo_revoked) m2 token c)) = true /\
    forall o, resume_owners demo_revoked !! "storage"%string = Some o -> ow_mutation_epoch o <= tk_Epoch token.
Proof.
  split.
  - exists (mkResumeToken "storage" "record" 1 2 1), (mkCheckpoint 1 sample_identity 1 1000 [sample_a; sample_b] [x07]), [x00].
    split_and!; by vm_compute.
  - apply (revoked_piece_needs_new_seal plain_fold no_json demo_sealed demo_mapping demo_mapping "record" "record" [x04] false
      demo_revoked _ 2).
    + done.
    + by vm_compute.
    + done.
    + repeat constructor; vm_compute; done.
    + by vm_compute.
    + exists (mkResumeToken "storage" "record" 1 4 2), (mkCheckpoint 1 sample_identity 2 2000 [sample_a; sample_b] [x07]), [x00].
      split_and!; by vm_compute.
Defined.

(** *** Round trip *)

(** No operation changes the settings of the database. *)
Lemma run_durability fold catalog_json ops d :
  checkResumeDurability (run fold catalog_json ops d) = checkResumeDurability d.
Proof.
  assert (untouched Pragmas d (run fold catalog_json ops d)) as [Hj Hs]; [|unfold checkResumeDurability; by rewrite Hj, Hs].
  revert d. induction ops as [|op ops IH]; intros d; cbn [run]; [done|]. eapply untouched_trans; [|apply IH].
  apply (apply_frame fold catalog_json op d). by destruct op.
Qed.

(** A load depends on the fences and on the two rows of the storage. *)
Lemma restore_later fold d d' m base a answer :
  restore_claims fold d m base a = Ok answer ->
  resume_owners d' !! m_StorageID m = resume_owners d !! m_StorageID m ->
  (forall o, resume_owners d !! m_StorageID m = Some o ->
     resume_checkpoints d' !! m_StorageID m = resume_checkpoints d !! m_StorageID m) ->
  checkResumeDurability d' = checkResumeDurability d -> CheckResumeAdmission d' m (RecordID base) = Ok tt ->
  restore_claims fold d' m base a = Ok answer.
Proof.
  unfold restore_claims, CheckResumeAdmission. intros H Ho Hc Hd Hf. destruct (validate_source base m); [|done].
  assert (LoadResume fold d' m (RecordID base) = LoadResume fold d m (RecordID base)) as ->; [|done].
  unfold LoadResume in *. rewrite Hd, Hf. destruct (checkResumeDurability d); [|done].
  destruct (checkResumeFence d m (RecordID base)); [|done]. unfold readResumeHead in *. rewrite Ho.
  destruct (resume_owners d !! m_StorageID m) as [o|]; [|done]. specialize (Hc o eq_refl).
  clear H. unfold readResumePayload. destruct (_ || _); [done|]. destruct (_ || _ || _); [done|]. cbn [rs_Token head_token tk_StorageID]. by rewrite Hc.
Qed.

(** C27: what is sealed comes back.  Let a seal succeed, whatever else happened
    while the backend was quiesced, and let any further operations run.  As long
    as the row of the owner is the one the seal left and the mapping is still
    admitted for the record, the restore of the same attachment is given exactly
    the captured state: the same files with their evidence and the same verified
    pieces. *)
Theorem sealed_state_comes_back (fold : string -> string) (catalog_json : TorrentCatalog -> list byte) (d : db)
    (m : StorageMapping) (base id : Identity) (a : Attachment) (listed : list File) (nowMS : Z)
    (native : FileCheckpoint) (during : db -> db) (sealed : db) (ops : list operation) :
  at_catalog a = Ok (id, listed) -> capture_typed id nowMS native ->
  (forall t d1, CaptureResume d m (RecordID base) = (Ok t, d1) -> in_i64 (tk_Generation t)) ->
  SealResume fold d m base a (Ok tt, Ok tt) nowMS (Ok native) during = (Ok tt, sealed) ->
  let later := run fold catalog_json ops sealed in
  resume_owners later !! m_StorageID m = resume_owners sealed !! m_StorageID m ->
  CheckResumeAdmission later m (RecordID base) = Ok tt ->
  exists token, restore_claims fold later m base a = Ok (token, native).
Proof.
  intros Ha Hty Hgen H later Hsame Hadm. assert (exists token, restore_claims fold sealed m base a = Ok (token, native)) as [token Hr].
  { unfold SealResume in H. destruct (validate_source base m) as [[]|] eqn:Ev; [|done]. cbn in H.
    destruct (CaptureResume d m (RecordID base)) as [[t|] d1] eqn:Ec; [|done].
    case_match; [done|]. eapply seal_publish_restores; [done..| |by eapply Hgen|done].
    by apply CaptureResume_inv, CaptureResume_tx_inv in Ec as (_ & _ & _ & -> & _). }
  exists token. eapply restore_later; [exact Hr|done| |apply run_durability|done]. intros o Ho.
  destruct (run_advance fold catalog_json ops sealed _ _ Ho) as (o' & Ho' & [[_ Hc]|Hlt]); [done|].
  fold later in Ho'. rewrite Hsame, Ho in Ho'. simplify_eq. lia.
Qed.

(** The sample is sealed and another torrent is added. *)
Definition demo_later : list operation :=
  [OpSaveDownloadBlock "bb" "Disk full"; OpCreateTorrent (mkNewTorrentRecord "bb" "Other" "" RunEnabled false no_metadata None) "second"].

Lemma sealed_state_comes_back_witness :
  exists token, restore_claims plain_fold (run plain_fold no_json demo_later demo_sealed) demo_mapping sample_identity
    demo_attachment = Ok (token, demo_native).
Proof.
  apply (sealed_state_comes_back plain_fold no_json demo_db demo_mapping sample_identity sample_identity demo_attachment
    [sample_a; sample_b] 1000 demo_native id demo_sealed demo_later).
  - done.
  - repeat constructor; vm_compute; done.
  - intros t d1 H. assert (fst (CaptureResume demo_db demo_mapping "record") = Ok demo_token) as E by (by vm_compute).
    change (RecordID sample_identity) with "record"%string in H. rewrite H in E. injection E as ->. by vm_compute.
  - by vm_compute.
  - by vm_compute.
  - by vm_compute.
Defined.

(** *** Live heads *)




(** *** Restore *)

Lemma LoadResume_live fold d m record token c revoked :
  LoadResume fold d m record = Ok (Some (mkResumeSnapshot token false (Some c) revoked)) ->
  exists o row, resume_owners d !! m_StorageID m = Some o /\ token = head_token (m_StorageID m) o /\
    ow_invalidated o = false /\ resume_checkpoints d !! m_StorageID m = Some row /\
    Decode fold (cp_payload row) = Ok c /\ cp_revoked row = revoked.
Proof.
  unfold LoadResume. destruct (checkResumeDurability d); [|done]. destruct (checkResumeFence d m record); [|done].
  destruct (readResumeHead d (m_StorageID m)) as [[s0|]|] eqn:Eh; [|done..].
  apply readResumeHead_Some in Eh as (o & Ho & Ht & Hi). case_match; [done|].
  destruct (rs_Invalidated s0) eqn:Es; [by intros; simplify_eq|].
  destruct (readResumePayload d (rs_Token s0)) as [[blob rv]|] eqn:Ep; [|done].
  destruct (decodeResume fold s0 blob rv) as [s1|] eqn:Ed; [|done]. intros; simplify_eq.
  apply decodeResume_inv in Ed as (c' & Hd & Heq & _). apply readResumePayload_inv in Ep as (row & Hrow & <- & <- & _).
  rewrite Ht in Hrow. cbn in Hrow. injection Heq as -> _ -> ->. exists o, row. by rewrite Hi, Ht.
Qed.

Lemma LoadResume_checkpoint fold d m record token revoked :
  LoadResume fold d m record <> Ok (Some (mkResumeSnapshot token false None revoked)).
Proof.
  unfold LoadResume. destruct (checkResumeDurability d); [|done]. destruct (checkResumeFence d m record); [|done].
  destruct (readResumeHead d (m_StorageID m)) as [[s0|]|]; [|done..]. case_match; [done|].
  destruct (rs_Invalidated s0) eqn:Es; [by intros [= ->]|].
  destruct (readResumePayload d (rs_Token s0)) as [[blob rv]|]; [|done].
  destruct (decodeResume fold s0 blob rv) as [s1|] eqn:Ed; [|done]. intros [= ->].
  by apply decodeResume_inv in Ed as (c & _ & ? & _).
Qed.

(** the last authorization of a restore is current.  When the backend has
    checked the files and asks again, the answer is yes only if every piece of
    the claims it was given is still granted by the library, although other
    operations ran in between. *)
Theorem restore_authorization_is_current (fold : string -> string) (catalog_json : TorrentCatalog -> list byte)
    (d : db) (m : StorageMapping) (base : Identity) (a : Attachment) (token : ResumeToken) (native : FileCheckpoint)
    (ops : list operation) (p : Z) :
  0 <= p -> restore_claims fold d m base a = Ok (token, native) ->
  authorize_restore fold (run fold catalog_json ops d) m base token = Ok tt ->
  bit (nc_Complete native) p = true -> granted fold (run fold catalog_json ops d) m (RecordID base) p.
Proof.
  intros Hp H Hauth Hbit. unfold restore_claims in H. destruct (validate_source base m); [|done].
  destruct (LoadResume fold d m (RecordID base)) as [[[t [] [c|] revoked]|]|] eqn:El; try done.
  unfold lift in H. destruct (StorageClaims fold a c revoked) as [claims'|] eqn:Ec; [|done]. simplify_eq.
  assert (bit (Pieces c) p = true /\ bit revoked p = false) as [Hb Hr].
  { unfold StorageClaims in Ec. destruct (Checkpoint_Validate fold c) as [[]|] eqn:Ev; [|done].
    destruct (at_catalog a) as [[expected listed]|]; [|done]. case_match eqn:Ex; [done|]. split_bools. subst.
    unfold ValidateBitmap in Ec. destruct (validBitmap revoked _) eqn:Evr; [|done]. cbn in Ec.
    apply Checkpoint_Validate_inv in Ev as (_ & _ & _ & _ & _ & Hv & _).
    destruct (revoke_spec (Pieces c) revoked) as (hit & bits & Erv & _ & Hspec); [by eapply same_bitmap_length|].
    rewrite Erv in Ec. destruct (storage_files _ _); [|done]. simplify_eq. cbn in Hbit. rewrite Hspec in Hbit by done.
    by apply andb_true_iff in Hbit as [? ?%negb_true_iff]. }
  apply LoadResume_live in El as (o & row & Ho & -> & Hi & Hrow & Hd & Hrv).
  unfold authorize_restore in Hauth. destruct (LoadResume fold (run _ _ ops d) m (RecordID base)) as [[[t2 inv c2 rv2]|]|] eqn:El2; try done.
  cbn in Hauth. destruct inv; [done|]. cbn in Hauth. case_match eqn:Et; [done|]. split_bools. subst t2.
  destruct c2 as [c2|].
  - pose proof El2 as El3. apply LoadResume_live in El3 as (o2 & row2 & Ho2 & Htok & _ & Hrow2 & Hd2 & Hrv2).
    destruct (run_advance fold catalog_json ops d _ _ Ho) as (o2' & Ho2' & Hadv).
    rewrite Ho2 in Ho2'. injection Ho2' as <-.
    destruct Hadv as [[-> Hsame]|Hlt]; [|apply (f_equal tk_Epoch) in Htok; cbn in Htok; lia].
    rewrite Hsame, Hrow in Hrow2. injection Hrow2 as ->. assert (c2 = c) as -> by congruence.
    exists (head_token (m_StorageID m) o), c, rv2. split_and!; [exact El2|done|congruence].
  - exfalso. by eapply LoadResume_checkpoint.
Qed.

Lemma restore_authorization_is_current_witness :
  granted plain_fold (run plain_fold no_json [OpSaveDownloadBlock "bb" "Disk full"] demo_sealed) demo_mapping "record" 2.
Proof.
  apply (restore_authorization_is_current plain_fold no_json demo_sealed demo_mapping sample_identity demo_attachment
    (mkResumeToken "storage" "record" 1 2 1) demo_native).
  - done.
  - by vm_compute.
  - by vm_compute.
  - by vm_compute.
Defined.
