(* ===== verification/FileStorage.v ===== *)
(** * File storage of a torrent

    [pkg/anacrolix-torrent/storage]: the file backend of one torrent as the
    program configures it (rooted, verified on open, without part files, with
    resume hooks): what it knows about the verified pieces of this attachment
    ([file-torrent.go], [file-piece.go]), the persisted pieces it must revoke
    before a write ([resume-mutation.go], [file-torrent-io.go]) and the seal and
    restore of checkpoints ([checkpoint.go]).

    The functions of this file are the critical sections under [freshMu] and
    [resume.mu]; what the file system answers is their argument.  A
    [*verifiedFileSignature] is shared between the map of the files and the
    evidence of every piece, so the signatures live in a heap and the maps hold
    their addresses. *)

From stdpp Require Import base gmap list strings.
From Stdlib Require Import ZArith Strings.Byte Lia.
From coqutil Require Import Byte.
From S2P Require Import Prelude Models FastResume Segments Tables StorageStore ResumeStore.

#[local] Open Scope Z_scope.

(** ** Data *)

Inductive storage_error :=
| ErrCheckpointUnsupported
| ErrCheckpointChanged
| ErrCheckpointBudget
| ErrUnsafeFile
| ErrUnverifiedPayload
| ErrClosed
| EOF
| ErrShortWrite
| ErrPanic
| ErrIO.
#[export] Instance storage_error_eq_dec : EqDecision storage_error.
Proof. solve_decision. Defined.

#[export] Instance CheckpointFile_eq_dec : EqDecision CheckpointFile.
Proof. solve_decision. Defined.

(** What [info], [metainfoFileInfos], [segmentLocater] and the options determine.
    [sl_Root] and [sl_Paths] are the answers of [filepath.Rel] for the directory
    of the torrent and for its files, [None] where the path is not local. *)
Record storage_layout := mkStorageLayout {
  sl_InfoHash : string;
  sl_Root : option string;
  sl_Paths : list (option string);
  sl_HasV2 : bool;
  sl_PieceLength : Z;
  sl_NumPieces : Z;
  sl_files : list Extent;
  sl_managed : bool;
  sl_ReadOnly : bool;
}.

(** [os.FileInfo]: what [os.SameFile] compares, the size and the time. *)
Record file_info := mkFileInfo {
  fi_identity : string;
  fi_bytes : Z;
  fi_modified : Z;
}.

#[export] Instance file_info_eq_dec : EqDecision file_info.
Proof. solve_decision. Defined.

Definition SameFile (a b : file_info) : bool := (fi_identity a =? fi_identity b)%string.

(** [sameSignature]; [None] is a nil [FileInfo]. *)
Definition sameSignature (a b : option file_info) : bool :=
  match a, b with
  | Some a, Some b => SameFile a b && (fi_bytes a =? fi_bytes b) && (fi_modified a =? fi_modified b)
  | _, _ => false
  end.

Record verifiedFileSignature := mkSignature {
  sg_info : file_info;
  sg_file : nat;
  sg_valid : bool;
  sg_complete : Z;
  sg_published : bool;
}.
#[export] Instance eta_verifiedFileSignature : Eta verifiedFileSignature :=
  fun s => mkSignature (sg_info s) (sg_file s) (sg_valid s) (sg_complete s) (sg_published s).

Record pieceEvidence := mkPieceEvidence {
  pe_infos : list nat;
  pe_restored : bool;
}.

(** [fileTorrentImpl]: its evidence and its resume state.  [fb_closed] is
    [closed] and [readClosed], which [Close] sets together. *)
Record fileTorrentImpl := mkFileTorrent {
  fb_closed : bool;
  fb_epoch : Z;
  fb_sealed : Z;
  fb_heap : gmap nat verifiedFileSignature;
  fb_next : nat;
  fb_signatures : gmap nat nat;
  fb_fresh : gmap Z pieceEvidence;
  fb_hashing : gmap Z (list nat);
  fb_zero : gset nat;
  fb_hooks : bool;
  fb_pending : list byte;
}.
#[export] Instance eta_fileTorrentImpl : Eta fileTorrentImpl :=
  fun t => mkFileTorrent (fb_closed t) (fb_epoch t) (fb_sealed t) (fb_heap t) (fb_next t) (fb_signatures t)
                         (fb_fresh t) (fb_hashing t) (fb_zero t) (fb_hooks t) (fb_pending t).

(** The backend of an open with the pieces the hooks still hold. *)
Definition opened (hooks : bool) (pending : list byte) : fileTorrentImpl :=
  mkFileTorrent false 0 0 ∅ 0 ∅ ∅ ∅ ∅ hooks (if hooks then pending else []).

Definition bump (t : fileTorrentImpl) : fileTorrentImpl := t <| fb_epoch ::= fun e => u64 (e + 1) |>.

(** ** Evidence of pieces *)

Definition invalid_signature (s : verifiedFileSignature) : verifiedFileSignature :=
  s <| sg_valid := false |> <| sg_complete := 0 |> <| sg_published := false |>.

(** One piece less that refers to a signature. *)
Definition release_signature (s : verifiedFileSignature) : verifiedFileSignature :=
  if sg_valid s then s <| sg_complete ::= fun n => n - 1 |> <| sg_published := false |> else s.

Definition count_signature (s : verifiedFileSignature) : verifiedFileSignature :=
  s <| sg_complete ::= fun n => n + 1 |>.

Definition alter_all (f : verifiedFileSignature -> verifiedFileSignature) (addresses : list nat)
    (heap : gmap nat verifiedFileSignature) : gmap nat verifiedFileSignature :=
  fold_left (fun heap a => alter f a heap) addresses heap.

Definition evidence_of (t : fileTorrentImpl) (piece : Z) : list nat :=
  match fb_fresh t !! piece with Some e => pe_infos e | None => [] end.

Definition forgetPieceLocked (t : fileTorrentImpl) (piece : Z) : fileTorrentImpl :=
  t <| fb_heap ::= alter_all release_signature (evidence_of t piece) |> <| fb_fresh ::= delete piece |>.

(** [forgetPieceLocked(i); delete(hashSnapshot, i)]. *)
Definition forget (t : fileTorrentImpl) (piece : Z) : fileTorrentImpl :=
  (forgetPieceLocked t piece) <| fb_hashing ::= delete piece |>.

Definition valid_at (t : fileTorrentImpl) (a : nat) : bool :=
  match fb_heap t !! a with Some s => sg_valid s | None => true end.

Definition cachedCompletionLocked (t : fileTorrentImpl) (piece : Z) : bool :=
  match fb_fresh t !! piece with
  | None => false
  | Some e => forallb (valid_at t) (pe_infos e)
  end.

Definition cachedCompletion (t : fileTorrentImpl) (piece : Z) : bool :=
  if fb_closed t then false else cachedCompletionLocked t piece.

Definition markFreshLocked (t : fileTorrentImpl) (piece : Z) (signature : list nat) (restored : bool) : fileTorrentImpl :=
  let equal := bool_decide (pe_infos <$> fb_fresh t !! piece = Some signature) && cachedCompletionLocked t piece in
  let t := if equal then t else (forgetPieceLocked t piece) <| fb_heap ::= alter_all count_signature signature |> in
  t <| fb_fresh ::= <[piece := mkPieceEvidence signature restored]> |> <| fb_hashing ::= delete piece |>.

(** [signature.FileInfo] still describes the file. *)
Definition matches (managed : bool) (s : verifiedFileSignature) (st : file_info) : bool :=
  sg_valid s && (if managed then SameFile (sg_info s) st else sameSignature (Some (sg_info s)) (Some st)).

(** A new signature of a file, the old one invalid. *)
Definition replace_signature (t : fileTorrentImpl) (file : nat) (st : file_info) : fileTorrentImpl :=
  let heap := match fb_signatures t !! file with
              | Some a => alter (fun s => s <| sg_valid := false |>) a (fb_heap t)
              | None => fb_heap t
              end in
  t <| fb_heap := <[fb_next t := mkSignature st file true 0 false]> heap |>
    <| fb_signatures ::= <[file := fb_next t]> |> <| fb_next ::= S |>.

Definition signature_at (t : fileTorrentImpl) (file : nat) : option verifiedFileSignature :=
  match fb_signatures t !! file with Some a => fb_heap t !! a | None => None end.

Definition signature_valid (t : fileTorrentImpl) (file : nat) (ok : verifiedFileSignature -> bool) : bool :=
  match signature_at t file with Some s => ok s | None => false end.

Definition invalidate_signature (t : fileTorrentImpl) (file : nat) : fileTorrentImpl :=
  match fb_signatures t !! file with
  | Some a => t <| fb_heap ::= alter invalid_signature a |>
  | None => t
  end.

(** [clear(fresh); clear(hashSnapshot)] and every signature invalid. *)
Definition clear_evidence (t : fileTorrentImpl) : fileTorrentImpl :=
  t <| fb_fresh := ∅ |> <| fb_hashing := ∅ |>
    <| fb_heap ::= alter_all invalid_signature (snd <$> map_to_list (fb_signatures t)) |>.

(** ** Bitmaps *)

Definition set_bit (mask : list byte) (i : Z) : list byte :=
  let k := Z.to_nat (Z.quot i 8) in
  match mask !! k with
  | Some b => <[k := byte_or b (byte.of_Z (Z.shiftl 1 (Z.rem i 8)))]> mask
  | None => mask
  end.

Definition zeros (mask : list byte) : list byte := map (fun _ => x00) mask.

(** [pending[i] |= mask[i]] for every byte of [mask]. *)
Fixpoint or_into (pending mask : list byte) : list byte :=
  match pending, mask with
  | b :: pending, m :: mask => byte_or b m :: or_into pending mask
  | pending, _ => pending
  end.

(** [pending[i] &^= mask[i]] for every byte of [mask]. *)
Fixpoint and_not_into (pending mask : list byte) : list byte :=
  match pending, mask with
  | b :: pending, m :: mask => and_not b m :: and_not_into pending mask
  | pending, _ => pending
  end.

Definition checkpointMaxFiles : Z := 4096.
Definition checkpointMaxPieces : Z := Z.shiftl 4 20.
Definition checkpointMaxPaths : Z := Z.shiftl 1 20.
Definition checkpointWorkingBytes : Z := Z.shiftl 32 20.

Definition validCheckpointBits (mask : list byte) (count : Z) : bool :=
  (0 <=? count) && (count <=? checkpointMaxPieces) && (Z.of_nat (length mask) =? Z.quot (count + 7) 8)
  && ((Z.rem count 8 =? 0) || (Z.shiftr (byte.unsigned (default x00 (last mask))) (Z.rem count 8) =? 0)).

Definition clearCheckpointFile (mask : list byte) (f : CheckpointFile) (pieceLength : Z) : option (list byte) :=
  if cf_Length f =? 0 then Some mask
  else
    let begin := Z.quot (cf_Offset f) pieceLength in
    let fin := Z.quot (i64 (cf_Offset f + cf_Length f - 1)) pieceLength in
    clear_pieces (Z.to_nat (fin - begin + 1)) begin mask.

Definition checkpointFileWanted (mask : list byte) (f : CheckpointFile) (pieceLength : Z) : bool :=
  if cf_Length f =? 0 then Present (cf_Evidence f)
  else
    let begin := Z.quot (cf_Offset f) pieceLength in
    let fin := Z.quot (i64 (cf_Offset f + cf_Length f - 1)) pieceLength in
    existsb (bit mask) (seqZ begin (fin - begin + 1)).

Section Backend.
Context (g : storage_layout).

(** ** Geometry *)

(** The pieces [off/pieceLength .. (off+n-1)/pieceLength+1] of an extent. *)
Definition first_piece (off : Z) : Z := Z.quot off (sl_PieceLength g).
Definition end_piece (off n : Z) : Z := Z.quot (i64 (i64 (off + n) - 1)) (sl_PieceLength g) + 1.
Definition pieces_of (off n : Z) : list Z := seqZ (first_piece off) (end_piece off n - first_piece off).

Definition locate (off n : Z) : list (nat * Extent) := LocateIter (sl_files g) (mkExtent off n).

(** The end of the last of the files that begin no later than a piece. *)
Fixpoint last_file_end (files : list Extent) (piece lastFileEnd : Z) : Z :=
  match files with
  | [] => lastFileEnd
  | f :: files => if first_piece (e_Start f) >? piece then lastFileEnd
                  else last_file_end files piece (i64 (e_Start f + e_Length f))
  end.

(** [metainfo.Piece.Length], which panics unless this is positive and at most
    the piece length. *)
Definition Piece_Length (piece : Z) : Z :=
  if sl_HasV2 g then Z.min (i64 (last_file_end (sl_files g) piece 0 - piece * sl_PieceLength g)) (sl_PieceLength g)
  else if piece <? sl_NumPieces g - 1 then sl_PieceLength g
  else match last (sl_files g) with
       | Some f => i64 (e_Start f + e_Length f - piece * sl_PieceLength g)
       | None => 0
       end.

Definition files_of_piece (piece : Z) : list nat :=
  fst <$> locate (piece * sl_PieceLength g) (Piece_Length piece).

(** [pieceSignature]: [stat] of every file of the piece. *)
Definition pieceSignature (stat : nat -> option file_info) (piece : Z) : option (list file_info) :=
  mapM stat (files_of_piece piece).

(** ** Revocation of persisted pieces *)

(** [revokeResume] up to the hook: the mask to revoke, if any. *)
Definition revoke_mask (t : fileTorrentImpl) (begin fin : Z) : option (list byte) :=
  let range := seqZ begin (fin - begin) in
  if negb (fb_hooks t) || (length (fb_pending t) =? 0)%nat then None
  else if existsb (bit (fb_pending t)) range
  then Some (fold_left (fun mask i => if bit (fb_pending t) i then set_bit mask i else mask) range (zeros (fb_pending t)))
  else None.

(** [revokeResume] after the hook has answered. *)
Definition revoked_locally (t : fileTorrentImpl) (begin fin : Z) (mask : list byte) (discarded : bool) : fileTorrentImpl :=
  let t := t <| fb_pending := if discarded then zeros (fb_pending t) else and_not_into (fb_pending t) mask |> in
  bump (fold_left (fun t i => if bit mask i then forget t i else t) (seqZ begin (fin - begin)) t).

Definition rememberResume (t : fileTorrentImpl) (mask : list byte) (replace : bool) : fileTorrentImpl :=
  if negb (fb_hooks t) then t
  else if replace || (length (fb_pending t) =? 0)%nat then t <| fb_pending := mask |>
  else t <| fb_pending ::= fun pending => or_into pending mask |>.

(** [revokeResumeFile] before it revokes, and the pieces it revokes. *)
Definition revokeResumeFile_fresh (t : fileTorrentImpl) (file : nat) : fileTorrentImpl :=
  invalidate_signature (bump t) file.

Definition file_pieces (file : nat) : option (Z * Z) :=
  match sl_files g !! file with
  | Some f => if e_Length f =? 0 then None
              else Some (first_piece (e_Start f), end_piece (e_Start f) (e_Length f))
  | None => None
  end.

(** [guardResumeFileWrite]: whether the file is revoked, given its [stat]. *)
Definition guardResumeFileWrite (t : fileTorrentImpl) (file : nat) (st : option file_info) : bool :=
  match sl_files g !! file, file_pieces file with
  | Some f, Some (begin, fin) =>
      let wanted := fb_hooks t && negb (length (fb_pending t) =? 0)%nat
                    && existsb (bit (fb_pending t)) (seqZ begin (fin - begin)) in
      let unchanged := match st with
                       | Some st => signature_valid t file (fun s => matches (sl_managed g) s st)
                       | None => false
                       end in
      wanted && negb (match st with Some st => (fi_bytes st >=? e_Length f) && unchanged | None => false end)
  | _, _ => false
  end.

(** ** Pieces *)

(** [internSignatureLocked]: the loop over the files of the piece. *)
Fixpoint intern (t : fileTorrentImpl) (found : list (nat * file_info)) : fileTorrentImpl * list nat :=
  match found with
  | [] => (t, [])
  | (file, st) :: found =>
      let t := if signature_valid t file (fun s => matches (sl_managed g) s st) then t else replace_signature t file st in
      let a := default 0%nat (fb_signatures t !! file) in
      let '(t, rest) := intern t found in
      (t, a :: rest)
  end.

Definition internSignatureLocked (t : fileTorrentImpl) (piece : Z) (current : list file_info) : fileTorrentImpl * list nat :=
  intern t (zip (files_of_piece piece) current).

(** [BeginVerification] after the revocation of its piece. *)
Definition BeginVerification_fresh (t : fileTorrentImpl) (piece : Z) (current : list file_info) : fileTorrentImpl :=
  let '(t, signature) := internSignatureLocked t piece current in
  t <| fb_hashing ::= <[piece := signature]> |>.

(** [commitCompletion] under [freshMu]. *)
Definition commitCompletion_fresh (t : fileTorrentImpl) (piece : Z) (current : list file_info) : fileTorrentImpl :=
  let '(t, signature) := internSignatureLocked t piece current in
  markFreshLocked t piece signature false.

(** [BeginPieceIndex] and [EndPieceIndex] of a file. *)
Definition beginPieceIndex (file : nat) : Z :=
  match sl_files g !! file with
  | Some f => if sl_PieceLength g =? 0 then 0 else Z.quot (e_Start f) (sl_PieceLength g)
  | None => 0
  end.
Definition endPieceIndex (file : nat) : Z :=
  match sl_files g !! file with
  | Some f => if sl_PieceLength g =? 0 then 0
              else Z.quot (i64 (e_Start f + e_Length f + sl_PieceLength g - 1)) (sl_PieceLength g)
  | None => 0
  end.

(** The cheap test of [allFilePiecesComplete], by the counter. *)
Definition all_counted (t : fileTorrentImpl) (file : nat) : bool :=
  signature_valid t file (fun s => sg_valid s && negb (sg_published s)
    && (sg_complete s =? endPieceIndex file - beginPieceIndex file)).

(** The loop of [allFilePiecesComplete] over the pieces of the file. *)
Definition all_cached (t : fileTorrentImpl) (file : nat) : bool :=
  forallb (cachedCompletionLocked t) (seqZ (beginPieceIndex file) (endPieceIndex file - beginPieceIndex file)).

(** The end of [MarkComplete] for a complete file. *)
Definition publish_file (t : fileTorrentImpl) (file : nat) : fileTorrentImpl :=
  match fb_signatures t !! file with
  | Some a => t <| fb_heap ::= alter (fun s => if sg_valid s then s <| sg_published := true |> else s) a |>
  | None => t
  end.

(** [acceptFileWrite], the accounting of a write outside the managed mode. *)
Definition acceptFileWrite (t : fileTorrentImpl) (file : nat) (before after : option file_info) (off n : Z) : fileTorrentImpl :=
  match before, after with
  | Some before, Some after =>
      if n <=? 0 then t
      else
        let t := match fb_signatures t !! file with
                 | Some a => t <| fb_heap ::= alter (fun s =>
                     if negb (sg_valid s) then s
                     else if sameSignature (Some (sg_info s)) (Some before) && SameFile before after
                     then s <| sg_info := after |> else invalid_signature s) a |>
                 | None => t
                 end in
        fold_left forget (pieces_of off n) t
  | _, _ => t
  end.

(** The signature [refreshFile] captured no longer describes the file. *)
Definition refreshFile_stale (t : fileTorrentImpl) (file : nat) (current : option file_info) : bool :=
  negb (sl_managed g) && signature_valid t file (fun s => sg_valid s && negb (sameSignature (Some (sg_info s)) current)).

(** ** Reads and writes *)

(** [ReadAt] up to the files: every piece of the range has been verified. *)
Definition ReadAt_gate (t : fileTorrentImpl) (off n : Z) : result storage_error unit :=
  if fb_closed t then Err ErrClosed
  else if (off <? 0) || (n >? max_i64 - off) then Err EOF
  else if (fb_hooks t || sl_managed g) && negb (n =? 0) then
    if (sl_PieceLength g <=? 0) || (Z.quot (i64 (i64 (off + n) - 1)) (sl_PieceLength g) >=? sl_NumPieces g) then Err EOF
    else if forallb (cachedCompletion t) (pieces_of off n) then Ok tt else Err ErrUnverifiedPayload
  else Ok tt.

(** What [WriteAt] begins with. *)
Definition WriteAt_gate (t : fileTorrentImpl) (off n : Z) : result storage_error unit :=
  if fb_closed t then Err ErrClosed
  else if negb (n =? 0)
          && ((off <? 0) || (n >? max_i64 - off) || (sl_PieceLength g <=? 0)
              || (Z.quot (i64 (i64 (off + n) - 1)) (sl_PieceLength g) >=? sl_NumPieces g))
  then Err ErrShortWrite else Ok tt.

(** [WriteAt] between its revocation and its payload. *)
Definition WriteAt_prepare (t : fileTorrentImpl) (off n : Z) : fileTorrentImpl :=
  bump (if n =? 0 then t else fold_left forget (pieces_of off n) t).

(** ** Empty files *)

(** [refreshEmptyFile] with whether its [stat] succeeded. *)
Definition refreshEmptyFile (t : fileTorrentImpl) (file : nat) (found : bool) : fileTorrentImpl :=
  match sl_files g !! file with
  | Some f =>
      if negb (e_Length f =? 0) || fb_closed t then t
      else
        let t := if Bool.eqb (bool_decide (file ∈ fb_zero t)) found then t else bump t in
        t <| fb_zero ::= fun zero => if found then {[file]} ∪ zero else zero ∖ {[file]} |>
  | None => t
  end.

Definition cachedEmptyFile (t : fileTorrentImpl) (file : nat) : bool :=
  negb (fb_closed t) && bool_decide (file ∈ fb_zero t).

(** ** Close *)

Definition Close (t : fileTorrentImpl) : fileTorrentImpl :=
  if fb_closed t then t else (clear_evidence t) <| fb_closed := true |> <| fb_zero := ∅ |>.

(** [ioGuard] when the guard of the volume fails, under [freshMu]; the epoch advances after it. *)
Definition ioGuard_failed (t : fileTorrentImpl) : fileTorrentImpl := clear_evidence t.

(** ** Checkpoints *)

(** The loop of [checkpointCatalog] over the files, with the length of the paths
    and the end of the extents so far. *)
Fixpoint catalog_files (root : string) (files : list Extent) (paths : list (option string)) (total extent : Z)
    : result storage_error (list CheckpointFile * Z) :=
  match files, paths with
  | f :: files, path :: paths =>
      match path with
      | None => Err ErrUnsafeFile
      | Some path =>
          let total := total + len root + len path + 1 in
          if (total >? checkpointMaxPaths) || (len path + len root + 1 >? 4096) then Err ErrCheckpointBudget
          else if (e_Start f <? 0) || (e_Length f <? 0) || (e_Length f >? max_i64 - e_Start f)
          then Err ErrCheckpointUnsupported
          else
            let? '(rest, extent) := catalog_files root files paths total (Z.max extent (e_Start f + e_Length f)) in
            Ok (mkCheckpointFile path (e_Start f) (e_Length f) (mkEvidence false "" 0 0) :: rest, extent)
      end
  | _, _ => Ok ([], extent)
  end.

Definition checkpointCatalog : result storage_error FileCheckpoint :=
  if sl_PieceLength g <=? 0 then Err ErrCheckpointUnsupported
  else if Z.of_nat (length (sl_files g)) >? checkpointMaxFiles then Err ErrCheckpointBudget
  else if (sl_NumPieces g <? 0) || (sl_NumPieces g >? checkpointMaxPieces) then Err ErrCheckpointBudget
  else match sl_Root g with
       | None => Err ErrCheckpointUnsupported
       | Some root =>
           let? '(files, extent) := catalog_files root (sl_files g) (sl_Paths g) 0 0 in
           let count := Z.quot extent (sl_PieceLength g)
                        + (if Z.rem extent (sl_PieceLength g) =? 0 then 0 else 1) in
           if negb (count =? sl_NumPieces g) then Err ErrCheckpointUnsupported
           else Ok (mkFileCheckpoint (sl_InfoHash g) root (sl_PieceLength g) (sl_NumPieces g) extent files [])
       end.

Definition file_evidence (info : option file_info) : Evidence :=
  match info with
  | Some st => mkEvidence true (fi_identity st) (fi_bytes st) (fi_modified st)
  | None => mkEvidence false "" 0 0
  end.

Definition bind_info (f : CheckpointFile) (info : option file_info) : CheckpointFile :=
  mkCheckpointFile (cf_Path f) (cf_Offset f) (cf_Length f) (file_evidence info).

(** What the file system answers for the file of an index: absent, or its info. *)
Definition prober : Type := nat -> result storage_error (option file_info).

Fixpoint probe_files (probe : prober) (file : nat) (files : list CheckpointFile)
    : result storage_error (list CheckpointFile * list (option file_info)) :=
  match files with
  | [] => Ok ([], [])
  | f :: files =>
      let? info := probe file in
      let? '(files, infos) := probe_files probe (S file) files in
      Ok (bind_info f info :: files, info :: infos)
  end.

Definition checkpointEvidence (probe : prober) : result storage_error (FileCheckpoint * list (option file_info)) :=
  let? c := checkpointCatalog in
  let? '(files, infos) := probe_files probe 0 (nc_Files c) in
  Ok (mkFileCheckpoint (nc_InfoHash c) (nc_Root c) (nc_PieceLength c) (nc_PieceCount c) (nc_ExtentLength c)
        files (nc_Complete c), infos).

Definition with_complete (c : FileCheckpoint) (complete : list byte) : FileCheckpoint :=
  mkFileCheckpoint (nc_InfoHash c) (nc_Root c) (nc_PieceLength c) (nc_PieceCount c) (nc_ExtentLength c)
    (nc_Files c) complete.

(** *** The seal *)

(** The signatures that the files no longer bear out. *)
Definition stale_signature (s : verifiedFileSignature) (current : option file_info) : bool :=
  sg_valid s && negb (if sl_managed g
                      then match current with Some current => SameFile (sg_info s) current | None => false end
                      else sameSignature (Some (sg_info s)) current).

Fixpoint drop_stale (t : fileTorrentImpl) (file : nat) (infos : list (option file_info)) : fileTorrentImpl :=
  match infos with
  | [] => t
  | current :: infos =>
      drop_stale (if signature_valid t file (fun s => stale_signature s current) then invalidate_signature t file else t)
                 (S file) infos
  end.

Definition sealable (t : fileTorrentImpl) (piece : Z) : bool :=
  negb (bool_decide (is_Some (fb_hashing t !! piece))) && cachedCompletionLocked t piece.

(** The loop over the pieces, and then the one over the files. *)
Fixpoint clear_unsealable (t : fileTorrentImpl) (count : nat) (piece : Z) (mask : list byte) : option (list byte) :=
  match count with
  | O => Some mask
  | S count =>
      match (if sealable t piece then Some mask else clear_bit mask piece) with
      | Some mask => clear_unsealable t count (piece + 1) mask
      | None => None
      end
  end.

Definition whole (f : CheckpointFile) : bool :=
  Present (cf_Evidence f) && negb (Size (cf_Evidence f) <? cf_Length f).

Fixpoint clear_partial (files : list CheckpointFile) (pieceLength : Z) (mask : list byte) : option (list byte) :=
  match files with
  | [] => Some mask
  | f :: files =>
      match (if whole f then Some mask else clearCheckpointFile mask f pieceLength) with
      | Some mask => clear_partial files pieceLength mask
      | None => None
      end
  end.

(** [withCheckpoint] up to the flushes: the subset to be sealed. *)
Definition seal_capture (t : fileTorrentImpl) (eligible : list byte)
    (probe : prober) : fileTorrentImpl * result storage_error FileCheckpoint :=
  if negb (validCheckpointBits eligible (sl_NumPieces g)) then (t, Err ErrCheckpointUnsupported)
  else if fb_closed t then (t, Err ErrClosed)
  else match checkpointEvidence probe with
       | Err e => (t, Err e)
       | Ok (c, infos) =>
           let t := drop_stale t 0 infos in
           match clear_unsealable t (Z.to_nat (nc_PieceCount c)) 0 eligible with
           | None => (t, Err ErrPanic)
           | Some mask =>
               match clear_partial (nc_Files c) (nc_PieceLength c) mask with
               | None => (t, Err ErrPanic)
               | Some mask => (t, Ok (with_complete c mask))
               end
           end
       end.

(** The files whose payload it flushes. *)
Definition seal_targets (c : FileCheckpoint) : list nat :=
  fst <$> filter (fun '(_, f) => checkpointFileWanted (nc_Complete c) f (nc_PieceLength c) = true)
                 (imap pair (nc_Files c)).

(** The evidence is the same after the flushes. *)
Definition seal_confirmed (c : FileCheckpoint) (probe : prober)
    : result storage_error unit :=
  let? '(after, _) := checkpointEvidence probe in
  if bool_decide (nc_Files c = nc_Files after) then Ok tt else Err ErrCheckpointChanged.

(** The end of [withCheckpoint] when the publication was acknowledged. *)
Definition seal_finish (t : fileTorrentImpl) (c : FileCheckpoint) (revision : Z) : fileTorrentImpl :=
  (rememberResume t (nc_Complete c) true) <| fb_sealed := revision |>.

Definition checkpointState (t : fileTorrentImpl) : Z * bool :=
  (fb_epoch t, negb (fb_closed t) && negb (fb_epoch t =? fb_sealed t)).

(** *** The restore *)

Definition same_entry (a b : CheckpointFile) : bool :=
  (cf_Path a =? cf_Path b)%string && (cf_Offset a =? cf_Offset b) && (cf_Length a =? cf_Length b).

Definition sameCheckpointCatalog (a b : FileCheckpoint) : bool :=
  (nc_InfoHash a =? nc_InfoHash b)%string && (nc_Root a =? nc_Root b)%string
  && (nc_PieceLength a =? nc_PieceLength b) && (nc_PieceCount a =? nc_PieceCount b)
  && (nc_ExtentLength a =? nc_ExtentLength b) && (length (nc_Files a) =? length (nc_Files b))%nat
  && forallb (fun '(a, b) => same_entry a b) (zip (nc_Files a) (nc_Files b)).

(** [bits.OnesCount8]. *)
Definition ones (b : byte) : Z :=
  Z.of_nat (length (List.filter (Z.testbit (byte.unsigned b)) (seqZ 0 8))).

Definition checkpointImportBudget (c : FileCheckpoint) : bool :=
  let n := fold_left (fun n b => n + ones b) (nc_Complete c) 0 in
  n * 256 + Z.of_nat (length (nc_Files c)) * 2048 + Z.of_nat (length (nc_Complete c)) * 8 <=? checkpointWorkingBytes.

(** The files of a piece by the geometry of the checkpoint. *)
Definition claimed_files (c : FileCheckpoint) (piece : Z) : list nat :=
  let off := piece * nc_PieceLength c in
  fst <$> locate off (Z.min (nc_PieceLength c) (nc_ExtentLength c - off)).

Definition claimed_pieces (c : FileCheckpoint) : list Z :=
  List.filter (bit (nc_Complete c)) (seqZ 0 (nc_PieceCount c)).

Definition supplied (infos : list (option file_info)) (file : nat) : bool :=
  match infos !! file with Some (Some _) => true | _ => false end.

Definition checkpointContributions (c : FileCheckpoint) (infos : list (option file_info)) : bool :=
  forallb (fun piece => let files := claimed_files c piece in
             forallb (supplied infos) files && negb (length files =? 0)%nat) (claimed_pieces c).

Record RestoreToken := mkRestoreToken {
  rt_epoch : Z;
  rt_proof : FileCheckpoint;
  rt_infos : list (option file_info);
}.

(** The files the claims of which are dropped. *)
Definition unsupported (current claim : CheckpointFile) : bool :=
  negb (whole current) || negb (bool_decide (current = claim)).

Fixpoint drop_unsupported (current claims : list CheckpointFile) (pieceLength : Z) (mask : list byte) : option (list byte) :=
  match current, claims with
  | f :: current, claim :: claims =>
      match (if unsupported f claim then clearCheckpointFile mask f pieceLength else Some mask) with
      | Some mask => drop_unsupported current claims pieceLength mask
      | None => None
      end
  | _, _ => Some mask
  end.

(** [prepareRestore] after the revocation of the files that have changed: the
    proof of the token. *)
Definition restore_proof (claims current : FileCheckpoint) (infos : list (option file_info)) : result storage_error FileCheckpoint :=
  match drop_unsupported (nc_Files current) (nc_Files claims) (nc_PieceLength current) (nc_Complete claims) with
  | None => Err ErrPanic
  | Some mask =>
      let proof := with_complete current mask in
      if negb (checkpointImportBudget proof) then Err ErrCheckpointBudget
      else if negb (checkpointContributions proof infos) then Err ErrCheckpointChanged
      else Ok proof
  end.

(** The signatures of an import; [sameSignature] also where payload is managed. *)
Fixpoint import_signatures (t : fileTorrentImpl) (file : nat) (infos : list (option file_info)) : fileTorrentImpl :=
  match infos with
  | [] => t
  | info :: infos =>
      let t := match info with
               | None => t
               | Some st =>
                   if signature_valid t file (fun s => sg_valid s && sameSignature (Some (sg_info s)) (Some st))
                   then t else replace_signature t file st
               end in
      import_signatures t (S file) infos
  end.

(** [markFreshLocked] of a claimed piece; a file without a signature is a nil
    pointer, which [markFreshLocked] dereferences. *)
Definition import_piece (c : FileCheckpoint) (t : option fileTorrentImpl) (piece : Z) : option fileTorrentImpl :=
  match t with
  | None => None
  | Some t =>
      match mapM (fun file => fb_signatures t !! file) (claimed_files c piece) with
      | None => None
      | Some signature => Some (markFreshLocked t piece signature true)
      end
  end.

Definition import_empty (t : fileTorrentImpl) (files : list CheckpointFile) : fileTorrentImpl :=
  fold_left (fun t '(i, f) =>
               if cf_Length f =? 0
               then t <| fb_zero ::= fun zero => if Present (cf_Evidence f) then {[i]} ∪ zero else zero ∖ {[i]} |>
               else t) (imap pair files) t.

(** [restoreCheckpoint]; the token belongs to this backend and is not used yet.
    [checks] are the two answers of its authorization, and [moved] tells whether
    a reader has advanced the epoch before [freshMu] was taken. *)
Definition restoreCheckpoint (t : fileTorrentImpl) (token : RestoreToken)
    (probe : prober) (checks : result storage_error unit * result storage_error unit)
    (moved : bool) : result storage_error unit * fileTorrentImpl :=
  if fb_closed t then (Err ErrClosed, t)
  else if negb (fb_epoch t =? rt_epoch token) then (Err ErrCheckpointChanged, t)
  else match fst checks, checkpointEvidence probe with
       | Err e, _ | Ok _, Err e => (Err e, t)
       | Ok _, Ok (current, _) =>
           if negb (sameCheckpointCatalog (rt_proof token) current)
              || negb (bool_decide (nc_Files current = nc_Files (rt_proof token)))
              || negb (checkpointContributions (rt_proof token) (rt_infos token))
           then (Err ErrCheckpointChanged, t)
           else match snd checks with
                | Err e => (Err e, t)
                | Ok _ =>
                    let t := rememberResume t (nc_Complete (rt_proof token)) false in
                    if moved then (Err ErrCheckpointChanged, bump t) else
                    let imported := import_signatures (import_empty t (nc_Files current)) 0 (rt_infos token) in
                    match fold_left (import_piece (rt_proof token)) (claimed_pieces (rt_proof token)) (Some imported) with
                    | None => (Err ErrPanic, imported)
                    | Some t => (Ok tt, (bump t) <| fb_sealed := u64 (fb_epoch t + 1) |>)
                    end
                end
       end.

(** ** Whole operations

    With the revocation hook as a function on what it changes. *)

Section Hook.
Context {W : Type} (Revoke : W -> list byte -> result storage_error bool * W).

Definition revokeResume (w : W) (t : fileTorrentImpl) (begin fin : Z) : result storage_error unit * W * fileTorrentImpl :=
  match revoke_mask t begin fin with
  | None => (Ok tt, w, t)
  | Some mask =>
      match Revoke w mask with
      | (Err e, w) => (Err e, w, t)
      | (Ok discarded, w) => (Ok tt, w, revoked_locally t begin fin mask discarded)
      end
  end.

Definition revokeResumeFile (w : W) (t : fileTorrentImpl) (file : nat) : result storage_error unit * W * fileTorrentImpl :=
  match file_pieces file with
  | None => (Ok tt, w, t)
  | Some (begin, fin) => revokeResume w (revokeResumeFile_fresh t file) begin fin
  end.

Definition revokeCheckpoint (w : W) (t : fileTorrentImpl) (begin fin : Z) : result storage_error unit * W * fileTorrentImpl :=
  if (begin <? 0) || (fin <? begin) || (fin >? sl_NumPieces g) || fb_closed t then (Err ErrCheckpointChanged, w, t)
  else revokeResume w (fold_left forget (seqZ begin (fin - begin)) (bump t)) begin fin.

Definition BeginVerification (w : W) (t : fileTorrentImpl) (piece : Z) (stat : nat -> option file_info)
    : result storage_error unit * W * fileTorrentImpl :=
  if fb_closed t then (Err ErrClosed, w, t)
  else match revokeResume w (bump t) piece (piece + 1) with
       | (Err e, w, t) => (Err e, w, t)
       | (Ok _, w, t) =>
           match pieceSignature stat piece with
           | None => (Err ErrIO, w, t)
           | Some current => (Ok tt, w, BeginVerification_fresh t piece current)
           end
       end.

(** [hint] is the answer of the completion store. *)
Definition MarkNotComplete (w : W) (t : fileTorrentImpl) (piece : Z) (hint : result storage_error unit)
    : result storage_error unit * W * fileTorrentImpl :=
  if fb_closed t then (Err ErrClosed, w, t)
  else match revokeResume w (forget (bump t) piece) piece (piece + 1) with
       | (Err e, w, t) => (Err e, w, t)
       | (Ok _, w, t) => (hint, w, t)
       end.

(** [refreshFile] with the answer of its [stat], [None] an error; a cancelled
    one is no evidence.  The revocation's error is dropped. *)
Definition refreshFile (w : W) (t : fileTorrentImpl) (file : nat) (current : option file_info) (cancelled : bool) : W * fileTorrentImpl :=
  if fb_closed t || cancelled || negb (refreshFile_stale t file current) then (w, t)
  else let '(_, w, t) := revokeResumeFile w (invalidate_signature (bump t) file) file in (w, t).

(** [resetManagedPayload] up to its descriptors. *)
Definition resetManagedPayload (w : W) (t : fileTorrentImpl) : result storage_error unit * W * fileTorrentImpl :=
  if fb_closed t then (Err ErrClosed, w, t)
  else revokeResume w (bump (clear_evidence t)) 0 (sl_NumPieces g).

(** The loop of [prepareRestore] over the files: every changed one is revoked. *)
Fixpoint revoke_unsupported (w : W) (t : fileTorrentImpl) (file : nat) (current claims : list CheckpointFile)
    : result storage_error unit * W * fileTorrentImpl :=
  match current, claims with
  | f :: current, claim :: claims =>
      if unsupported f claim && fb_hooks t
      then match revokeResumeFile w t file with
           | (Err e, w, t) => (Err e, w, t)
           | (Ok _, w, t) => revoke_unsupported w t (S file) current claims
           end
      else revoke_unsupported w t (S file) current claims
  | _, _ => (Ok tt, w, t)
  end.

Definition prepareRestore (w : W) (t : fileTorrentImpl) (claims : FileCheckpoint)
    (probe : prober) (check : result storage_error unit)
    : result storage_error RestoreToken * W * fileTorrentImpl :=
  if negb (sl_ReadOnly g) && negb (fb_hooks t) then (Err ErrCheckpointUnsupported, w, t)
  else if fb_closed t then (Err ErrClosed, w, t)
  else match check, checkpointEvidence probe with
       | Err e, _ | Ok _, Err e => (Err e, w, t)
       | Ok _, Ok (current, infos) =>
           if negb (sameCheckpointCatalog claims current) || negb (validCheckpointBits (nc_Complete claims) (nc_PieceCount current))
           then (Err ErrCheckpointChanged, w, t)
           else match revoke_unsupported w t 0 (nc_Files current) (nc_Files claims) with
                | (Err e, w, t) => (Err e, w, t)
                | (Ok _, w, t) =>
                    match restore_proof claims current infos with
                    | Err e => (Err e, w, t)
                    | Ok proof => (Ok (mkRestoreToken (fb_epoch t) proof infos), w, t)
                    end
                end
       end.

(** The flushes of the wanted files, up to the first that fails. *)
Fixpoint flush_files (flush : nat -> result storage_error unit) (files : list nat) : result storage_error unit :=
  match files with
  | [] => Ok tt
  | file :: files => let? _ := flush file in flush_files flush files
  end.

(** [withCheckpoint] as a whole: [probe] and [probe'] are what the file system
    answers before and after the flushes, [sync] is the answer of the directory
    syncs and [late] that of the context at the end. *)
Definition withCheckpoint (publish : W -> FileCheckpoint -> result storage_error unit * W) (w : W) (t : fileTorrentImpl)
    (eligible : list byte) (probe probe' : prober) (flush : nat -> result storage_error unit)
    (sync late : result storage_error unit) : result storage_error unit * W * fileTorrentImpl :=
  let revision := fb_epoch t in
  match seal_capture t eligible probe with
  | (t, Err e) => (Err e, w, t)
  | (t, Ok c) =>
      match flush_files flush (seal_targets c), sync, seal_confirmed c probe' with
      | Err e, _, _ | Ok _, Err e, _ | Ok _, Ok _, Err e => (Err e, w, t)
      | Ok _, Ok _, Ok _ =>
          let t := rememberResume t (nc_Complete c) false in
          match publish w c with
          | (Err e, w) => (Err e, w, t)
          | (Ok _, w) => (late, w, seal_finish t c revision)
          end
      end
  end.
End Hook.

(** The files of a completed piece: [promote] is the answer of the flush of a
    file that is complete. *)
Fixpoint promote_files (t : fileTorrentImpl) (files : list nat) (promote : nat -> result storage_error unit)
    : result storage_error unit * fileTorrentImpl :=
  match files with
  | [] => (Ok tt, t)
  | file :: files =>
      if all_counted t file && all_cached t file
      then match promote file with
           | Err e => (Err e, t)
           | Ok _ => promote_files (publish_file t file) files promote
           end
      else promote_files t files promote
  end.

(** [MarkComplete] of managed payload, for which [refreshRange] does nothing;
    [stat] is what [pieceSignature] finds and [hint] the answer of the completion
    store.  The sync of the piece is best effort. *)
Definition MarkComplete (t : fileTorrentImpl) (piece : Z) (stat : nat -> option file_info)
    (hint : result storage_error unit) (promote : nat -> result storage_error unit)
    : result storage_error unit * fileTorrentImpl :=
  if fb_closed t then (Err ErrClosed, t)
  else match hint, pieceSignature stat piece with
       | Err e, _ => (Err e, bump t)
       | Ok _, None => (Err ErrIO, bump t)
       | Ok _, Some current => promote_files (commitCompletion_fresh (bump t) piece current) (files_of_piece piece) promote
       end.
End Backend.
