(* ===== verification/FileEvidence.v ===== *)
(** * Evidence of the file storage

    The invariant of the evidence a backend keeps about its pieces, over every
    sequence of its critical sections: the counter of a file signature is the
    number of verified pieces that refer to it, which is what the completion of
    a file is decided by. *)

From stdpp Require Import base gmap list strings.
From Stdlib Require Import ZArith Strings.Byte Lia.
From S2P Require Import Prelude FastResume Segments ResumeStore FileStorage.

#[local] Open Scope Z_scope.

(** ** Layouts *)

Definition extent_end (files : list Extent) : Z := fold_right (fun f e => Z.max (e_Start f + e_Length f) e) 0 files.
Arguments extent_end : simpl never.

Lemma extent_end_cons f files : extent_end (f :: files) = Z.max (e_Start f + e_Length f) (extent_end files).
Proof. done. Qed.

(** A torrent as its metainfo lays it out: files in order, pieces that cover
    them, and no part of a piece that begins or ends between two files. *)
Record layout_ok (g : storage_layout) : Prop := mkLayoutOk {
  lo_length : 0 < sl_PieceLength g;
  lo_ordered : ordered 0 (sl_files g);
  lo_paths : length (sl_Paths g) = length (sl_files g);
  lo_bound : extent_end (sl_files g) + sl_PieceLength g <= max_i64;
  lo_count : sl_NumPieces g * sl_PieceLength g < extent_end (sl_files g) + sl_PieceLength g;
  lo_piece : forall p, 0 <= p < sl_NumPieces g ->
    0 < Piece_Length g p <= Z.min (sl_PieceLength g) (extent_end (sl_files g) - p * sl_PieceLength g);
  lo_section : forall p off n, 0 <= p < sl_NumPieces g -> p * sl_PieceLength g <= off -> 0 < n ->
    off + n <= p * sl_PieceLength g + Piece_Length g p -> gapless 0 (sl_files g) (mkExtent off n);
  lo_claimed : forall p, 0 <= p < sl_NumPieces g ->
    gapless 0 (sl_files g) (mkExtent (p * sl_PieceLength g)
      (Z.min (sl_PieceLength g) (extent_end (sl_files g) - p * sl_PieceLength g)));
}.

Lemma ordered_extent files : forall last, 0 <= last -> ordered last files ->
  forall i f, files !! i = Some f -> e_Start f + e_Length f <= extent_end files.
Proof.
  induction files as [|f0 files IH]; intros last Hl Ho i f Hf; [done|]. destruct Ho as (? & ? & ? & Ho). rewrite extent_end_cons.
  destruct i as [|i]; cbn in Hf; [simplify_eq; apply Z.le_max_l|].
  pose proof (IH (e_Start f0 + e_Length f0) ltac:(lia) Ho i f Hf). lia.
Qed.

(** Files one after the other leave no gaps. *)
Fixpoint contiguous (last : Z) (files : list Extent) : Prop :=
  match files with
  | [] => True
  | f :: files => e_Start f = last /\ 0 <= e_Length f /\ contiguous (last + e_Length f) files
  end.

Lemma contiguous_gapless files off n : forall last, contiguous last files -> 0 <= n ->
  gapless last files (mkExtent off n).
Proof.
  induction files as [|f files IH]; intros last Hc Hn; [done|]. destruct Hc as (Hs & Hl & Hc). cbn. split; [lia|].
  split; [lia|]. rewrite Hs. by apply IH.
Qed.

Lemma contiguous_ordered files : forall last, 0 <= last -> contiguous last files -> extent_end files <= max_i64 ->
  ordered last files.
Proof.
  induction files as [|f files IH]; intros last Hl Hc He; [done|]. destruct Hc as (Hs & Hn & Hc).
  rewrite extent_end_cons in He. cbn. split_and!; try lia. rewrite Hs. apply IH; done || lia.
Qed.

(** The last of them ends where the torrent ends. *)
Lemma contiguous_last files : forall last f, 0 <= last -> contiguous last files -> list.last files = Some f ->
  last <= e_Start f + e_Length f /\ e_Start f + e_Length f = extent_end files.
Proof.
  induction files as [|f0 files IH]; intros last f Hl Hc Hf; [done|]. destruct Hc as (Hs & Hn & Hc).
  destruct files as [|f1 files].
  - cbn in Hf. simplify_eq. rewrite extent_end_cons. change (extent_end []) with 0. lia.
  - destruct (IH (last + e_Length f0) f ltac:(lia) Hc Hf) as [? He]. rewrite extent_end_cons, <- He. lia.
Qed.

(** The layout of a torrent of the first version of the format: files one after
    the other, cut into pieces the last of which may be short. *)
Lemma v1_layout_ok g : sl_HasV2 g = false -> 0 < sl_PieceLength g -> contiguous 0 (sl_files g) ->
  length (sl_Paths g) = length (sl_files g) -> extent_end (sl_files g) + sl_PieceLength g <= max_i64 ->
  sl_NumPieces g = (extent_end (sl_files g) + sl_PieceLength g - 1) / sl_PieceLength g -> layout_ok g.
Proof.
  intros Hv Hpl Hc Hp Hb Hn. set (e := extent_end (sl_files g)) in *.
  pose proof (Z.mul_div_le (e + sl_PieceLength g - 1) (sl_PieceLength g) ltac:(lia)).
  pose proof (Z.mul_succ_div_gt (e + sl_PieceLength g - 1) (sl_PieceLength g) ltac:(lia)). rewrite <- Hn in *.
  split; try done.
  - apply contiguous_ordered; done || lia.
  - fold e. lia.
  - intros p Hr. unfold Piece_Length. rewrite Hv. fold e. destruct (Z.ltb_spec p (sl_NumPieces g - 1)); [nia|].
    destruct (list.last (sl_files g)) as [f|] eqn:Hf.
    + destruct (contiguous_last _ 0 f ltac:(lia) Hc Hf) as [? He]. fold e in He. rewrite He. unfold max_i64 in *.
      rewrite i64_id by (unfold in_i64; nia). nia.
    + apply last_None in Hf. subst e. rewrite Hf in *. change (extent_end []) with 0 in *. nia.
  - intros. apply contiguous_gapless; [done|lia].
  - intros p Hr. apply contiguous_gapless; [done|]. fold e. nia.
Qed.

Section Layout.
Context (g : storage_layout) (Hg : layout_ok g).
Abbreviation pl := (sl_PieceLength g).

Lemma file_bounds i f : sl_files g !! i = Some f ->
  0 <= e_Start f /\ 0 <= e_Length f /\ e_Start f + e_Length f <= extent_end (sl_files g).
Proof using Hg.
  intros Hf. destruct Hg as [? Ho ? ? ? ? ? ?]. pose proof (ordered_after 0 _ _ ltac:(lia) Ho _ Hf).
  pose proof (ordered_extent _ 0 ltac:(lia) Ho _ _ Hf). lia.
Qed.

(** What is located lies inside its file and inside the extent asked for. *)
Lemma located off n i found : gapless 0 (sl_files g) (mkExtent off n) -> 0 <= off -> 0 < n ->
  off + n <= extent_end (sl_files g) -> (i, found) ∈ locate g off n ->
  exists f, sl_files g !! i = Some f /\ off < e_Start f + e_Length f /\ e_Start f < off + n /\
    found = mkExtent (Z.max off (e_Start f) - e_Start f)
                     (Z.min (off + n) (e_Start f + e_Length f) - Z.max off (e_Start f)).
Proof using Hg.
  intros Hgap Ho Hn He Hi. destruct Hg as [? Hord ? ? ? ? ? ?]. unfold locate in Hi.
  rewrite locate_overlap in Hi by (cbn; done || lia).
  apply overlapping_elem in Hi as (f & Hf & _ & Hov & ->). rewrite Nat.sub_0_r in Hf. exists f.
  unfold overlaps in Hov. cbn in Hov. split_bools. split_and!; try done; lia.
Qed.

Lemma located_nodup off n : NoDup (locate g off n).*1.
Proof using Type.
  unfold locate, LocateIter. case_match; [|constructor]. rewrite fmap_imap. apply NoDup_alt. intros i j k Hi Hj.
  rewrite list_lookup_imap in Hi, Hj. apply fmap_Some in Hi as (? & _ & Hi), Hj as (? & _ & Hj). cbn in *. lia.
Qed.

(** The files located for a part of a piece are files of the piece. *)
Lemma located_in_file p off n : 0 <= p -> p * pl <= off -> 0 < n -> off + n <= (p + 1) * pl ->
  gapless 0 (sl_files g) (mkExtent off n) -> off + n <= extent_end (sl_files g) ->
  Forall (fun file => beginPieceIndex g file <= p < endPieceIndex g file) (locate g off n).*1.
Proof using Hg.
  intros Hp Hoff Hn Hend Hgap He. apply Forall_fmap, Forall_forall. intros [i found] Hi.
  pose proof (lo_length _ Hg). pose proof (lo_bound _ Hg). unfold max_i64 in *.
  apply located in Hi as (f & Hf & Hlo & Hhi & _); [|done|nia|done|done]. pose proof (file_bounds _ _ Hf). cbn.
  unfold beginPieceIndex, endPieceIndex. rewrite Hf. destruct (Z.eqb_spec pl 0); [lia|].
  rewrite i64_id by (unfold in_i64; lia). rewrite !Z.quot_div_nonneg by lia. split.
  - apply Z.lt_succ_r, Z.div_lt_upper_bound; nia.
  - apply Z.lt_le_trans with (p + 1); [lia|]. apply Z.div_le_lower_bound; nia.
Qed.

Lemma piece_extent p : 0 <= p < sl_NumPieces g -> 0 < Z.min pl (extent_end (sl_files g) - p * pl).
Proof using Hg. intros Hp%(lo_piece _ Hg). lia. Qed.

Lemma files_of_piece_in_file p : 0 <= p < sl_NumPieces g ->
  Forall (fun file => beginPieceIndex g file <= p < endPieceIndex g file) (files_of_piece g p).
Proof using Hg.
  intros Hp. pose proof (lo_piece _ Hg p Hp). apply located_in_file; try lia.
  apply (lo_section _ Hg p); try done; lia.
Qed.

(** *** The geometry of a catalog *)

Record geometry (c : FileCheckpoint) : Prop := mkGeometry {
  ge_length : nc_PieceLength c = pl;
  ge_count : nc_PieceCount c = sl_NumPieces g;
  ge_extent : nc_ExtentLength c = extent_end (sl_files g);
  ge_files : map (fun f => mkExtent (cf_Offset f) (cf_Length f)) (nc_Files c) = sl_files g;
  ge_covers : extent_end (sl_files g) <= sl_NumPieces g * pl;
}.

Lemma catalog_files_inv root files : forall paths total extent l e, length paths = length files ->
  0 <= extent -> catalog_files root files paths total extent = Ok (l, e) ->
  map (fun f => mkExtent (cf_Offset f) (cf_Length f)) l = files /\ e = Z.max extent (extent_end files).
Proof using Type.
  induction files as [|f files IH]; intros [|path paths] total extent l e Hl He; try done; cbn.
  - intros. simplify_eq. split; [done|]. change (extent_end []) with 0. lia.
  - destruct path as [path|]; [|done]. case_match; [done|]. case_match eqn:Hb; [done|].
    destruct (catalog_files _ _ _ _ _) as [[rest e1]|] eqn:E; [|done]. intros. simplify_eq.
    apply IH in E as [Er ->]; [|cbn in Hl; lia|lia]. cbn [map cf_Offset cf_Length]. rewrite Er. split; [by destruct f|].
    rewrite extent_end_cons. lia.
Qed.

Lemma extent_end_nonneg files : 0 <= extent_end files.
Proof using Type.
  induction files as [|f files IH]; [done|].
  rewrite extent_end_cons. lia.
Qed.

Lemma checkpointCatalog_geometry c : checkpointCatalog g = Ok c -> geometry c.
Proof using Hg.
  unfold checkpointCatalog. do 3 (case_match; [done|]). destruct (sl_Root g) as [root|]; [|done].
  destruct (catalog_files _ _ _ _ _) as [[files e]|] eqn:E; [|done]. case_match; [done|]. intros. simplify_eq.
  apply catalog_files_inv in E as [Ef ->]; [|apply (lo_paths _ Hg)|done].
  pose proof (extent_end_nonneg (sl_files g)) as He. rewrite Z.max_r in * by done. pose proof (lo_length _ Hg).
  split; try done. rewrite Z.quot_div_nonneg, Z.rem_mod_nonneg in * by lia.
  pose proof (Z.div_mod (extent_end (sl_files g)) pl ltac:(lia)). pose proof (Z.mod_pos_bound (extent_end (sl_files g)) pl ltac:(lia)).
  split_bools. destruct (Z.eqb_spec (extent_end (sl_files g) mod pl) 0); nia.
Qed.

Lemma probe_files_inv probe files : forall i bound infos, probe_files probe i files = Ok (bound, infos) ->
  bound = zip_with bind_info files infos /\ length infos = length files /\
  forall k, (k < length files)%nat -> exists info, infos !! k = Some info /\ probe (i + k)%nat = Ok info.
Proof using Type.
  induction files as [|f files IH]; intros i bound infos; cbn; [intros; simplify_eq; split_and!; [done..|intros; lia]|].
  destruct (probe i) as [info|] eqn:Ep; [|done]. destruct (probe_files probe (S i) files) as [[bound' infos']|] eqn:E; [|done].
  intros. simplify_eq. apply IH in E as (-> & Hl & Hk). split; [done|]. split; [cbn; lia|].
  intros [|k] Hlt; cbn; [exists info; by rewrite Nat.add_0_r|].
  destruct (Hk k ltac:(cbn in Hlt; lia)) as (x & ? & ?). exists x. by rewrite <- plus_n_Sm.
Qed.

(** The evidence is what the file system answers, file by file. *)
Lemma checkpointEvidence_inv probe c infos : checkpointEvidence g probe = Ok (c, infos) ->
  geometry c /\ length infos = length (sl_files g) /\ nc_Complete c = [] /\
  (forall i f, nc_Files c !! i = Some f -> exists info, infos !! i = Some info /\ probe i = Ok info /\ cf_Evidence f = file_evidence info).
Proof using Hg.
  unfold checkpointEvidence. destruct (checkpointCatalog g) as [c0|] eqn:E; [|done].
  destruct (probe_files probe 0 (nc_Files c0)) as [[bound l]|] eqn:Ep; [|done]. intros. simplify_eq. cbn.
  assert (nc_Complete c0 = []) as Hc0.
  { clear -E. unfold checkpointCatalog in E. by repeat (case_match; simplify_eq/=; try done). }
  apply checkpointCatalog_geometry in E as [? ? ? Ef ?]. apply probe_files_inv in Ep as (-> & Hl & Hp).
  assert (map (fun f => mkExtent (cf_Offset f) (cf_Length f)) (zip_with bind_info (nc_Files c0) infos) = sl_files g) as Ez.
  { rewrite <- Ef. clear -Hl. revert infos Hl. induction (nc_Files c0) as [|f files IH]; intros [|i l] Hl; try done.
    cbn in *. f_equal. apply IH. lia. }
  split; [split; done|]. split; [by rewrite Hl, <- Ef, length_map|]. split; [done|]. intros i f Hf.
  apply lookup_zip_with_Some in Hf as (f0 & info & -> & Hf0 & Hi). destruct (Hp i) as (x & ? & ?); [by eapply lookup_lt_Some|].
  simplify_eq. by exists info.
Qed.

Lemma claimed_files_in_file c p : geometry c -> 0 <= p < sl_NumPieces g ->
  Forall (fun file => beginPieceIndex g file <= p < endPieceIndex g file) (claimed_files g c p).
Proof using Hg.
  intros [Hl Hc He _ _] Hp. unfold claimed_files. rewrite Hl, He. pose proof (piece_extent p Hp).
  apply located_in_file; try lia. by apply (lo_claimed _ Hg).
Qed.
End Layout.

(** ** The invariant *)

(** The pieces whose evidence refers to a signature. *)
Definition referring (t : fileTorrentImpl) (a : nat) : gmap Z pieceEvidence :=
  filter (fun pe => a ∈ pe_infos pe.2) (fb_fresh t).

Definition in_file (g : storage_layout) (file : nat) (piece : Z) : Prop :=
  beginPieceIndex g file <= piece < endPieceIndex g file.

(** An address of the heap that may stand in the evidence of a piece. *)
Definition refers (g : storage_layout) (t : fileTorrentImpl) (piece : Z) (a : nat) : Prop :=
  exists s, fb_heap t !! a = Some s /\ in_file g (sg_file s) piece.

Record evidence_ok (g : storage_layout) (t : fileTorrentImpl) : Prop := mkEvidenceOk {
  ok_next : forall a s, fb_heap t !! a = Some s -> (a < fb_next t)%nat;
  ok_signature : forall i a, fb_signatures t !! i = Some a -> exists s, fb_heap t !! a = Some s /\ sg_file s = i;
  ok_current : forall a s, fb_heap t !! a = Some s -> sg_valid s = true -> fb_signatures t !! sg_file s = Some a;
  ok_fresh : forall p e, fb_fresh t !! p = Some e -> NoDup (pe_infos e) /\ Forall (refers g t p) (pe_infos e);
  ok_count : forall a s, fb_heap t !! a = Some s -> sg_valid s = true ->
    sg_complete s = Z.of_nat (size (referring t a));
}.

(** A change of one signature that keeps its file, and its count while valid. *)
Definition tame (f : verifiedFileSignature -> verifiedFileSignature) : Prop :=
  forall s, sg_file (f s) = sg_file s /\
    (sg_valid (f s) = true -> sg_valid s = true /\ sg_complete (f s) = sg_complete s).

Lemma alter_all_lookup f l : forall (h : gmap nat verifiedFileSignature) a, NoDup l ->
  alter_all f l h !! a = if bool_decide (a ∈ l) then f <$> h !! a else h !! a.
Proof.
  unfold alter_all. induction l as [|b l IH]; intros h a Hl; cbn; [done|]. apply NoDup_cons in Hl as [Hb Hl].
  rewrite IH by done. repeat case_bool_decide; set_unfold.
  - destruct (decide (a = b)) as [->|]; [done|]. by rewrite lookup_alter_ne by done.
  - naive_solver.
  - destruct H0 as [->|]; [by rewrite lookup_alter_eq|done].
  - rewrite lookup_alter_ne; [done|naive_solver].
Qed.

Lemma map_empty_filter_fresh a (m : gmap Z pieceEvidence) : (forall p e, m !! p = Some e -> a ∉ pe_infos e) ->
  filter (fun pe : Z * pieceEvidence => a ∈ pe_infos pe.2) m = ∅.
Proof.
  intros H. apply map_eq. intros p. rewrite lookup_empty. apply map_lookup_filter_None. right. intros e He. by apply (H p).
Qed.

Section Evidence.
Context (g : storage_layout).
Implicit Types t : fileTorrentImpl.

(** Only the heap, the maps of signatures and of evidence matter. *)
Lemma evidence_ok_ext t t' : fb_heap t' = fb_heap t -> fb_next t' = fb_next t -> fb_signatures t' = fb_signatures t ->
  fb_fresh t' = fb_fresh t -> evidence_ok g t -> evidence_ok g t'.
Proof.
  intros Eh En Es Ef [H1 H2 H3 H4 H5].
  split; unfold referring, refers in *; rewrite ?Eh, ?En, ?Es, ?Ef; assumption.
Qed.

Lemma alter_tame f a t : tame f -> evidence_ok g t -> evidence_ok g (t <| fb_heap ::= alter f a |>).
Proof.
  intros Hf [H1 H2 H3 H4 H5].
  assert (forall b s, alter f a (fb_heap t) !! b = Some s -> exists s0, fb_heap t !! b = Some s0 /\
            sg_file s = sg_file s0 /\ (sg_valid s = true -> sg_valid s0 = true /\ sg_complete s = sg_complete s0)) as Hb.
  { intros b s Hs. apply lookup_alter_Some in Hs as [(-> & s0 & Hs0 & ->)|[_ Hs]]; [|eauto].
    destruct (Hf s0) as [? Hv]. eauto. }
  assert (forall b s0, fb_heap t !! b = Some s0 -> exists s, alter f a (fb_heap t) !! b = Some s /\ sg_file s = sg_file s0) as Hb'.
  { intros b s0 Hs0. destruct (decide (a = b)) as [->|].
    - rewrite lookup_alter_eq, Hs0. eexists. split; [done|]. apply Hf.
    - rewrite lookup_alter_ne by done. eauto. }
  split; cbn in *.
  - intros b s (s0 & ? & _)%Hb. eauto.
  - intros i b (s0 & Hs0 & <-)%H2. apply Hb' in Hs0 as (s & ? & ?). eauto.
  - intros b s (s0 & Hs0 & -> & Hv)%Hb V. apply (H3 _ _ Hs0), Hv, V.
  - intros p e (Hn & He)%H4. split; [done|]. eapply Forall_impl; [exact He|]. intros b (s0 & (s & ? & E)%Hb' & ?).
    exists s. cbn. by rewrite E.
  - intros b s (s0 & Hs0 & _ & Hv)%Hb V. destruct (Hv V) as [? ->]. apply (H5 _ _ Hs0). done.
Qed.

Lemma tame_invalid : tame invalid_signature.
Proof. by intros s. Qed.

Lemma alter_all_tame f l t : tame f -> evidence_ok g t -> evidence_ok g (t <| fb_heap ::= alter_all f l |>).
Proof.
  intros Hf. revert t. induction l as [|a l IH]; intros t H; [by eapply evidence_ok_ext, H|].
  apply (alter_tame f a) in H; [|done]. apply IH in H. by eapply evidence_ok_ext, H.
Qed.

Lemma invalidate_ok t file : evidence_ok g t -> evidence_ok g (invalidate_signature t file).
Proof. intros. unfold invalidate_signature. case_match; [|done]. by apply alter_tame; [apply tame_invalid|]. Qed.

Lemma bump_ok t : evidence_ok g t -> evidence_ok g (bump t).
Proof. by apply evidence_ok_ext. Qed.

(** *** Pieces *)

Lemma evidence_nodup t p : evidence_ok g t -> NoDup (evidence_of t p) /\ Forall (refers g t p) (evidence_of t p).
Proof. intros H. unfold evidence_of. case_match eqn:E; [by apply (ok_fresh _ _ H)|]. by split; constructor. Qed.

Lemma forgetPieceLocked_ok t p : evidence_ok g t -> evidence_ok g (forgetPieceLocked t p).
Proof.
  intros H. pose proof (evidence_nodup _ p H) as [Hnd _]. unfold forgetPieceLocked.
  set (t' := t <| fb_heap ::= _ |> <| fb_fresh ::= _ |>).
  assert (forall a, fb_heap t' !! a = (if bool_decide (a ∈ evidence_of t p) then release_signature else id) <$> fb_heap t !! a) as Hh.
  { intros a. subst t'. cbn. rewrite alter_all_lookup by done. case_bool_decide; [done|]. by rewrite option_fmap_id. }
  assert (forall a s, fb_heap t' !! a = Some s -> exists s0, fb_heap t !! a = Some s0 /\ sg_file s = sg_file s0 /\
            sg_valid s = sg_valid s0 /\ (sg_valid s = true ->
              sg_complete s = sg_complete s0 - if bool_decide (a ∈ evidence_of t p) then 1 else 0)) as Hb.
  { intros a s Hs. rewrite Hh in Hs. apply fmap_Some in Hs as (s0 & Hs0 & ->). exists s0.
    case_bool_decide; cbn; [|split_and!; try done; intros; lia]. unfold release_signature.
    destruct (sg_valid s0) eqn:V; cbn; split_and!; try done; intros; congruence || lia. }
  destruct H as [H1 H2 H3 H4 H5]. split.
  - intros a s (s0 & ? & _)%Hb. apply (H1 _ _ H).
  - intros i a (s0 & Hs0 & <-)%H2. rewrite Hh, Hs0. eexists. split; [done|].
    case_bool_decide; [|done]. unfold release_signature. by case_match.
  - intros a s (s0 & Hs0 & -> & -> & _)%Hb V. by apply (H3 _ _ Hs0).
  - intros q e He. cbn in He. apply lookup_delete_Some in He as [_ He]. apply H4 in He as [Hn He]. split; [done|].
    eapply Forall_impl; [exact He|]. intros a (s0 & Hs0 & ?). unfold refers. rewrite Hh, Hs0. eexists. split; [done|].
    case_bool_decide; [|done]. unfold release_signature. by case_match.
  - intros a s (s0 & Hs0 & _ & Hv & Hc)%Hb V. rewrite (Hc V), (H5 _ _ Hs0) by congruence. clear Hc Hb Hh.
    unfold referring. subst t'. cbn. unfold evidence_of. rewrite map_filter_delete.
    destruct (fb_fresh t !! p) as [e|] eqn:He.
    + case_bool_decide as Ha.
      * assert (filter (fun pe : Z * pieceEvidence => a ∈ pe_infos pe.2) (fb_fresh t) !! p = Some e) as Hf by (apply map_lookup_filter_Some_2; [exact He|exact Ha]).
        rewrite map_size_delete_Some by eauto. assert (size (filter (fun pe : Z * pieceEvidence => a ∈ pe_infos pe.2) (fb_fresh t)) ≠ 0%nat).
        { intros E%map_size_empty_inv. by rewrite E in Hf. } lia.
      * rewrite map_size_delete_None; [lia|]. apply map_lookup_filter_None. right. intros e' He' ?. simplify_eq/=. done.
    + rewrite map_size_delete_None; [case_bool_decide as Ha; [by apply not_elem_of_nil in Ha|lia]|].
      apply map_lookup_filter_None. by left.
Qed.

Lemma forget_refers t p q a : evidence_ok g t -> refers g t q a -> refers g (forgetPieceLocked t p) q a.
Proof.
  intros [Hn _]%(evidence_nodup _ p) (s & Hs & Hf). unfold refers. cbn. rewrite alter_all_lookup, Hs by done.
  case_bool_decide; (eexists; split; [done|]); [|done]. unfold release_signature. by case_match.
Qed.

Lemma forget_ok t p : evidence_ok g t -> evidence_ok g (forget t p).
Proof. intros H%(forgetPieceLocked_ok _ p). by eapply evidence_ok_ext, H. Qed.

Lemma forget_all_ok l t : evidence_ok g t -> evidence_ok g (fold_left forget l t).
Proof. revert t. induction l; intros t H; [done|]. cbn. by apply IHl, forget_ok. Qed.

Lemma forget_masked_ok mask l t : evidence_ok g t ->
  evidence_ok g (fold_left (fun t i => if bit mask i then forget t i else t) l t).
Proof. revert t. induction l; intros t H; [done|]. cbn. apply IHl. case_match; [by apply forget_ok|done]. Qed.

Lemma filter_insert_size a p e (m : gmap Z pieceEvidence) : m !! p = None ->
  size (filter (fun pe : Z * pieceEvidence => a ∈ pe_infos pe.2) (<[p := e]> m))
  = (size (filter (fun pe : Z * pieceEvidence => a ∈ pe_infos pe.2) m) + if bool_decide (a ∈ pe_infos e) then 1 else 0)%nat.
Proof.
  intros Hp. rewrite map_filter_insert. cbn. case_bool_decide as Ha.
  - rewrite decide_True by done. rewrite map_size_insert_None; [lia|]. apply map_lookup_filter_None. by left.
  - rewrite decide_False by done. rewrite delete_id by done. lia.
Qed.

(** Evidence replaced by evidence that refers to the same signatures. *)
Lemma reinsert_ok t p e e' : fb_fresh t !! p = Some e -> pe_infos e' = pe_infos e ->
  evidence_ok g t -> evidence_ok g (t <| fb_fresh ::= <[p := e']> |>).
Proof.
  intros He Hi [H1 H2 H3 H4 H5]. split; cbn; try done.
  - intros q e0 Hq. apply lookup_insert_Some in Hq as [[<- <-]|[_ Hq]]; [|by apply (H4 _ _ Hq)]. rewrite Hi. by apply (H4 _ _ He).
  - intros a s Hs V. rewrite (H5 _ _ Hs V). unfold referring. cbn.
    rewrite <- (insert_delete_id (fb_fresh t) p e He) at 1. rewrite <- (insert_delete_eq _ p e').
    by rewrite !filter_insert_size, Hi by apply lookup_delete_eq.
Qed.

Lemma insert_ok t p e : fb_fresh t !! p = None -> NoDup (pe_infos e) -> Forall (refers g t p) (pe_infos e) ->
  evidence_ok g t ->
  evidence_ok g (t <| fb_heap ::= alter_all count_signature (pe_infos e) |> <| fb_fresh ::= <[p := e]> |>).
Proof.
  intros Hp Hnd Hr [H1 H2 H3 H4 H5]. set (t' := t <| fb_heap ::= _ |> <| fb_fresh ::= _ |>).
  assert (forall a, fb_heap t' !! a = (if bool_decide (a ∈ pe_infos e) then count_signature else id) <$> fb_heap t !! a) as Hh.
  { intros a. subst t'. cbn. rewrite alter_all_lookup by done. case_bool_decide; [done|]. by rewrite option_fmap_id. }
  assert (forall a s0, fb_heap t !! a = Some s0 -> exists s, fb_heap t' !! a = Some s /\ sg_file s = sg_file s0) as Hk.
  { intros a s0 Hs0. rewrite Hh, Hs0. eexists. split; [done|]. by case_bool_decide. }
  assert (forall q a, refers g t q a -> refers g t' q a) as Hr'.
  { intros q a (s0 & (s & ? & E)%Hk & ?). exists s. by rewrite E. }
  split.
  - intros a s Hs. rewrite Hh in Hs. apply fmap_Some in Hs as (s0 & ? & _). eauto.
  - intros i a (s0 & (s & ? & E)%Hk & <-)%H2. eauto.
  - intros a s Hs V. rewrite Hh in Hs. apply fmap_Some in Hs as (s0 & Hs0 & ->). case_bool_decide; by apply (H3 _ _ Hs0).
  - intros q e0 Hq. cbn in Hq. apply lookup_insert_Some in Hq as [[<- <-]|[_ [Hn He]%H4]]; (split; [done|]).
    + eapply Forall_impl; [exact Hr|]. auto.
    + eapply Forall_impl; [exact He|]. auto.
  - intros a s Hs V. rewrite Hh in Hs. apply fmap_Some in Hs as (s0 & Hs0 & ->). unfold referring. cbn.
    rewrite filter_insert_size by done. case_bool_decide; cbn in *; rewrite (H5 _ _ Hs0) by done; unfold referring; lia.
Qed.

Lemma markFreshLocked_ok t p signature restored : NoDup signature -> Forall (refers g t p) signature ->
  evidence_ok g t -> evidence_ok g (markFreshLocked t p signature restored).
Proof.
  intros Hn Hr H. unfold markFreshLocked. case_bool_decide as E; cbn [andb].
  - apply fmap_Some in E as (e & He & Ei). destruct (cachedCompletionLocked t p).
    + apply (reinsert_ok t p e (mkPieceEvidence signature restored)) in H; [|done|done]. by eapply evidence_ok_ext, H.
    + eapply evidence_ok_ext, (insert_ok (forgetPieceLocked t p) p (mkPieceEvidence signature restored)); try done;
        [cbn; by rewrite lookup_delete_eq| |by apply forgetPieceLocked_ok]. cbn.
      eapply Forall_impl; [exact Hr|]. intros a. by apply forget_refers.
  - eapply evidence_ok_ext, (insert_ok (forgetPieceLocked t p) p (mkPieceEvidence signature restored)); try done;
      [cbn; by rewrite lookup_delete_eq| |by apply forgetPieceLocked_ok]. cbn.
    eapply Forall_impl; [exact Hr|]. intros a. by apply forget_refers.
Qed.

(** *** Signatures *)

(** No signature is lost, and each keeps its file. *)
Definition heap_kept t t' : Prop :=
  forall a s, fb_heap t !! a = Some s -> exists s', fb_heap t' !! a = Some s' /\ sg_file s' = sg_file s.

Lemma heap_kept_refl t : heap_kept t t.
Proof. intros a s. eauto. Qed.

Lemma heap_kept_trans t t' t'' : heap_kept t t' -> heap_kept t' t'' -> heap_kept t t''.
Proof. intros H H' a s (s' & Hs' & <-)%H. by apply H'. Qed.

Lemma kept_refers t t' p a : heap_kept t t' -> refers g t p a -> refers g t' p a.
Proof. intros H (s & (s' & ? & E)%H & ?). exists s'. by rewrite E. Qed.

Lemma replace_signature_kept t file st : evidence_ok g t -> heap_kept t (replace_signature t file st).
Proof.
  intros H a s Hs. unfold replace_signature. cbn. pose proof (ok_next _ _ H _ _ Hs).
  rewrite lookup_insert_ne by lia. case_match; [|eauto]. destruct (decide (n = a)) as [->|].
  - rewrite lookup_alter_eq, Hs. by eexists.
  - rewrite lookup_alter_ne by done. eauto.
Qed.

Lemma replace_signature_ok t file st : evidence_ok g t -> evidence_ok g (replace_signature t file st).
Proof.
  intros H. pose proof (replace_signature_kept t file st H) as Hk. destruct H as [H1 H2 H3 H4 H5].
  set (t' := replace_signature t file st) in *.
  assert (forall a s, fb_heap t' !! a = Some s -> a = fb_next t /\ s = mkSignature st file true 0 false \/
            exists s0, fb_heap t !! a = Some s0 /\ sg_file s = sg_file s0 /\ (sg_valid s = true ->
              s = s0 /\ fb_signatures t !! file ≠ Some a)) as Hb.
  { intros a s Hs. subst t'. unfold replace_signature in Hs. cbn in Hs. apply lookup_insert_Some in Hs as [[<- <-]|[Hne Hs]]; [by left|].
    right. destruct (fb_signatures t !! file) as [b|]; [|eauto 10].
    apply lookup_alter_Some in Hs as [(-> & s0 & Hs0 & ->)|[Hb Hs]]; [by exists s0|]. exists s. split_and!; try done. intros _. split; [done|congruence]. }
  split.
  - intros a s [[-> _]|(s0 & Hs0 & _)]%Hb; cbn; [lia|]. apply H1 in Hs0. lia.
  - intros i a Ha. subst t'. cbn in Ha. apply lookup_insert_Some in Ha as [[<- <-]|[_ (s0 & (s & ? & ?)%Hk & <-)%H2]]; [|eauto].
    eexists. cbn. by rewrite lookup_insert_eq.
  - intros a s [[-> ->]|(s0 & Hs0 & Hf & Hv)]%Hb V; cbn; [by rewrite lookup_insert_eq|]. destruct (Hv V) as [-> Hne].
    pose proof (H3 _ _ Hs0 V) as Hcur. rewrite lookup_insert_ne; [done|]. intros ->. congruence.
  - intros p e [Hn He]%H4. split; [done|]. eapply Forall_impl; [exact He|]. intros a. by apply kept_refers.
  - intros a s [[-> ->]|(s0 & Hs0 & Hf & Hv)]%Hb V; [|destruct (Hv V) as [-> _]; by apply (H5 _ _ Hs0)].
    cbn. unfold referring. cbn. rewrite map_empty_filter_fresh; [done|].
    intros p e [_ He]%H4 Ha. rewrite Forall_forall in He. apply He in Ha as (s & ?%H1 & _). lia.
Qed.

(** A file whose signature holds, or was just replaced. *)
Definition signed t (file a : nat) : Prop :=
  exists s, fb_heap t !! a = Some s /\ sg_file s = file.

Lemma signed_kept t t' file a : heap_kept t t' -> signed t file a -> signed t' file a.
Proof. intros H (s & (s' & ? & E)%H & <-). by exists s'. Qed.

Lemma intern_ok found : forall t t' l, intern g t found = (t', l) -> evidence_ok g t ->
  evidence_ok g t' /\ heap_kept t t' /\ Forall2 (signed t') found.*1 l.
Proof.
  induction found as [|[file st] found IH]; intros t t' l E H; cbn in E; [simplify_eq; split_and!; [done|apply heap_kept_refl|constructor]|].
  set (t1 := if signature_valid _ _ _ then _ else _) in E. destruct (intern g t1 found) as [t2 rest] eqn:Ei. simplify_eq.
  assert (evidence_ok g t1 /\ heap_kept t t1 /\ is_Some (fb_signatures t1 !! file)) as (H1 & Hk & [a Ha]).
  { subst t1. destruct (signature_valid t file _) eqn:V.
    - split; [done|]. split; [apply heap_kept_refl|]. unfold signature_valid, signature_at in V. by destruct (fb_signatures t !! file).
    - split; [by apply replace_signature_ok|]. split; [by apply replace_signature_kept|]. cbn. by rewrite lookup_insert_eq. }
  destruct (IH _ _ _ Ei H1) as (H2 & Hk2 & Hf). split; [done|]. split; [by eapply heap_kept_trans|].
  cbn. constructor; [|done]. rewrite Ha. cbn. apply (signed_kept t1); [done|]. by apply (ok_signature _ _ H1).
Qed.

Lemma signed_nodup t files l : NoDup files -> Forall2 (signed t) files l -> NoDup l.
Proof.
  intros Hn Hf. induction Hf as [|file a files l (s & Hs & Hsf) Hf IH]; [constructor|]. apply NoDup_cons in Hn as [Hi Hn].
  constructor; [|by apply IH]. intros Ha. apply Hi. apply list_elem_of_lookup in Ha as (k & Hk).
  destruct (Forall2_lookup_r _ _ _ _ _ Hf Hk) as (file' & Hk' & s' & Hs' & <-). simplify_eq. by eapply list_elem_of_lookup_2.
Qed.

Lemma signed_refers t p files l : Forall2 (signed t) files l -> Forall (fun file => in_file g file p) files ->
  Forall (refers g t p) l.
Proof.
  intros Hf. induction Hf as [|file a files l (s & Hs & <-) Hf IH]; intros Hp; [constructor|].
  apply Forall_cons in Hp as [? Hp]. constructor; [by exists s|auto].
Qed.

Lemma mark_signed_ok t p files l restored : NoDup files -> Forall (fun file => in_file g file p) files ->
  Forall2 (signed t) files l -> evidence_ok g t -> evidence_ok g (markFreshLocked t p l restored).
Proof. intros Hn Hp Hf. apply markFreshLocked_ok; [by eapply signed_nodup|by eapply signed_refers]. Qed.

Lemma publish_file_ok t file : evidence_ok g t -> evidence_ok g (publish_file t file).
Proof. intros H. unfold publish_file. case_match; [|done]. apply alter_tame; [|done]. intros s. case_match; cbn; split; auto; congruence. Qed.

Lemma acceptFileWrite_ok t file before after off n : evidence_ok g t -> evidence_ok g (acceptFileWrite g t file before after off n).
Proof.
  intros H. unfold acceptFileWrite. repeat (case_match; [|done]). case_match; [done|]. apply forget_all_ok.
  case_match; [|done]. apply alter_tame; [|done]. intros s. repeat case_match; cbn; split; (congruence || auto).
Qed.

Lemma drop_stale_ok infos : forall t file, evidence_ok g t -> evidence_ok g (drop_stale g t file infos).
Proof.
  induction infos as [|info infos IH]; intros t file H; [done|]. cbn. apply IH. case_match; [by apply invalidate_ok|done].
Qed.

Lemma alter_all_invalid l : forall (h : gmap nat verifiedFileSignature) a s,
  alter_all invalid_signature l h !! a = Some s -> sg_valid s = true -> h !! a = Some s /\ a ∉ l.
Proof.
  unfold alter_all. induction l as [|b l IH]; intros h a s Hs V; cbn in Hs; [split; [done|apply not_elem_of_nil]|].
  apply IH in Hs as [Hs Hl]; [|done]. apply lookup_alter_Some in Hs as [(-> & s0 & _ & ->)|[Hne Hs]]; [done|].
  split; [done|]. intros [->|]%elem_of_cons; done.
Qed.

Lemma clear_evidence_ok t : evidence_ok g t -> evidence_ok g (clear_evidence t).
Proof.
  intros H. pose proof (ok_current _ _ H) as Hcur.
  apply (alter_all_tame invalid_signature (snd <$> map_to_list (fb_signatures t))) in H; [|apply tame_invalid].
  destruct H as [H1 H2 H3 H4 H5]. split; try done. intros a s Hs V. exfalso. cbn in Hs. apply alter_all_invalid in Hs as [Hs Hl]; [|done].
  apply Hl, list_elem_of_fmap. exists (sg_file s, a). split; [done|]. by apply elem_of_map_to_list, Hcur.
Qed.

Lemma revoked_locally_ok t begin fin mask discarded : evidence_ok g t -> evidence_ok g (revoked_locally t begin fin mask discarded).
Proof. intros H. apply bump_ok, forget_masked_ok. by eapply evidence_ok_ext, H. Qed.

Lemma rememberResume_ok t mask replace : evidence_ok g t -> evidence_ok g (rememberResume t mask replace).
Proof. intros H. unfold rememberResume. repeat case_match; try done; by eapply evidence_ok_ext, H. Qed.

Lemma import_empty_ok files t : evidence_ok g t -> evidence_ok g (import_empty t files).
Proof.
  unfold import_empty. generalize (imap pair files). intros l. revert t. induction l as [|[i f] l IH]; intros t H; [done|].
  cbn. apply IH. case_match; [|done]. by eapply evidence_ok_ext, H.
Qed.

Lemma import_signatures_ok infos : forall t file, evidence_ok g t -> evidence_ok g (import_signatures t file infos).
Proof.
  induction infos as [|info infos IH]; intros t file H; [done|]. cbn. apply IH. case_match; [|done].
  case_match; [done|by apply replace_signature_ok].
Qed.

Lemma mapM_signed t files l : evidence_ok g t -> mapM (fun file => fb_signatures t !! file) files = Some l ->
  Forall2 (signed t) files l.
Proof.
  intros H Hm. apply mapM_Some in Hm. eapply Forall2_impl; [exact Hm|]. cbn. intros file a Ha. by apply (ok_signature _ _ H).
Qed.
End Evidence.

Section Operations.
Context (g : storage_layout) (Hg : layout_ok g).
Implicit Types t : fileTorrentImpl.

Lemma internSignatureLocked_ok t p stat current t' l : 0 <= p < sl_NumPieces g -> pieceSignature g stat p = Some current ->
  internSignatureLocked g t p current = (t', l) -> evidence_ok g t ->
  evidence_ok g t' /\ Forall2 (signed t') (files_of_piece g p) l.
Proof using Type.
  intros Hp Hc E H. unfold internSignatureLocked in E. apply intern_ok in E as (H' & _ & Hf); [|done]. split; [done|].
  rewrite fst_zip in Hf; [done|]. unfold pieceSignature in Hc. apply mapM_Some, Forall2_length in Hc. lia.
Qed.

Lemma commitCompletion_ok t p stat current : 0 <= p < sl_NumPieces g -> pieceSignature g stat p = Some current ->
  evidence_ok g t -> evidence_ok g (commitCompletion_fresh g t p current).
Proof using Hg.
  intros Hp Hc H. unfold commitCompletion_fresh. destruct (internSignatureLocked g t p current) as [t' l] eqn:E.
  eapply internSignatureLocked_ok in E as [H' Hf]; try done.
  by eapply mark_signed_ok; [apply located_nodup|apply files_of_piece_in_file| |].
Qed.

Lemma BeginVerification_ok t p stat current : 0 <= p < sl_NumPieces g -> pieceSignature g stat p = Some current ->
  evidence_ok g t -> evidence_ok g (BeginVerification_fresh g t p current).
Proof using Type.
  intros Hp Hc H. unfold BeginVerification_fresh. destruct (internSignatureLocked g t p current) as [t' l] eqn:E.
  eapply internSignatureLocked_ok in E as [H' _]; try done. by eapply evidence_ok_ext, H'.
Qed.

Lemma promote_files_ok files promote : forall t, evidence_ok g t -> evidence_ok g (snd (promote_files g t files promote)).
Proof using Type.
  induction files as [|file files IH]; intros t H; [done|]. cbn. case_match; [|by apply IH].
  case_match; [|done]. by apply IH, publish_file_ok.
Qed.

Lemma MarkComplete_ok t p stat hint promote : 0 <= p < sl_NumPieces g -> evidence_ok g t ->
  evidence_ok g (snd (MarkComplete g t p stat hint promote)).
Proof using Hg.
  intros Hp H. unfold MarkComplete. case_match; [done|]. destruct hint; [|by apply bump_ok]. case_match eqn:Hc; [|by apply bump_ok].
  by eapply promote_files_ok, commitCompletion_ok, bump_ok.
Qed.

Lemma import_pieces_ok c pieces : geometry g c -> (forall p, p ∈ pieces -> 0 <= p < sl_NumPieces g) ->
  forall t t', evidence_ok g t -> fold_left (import_piece g c) pieces (Some t) = Some t' -> evidence_ok g t'.
Proof using Hg.
  intros Hc. induction pieces as [|p pieces IH]; intros Hp t t' H E; cbn in E; [by simplify_eq|].
  destruct (mapM _ (claimed_files g c p)) as [l|] eqn:El.
  - apply IH in E; [done|intros; apply Hp; by apply elem_of_cons; right|]. eapply (mark_signed_ok g); [apply located_nodup| | |done].
    + apply claimed_files_in_file; [done|done|]. apply Hp. by apply elem_of_cons; left.
    + by apply (mapM_signed g).
  - exfalso. clear -E. induction pieces; [done|]. by apply IHpieces.
Qed.

Lemma claimed_pieces_range c p : p ∈ claimed_pieces c -> 0 <= p < nc_PieceCount c.
Proof using Type. unfold claimed_pieces. intros [Hp _]%list_elem_of_In%filter_In. apply list_elem_of_In, elem_of_seqZ in Hp. lia. Qed.

Lemma same_catalog_geometry a b : sameCheckpointCatalog a b = true -> geometry g b ->
  nc_PieceLength a = sl_PieceLength g /\ nc_PieceCount a = sl_NumPieces g /\ nc_ExtentLength a = extent_end (sl_files g).
Proof using Type. unfold sameCheckpointCatalog. intros H [? ? ? _ _]. split_bools. split_and!; lia. Qed.

Lemma restoreCheckpoint_ok t token probe checks moved : evidence_ok g t ->
  evidence_ok g (snd (restoreCheckpoint g t token probe checks moved)).
Proof using Hg.
  intros H. unfold restoreCheckpoint. do 2 (case_match; [done|]). destruct (fst checks); [|done].
  destruct (checkpointEvidence g probe) as [[current infos]|] eqn:E; [|done]. case_match eqn:Hs; [done|].
  apply orb_false_iff in Hs as [[Hcat%negb_false_iff Hfiles%negb_false_iff%bool_decide_eq_true]%orb_false_iff _].
  destruct (snd checks); [|done]. case_match; [by apply bump_ok, rememberResume_ok|].
  apply checkpointEvidence_inv in E as (Hge & _ & _ & _); [|done].
  set (imported := import_signatures _ _ _).
  assert (evidence_ok g imported) as Hi by (by apply import_signatures_ok, import_empty_ok, rememberResume_ok).
  case_match eqn:Ef; [|done]. eapply (import_pieces_ok (rt_proof token)) in Ef; [by eapply evidence_ok_ext, Ef| | |done].
  - destruct (same_catalog_geometry _ _ Hcat Hge) as (? & ? & ?). destruct Hge as [_ _ _ Hf ?]. split; try done.
    by rewrite <- Hfiles.
  - intros p Hp%claimed_pieces_range. by destruct (same_catalog_geometry _ _ Hcat Hge) as (_ & <- & _).
Qed.

Lemma seal_capture_ok t eligible probe : evidence_ok g t -> evidence_ok g (fst (seal_capture g t eligible probe)).
Proof using Type.
  intros H. unfold seal_capture. do 2 (case_match; [done|]). case_match; [|done]. destruct a as [c infos].
  repeat case_match; by apply drop_stale_ok.
Qed.

Lemma Close_ok t : evidence_ok g t -> evidence_ok g (Close t).
Proof using Type. intros H. unfold Close. case_match; [done|]. by eapply evidence_ok_ext, clear_evidence_ok, H. Qed.
End Operations.

(** ** Sequences of critical sections *)

Inductive backend_op :=
| OpBeginVerification (piece : Z) (stat : nat -> option file_info)
| OpMarkComplete (piece : Z) (stat : nat -> option file_info) (hint : result storage_error unit) (promote : nat -> result storage_error unit)
| OpForget (pieces : list Z)
| OpRevoked (begin fin : Z) (mask : list byte) (discarded : bool)
| OpRevokeFile (file : nat)
| OpAcceptWrite (file : nat) (before after : option file_info) (off n : Z)
| OpRemember (mask : list byte) (replace : bool)
| OpCapture (eligible : list byte) (probe : prober)
| OpFinish (c : FileCheckpoint) (revision : Z)
| OpRestore (token : RestoreToken) (probe : prober) (checks : result storage_error unit * result storage_error unit) (moved : bool)
| OpReset
| OpGuardFailed
| OpAdvance
| OpClose.

Section Runs.
Context (g : storage_layout).

Definition backend_apply (t : fileTorrentImpl) (op : backend_op) : fileTorrentImpl :=
  match op with
  | OpBeginVerification piece stat =>
      match pieceSignature g stat piece with Some current => BeginVerification_fresh g t piece current | None => t end
  | OpMarkComplete piece stat hint promote => snd (MarkComplete g t piece stat hint promote)
  | OpForget pieces => bump (fold_left forget pieces t)
  | OpRevoked begin fin mask discarded => revoked_locally t begin fin mask discarded
  | OpRevokeFile file => revokeResumeFile_fresh t file
  | OpAcceptWrite file before after off n => acceptFileWrite g t file before after off n
  | OpRemember mask replace => rememberResume t mask replace
  | OpCapture eligible probe => fst (seal_capture g t eligible probe)
  | OpFinish c revision => seal_finish t c revision
  | OpRestore token probe checks moved => snd (restoreCheckpoint g t token probe checks moved)
  | OpReset => bump (clear_evidence t)
  | OpGuardFailed => ioGuard_failed t
  | OpAdvance => bump t
  | OpClose => Close t
  end.

Definition backend_run (ops : list backend_op) (t : fileTorrentImpl) : fileTorrentImpl := fold_left backend_apply ops t.

(** Pieces are marked by the torrent, which only has its own. *)
Definition in_domain (op : backend_op) : Prop :=
  match op with
  | OpBeginVerification piece _ | OpMarkComplete piece _ _ _ => 0 <= piece < sl_NumPieces g
  | _ => True
  end.

Lemma backend_apply_ok t op : layout_ok g -> in_domain op -> evidence_ok g t -> evidence_ok g (backend_apply t op).
Proof.
  intros Hg Hd H. destruct op; cbn in *.
  - case_match eqn:E; [by eapply BeginVerification_ok|done].
  - by apply MarkComplete_ok.
  - by apply bump_ok, forget_all_ok.
  - by apply revoked_locally_ok.
  - by apply invalidate_ok, bump_ok.
  - by apply acceptFileWrite_ok.
  - by apply rememberResume_ok.
  - by apply seal_capture_ok.
  - eapply evidence_ok_ext, (rememberResume_ok g t (nc_Complete c) true), H; done.
  - by apply restoreCheckpoint_ok.
  - by apply bump_ok, clear_evidence_ok.
  - by apply clear_evidence_ok.
  - by apply bump_ok.
  - by apply Close_ok.
Qed.

Lemma opened_ok hooks pending : evidence_ok g (opened hooks pending).
Proof. split; intros; by rewrite ?lookup_empty in *. Qed.

Lemma backend_run_ok ops : layout_ok g -> Forall in_domain ops -> forall t, evidence_ok g t -> evidence_ok g (backend_run ops t).
Proof.
  intros Hg. induction ops as [|op ops IH]; intros Hd t H; [done|]. apply Forall_cons in Hd as [? ?].
  cbn. by apply IH, backend_apply_ok.
Qed.

(** The pieces that refer to a signature, and all pieces of its file. *)
Lemma referring_elem t a p : p ∈ dom (referring t a) <-> a ∈ evidence_of t p.
Proof.
  unfold referring, evidence_of. rewrite elem_of_dom. split.
  - intros [e He]. apply map_lookup_filter_Some in He as [-> He]. done.
  - destruct (fb_fresh t !! p) as [e|] eqn:E; [|intros []%not_elem_of_nil]. intros Ha. exists e.
    by apply map_lookup_filter_Some_2.
Qed.

Lemma file_range_size file : beginPieceIndex g file <= endPieceIndex g file ->
  size (list_to_set (seqZ (beginPieceIndex g file) (endPieceIndex g file - beginPieceIndex g file)) : gset Z)
  = Z.to_nat (endPieceIndex g file - beginPieceIndex g file).
Proof. intros. rewrite size_list_to_set by apply NoDup_seqZ. apply length_seqZ. Qed.

Lemma file_range_ordered file : layout_ok g -> beginPieceIndex g file <= endPieceIndex g file.
Proof.
  intros Hg. pose proof (lo_length _ Hg). pose proof (lo_bound _ Hg). unfold beginPieceIndex, endPieceIndex, max_i64 in *.
  destruct (sl_files g !! file) as [f|] eqn:Hf; [|lia]. pose proof (file_bounds _ Hg _ _ Hf). case_match; [lia|].
  rewrite i64_id by (unfold in_i64; lia). rewrite !Z.quot_div_nonneg by lia. apply Z.div_le_mono; lia.
Qed.

Lemma counter_complete t a s : layout_ok g -> evidence_ok g t -> fb_heap t !! a = Some s -> sg_valid s = true ->
  sg_complete s = endPieceIndex g (sg_file s) - beginPieceIndex g (sg_file s) <->
  forall p, in_file g (sg_file s) p -> a ∈ evidence_of t p.
Proof.
  intros Hg H Hs V. rewrite (ok_count _ _ H _ _ Hs V), <- size_dom.
  pose proof (file_range_ordered (sg_file s) Hg) as Hle. pose proof (file_range_size _ Hle) as Hsize.
  set (R := list_to_set (seqZ _ _) : gset Z) in Hsize.
  assert (forall p, p ∈ R <-> in_file g (sg_file s) p) as HR.
  { intros p. subst R. rewrite elem_of_list_to_set, elem_of_seqZ. unfold in_file. lia. }
  assert (dom (referring t a) ⊆ R) as Hsub.
  { intros p Hp%referring_elem. apply HR. destruct (evidence_nodup g t p H) as [_ Hf].
    rewrite Forall_forall in Hf. destruct (Hf a Hp) as (s' & Hs' & ?). by simplify_eq. }
  split.
  - intros E p Hp%HR. apply referring_elem. assert (dom (referring t a) = R) as ->; [|done].
    apply set_subseteq_size_eq; [done|]. rewrite Hsize. lia.
  - intros Hall. assert (dom (referring t a) = R) as ->; [|lia]. apply set_eq. intros p. split; [apply Hsub|].
    intros Hp%HR. by apply referring_elem, Hall.
Qed.
End Runs.

(** C32: the completion of a file.  After any sequence of the backend's critical
    sections (verification, marking, writes, revocations, seals, restores, resets,
    close), the counter by which the backend decides that a file is complete is
    exact: the test holds if and only if the current signature of the file is
    valid, not announced yet, and every piece of the file has evidence that refers
    to this very signature. *)
Theorem file_counter_is_exact (g : storage_layout) (hooks : bool) (pending : list byte) (ops : list backend_op) (file : nat) :
  layout_ok g -> Forall (in_domain g) ops ->
  let t := backend_run g ops (opened hooks pending) in
  all_counted g t file = true <->
  exists a s, fb_signatures t !! file = Some a /\ fb_heap t !! a = Some s /\ sg_valid s = true /\
    sg_published s = false /\ forall p, in_file g file p -> a ∈ evidence_of t p.
Proof.
  intros Hg Hd t. pose proof (backend_run_ok g ops Hg Hd _ (opened_ok g hooks pending)) as H. fold t in H.
  unfold all_counted, signature_valid, signature_at. split.
  - destruct (fb_signatures t !! file) as [a|] eqn:Ea; [|done]. destruct (ok_signature _ _ H _ _ Ea) as (s & Hs & <-).
    rewrite Hs. intros E. split_bools. exists a, s. split_and!; try done. apply counter_complete; [done..|lia].
  - intros (a & s & Ha & Hs & V & P & Hall). rewrite Ha, Hs, V, P. cbn. destruct (ok_signature _ _ H _ _ Ha) as (s' & Hs' & Hf).
    simplify_eq. apply Z.eqb_eq. by apply (counter_complete g t a s).
Qed.

(** Two files of ten bytes in pieces of eight. *)
Definition demo_layout : storage_layout :=
  mkStorageLayout "aa" (Some "Show") [Some "a.mkv"; Some "b.mkv"] false 8 3 [mkExtent 0 10; mkExtent 10 10] true false.

Lemma demo_layout_ok : layout_ok demo_layout.
Proof. apply v1_layout_ok; by vm_compute. Qed.

(** The mark of a piece whose files can be flushed. *)
Definition marks (piece : Z) (stat : nat -> option file_info) : backend_op := OpMarkComplete piece stat (Ok tt) (fun _ => Ok tt).

Definition demo_stat (file : nat) : option file_info :=
  match file with
  | 0%nat => Some (mkFileInfo "a" 10 100)
  | 1%nat => Some (mkFileInfo "b" 10 200)
  | _ => None
  end.

(** The second file changes between the marks, so the first is not announced. *)
Definition demo_marks : list backend_op := [marks 1 demo_stat; OpRevokeFile 1; marks 0 demo_stat].

Lemma file_counter_is_exact_witness :
  let t := backend_run demo_layout demo_marks (opened true [x00]) in
  all_counted demo_layout t 0 = true /\
  exists a s, fb_signatures t !! 0%nat = Some a /\ fb_heap t !! a = Some s /\ sg_valid s = true /\
    sg_published s = false /\ forall p, in_file demo_layout 0 p -> a ∈ evidence_of t p.
Proof.
  intros t. assert (all_counted demo_layout t 0 = true) as E by (vm_compute; reflexivity). split; [exact E|].
  apply (file_counter_is_exact demo_layout true [x00] demo_marks 0 demo_layout_ok); [|exact E].
  repeat constructor; vm_compute; done.
Defined.
