(* ===== verification/FileSeal.v ===== *)
(** * Seals and restores of the file storage

    [withCheckpoint], [prepareRestore] and [restoreCheckpoint] of
    [storage/checkpoint.go]: which pieces a seal contains and which files it
    flushes, and which claims a restore admits. *)

From stdpp Require Import base gmap list strings.
From Stdlib Require Import ZArith Strings.Byte Lia.
From S2P Require Import Prelude FastResume Segments ResumeStore ResumeSafety FileStorage FileEvidence.

#[local] Open Scope Z_scope.

(** ** Bitmaps *)

Lemma validCheckpointBits_length mask count : validCheckpointBits mask count = true ->
  0 <= count /\ count <= 8 * Z.of_nat (length mask).
Proof.
  unfold validCheckpointBits. intros H. split_bools.
  rewrite Z.quot_div_nonneg in * by lia. pose proof (Z.mul_succ_div_gt (count + 7) 8 ltac:(lia)). lia.
Qed.

Lemma bit_ge mask p : 8 * Z.of_nat (length mask) <= p -> bit mask p = false.
Proof.
  intros H. unfold bit. rewrite (proj2 (lookup_ge_None _ _)); [done|].
  assert (Z.of_nat (length mask) <= p / 8) by (apply Z.div_le_lower_bound; lia). lia.
Qed.

Lemma bit_nil p : bit [] p = false.
Proof. done. Qed.

Lemma zeros_bit mask p : bit (zeros mask) p = false.
Proof. unfold bit, zeros. rewrite list_lookup_fmap. destruct (mask !! _); [apply Z.testbit_0_l|done]. Qed.

Lemma or_into_bit pending : forall mask p, 0 <= p -> length mask = length pending ->
  bit (or_into pending mask) p = bit pending p || bit mask p.
Proof.
  induction pending as [|b pending IH]; intros [|m mask] p Hp Hl; try done. injection Hl as Hl. cbn [or_into].
  rewrite !bit_cons by done. destruct (Z.ltb_spec p 8); [apply byte_or_bit; lia|apply IH; [lia|done]].
Qed.

Lemma or_into_mono pending : forall mask p, 0 <= p -> bit pending p = true -> bit (or_into pending mask) p = true.
Proof.
  induction pending as [|b pending IH]; intros [|m mask] p Hp; try done. cbn [or_into]. rewrite !bit_cons by done.
  destruct (Z.ltb_spec p 8); [rewrite byte_or_bit by lia; by intros ->|apply IH; lia].
Qed.

Lemma or_into_length pending : forall mask, length (or_into pending mask) = length pending.
Proof. induction pending; intros [|m mask]; cbn; auto. Qed.

Lemma and_not_into_bit pending : forall mask p, 0 <= p ->
  bit (and_not_into pending mask) p = bit pending p && negb (bit mask p).
Proof.
  induction pending as [|b pending IH]; intros [|m mask] p Hp; cbn [and_not_into]; rewrite ?bit_nil, ?andb_true_r; try done.
  rewrite !bit_cons by done. destruct (Z.ltb_spec p 8); [apply and_not_bit; lia|apply IH; lia].
Qed.

Lemma and_not_into_length pending : forall mask, length (and_not_into pending mask) = length pending.
Proof. induction pending; intros [|m mask]; cbn; auto. Qed.

Lemma set_bit_spec mask i : 0 <= i -> length (set_bit mask i) = length mask /\
  forall p, 0 <= p -> bit (set_bit mask i) p = bit mask p || (p =? i) && (i <? 8 * Z.of_nat (length mask)).
Proof.
  intros Hi. unfold set_bit. rewrite Z.quot_div_nonneg, Z.rem_mod_nonneg by lia.
  pose proof (Z.mod_pos_bound i 8 ltac:(lia)). pose proof (Z.div_mod i 8 ltac:(lia)).
  destruct (mask !! Z.to_nat (i / 8)) as [b|] eqn:Hb.
  - split; [apply length_insert|]. intros p Hp. pose proof (lookup_lt_Some _ _ _ Hb).
    assert ((i <? 8 * Z.of_nat (length mask)) = true) as -> by (apply Z.ltb_lt; lia). rewrite andb_true_r.
    pose proof (Z.mod_pos_bound p 8 ltac:(lia)). pose proof (Z.div_mod p 8 ltac:(lia)). unfold bit.
    destruct (decide (p / 8 = i / 8)) as [Heq|Hne].
    + rewrite Heq, list_lookup_insert_eq, Hb by lia. rewrite byte_or_bit, mask_bit by lia. f_equal.
      destruct (Z.eqb_spec (p mod 8) (i mod 8)), (Z.eqb_spec p i); congruence || lia.
    + rewrite list_lookup_insert_ne by lia. destruct (Z.eqb_spec p i); [by subst|]. by rewrite orb_false_r.
  - split; [done|]. intros p Hp. apply lookup_ge_None in Hb.
    assert ((i <? 8 * Z.of_nat (length mask)) = false) as -> by (apply Z.ltb_ge; lia). by rewrite andb_false_r, orb_false_r.
Qed.

Lemma fold_set_bit_spec pending l : forall mask, length mask = length pending -> Forall (fun i => 0 <= i) l ->
  let mask' := fold_left (fun mask i => if bit pending i then set_bit mask i else mask) l mask in
  length mask' = length pending /\
  forall p, 0 <= p -> bit mask' p = bit mask p || bool_decide (p ∈ l) && bit pending p.
Proof.
  induction l as [|i l IH]; intros mask Hl Hf; cbn.
  { split; [done|]. intros p Hp. by rewrite orb_false_r. }
  apply Forall_cons in Hf as [Hi Hf]. set (mask1 := if bit pending i then _ else _).
  assert (length mask1 = length pending /\ forall p, 0 <= p -> bit mask1 p = bit mask p || (p =? i) && bit pending p) as [Hl1 Hb1].
  { subst mask1. destruct (bit pending i) eqn:Hb.
    - destruct (set_bit_spec mask i Hi) as [-> Hs]. split; [done|]. intros p Hp. rewrite Hs by done. f_equal.
      destruct (Z.eqb_spec p i) as [->|]; [|done]. rewrite Hb. cbn. apply Z.ltb_lt.
      destruct (Z.lt_ge_cases i (8 * Z.of_nat (length mask))) as [|Hge]; [done|]. rewrite bit_ge in Hb by lia. done.
    - split; [done|]. intros p Hp. destruct (Z.eqb_spec p i) as [->|]; [by rewrite Hb, orb_false_r|by rewrite orb_false_r]. }
  destruct (IH mask1 Hl1 Hf) as [Hl' Hb']. split; [done|]. intros p Hp. rewrite Hb', Hb1, <- orb_assoc by done. f_equal.
  destruct (Z.eqb_spec p i) as [->|Hne].
  - rewrite (bool_decide_true (i ∈ i :: l)) by (by apply elem_of_cons; left). by destruct (bit pending i), (bool_decide (i ∈ l)).
  - cbn. f_equal. apply bool_decide_ext. rewrite elem_of_cons. naive_solver.
Qed.

Lemma clearCheckpointFile_eq mask f pl : pl ≠ 0 ->
  clearCheckpointFile mask f pl = clearFilePieces mask pl (cf_Offset f) (cf_Length f).
Proof. intros. unfold clearCheckpointFile, clearFilePieces. case_match; [done|]. by destruct (Z.eqb_spec pl 0). Qed.

Lemma clear_unsealable_spec t count : forall piece mask, 0 <= piece ->
  piece + Z.of_nat count <= 8 * Z.of_nat (length mask) ->
  exists mask', clear_unsealable t count piece mask = Some mask' /\ length mask' = length mask /\
    forall p, 0 <= p -> bit mask' p = bit mask p && ((p <? piece) || (piece + Z.of_nat count <=? p) || sealable t p).
Proof.
  induction count as [|count IH]; intros piece mask Hp Hend; cbn [clear_unsealable].
  - exists mask. split_and!; [done..|]. intros p ?. destruct (Z.ltb_spec p piece), (Z.leb_spec (piece + Z.of_nat 0) p); cbn;
      rewrite ?andb_true_r; done || lia.
  - assert (exists mask1, (if sealable t piece then Some mask else clear_bit mask piece) = Some mask1 /\
              length mask1 = length mask /\ forall p, 0 <= p -> bit mask1 p = bit mask p && (negb (p =? piece) || sealable t p))
      as (mask1 & -> & Hl & Hb).
    { destruct (sealable t piece) eqn:E.
      - exists mask. split_and!; [done..|]. intros p ?. destruct (Z.eqb_spec p piece) as [->|]; cbn; by rewrite ?E, andb_true_r.
      - destruct (clear_bit_spec mask piece) as (mask1 & -> & Hl & Hb); [lia|]. exists mask1. split_and!; [done..|].
        intros p ?. rewrite Hb by done. destruct (Z.eqb_spec p piece) as [->|]; cbn; by rewrite ?E. }
    destruct (IH (piece + 1) mask1) as (mask2 & -> & Hl2 & Hb2); [lia|lia|]. exists mask2. split_and!; [done|lia|].
    intros p ?. rewrite Hb2, Hb, <- andb_assoc by done. f_equal.
    destruct (Z.eqb_spec p piece), (Z.ltb_spec p piece), (Z.leb_spec (piece + Z.of_nat (S count)) p),
      (Z.ltb_spec p (piece + 1)), (Z.leb_spec (piece + 1 + Z.of_nat count) p); cbn; try lia;
      by destruct (sealable t p).
Qed.

(** The pieces of a file, as the code enumerates them. *)
Definition piece_of_file (pl : Z) (f : CheckpointFile) (p : Z) : Prop :=
  0 < cf_Length f /\ in_piece pl (cf_Offset f) (cf_Length f) p.

Section Files.
Context (g : storage_layout) (Hg : layout_ok g).
Abbreviation pl := (sl_PieceLength g).

(** A file of a catalog lies inside the pieces. *)
Definition file_ok (f : CheckpointFile) : Prop :=
  0 <= cf_Offset f /\ 0 <= cf_Length f /\ cf_Offset f + cf_Length f <= extent_end (sl_files g).

Lemma geometry_files c : geometry g c -> Forall file_ok (nc_Files c).
Proof using Hg.
  intros [_ _ _ Hf _]. apply Forall_lookup. intros i f Hi.
  assert (sl_files g !! i = Some (mkExtent (cf_Offset f) (cf_Length f))) as Hs by (by rewrite <- Hf, list_lookup_fmap, Hi).
  pose proof (file_bounds g Hg i _ Hs). done.
Qed.

Lemma file_ok_domain c f p : geometry g c -> file_ok f -> in_piece pl (cf_Offset f) (cf_Length f) p ->
  0 <= p < sl_NumPieces g.
Proof using Hg.
  intros [_ _ _ _ Hcov] (? & ? & ?) (b & Hb & <-). pose proof (lo_length _ Hg). split; [apply Z.div_pos; lia|].
  apply Z.div_lt_upper_bound; lia.
Qed.

Lemma clear_file_spec c f mask : geometry g c -> file_ok f -> sl_NumPieces g <= 8 * Z.of_nat (length mask) ->
  exists mask', clearCheckpointFile mask f pl = Some mask' /\ length mask' = length mask /\
    forall p, 0 <= p -> bit mask' p = true <-> bit mask p = true /\ ~ in_piece pl (cf_Offset f) (cf_Length f) p.
Proof using Hg.
  intros Hc Hf Hm. pose proof (lo_length _ Hg). pose proof (lo_bound _ Hg). unfold max_i64 in *. rewrite clearCheckpointFile_eq by lia.
  pose proof Hf as (? & ? & ?). apply clearFilePieces_spec; try lia. intros p Hp%(file_ok_domain c); [lia|done..].
Qed.

(** A loop that clears the files that fail a test. *)
Lemma clear_partial_spec c files : geometry g c -> Forall file_ok files -> forall mask,
  sl_NumPieces g <= 8 * Z.of_nat (length mask) ->
  exists mask', clear_partial files pl mask = Some mask' /\ length mask' = length mask /\
    forall p, 0 <= p -> bit mask' p = true <->
      bit mask p = true /\ Forall (fun f => in_piece pl (cf_Offset f) (cf_Length f) p -> whole f = true) files.
Proof using Hg.
  intros Hc. induction 1 as [|f files Hf Hfs IH]; intros mask Hm; cbn [clear_partial].
  { exists mask. split_and!; [done..|]. intros. split; [|naive_solver]. by split; [|constructor]. }
  destruct (whole f) eqn:W.
  - destruct (IH mask Hm) as (mask' & -> & Hl & Hb). exists mask'. split_and!; [done..|]. intros p Hp. rewrite Hb, Forall_cons by done.
    clear -W. tauto.
  - destruct (clear_file_spec c f mask Hc Hf Hm) as (mask1 & -> & Hl1 & Hb1). destruct (IH mask1 ltac:(lia)) as (mask' & -> & Hl & Hb).
    exists mask'. split_and!; [done|lia|]. intros p Hp. rewrite Hb, Hb1, Forall_cons by done.
    clear -W. rewrite W. intuition congruence.
Qed.

Lemma drop_unsupported_spec c current : geometry g c -> Forall file_ok current -> forall claims mask, length claims = length current ->
  sl_NumPieces g <= 8 * Z.of_nat (length mask) ->
  exists mask', drop_unsupported current claims pl mask = Some mask' /\ length mask' = length mask /\
    forall p, 0 <= p -> bit mask' p = true <->
      bit mask p = true /\
      Forall2 (fun f claim => in_piece pl (cf_Offset f) (cf_Length f) p -> whole f = true /\ f = claim) current claims.
Proof using Hg.
  intros Hc. induction 1 as [|f current Hf Hfs IH]; intros [|claim claims] mask Hlen Hm; try done; cbn [drop_unsupported].
  { exists mask. split_and!; [done..|]. intros. split; [|naive_solver]. by split; [|constructor]. }
  unfold unsupported. destruct (negb (whole f) || negb (bool_decide (f = claim))) eqn:U.
  - destruct (clear_file_spec c f mask Hc Hf Hm) as (mask1 & -> & Hl1 & Hb1).
    destruct (IH claims mask1 ltac:(cbn in Hlen; lia) ltac:(lia)) as (mask' & -> & Hl & Hb).
    exists mask'. split_and!; [done|lia|]. intros p Hp. rewrite Hb, Hb1, Forall2_cons by done.
    assert (~ (whole f = true /\ f = claim)) as Hno.
    { intros [W ->]. rewrite W, bool_decide_true in U by done. done. } clear -Hno. tauto.
  - apply orb_false_iff in U as [W%negb_false_iff E%negb_false_iff%bool_decide_eq_true].
    destruct (IH claims mask ltac:(cbn in Hlen; lia) Hm) as (mask' & -> & Hl & Hb). exists mask'. split_and!; [done..|].
    intros p Hp. rewrite Hb, Forall2_cons by done. clear -W E. tauto.
Qed.

(** ** The seal *)

(** What a file contributes to a piece, in the words of the layout. *)
Definition contributes (f : CheckpointFile) (p : Z) : Prop := in_piece pl (cf_Offset f) (cf_Length f) p.

Lemma seal_capture_spec t eligible probe : fb_closed t = false ->
  validCheckpointBits eligible (sl_NumPieces g) = true ->
  match seal_capture g t eligible probe with
  | (t', Err e) => checkpointEvidence g probe = Err e /\ t' = t
  | (t', Ok c) => exists infos, checkpointEvidence g probe = Ok (with_complete c [], infos) /\ t' = drop_stale g t 0 infos /\
      geometry g c /\ length (nc_Complete c) = length eligible /\
      forall p, 0 <= p -> bit (nc_Complete c) p = true <->
        bit eligible p = true /\ (p < sl_NumPieces g -> sealable t' p = true) /\
        Forall (fun f => contributes f p -> whole f = true) (nc_Files c)
  end.
Proof using Hg.
  intros Ho Hv. unfold seal_capture. rewrite Hv, Ho. cbn [negb].
  destruct (checkpointEvidence g probe) as [[c infos]|e] eqn:E; [|done].
  destruct (checkpointEvidence_inv g Hg probe c infos E) as (Hge & _ & Hc & _).
  apply validCheckpointBits_length in Hv as [HN Hlen]. set (t' := drop_stale g t 0 infos).
  pose proof (geometry_files c Hge) as Hfs. rewrite (ge_count _ _ Hge), (ge_length _ _ Hge).
  destruct (clear_unsealable_spec t' (Z.to_nat (sl_NumPieces g)) 0 eligible) as (m1 & -> & Hl1 & Hb1); [lia..|].
  destruct (clear_partial_spec c (nc_Files c) Hge Hfs m1 ltac:(lia)) as (m2 & -> & Hl2 & Hb2).
  exists infos. split; [f_equal; f_equal; destruct c; cbn in *; by subst|]. split; [done|].
  split; [by destruct Hge; split|]. split; [cbn; lia|]. intros p Hp. cbn. rewrite Hb2, Hb1, andb_true_iff, !orb_true_iff by done.
  rewrite Z2Nat.id by lia. destruct (Z.ltb_spec p 0), (Z.leb_spec (0 + sl_NumPieces g) p); naive_solver lia.
Qed.

(** Every file with a sealed piece is flushed. *)
Lemma sealed_file_flushed c i f p : geometry g c -> nc_Files c !! i = Some f -> contributes f p -> 0 < cf_Length f ->
  bit (nc_Complete c) p = true -> i ∈ seal_targets c.
Proof using Hg.
  intros Hge Hf Hp Hlen Hb. pose proof (lo_length _ Hg). pose proof (lo_bound _ Hg). unfold max_i64 in *.
  pose proof (geometry_files c Hge) as Hfs. pose proof (Forall_lookup_1 _ _ _ _ Hfs Hf) as (? & ? & ?).
  unfold seal_targets. apply list_elem_of_fmap. exists (i, f). split; [done|]. apply list_elem_of_filter. split.
  - unfold checkpointFileWanted. destruct (Z.eqb_spec (cf_Length f) 0); [lia|]. rewrite (ge_length _ _ Hge).
    apply existsb_exists. exists p. split; [|done]. apply list_elem_of_In, elem_of_seqZ.
    rewrite i64_id by (unfold in_i64; lia). rewrite !Z.quot_div_nonneg by lia.
    apply in_piece_spec in Hp; [lia..|]. lia.
  - apply list_elem_of_lookup. exists i. by rewrite list_lookup_imap, Hf.
Qed.
End Files.

(** ** The restore *)

(** Whether each signature of the heap is valid; the counters do not matter. *)
Definition validity (t : fileTorrentImpl) : gmap nat bool := sg_valid <$> fb_heap t.

Lemma alter_all_validity f l : (forall s, sg_valid (f s) = sg_valid s) -> forall h : gmap nat verifiedFileSignature,
  sg_valid <$> alter_all f l h = sg_valid <$> h.
Proof.
  intros Hf. unfold alter_all. induction l as [|a l IH]; intros h; [done|]. cbn. rewrite IH. apply map_eq. intros b.
  rewrite !lookup_fmap. destruct (decide (a = b)) as [->|]; [|by rewrite lookup_alter_ne].
  rewrite lookup_alter_eq. destruct (h !! b); cbn; by rewrite ?Hf.
Qed.

Lemma release_valid s : sg_valid (release_signature s) = sg_valid s.
Proof. unfold release_signature. by destruct (sg_valid s) eqn:E. Qed.

Lemma valid_at_validity t a : valid_at t a = default true (validity t !! a).
Proof. unfold valid_at, validity. rewrite lookup_fmap. by destruct (fb_heap t !! a). Qed.

Lemma markFreshLocked_spec t p l restored : let t' := markFreshLocked t p l restored in
  fb_signatures t' = fb_signatures t /\ validity t' = validity t /\
  fb_fresh t' = <[p := mkPieceEvidence l restored]> (fb_fresh t).
Proof.
  unfold markFreshLocked. case_match; [by split_and!|]. split; [done|]. split.
  - unfold validity. cbn. rewrite alter_all_validity by done. apply alter_all_validity, release_valid.
  - cbn. apply insert_delete_eq.
Qed.

Lemma cached_ext t t' p : validity t' = validity t -> fb_fresh t' !! p = fb_fresh t !! p ->
  cachedCompletionLocked t' p = cachedCompletionLocked t p.
Proof.
  intros Hv Hf. unfold cachedCompletionLocked. rewrite Hf. case_match; [|done].
  induction (pe_infos p0) as [|a l IH]; [done|]. cbn. by rewrite IH, !valid_at_validity, Hv.
Qed.

(** A file with a valid signature. *)
Definition file_valid (t : fileTorrentImpl) (file : nat) : Prop :=
  exists a, fb_signatures t !! file = Some a /\ validity t !! a = Some true.

Lemma file_valid_ext t t' file : fb_signatures t' = fb_signatures t -> validity t' = validity t ->
  file_valid t file -> file_valid t' file.
Proof. intros Hs Hv (a & ? & ?). exists a. by rewrite Hs, Hv. Qed.

Lemma import_pieces_spec g c pieces : forall t,
  (forall p file, p ∈ pieces -> file ∈ claimed_files g c p -> file_valid t file) ->
  exists t', fold_left (import_piece g c) pieces (Some t) = Some t' /\ fb_closed t' = fb_closed t /\
    forall p, cachedCompletionLocked t' p = bool_decide (p ∈ pieces) || cachedCompletionLocked t p.
Proof.
  induction pieces as [|q pieces IH]; intros t Hv; [by exists t|]. cbn [fold_left import_piece].
  destruct (mapM (fun file => fb_signatures t !! file) (claimed_files g c q)) as [l|] eqn:Hm; cycle 1.
  { exfalso. assert (is_Some (mapM (fun file => fb_signatures t !! file) (claimed_files g c q))) as [? ?]; [|congruence].
    apply mapM_is_Some_2, Forall_forall. intros file Hf. destruct (Hv q file) as (a & Ha & _); [by apply elem_of_cons; left|done|by exists a]. }
  destruct (markFreshLocked_spec t q l true) as (Hs & Hval & Hf). set (t1 := markFreshLocked t q l true) in *.
  destruct (IH t1) as (t' & E & Ec & Hp).
  { intros p file Hp Hfile. eapply file_valid_ext, Hv; try done. by apply elem_of_cons; right. }
  exists t'. split; [done|]. split; [rewrite Ec; subst t1; unfold markFreshLocked; by case_match|]. intros p. rewrite Hp.
  assert (cachedCompletionLocked t1 q = true) as Hq.
  { unfold cachedCompletionLocked. rewrite Hf, lookup_insert_eq. apply forallb_forall. intros a Ha%list_elem_of_In. cbn in Ha.
    apply mapM_Some in Hm. apply list_elem_of_lookup in Ha as (k & Hk).
    destruct (Forall2_lookup_r _ _ _ _ _ Hm Hk) as (file & Hk' & Hsig). rewrite valid_at_validity, Hval.
    destruct (Hv q file) as (a' & Ha' & V); [by apply elem_of_cons; left|by eapply list_elem_of_lookup_2|]. simplify_eq. by rewrite V. }
  destruct (decide (p = q)) as [->|Hne].
  - rewrite Hq, orb_true_r, bool_decide_true by (by apply elem_of_cons; left). done.
  - rewrite (cached_ext t t1) by (done || by rewrite Hf, lookup_insert_ne). f_equal.
    apply bool_decide_ext. rewrite elem_of_cons. clear -Hne. tauto.
Qed.

(** *** Signatures *)

Section PartFiles.
Context (g : storage_layout).

Lemma replace_signature_other t file st other : evidence_ok g t -> other ≠ file -> file_valid t other ->
  file_valid (replace_signature t file st) other.
Proof.
  intros H Hne (a & Ha & V). exists a. unfold replace_signature, validity in *. cbn. rewrite lookup_insert_ne by done.
  split; [done|]. rewrite lookup_fmap in *. destruct (ok_signature _ _ H _ _ Ha) as (s & Hs & Hf).
  pose proof (ok_next _ _ H _ _ Hs). rewrite lookup_insert_ne by lia. case_match eqn:Eb; [|done].
  rewrite lookup_alter_ne; [done|]. intros ->. destruct (ok_signature _ _ H _ _ Eb) as (s' & Hs' & Hf'). simplify_eq.
Qed.

Lemma import_signatures_other infos : forall t k other, evidence_ok g t -> (other < k)%nat -> file_valid t other ->
  file_valid (import_signatures t k infos) other.
Proof.
  induction infos as [|info infos IH]; intros t k other H Hlt V; [done|]. cbn. repeat case_match; apply IH; try done; try lia.
  - by apply replace_signature_ok.
  - by apply replace_signature_other; [|lia|].
Qed.

Lemma import_signatures_valid infos : forall t k j st, evidence_ok g t -> infos !! j = Some (Some st) ->
  file_valid (import_signatures t k infos) (k + j).
Proof.
  induction infos as [|info infos IH]; intros t k j st H Hj; [done|]. cbn [import_signatures].
  set (t1 := match info with Some _ => _ | None => _ end).
  assert (evidence_ok g t1) as H1 by (subst t1; repeat case_match; [done|by apply replace_signature_ok|done]).
  destruct j as [|j]; cbn in Hj; cycle 1.
  { rewrite <- plus_n_Sm. by apply (IH t1 (S k) j st). }
  simplify_eq. rewrite Nat.add_0_r. apply import_signatures_other; [done|lia|]. subst t1. case_match eqn:V.
  - unfold signature_valid, signature_at in V. destruct (fb_signatures t !! k) as [a|] eqn:Ha; [|done].
    destruct (fb_heap t !! a) as [s|] eqn:Hs; [|done]. split_bools. exists a. split; [done|]. unfold validity.
    by rewrite lookup_fmap, Hs; cbn; f_equal.
  - exists (fb_next t). unfold validity. cbn. by rewrite lookup_insert_eq, lookup_fmap, lookup_insert_eq.
Qed.

Lemma import_signatures_fresh infos : forall t k, fb_fresh (import_signatures t k infos) = fb_fresh t /\
  fb_closed (import_signatures t k infos) = fb_closed t.
Proof. induction infos as [|info infos IH]; intros t k; [done|]. cbn. by repeat case_match; rewrite (proj1 (IH _ _)), (proj2 (IH _ _)). Qed.

Lemma import_empty_fresh files t : fb_fresh (import_empty t files) = fb_fresh t /\ fb_closed (import_empty t files) = fb_closed t.
Proof.
  unfold import_empty. generalize (imap pair files). intros l. revert t. induction l as [|[i f] l IH]; intros t; [done|].
  cbn. rewrite !(proj1 (IH _)), !(proj2 (IH _)). by case_match.
Qed.

Lemma rememberResume_fresh t mask replace : fb_fresh (rememberResume t mask replace) = fb_fresh t /\
  fb_closed (rememberResume t mask replace) = fb_closed t.
Proof. unfold rememberResume. by repeat case_match. Qed.

(** *** What a restore leaves of the evidence *)

Lemma bump_fresh t : fb_fresh (bump t) = fb_fresh t.
Proof. done. Qed.

Lemma bump_closed t : fb_closed (bump t) = fb_closed t.
Proof. done. Qed.

Lemma forget_fresh t p : fb_fresh t = ∅ -> fb_fresh (forget t p) = ∅ /\ fb_closed (forget t p) = fb_closed t.
Proof. intros H. cbn. by rewrite H, delete_empty. Qed.

Lemma forget_masked_fresh mask l : forall t, fb_fresh t = ∅ ->
  let t' := fold_left (fun t i => if bit mask i then forget t i else t) l t in
  fb_fresh t' = ∅ /\ fb_closed t' = fb_closed t.
Proof.
  induction l as [|i l IH]; intros t H; [done|]. cbn. case_match; [|by apply IH].
  destruct (forget_fresh t i H) as [Hf <-]. by apply IH.
Qed.

(** A backend that has not verified anything yet. *)
Definition unverified (t : fileTorrentImpl) : Prop := evidence_ok g t /\ fb_fresh t = ∅ /\ fb_closed t = false.

Section Hooked.
Context {W : Type} (Revoke : W -> list byte -> result storage_error bool * W).

Lemma revokeResume_unverified w t begin fin r w' t' : revokeResume Revoke w t begin fin = (r, w', t') ->
  unverified t -> unverified t'.
Proof.
  unfold revokeResume. intros E (H & Hf & Hc). case_match; [|by simplify_eq].
  destruct (Revoke w l) as [[discarded|] w1]; simplify_eq; [|done]. unfold unverified, revoked_locally.
  split; [by apply revoked_locally_ok|].
  rewrite bump_fresh, bump_closed.
  match goal with |- fb_fresh (fold_left _ ?range ?t0) = _ /\ _ =>
    destruct (forget_masked_fresh l range t0 Hf) as [-> ->] end. done.
Qed.

Lemma revokeResumeFile_unverified w t file r w' t' : revokeResumeFile g Revoke w t file = (r, w', t') ->
  unverified t -> unverified t'.
Proof.
  unfold revokeResumeFile. intros E (H & Hf & Hc). destruct (file_pieces g file) as [[begin fin]|]; [|by simplify_eq].
  eapply revokeResume_unverified; [exact E|]. unfold revokeResumeFile_fresh, invalidate_signature.
  split; [by apply invalidate_ok, bump_ok|]. by case_match.
Qed.

Lemma revoke_unsupported_unverified current : forall claims w t file r w' t',
  revoke_unsupported g Revoke w t file current claims = (r, w', t') -> unverified t -> unverified t'.
Proof.
  induction current as [|f current IH]; intros [|claim claims] w t file r w' t' E H; cbn in E; simplify_eq; try done.
  case_match; [|by eapply IH]. destruct (revokeResumeFile g Revoke w t file) as [[[[]|e] w1] t1] eqn:Er; simplify_eq.
  - eapply IH; [done|]. by eapply revokeResumeFile_unverified.
  - by eapply revokeResumeFile_unverified.
Qed.
End Hooked.
End PartFiles.

Section Restore.
Context (g : storage_layout) (Hg : layout_ok g).
Abbreviation pl := (sl_PieceLength g).

(** What a token of [prepareRestore] carries. *)
Record proof_of (claims : FileCheckpoint) (probe : prober) (token : RestoreToken) : Prop := mkProofOf {
  po_evidence : checkpointEvidence g probe = Ok (with_complete (rt_proof token) [], rt_infos token);
  po_catalog : sameCheckpointCatalog claims (rt_proof token) = true;
  po_bits : validCheckpointBits (nc_Complete claims) (sl_NumPieces g) = true;
  po_length : length (nc_Complete (rt_proof token)) = length (nc_Complete claims);
  po_complete : forall p, 0 <= p -> bit (nc_Complete (rt_proof token)) p = true <->
    bit (nc_Complete claims) p = true /\
    Forall2 (fun f claim => in_piece pl (cf_Offset f) (cf_Length f) p -> whole f = true /\ f = claim)
            (nc_Files (rt_proof token)) (nc_Files claims);
  po_supplied : checkpointContributions g (rt_proof token) (rt_infos token) = true;
}.

Lemma prepareRestore_inv {W} (Revoke : W -> list byte -> result storage_error bool * W) w t claims probe check token w' t' :
  prepareRestore g Revoke w t claims probe check = (Ok token, w', t') -> unverified g t ->
  proof_of claims probe token /\ unverified g t' /\ fb_epoch t' = rt_epoch token.
Proof using Hg.
  unfold prepareRestore. do 2 (case_match; [done|]). destruct check; [|done].
  destruct (checkpointEvidence g probe) as [[current infos]|] eqn:E; [|done]. case_match eqn:Hs; [done|].
  apply orb_false_iff in Hs as [Hcat%negb_false_iff Hv%negb_false_iff].
  destruct (revoke_unsupported g Revoke w t 0 (nc_Files current) (nc_Files claims)) as [[[[]|] w1] t1] eqn:Er; [|done].
  destruct (restore_proof g claims current infos) as [proof|] eqn:Ep; [|done]. intros. simplify_eq.
  apply (revoke_unsupported_unverified g) in Er; [|done].
  destruct (checkpointEvidence_inv g Hg probe current infos E) as (Hge & Hli & Hc & _). rewrite (ge_count _ _ Hge) in Hv.
  pose proof (validCheckpointBits_length _ _ Hv) as [HN Hlen]. unfold restore_proof in Ep. rewrite (ge_length _ _ Hge) in Ep.
  assert (length (nc_Files claims) = length (nc_Files current)) as Hl by (unfold sameCheckpointCatalog in Hcat; by split_bools).
  destruct (drop_unsupported_spec g Hg current (nc_Files current) Hge (geometry_files g Hg current Hge) (nc_Files claims)
    (nc_Complete claims) Hl ltac:(lia)) as (mask & Em & Hml & Hmb). rewrite Em in Ep.
  case_match; [done|]. case_match eqn:Hsup; [done|]. apply negb_false_iff in Hsup. simplify_eq. split; [|done].
  split; try done. cbn. rewrite E. by destruct current; cbn in *; subst.
Qed.

Lemma whole_spec info offset length path : whole (mkCheckpointFile path offset length (file_evidence info)) = true <->
  exists st, info = Some st /\ length <= fi_bytes st.
Proof using Type.
  unfold whole. cbn. destruct info as [st|]; cbn; [|naive_solver]. rewrite negb_true_iff, Z.ltb_ge. naive_solver.
Qed.

Lemma same_catalog_lookup a b i fa : sameCheckpointCatalog a b = true -> nc_Files a !! i = Some fa ->
  exists fb, nc_Files b !! i = Some fb /\ cf_Path fa = cf_Path fb /\ cf_Offset fa = cf_Offset fb /\ cf_Length fa = cf_Length fb.
Proof using Type.
  unfold sameCheckpointCatalog. intros H Hi. apply andb_true_iff in H as [[_ Hl%Nat.eqb_eq]%andb_true_iff H].
  destruct (lookup_lt_is_Some_2 (nc_Files b) i) as [fb Hfb]; [rewrite <- Hl; by eapply lookup_lt_Some|].
  rewrite forallb_forall in H. specialize (H (fa, fb)). exists fb. split; [done|].
  assert (same_entry fa fb = true) as He.
  { apply H, list_elem_of_In, list_elem_of_lookup. exists i. apply lookup_zip_with_Some. eauto. }
  unfold same_entry in He. split_bools. split_and!; try done; lia.
Qed.

(** The file that a claim is about is still there, unchanged and whole. *)
Definition borne_out (probe : prober) (i : nat) (claim : CheckpointFile) : Prop :=
  exists st, probe i = Ok (Some st) /\ file_evidence (Some st) = cf_Evidence claim /\ cf_Length claim <= fi_bytes st.

Lemma proof_supported claims probe token p : proof_of claims probe token -> 0 <= p ->
  bit (nc_Complete (rt_proof token)) p = true <->
  bit (nc_Complete claims) p = true /\
  forall i claim, nc_Files claims !! i = Some claim -> in_piece pl (cf_Offset claim) (cf_Length claim) p ->
    borne_out probe i claim.
Proof using Hg.
  intros [He Hcat _ _ Hb _] Hp. rewrite Hb by done.
  destruct (checkpointEvidence_inv g Hg _ _ _ He) as (_ & _ & _ & Hev). cbn in Hev.
  assert (length (nc_Files claims) = length (nc_Files (rt_proof token))) as Hl by (unfold sameCheckpointCatalog in Hcat; by split_bools).
  assert (forall i claim, nc_Files claims !! i = Some claim -> exists f, nc_Files (rt_proof token) !! i = Some f /\
    cf_Offset f = cf_Offset claim /\ cf_Length f = cf_Length claim /\ (whole f = true /\ f = claim <-> borne_out probe i claim)) as Hk.
  { intros i claim Hi. destruct (same_catalog_lookup _ _ _ _ Hcat Hi) as (f & Hf & HP & HO & HL). exists f.
    split; [done|]. split; [done|]. split; [done|]. destruct (Hev i f Hf) as (info & _ & Hpr & Hfe).
    destruct f as [path o l ev], claim as [path' o' l' ev']; cbn in *; subst. rewrite whole_spec. unfold borne_out. cbn. split.
    - intros [(st & -> & ?) [= Hev']]. by exists st.
    - intros (st & Hst & <- & ?). assert (info = Some st) as -> by congruence. split; [by exists st|done]. }
  apply and_iff_compat_l. split.
  - intros H2 i claim Hi Hin. destruct (Hk i claim Hi) as (f & Hf & HO & HL & Hw). apply Hw.
    eapply Forall2_lookup_lr in H2; [|done|done]. apply H2. by rewrite HO, HL.
  - intros H. apply Forall2_same_length_lookup_2; [done|]. intros i f claim Hf Hi Hin.
    destruct (Hk i claim Hi) as (f' & Hf' & HO & HL & Hw). simplify_eq. apply Hw, (H i); [done|]. by rewrite <- HO, <- HL.
Qed.

(** The claimed files of every claimed piece have an info. *)
Lemma contributions_supplied c infos p file : checkpointContributions g c infos = true -> p ∈ claimed_pieces c ->
  file ∈ claimed_files g c p -> exists st, infos !! file = Some (Some st).
Proof using Type.
  unfold checkpointContributions. rewrite forallb_forall. intros H Hp%list_elem_of_In Hf. apply H in Hp.
  apply andb_true_iff in Hp as [Hp _]. rewrite forallb_forall in Hp. apply list_elem_of_In, Hp in Hf. unfold supplied in Hf.
  destruct (infos !! file) as [[st|]|]; [by exists st|done..].
Qed.

Lemma cached_bumped t sealed p : cachedCompletion ((bump t) <| fb_sealed := sealed |>) p = cachedCompletion t p.
Proof using Type. done. Qed.

(** The import itself: never a panic, and exactly the pieces of the proof. *)
Lemma restoreCheckpoint_spec t token probe checks moved r t' : unverified g t ->
  checkpointContributions g (rt_proof token) (rt_infos token) = true ->
  restoreCheckpoint g t token probe checks moved = (r, t') ->
  (r = Err ErrPanic -> checkpointEvidence g probe = Err ErrPanic \/ fst checks = Err ErrPanic \/ snd checks = Err ErrPanic) /\
  (r = Ok tt -> (exists infos current, checkpointEvidence g probe = Ok (current, infos) /\ nc_Files current = nc_Files (rt_proof token)) /\
    fb_closed t' = false /\ forall p, cachedCompletion t' p = bool_decide (p ∈ claimed_pieces (rt_proof token))).
Proof using Type.
  intros (H & Hf & Hc) Hsup. unfold restoreCheckpoint. rewrite Hc. case_match; [intros; by simplify_eq|].
  destruct (fst checks) as [|e] eqn:Ek; [|intros; simplify_eq; split; [by intros [= ->]; right; left|done]].
  destruct (checkpointEvidence g probe) as [[current infos]|e] eqn:Ev;
    [|intros; simplify_eq; split; [by intros [= ->]; left|done]].
  case_match eqn:Hs; [intros; by simplify_eq|].
  apply orb_false_iff in Hs as [[_ Hfiles%negb_false_iff%bool_decide_eq_true]%orb_false_iff _].
  destruct (snd checks) as [|e] eqn:Ek2; [|intros; simplify_eq; split; [by intros [= ->]; right; right|done]].
  case_match; [intros; by simplify_eq|].
  set (t0 := rememberResume t (nc_Complete (rt_proof token)) false). set (imported := import_signatures _ _ _).
  assert (evidence_ok g (import_empty t0 (nc_Files current))) as Ho by (by apply import_empty_ok, rememberResume_ok).
  destruct (import_pieces_spec g (rt_proof token) (claimed_pieces (rt_proof token)) imported) as (t1 & -> & Hc1 & Hcache).
  { intros p file Hp Hfile. destruct (contributions_supplied _ _ _ _ Hsup Hp Hfile) as (st & Hst).
    by apply (import_signatures_valid g _ _ 0 file st). }
  intros. simplify_eq. split; [done|]. intros _. split; [eauto|].
  assert (fb_fresh imported = ∅ /\ fb_closed imported = false) as [Hfi Hci].
  { subst imported t0. rewrite (proj1 (import_signatures_fresh _ _ _)), (proj2 (import_signatures_fresh _ _ _)).
    rewrite (proj1 (import_empty_fresh _ _)), (proj2 (import_empty_fresh _ _)).
    by rewrite (proj1 (rememberResume_fresh _ _ _)), (proj2 (rememberResume_fresh _ _ _)). }
  split; [cbn; congruence|]. intros p. rewrite cached_bumped. unfold cachedCompletion. rewrite Hc1, Hci, Hcache.
  unfold cachedCompletionLocked. by rewrite Hfi, lookup_empty, orb_false_r.
Qed.
End Restore.

Lemma evidence_of_some info st : file_evidence info = file_evidence (Some st) -> info = Some st.
Proof. destruct info as [[? ? ?]|], st; cbn; by intros [= -> -> ->]. Qed.

Lemma checkpointEvidence_panic g probe : (forall i, probe i ≠ Err ErrPanic) -> checkpointEvidence g probe ≠ Err ErrPanic.
Proof.
  intros Hp. unfold checkpointEvidence. destruct (checkpointCatalog g) as [c|e] eqn:E.
  - assert (forall files i, probe_files probe i files ≠ Err ErrPanic) as Hf.
    { induction files as [|f files IH]; intros i; cbn; [done|]. specialize (Hp i). destruct (probe i); [|congruence].
      specialize (IH (S i)). destruct (probe_files probe (S i) files) as [[]|]; congruence. }
    specialize (Hf (nc_Files c) 0%nat). destruct (probe_files probe 0 (nc_Files c)) as [[]|]; congruence.
  - intros [= ->]. unfold checkpointCatalog in E. do 3 (case_match; [done|]). destruct (sl_Root g) as [root|]; [|done].
    assert (forall files paths total extent, catalog_files root files paths total extent ≠ Err ErrPanic) as Hf.
    { clear. induction files as [|f files IH]; intros [|[path|] paths] total extent; try done. cbn. do 2 (case_match; [congruence|]).
      specialize (IH paths (total + len root + len path + 1) (Z.max extent (e_Start f + e_Length f))).
      destruct (catalog_files _ _ _ _ _) as [[]|]; congruence. }
    specialize (Hf (sl_files g) (sl_Paths g) 0 0). destruct (catalog_files _ _ _ _ _) as [[]|]; [by case_match|congruence].
Qed.

(** C8: a restore is exact.  A backend opened anew that is given claims from a
    checkpoint ends up, if the restore succeeds, with precisely those claimed
    pieces readable all of whose files were present, whole and unchanged (same
    identity, size and time as recorded) both when the restore was prepared and
    when it was committed; nothing else becomes readable, and the import never
    dereferences a missing signature. *)
Theorem restore_is_exact {W : Type} (Revoke : W -> list byte -> result storage_error bool * W)
    (g : storage_layout) (w w' : W) (hooks : bool) (pending : list byte) (claims : FileCheckpoint) (probe probe' : prober)
    (check : result storage_error unit) (checks : result storage_error unit * result storage_error unit) (moved : bool)
    (token : RestoreToken) (r : result storage_error unit) (t t' : fileTorrentImpl) :
  layout_ok g ->
  prepareRestore g Revoke w (opened hooks pending) claims probe check = (Ok token, w', t) ->
  (forall i, probe' i ≠ Err ErrPanic) -> fst checks ≠ Err ErrPanic -> snd checks ≠ Err ErrPanic ->
  restoreCheckpoint g t token probe' checks moved = (r, t') ->
  r ≠ Err ErrPanic /\
  (r = Ok tt -> forall p, 0 <= p < sl_NumPieces g ->
    cachedCompletion t' p = true <->
    bit (nc_Complete claims) p = true /\
    forall i claim, nc_Files claims !! i = Some claim -> in_piece (sl_PieceLength g) (cf_Offset claim) (cf_Length claim) p ->
      borne_out probe i claim /\ borne_out probe' i claim).
Proof.
  intros Hg Hprep Hp1 Hp2 Hp3 Hr. apply prepareRestore_inv in Hprep as (Hpo & Hun & _); [|done|].
  2: { split; [apply opened_ok|done]. }
  apply restoreCheckpoint_spec in Hr as [Hpanic Hok]; [|done|by apply Hpo]. split.
  { intros E. destruct (Hpanic E) as [?|[?|?]]; [|done..]. by apply (checkpointEvidence_panic g probe'). }
  intros ->. destruct (Hok eq_refl) as ((infos & current & Hev & Hfiles) & _ & Hcache). intros p Hp. rewrite Hcache.
  rewrite bool_decide_eq_true. destruct (checkpointEvidence_inv g Hg _ _ _ (po_evidence _ _ _ _ Hpo)) as (Hge & _ & _ & Hev0).
  destruct (checkpointEvidence_inv g Hg _ _ _ Hev) as (_ & _ & _ & Hev1). rewrite Hfiles in Hev1. cbn in Hev0.
  assert (p ∈ claimed_pieces (rt_proof token) <-> bit (nc_Complete (rt_proof token)) p = true) as ->.
  { unfold claimed_pieces. rewrite list_elem_of_In, filter_In, <- list_elem_of_In, elem_of_seqZ.
    pose proof (ge_count _ _ Hge) as Hn. cbn in Hn. rewrite Hn. naive_solver lia. }
  rewrite (proof_supported g Hg claims probe token p Hpo) by lia. apply and_iff_compat_l. split.
  - intros H i claim Hi Hin. specialize (H i claim Hi Hin). split; [done|].
    destruct H as (st & Hst & He & Hl). exists st. split; [|done].
    destruct (same_catalog_lookup _ _ _ _ (po_catalog _ _ _ _ Hpo) Hi) as (f & Hf & _).
    destruct (Hev0 i f Hf) as (info0 & _ & Hpr0 & He0), (Hev1 i f Hf) as (info1 & _ & Hpr1 & He1).
    rewrite Hpr1. f_equal. apply evidence_of_some. congruence.
  - intros H i claim Hi Hin. by apply (H i claim Hi Hin).
Qed.

(** The second file of the checkpoint was touched since. *)
Definition demo_claims : FileCheckpoint :=
  mkFileCheckpoint "aa" "Show" 8 3 20
    [mkCheckpointFile "a.mkv" 0 10 (file_evidence (demo_stat 0)); mkCheckpointFile "b.mkv" 10 10 (file_evidence (demo_stat 1))] [x07].
Definition demo_probe : prober := fun i => Ok (if (i =? 1)%nat then Some (mkFileInfo "b" 10 201) else demo_stat i).
Definition demo_revoke (masks : list (list byte)) (mask : list byte) : result storage_error bool * list (list byte) :=
  (Ok false, mask :: masks).
Definition demo_prepared : result storage_error RestoreToken * list (list byte) * fileTorrentImpl :=
  prepareRestore demo_layout demo_revoke [] (opened true [x07]) demo_claims demo_probe (Ok tt).
Definition demo_restored : result storage_error unit * fileTorrentImpl :=
  match demo_prepared with
  | (Ok token, _, t) => restoreCheckpoint demo_layout t token demo_probe (Ok tt, Ok tt) false
  | (Err e, _, t) => (Err e, t)
  end.

Lemma restore_is_exact_witness :
  snd (fst demo_prepared) = [[x06]] /\ fst demo_restored = Ok tt /\
  forall p, 0 <= p < 3 -> cachedCompletion (snd demo_restored) p = true <->
    bit [x07] p = true /\
    forall i claim, nc_Files demo_claims !! i = Some claim -> in_piece 8 (cf_Offset claim) (cf_Length claim) p ->
      borne_out demo_probe i claim /\ borne_out demo_probe i claim.
Proof.
  assert (exists token w t, demo_prepared = (Ok token, w, t)) as (token & w & t & E) by (do 3 eexists; vm_compute; reflexivity).
  split; [vm_compute; reflexivity|]. assert (fst demo_restored = Ok tt) as Er by (vm_compute; reflexivity). split; [exact Er|].
  destruct demo_restored as [r t'] eqn:Et. cbn [fst snd] in *. unfold demo_restored in Et. rewrite E in Et.
  refine (proj2 (restore_is_exact demo_revoke demo_layout [] w true [x07] demo_claims demo_probe demo_probe (Ok tt) (Ok tt, Ok tt)
    false token r t t' demo_layout_ok E _ _ _ Et) Er); done.
Defined.
