(* ===== verification/FileReads.v ===== *)
(** * Reads of the file storage

    What [ReadAt] of [storage/file-torrent-io.go] serves: only pieces that this
    attachment has verified or restored, and only until a write, a revocation or
    a failure of one of their files withdraws them. *)

From stdpp Require Import base gmap list strings.
From Stdlib Require Import ZArith Strings.Byte Lia.
From S2P Require Import Prelude FastResume Segments ResumeStore FileStorage FileEvidence FileSeal.

#[local] Open Scope Z_scope.

Section Reads.
Context (g : storage_layout).
Implicit Types t : fileTorrentImpl.

(** A section that makes a piece readable, in the state it runs in, and one that ends it.  A mark must find the
    backend open, the completion store must accept it and every file of the piece must be there; a restore must
    succeed, which includes both of its authorizations. *)
Definition grants t (op : backend_op) (p : Z) : Prop :=
  match op with
  | OpMarkComplete piece stat hint _ => piece = p /\ fb_closed t = false /\ hint = Ok tt /\ is_Some (pieceSignature g stat piece)
  | OpRestore token probe checks moved => p ∈ claimed_pieces (rt_proof token) /\ checks = (Ok tt, Ok tt)
      /\ fst (restoreCheckpoint g t token probe checks moved) = Ok tt
  | _ => False
  end.

Definition withdraws (op : backend_op) (p : Z) : Prop :=
  match op with
  | OpForget pieces => p ∈ pieces
  | OpRevoked begin fin mask _ => begin <= p < fin /\ bit mask p = true
  | OpRevokeFile file => file ∈ files_of_piece g p
  | OpReset | OpGuardFailed => True
  | _ => False
  end.

(** The evidence of a piece refers to a signature of each of its files. *)
Definition evidence_covers t : Prop := forall p e file, fb_fresh t !! p = Some e -> file ∈ files_of_piece g p ->
  exists a, a ∈ pe_infos e /\ signed t file a.

(** Nothing becomes valid that was not: the evidence refers to signatures of the
    heap, which are only ever invalidated. *)
Definition less_valid t t' : Prop := forall a, validity t' !! a = Some true -> is_Some (validity t !! a) -> validity t !! a = Some true.

Definition less_evident t t' (p : Z) : Prop := fb_fresh t' !! p = None \/ fb_fresh t' !! p = fb_fresh t !! p.

Lemma cached_less t t' p : evidence_ok g t -> heap_kept t t' -> less_valid t t' -> less_evident t t' p ->
  cachedCompletionLocked t' p = true -> cachedCompletionLocked t p = true.
Proof using Type.
  intros H Hk Hv Hf. unfold cachedCompletionLocked. destruct Hf as [->| ->]; [done|].
  destruct (fb_fresh t !! p) as [e|] eqn:E; [|done]. rewrite !forallb_forall. intros Hall a Ha. specialize (Hall a Ha).
  apply list_elem_of_In in Ha. destruct (ok_fresh _ _ H _ _ E) as [_ Hr]. rewrite Forall_forall in Hr.
  destruct (Hr a Ha) as (s & Hs & _). destruct (Hk a s Hs) as (s' & Hs' & _). rewrite valid_at_validity in *.
  assert (validity t' !! a = Some (sg_valid s')) as E' by (unfold validity; by rewrite lookup_fmap, Hs').
  rewrite E' in Hall. cbn in Hall. rewrite Hall in E'. rewrite (Hv a E'); [done|]. unfold validity. rewrite lookup_fmap, Hs. by eexists.
Qed.

(** *** Sections that only withdraw *)

Definition weaker t t' : Prop := heap_kept t t' /\ less_valid t t'.

Lemma weaker_refl t : weaker t t.
Proof using Type. split; [apply heap_kept_refl|by intros a]. Qed.

Lemma kept_validity t t' a : heap_kept t t' -> is_Some (validity t !! a) -> is_Some (validity t' !! a).
Proof using Type.
  unfold validity. rewrite !lookup_fmap. intros Hk [b Hb]. apply fmap_Some in Hb as (s & Hs & _).
  destruct (Hk a s Hs) as (s' & -> & _). by eexists.
Qed.

Lemma weaker_trans t t' t'' : weaker t t' -> weaker t' t'' -> weaker t t''.
Proof using Type.
  intros [Hk Hv] [Hk' Hv']. split; [by eapply heap_kept_trans|]. intros a Ha Hs. apply Hv; [|done]. apply Hv'; [done|].
  by eapply kept_validity.
Qed.

(** Equal heaps. *)
Lemma weaker_heap t t' : fb_heap t' = fb_heap t -> weaker t t'.
Proof using Type. intros E. unfold weaker, heap_kept, less_valid, validity. rewrite E. split; [eauto|done]. Qed.

Lemma weaker_alter f a t t' : tame f -> fb_heap t' = alter f a (fb_heap t) -> weaker t t'.
Proof using Type.
  intros Hf E. split.
  - intros b s Hs. rewrite E. destruct (decide (a = b)) as [->|]; [|rewrite lookup_alter_ne by done; eauto].
    rewrite lookup_alter_eq, Hs. eexists. split; [done|]. apply Hf.
  - intros b. unfold validity. rewrite !lookup_fmap, E. destruct (decide (a = b)) as [->|]; [|by rewrite lookup_alter_ne].
    rewrite lookup_alter_eq. destruct (fb_heap t !! b) as [s|]; cbn; [|done]. intros [= V] _. f_equal. by apply Hf.
Qed.

Lemma weaker_alter_all f l : (forall s, sg_file (f s) = sg_file s /\ (sg_valid (f s) = true -> sg_valid s = true)) ->
  forall t t', fb_heap t' = alter_all f l (fb_heap t) -> weaker t t'.
Proof using Type.
  intros Hf. induction l as [|a l IH]; intros t t' E; [by apply weaker_heap|].
  eapply weaker_trans, (IH (t <| fb_heap ::= alter f a |>)); [|exact E]. split.
  - intros b s Hs. cbn. destruct (decide (a = b)) as [->|]; [|rewrite lookup_alter_ne by done; eauto].
    rewrite lookup_alter_eq, Hs. eexists. split; [done|]. apply Hf.
  - intros b. unfold validity. cbn. rewrite !lookup_fmap. destruct (decide (a = b)) as [->|]; [|by rewrite lookup_alter_ne].
    rewrite lookup_alter_eq. destruct (fb_heap t !! b) as [s|]; cbn; [|done]. intros [= V] _. f_equal. by apply Hf.
Qed.

Lemma forget_weaker t p : weaker t (forget t p).
Proof using Type.
  eapply weaker_alter_all; [|reflexivity]. intros s. unfold release_signature. destruct (sg_valid s) eqn:E; cbn; by rewrite ?E.
Qed.

Lemma forget_all_weaker l : forall t, weaker t (fold_left forget l t).
Proof using Type. induction l as [|p l IH]; intros t; [apply weaker_refl|]. cbn. eapply weaker_trans, IH. apply forget_weaker. Qed.

Lemma forget_all_fresh l : forall t p, fb_fresh (fold_left forget l t) !! p = if bool_decide (p ∈ l) then None else fb_fresh t !! p.
Proof using Type.
  induction l as [|q l IH]; intros t p; [done|]. cbn. rewrite IH. cbn. repeat case_bool_decide; set_unfold; try done.
  - naive_solver.
  - destruct H0 as [->|]; [by rewrite lookup_delete_eq|done].
  - rewrite lookup_delete_ne; [done|naive_solver].
Qed.

Lemma forget_masked_weaker mask l : forall t, weaker t (fold_left (fun t i => if bit mask i then forget t i else t) l t).
Proof using Type.
  induction l as [|p l IH]; intros t; [apply weaker_refl|]. cbn. eapply weaker_trans, IH.
  case_match; [apply forget_weaker|apply weaker_refl].
Qed.

Lemma forget_masked_spec mask l : forall t p, fb_fresh (fold_left (fun t i => if bit mask i then forget t i else t) l t) !! p
  = if bool_decide (p ∈ l) && bit mask p then None else fb_fresh t !! p.
Proof using Type.
  induction l as [|q l IH]; intros t p; [done|]. cbn. rewrite IH.
  destruct (decide (p = q)) as [->|Hne].
  - rewrite (bool_decide_true (q ∈ q :: l)) by (by left). cbn. destruct (bit mask q) eqn:E; cbn.
    + rewrite lookup_delete_eq. by destruct (_ && _).
    + by rewrite andb_false_r.
  - replace (bool_decide (p ∈ q :: l)) with (bool_decide (p ∈ l)) by (apply bool_decide_ext; rewrite elem_of_cons; clear -Hne; tauto).
    destruct (_ && _); [done|]. case_match; [|done]. cbn. by rewrite lookup_delete_ne.
Qed.

Lemma invalidate_weaker t file : weaker t (invalidate_signature t file).
Proof using Type. unfold invalidate_signature. case_match; [|apply weaker_refl]. by eapply weaker_alter; [apply tame_invalid|]. Qed.

Lemma invalidate_fresh t file : fb_fresh (invalidate_signature t file) = fb_fresh t.
Proof using Type. unfold invalidate_signature. by case_match. Qed.

Lemma replace_weaker t file st : evidence_ok g t -> weaker t (replace_signature t file st).
Proof using Type.
  intros H. split; [by eapply replace_signature_kept|]. intros a Ha [b Hb]. unfold validity in *. rewrite !lookup_fmap in *.
  apply fmap_Some in Hb as (s & Hs & ->). rewrite Hs. cbn. f_equal. unfold replace_signature in Ha. cbn in Ha.
  pose proof (ok_next _ _ H _ _ Hs). rewrite lookup_insert_ne in Ha by lia. destruct (fb_signatures t !! file) as [c|].
  - destruct (decide (c = a)) as [->|]; [by rewrite lookup_alter_eq, Hs in Ha|]. rewrite lookup_alter_ne, Hs in Ha by done. by injection Ha.
  - rewrite Hs in Ha. by injection Ha.
Qed.

Lemma intern_weaker found : forall t, evidence_ok g t -> weaker t (intern g t found).1 /\ fb_fresh (intern g t found).1 = fb_fresh t.
Proof using Type.
  induction found as [|[file st] found IH]; intros t H; [by split; [apply weaker_refl|]|]. cbn.
  set (t1 := if signature_valid _ _ _ then _ else _).
  assert (evidence_ok g t1 /\ weaker t t1 /\ fb_fresh t1 = fb_fresh t) as (H1 & Hw & Hf).
  { subst t1. case_match; [by split_and!; [|apply weaker_refl|]|]. split_and!; [by apply replace_signature_ok|by apply replace_weaker|done]. }
  destruct (IH t1 H1) as [Hw' Hf']. destruct (intern g t1 found) as [t2 rest]. cbn in *. split; [by eapply weaker_trans|congruence].
Qed.

Lemma drop_stale_weaker infos : forall t file, weaker t (drop_stale g t file infos) /\ fb_fresh (drop_stale g t file infos) = fb_fresh t.
Proof using Type.
  induction infos as [|info infos IH]; intros t file; [by split; [apply weaker_refl|]|]. cbn.
  set (t1 := if signature_valid _ _ _ then _ else _). destruct (IH t1 (S file)) as [Hw ->]. split.
  - eapply weaker_trans, Hw. subst t1. case_match; [apply invalidate_weaker|apply weaker_refl].
  - subst t1. case_match; [apply invalidate_fresh|done].
Qed.

Lemma capture_weaker t eligible probe : let t' := (seal_capture g t eligible probe).1 in weaker t t' /\ fb_fresh t' = fb_fresh t.
Proof using Type.
  unfold seal_capture. destruct (negb _); [by split; [apply weaker_refl|]|]. destruct (fb_closed t); [by split; [apply weaker_refl|]|].
  destruct (checkpointEvidence g probe) as [[c infos]|]; [|by split; [apply weaker_refl|]].
  destruct (clear_unsealable _ _ _ _) as [mask|]; [destruct (clear_partial _ _ _)|]; apply drop_stale_weaker.
Qed.

Lemma accept_weaker t file before after off n : let t' := acceptFileWrite g t file before after off n in
  weaker t t' /\ forall p, less_evident t t' p.
Proof using Type.
  unfold acceptFileWrite. assert (weaker t t /\ forall p, less_evident t t p) as Hsame by (split; [apply weaker_refl|by right]).
  destruct before as [before|], after as [after|]; try exact Hsame. destruct (n <=? 0); [exact Hsame|].
  set (t1 := match fb_signatures t !! file with Some _ => _ | None => _ end).
  assert (weaker t t1 /\ fb_fresh t1 = fb_fresh t) as [Hw Hf].
  { subst t1. destruct (fb_signatures t !! file) as [a|]; [|by split; [apply weaker_refl|]]. split; [|done].
    eapply weaker_alter; [|reflexivity]. intros s. repeat case_match; cbn; split; (congruence || auto). }
  split; [eapply weaker_trans; [exact Hw|apply forget_all_weaker]|]. intros p. unfold less_evident. rewrite forget_all_fresh, Hf.
  case_bool_decide; [by left|by right].
Qed.

Lemma mark_weaker t p l restored : weaker t (markFreshLocked t p l restored).
Proof using Type.
  unfold markFreshLocked. case_match; [by apply weaker_heap|].
  eapply weaker_trans; [eapply (weaker_alter_all release_signature (evidence_of t p)) with (t' := forgetPieceLocked t p); [|reflexivity]|].
  { intros s. unfold release_signature. destruct (sg_valid s) eqn:E; cbn; by rewrite ?E. }
  eapply weaker_alter_all; [|reflexivity]. intros s. by split.
Qed.

Lemma publish_weaker t file : weaker t (publish_file t file) /\ fb_fresh (publish_file t file) = fb_fresh t.
Proof using Type.
  unfold publish_file. case_match; [|by split; [apply weaker_refl|]]. split; [|done].
  eapply weaker_alter; [|reflexivity]. intros s. case_match; cbn; split; auto; congruence.
Qed.

Lemma promote_weaker files promote : forall t,
  let t' := snd (promote_files g t files promote) in weaker t t' /\ fb_fresh t' = fb_fresh t.
Proof using Type.
  induction files as [|file files IH]; intros t; [by split; [apply weaker_refl|]|]. cbn. case_match; [|apply IH].
  case_match; [|by split; [apply weaker_refl|]]. destruct (publish_weaker t file) as [Hw Hf], (IH (publish_file t file)) as [Hw' Hf'].
  split; [by eapply weaker_trans|congruence].
Qed.

(** *** Coverage *)

Lemma covers_weaker t t' : heap_kept t t' -> (forall p, less_evident t t' p) -> evidence_covers t -> evidence_covers t'.
Proof using Type.
  intros Hk Hf Hc p e file He Hfile. destruct (Hf p) as [E|E]; rewrite E in He; [done|].
  destruct (Hc p e file He Hfile) as (a & Ha & Hs). exists a. split; [done|]. by eapply signed_kept.
Qed.

Lemma covers_same t t' : weaker t t' -> fb_fresh t' = fb_fresh t -> evidence_covers t -> evidence_covers t'.
Proof using Type. intros [Hk _] Hf. apply covers_weaker; [done|]. intros p. right. by rewrite Hf. Qed.

Lemma covers_mark t p files l restored : evidence_covers t -> Forall2 (signed t) files l -> files_of_piece g p ⊆ files ->
  evidence_covers (markFreshLocked t p l restored).
Proof using Type.
  intros Hc Hs Hsub q e file He Hfile. destruct (markFreshLocked_spec t p l restored) as (_ & _ & Hf). rewrite Hf in He.
  destruct (mark_weaker t p l restored) as [Hk _]. apply lookup_insert_Some in He as [[<- <-]|[_ He]].
  - apply Hsub, list_elem_of_lookup in Hfile as (k & Hk'). destruct (Forall2_lookup_l _ _ _ _ _ Hs Hk') as (a & Ha & Hsig).
    exists a. split; [by eapply list_elem_of_lookup_2|]. by eapply signed_kept.
  - destruct (Hc q e file He Hfile) as (a & Ha & Hsig). exists a. split; [done|]. by eapply signed_kept.
Qed.

Context (Hg : layout_ok g).

Lemma locate_files off n file : gapless 0 (sl_files g) (mkExtent off n) -> 0 <= off -> 0 < n -> off + n <= max_i64 ->
  file ∈ (locate g off n).*1 <-> exists f, sl_files g !! file = Some f /\ off < e_Start f + e_Length f /\ e_Start f < off + n.
Proof using Hg.
  intros Hgap Ho Hn Hm. unfold locate. rewrite locate_overlap by (done || apply Hg). rewrite list_elem_of_fmap. split.
  - intros ([i found] & -> & Hi). apply overlapping_elem in Hi as (f & Hf & _ & Hov & _). rewrite Nat.sub_0_r in Hf. exists f.
    unfold overlaps in Hov. cbn in Hov. split_bools. split_and!; [done|lia|lia].
  - intros (f & Hf & ? & ?). exists (file, clip (mkExtent off n) f). split; [done|].
    apply (overlapping_intro _ _ 0 file); [done|]. unfold overlaps. cbn.
    destruct (Z.ltb_spec off (e_Start f + e_Length f)), (Z.ltb_spec (e_Start f) (off + n)); done || lia.
Qed.

(** The checkpoint's geometry leaves out no file of a piece. *)
Lemma files_claimed c p : geometry g c -> 0 <= p < sl_NumPieces g -> files_of_piece g p ⊆ claimed_files g c p.
Proof using Hg.
  intros [Hl _ He _ _] Hp file. pose proof (lo_piece _ Hg p Hp). pose proof (lo_length _ Hg). pose proof (lo_bound _ Hg).
  unfold files_of_piece, claimed_files. rewrite Hl, He. rewrite !locate_files.
  - intros (f & Hf & ? & ?). exists f. split_and!; [done|lia|lia].
  - by apply (lo_claimed _ Hg).
  - nia.
  - lia.
  - lia.
  - apply (lo_section _ Hg p); done || lia.
  - nia.
  - lia.
  - lia.
Qed.

Lemma restored_geometry proof current : sameCheckpointCatalog proof current = true -> nc_Files current = nc_Files proof ->
  geometry g current -> geometry g proof.
Proof using Type.
  intros Hcat Hfiles Hge. destruct (same_catalog_geometry g _ _ Hcat Hge) as (? & ? & ?). destruct Hge as [_ _ _ Hf ?].
  split; try done. by rewrite <- Hfiles.
Qed.

Lemma import_signatures_weaker infos : forall t k, evidence_ok g t ->
  evidence_ok g (import_signatures t k infos) /\ weaker t (import_signatures t k infos).
Proof using Type.
  induction infos as [|info infos IH]; intros t k H; [by split; [|apply weaker_refl]|]. cbn.
  set (t1 := match info with Some _ => _ | None => _ end).
  assert (evidence_ok g t1 /\ weaker t t1) as [H1 Hw].
  { subst t1. destruct info; [|by split; [|apply weaker_refl]]. case_match; [by split; [|apply weaker_refl]|].
    split; [by apply replace_signature_ok|by apply replace_weaker]. }
  destruct (IH t1 (S k) H1) as [H2 Hw2]. split; [done|]. by eapply weaker_trans.
Qed.

Lemma import_empty_heap files t : fb_heap (import_empty t files) = fb_heap t.
Proof using Type.
  unfold import_empty. generalize (imap pair files). intros l. revert t. induction l as [|[i f] l IH]; intros t; [done|].
  cbn. rewrite IH. by case_match.
Qed.

Lemma import_pieces_weaker c pieces : geometry g c -> (forall p, p ∈ pieces -> 0 <= p < sl_NumPieces g) ->
  forall t t', evidence_ok g t -> evidence_covers t -> fold_left (import_piece g c) pieces (Some t) = Some t' ->
  evidence_covers t' /\ weaker t t' /\ forall p, p ∉ pieces -> fb_fresh t' !! p = fb_fresh t !! p.
Proof using Hg.
  intros Hc. induction pieces as [|p pieces IH]; intros Hp t t' H Hcov E; cbn in E; [simplify_eq; by split_and!; [|apply weaker_refl|]|].
  assert (0 <= p < sl_NumPieces g) as Hp0 by (apply Hp; by left).
  destruct (mapM _ (claimed_files g c p)) as [l|] eqn:El; cycle 1.
  { exfalso. clear -E. induction pieces; [done|]. by apply IHpieces. }
  pose proof (mapM_signed g t _ _ H El) as Hs.
  apply IH in E as (Hcov' & Hw & Hf).
  - split; [done|]. split; [eapply weaker_trans; [apply mark_weaker|exact Hw]|]. intros q Hq.
    apply not_elem_of_cons in Hq as [Hne Hq]. rewrite Hf by done.
    destruct (markFreshLocked_spec t p l true) as (_ & _ & ->). by rewrite lookup_insert_ne.
  - intros q Hq. apply Hp. by right.
  - eapply mark_signed_ok; [apply located_nodup|by apply claimed_files_in_file|done|done].
  - eapply covers_mark; [done|done|by apply files_claimed].
Qed.

Lemma restore_weaker t token probe checks moved : evidence_ok g t -> evidence_covers t ->
  let r := restoreCheckpoint g t token probe checks moved in
  evidence_covers (snd r) /\ weaker t (snd r) /\
  forall p, (checks = (Ok tt, Ok tt) -> fst r = Ok tt -> p ∉ claimed_pieces (rt_proof token)) -> fb_fresh (snd r) !! p = fb_fresh t !! p.
Proof using Hg.
  intros H Hcov. assert (forall e : storage_error, let r := (Err e, t) in evidence_covers (snd r) /\ weaker t (snd r) /\
    forall p, (checks = (Ok tt, Ok tt) -> fst r = Ok tt -> p ∉ claimed_pieces (rt_proof token)) -> fb_fresh (snd r) !! p = fb_fresh t !! p)
    as Hsame by (intros e; by split_and!; [|apply weaker_refl|]).
  unfold restoreCheckpoint. do 2 (case_match; [apply Hsame|]). destruct checks as [[[]|] second]; cbn [fst snd]; [|apply Hsame].
  destruct (checkpointEvidence g probe) as [[current infos]|] eqn:Ev; [|apply Hsame]. case_match eqn:Hs; [apply Hsame|].
  apply orb_false_iff in Hs as [[Hcat%negb_false_iff Hfiles%negb_false_iff%bool_decide_eq_true]%orb_false_iff _].
  destruct second as [[]|]; [|apply Hsame]. set (t0 := rememberResume t (nc_Complete (rt_proof token)) false).
  assert (fb_heap t0 = fb_heap t /\ fb_fresh t0 = fb_fresh t) as [Hh0 Hf0].
  { subst t0. unfold rememberResume. by repeat case_match. }
  case_match; [split; [|split]|].
  { eapply covers_same, Hcov; [by apply weaker_heap|done]. }
  { by apply weaker_heap. }
  { intros p _. cbn. by rewrite Hf0. }
  set (t1 := import_empty t0 (nc_Files current)). set (imported := import_signatures _ _ _).
  assert (weaker t t1 /\ fb_fresh t1 = fb_fresh t) as [Hw1 Hf1].
  { subst t1. split; [apply weaker_heap; by rewrite import_empty_heap|]. by rewrite (proj1 (import_empty_fresh _ _)). }
  assert (evidence_ok g t1) as Ho1 by (by apply import_empty_ok, rememberResume_ok).
  destruct (import_signatures_weaker (rt_infos token) t1 0 Ho1) as [Hi Hwi].
  assert (weaker t imported /\ fb_fresh imported = fb_fresh t) as [Hw Hf].
  { split; [by eapply weaker_trans|]. subst imported. by rewrite (proj1 (import_signatures_fresh _ _ _)). }
  assert (evidence_covers imported) as Hci by (by eapply covers_same).
  case_match eqn:Ef; [|by split_and!; [| |intros; cbn; rewrite Hf]].
  apply checkpointEvidence_inv in Ev as (Hge & _ & _ & _); [|done].
  apply import_pieces_weaker in Ef as (Hc' & Hw' & Hf'); [|exact (restored_geometry _ _ Hcat Hfiles Hge)| |done|done].
  - split; [done|]. split; [eapply weaker_trans, Hw'; done|]. intros p Hp. cbn. rewrite Hf' by (by apply Hp). by rewrite Hf.
  - intros p Hp%claimed_pieces_range. by destruct (same_catalog_geometry g _ _ Hcat Hge) as (_ & <- & _).
Qed.

(** *** Every section *)

(** A section other than a grant leaves a piece no more evident than it was. *)
Definition withdrawing t t' (p : Z) : Prop := weaker t t' /\ less_evident t t' p.

Lemma same_fresh_withdrawing t t' p : weaker t t' -> fb_fresh t' = fb_fresh t -> withdrawing t t' p.
Proof using Type. intros Hw Hf. split; [done|]. right. by rewrite Hf. Qed.

Lemma mark_complete_weaker t piece stat hint promote : evidence_ok g t -> evidence_covers t -> 0 <= piece < sl_NumPieces g ->
  let t' := snd (MarkComplete g t piece stat hint promote) in
  evidence_covers t' /\ weaker t t' /\ forall p, ~ grants t (OpMarkComplete piece stat hint promote) p -> fb_fresh t' !! p = fb_fresh t !! p.
Proof using Type.
  intros H Hcov Hp. unfold MarkComplete. cbn [grants]. destruct (fb_closed t) eqn:Hclosed; [by split_and!; [|apply weaker_refl|]|].
  assert (evidence_covers (bump t) /\ weaker t (bump t)) as [Hcb Hwb] by (split; [by eapply covers_same, Hcov; [apply weaker_heap|]|by apply weaker_heap]).
  destruct hint as [[]|]; [|by split_and!]. destruct (pieceSignature g stat piece) as [current|] eqn:Ec; [|by split_and!].
  unfold commitCompletion_fresh. destruct (internSignatureLocked g (bump t) piece current) as [t1 l] eqn:Ei.
  pose proof Ei as Ei'. apply (internSignatureLocked_ok g _ _ stat) in Ei' as [H1 Hs]; [|done|done|by apply bump_ok].
  unfold internSignatureLocked in Ei. destruct (intern_weaker (zip (files_of_piece g piece) current) (bump t)) as [Hw1 Hf1]; [by apply bump_ok|].
  rewrite Ei in Hw1, Hf1. cbn in Hw1, Hf1. destruct (promote_weaker (files_of_piece g piece) promote (markFreshLocked t1 piece l false)) as [Hw2 Hf2].
  assert (weaker t t1) as Hw by (eapply weaker_trans; [by apply (weaker_heap t (bump t))|exact Hw1]).
  assert (evidence_covers t1) as Hc1 by (by eapply covers_same).
  split; [|split].
  - eapply covers_same; [exact Hw2|exact Hf2|]. by eapply covers_mark.
  - eapply weaker_trans; [exact Hw|]. eapply weaker_trans; [apply mark_weaker|exact Hw2].
  - intros p Hno. assert (piece <> p) as Hne by (intros <-; apply Hno; by eauto). rewrite Hf2. destruct (markFreshLocked_spec t1 piece l false) as (_ & _ & ->).
    rewrite lookup_insert_ne by done. by rewrite Hf1.
Qed.

Lemma clear_weaker t : weaker t (clear_evidence t).
Proof using Type. eapply weaker_alter_all; [|reflexivity]. by intros s. Qed.

Lemma begin_weaker t piece stat current : evidence_ok g t -> pieceSignature g stat piece = Some current ->
  weaker t (BeginVerification_fresh g t piece current) /\ fb_fresh (BeginVerification_fresh g t piece current) = fb_fresh t.
Proof using Type.
  intros H _. unfold BeginVerification_fresh, internSignatureLocked.
  destruct (intern_weaker (zip (files_of_piece g piece) current) t H) as [Hw Hf]. destruct (intern g t _) as [t1 l]. cbn in *.
  split; [|done]. eapply weaker_trans; [exact Hw|]. by apply weaker_heap.
Qed.

Lemma revoked_weaker t begin fin mask discarded : let t' := revoked_locally t begin fin mask discarded in
  weaker t t' /\ forall p, fb_fresh t' !! p = if bool_decide (begin <= p < fin) && bit mask p then None else fb_fresh t !! p.
Proof using Type.
  unfold revoked_locally. match goal with |- context [fold_left _ ?range ?t0] =>
    pose proof (forget_masked_weaker mask range t0) as Hw; pose proof (forget_masked_spec mask range t0) as Hf end. split.
  - eapply weaker_trans; [|eapply weaker_trans; [exact Hw|by apply weaker_heap]]. by apply weaker_heap.
  - intros p. rewrite bump_fresh, Hf. replace (bool_decide (p ∈ seqZ begin (fin - begin))) with (bool_decide (begin <= p < fin)); [done|].
    apply bool_decide_ext. rewrite elem_of_seqZ. lia.
Qed.

Lemma section_withdraws t op p : evidence_ok g t -> evidence_covers t -> in_domain g op -> ~ grants t op p ->
  withdrawing t (backend_apply g t op) p.
Proof using Hg.
  intros H Hcov Hd Hgr. destruct op; cbn in *.
  - case_match eqn:E; [|apply same_fresh_withdrawing; [apply weaker_refl|done]]. destruct (begin_weaker t piece stat l H E). by apply same_fresh_withdrawing.
  - destruct (mark_complete_weaker t piece stat hint promote H Hcov Hd) as (_ & Hw & Hf). split; [done|]. right. by apply Hf.
  - split; [eapply weaker_trans; [apply forget_all_weaker|by apply weaker_heap]|]. unfold less_evident. rewrite bump_fresh, forget_all_fresh.
    case_bool_decide; [by left|by right].
  - destruct (revoked_weaker t begin fin mask0 discarded) as [Hw Hf]. split; [done|]. unfold less_evident. rewrite Hf. case_match; [by left|by right].
  - apply same_fresh_withdrawing; [|unfold revokeResumeFile_fresh; by rewrite invalidate_fresh].
    eapply weaker_trans; [by apply (weaker_heap t (bump t))|apply invalidate_weaker].
  - destruct (accept_weaker t file before after off n) as [Hw Hf]. by split.
  - unfold rememberResume. repeat case_match; apply same_fresh_withdrawing; try done; by apply weaker_heap.
  - destruct (capture_weaker t eligible probe) as [Hw Hf]. by apply same_fresh_withdrawing.
  - unfold seal_finish, rememberResume. repeat case_match; apply same_fresh_withdrawing; try done; by apply weaker_heap.
  - destruct (restore_weaker t token probe checks moved H Hcov) as (_ & Hw & Hf). split; [done|]. right. apply Hf. intros Hc Hr Hin. by apply Hgr.
  - split; [eapply weaker_trans; [apply clear_weaker|by apply weaker_heap]|by left].
  - split; [apply clear_weaker|by left].
  - apply same_fresh_withdrawing; [by apply weaker_heap|done].
  - unfold Close. case_match; [apply same_fresh_withdrawing; [apply weaker_refl|done]|].
    split; [eapply weaker_trans; [apply clear_weaker|by apply weaker_heap]|by left].
Qed.

Lemma section_covers t op : evidence_ok g t -> evidence_covers t -> in_domain g op -> evidence_covers (backend_apply g t op).
Proof using Hg.
  intros H Hcov Hd. destruct op; try (eapply covers_weaker, Hcov;
    [exact (proj1 (proj1 (section_withdraws t _ 0 H Hcov Hd (fun F => F))))
    |intros p; exact (proj2 (section_withdraws t _ p H Hcov Hd (fun F => F)))]).
  - by apply mark_complete_weaker.
  - by apply restore_weaker.
Qed.

(** After a withdrawal the piece is not readable. *)
Lemma withdrawn t op p : evidence_ok g t -> evidence_covers t -> withdraws op p ->
  cachedCompletionLocked (backend_apply g t op) p = false.
Proof using Type.
  intros H Hcov Hw. unfold cachedCompletionLocked. destruct op; cbn in Hw; try done; cbn [backend_apply].
  - rewrite bump_fresh, forget_all_fresh, bool_decide_true by done. done.
  - destruct Hw as [? Hb]. rewrite (proj2 (revoked_weaker t begin fin mask0 discarded)), bool_decide_true, Hb by done. done.
  - unfold revokeResumeFile_fresh. rewrite invalidate_fresh. change (fb_fresh (bump t)) with (fb_fresh t).
    destruct (fb_fresh t !! p) as [e|] eqn:E; [|done]. destruct (Hcov p e file E Hw) as (a & Ha & s & Hs & Hf).
    destruct (forallb _ (pe_infos e)) eqn:Ef; [|done]. rewrite forallb_forall in Ef.
    specialize (Ef a ltac:(by apply list_elem_of_In)). rewrite <- Ef.
    unfold invalidate_signature. change (fb_signatures (bump t)) with (fb_signatures t).
    destruct (sg_valid s) eqn:V.
    + pose proof (ok_current _ _ H a s Hs V) as Hcur. rewrite Hf in Hcur. rewrite Hcur. unfold valid_at. cbn.
      by rewrite lookup_alter_eq, Hs.
    + unfold valid_at. destruct (fb_signatures t !! file) as [b|]; cbn; [|by rewrite Hs, V].
      destruct (decide (b = a)) as [->|]; [by rewrite lookup_alter_eq, Hs|]. by rewrite lookup_alter_ne, Hs, V.
Qed.

Lemma run_snoc ops op t : backend_run g (ops ++ [op]) t = backend_apply g (backend_run g ops t) op.
Proof using Type. unfold backend_run. by rewrite fold_left_app. Qed.

Lemma run_ok ops hooks pending : Forall (in_domain g) ops ->
  evidence_ok g (backend_run g ops (opened hooks pending)) /\ evidence_covers (backend_run g ops (opened hooks pending)).
Proof using Hg.
  induction ops as [|op ops IH] using rev_ind; intros Hd.
  - split; [apply opened_ok|]. by intros p e file He.
  - apply Forall_app in Hd as [Hd [Hop _]%Forall_cons]. destruct (IH Hd) as [H Hc]. rewrite run_snoc.
    split; [by apply backend_apply_ok|by apply section_covers].
Qed.

Lemma grants_decided t op p : grants t op p \/ ~ grants t op p.
Proof using Type.
  destruct op; cbn [grants]; try tauto.
  - destruct (decide (piece = p)), (fb_closed t), hint as [[]|]; try (right; naive_solver). destruct (pieceSignature g stat piece); [left; by eauto|right]. by intros (_ & _ & _ & []).
  - destruct (decide (p ∈ claimed_pieces (rt_proof token))), checks as [[[]|] [[]|]]; try (right; naive_solver).
    destruct (fst (restoreCheckpoint g t token probe _ moved)) as [[]|]; [by left|right; naive_solver].
Qed.

(** A readable piece was granted, and has not been withdrawn since. *)
Lemma readable_history ops hooks pending p : Forall (in_domain g) ops ->
  cachedCompletionLocked (backend_run g ops (opened hooks pending)) p = true ->
  exists before op after, ops = (before ++ op :: after)%list /\ grants (backend_run g before (opened hooks pending)) op p /\
    forall op', op' ∈ after -> ~ withdraws op' p.
Proof using Hg.
  induction ops as [|op ops IH] using rev_ind; intros Hd Hr.
  - unfold cachedCompletionLocked in Hr. cbn in Hr. by rewrite lookup_empty in Hr.
  - apply Forall_app in Hd as [Hd [Hop _]%Forall_cons]. rewrite run_snoc in Hr.
    destruct (run_ok ops hooks pending Hd) as [H Hc]. set (t := backend_run g ops (opened hooks pending)) in *.
    destruct (grants_decided t op p) as [Hgr|Hgr].
    { exists ops, op, []. split; [done|]. split; [done|]. intros op' []%not_elem_of_nil. }
    assert (~ withdraws op p) as Hnw by (intros Hw; rewrite (withdrawn t op p H Hc Hw) in Hr; done).
    destruct (section_withdraws t op p H Hc Hop Hgr) as [[Hk Hv] Hl]. apply (cached_less t) in Hr; [|done..].
    destruct (IH Hd Hr) as (before & op0 & after & -> & Hg0 & Hno). exists before, op0, (after ++ [op])%list.
    split; [by rewrite <- app_assoc|]. split; [done|]. intros op' [Ho| ->%list_elem_of_singleton]%elem_of_app; [by apply Hno|done].
Qed.
End Reads.

(** C15: reads are of verified payload only.  If a backend with resume hooks or
    managed payload admits a read, then for every byte of it the piece was marked
    complete by this attachment (open, accepted by the completion store, every
    file of the piece present) or claimed by a restore that succeeded with both of
    its authorizations, and since then no write or revocation of the piece, no
    failure of one of its files or of the volume, and no reset took place. *)
Theorem reads_are_verified (g : storage_layout) (hooks : bool) (pending : list byte) (ops : list backend_op) (off n b : Z) :
  layout_ok g -> Forall (in_domain g) ops ->
  let t := backend_run g ops (opened hooks pending) in
  fb_hooks t || sl_managed g = true -> ReadAt_gate g t off n = Ok tt -> off <= b < off + n ->
  exists before op after, ops = (before ++ op :: after)%list /\ grants g (backend_run g before (opened hooks pending)) op (b / sl_PieceLength g) /\
    forall op', op' ∈ after -> ~ withdraws g op' (b / sl_PieceLength g).
Proof.
  intros Hg Hd t Hh Hgate Hb. apply (readable_history g Hg ops hooks pending); [done|]. fold t.
  unfold ReadAt_gate in Hgate. rewrite Hh in Hgate. destruct (fb_closed t) eqn:Hc; [done|]. case_match eqn:Hr; [done|].
  destruct (Z.eqb_spec n 0); [lia|]. cbn in Hgate. case_match eqn:Hrange; [done|]. case_match eqn:Hall; [|done]. clear Hgate.
  apply orb_false_iff in Hr as [Hoff Hmax]. unfold max_i64 in *. pose proof (lo_length _ Hg).
  rewrite forallb_forall in Hall. specialize (Hall (b / sl_PieceLength g)). unfold cachedCompletion in Hall. rewrite Hc in Hall.
  apply Hall, list_elem_of_In, elem_of_seqZ. unfold first_piece, end_piece.
  rewrite !i64_id by (rewrite ?i64_id by (unfold in_i64; lia); unfold in_i64; lia). rewrite !Z.quot_div_nonneg by lia.
  assert (off / sl_PieceLength g <= b / sl_PieceLength g <= (off + n - 1) / sl_PieceLength g); [|lia].
  split; apply Z.div_le_mono; lia.
Qed.

Lemma reads_are_verified_witness :
  ReadAt_gate demo_layout (backend_run demo_layout (demo_marks ++ [marks 1 demo_stat]) (opened true [x00])) 2 8 = Ok tt /\
  ReadAt_gate demo_layout (backend_run demo_layout demo_marks (opened true [x00])) 2 8 = Err ErrUnverifiedPayload /\
  exists before op after, (demo_marks ++ [marks 1 demo_stat])%list = (before ++ op :: after)%list /\
    grants demo_layout (backend_run demo_layout before (opened true [x00])) op (9 / 8) /\
    forall op', op' ∈ after -> ~ withdraws demo_layout op' (9 / 8).
Proof.
  assert (ReadAt_gate demo_layout (backend_run demo_layout (demo_marks ++ [marks 1 demo_stat]) (opened true [x00])) 2 8 = Ok tt) as E
    by (vm_compute; reflexivity).
  split; [exact E|]. split; [vm_compute; reflexivity|].
  apply (reads_are_verified demo_layout true [x00] (demo_marks ++ [marks 1 demo_stat]) 2 8 9 demo_layout_ok);
    [repeat constructor; vm_compute; done|vm_compute; reflexivity|exact E|lia].
Defined.
