(* ===== verification/FileSafety.v ===== *)
(** * Crash safety of fast resume

    The file storage of a torrent together with the durable claims about its
    pieces, as a transition system: writers and readers that interleave with the
    phases of a seal, with restores, with other operations on the claims, and
    with crashes.  What the claims promise is an interface; the durable library
    implements it in [ResumeSystem].

    A step is a critical section.  A revocation holds [resume.mu] across its
    durable and its local part, and every other access to the pending pieces
    takes that lock, so both parts are one step. *)

From stdpp Require Import base gmap list strings.
From Stdlib Require Import ZArith Strings.Byte Lia.
From S2P Require Import Prelude FastResume Segments ResumeStore ResumeSafety FileStorage FileEvidence FileSeal.

#[local] Open Scope Z_scope.

(** ** Durable claims *)

(** What the file storage relies on: the pieces claimed in a state of the store,
    and the answers of its hooks as relations between states. *)
Class ClaimStore (W : Type) := mkClaimStore {
  claimed : W -> Z -> Prop;
  revokes : W -> list byte -> result storage_error bool -> W -> Prop;
  publishes_claims : W -> FileCheckpoint -> bool -> W -> Prop;
  opens : W -> list byte -> W -> Prop;
  elsewhere : W -> W -> Prop;
  revokes_mask w mask w' p : revokes w mask (Ok false) w' -> 0 <= p -> claimed w' p -> claimed w p /\ bit mask p = false;
  revokes_all w mask w' p : revokes w mask (Ok true) w' -> 0 <= p -> ~ claimed w' p;
  revokes_error w mask e w' p : revokes w mask (Err e) w' -> 0 <= p -> claimed w' p -> claimed w p;
  publishes_exactly w c w' p : publishes_claims w c true w' -> 0 <= p -> claimed w' p -> bit (nc_Complete c) p = true;
  publishes_nothing w c w' p : publishes_claims w c false w' -> 0 <= p -> claimed w' p -> claimed w p;
  opens_pending w pending w' p : opens w pending w' -> 0 <= p -> claimed w' p -> bit pending p = true;
  opens_less w pending w' p : opens w pending w' -> 0 <= p -> claimed w' p -> claimed w p;
  elsewhere_less w w' p : elsewhere w w' -> 0 <= p -> claimed w' p -> claimed w p;
}.

(** ** The system *)

(** A call of [WriteAt], by what is left of it. *)
Inductive writer :=
| WAdmitted (off n : Z)
| WRevoked (off n : Z)
| WWriting (off n : Z) (todo : list (nat * Extent))
| WOpened (off n : Z) (part : nat * Extent) (todo : list (nat * Extent)).

(** A call of [withCheckpoint]; [touched] records a revocation since the sealed
    pieces were remembered. *)
Inductive sealing :=
| SIdle
| SFlushing (c : FileCheckpoint) (todo : list nat) (revision : Z)
| SRemembered (c : FileCheckpoint) (revision : Z) (touched : bool)
| SPublished (c : FileCheckpoint) (revision : Z).

Section System.
Context (g : storage_layout) {W : Type} `{CW : ClaimStore W}.

(** [y_dirty]: the parts (file, piece) of the payload that were written and not
    flushed since. *)
Record system := mkSystem {
  y_claims : W;
  y_backend : option fileTorrentImpl;
  y_writers : gmap nat writer;
  y_seal : sealing;
  y_dirty : gset (nat * Z);
}.

(** The pieces of a file that a part of an extent lies in. *)
Definition part_pieces (part : nat * Extent) : list Z :=
  match sl_files g !! fst part with
  | Some f => if e_Length (snd part) =? 0 then [] else pieces_of g (e_Start f + e_Start (snd part)) (e_Length (snd part))
  | None => []
  end.

Definition whole_file (file : nat) : list Z :=
  match file_pieces g file with Some (begin, fin) => seqZ begin (fin - begin) | None => [] end.

Definition dirtied (file : nat) (pieces : list Z) : gset (nat * Z) := list_to_set (pair file <$> pieces).

(** Opening a file for writing that is missing creates it, and writing to one
    that is short extends it: both change pieces outside the chunk. *)
Definition synthesizes (file : nat) (st : option file_info) : bool :=
  match st, sl_files g !! file with
  | Some st, Some f => fi_bytes st <? e_Length f
  | _, _ => true
  end.

Definition opening_dirties (file : nat) (st : option file_info) : gset (nat * Z) :=
  if synthesizes file st then dirtied file (whole_file file) else ∅.

(** [revokeResume] against the claims. *)
Inductive revocation_step (begin fin : Z) : W -> fileTorrentImpl -> result storage_error unit -> W -> fileTorrentImpl -> Prop :=
| revoke_nothing w t : revoke_mask t begin fin = None -> revocation_step begin fin w t (Ok tt) w t
| revoke_done w t mask discarded w' : revoke_mask t begin fin = Some mask -> revokes w mask (Ok discarded) w' ->
    revocation_step begin fin w t (Ok tt) w' (revoked_locally t begin fin mask discarded)
| revoke_failed w t mask e w' : revoke_mask t begin fin = Some mask -> revokes w mask (Err e) w' ->
    revocation_step begin fin w t (Err e) w' t.

Definition touch (seal : sealing) : sealing :=
  match seal with SRemembered c revision _ => SRemembered c revision true | seal => seal end.

(** Sections that change the evidence only. *)
Definition evidence_op (op : backend_op) : Prop :=
  match op with
  | OpBeginVerification _ _ | OpMarkComplete _ _ _ _ | OpForget _ | OpRevokeFile _ | OpAcceptWrite _ _ _ _ _ | OpReset
  | OpGuardFailed | OpAdvance => True
  | _ => False
  end.

(** The range of a write lies in one piece: [Piece] wraps the storage in a
    section writer of the piece. *)
Definition in_section (off n : Z) : Prop :=
  0 < n /\ exists p, 0 <= p < sl_NumPieces g /\ p * sl_PieceLength g <= off /\
    off + n <= p * sl_PieceLength g + Piece_Length g p.

(** [quiet] forbids the loss of an acknowledgement after a revocation. *)
Inductive system_step (quiet : bool) : system -> system -> Prop :=
| step_open w pending w' dirty b : opens w pending w' -> validCheckpointBits pending (sl_NumPieces g) = true ->
    match b with Some t => fb_closed t = true | None => True end ->
    system_step quiet (mkSystem w b ∅ SIdle dirty) (mkSystem w' (Some (opened true pending)) ∅ SIdle dirty)
| step_close w t dirty :
    system_step quiet (mkSystem w (Some t) ∅ SIdle dirty) (mkSystem w (Some (Close t)) ∅ SIdle dirty)
| step_crash w b writers seal dirty :
    system_step quiet (mkSystem w b writers seal dirty) (mkSystem w None ∅ SIdle dirty)
| step_elsewhere w w' b writers seal dirty : elsewhere w w' ->
    system_step quiet (mkSystem w b writers seal dirty) (mkSystem w' b writers seal dirty)
| step_evidence w t op writers seal dirty : evidence_op op ->
    system_step quiet (mkSystem w (Some t) writers seal dirty) (mkSystem w (Some (backend_apply g t op)) writers seal dirty)
| step_revoke w t begin fin r w' t' writers seal dirty : 0 <= begin -> revocation_step begin fin w t r w' t' ->
    system_step quiet (mkSystem w (Some t) writers seal dirty) (mkSystem w' (Some t') writers (touch seal) dirty)
| step_flush w b writers seal dirty file :
    system_step quiet (mkSystem w b writers seal dirty)
                      (mkSystem w b writers seal (filter (fun part => fst part ≠ file) dirty))
| step_admit w t writers dirty id off n : writers !! id = None -> WriteAt_gate g t off n = Ok tt -> in_section off n ->
    system_step quiet (mkSystem w (Some t) writers SIdle dirty)
                      (mkSystem w (Some t) (<[id := WAdmitted off n]> writers) SIdle dirty)
| step_write_revoke w t writers seal dirty id off n w' t' : writers !! id = Some (WAdmitted off n) ->
    revocation_step (first_piece g off) (end_piece g off n) w t (Ok tt) w' t' ->
    system_step quiet (mkSystem w (Some t) writers seal dirty)
                      (mkSystem w' (Some t') (<[id := WRevoked off n]> writers) seal dirty)
| step_write_prepare w t writers seal dirty id off n : writers !! id = Some (WRevoked off n) ->
    system_step quiet (mkSystem w (Some t) writers seal dirty)
                      (mkSystem w (Some (WriteAt_prepare g t off n)) (<[id := WWriting off n (locate g off n)]> writers) seal dirty)
| step_write_guard w t writers seal dirty id off n part todo st : writers !! id = Some (WWriting off n (part :: todo)) ->
    guardResumeFileWrite g t (fst part) st = false ->
    system_step quiet (mkSystem w (Some t) writers seal dirty)
                      (mkSystem w (Some t) (<[id := WOpened off n part todo]> writers) seal
                                (opening_dirties (fst part) st ∪ dirty))
| step_write_guard_revoke w t writers seal dirty id off n part todo st begin fin w' t' :
    writers !! id = Some (WWriting off n (part :: todo)) -> guardResumeFileWrite g t (fst part) st = true ->
    file_pieces g (fst part) = Some (begin, fin) ->
    revocation_step begin fin w (revokeResumeFile_fresh t (fst part)) (Ok tt) w' t' ->
    system_step quiet (mkSystem w (Some t) writers seal dirty)
                      (mkSystem w' (Some t') (<[id := WOpened off n part todo]> writers) seal
                                (opening_dirties (fst part) st ∪ dirty))
| step_write_hit w t writers seal dirty id off n part todo : writers !! id = Some (WWriting off n (part :: todo)) ->
    sl_managed g = true ->
    system_step quiet (mkSystem w (Some t) writers seal dirty)
                      (mkSystem w (Some t) (<[id := WOpened off n part todo]> writers) seal dirty)
| step_write_payload w t writers seal dirty id off n part todo : writers !! id = Some (WOpened off n part todo) ->
    system_step quiet (mkSystem w (Some t) writers seal dirty)
                      (mkSystem w (Some t) (<[id := WWriting off n todo]> writers) seal
                                (dirtied (fst part) (part_pieces part) ∪ dirty))
| step_write_return w b writers seal dirty id :
    system_step quiet (mkSystem w b writers seal dirty) (mkSystem w b (delete id writers) seal dirty)
| step_seal w t dirty eligible probe t' r : seal_capture g t eligible probe = (t', r) ->
    system_step quiet (mkSystem w (Some t) ∅ SIdle dirty)
                      (mkSystem w (Some t') ∅ (match r with Ok c => SFlushing c (seal_targets c) (fb_epoch t) | Err _ => SIdle end) dirty)
| step_seal_flush w b writers dirty c file todo revision :
    system_step quiet (mkSystem w b writers (SFlushing c (file :: todo) revision) dirty)
                      (mkSystem w b writers (SFlushing c todo revision) (filter (fun part => fst part ≠ file) dirty))
| step_seal_abandon w b writers dirty c todo revision :
    system_step quiet (mkSystem w b writers (SFlushing c todo revision) dirty) (mkSystem w b writers SIdle dirty)
| step_seal_remember w t writers dirty c revision probe : seal_confirmed g c probe = Ok tt ->
    system_step quiet (mkSystem w (Some t) writers (SFlushing c [] revision) dirty)
                      (mkSystem w (Some (rememberResume t (nc_Complete c) false)) writers (SRemembered c revision false) dirty)
| step_seal_refused w b writers dirty c revision touched w' : publishes_claims w c false w' ->
    system_step quiet (mkSystem w b writers (SRemembered c revision touched) dirty) (mkSystem w' b writers SIdle dirty)
| step_seal_published w b writers dirty c revision touched w' : publishes_claims w c true w' ->
    system_step quiet (mkSystem w b writers (SRemembered c revision touched) dirty)
                      (mkSystem w' b writers (SPublished c revision) dirty)
| step_seal_lost w b writers dirty c revision touched w' : publishes_claims w c true w' -> (quiet = true -> touched = false) ->
    system_step quiet (mkSystem w b writers (SRemembered c revision touched) dirty) (mkSystem w' b writers SIdle dirty)
| step_seal_finish w t writers dirty c revision :
    system_step quiet (mkSystem w (Some t) writers (SPublished c revision) dirty)
                      (mkSystem w (Some (seal_finish t c revision)) writers SIdle dirty)
| step_restore w t dirty claims probe0 token probe checks moved : proof_of g claims probe0 token ->
    system_step quiet (mkSystem w (Some t) ∅ SIdle dirty)
                      (mkSystem w (Some (snd (restoreCheckpoint g t token probe checks moved))) ∅ SIdle dirty).

(** Runs from a state in which nothing is claimed and nothing is open. *)
Inductive reachable (quiet : bool) : system -> Prop :=
| reachable_start w : (forall p, 0 <= p -> ~ claimed w p) -> reachable quiet (mkSystem w None ∅ SIdle ∅)
| reachable_step s s' : reachable quiet s -> system_step quiet s s' -> reachable quiet s'.

(** ** Pending pieces *)

(** What a section leaves of the pending pieces and their hooks. *)
Definition same_pending (t t' : fileTorrentImpl) : Prop := fb_hooks t' = fb_hooks t /\ fb_pending t' = fb_pending t.

Lemma forget_pending l : forall t, same_pending t (fold_left forget l t).
Proof using Type. induction l as [|i l IH]; intros t; [done|]. cbn. destruct (IH (forget t i)) as [H1 H2]. by split. Qed.

Lemma forget_masked_pending mask l : forall t, same_pending t (fold_left (fun t i => if bit mask i then forget t i else t) l t).
Proof using Type.
  induction l as [|i l IH]; intros t; [done|]. cbn. destruct (IH (if bit mask i then forget t i else t)) as [H1 H2].
  split; [etrans; [exact H1|by case_match]|etrans; [exact H2|by case_match]].
Qed.

Lemma invalidate_pending t file : same_pending t (invalidate_signature t file).
Proof using Type. unfold invalidate_signature. by case_match. Qed.

Lemma mark_pending t p l restored : same_pending t (markFreshLocked t p l restored).
Proof using Type. unfold markFreshLocked. by case_match. Qed.

Lemma intern_pending found : forall t, same_pending t (intern g t found).1.
Proof using Type.
  induction found as [|[file st] found IH]; intros t; [done|]. cbn.
  set (t1 := if signature_valid _ _ _ then _ else _). assert (same_pending t t1) as [H1 H2] by (subst t1; by case_match).
  destruct (intern g t1 found) as [t2 rest] eqn:E. pose proof (IH t1) as [H3 H4]. rewrite E in H3, H4. cbn in *. split; congruence.
Qed.

Lemma same_pending_trans t t' t'' : same_pending t t' -> same_pending t' t'' -> same_pending t t''.
Proof using Type. intros [H1 H2] [H3 H4]. split; congruence. Qed.

Lemma commit_pending t p current : same_pending t (commitCompletion_fresh g t p current).
Proof using Type.
  unfold commitCompletion_fresh, internSignatureLocked. pose proof (intern_pending (zip (files_of_piece g p) current) t) as Hi.
  destruct (intern g t _) as [t1 l]. cbn in Hi. eapply same_pending_trans; [exact Hi|apply mark_pending].
Qed.

Lemma promote_pending files promote : forall t, same_pending t (snd (promote_files g t files promote)).
Proof using Type.
  induction files as [|file files IH]; intros t; [done|]. cbn. case_match; [|apply IH]. case_match; [|done].
  eapply same_pending_trans, IH. unfold publish_file. by case_match.
Qed.

Lemma accept_pending t file before after off n : same_pending t (acceptFileWrite g t file before after off n).
Proof using Type.
  unfold acceptFileWrite. destruct before, after; try done. destruct (n <=? 0); [done|].
  eapply same_pending_trans, forget_pending. by destruct (fb_signatures t !! file).
Qed.

Lemma evidence_pending t op : evidence_op op -> same_pending t (backend_apply g t op).
Proof using Type.
  intros Hop. destruct op; try done; cbn.
  - case_match; [|done]. unfold BeginVerification_fresh, internSignatureLocked.
    pose proof (intern_pending (zip (files_of_piece g piece) l) t) as Hi. by destruct (intern g t _).
  - unfold MarkComplete. destruct (fb_closed t); [done|]. destruct hint; [|done]. destruct (pieceSignature g stat piece) as [current|]; [|done].
    eapply same_pending_trans, promote_pending. eapply same_pending_trans, commit_pending. done.
  - apply (forget_pending pieces t).
  - apply (invalidate_pending (bump t) file).
  - apply accept_pending.
Qed.

Lemma drop_stale_pending infos : forall t file, same_pending t (drop_stale g t file infos).
Proof using Type.
  induction infos as [|info infos IH]; intros t file; [done|]. cbn. eapply same_pending_trans, IH.
  case_match; [apply invalidate_pending|done].
Qed.

Lemma seal_capture_pending t eligible probe : same_pending t (seal_capture g t eligible probe).1.
Proof using Type.
  unfold seal_capture. destruct (negb _); [done|]. destruct (fb_closed t); [done|].
  destruct (checkpointEvidence g probe) as [[c infos]|]; [|done].
  destruct (clear_unsealable _ _ _ _) as [m|]; [destruct (clear_partial _ _ _)|]; apply drop_stale_pending.
Qed.

Lemma import_signatures_pending infos : forall t k, same_pending t (import_signatures t k infos).
Proof using Type.
  induction infos as [|info infos IH]; intros t k; [done|]. cbn. eapply same_pending_trans, IH. by repeat case_match.
Qed.

Lemma import_empty_pending files t : same_pending t (import_empty t files).
Proof using Type.
  unfold import_empty. generalize (imap pair files). intros l. revert t. induction l as [|[i f] l IH]; intros t; [done|].
  cbn. eapply same_pending_trans, IH. by case_match.
Qed.

Lemma import_pieces_pending c pieces : forall t t', fold_left (import_piece g c) pieces (Some t) = Some t' -> same_pending t t'.
Proof using Type.
  induction pieces as [|p pieces IH]; intros t t' E; [by cbn in E; simplify_eq|]. cbn in E.
  destruct (mapM _ (claimed_files g c p)) as [l|].
  - eapply same_pending_trans, IH, E. apply mark_pending.
  - exfalso. clear -E. induction pieces; [done|]. by apply IHpieces.
Qed.

(** A restore remembers the restored pieces, or changes nothing. *)
Lemma restore_pending t token probe checks moved : let t' := snd (restoreCheckpoint g t token probe checks moved) in
  same_pending t t' \/ same_pending (rememberResume t (nc_Complete (rt_proof token)) false) t'.
Proof using Type.
  unfold restoreCheckpoint. do 2 (case_match; [by left|]). destruct (fst checks); [|by left].
  destruct (checkpointEvidence g probe) as [[current infos]|]; [|by left]. case_match; [by left|].
  destruct (snd checks); [|by left]. case_match; [by right|]. right. set (imported := import_signatures _ _ _).
  assert (same_pending (rememberResume t (nc_Complete (rt_proof token)) false) imported) as Hi.
  { eapply same_pending_trans, import_signatures_pending. apply import_empty_pending. }
  case_match eqn:E; [|done]. apply import_pieces_pending in E. by eapply same_pending_trans, E.
Qed.

(** *** Revocation *)

Lemma revoke_mask_spec t begin fin mask : 0 <= begin -> revoke_mask t begin fin = Some mask ->
  length mask = length (fb_pending t) /\
  forall p, 0 <= p -> bit mask p = bool_decide (begin <= p < fin) && bit (fb_pending t) p.
Proof using Type.
  intros Hb. unfold revoke_mask. case_match; [done|]. case_match; [|done]. intros [= <-].
  destruct (fold_set_bit_spec (fb_pending t) (seqZ begin (fin - begin)) (zeros (fb_pending t))) as [Hl Hp].
  - apply length_map.
  - apply Forall_forall. intros i Hi%elem_of_seqZ. lia.
  - split; [done|]. intros p Hp0. rewrite Hp, zeros_bit by done. cbn. f_equal. apply bool_decide_ext. rewrite elem_of_seqZ. lia.
Qed.

Lemma revoke_mask_none t begin fin p : 0 <= begin -> fb_hooks t = true -> revoke_mask t begin fin = None ->
  begin <= p < fin -> bit (fb_pending t) p = false.
Proof using Type.
  intros Hb Hh. unfold revoke_mask. rewrite Hh. cbn [negb orb]. case_match eqn:E.
  - intros _ _. apply Nat.eqb_eq, length_zero_iff_nil in E. rewrite E. apply bit_nil.
  - case_match eqn:Ex; [done|]. intros _ Hp. destruct (bit (fb_pending t) p) eqn:Eb; [|done].
    assert (existsb (bit (fb_pending t)) (seqZ begin (fin - begin)) = true); [|congruence].
    apply existsb_exists. exists p. split; [|done]. apply list_elem_of_In, elem_of_seqZ. lia.
Qed.

Record revocation_ok (begin fin : Z) (w : W) (t : fileTorrentImpl) (r : result storage_error unit) (w' : W) (t' : fileTorrentImpl)
    : Prop := mkRevocationOk {
  ro_hooks : fb_hooks t' = fb_hooks t;
  ro_length : length (fb_pending t') = length (fb_pending t);
  ro_less p : 0 <= p -> claimed w' p -> claimed w p;
  ro_pending p : 0 <= p -> bit (fb_pending t') p = true -> bit (fb_pending t) p = true;
  ro_covered p : 0 <= p -> (claimed w p -> bit (fb_pending t) p = true) -> claimed w' p -> bit (fb_pending t') p = true;
  ro_cleared p : r = Ok tt -> fb_hooks t = true -> begin <= p < fin -> bit (fb_pending t') p = false;
}.

Lemma revocation_step_ok begin fin w t r w' t' : 0 <= begin -> revocation_step begin fin w t r w' t' ->
  revocation_ok begin fin w t r w' t'.
Proof using Type.
  intros Hb [? ? Hm|? ? mask discarded ? Hm Hr|? ? mask e ? Hm Hr].
  - split; try done; auto. intros p _ Hh. by apply revoke_mask_none.
  - destruct (revoke_mask_spec _ _ _ _ Hb Hm) as [Hl Hmask]. unfold revoked_locally.
    match goal with |- context [fold_left _ ?range ?t0] =>
      destruct (forget_masked_pending mask range t0) as [Hh Hp]; set (t1 := fold_left _ range t0) in * end.
    assert (fb_pending (bump t1) = if discarded then zeros (fb_pending t0) else and_not_into (fb_pending t0) mask) as Ep by exact Hp.
    assert (forall p, 0 <= p -> bit (fb_pending (bump t1)) p = true -> bit (fb_pending t0) p = true /\ discarded = false /\ bit mask p = false) as Hless.
    { intros p Hp0. rewrite Ep. destruct discarded; [by rewrite zeros_bit|]. rewrite and_not_into_bit by done.
      intros [? ?%negb_true_iff]%andb_true_iff. done. }
    split.
    + exact Hh.
    + rewrite Ep. destruct discarded; [apply length_map|apply and_not_into_length].
    + intros p Hp0 Hc. destruct discarded; [by eapply revokes_all in Hc|]. by eapply revokes_mask in Hc as [? _].
    + intros p Hp0 Hc. by apply Hless.
    + intros p Hp0 Hcov Hc. destruct discarded; [by eapply revokes_all in Hc|]. eapply revokes_mask in Hc as [Hc Hbit]; [|done|done].
      rewrite Ep, and_not_into_bit, Hbit by done. by rewrite (Hcov Hc).
    + intros p _ _ Hrange. destruct (bit (fb_pending (bump t1)) p) eqn:E; [|done]. apply Hless in E as (E1 & _ & E2); [|lia].
      rewrite Hmask, bool_decide_true, E1 in E2 by lia. done.
  - split; try done; auto.
    + intros p Hp. by eapply revokes_error.
    + intros p Hp Hcov Hc. by eapply Hcov, revokes_error.
Qed.

(** ** The invariant *)

Definition bitmap_size : Z := Z.quot (sl_NumPieces g + 7) 8.

Lemma valid_bits_size mask : validCheckpointBits mask (sl_NumPieces g) = true -> Z.of_nat (length mask) = bitmap_size.
Proof using Type. unfold validCheckpointBits, bitmap_size. intros H. split_bools. lia. Qed.

Definition cleared (t : fileTorrentImpl) (off n : Z) : Prop :=
  forall p, p ∈ pieces_of g off n -> bit (fb_pending t) p = false.

Definition writer_ok (t : fileTorrentImpl) (wr : writer) : Prop :=
  match wr with
  | WAdmitted off n => in_section off n
  | WRevoked off n => in_section off n /\ cleared t off n
  | WWriting off n todo => in_section off n /\ cleared t off n /\ todo ⊆ locate g off n
  | WOpened off n part todo => in_section off n /\ cleared t off n /\ (part :: todo) ⊆ locate g off n
  end.

(** No piece of a checkpoint has an unflushed part. *)
Definition clean (c : FileCheckpoint) (dirty : gset (nat * Z)) : Prop :=
  forall i p, (i, p) ∈ dirty -> bit (nc_Complete c) p = false.

Definition flushed_except (c : FileCheckpoint) (todo : list nat) (dirty : gset (nat * Z)) : Prop :=
  forall i p, (i, p) ∈ dirty -> i ∈ seal_targets c -> i ∈ todo.

Definition seal_ok (t : fileTorrentImpl) (seal : sealing) (dirty : gset (nat * Z)) : Prop :=
  match seal with
  | SIdle => True
  | SFlushing c todo _ => geometry g c /\ Z.of_nat (length (nc_Complete c)) = bitmap_size /\ flushed_except c todo dirty
  | SRemembered c _ touched => Z.of_nat (length (nc_Complete c)) = bitmap_size /\ clean c dirty /\
      (touched = false -> forall p, 0 <= p -> bit (nc_Complete c) p = true -> bit (fb_pending t) p = true)
  | SPublished c _ => Z.of_nat (length (nc_Complete c)) = bitmap_size /\ clean c dirty
  end.

(** The pieces a write revokes: the pending ones, and what was just published. *)
Definition covered (t : fileTorrentImpl) (seal : sealing) (p : Z) : Prop :=
  match seal with
  | SPublished c _ => bit (nc_Complete c) p = true
  | _ => bit (fb_pending t) p = true
  end.

Record backend_ok (w : W) (t : fileTorrentImpl) (writers : gmap nat writer) (seal : sealing) (dirty : gset (nat * Z)) : Prop := mkBackendOk {
  bo_hooks : fb_hooks t = true;
  bo_length : Z.of_nat (length (fb_pending t)) = bitmap_size;
  bo_covered p : 0 <= p -> claimed w p -> covered t seal p;
  bo_seal : seal_ok t seal dirty;
  bo_writers id wr : writers !! id = Some wr -> seal = SIdle /\ writer_ok t wr;
}.

Definition part_ok (part : nat * Z) : Prop :=
  0 <= snd part /\ exists f, sl_files g !! fst part = Some f /\ 0 < e_Length f /\
    in_piece (sl_PieceLength g) (e_Start f) (e_Length f) (snd part).

Record safe (s : system) : Prop := mkSafe {
  sf_dirty part : part ∈ y_dirty s -> part_ok part /\ ~ claimed (y_claims s) (snd part);
  sf_backend : match y_backend s with
               | Some t => backend_ok (y_claims s) t (y_writers s) (y_seal s) (y_dirty s)
               | None => y_writers s = ∅ /\ y_seal s = SIdle
               end;
}.

(** *** Frames *)

Lemma safe_less w w' b writers seal dirty dirty' : safe (mkSystem w b writers seal dirty) ->
  (forall p, 0 <= p -> claimed w' p -> claimed w p) -> dirty' ⊆ dirty -> safe (mkSystem w' b writers seal dirty').
Proof using Type.
  intros [Hd Hb] Hw Hsub. split; cbn in *.
  - intros part Hp. destruct (Hd part (Hsub _ Hp)) as [Hpo Hc]. split; [done|]. intros Hc'. apply Hc, Hw; [apply Hpo|done].
  - destruct b as [t|]; [|done]. destruct Hb as [H1 H2 H3 H4 H5]. split; try done.
    + intros p Hp Hc. by apply H3, Hw.
    + destruct seal; cbn in *; unfold flushed_except, clean in *; naive_solver.
Qed.

Lemma writer_same t t' wr : fb_pending t' = fb_pending t -> writer_ok t wr -> writer_ok t' wr.
Proof using Type. intros E. destruct wr; cbn; unfold cleared; by rewrite ?E. Qed.

Lemma safe_same w t t' writers seal dirty : safe (mkSystem w (Some t) writers seal dirty) -> same_pending t t' ->
  safe (mkSystem w (Some t') writers seal dirty).
Proof using Type.
  intros [Hd [H1 H2 H3 H4 H5]] [Hh Hp]. cbn in *. split; [done|]. cbn. split.
  - congruence.
  - by rewrite Hp.
  - intros p Hp0 Hc. specialize (H3 p Hp0 Hc). destruct seal; cbn in *; congruence.
  - destruct seal; cbn in *; rewrite ?Hp; done.
  - intros id wr Hw. destruct (H5 id wr Hw) as [? ?]. split; [done|]. by eapply writer_same.
Qed.

Lemma pieces_nonneg off n p : layout_ok g -> 0 <= off -> p ∈ pieces_of g off n -> 0 <= p.
Proof using Type.
  intros Hg Ho Hp%elem_of_seqZ. pose proof (lo_length _ Hg). unfold first_piece in Hp. rewrite Z.quot_div_nonneg in Hp by lia.
  pose proof (Z.div_pos off (sl_PieceLength g) ltac:(lia) ltac:(lia)). lia.
Qed.

Lemma section_nonneg off n : layout_ok g -> in_section off n -> 0 <= off.
Proof using Type. intros Hg (_ & p & Hp & Hoff & _). pose proof (lo_length _ Hg). nia. Qed.

Lemma writer_less t t' wr : layout_ok g -> (forall p, 0 <= p -> bit (fb_pending t') p = true -> bit (fb_pending t) p = true) ->
  writer_ok t wr -> writer_ok t' wr.
Proof using Type.
  intros Hg Hless. assert (forall off n, in_section off n -> cleared t off n -> cleared t' off n) as Hc.
  { intros off n Hin Hcl p Hp. destruct (bit (fb_pending t') p) eqn:E; [|done].
    apply Hless in E; [|by eapply pieces_nonneg, Hp; [|eapply section_nonneg]]. by rewrite (Hcl p Hp) in E. }
  destruct wr; cbn; naive_solver.
Qed.

Lemma safe_revoked begin fin w t r w' t' writers seal dirty : layout_ok g ->
  safe (mkSystem w (Some t) writers seal dirty) -> revocation_ok begin fin w t r w' t' ->
  safe (mkSystem w' (Some t') writers (touch seal) dirty).
Proof using Type.
  intros Hg [Hd [H1 H2 H3 H4 H5]] [R1 R2 R3 R4 R5 _]. cbn in *. split; cbn.
  - intros part Hp. destruct (Hd part Hp) as [Hpo Hc]. split; [done|]. intros Hc'. apply Hc, R3; [apply Hpo|done].
  - split.
    + congruence.
    + lia.
    + intros p Hp0 Hc. destruct seal; cbn; try (apply R5; [done|by apply H3|done]). by apply (H3 p), R3.
    + destruct seal; cbn in *; naive_solver.
    + intros id wr Hw. destruct (H5 id wr Hw) as [-> ?]. split; [done|]. by eapply writer_less.
Qed.

(** *** Writes *)

Lemma pieces_of_spec off n p : layout_ok g -> 0 <= off -> 0 < n -> off + n <= max_i64 ->
  p ∈ pieces_of g off n <-> in_piece (sl_PieceLength g) off n p.
Proof using Type.
  intros Hg Ho Hn Hm. pose proof (lo_length _ Hg). unfold max_i64 in *. unfold pieces_of, first_piece, end_piece. rewrite elem_of_seqZ, in_piece_spec by lia.
  rewrite !i64_id by (rewrite ?i64_id by (unfold in_i64; lia); unfold in_i64; lia). rewrite !Z.quot_div_nonneg by lia. lia.
Qed.

Lemma section_bound off n : layout_ok g -> in_section off n -> off + n <= extent_end (sl_files g) /\
  extent_end (sl_files g) <= max_i64.
Proof using Type.
  intros Hg (Hn & p & Hp & Hoff & Hend). pose proof (lo_piece _ Hg p Hp). pose proof (lo_bound _ Hg). pose proof (lo_length _ Hg). lia.
Qed.

(** What a write changes lies in its file, and in the pieces it has revoked. *)
Lemma located_part off n part p : layout_ok g -> in_section off n -> part ∈ locate g off n -> p ∈ part_pieces part ->
  part_ok (fst part, p) /\ p ∈ pieces_of g off n.
Proof using Type.
  intros Hg Hin Hpart Hp. pose proof (section_nonneg _ _ Hg Hin). pose proof (section_bound _ _ Hg Hin) as [? ?].
  pose proof Hin as (Hn & q & Hq & Hoff & Hend). destruct part as [i e].
  apply (located g Hg off n i e) in Hpart as (f & Hf & Hlo & Hhi & ->); [|by apply (lo_section _ Hg q)|done|done|done].
  pose proof (file_bounds g Hg i f Hf). unfold part_pieces in Hp. cbn in Hp. rewrite Hf in Hp.
  case_match; [by apply not_elem_of_nil in Hp|]. split_bools.
  apply pieces_of_spec in Hp as (b & Hb & <-); [|done|lia|lia|unfold max_i64 in *; lia].
  assert (off <= b < off + n /\ e_Start f <= b < e_Start f + e_Length f) as [? ?] by lia. split.
  - split; [apply Z.div_pos; [lia|apply Hg]|]. exists f. cbn. split_and!; [done|lia|]. by exists b.
  - apply pieces_of_spec; [done|done|done|lia|]. by exists b.
Qed.

Lemma dirtied_elem file pieces part : part ∈ dirtied file pieces <-> fst part = file /\ snd part ∈ pieces.
Proof using Type.
  unfold dirtied. rewrite elem_of_list_to_set, list_elem_of_fmap. destruct part as [i p]. cbn. split.
  - intros (q & [= -> ->] & Hq). done.
  - intros [-> Hp]. eauto.
Qed.

(** New dirty parts whose pieces are not pending, while no seal is running. *)
Lemma safe_dirtied w t writers dirty file pieces : safe (mkSystem w (Some t) writers SIdle dirty) ->
  (forall p, p ∈ pieces -> part_ok (file, p) /\ bit (fb_pending t) p = false) ->
  safe (mkSystem w (Some t) writers SIdle (dirtied file pieces ∪ dirty)).
Proof using Type.
  intros [Hd [H1 H2 H3 H4 H5]] Hnew. cbn in *. split; [|done]. cbn. intros part [Hp|Hp]%elem_of_union; [|by apply Hd].
  apply dirtied_elem in Hp as [Hf Hp]. destruct part as [i p]. cbn in *. subst i. destruct (Hnew p Hp) as [Hpo Hb]. split; [done|].
  intros Hc. apply H3 in Hc; [|apply Hpo]. cbn in Hc. congruence.
Qed.

Lemma whole_file_part file p : layout_ok g -> p ∈ whole_file file -> part_ok (file, p) /\
  exists begin fin, file_pieces g file = Some (begin, fin) /\ 0 <= begin <= p /\ p < fin.
Proof using Type.
  intros Hg. unfold whole_file. destruct (file_pieces g file) as [[begin fin]|] eqn:E; [|intros []%not_elem_of_nil].
  intros Hp. pose proof (lo_length _ Hg). pose proof (lo_bound _ Hg). unfold file_pieces in E.
  destruct (sl_files g !! file) as [f|] eqn:Hf; [|done]. case_match; [done|]. simplify_eq. split_bools.
  pose proof (file_bounds g Hg file f Hf). assert (p ∈ pieces_of g (e_Start f) (e_Length f)) as Hp' by exact Hp.
  pose proof (pieces_nonneg (e_Start f) (e_Length f) p Hg ltac:(lia) Hp'). apply elem_of_seqZ in Hp. split.
  - split; [done|]. exists f. cbn. split_and!; [done|lia|]. by apply pieces_of_spec in Hp'; [|done|lia|lia|lia].
  - eexists _, _. split; [done|]. unfold first_piece in *. rewrite Z.quot_div_nonneg in * by lia.
    pose proof (Z.div_pos (e_Start f) (sl_PieceLength g) ltac:(lia) ltac:(lia)). lia.
Qed.

Lemma guard_clear t file st p : fb_hooks t = true -> guardResumeFileWrite g t file st = false -> synthesizes file st = true ->
  p ∈ whole_file file -> bit (fb_pending t) p = false.
Proof using Type.
  intros Hh Hgd Hs Hp. unfold whole_file in Hp. destruct (file_pieces g file) as [[begin fin]|] eqn:E; [|by apply not_elem_of_nil in Hp].
  unfold guardResumeFileWrite in Hgd. rewrite E, Hh in Hgd. destruct (sl_files g !! file) as [f|] eqn:Hf; cycle 1.
  { unfold file_pieces in E. by rewrite Hf in E. }
  assert (match st with Some st => (fi_bytes st >=? e_Length f) && signature_valid t file (fun s => matches (sl_managed g) s st) | None => false end = false) as Hst.
  { unfold synthesizes in Hs. destruct st as [st|]; [|done]. rewrite Hf in Hs. apply Z.ltb_lt in Hs.
    destruct (Z.geb_spec (fi_bytes st) (e_Length f)); [lia|done]. }
  destruct st as [st|]; rewrite ?Hst in Hgd; cbn [negb andb] in Hgd; rewrite andb_true_r in Hgd; apply andb_false_iff in Hgd as [Hn|Hn].
  1,3: apply negb_false_iff, Nat.eqb_eq, length_zero_iff_nil in Hn; rewrite Hn; apply bit_nil.
  all: destruct (bit (fb_pending t) p) eqn:Eb; [|done];
    assert (existsb (bit (fb_pending t)) (seqZ begin (fin - begin)) = true); [|congruence];
    apply existsb_exists; exists p; split; [by apply list_elem_of_In|done].
Qed.

(** A writer moves on. *)
Lemma safe_writer w t writers seal dirty id wr wr' : safe (mkSystem w (Some t) writers seal dirty) ->
  writers !! id = Some wr -> writer_ok t wr' -> safe (mkSystem w (Some t) (<[id := wr']> writers) seal dirty).
Proof using Type.
  intros [Hd [H1 H2 H3 H4 H5]] Hw Hok. cbn in *. split; [done|]. cbn. split; try done.
  intros id' wr0 Hw'. apply lookup_insert_Some in Hw' as [[_ <-]|[_ Hw']]; [|by apply (H5 id')]. split; [by apply (H5 id wr)|done].
Qed.

Lemma safe_writer_ok w t writers seal dirty id wr : safe (mkSystem w (Some t) writers seal dirty) -> writers !! id = Some wr ->
  seal = SIdle /\ writer_ok t wr /\ fb_hooks t = true.
Proof using Type. intros [_ [H1 _ _ _ H5]] Hw. cbn in *. destruct (H5 _ _ Hw). done. Qed.

Lemma opening_safe w t writers dirty file st : safe (mkSystem w (Some t) writers SIdle dirty) -> layout_ok g ->
  (synthesizes file st = true -> forall p, p ∈ whole_file file -> bit (fb_pending t) p = false) ->
  safe (mkSystem w (Some t) writers SIdle (opening_dirties file st ∪ dirty)).
Proof using Type.
  intros Hs Hg Hc. unfold opening_dirties. destruct (synthesizes file st).
  - apply safe_dirtied; [done|]. intros p Hp. split; [by apply whole_file_part|by apply Hc].
  - by rewrite union_empty_l_L.
Qed.

(** The steps of [WriteAt]. *)
Lemma write_revoke_safe w t writers seal dirty id off n w' t' : layout_ok g ->
  safe (mkSystem w (Some t) writers seal dirty) -> writers !! id = Some (WAdmitted off n) ->
  revocation_step (first_piece g off) (end_piece g off n) w t (Ok tt) w' t' ->
  safe (mkSystem w' (Some t') (<[id := WRevoked off n]> writers) seal dirty).
Proof using Type.
  intros Hg Hs Hw Hr. destruct (safe_writer_ok _ _ _ _ _ _ _ Hs Hw) as (-> & Hin & Hh). cbn in Hin.
  pose proof (section_nonneg _ _ Hg Hin). pose proof (lo_length _ Hg).
  apply revocation_step_ok in Hr; [|unfold first_piece; rewrite Z.quot_div_nonneg by lia; apply Z.div_pos; lia].
  pose proof (safe_revoked _ _ _ _ _ _ _ _ _ _ Hg Hs Hr) as Hs'. eapply safe_writer; [exact Hs'|exact Hw|]. split; [done|].
  intros p Hp%elem_of_seqZ. apply (ro_cleared _ _ _ _ _ _ _ Hr); [done|done|lia].
Qed.

Lemma write_guard_safe w t writers seal dirty id off n part todo st : layout_ok g ->
  safe (mkSystem w (Some t) writers seal dirty) -> writers !! id = Some (WWriting off n (part :: todo)) ->
  guardResumeFileWrite g t (fst part) st = false ->
  safe (mkSystem w (Some t) (<[id := WOpened off n part todo]> writers) seal (opening_dirties (fst part) st ∪ dirty)).
Proof using Type.
  intros Hg Hs Hw Hgd. destruct (safe_writer_ok _ _ _ _ _ _ _ Hs Hw) as (-> & Hok & Hh).
  eapply safe_writer; [|exact Hw|exact Hok]. apply opening_safe; [done|done|]. intros Hsy p. by apply guard_clear with (st := st).
Qed.

Lemma write_guard_revoke_safe w t writers seal dirty id off n part todo st begin fin w' t' : layout_ok g ->
  safe (mkSystem w (Some t) writers seal dirty) -> writers !! id = Some (WWriting off n (part :: todo)) ->
  file_pieces g (fst part) = Some (begin, fin) ->
  revocation_step begin fin w (revokeResumeFile_fresh t (fst part)) (Ok tt) w' t' ->
  safe (mkSystem w' (Some t') (<[id := WOpened off n part todo]> writers) seal (opening_dirties (fst part) st ∪ dirty)).
Proof using Type.
  intros Hg Hs Hw Hf Hr. destruct (safe_writer_ok _ _ _ _ _ _ _ Hs Hw) as (-> & _ & Hh).
  pose proof (invalidate_pending (bump t) (fst part)) as Hsame.
  assert (same_pending t (revokeResumeFile_fresh t (fst part))) as Hsp by exact Hsame.
  apply (safe_same _ _ (revokeResumeFile_fresh t (fst part))) in Hs; [|done].
  destruct (safe_writer_ok _ _ _ _ _ _ _ Hs Hw) as (_ & _ & Hh').
  assert (0 <= begin) as Hb.
  { unfold file_pieces in Hf. destruct (sl_files g !! fst part) as [f|] eqn:E; [|done]. case_match; [done|]. simplify_eq.
    pose proof (file_bounds g Hg _ f E). pose proof (lo_length _ Hg). unfold first_piece. rewrite Z.quot_div_nonneg by lia. apply Z.div_pos; lia. }
  apply revocation_step_ok in Hr; [|done]. pose proof (safe_revoked _ _ _ _ _ _ _ _ _ _ Hg Hs Hr) as Hs'. cbn [touch] in Hs'.
  destruct (safe_writer_ok _ _ _ _ _ _ _ Hs' Hw) as (_ & Hok & _).
  eapply safe_writer; [|exact Hw|exact Hok]. apply opening_safe; [done|done|]. intros _ p Hp.
  apply (ro_cleared _ _ _ _ _ _ _ Hr); [done|done|]. apply whole_file_part in Hp as (_ & b & fn & E & ?); [|done]. simplify_eq. lia.
Qed.

Lemma write_payload_safe w t writers seal dirty id off n part todo : layout_ok g ->
  safe (mkSystem w (Some t) writers seal dirty) -> writers !! id = Some (WOpened off n part todo) ->
  safe (mkSystem w (Some t) (<[id := WWriting off n todo]> writers) seal (dirtied (fst part) (part_pieces part) ∪ dirty)).
Proof using Type.
  intros Hg Hs Hw. destruct (safe_writer_ok _ _ _ _ _ _ _ Hs Hw) as (-> & (Hin & Hcl & Hsub) & Hh).
  eapply safe_writer; [|exact Hw|split_and!; [done|done|intros q Hq; apply Hsub; by apply elem_of_cons; right]].
  apply safe_dirtied; [done|]. intros p Hp. destruct (located_part off n part p) as [Hpo Hpp]; try done.
  { apply Hsub. by apply elem_of_cons; left. } split; [done|]. by apply Hcl.
Qed.

(** The steps of a seal: no writer runs during one. *)
Lemma safe_sealing w t t' w' writers seal seal' dirty : safe (mkSystem w (Some t) writers seal dirty) -> seal ≠ SIdle ->
  fb_hooks t' = true -> Z.of_nat (length (fb_pending t')) = bitmap_size ->
  (forall part, part ∈ dirty -> part_ok part -> ~ claimed w (snd part) -> ~ claimed w' (snd part)) ->
  (forall p, 0 <= p -> claimed w' p -> covered t' seal' p) -> seal_ok t' seal' dirty ->
  safe (mkSystem w' (Some t') writers seal' dirty).
Proof using Type.
  intros [Hd [H1 H2 H3 H4 H5]] Hne Hh Hl Hdirty Hc Hok. cbn in *. split; cbn.
  - intros part Hp. destruct (Hd part Hp) as [Hpo Hn]. split; [done|]. by apply Hdirty.
  - split; try done. intros id wr Hw. by destruct (H5 id wr Hw).
Qed.

Lemma remembered_pending t mask : fb_hooks t = true -> length mask = length (fb_pending t) ->
  fb_hooks (rememberResume t mask false) = true /\ length (fb_pending (rememberResume t mask false)) = length (fb_pending t) /\
  forall p, 0 <= p -> bit (fb_pending (rememberResume t mask false)) p = bit (fb_pending t) p || bit mask p.
Proof using Type.
  intros Hh Hl. unfold rememberResume. rewrite Hh. cbn [negb orb]. case_match eqn:E; cbn.
  - apply Nat.eqb_eq, length_zero_iff_nil in E. split; [done|]. rewrite E in *. apply length_zero_iff_nil in Hl. by subst.
  - split; [done|]. split; [apply or_into_length|]. intros p Hp. by apply or_into_bit.
Qed.

Lemma flushed_clean c dirty : layout_ok g -> geometry g c -> flushed_except c [] dirty ->
  (forall part, part ∈ dirty -> part_ok part) -> clean c dirty.
Proof using Type.
  intros Hg Hge Hfl Hpo i p Hp. destruct (bit (nc_Complete c) p) eqn:Hb; [|done]. exfalso.
  destruct (Hpo _ Hp) as (Hp0 & f & Hf & Hlen & Hin). cbn in *. rewrite <- (ge_files _ _ Hge), list_lookup_fmap in Hf.
  apply fmap_Some in Hf as (cf & Hcf & ->). cbn in *.
  eapply not_elem_of_nil, (Hfl i p Hp). by eapply sealed_file_flushed.
Qed.

Lemma seal_start_safe w t dirty eligible probe t' r : layout_ok g -> safe (mkSystem w (Some t) ∅ SIdle dirty) ->
  seal_capture g t eligible probe = (t', r) ->
  safe (mkSystem w (Some t') ∅ (match r with Ok c => SFlushing c (seal_targets c) (fb_epoch t) | Err _ => SIdle end) dirty).
Proof using Type.
  intros Hg Hs E. pose proof (seal_capture_pending t eligible probe) as Hp. rewrite E in Hp. apply (safe_same _ _ t') in Hs; [|exact Hp].
  destruct r as [c|]; [|done]. destruct Hs as [Hd [H1 H2 H3 H4 H5]]. cbn in *. split; [done|]. cbn. split; try done. cbn.
  assert (validCheckpointBits eligible (sl_NumPieces g) = true /\ fb_closed t = false) as [Hv Ho].
  { unfold seal_capture in E. destruct (validCheckpointBits _ _); [|done]. by destruct (fb_closed t). }
  pose proof (seal_capture_spec g Hg t eligible probe Ho Hv) as Hspec. rewrite E in Hspec.
  destruct Hspec as (infos & _ & _ & Hge & Hl & _). split; [done|]. split; [rewrite Hl; by apply valid_bits_size|]. by intros i p _ Hi.
Qed.

Lemma seal_remember_safe w t writers dirty c revision : layout_ok g ->
  safe (mkSystem w (Some t) writers (SFlushing c [] revision) dirty) ->
  safe (mkSystem w (Some (rememberResume t (nc_Complete c) false)) writers (SRemembered c revision false) dirty).
Proof using Type.
  intros Hg Hs. pose proof Hs as [Hd [H1 H2 H3 (Hge & Hl & Hfl) H5]]. cbn in *.
  destruct (remembered_pending t (nc_Complete c) H1 ltac:(lia)) as (Hh & Hlen & Hbits).
  eapply safe_sealing; [exact Hs|done|done|lia|done| |].
  - intros p Hp Hc. cbn. rewrite Hbits by done. specialize (H3 p Hp Hc). cbn in H3. by rewrite H3.
  - cbn. split; [done|]. split; [eapply flushed_clean; try done; intros; by apply Hd|]. intros _ p Hp Hb. rewrite Hbits, Hb by done.
    apply orb_true_r.
Qed.

Lemma seal_lost_safe w t writers dirty c revision w' : safe (mkSystem w (Some t) writers (SRemembered c revision false) dirty) ->
  publishes_claims w c true w' -> safe (mkSystem w' (Some t) writers SIdle dirty).
Proof using Type.
  intros Hs Hpub. pose proof Hs as [Hd [H1 H2 H3 (Hl & Hcl & Hrem) H5]]. cbn in *. eapply safe_sealing; [exact Hs|done|done|done| | |done].
  - intros [i p] Hp [Hp0 _] _ Hc. cbn in *. eapply publishes_exactly in Hc; [|done|done]. by rewrite (Hcl i p Hp) in Hc.
  - intros p Hp Hc. cbn. apply Hrem; [done|done|]. by eapply publishes_exactly.
Qed.

Lemma seal_published_safe w t writers dirty c revision touched w' :
  safe (mkSystem w (Some t) writers (SRemembered c revision touched) dirty) ->
  publishes_claims w c true w' -> safe (mkSystem w' (Some t) writers (SPublished c revision) dirty).
Proof using Type.
  intros Hs Hpub. pose proof Hs as [Hd [H1 H2 H3 (Hl & Hcl & Hrem) H5]]. cbn in *. eapply safe_sealing; [exact Hs|done|done|done| | |done].
  - intros [i p] Hp [Hp0 _] _ Hc. cbn in *. eapply publishes_exactly in Hc; [|done|done]. by rewrite (Hcl i p Hp) in Hc.
  - intros p Hp Hc. cbn. by eapply publishes_exactly.
Qed.

Lemma restore_safe w t dirty claims probe0 token probe checks moved : safe (mkSystem w (Some t) ∅ SIdle dirty) ->
  proof_of g claims probe0 token ->
  safe (mkSystem w (Some (snd (restoreCheckpoint g t token probe checks moved))) ∅ SIdle dirty).
Proof using Type.
  intros Hs Hpo. destruct (restore_pending t token probe checks moved) as [Hsame|Hsame]; [by eapply safe_same|].
  eapply safe_same; [|exact Hsame]. destruct Hs as [Hd [H1 H2 H3 _ _]]. cbn in *.
  pose proof (valid_bits_size _ (po_bits _ _ _ _ Hpo)). pose proof (po_length _ _ _ _ Hpo).
  destruct (remembered_pending t (nc_Complete (rt_proof token)) H1 ltac:(lia)) as (Hh & Hlen & Hbits).
  split; [done|]. cbn. split; try done; [lia|]. intros p Hp Hc. cbn. rewrite Hbits by done.
  specialize (H3 p Hp Hc). cbn in H3. by rewrite H3.
Qed.

Lemma open_safe w pending w' b dirty : safe (mkSystem w b ∅ SIdle dirty) -> opens w pending w' ->
  validCheckpointBits pending (sl_NumPieces g) = true ->
  safe (mkSystem w' (Some (opened true pending)) ∅ SIdle dirty).
Proof using Type.
  intros [Hd _] Ho Hv. cbn in *. split; cbn.
  - intros part Hp. destruct (Hd part Hp) as [Hpo Hc]. split; [done|]. intros Hc'. apply Hc. eapply opens_less; [done|apply Hpo|done].
  - split; try done; [by apply valid_bits_size|]. intros p Hp Hc. cbn. by eapply opens_pending.
Qed.

Lemma admit_safe w t writers dirty id off n : safe (mkSystem w (Some t) writers SIdle dirty) -> in_section off n ->
  safe (mkSystem w (Some t) (<[id := WAdmitted off n]> writers) SIdle dirty).
Proof using Type.
  intros [Hd [H1 H2 H3 H4 H5]] Hin. cbn in *. split; [done|]. cbn. split; try done.
  intros id' wr Hw. apply lookup_insert_Some in Hw as [[_ <-]|[_ Hw]]; [done|by apply (H5 id')].
Qed.

Lemma return_safe w b writers seal dirty id : safe (mkSystem w b writers seal dirty) ->
  safe (mkSystem w b (delete id writers) seal dirty).
Proof using Type.
  intros [Hd Hb]. cbn in *. split; [done|]. cbn. destruct b as [t|]; [|by destruct Hb as [-> ->]].
  destruct Hb as [H1 H2 H3 H4 H5]. split; try done. intros id' wr Hw. apply lookup_delete_Some in Hw as [_ Hw]. by apply (H5 id').
Qed.

Lemma write_prepare_safe w t writers seal dirty id off n : safe (mkSystem w (Some t) writers seal dirty) ->
  writers !! id = Some (WRevoked off n) ->
  safe (mkSystem w (Some (WriteAt_prepare g t off n)) (<[id := WWriting off n (locate g off n)]> writers) seal dirty).
Proof using Type.
  intros Hs Hw. destruct (safe_writer_ok _ _ _ _ _ _ _ Hs Hw) as (-> & (Hin & Hcl) & Hh).
  assert (same_pending t (WriteAt_prepare g t off n)) as Hsame.
  { unfold WriteAt_prepare. case_match; [done|]. apply (forget_pending (pieces_of g off n) t). }
  eapply safe_writer; [by eapply safe_same|done|]. split; [done|]. split; [|done].
  intros p Hp. destruct Hsame as [_ ->]. by apply Hcl.
Qed.

Lemma seal_flush_safe w t writers dirty c file todo revision :
  safe (mkSystem w (Some t) writers (SFlushing c (file :: todo) revision) dirty) ->
  safe (mkSystem w (Some t) writers (SFlushing c todo revision) (filter (fun part => fst part ≠ file) dirty)).
Proof using Type.
  intros Hs. pose proof Hs as [_ [H1 H2 H3 (Hge & Hl & Hfl) _]]. cbn in *.
  eapply (safe_less _ w _ _ _ _ (filter (fun part => fst part ≠ file) dirty)) in Hs;
    [|done|intros part Hp; by apply elem_of_filter in Hp as [_ ?]].
  eapply safe_sealing; [exact Hs|done..|]. split; [done|]. split; [done|]. intros i p Hp Hi.
  apply elem_of_filter in Hp as [Hne Hp]. cbn in Hne. pose proof (Hfl i p Hp Hi) as Hin.
  apply elem_of_cons in Hin as [->|Hin]; done.
Qed.

Lemma seal_refused_safe w t writers dirty c revision touched w' :
  safe (mkSystem w (Some t) writers (SRemembered c revision touched) dirty) ->
  publishes_claims w c false w' -> safe (mkSystem w' (Some t) writers SIdle dirty).
Proof using Type.
  intros Hs Hpub. pose proof Hs as [Hd [H1 H2 H3 _ _]]. cbn in *. eapply safe_sealing; [exact Hs|done..| | |done].
  - intros [i p] _ [Hp0 _] Hn Hc. by eapply Hn, publishes_nothing.
  - intros p Hp Hc. apply H3; [done|]. by eapply publishes_nothing.
Qed.

Lemma seal_finish_safe w t writers dirty c revision : safe (mkSystem w (Some t) writers (SPublished c revision) dirty) ->
  safe (mkSystem w (Some (seal_finish t c revision)) writers SIdle dirty).
Proof using Type.
  intros Hs. pose proof Hs as [Hd [H1 H2 H3 [Hl Hcl] _]]. cbn in *.
  assert (fb_pending (seal_finish t c revision) = nc_Complete c /\ fb_hooks (seal_finish t c revision) = true) as [Ep Eh].
  { unfold seal_finish, rememberResume. by rewrite H1. }
  eapply safe_sealing; [exact Hs|done|done|by rewrite Ep|done| |done]. intros p Hp Hc. unfold covered. rewrite Ep. by apply (H3 p).
Qed.

(** A seal runs on an open backend. *)
Lemma sealing_backend w b writers seal dirty : safe (mkSystem w b writers seal dirty) -> seal ≠ SIdle -> exists t, b = Some t.
Proof using Type. intros [_ Hb] Hne. destruct b as [t|]; [by exists t|]. by destruct Hb as [_ ?]. Qed.

Ltac backend := match goal with H : safe (mkSystem _ ?b _ _ _) |- _ =>
  destruct (sealing_backend _ _ _ _ _ H ltac:(discriminate)) as [? ->] end.

Lemma system_step_safe s s' : layout_ok g -> system_step true s s' -> safe s -> safe s'.
Proof using Type.
  intros Hg Hstep Hs. destruct Hstep.
  - by eapply open_safe.
  - eapply safe_same; [done|]. unfold Close. by case_match.
  - destruct Hs as [Hd _]. by split.
  - eapply safe_less; [done| |done]. intros p Hp. by eapply elsewhere_less.
  - eapply safe_same; [done|]. by apply evidence_pending.
  - eapply safe_revoked; [done|done|]. by apply revocation_step_ok.
  - eapply safe_less; [done|done|]. intros part Hp. by apply elem_of_filter in Hp as [_ ?].
  - by apply admit_safe.
  - by eapply write_revoke_safe.
  - by apply write_prepare_safe.
  - by apply write_guard_safe.
  - by eapply write_guard_revoke_safe.
  - destruct (safe_writer_ok _ _ _ _ _ _ _ Hs H) as (-> & Hok & Hh). by eapply safe_writer.
  - by apply write_payload_safe.
  - by apply return_safe.
  - by eapply seal_start_safe.
  - backend. by apply seal_flush_safe.
  - backend. pose proof Hs as [Hd [H1 H2 H3 _ _]]. cbn in *. by eapply safe_sealing.
  - by eapply seal_remember_safe.
  - backend. by eapply seal_refused_safe.
  - backend. by eapply seal_published_safe.
  - backend. rewrite (H0 eq_refl) in Hs. by eapply seal_lost_safe.
  - by apply seal_finish_safe.
  - by eapply restore_safe.
Qed.

Lemma reachable_safe s : layout_ok g -> reachable true s -> safe s.
Proof using Type.
  intros Hg. induction 1 as [w Hw|s s' _ IH Hstep]; [|by eapply system_step_safe].
  split; cbn; [|done]. intros part Hp. by apply elem_of_empty in Hp.
Qed.
End System.
