(* ===== verification/ResumeSystem.v ===== *)
(** * Fast resume end to end

    The durable library as the claims the file storage relies on, and the crash
    safety of the two together. *)

From stdpp Require Import base gmap list strings.
From Stdlib Require Import ZArith Strings.Byte Lia.
From coqutil Require Import Byte.
From S2P Require Import Prelude Models FastResume Codec Segments Tables IntentStore StorageStore ResumeStore Library LibraryFrame.
From S2P Require Import ResumeFences ResumeSafety ResumeProperties FileStorage FileEvidence FileSeal FileSafety.

#[local] Open Scope Z_scope.

Section Claims.
Context (fold : string -> string) (catalog_json : TorrentCatalog -> list byte) (m : StorageMapping) (record : string).
Abbreviation sid := (m_StorageID m).

(** The answer of a hook as the storage sees it: its errors are opaque. *)
Definition same_answer (r : result storage_error bool) (r' : result RepoError bool) : Prop :=
  match r, r' with
  | Ok a, Ok b => a = b
  | Err _, Err _ => True
  | _, _ => False
  end.

(** The integers of a publication hold [int64] values. *)
Definition publication_typed (a : Attachment) (token : ResumeToken) (nowMS : Z) (c : FileCheckpoint) : Prop :=
  in_i64 (tk_Generation token) /\ forall id listed, at_catalog a = Ok (id, listed) -> capture_typed id nowMS c.

(** Operations that are not a seal of this storage. *)
Definition foreign_operation (op : operation) : Prop :=
  op_typed op /\ forall m' token c, op = OpCommitResume m' token c -> m_StorageID m' ≠ sid.

Definition library_revokes (d : db) (mask : list byte) (r : result storage_error bool) (d' : db) : Prop :=
  exists r', RevokeResumeMutation fold d m record mask = (r', d') /\ same_answer r r'.

Definition library_publishes (d : db) (c : FileCheckpoint) (committed : bool) (d' : db) : Prop :=
  exists a token authorized nowMS r, publication_typed a token nowMS c /\
    seal_publish fold d m a token authorized nowMS c = (r, d') /\ committed = is_ok r.

(** The opening of a backend; a missing empty file invalidates the checkpoint
    and clears the pending pieces. *)
Definition library_opens (d : db) (pending : list byte) (d' : db) : Prop :=
  exists pieces pieceLength strict ops hooks d1, Forall foreign_operation ops /\
    NewResumeMutationHooks fold d m record pieces pieceLength strict (run fold catalog_json ops) = (Ok (Some hooks), d1) /\
    (pending = hk_Pending hooks /\ d' = d1 \/
     pending = zeros (hk_Pending hooks) /\ InvalidateResumeMutation d1 m record = (Ok tt, d')).

Definition library_elsewhere (d d' : db) : Prop :=
  exists op, foreign_operation op /\ d' = apply fold catalog_json d op.

(** *** Revocation *)

Lemma RevokeResumeMutation_error d mask e d' : RevokeResumeMutation fold d m record mask = (Err e, d') -> d' = d.
Proof using Type.
  unfold RevokeResumeMutation. destruct (LoadResume fold d m record) as [[s|]|]; [|done|by intros [= _ <-]].
  destruct (rs_Invalidated s); [done|]. destruct (rs_Checkpoint s); [|by intros [= _ <-]].
  destruct (lift _); [|by intros [= _ <-]]. destruct (RevokeResume_cases fold d m (rs_Token s) mask) as [(next & d1 & E)|(e1 & E)];
    rewrite E; by intros [= _ <-].
Qed.

Lemma RevokeResumeMutation_less d mask answer d' p : 0 <= p -> RevokeResumeMutation fold d m record mask = (Ok answer, d') ->
  claims fold d' sid p -> claims fold d sid p.
Proof using Type.
  unfold RevokeResumeMutation. intros Hp. destruct (LoadResume fold d m record) as [[s|]|]; [|by intros [= _ <-]|done].
  destruct (rs_Invalidated s); [by intros [= _ <-]|]. destruct (rs_Checkpoint s); [|done].
  destruct (lift _); [|done]. destruct (RevokeResume fold d m (rs_Token s) mask) as [[next|] d1] eqn:E; [|done].
  intros [= _ <-]. apply RevokeResume_inv, (revocation_claims fold _ _ _ _ _ _ p Hp) in E as [Hc _]. apply Hc.
Qed.

Lemma RevokeResumeMutation_discarded d mask d' p : RevokeResumeMutation fold d m record mask = (Ok true, d') ->
  ~ claims fold d' sid p.
Proof using Type.
  unfold RevokeResumeMutation. destruct (LoadResume fold d m record) as [saved|] eqn:El; [|done].
  pose proof (LoadResume_no_claims _ _ _ _ _ p El) as Hno. destruct saved as [s|]; [|intros [= <-]; by apply Hno].
  destruct (rs_Invalidated s) eqn:Ei; [intros [= <-]; by apply Hno|]. destruct (rs_Checkpoint s); [|done].
  destruct (lift _); [|done]. by destruct (RevokeResume fold d m (rs_Token s) mask) as [[next|] d1].
Qed.

(** *** Publication *)

Lemma CommitResume_exactly d token c next d' p : checkpoint_typed c -> CommitResume fold d m token c = (Ok next, d') ->
  claims fold d' sid p -> bit (Pieces c) p = true.
Proof using Type.
  intros Hty E (o' & row & c' & _ & _ & Hrow & Hdec & Hb & _).
  apply CommitResume_inv in E as (blob & o & Henc & _ & _ & _ & _ & _ & _ & _ & _ & _ & _ & _ & _ & ->).
  cbn in Hrow. rewrite lookup_insert_eq in Hrow. simplify_eq/=. apply Encode_Decode in Henc; [|done].
  by assert (c' = c) as <- by congruence.
Qed.

Lemma FromStorage_pieces a generation nowMS native c : FromStorage fold a generation nowMS native = Ok c ->
  Pieces c = nc_Complete native.
Proof using Type.
  unfold FromStorage. destruct (at_catalog a) as [[id listed]|]; [|done]. case_match; [done|].
  destruct (bind_evidence _ _); [|done]. destruct (Checkpoint_Validate fold _); [|done]. by intros [= <-].
Qed.

Lemma seal_publish_cases d a token authorized nowMS native r d' : publication_typed a token nowMS native ->
  seal_publish fold d m a token authorized nowMS native = (r, d') ->
  if is_ok r then forall p, claims fold d' sid p -> bit (nc_Complete native) p = true else d' = d.
Proof using Type.
  intros [Hgen Hty]. unfold seal_publish. destruct authorized; [|by intros [= <- <-]].
  destruct (FromStorage fold a _ nowMS native) as [c|] eqn:Ef; [|by intros [= <- <-]].
  destruct (CommitResume_cases fold d m token c) as [(next & d1 & E)|(e & E)]; rewrite E; intros [= <- <-]; [|done]. cbn.
  rewrite <- (FromStorage_pieces _ _ _ _ _ Ef). intros p. eapply CommitResume_exactly; [|exact E].
  destruct (at_catalog a) as [[id listed]|] eqn:Ea; [|by unfold FromStorage in Ef; rewrite Ea in Ef].
  destruct (FromStorage_inv _ _ _ _ _ _ _ _ Ef Ea) as (_ & Hg & Htyped & _). apply Htyped; [|by eapply Hty].
  rewrite <- Hg. unfold CommitResume in E. case_match eqn:Eg; [done|]. split_bools. unfold in_i64, max_i64 in *. lia.
Qed.

(** *** Opening *)

Lemma InvalidateResumeMutation_claims d d' p : InvalidateResumeMutation d m record = (Ok tt, d') -> ~ claims fold d' sid p.
Proof using Type.
  intros [[Hn ->]|(o & Ho & ->)]%InvalidateResumeMutation_inv (o' & row & c & Ho' & Hi & _); [congruence|].
  cbn in Ho'. rewrite lookup_alter_eq, Ho in Ho'. by simplify_eq/=.
Qed.

(** A load of a live head shows exactly what is claimed. *)
Lemma LoadResume_claims d token c revoked p :
  LoadResume fold d m record = Ok (Some (mkResumeSnapshot token false (Some c) revoked)) ->
  claims fold d sid p -> bit (Pieces c) p = true /\ bit revoked p = false /\ validBitmap (Pieces c) (PieceCount (c_Identity c)) = true /\
    length revoked = length (Pieces c).
Proof using Type.
  intros H (o' & row & c' & Ho' & Hi' & Hrow' & Hdec' & Hb & Hr). unfold LoadResume in H.
  destruct (checkResumeDurability d); [|done]. destruct (checkResumeFence d m record); [|done].
  destruct (readResumeHead d sid) as [[s|]|] eqn:Eh; [|done..].
  apply readResumeHead_Some in Eh as (o & Ho & Ht & Hi). case_match; [done|].
  destruct (rs_Invalidated s) eqn:Ei; [by simplify_eq|].
  destruct (readResumePayload d _) as [[blob rv]|] eqn:Ep; [|done].
  destruct (decodeResume fold s blob rv) as [s'|] eqn:Ed; [|done]. simplify_eq.
  apply decodeResume_inv in Ed as (c0 & Hdec & Heq & _ & _ & _ & _ & Hv). simplify_eq.
  apply readResumePayload_inv in Ep as (row0 & Hrow & <- & <- & _). rewrite Ht in Hrow. cbn in Hrow. simplify_eq.
  assert (c' = c0) as -> by congruence. pose proof (decoded_bitmap _ _ _ Hdec). split_and!; try done.
  by eapply same_bitmap_length.
Qed.

Lemma pending_bits_spec count : forall pieces revoked bits, pending_bits count pieces revoked = Some bits ->
  length pieces = count -> length revoked = length pieces -> forall p, 0 <= p -> bit bits p = bit pieces p && negb (bit revoked p).
Proof using Type.
  induction count as [|count IH]; intros [|b pieces] [|r revoked] bits E Hc Hl p Hp; try done; cbn in E.
  - by simplify_eq.
  - destruct (pending_bits count pieces revoked) as [rest|] eqn:Er; [|done]. simplify_eq/=. rewrite !bit_cons by done.
    destruct (Z.ltb_spec p 8); [apply and_not_bit; lia|]. apply (IH _ _ _ Er); lia.
Qed.

Lemma run_foreign ops : forall d p, 0 <= p -> Forall foreign_operation ops ->
  claims fold (run fold catalog_json ops d) sid p -> claims fold d sid p.
Proof using Type.
  intros d p Hp Hf Hc. apply run_claims in Hc as [|(before & op & after & -> & Hpub)]; [done| |done|].
  - destruct Hpub as (m' & token & c & next & -> & Hs & _). apply Forall_app in Hf as [_ [[_ Hno] _]%Forall_cons].
    by destruct (Hno _ _ _ eq_refl).
  - eapply Forall_impl; [exact Hf|]. by intros op [? _].
Qed.

Lemma invalidate_and_claims hooks d r d' p : invalidate_and hooks d m record = (Ok r, d') -> ~ claims fold d' sid p.
Proof using Type.
  unfold invalidate_and. destruct (InvalidateResumeMutation d m record) as [[[]|] d1] eqn:E; [|done].
  intros [= _ <-]. by eapply InvalidateResumeMutation_claims.
Qed.

Lemma NewResumeMutationHooks_claims d pieces pieceLength strict ops hooks d' p : 0 <= p -> Forall foreign_operation ops ->
  NewResumeMutationHooks fold d m record pieces pieceLength strict (run fold catalog_json ops) = (Ok (Some hooks), d') ->
  claims fold d' sid p -> claims fold d sid p /\ bit (hk_Pending hooks) p = true.
Proof using Type.
  intros Hp Hops. unfold NewResumeMutationHooks. case_match eqn:Hrange; [intros E Hc; by eapply invalidate_and_claims in Hc|].
  case_match; [intros E Hc; by eapply invalidate_and_claims in Hc|].
  destruct (CaptureResume d m record) as [[token|] d1] eqn:Ec; [|done].
  set (d2 := run fold catalog_json ops d1). assert (claims fold d2 sid p -> claims fold d sid p) as Hless.
  { intros Hc%run_foreign; [|done|done]. apply CaptureResume_claims with (m := m) (record := record). by rewrite Ec. }
  destruct (LoadResume fold d2 m record) as [saved|e] eqn:El; cycle 1.
  { case_match; [|done]. intros E Hc. by eapply invalidate_and_claims in Hc. }
  case_match eqn:Hforeign; [intros E Hc; by eapply invalidate_and_claims in Hc|].
  pose proof (LoadResume_no_claims _ _ _ _ _ p El) as Hno.
  destruct saved as [[tk inv checkpoint revoked]|]; [|intros [= <- <-] Hc; by apply Hno in Hc].
  destruct inv; [intros [= <- <-] Hc; by apply Hno in Hc|]. cbn in Hforeign. destruct checkpoint as [c|]; [|done].
  destruct (pending_bits _ _ _) as [bits|] eqn:Eb; [|done]. intros [= <- <-] Hc. split; [by apply Hless|]. cbn.
  destruct (LoadResume_claims _ _ _ _ _ El Hc) as (Hb & Hr & Hv & Hl). apply orb_false_iff in Hforeign as [Hn%negb_false_iff _].
  apply Z.eqb_eq in Hn. rewrite Hn in Hv. pose proof (validBitmap_length _ _ Hv) as Hlen.
  rewrite (pending_bits_spec _ _ _ _ Eb), Hb, Hr; [done| |done|done].
  split_bools. rewrite Z.quot_div_nonneg by lia. lia.
Qed.

(** The durable library keeps the promises the file storage relies on. *)
#[export] Program Instance library_claims : ClaimStore db := {|
  claimed d p := claims fold d sid p;
  revokes := library_revokes;
  publishes_claims := library_publishes;
  opens := library_opens;
  elsewhere := library_elsewhere;
|}.
Next Obligation.
  intros d mask d' p ([[]|] & E & Ha) Hp Hc; try done. split; [by eapply RevokeResumeMutation_less|].
  destruct (bit mask p) eqn:Hb; [|done]. by eapply RevokeResumeMutation_clears in Hc.
Qed.
Next Obligation. intros d mask d' p ([[]|] & E & Ha) Hp Hc; try done. by eapply RevokeResumeMutation_discarded in Hc. Qed.
Next Obligation. intros d mask e d' p ([|] & E & Ha) Hp Hc; try done. by apply RevokeResumeMutation_error in E as ->. Qed.
Next Obligation.
  intros d c d' p (a & token & auth & nowMS & r & Hty & E & Hr) Hp Hc. apply seal_publish_cases in E; [|done]. rewrite <- Hr in E. by apply E.
Qed.
Next Obligation.
  intros d c d' p (a & token & auth & nowMS & r & Hty & E & Hr) Hp Hc. apply seal_publish_cases in E; [|done]. rewrite <- Hr in E. by subst.
Qed.
Next Obligation.
  intros d pending d' p (pieces & pl & strict & ops & hooks & d1 & Hops & E & [[-> ->]|[-> Ei]]) Hp Hc.
  - by eapply NewResumeMutationHooks_claims in Hc as [_ ?].
  - by eapply InvalidateResumeMutation_claims in Hc.
Qed.
Next Obligation.
  intros d pending d' p (pieces & pl & strict & ops & hooks & d1 & Hops & E & [[-> ->]|[-> Ei]]) Hp Hc.
  - by eapply NewResumeMutationHooks_claims in Hc as [? _].
  - by eapply InvalidateResumeMutation_claims in Hc.
Qed.
Next Obligation.
  intros d d' p (op & Hf & ->) Hp Hc. by apply (run_foreign [op] d p Hp (Forall_cons_2 _ _ _ Hf (Forall_nil_2 _))).
Qed.
End Claims.

(** ** A run *)

(** The torrent of the sample library as its backend sees it. *)
Definition sample_layout : storage_layout :=
  mkStorageLayout demo_hash (Some "payload/Show") [Some "Show/a.mkv"; Some "Show/b.mkv"] false 4 3
    [mkExtent 0 6; mkExtent 6 4] true false.

Definition sample_stat (file : nat) : option file_info :=
  match file with
  | 0%nat => Some (mkFileInfo "inode-1" 6 100)
  | 1%nat => Some (mkFileInfo "inode-2" 4 100)
  | _ => None
  end.
Definition sample_probe : prober := fun file => Ok (sample_stat file).

Definition sample_opened : result RepoError (option ResumeHooks) * db :=
  NewResumeMutationHooks plain_fold demo_db demo_mapping "record" 3 4 false (run plain_fold no_json []).
Definition sample_head : result RepoError ResumeToken * db := CaptureResume (snd sample_opened) demo_mapping "record".

(** All pieces are verified, captured, flushed and remembered. *)
Definition sample_verified : fileTorrentImpl :=
  backend_run sample_layout [marks 0 sample_stat; marks 1 sample_stat; marks 2 sample_stat]
    (opened true [x00]).
Definition sample_captured : fileTorrentImpl * result storage_error FileCheckpoint :=
  seal_capture sample_layout sample_verified [x07] sample_probe.
Definition sample_remembered : fileTorrentImpl := rememberResume (fst sample_captured) [x07] false.
Definition sample_published : db :=
  snd (seal_publish plain_fold (snd sample_head) demo_mapping demo_attachment demo_token (Ok tt) 1000 demo_native).

Definition sample_revision : Z := Eval vm_compute in fb_epoch sample_verified.

#[local] Instance sample_store : ClaimStore db := library_claims plain_fold no_json demo_mapping "record".

Lemma sample_layout_ok : layout_ok sample_layout.
Proof. apply v1_layout_ok; by vm_compute. Qed.

Lemma demo_db_unclaimed p : ~ claims plain_fold demo_db (m_StorageID demo_mapping) p.
Proof.
  intros (o & row & c & Ho & _). assert (resume_owners demo_db !! m_StorageID demo_mapping = None) as E by (vm_compute; reflexivity).
  rewrite E in Ho. discriminate.
Qed.

(** A backend whose three pieces are verified, captured and flushed, and whose
    seal is about to be published. *)
Lemma sample_sealing quiet :
  reachable sample_layout quiet (mkSystem (snd sample_head) (Some sample_remembered) ∅ (SRemembered demo_native sample_revision false) ∅).
Proof.
  eapply reachable_step; [|eapply (step_seal_remember _ _ _ (fst sample_captured) _ _ demo_native _ sample_probe); vm_compute; reflexivity].
  eapply reachable_step; [|refine (step_seal_flush _ _ _ _ _ ∅ _ 1%nat [] _)].
  eapply reachable_step; [|refine (step_seal_flush _ _ _ _ _ ∅ _ 0%nat [1%nat] _)].
  eapply reachable_step; [|refine (step_seal _ _ _ sample_verified _ [x07] sample_probe _ (Ok demo_native) _); vm_compute; reflexivity].
  eapply reachable_step; [|eapply (step_elsewhere _ _ (snd sample_opened))].
  2: { exists (OpCaptureResume demo_mapping "record"). split; [split; [exact I|discriminate]|reflexivity]. }
  eapply reachable_step; [|refine (step_evidence _ _ _ _ (marks 2 sample_stat) _ _ _ I)].
  eapply reachable_step; [|refine (step_evidence _ _ _ _ (marks 1 sample_stat) _ _ _ I)].
  eapply reachable_step; [|refine (step_evidence _ _ _ _ (marks 0 sample_stat) _ _ _ I)].
  eapply reachable_step; [|refine (step_open _ _ demo_db [x00] _ _ None _ _ I)].
  - apply reachable_start. intros p _. apply demo_db_unclaimed.
  - exists 3, 4, false, [], (mkResumeHooks [x00] false "no_checkpoint"), (snd sample_opened). split; [constructor|].
    split; [vm_compute; reflexivity|]. left. split; reflexivity.
  - vm_compute; reflexivity.
Qed.

Lemma sample_publishes : library_publishes plain_fold demo_mapping (snd sample_head) demo_native true sample_published.
Proof.
  exists demo_attachment, demo_token, (Ok tt), 1000, (Ok tt). split.
  - split; [by vm_compute|]. intros id listed [= <- <-]. split_and!; [by vm_compute..|]. repeat constructor; by vm_compute.
  - split; vm_compute; reflexivity.
Qed.

(** A write of the first chunk by a writer that finds its file open. *)
Lemma sample_write quiet w t w' t' dirty :
  reachable sample_layout quiet (mkSystem w (Some t) ∅ SIdle dirty) -> fb_closed t = false ->
  revocation_step 0 1 w t (Ok tt) w' t' ->
  reachable sample_layout quiet (mkSystem w' (Some (WriteAt_prepare sample_layout t' 0 4)) {[0%nat := WWriting 0 4 []]} SIdle
                                          (dirtied 0 [0] ∪ dirty)).
Proof.
  intros Hr Hc Hrev. set (part := (0%nat, mkExtent 0 4)).
  rewrite <- (insert_singleton_eq 0%nat (WWriting 0 4 []) (WOpened 0 4 part [])).
  change (dirtied 0 [0]) with (dirtied (fst part) (part_pieces sample_layout part)).
  eapply reachable_step; [|eapply step_write_payload; apply lookup_singleton_eq].
  rewrite <- (insert_singleton_eq 0%nat (WOpened 0 4 part []) (WWriting 0 4 [part])).
  eapply reachable_step; [|eapply step_write_hit; [apply lookup_singleton_eq|reflexivity]].
  rewrite <- (insert_singleton_eq 0%nat (WWriting 0 4 [part]) (WRevoked 0 4)).
  eapply reachable_step; [|eapply step_write_prepare; apply lookup_singleton_eq].
  rewrite <- (insert_singleton_eq 0%nat (WRevoked 0 4) (WAdmitted 0 4)).
  eapply reachable_step; [|eapply step_write_revoke; [apply lookup_singleton_eq|exact Hrev]].
  rewrite <- (insert_empty 0%nat (WAdmitted 0 4)). eapply reachable_step; [exact Hr|]. eapply step_admit; [apply lookup_empty| |].
  - unfold WriteAt_gate. rewrite Hc. reflexivity.
  - split; [lia|]. exists 0. split_and!; by vm_compute.
Qed.

(** C1: crash safety of fast resume.  However writers, readers, seals, restores,
    reopens, crashes and other library operations interleave, a piece that the
    durable library would grant to the next opening of the storage has no payload
    write outstanding: every write to it, and every creation or extension of one
    of its files, has been flushed since.  The exception, which the hypothesis
    [quiet] excludes, is a publication whose acknowledgement is lost after a
    reader revoked pieces during it. *)
Theorem granted_pieces_are_flushed (fold : string -> string) (catalog_json : TorrentCatalog -> list byte)
    (m m' : StorageMapping) (record record' : string) (g : storage_layout) (s : system) (i : nat) (p : Z) :
  layout_ok g -> reachable g (CW := library_claims fold catalog_json m record) true s ->
  m_StorageID m' = m_StorageID m -> granted fold (y_claims s) m' record' p -> (i, p) ∉ y_dirty s.
Proof.
  intros Hg Hr Hm Hgr Hd. apply reachable_safe in Hr as [Hdirty _]; [|done]. destruct (Hdirty _ Hd) as [_ Hn].
  apply Hn. cbn. rewrite <- Hm. by eapply granted_claims.
Qed.

(** The seal is acknowledged, and then the first chunk is written again. *)
Definition sample_sealed : fileTorrentImpl := seal_finish sample_remembered demo_native sample_revision.
Definition sample_rewritten : result RepoError bool * db :=
  RevokeResumeMutation plain_fold sample_published demo_mapping "record" [x01].

Definition sample_rewriting : system :=
  mkSystem (snd sample_rewritten)
    (Some (WriteAt_prepare sample_layout (revoked_locally sample_sealed 0 1 [x01] false) 0 4))
    {[0%nat := WWriting 0 4 []]} SIdle (dirtied 0 [0] ∪ ∅).

Lemma sample_rewriting_reachable quiet : reachable sample_layout quiet sample_rewriting.
Proof.
  eapply (sample_write _ sample_published sample_sealed); [|vm_compute; reflexivity|].
  - eapply reachable_step; [|apply step_seal_finish]. eapply reachable_step; [apply sample_sealing|].
    apply step_seal_published. apply sample_publishes.
  - eapply (revoke_done 0 1 sample_published _ [x01] false); [vm_compute; reflexivity|].
    exists (Ok false). split; [vm_compute; reflexivity|reflexivity].
Qed.

Lemma sample_dirty : (0%nat, 0) ∈ (dirtied 0 [0] ∪ ∅ : gset (nat * Z)).
Proof. apply elem_of_union_l, dirtied_elem. split; [done|by left]. Qed.

Lemma sample_granted d token c revoked p :
  LoadResume plain_fold d demo_mapping "record" = Ok (Some (mkResumeSnapshot token false (Some c) revoked)) ->
  bit (Pieces c) p = true -> bit revoked p = false -> granted plain_fold d demo_mapping "record" p.
Proof. intros H Hp Hr. exists token, c, revoked. auto. Qed.

Lemma granted_pieces_are_flushed_witness :
  (0%nat, 0) ∈ y_dirty sample_rewriting /\ granted plain_fold (y_claims sample_rewriting) demo_mapping "record" 2 /\
  (1%nat, 2) ∉ y_dirty sample_rewriting.
Proof.
  assert (granted plain_fold (y_claims sample_rewriting) demo_mapping "record" 2) as Hg.
  { eapply sample_granted; vm_compute; reflexivity. }
  split; [apply sample_dirty|]. split; [exact Hg|].
  exact (granted_pieces_are_flushed plain_fold no_json demo_mapping demo_mapping "record" "record" sample_layout sample_rewriting
           1 2 sample_layout_ok (sample_rewriting_reachable true) eq_refl Hg).
Defined.

(** The seal's acknowledgement is lost after a reader revoked a file. *)
Definition sample_read_failed : fileTorrentImpl := backend_apply sample_layout sample_remembered (OpRevokeFile 0).
Definition sample_unpending : fileTorrentImpl := revoked_locally sample_read_failed 0 2 [x03] true.

(** The gap of a lost acknowledgement.  The seal remembers its pieces before
    it publishes them, so that later writes revoke them even if the commit's
    acknowledgement is lost; but a reader that fails in between revokes a file
    against a store that has no live checkpoint yet, which makes the backend forget
    all pending pieces.  If the commit then succeeds and its acknowledgement is
    lost, a write of a granted piece reaches the disk without revoking it. *)
Example lost_acknowledgement_gap :
  exists s, reachable sample_layout (CW := library_claims plain_fold no_json demo_mapping "record") false s /\
    granted plain_fold (y_claims s) demo_mapping "record" 0 /\ (0%nat, 0) ∈ y_dirty s.
Proof.
  exists (mkSystem sample_published (Some (WriteAt_prepare sample_layout sample_unpending 0 4)) {[0%nat := WWriting 0 4 []]} SIdle
            (dirtied 0 [0] ∪ ∅)).
  split; [|split; [eapply sample_granted; vm_compute; reflexivity|apply sample_dirty]].
  eapply (sample_write _ sample_published sample_unpending); [|vm_compute; reflexivity|].
  - eapply reachable_step; [|eapply (step_seal_lost _ _ (snd sample_head)); [apply sample_publishes|discriminate]].
    eapply reachable_step; [|refine (step_revoke _ _ _ sample_read_failed 0 2 _ _ _ _ (SRemembered demo_native sample_revision false) _ _ _)].
    + eapply reachable_step; [apply sample_sealing|]. refine (step_evidence _ _ _ _ (OpRevokeFile 0) _ _ _ I).
    + lia.
    + eapply (revoke_done 0 2 (snd sample_head) _ [x03] true); [vm_compute; reflexivity|].
      exists (Ok true). split; [vm_compute; reflexivity|reflexivity].
  - apply revoke_nothing. vm_compute. reflexivity.
Qed.
