(* ===== verification/IntentSafety.v ===== *)
(** * Evolution of the intents

    How one row of [torrent_intents] may change under any operation of the
    repository: its revision never decreases, a runtime attachment is replaced
    only by the release or a new attachment, observations of one attachment
    only advance, and the run intent is enabled only by a run command. *)

From stdpp Require Import base gmap list strings.
From Stdlib Require Import ZArith Strings.Byte Lia.
From S2P Require Import Prelude Models Paths Layout FastResume Codec Tables IntentStore StorageStore ResumeStore.
From S2P Require Import Library LibraryFrame ResumeFences ResumeSafety ResumeBarriers.

#[local] Open Scope Z_scope.

Section Evolution.
(** The record identities that are drawn, the attachments that are issued, and
    whether a run command enables. *)
Context (drawn issued : string -> Prop) (enables : Prop).

Record row_step (i i' : intent_row) : Prop := mkRowStep {
  sp_record : in_record_id i' = in_record_id i;
  sp_revision : in_revision i <= in_revision i';
  sp_attachment : in_attachment i' = in_attachment i /\ in_sequence i <= in_sequence i' \/
    in_attachment i' = ""%string \/ issued (in_attachment i');
  sp_run : in_run i' = in_run i \/ in_run i' = RunPaused \/ enables;
}.

#[local] Instance row_step_preorder : PreOrder row_step.
Proof.
  split; [intros i; split; [done|lia|left; split; [done|lia]|by left]|]. intros i1 i2 i3 [? ? Ha1 Hr1] [? ? Ha2 Hr2].
  split; [congruence|lia| |].
  - destruct Ha2 as [[-> ?]|[?|?]]; [|auto..]. destruct Ha1 as [[-> ?]|[?|?]]; auto. left. split; [done|lia].
  - destruct Hr2 as [->|[?|?]]; auto.
Qed.

(** A row is the continuation of the row before, or belongs to a new record. *)
Definition evolves (d d' : db) : Prop :=
  forall h i', torrent_intents d' !! h = Some i' ->
    (exists i, torrent_intents d !! h = Some i /\ row_step i i') \/
    drawn (in_record_id i') /\ (in_attachment i' = ""%string \/ issued (in_attachment i')).

#[local] Instance evolves_preorder : PreOrder evolves.
Proof.
  split; [by intros d h i ?; left; eexists|]. intros d1 d2 d3 H1 H2 h i3 Hi3.
  destruct (H2 _ _ Hi3) as [(i2 & Hi2 & H23)|]; [|by right].
  destruct (H1 _ _ Hi2) as [(i1 & Hi1 & H12)|[Hd Ha]]; [left; exists i1; split; [done|by etransitivity]|].
  right. destruct H23 as [Hr _ Ha2 _]. rewrite Hr. split; [done|].
  destruct Ha2 as [[-> _]|[?|?]]; auto.
Qed.

Lemma evolves_same d d' : torrent_intents d' = torrent_intents d -> evolves d d'.
Proof. intros E h i. rewrite E. left. by eexists. Qed.

Lemma evolves_of_frame ts d d' : frame ts d d' -> bool_decide (Intents ∈ ts) = false -> evolves d d'.
Proof. intros H Hts. apply evolves_same, (H Intents Hts). Qed.

Lemma update_intent_evolves hash sel set d n d' :
  (forall i, sel i = true -> row_step i (set i)) -> update_intent hash sel set d = Ok (n, d') -> evolves d d'.
Proof.
  intros Hset. unfold update_intent. destruct (torrent_intents d !! hash) as [i|] eqn:Ei; [|by intros; simplify_eq].
  destruct (sel i) eqn:Es; intros; simplify_eq; [|done]. intros h i' Hi'. cbn in Hi'. left.
  destruct (decide (h = hash)) as [->|].
  - rewrite lookup_insert_eq in Hi'. simplify_eq. eauto.
  - rewrite lookup_insert_ne in Hi' by done. by eexists.
Qed.

Lemma insert_torrent_evolves hash row random d u d' :
  drawn random -> insert_torrent hash row random d = Ok (u, d') -> evolves d d'.
Proof.
  intros Hd. unfold insert_torrent. intros. branches. intros h i' Hi'. cbn in Hi'. destruct (decide (h = hash)) as [->|].
  - rewrite lookup_insert_eq in Hi'. simplify_eq. right. auto.
  - rewrite lookup_insert_ne in Hi' by done. left. by eexists.
Qed.

Lemma delete_torrent_row_evolves hash d d' : delete_torrent_row hash d = Ok d' -> evolves d d'.
Proof.
  unfold delete_torrent_row, delete_intent. intros. branches; [|by apply evolves_same].
  match goal with E : fence_record _ _ = _ |- _ => apply fence_record_frame in E; pose proof (E Intents eq_refl) as Hf; cbn in Hf end.
  intros h i' Hi'. cbn in Hi'. rewrite Hf in Hi'. apply lookup_delete_Some in Hi' as [_ ?]. left. by eexists.
Qed.

Lemma fmap_intents_evolves f d :
  (forall i, row_step i (f i)) -> evolves d (d <| torrent_intents ::= fmap f |>).
Proof.
  intros Hf h i'. cbn. rewrite lookup_fmap. intros (i & Hi & ->)%fmap_Some. left. eauto.
Qed.
End Evolution.

Lemma evolves_mono (drawn drawn' issued issued' : string -> Prop) (enables enables' : Prop) d d' :
  (forall r, drawn r -> drawn' r) -> (forall t, issued t -> issued' t) -> (enables -> enables') ->
  evolves drawn issued enables d d' -> evolves drawn' issued' enables' d d'.
Proof.
  intros Hd Hi He H h i' Hi'. destruct (H _ _ Hi') as [(i & Ho & Hs)|[? Ha]].
  - left. exists i. split; [done|]. destruct Hs as [? ? Ha Hr]. split; [done..| |].
    + destruct Ha as [?|[?|?]]; auto.
    + destruct Hr as [?|[?|?]]; auto.
  - right. destruct Ha; auto.
Qed.

#[export] Existing Instance row_step_preorder.
#[export] Existing Instance evolves_preorder.

(** ** The operations *)

Definition draws (op : operation) (record : string) : Prop :=
  match op with OpCreateTorrent _ random => record = random | _ => False end.

Definition issues (op : operation) (token : string) : Prop :=
  match op with OpAttachRuntime _ t => token = t | _ => False end.

Definition run_command (op : operation) : Prop :=
  match op with
  | OpCommitRunIntent _ run => run <> RunPaused
  | OpCommitResumeRetry _ => True
  | _ => False
  end.

Ltac evolve_step :=
  first
    [ by apply evolves_same
    | eapply evolves_of_frame; [solve [eauto with frames]|]; reflexivity ].

(** A row changed by a command, an observation or a release. *)
Ltac solve_row := intros; split; cbn; auto; try lia; split_bools; try (left; split; [done|lia]); auto.

Section Operations.
Context (fold : string -> string) (catalog_json : TorrentCatalog -> list byte).
Hint Resolve saveCatalogTx_frame setStorageLayoutTx_frame save_observed_frame save_progress_frame insert_claims_frame
  retain_claims_frame save_inventory_files_frame delete_storages_frame : frames.

Lemma commitRunIntent_evolves drawn issued d v run retry :
  evolves drawn issued (run <> RunPaused) d (snd (commitRunIntent d v run retry)).
Proof.
  unfold commitRunIntent, commitRunIntent_tx. open_ops. intros H. cbn beta in H.
  destruct (update_intent _ _ _ _) as [[n d1]|] eqn:E; [|done]. case_match; [done|].
  destruct (update_torrent _ _ _ d1) as [[n2 d2]|] eqn:E2; [|done]. simplify_eq.
  transitivity d1; [|evolve_step].
  transitivity (if retry then clear_retryable (iv_RecordID v) d else d); [by destruct retry; apply evolves_same|].
  revert E. apply update_intent_evolves. solve_row. destruct (decide (run = RunPaused)); auto.
Qed.

Lemma advanceIntent_evolves drawn issued enables v d u d' :
  advanceIntent v d = Ok (u, d') -> evolves drawn issued enables d d'.
Proof.
  unfold advanceIntent. intros. branches.
  match goal with E : update_intent _ _ _ _ = _ |- _ => revert E end. apply update_intent_evolves. solve_row.
Qed.

Lemma CommitAddMetadata_evolves drawn issued enables d v m permanent :
  evolves drawn issued enables d (snd (CommitAddMetadata d v m permanent)).
Proof.
  unfold CommitAddMetadata. open_op. unfold CommitAddMetadata_tx. intros. branches; try reflexivity.
  all: match goal with E : update_torrent _ _ _ ?d1 = _ |- _ => transitivity d1; [|evolve_step] end.
  all: by eapply advanceIntent_evolves.
Qed.

Lemma updatePriority_evolves drawn issued enables hash index priority d u d' :
  updatePriority_tx hash index priority d = Ok (u, d') -> evolves drawn issued enables d d'.
Proof.
  unfold updatePriority_tx. intros H. destruct (existsb _ _); [|by branches].
  destruct (intentVersionTx _ _); [|done].
  match type of H with advanceIntent _ ?d1 = _ => transitivity d1; [by apply evolves_same|] end.
  by eapply advanceIntent_evolves.
Qed.

Lemma SaveRuntimeObservation_evolves drawn issued enables d o :
  evolves drawn issued enables d (snd (SaveRuntimeObservation d o)).
Proof.
  unfold SaveRuntimeObservation. open_ops. unfold SaveRuntimeObservation_tx. intros H.
  destruct (update_intent _ _ _ d) as [[n d1]|] eqn:E; [|done]. case_match; [done|].
  destruct (if verified_source o then _ else _) as [d2|] eqn:E2; [|done].
  destruct (save_observed _ _ _ _ d2) as [d3|] eqn:E3; [|done]. simplify_eq.
  transitivity d2; [|evolve_step]. transitivity d1; [|destruct (verified_source o); [|simplify_eq]; evolve_step].
  revert E. apply update_intent_evolves. solve_row.
Qed.

Lemma CommitStorageOperation_evolves drawn issued enables d before v next paused :
  evolves drawn issued enables d (snd (CommitStorageOperation fold d before v next paused)).
Proof.
  unfold CommitStorageOperation. open_op. unfold CommitStorageOperation_tx. intros u d' H.
  destruct (checkStorageFence d before _); [|done]. destruct (storage_recovery d !! _); [|done].
  case_match; [done|]. case_match; [done|].
  destruct (setStorageLayoutTx fold before _ next d) as [d1|] eqn:E1; [|done].
  destruct (update_recovery _ _ _ _) as [[n d2]|] eqn:E2; [|done]. simplify_eq.
  transitivity d1; [evolve_step|].
  transitivity (if paused then forget_inventory (rc_record_id (v_row v)) d1 else d1); [by destruct paused; apply evolves_same|].
  transitivity d2; [evolve_step|].
  etransitivity; [|apply fmap_intents_evolves]; [by apply evolves_same|].
  intros i. destruct (in_record_id i =? _)%string; [|reflexivity]. split; cbn; auto.
  - destruct paused, (bool_decide (in_run i = RunPaused)); cbn; lia.
  - destruct paused; auto.
Qed.

Lemma apply_evolves op d : evolves (draws op) (issues op) (run_command op) d (apply fold catalog_json d op).
Proof.
  destruct (bool_decide (Intents ∈ touches op)) eqn:Ht; [|by eapply evolves_of_frame, Ht; apply apply_frame].
  destruct op; try discriminate Ht; cbn [apply].
  - unfold CreateTorrent. open_ops. intros H.
    destruct (insert_torrent _ _ _ d) as [[u d1]|] eqn:E; [|done].
    transitivity d1; [|branches; evolve_step]. revert E. by apply insert_torrent_evolves.
  - unfold CommitRunIntent. apply commitRunIntent_evolves.
  - unfold CommitResumeRetry. eapply evolves_mono; [..|apply commitRunIntent_evolves]; done.
  - unfold AttachRuntime. open_ops; apply update_intent_evolves; solve_row.
  - apply SaveRuntimeObservation_evolves.
  - apply CommitAddMetadata_evolves.
  - unfold MakePermanent. open_ops; apply CommitAddMetadata_evolves.
  - unfold UpdateFilePriority. open_ops. apply updatePriority_evolves.
  - unfold UpdateTorrentFilesPriority. open_ops. apply updatePriority_evolves.
  - by apply CommitStorageOperation_evolves.
  - unfold RequestDeletionCancel. open_op. unfold RequestDeletionCancel_tx. intros u d' H.
    destruct (update_recovery _ _ _ d) as [[n d1]|] eqn:E; [|done]. case_match; [done|].
    destruct (update_intent _ _ _ d1) as [[n2 d2]|] eqn:E2; [|done]. simplify_eq.
    transitivity d1; [evolve_step|]. revert E2. apply update_intent_evolves. solve_row. case_bool_decide; lia.
  - unfold DeleteTorrent. open_op. unfold DeleteTorrent_tx. intros u d' H. case_match; [done|].
    destruct (delete_torrent_row hash _) as [d1|] eqn:E; [|done].
    transitivity d1; [|branches; evolve_step].
    etransitivity; [|by eapply delete_torrent_row_evolves]. by apply evolves_same.
Qed.
End Operations.
