(* ===== verification/IntentProperties.v ===== *)
(** * Properties of intents, attachments and activation blocks *)

From stdpp Require Import base gmap list strings.
From Stdlib Require Import ZArith Strings.Byte Lia.
From S2P Require Import Prelude Models Paths Layout FastResume Codec Tables IntentStore StorageStore ResumeStore.
From S2P Require Import Library LibraryFrame ResumeFences ResumeSafety ResumeBarriers IntentSafety.

#[local] Open Scope Z_scope.

(** ** Commands and runtime writes *)

(** The commands that carry the version they were decided on. *)
Inductive command :=
| RunCommand (run : RunIntent)
| RetryCommand
| MetadataCommand (m : UserMetadata) (permanent : bool).

Definition commit (d : db) (v : IntentVersion) (c : command) : result RepoError IntentVersion * db :=
  match c with
  | RunCommand run => CommitRunIntent d v run
  | RetryCommand => CommitResumeRetry d v
  | MetadataCommand m permanent => CommitAddMetadata d v m permanent
  end.

(** What a runtime writes under its fence. *)
Inductive runtime_write :=
| WriteObservation (o : RuntimeObservation)
| WriteBlock (f : RuntimeFence) (kind : ActivationBlockKind) (reason : string)
| WriteSafetyBlock (f : RuntimeFence) (kind : ActivationBlockKind) (reason : string)
| WriteClearance (f : RuntimeFence) (kind : ActivationBlockKind)
| WriteCatalog (f : RuntimeFence) (c : TorrentCatalog).

Definition write_fence (w : runtime_write) : RuntimeFence :=
  match w with
  | WriteObservation o => ob_Fence o
  | WriteBlock f _ _ | WriteSafetyBlock f _ _ | WriteClearance f _ | WriteCatalog f _ => f
  end.

Definition write (catalog_json : TorrentCatalog -> list byte) (d : db) (w : runtime_write) : result RepoError unit * db :=
  match w with
  | WriteObservation o => SaveRuntimeObservation d o
  | WriteBlock f kind reason => PutActivationBlock d f kind reason
  | WriteSafetyBlock f kind reason => PutRuntimeSafetyBlock d f kind reason
  | WriteClearance f kind => ClearActivationBlock d f kind
  | WriteCatalog f c => SaveCatalog catalog_json d f c
  end.

(** A library of one enabled torrent. *)
Definition lib_json (_ : TorrentCatalog) : list byte := [].
Definition lib_fold (s : string) : string := s.
Definition lib_version (revision : Z) : IntentVersion := mkIntentVersion "aa" "record" revision.
Definition lib_db : db :=
  run lib_fold lib_json
    [OpCreateTorrent (mkNewTorrentRecord "aa" "Show" "" RunEnabled false no_metadata None) "record"] empty_db.
Definition lib_observation (token : string) (sequence : Z) : RuntimeObservation :=
  mkRuntimeObservation (mkRuntimeFence (lib_version 1) token) sequence 1 StateDownloading "" "checking" 0 0 [].

(** ** Runs *)

Definition drawn_in (ops : list operation) (record : string) : Prop := exists op, op ∈ ops /\ draws op record.
Definition issued_in (ops : list operation) (token : string) : Prop := exists op, op ∈ ops /\ issues op token.
Definition commands_in (ops : list operation) : Prop := exists op, op ∈ ops /\ run_command op.

Lemma run_evolves fold catalog_json ops d :
  evolves (drawn_in ops) (issued_in ops) (commands_in ops) d (run fold catalog_json ops d).
Proof.
  apply (run_rel fold catalog_json _). intros op d' Hop. eapply evolves_mono; [..|apply apply_evolves].
  - intros r ?. by exists op.
  - intros t ?. by exists op.
  - intros ?. by exists op.
Qed.

(** ** Revisions *)

Lemma at_version_inv v i : at_version v i = true -> in_record_id i = iv_RecordID v /\ in_revision i = iv_Revision v.
Proof. unfold at_version. intros. split_bools. split; [done|lia]. Qed.

Lemma update_intent_inv hash sel set d n d' : update_intent hash sel set d = Ok (n, d') -> n = 1 ->
  exists i, torrent_intents d !! hash = Some i /\ sel i = true /\ d' = set_intent hash (set i) d.
Proof. unfold update_intent. intros. branches. eauto. Qed.

Lemma commitRunIntent_inv d v run retry v' d' : commitRunIntent d v run retry = (Ok v', d') ->
  let d0 := if retry then clear_retryable (iv_RecordID v) d else d in
  exists i t d1 d2, torrent_intents d !! iv_Hash v = Some i /\ at_version v i = true /\ v' = next_version v /\
    not_deleting d (iv_Hash v) = true /\ moving d (iv_Hash v) = false /\
    (run = RunPaused \/ blocked d0 (iv_RecordID v) = false) /\
    d1 = set_intent (iv_Hash v) (i <| in_run := run |> <| in_revision := in_revision i + 1 |>) d0 /\
    update_torrent (iv_Hash v) (fun _ => true)
      (fun t => t <| t_state := command_state run |> <| t_error := ""%string |>) d1 = Ok (t, d2) /\ d' = d2.
Proof.
  intros H d0. unfold commitRunIntent in H. case_match; [done|].
  destruct (atomically_cases (commitRunIntent_tx v run retry) d) as [(a & d2 & Hb & Ha)|(e & _ & Ha)];
    rewrite Ha in H; simplify_eq.
  unfold commitRunIntent_tx in Hb. fold d0 in Hb.
  destruct (update_intent _ _ _ d0) as [[n d1]|] eqn:E; [|done]. case_match eqn:En; [done|]. split_bools.
  destruct (update_torrent _ _ _ d1) as [[t d2]|] eqn:E2; [|done]. simplify_eq.
  apply update_intent_inv in E as (i & Hi & Hsel & ->); [|lia].
  apply andb_true_iff in Hsel as [Hsel Hbl]. apply andb_true_iff in Hsel as [Hsel Hmv%negb_true_iff].
  apply andb_true_iff in Hsel as [Hat Hnd].
  assert (torrent_intents d0 = torrent_intents d /\ torrents d0 = torrents d /\ torrent_storage d0 = torrent_storage d)
    as (Ei & Et & Es) by (by unfold d0; destruct retry).
  rewrite Ei in Hi. unfold not_deleting, moving in *. rewrite Et, Es in *.
  exists i, t. do 2 eexists. split_and!; try done.
  apply orb_true_iff in Hbl as [Hbl|Hbl]; split_bools; [by left|right].
  by apply at_version_inv in Hat as [<- _].
Qed.

Lemma CommitAddMetadata_inv d v m permanent v' d' : CommitAddMetadata d v m permanent = (Ok v', d') ->
  exists i, torrent_intents d !! iv_Hash v = Some i /\ at_version v i = true /\
    (v' = v \/ torrent_intents d' !! iv_Hash v = Some (i <| in_revision := in_revision i + 1 |>)).
Proof.
  unfold CommitAddMetadata. intros H.
  destruct (atomically_cases (CommitAddMetadata_tx v m permanent) d) as [(a & d2 & Hb & Ha)|(e & _ & Ha)];
    rewrite Ha in H; simplify_eq.
  unfold CommitAddMetadata_tx in Hb. destruct (torrents d !! _) as [t|]; [|done].
  destruct (torrent_intents d !! _) as [i|] eqn:Ei; [|done]. case_match; [done|]. case_match eqn:Ev; [done|].
  apply negb_false_iff, bool_decide_eq_true in Ev. exists i. split; [done|]. split.
  { unfold at_version. rewrite <- Ev. cbn. by rewrite String.eqb_refl, Z.eqb_refl. }
  case_match; [left; congruence|right].
  destruct (advanceIntent v d) as [[u d1]|] eqn:E1; [|done]. destruct (update_torrent _ _ _ d1) as [[n d2]|] eqn:E2; [|done].
  simplify_eq. apply update_torrent_frame in E2. rewrite (E2 Intents eq_refl).
  unfold advanceIntent in E1. case_match; [done|]. destruct (update_intent _ _ _ d) as [[n1 d3]|] eqn:E3; [|done].
  case_match eqn:En; [done|]. simplify_eq. split_bools. apply update_intent_inv in E3 as (i' & Hi' & _ & ->); [|lia].
  simplify_eq. cbn. by rewrite lookup_insert_eq.
Qed.

(** An accepted command was decided on the current version and moves it on. *)
Lemma commit_inv d v c v' d' : commit d v c = (Ok v', d') ->
  exists i, torrent_intents d !! iv_Hash v = Some i /\ at_version v i = true /\
    (v' <> v -> exists i', torrent_intents d' !! iv_Hash v = Some i' /\ in_record_id i' = iv_RecordID v /\
       in_revision i' = iv_Revision v + 1).
Proof.
  assert (forall run retry, commitRunIntent d v run retry = (Ok v', d') ->
    exists i, torrent_intents d !! iv_Hash v = Some i /\ at_version v i = true /\
      exists i', torrent_intents d' !! iv_Hash v = Some i' /\ in_record_id i' = iv_RecordID v /\
         in_revision i' = iv_Revision v + 1) as Hrun.
  { intros run retry (i & t & d1 & d2 & Hi & Hat & _ & _ & _ & _ & -> & E & ->)%commitRunIntent_inv.
    exists i. do 2 (split; [done|]). apply update_torrent_frame in E. rewrite (E Intents eq_refl). cbn.
    eexists. rewrite lookup_insert_eq. split; [done|]. cbn.
    by apply at_version_inv in Hat as [-> ->]. }
  destruct c; cbn; intros H.
  - apply Hrun in H as (i & ? & ? & ?). eauto.
  - apply Hrun in H as (i & ? & ? & ?). eauto.
  - apply CommitAddMetadata_inv in H as (i & Hi & Hat & Hc). exists i. do 2 (split; [done|]). intros Hne.
    destruct Hc as [->|Hd]; [done|]. eexists. split; [done|]. cbn.
    by apply at_version_inv in Hat as [-> ->].
Qed.

(** C25: one command per revision.  Once a command decided on a version has been
    accepted and moved it on, every other command decided on the same version is
    refused and changes nothing, after any run of the library in which that
    record identity is not drawn again: no decision is made on stale state, and
    no update is lost. *)
Theorem one_command_per_revision (fold : string -> string) (catalog_json : TorrentCatalog -> list byte)
    (d d1 : db) (v v1 : IntentVersion) (c1 c2 : command) (ops : list operation) :
  commit d v c1 = (Ok v1, d1) -> v1 <> v -> ~ drawn_in ops (iv_RecordID v) ->
  exists e, commit (run fold catalog_json ops d1) v c2 = (Err e, run fold catalog_json ops d1).
Proof.
  intros H1 Hne Hfresh. apply commit_inv in H1 as (_ & _ & _ & Hd1). destruct (Hd1 Hne) as (i1 & Hi1 & Hr1 & Hv1).
  set (d2 := run fold catalog_json ops d1).
  assert (forall v2 d3, commit d2 v c2 <> (Ok v2, d3)) as Hno.
  { intros v2 d3 (i2 & Hi2 & [Hr2 Hv2]%at_version_inv & _)%commit_inv.
    destruct (run_evolves fold catalog_json ops d1 _ _ Hi2) as [(i & Hi & Hs)|[Hd _]].
    - simplify_eq. pose proof (sp_revision _ _ _ _ Hs). lia.
    - by rewrite Hr2 in Hd. }
  destruct (commit d2 v c2) as [[v2|e] d3] eqn:E; [by destruct (Hno v2 d3)|]. exists e. f_equal.
  destruct c2; cbn in E; unfold CommitRunIntent, CommitResumeRetry, commitRunIntent, CommitAddMetadata, atomically in E;
    repeat case_match; by simplify_eq.
Qed.

Lemma one_command_per_revision_witness :
  exists e, commit (run lib_fold lib_json [OpAttachRuntime (lib_version 2) "token"] (snd (commit lib_db (lib_version 1) (RunCommand RunPaused))))
    (lib_version 1) RetryCommand =
    (Err e, run lib_fold lib_json [OpAttachRuntime (lib_version 2) "token"] (snd (commit lib_db (lib_version 1) (RunCommand RunPaused)))).
Proof.
  apply (one_command_per_revision lib_fold lib_json lib_db _ (lib_version 1) (lib_version 2) (RunCommand RunPaused)).
  - by vm_compute.
  - done.
  - intros (op & Hop & Hd). apply list_elem_of_singleton in Hop. by subst op.
Defined.

(** ** Attachments *)

Lemma at_fence_inv f i : at_fence f i = true ->
  in_record_id i = iv_RecordID (rf_version f) /\ in_revision i = iv_Revision (rf_version f) /\
  in_attachment i = rf_Attachment f.
Proof. unfold at_fence. intros [[? ?]%at_version_inv ?]%andb_true_iff. split_bools. done. Qed.

Lemma SaveRuntimeObservation_inv d o d' : SaveRuntimeObservation d o = (Ok tt, d') ->
  let hash := iv_Hash (rf_version (ob_Fence o)) in
  rf_Attachment (ob_Fence o) <> ""%string /\ not_deleting d hash = true /\ moving d hash = false /\
  exists i, torrent_intents d !! hash = Some i /\ at_fence (ob_Fence o) i = true /\ in_sequence i < ob_Sequence o /\
    torrent_intents d' !! hash = Some (i <| in_sequence := ob_Sequence o |> <| in_applied := ob_AppliedRevision o |>
      <| in_observed_state := ob_State o |> <| in_observed_error := ob_Error o |>).
Proof.
  unfold SaveRuntimeObservation. destruct (_ || (ob_VerifiedBytes o <? 0)) eqn:Eg; [done|].
  destruct (_ && _ || _); [done|]. destruct (check_observed _ _ _) as [bytes|]; [|done]. intros H. set (hash := iv_Hash (rf_version (ob_Fence o))).
  destruct (atomically_cases (SaveRuntimeObservation_tx o bytes) d) as [(u & d3 & Hb & Ha)|(e & _ & Ha)];
    rewrite Ha in H; simplify_eq.
  unfold SaveRuntimeObservation_tx in Hb. fold hash in Hb.
  destruct (update_intent _ _ _ d) as [[n d1]|] eqn:Eu; [|done]. case_match eqn:En; [done|]. split_bools.
  apply update_intent_inv in Eu as (i & Hi & Hsel & ->); [|lia].
  apply andb_true_iff in Hsel as [Hsel Hmv%negb_true_iff]. apply andb_true_iff in Hsel as [Hsel Hnd].
  apply andb_true_iff in Hsel as [Hat Hseq]. do 3 (split; [done|]). exists i. do 2 (split; [done|]). split; [lia|].
  destruct (if verified_source o then _ else _) as [d1|] eqn:E1; [|done].
  destruct (save_observed _ _ _ _ d1) as [d2|] eqn:E2; [|done]. simplify_eq.
  apply save_observed_frame in E2. rewrite (E2 Intents eq_refl).
  transitivity (torrent_intents (set_intent hash (i <| in_sequence := ob_Sequence o |> <| in_applied := ob_AppliedRevision o |>
      <| in_observed_state := ob_State o |> <| in_observed_error := ob_Error o |>) d) !! hash); [|cbn; by rewrite lookup_insert_eq].
  f_equal. destruct (verified_source o); [|by simplify_eq].
  apply save_progress_frame in E1. exact (E1 Intents eq_refl).
Qed.

(** The row a runtime write needs. *)
Lemma write_inv catalog_json d w d' : write catalog_json d w = (Ok tt, d') ->
  exists i, torrent_intents d !! iv_Hash (rf_version (write_fence w)) = Some i /\
    in_record_id i = iv_RecordID (rf_version (write_fence w)) /\ in_attachment i = rf_Attachment (write_fence w).
Proof.
  destruct w as [o|f kind reason|f kind reason|f kind|f c]; cbn; intros H.
  - apply SaveRuntimeObservation_inv in H as (_ & _ & _ & i & Hi & (? & _ & ?)%at_fence_inv & _). by exists i.
  - unfold PutActivationBlock in H. case_match; [done|].
    apply (f_equal fst) in H. apply affecting_one_accepted in H. unfold put_block in H.
    destruct (torrent_intents d !! _) as [i|]; [|done]. destruct (at_fence f i) eqn:Ef; [|done].
    apply at_fence_inv in Ef as (? & _ & ?). by exists i.
  - unfold PutRuntimeSafetyBlock in H. case_match; [done|].
    apply (f_equal fst) in H. apply affecting_one_accepted in H. unfold put_block in H.
    destruct (torrent_intents d !! _) as [i|]; [|done]. case_match; [|done]. split_bools. by exists i.
  - unfold ClearActivationBlock in H. case_match; [done|].
    apply (f_equal fst) in H. apply atomically_accepted in H. cbn beta in H.
    destruct (torrent_intents d !! _) as [i|]; [|done]. destruct (at_fence f i) eqn:Ef; [|done].
    apply at_fence_inv in Ef as (? & _ & ?). by exists i.
  - unfold SaveCatalog in H. destruct (validateCatalog c); [|done]. destruct (torrents d !! _); [|done].
    destruct (torrent_intents d !! _) as [i|]; [|done]. destruct (at_fence f i) eqn:Ef; [|done].
    apply at_fence_inv in Ef as (? & _ & ?). by exists i.
Qed.

Lemma atomically_refused {A} (body : tx A) d e d' : atomically body d = (Err e, d') -> d' = d.
Proof. unfold atomically. intros. by branches. Qed.

Lemma affecting_one_refused (statement : tx Z) e0 d e d' :
  (forall n d', statement d = Ok (n, d') -> n <> 1 -> d' = d) ->
  affecting_one statement e0 d = (Err e, d') -> d' = d.
Proof.
  unfold affecting_one. intros Hn. destruct (statement d) as [[n d1]|]; [|by intros; simplify_eq].
  destruct (Z.eqb_spec n 1); intros; simplify_eq; eauto.
Qed.

Lemma put_block_refused hash sel kind reason d n d' :
  put_block hash sel kind reason d = Ok (n, d') -> n <> 1 -> d' = d.
Proof. unfold put_block. intros. by branches. Qed.

(** A refused write writes nothing. *)
Lemma write_refused catalog_json d w e d' : write catalog_json d w = (Err e, d') -> d' = d.
Proof.
  destruct w as [o|f kind reason|f kind reason|f kind|f c]; cbn.
  - unfold SaveRuntimeObservation. do 2 (destruct (_ || _); [by intros; simplify_eq|]).
    destruct (check_observed _ _ _); [|by intros; simplify_eq]. apply atomically_refused.
  - unfold PutActivationBlock. case_match; [by intros; simplify_eq|].
    apply affecting_one_refused. intros ? ?. apply put_block_refused.
  - unfold PutRuntimeSafetyBlock. case_match; [by intros; simplify_eq|].
    apply affecting_one_refused. intros ? ?. apply put_block_refused.
  - unfold ClearActivationBlock. case_match; [by intros; simplify_eq|]. apply atomically_refused.
  - unfold SaveCatalog. destruct (validateCatalog c); [|by intros; simplify_eq].
    destruct (torrents d !! _); [|by intros; simplify_eq]. destruct (torrent_intents d !! _); [|by intros; simplify_eq].
    case_match; [|by intros; simplify_eq]. case_match; [by intros; simplify_eq|]. apply atomically_refused.
Qed.

Lemma AttachRuntime_inv d v token f d' : AttachRuntime d v token = (Ok f, d') ->
  f = mkRuntimeFence v token /\
  exists i, torrent_intents d !! iv_Hash v = Some i /\ at_version v i = true /\
    not_deleting d (iv_Hash v) = true /\ moving d (iv_Hash v) = false /\
    torrent_intents d' !! iv_Hash v = Some (i <| in_attachment := token |> <| in_sequence := 0 |> <| in_applied := 0 |>).
Proof.
  unfold AttachRuntime. destruct (affecting_one _ _ d) as [[u|] d1] eqn:E; intros; simplify_eq. split; [done|].
  pose proof (f_equal fst E) as E1. cbn in E1. destruct u. apply affecting_one_accepted in E1. rewrite E in E1. cbn in E1.
  apply update_intent_inv in E1 as (i & Hi & Hs & ->); [|done]. exists i.
  apply andb_true_iff in Hs as [Hs ?%negb_true_iff]. apply andb_true_iff in Hs as [Hs ?].
  apply andb_true_iff in Hs as [? _]. do 4 (split; [done|]). cbn. by rewrite lookup_insert_eq.
Qed.

(** a superseded runtime is refused.  Once a torrent has been attached to
    another runtime, every write of the runtime before (an observation, a block,
    a safety block, the clearance of a block, a catalog) is refused and changes
    nothing, after any run of the library that does not issue its attachment
    again. *)
Theorem superseded_runtime_is_refused (fold : string -> string) (catalog_json : TorrentCatalog -> list byte)
    (d d1 : db) (v : IntentVersion) (token : string) (f : RuntimeFence) (ops : list operation) (w : runtime_write) :
  AttachRuntime d v token = (Ok f, d1) -> iv_Hash (rf_version (write_fence w)) = iv_Hash v ->
  rf_Attachment (write_fence w) <> token -> rf_Attachment (write_fence w) <> ""%string ->
  ~ issued_in ops (rf_Attachment (write_fence w)) ->
  exists e, write catalog_json (run fold catalog_json ops d1) w = (Err e, run fold catalog_json ops d1).
Proof.
  intros (_ & i & _ & _ & _ & _ & Hi1)%AttachRuntime_inv Hh Hne Hnn Hfresh.
  destruct (write _ _ w) as [[[]|e] d3] eqn:E; [|exists e; by rewrite (write_refused _ _ _ _ _ E)]. exfalso.
  apply write_inv in E as (i2 & Hi2 & _ & Ha). rewrite Hh in Hi2.
  destruct (run_evolves fold catalog_json ops d1 _ _ Hi2) as [(i1 & Hi1' & Hs)|[_ [?|?]]]; [|congruence..].
  simplify_eq. destruct (sp_attachment _ _ _ _ Hs) as [[? _]|[?|?]]; cbn in *; congruence.
Qed.

Lemma superseded_runtime_is_refused_witness :
  exists e, write lib_json (run lib_fold lib_json [OpMakePermanent "aa"] (snd (AttachRuntime lib_db (lib_version 1) "new")))
      (WriteObservation (lib_observation "old" 1)) =
    (Err e, run lib_fold lib_json [OpMakePermanent "aa"] (snd (AttachRuntime lib_db (lib_version 1) "new"))).
Proof.
  apply (superseded_runtime_is_refused lib_fold lib_json lib_db _ (lib_version 1) "new" (mkRuntimeFence (lib_version 1) "new")
    [OpMakePermanent "aa"] (WriteObservation (lib_observation "old" 1))); [by vm_compute|done..|].
  intros (op & Hop & Hd). apply list_elem_of_singleton in Hop. by subst op.
Defined.

(** observations are in order.  Of one runtime attachment, an observation
    accepted after another one, whatever the library did in between, has a
    larger sequence: a reordered or repeated observation is never stored. *)
Theorem observations_in_order (fold : string -> string) (catalog_json : TorrentCatalog -> list byte)
    (d d1 d2 : db) (o1 o2 : RuntimeObservation) (ops : list operation) :
  iv_Hash (rf_version (ob_Fence o2)) = iv_Hash (rf_version (ob_Fence o1)) ->
  rf_Attachment (ob_Fence o2) = rf_Attachment (ob_Fence o1) -> ~ issued_in ops (rf_Attachment (ob_Fence o1)) ->
  SaveRuntimeObservation d o1 = (Ok tt, d1) ->
  SaveRuntimeObservation (run fold catalog_json ops d1) o2 = (Ok tt, d2) ->
  ob_Sequence o1 < ob_Sequence o2.
Proof.
  intros Hh Ha Hfresh (Hnn & _ & _ & i & _ & (_ & _ & Hat)%at_fence_inv & _ & Hi1)%SaveRuntimeObservation_inv
    (_ & _ & _ & i2 & Hi2 & (_ & _ & Hat2)%at_fence_inv & Hlt & _)%SaveRuntimeObservation_inv. rewrite Hh in Hi2.
  destruct (run_evolves fold catalog_json ops d1 _ _ Hi2) as [(i1 & Hi1' & Hs)|[_ [?|?]]]; [|congruence..].
  simplify_eq. destruct (sp_attachment _ _ _ _ Hs) as [[_ ?]|[?|?]]; cbn in *; [lia|congruence..].
Qed.

Definition lib_attached : db := snd (AttachRuntime lib_db (lib_version 1) "token").

Definition lib_observed : db := snd (SaveRuntimeObservation lib_attached (lib_observation "token" 1)).

Lemma observations_in_order_witness : 1 < 2.
Proof.
  apply (observations_in_order lib_fold lib_json lib_attached lib_observed
    (snd (SaveRuntimeObservation (run lib_fold lib_json [OpSaveDownloadBlock "aa" "space"] lib_observed) (lib_observation "token" 2)))
    (lib_observation "token" 1) (lib_observation "token" 2) [OpSaveDownloadBlock "aa" "space"] eq_refl eq_refl).
  - intros (op & Hop & Hd). apply list_elem_of_singleton in Hop. by subst op.
  - by vm_compute.
  - by vm_compute.
Defined.
