(* ===== verification/BlockProperties.v ===== *)
(** * Properties of activation blocks

    A block that no retry clears keeps its torrent paused: no operation of the
    library but its clearance under the current fence, or the deletion of the
    torrent, removes it, and no run command enables a blocked record. *)

From stdpp Require Import base gmap list strings.
From Stdlib Require Import ZArith Strings.Byte Lia.
From S2P Require Import Prelude Models Paths Layout FastResume Codec Tables IntentStore StorageStore ResumeStore.
From S2P Require Import Library LibraryFrame ResumeFences ResumeSafety ResumeBarriers IntentSafety IntentProperties.

#[local] Open Scope Z_scope.

Section Keeps.
Context (record : string) (kind : ActivationBlockKind).

Definition has_block (d : db) : Prop := is_Some (torrent_activation_blocks d !! (record, kind)).

Definition keeps (d d' : db) : Prop := has_block d -> has_block d'.

#[global] Instance keeps_preorder : PreOrder keeps.
Proof. split; [by intros d ?|]. intros d1 d2 d3 H1 H2 H. auto. Qed.

Lemma keeps_same d d' : torrent_activation_blocks d' = torrent_activation_blocks d -> keeps d d'.
Proof. unfold keeps, has_block. by intros ->. Qed.

Lemma keeps_of_frame ts d d' : frame ts d d' -> bool_decide (Blocks ∈ ts) = false -> keeps d d'.
Proof. intros H Hts. apply keeps_same, (H Blocks Hts). Qed.

Lemma keeps_filter P `{forall x, Decision (P x)} d :
  (forall reason, P ((record, kind), reason)) ->
  keeps d (d <| torrent_activation_blocks ::= filter P |>).
Proof. intros HP [reason Hr]. exists reason. cbn. apply map_lookup_filter_Some. auto. Qed.

Lemma keeps_insert key reason d : keeps d (d <| torrent_activation_blocks ::= <[key := reason]> |>).
Proof. intros Hb. unfold has_block. cbn. apply lookup_insert_is_Some'. auto. Qed.

Lemma keeps_delete key d : key <> (record, kind) -> keeps d (d <| torrent_activation_blocks ::= delete key |>).
Proof. intros Hne Hb. unfold has_block. cbn. by rewrite lookup_delete_ne. Qed.

Lemma put_block_keeps hash sel k reason d n d' : put_block hash sel k reason d = Ok (n, d') -> keeps d d'.
Proof. unfold put_block. intros. branches. apply keeps_insert. Qed.
End Keeps.

Ltac keep_step :=
  first
    [ by apply keeps_same
    | eapply keeps_of_frame; [solve [eauto with frames]|]; reflexivity ].

(** The clearance of a block. *)
Definition clears (op : operation) (record : string) (kind : ActivationBlockKind) : Prop :=
  match op with
  | OpClearActivationBlock f k => iv_RecordID (rf_version f) = record /\ k = kind
  | _ => False
  end.

Definition deletes (op : operation) : bool := match op with OpDeleteTorrent _ => true | _ => false end.

Section Operations.
Context (fold : string -> string) (catalog_json : TorrentCatalog -> list byte) (record : string)
  (kind : ActivationBlockKind) (Hkind : ResumeRetryable kind = false).
Abbreviation keeps := (keeps record kind).
Hint Resolve saveCatalogTx_frame setStorageLayoutTx_frame save_inventory_files_frame : frames.

Lemma commitRunIntent_keeps d v run retry : keeps d (snd (commitRunIntent d v run retry)).
Proof using Hkind.
  unfold commitRunIntent. open_ops. unfold commitRunIntent_tx. intros H.
  destruct (update_intent _ _ _ _) as [[n d1]|] eqn:E; [|done]. case_match; [done|].
  destruct (update_torrent _ _ _ d1) as [[t d2]|] eqn:E2; [|done]. simplify_eq.
  transitivity (if retry then clear_retryable (iv_RecordID v) d else d).
  - destruct retry; [|done]. apply keeps_filter. intros reason [_ Hr]. congruence.
  - transitivity d1; keep_step.
Qed.

Lemma SaveInventory_keeps d m id session status reason cursor now listed repair :
  keeps d (snd (SaveInventory d m id session status reason cursor now listed repair)).
Proof using Hkind.
  unfold SaveInventory. open_ops. unfold SaveInventory_tx. intros H.
  destruct (checkStorageFence d m id); [|done]. case_match; [done|].
  destruct (each_row _ listed d) as [d1|] eqn:E; [|done].
  transitivity d1; [keep_step|]. branches; try by apply keeps_same.
  - etransitivity; [|apply keeps_insert]. by apply keeps_same.
  - etransitivity; [|apply keeps_delete]; [by apply keeps_same|]. intros ?. by simplify_eq.
Qed.

Lemma CommitStorageOperation_keeps d before v next paused :
  keeps d (snd (CommitStorageOperation fold d before v next paused)).
Proof using Hkind.
  unfold CommitStorageOperation. open_ops. unfold CommitStorageOperation_tx. intros H.
  destruct (checkStorageFence d before _); [|done]. destruct (storage_recovery d !! v_Hash v); [|done].
  do 2 (case_match; [done|]). destruct (setStorageLayoutTx _ _ _ _ d) as [d1|] eqn:E; [|done].
  destruct (update_recovery _ _ _ _) as [[n d2]|] eqn:E2; [|done]. simplify_eq.
  transitivity d1; [keep_step|]. transitivity (if paused then forget_inventory (rc_record_id (v_row v)) d1 else d1).
  - destruct paused; [|done]. unfold forget_inventory. etransitivity; [|apply keeps_filter]; [by apply keeps_same|].
    intros reason (_ & Hk & _). by subst kind.
  - transitivity d2; keep_step.
Qed.

Lemma apply_keeps op d : ~ clears op record kind -> deletes op = false -> keeps d (apply fold catalog_json d op).
Proof using Hkind.
  intros Hc Hd. destruct (bool_decide (Blocks ∈ touches op)) eqn:Ht; [|by eapply keeps_of_frame, Ht; apply apply_frame].
  destruct op; try discriminate Ht; try discriminate Hd; cbn [apply].
  - apply commitRunIntent_keeps.
  - apply commitRunIntent_keeps.
  - unfold PutActivationBlock. open_ops. apply put_block_keeps.
  - unfold PutRuntimeSafetyBlock. open_ops. apply put_block_keeps.
  - unfold ClearActivationBlock. open_ops. intros H. branches. apply keeps_delete. intros ?. simplify_eq. by apply Hc.
  - apply CommitStorageOperation_keeps.
  - apply SaveInventory_keeps.
Qed.
End Operations.

(** ** A blocked record *)

Section Guarded.
Context (fold : string -> string) (catalog_json : TorrentCatalog -> list byte).

(** The step that enables a paused row: a run command decided on the current
    version of a torrent that is neither deleted nor moved, whose blocks, but
    the ones a retry clears, are none. *)
Definition enables (d : db) (op : operation) (hash : string) (i : intent_row) : Prop :=
  exists v retry, (op = OpCommitRunIntent v RunEnabled /\ retry = false \/ op = OpCommitResumeRetry v /\ retry = true) /\
    iv_Hash v = hash /\ at_version v i = true /\ not_deleting d hash = true /\ moving d hash = false /\
    blocked (if retry then clear_retryable (in_record_id i) d else d) (in_record_id i) = false.

Lemma commitRunIntent_enables d v run retry hash i i' :
  torrent_intents d !! hash = Some i -> in_run i = RunPaused ->
  torrent_intents (snd (commitRunIntent d v run retry)) !! hash = Some i' -> in_run i' <> RunPaused ->
  run = RunEnabled /\ iv_Hash v = hash /\ at_version v i = true /\ not_deleting d hash = true /\ moving d hash = false /\
    blocked (if retry then clear_retryable (in_record_id i) d else d) (in_record_id i) = false.
Proof.
  intros Hi Hp Hi' Hne. destruct (commitRunIntent d v run retry) as [[v'|e] d'] eqn:E; cbn in Hi'.
  - assert (RunIntent_Valid run = true) as Hv.
    { unfold commitRunIntent in E. destruct (RunIntent_Valid run); [done|]. done. }
    apply commitRunIntent_inv in E as (i0 & t & d1 & d2 & Hi0 & Hat & _ & Hnd & Hmv & Hb & -> & E & ->).
    apply update_torrent_frame in E. rewrite (E Intents eq_refl) in Hi'. cbn in Hi'.
    pose proof (at_version_inv _ _ Hat) as [Hr _].
    destruct (decide (iv_Hash v = hash)) as [<-|Hh].
    + rewrite lookup_insert_eq in Hi'. simplify_eq. cbn in Hne. rewrite Hr.
      split; [by destruct run|]. destruct Hb as [|]; [done|]. done.
    + rewrite lookup_insert_ne in Hi' by done. destruct retry; cbn in Hi'; congruence.
  - unfold commitRunIntent in E. case_match; [by simplify_eq|]. apply atomically_refused in E. congruence.
Qed.

Lemma apply_enables op d hash i i' :
  torrent_intents d !! hash = Some i -> in_run i = RunPaused -> ~ draws op (in_record_id i') ->
  torrent_intents (apply fold catalog_json d op) !! hash = Some i' -> in_run i' <> RunPaused -> enables d op hash i.
Proof.
  intros Hi Hp Hd Hi' Hne. destruct (apply_evolves fold catalog_json op d _ _ Hi') as [(i0 & Hi0 & Hs)|[? _]]; [|done].
  simplify_eq. destruct (sp_run _ _ _ _ Hs) as [?|[?|Hc]]; [congruence|done|].
  destruct op; try done; cbn in Hi'.
  - destruct (commitRunIntent_enables _ _ _ _ _ _ _ Hi Hp Hi' Hne) as (-> & ? & ? & ? & ? & ?).
    exists v, false. split_and!; auto.
  - destruct (commitRunIntent_enables _ _ _ _ _ _ _ Hi Hp Hi' Hne) as (_ & ? & ? & ? & ? & ?).
    exists v, true. split_and!; auto.
Qed.

Lemma blocked_spec d record : blocked d record = false <-> forall kind, torrent_activation_blocks d !! (record, kind) = None.
Proof.
  unfold blocked. split.
  - intros H kind. destruct (_ !! _) as [reason|] eqn:E; [|done]. exfalso.
    apply not_true_iff_false in H. apply H, existsb_exists. exists ((record, kind), reason).
    split; [by apply list_elem_of_In, elem_of_map_to_list|]. apply String.eqb_refl.
  - intros H. apply not_true_iff_false. intros ([[r k] reason] & Hin & Hr)%existsb_exists.
    apply String.eqb_eq in Hr as ->. apply list_elem_of_In, elem_of_map_to_list in Hin. by rewrite H in Hin.
Qed.

(** Every row of the record is the paused row [hash], with its block. *)
Definition guarded (record hash : string) (kind : ActivationBlockKind) (d : db) : Prop :=
  forall h i, torrent_intents d !! h = Some i -> in_record_id i = record ->
    h = hash /\ in_run i = RunPaused /\ has_block record kind d.

Lemma enables_unguarded d op hash i kind :
  enables d op hash i -> ResumeRetryable kind = false -> ~ has_block (in_record_id i) kind d.
Proof.
  intros (v & retry & _ & _ & _ & _ & _ & Hb) Hk [reason Hr]. rewrite blocked_spec in Hb. specialize (Hb kind).
  destruct retry; cbn in Hb; [|congruence]. apply map_lookup_filter_None in Hb as [?|Hb]; [congruence|].
  apply (Hb reason Hr). intros [_ ?]. congruence.
Qed.

Lemma delete_torrent_row_rows hash d d' : delete_torrent_row hash d = Ok d' ->
  torrent_intents d' = torrent_intents d /\ torrent_activation_blocks d' = torrent_activation_blocks d \/
  exists i, torrent_intents d !! hash = Some i /\ torrent_intents d' = delete hash (torrent_intents d) /\
    torrent_activation_blocks d' = filter (fun '((record, _), _) => record <> in_record_id i) (torrent_activation_blocks d).
Proof.
  unfold delete_torrent_row, delete_intent. destruct (torrents d !! hash); [|by intros; simplify_eq; left].
  destruct (torrent_intents d !! hash) as [i|]; [|by intros; simplify_eq; left].
  destruct (fence_record _ d) as [d1|] eqn:E; [|done]. intros. simplify_eq. right. exists i. cbn.
  apply fence_record_frame in E. rewrite (E Intents eq_refl), (E Blocks eq_refl). done.
Qed.

Lemma DeleteTorrent_guarded record hash kind d h :
  guarded record hash kind d -> guarded record hash kind (snd (DeleteTorrent d h)).
Proof.
  intros Hg. unfold DeleteTorrent, atomically. destruct (DeleteTorrent_tx h d) as [[u d']|] eqn:E; [|done]. cbn.
  unfold DeleteTorrent_tx in E. case_match; [done|]. destruct (delete_torrent_row h _) as [d1|] eqn:Ed; [|done].
  assert (torrent_intents d' = torrent_intents d1 /\ torrent_activation_blocks d' = torrent_activation_blocks d1) as [Ei Eb].
  { destruct (if (_ =? "payload")%string then _ else _) as [d2|] eqn:Es; [|done]. simplify_eq.
    destruct (_ =? "payload")%string; [|by simplify_eq]. apply delete_storages_frame in Es.
    split; [exact (Es Intents eq_refl)|exact (Es Blocks eq_refl)]. }
  unfold guarded, has_block in *. rewrite Ei, Eb. apply delete_torrent_row_rows in Ed as [[-> ->]|(i & Hi & -> & ->)]; [done|].
  cbn in *. intros h' i' [Hne Hi']%lookup_delete_Some Hr.
  destruct (Hg _ _ Hi' Hr) as (-> & ? & reason & Hb). do 2 (split; [done|]). exists reason.
  apply map_lookup_filter_Some. split; [done|]. intros Hir. by destruct (Hne (proj1 (Hg _ _ Hi (eq_sym Hir)))).
Qed.

Lemma apply_guarded record hash kind op d : ResumeRetryable kind = false ->
  ~ draws op record -> ~ clears op record kind ->
  guarded record hash kind d -> guarded record hash kind (apply fold catalog_json d op).
Proof.
  intros Hk Hd Hc Hg. destruct (deletes op) eqn:Hdel; [destruct op; try done; by apply DeleteTorrent_guarded|].
  intros h i' Hi' Hr. destruct (apply_evolves fold catalog_json op d _ _ Hi') as [(i & Hi & Hs)|[? _]]; [|by subst].
  pose proof (sp_record _ _ _ _ Hs) as Hrec. destruct (Hg _ _ Hi) as (-> & Hp & Hb); [congruence|]. split; [done|].
  split; [|by eapply apply_keeps]. destruct (decide (in_run i' = RunPaused)) as [|Hne]; [done|]. exfalso.
  refine (enables_unguarded d op hash i kind _ Hk _).
  - eapply apply_enables; [done..| |done|done]. by rewrite Hr.
  - by rewrite <- Hrec, Hr.
Qed.

Lemma run_guarded record hash kind ops : ResumeRetryable kind = false ->
  ~ drawn_in ops record -> (forall op, op ∈ ops -> ~ clears op record kind) ->
  forall d, guarded record hash kind d -> guarded record hash kind (run fold catalog_json ops d).
Proof.
  intros Hk. induction ops as [|op ops IH]; intros Hd Hc d Hg; cbn; [done|]. apply IH.
  - intros (op' & ? & ?). apply Hd. exists op'. split; [by right|done].
  - intros op' ?. apply Hc. by right.
  - apply apply_guarded; [done| |by apply Hc; left|done]. intros ?. apply Hd. exists op. split; [by left|done].
Qed.
End Guarded.

(** C18: a blocked torrent stays paused.  While a torrent has a block that no
    retry clears (a verification block, or a kind the program does not know), no
    run of the library without the clearance of that block enables it, whatever
    commands, retries, observations, inventories or moves it contains, and as
    long as the torrent is in the library its block is. *)
Theorem blocked_torrent_stays_paused (fold : string -> string) (catalog_json : TorrentCatalog -> list byte)
    (d : db) (ops : list operation) (record hash : string) (kind : ActivationBlockKind) (i : intent_row) :
  ResumeRetryable kind = false -> guarded record hash kind d ->
  ~ drawn_in ops record -> (forall op, op ∈ ops -> ~ clears op record kind) ->
  torrent_intents (run fold catalog_json ops d) !! hash = Some i -> in_record_id i = record ->
  in_run i = RunPaused /\ has_block record kind (run fold catalog_json ops d).
Proof.
  intros Hk Hg Hd Hc Hi Hr. by destruct (run_guarded fold catalog_json record hash kind ops Hk Hd Hc d Hg _ _ Hi Hr).
Qed.

(** The operations of a concrete run, one by one. *)
Ltac each_op H := repeat (apply elem_of_cons in H as [->|H]); [..|by apply not_elem_of_nil in H].

(** The paused torrent with a verification block, and a run that tries. *)
Definition lib_blocked : db :=
  run lib_fold lib_json
    [OpAttachRuntime (lib_version 1) "token";
     OpPutActivationBlock (mkRuntimeFence (lib_version 1) "token") BlockVerification "hash mismatch";
     OpCommitRunIntent (lib_version 1) RunPaused] lib_db.
Definition lib_attempts : list operation :=
  [OpCommitRunIntent (lib_version 2) RunEnabled; OpCommitResumeRetry (lib_version 2); OpMakePermanent "aa"].

Lemma blocked_torrent_stays_paused_witness :
  exists i, torrent_intents (run lib_fold lib_json lib_attempts lib_blocked) !! "aa"%string = Some i /\
    in_run i = RunPaused /\ has_block "record" BlockVerification (run lib_fold lib_json lib_attempts lib_blocked).
Proof.
  destruct (torrent_intents (run lib_fold lib_json lib_attempts lib_blocked) !! "aa"%string) as [i|] eqn:E;
    [|vm_compute in E; discriminate E].
  exists i. split; [reflexivity|].
  apply (blocked_torrent_stays_paused lib_fold lib_json lib_blocked lib_attempts "record" "aa" BlockVerification i); [done|..].
  - assert (map_Forall (fun h j => h = "aa"%string /\ in_run j = RunPaused) (torrent_intents lib_blocked)) as Hall
      by (apply (bool_decide_unpack _); by vm_compute).
    intros h j Hj _. destruct (Hall h j Hj) as [-> ?]. do 2 (split; [done|]). unfold has_block. vm_compute. by eexists.
  - intros (op & Hop & Hd). unfold lib_attempts in Hop. by each_op Hop.
  - apply Forall_forall. repeat constructor; exact (fun H => H).
  - exact E.
  - vm_compute in E. by injection E as <-.
Defined.

(** what enables a torrent.  Whenever a paused torrent is found enabled later
    under the same record, some operation of the run in between was a run command
    or a retry decided on the version the torrent had at that point, at which it
    was paused, neither being deleted nor moved, and without a block (the ones
    the retry clears apart). *)
Theorem enabled_by_unblocked_command (fold : string -> string) (catalog_json : TorrentCatalog -> list byte)
    (d : db) (ops : list operation) (hash : string) (i i' : intent_row) :
  torrent_intents d !! hash = Some i -> in_run i = RunPaused -> ~ drawn_in ops (in_record_id i') ->
  torrent_intents (run fold catalog_json ops d) !! hash = Some i' -> in_run i' <> RunPaused ->
  exists before op after j, ops = (before ++ op :: after)%list /\
    torrent_intents (run fold catalog_json before d) !! hash = Some j /\ in_record_id j = in_record_id i' /\
    in_run j = RunPaused /\ enables (run fold catalog_json before d) op hash j.
Proof.
  intros Hi Hp. revert i'. induction ops as [|op ops IH] using rev_ind; intros i' Hd Hi' Hne; [cbn in *; congruence|].
  rewrite run_app in Hi'. cbn in Hi'. set (d1 := run fold catalog_json ops d) in *.
  assert (~ draws op (in_record_id i')) as Hdo.
  { intros ?. apply Hd. exists op. split; [|done]. apply elem_of_app. right. by left. }
  destruct (apply_evolves fold catalog_json op d1 _ _ Hi') as [(j & Hj & Hs)|[? _]]; [|done].
  pose proof (sp_record _ _ _ _ Hs) as Hrec.
  destruct (decide (in_run j = RunPaused)) as [Hjp|Hjn].
  - exists ops, op, [], j. do 2 (split; [done|]). do 2 (split; [done|]). by eapply apply_enables.
  - destruct (IH j) as (before & op' & after & j' & -> & ? & ? & ? & ?); [|done..|].
    { rewrite <- Hrec. intros (o & Ho & ?). apply Hd. exists o. split; [|done]. apply elem_of_app. by left. }
    exists before, op', (after ++ [op])%list, j'. rewrite <- app_assoc. split_and!; try done. congruence.
Qed.

Definition lib_paused : db := apply lib_fold lib_json lib_db (OpCommitRunIntent (lib_version 1) RunPaused).

Lemma enabled_by_unblocked_command_witness :
  exists before op after j, [OpMakePermanent "aa"; OpCommitResumeRetry (lib_version 2)] = (before ++ op :: after)%list /\
    torrent_intents (run lib_fold lib_json before lib_paused) !! "aa"%string = Some j /\ in_record_id j = "record"%string /\
    in_run j = RunPaused /\ enables (run lib_fold lib_json before lib_paused) op "aa" j.
Proof.
  set (ops := [OpMakePermanent "aa"; OpCommitResumeRetry (lib_version 2)]).
  destruct (torrent_intents lib_paused !! "aa"%string) as [i|] eqn:Ei; [|vm_compute in Ei; discriminate Ei].
  destruct (torrent_intents (run lib_fold lib_json ops lib_paused) !! "aa"%string) as [i'|] eqn:Ei';
    [|vm_compute in Ei'; discriminate Ei'].
  assert (in_run i = RunPaused) by (vm_compute in Ei; by injection Ei as <-).
  assert (in_record_id i' = "record"%string /\ in_run i' <> RunPaused) as [<- ?]
    by (vm_compute in Ei'; by injection Ei' as <-).
  apply (enabled_by_unblocked_command lib_fold lib_json lib_paused ops "aa" i i'); [exact Ei|assumption| |exact Ei'|assumption].
  intros (op & Hop & Hd). unfold ops in Hop. by each_op Hop.
Defined.
