(* ===== verification/RootedFiles.v ===== *)
(** * Files below the download directory

    What the storage workflows use of [os.Root] and of the rooted operations in
    [pkg/anacrolix-torrent/storage] ([directory_move.go], [recovery_move.go],
    [file-io-root.go]) and [internal/usecase/legacy_recovery.go] (fingerprints)
    and [storage_move_evidence.go] (snapshots of a tree).

    A relative path that [filepath.Clean] leaves alone is the list of its
    elements: [filepath.Join] is [++], [filepath.Dir] drops the last element and
    "." is the empty list.  A disk maps paths to directories and regular files.
    A file or directory has the identity it was created with, and no identity is
    given twice; 0 is the empty identity of the journals.  Symbolic links, hard
    links and special files, which the rooted operations refuse, are left out. *)

From stdpp Require Import base gmap list strings sorting.
From Stdlib Require Import ZArith Strings.Byte Lia.
From S2P Require Import Prelude Paths Tables Sha256.

#[local] Open Scope Z_scope.

Abbreviation path := (list string).

(** The text of a path. *)
Definition text (p : path) : string := match p with [] => "."%string | _ => join_with slash p end.

Definition parent (p : path) : path := removelast p.

(** [p + suffix] as a string: the suffix goes to the last element. *)
Definition with_suffix (p : path) (suffix : string) : path :=
  match p with [] => [] | _ => (parent p ++ [(List.last p "" ++ suffix)%string])%list end.

Inductive node :=
| Directory (id : Z)
| Regular (id : Z) (data : list byte) (modified : Z).

Record disk := mkDisk {
  d_nodes : gmap path node;
  d_next : Z;
  d_clock : Z;
}.
#[export] Instance disk_eta : Eta disk := fun d => mkDisk (d_nodes d) (d_next d) (d_clock d).

Inductive MoveError :=
| ErrNotExist
| ErrExist
| ErrNotEmpty
| ErrUnsafeFile
| ErrCrossDevice
| ErrRecoveryCandidateChanged
| ErrStorageConflict
| ErrManifestLimit
| ErrSizeOverflow
| ErrUnsupportedStage
| ErrOwnershipCatalogChanged
| ErrFault                 (* any other failure of a system or database call *)
| ErrRepo (e : RepoError)
| OutOfFuel.

(** ** Looking *)

Definition Lstat (d : disk) (p : path) : result MoveError node :=
  match d_nodes d !! p with Some n => Ok n | None => Err ErrNotExist end.

(** [OpenRootDirectory] with [FileIdentity]: every component is a directory. *)
Fixpoint open_components (d : disk) (seen rest : path) : result MoveError Z :=
  match d_nodes d !! seen with
  | None => Err ErrNotExist
  | Some (Regular _ _ _) => Err ErrUnsafeFile
  | Some (Directory id) =>
      match rest with
      | [] => Ok id
      | name :: rest => open_components d (seen ++ [name]) rest
      end
  end.

Definition directoryIdentity (d : disk) (p : path) : result MoveError Z := open_components d [] p.

(** [OpenRootFile] of an existing file. *)
Definition open_file (d : disk) (p : path) : result MoveError (Z * list byte * Z) :=
  match d_nodes d !! p with
  | None => Err ErrNotExist
  | Some (Directory _) => Err ErrUnsafeFile
  | Some (Regular id data modified) => Ok (id, data, modified)
  end.

Definition below (p q : path) : bool := bool_decide (p `prefix_of` q).

(** [ReadDir]: the names directly below [p]. *)
Definition names (d : disk) (p : path) : list string :=
  omap (fun '(q, _) => if negb (bool_decide (q = [])) && bool_decide (parent q = p) then Some (List.last q ""%string) else None)
    (map_to_list (d_nodes d)).

(** ** Changing the namespace *)

Definition set_node (p : path) (n : node) (d : disk) : disk := d <| d_nodes ::= <[p := n]> |>.

Definition is_directory (d : disk) (p : path) : bool :=
  match d_nodes d !! p with Some (Directory _) => true | _ => false end.

Definition Mkdir (p : path) (d : disk) : result MoveError (unit * disk) :=
  if bool_decide (is_Some (d_nodes d !! p)) then Err ErrExist
  else if negb (is_directory d (parent p)) then Err ErrNotExist
  else Ok (tt, set_node p (Directory (d_next d)) d <| d_next ::= Z.succ |>).

(** [root.MkdirAll], outermost directory first. *)
Fixpoint MkdirAll (seen rest : path) (d : disk) : result MoveError disk :=
  match rest with
  | [] => Ok d
  | name :: rest =>
      let p := (seen ++ [name])%list in
      match Mkdir p d with
      | Ok (_, d) => MkdirAll p rest d
      | Err ErrExist => if is_directory d p then MkdirAll p rest d else Err ErrUnsafeFile
      | Err e => Err e
      end
  end.

(** [OpenRootFile] with [O_CREATE|O_EXCL]: the new file's identity. *)
Definition create_file (p : path) (d : disk) : result MoveError (Z * disk) :=
  if bool_decide (is_Some (d_nodes d !! p)) then Err ErrExist
  else
    let? d := MkdirAll [] (parent p) d in
    Ok (d_next d, set_node p (Regular (d_next d) [] (d_clock d)) d <| d_next ::= Z.succ |> <| d_clock ::= Z.succ |>).

(** [root.Remove]. *)
Definition Remove (p : path) (d : disk) : result MoveError (unit * disk) :=
  match d_nodes d !! p with
  | None => Err ErrNotExist
  | Some (Directory _) =>
      match names d p with
      | [] => Ok (tt, d <| d_nodes ::= delete p |>)
      | _ => Err ErrNotEmpty
      end
  | Some (Regular _ _ _) => Ok (tt, d <| d_nodes ::= delete p |>)
  end.

(** Nothing is at or below [p]: below an absent name there is nothing. *)
Definition absent (d : disk) (p : path) : bool := forallb (fun '(q, _) => negb (below p q)) (map_to_list (d_nodes d)).

Definition MoveRootNoReplace (from to : path) (d : disk) : result MoveError (unit * disk) :=
  let? '(id, data, modified) := open_file d from in
  if negb (absent d to) then Err ErrExist
  else if negb (is_directory d (parent to)) then Err ErrNotExist
  else Ok (tt, d <| d_nodes ::= fun m => <[to := Regular id data modified]> (delete from m) |>).

Section Devices.
(** The device a directory is mounted from. *)
Context (device : path -> Z).

(** The entries below [from], under the names they get below [to]. *)
Definition renamed (from to : path) (m : gmap path node) : gmap path node :=
  list_to_map (omap (fun '(q, n) => if below from q then Some ((to ++ drop (length from) q)%list, n) else None) (map_to_list m)).

Definition rename_tree (from to : path) (m : gmap path node) : gmap path node :=
  filter (fun '(q, _) => below from q = false) m ∪ renamed from to m.

Definition MoveRootDirectoryNoReplace (from to : path) (d : disk) : result MoveError (unit * disk) :=
  if bool_decide (from = []) || bool_decide (to = []) then Err ErrUnsafeFile
  else
    let? _ := directoryIdentity d from in
    if negb (absent d to) then Err ErrExist
    else
      let? _ := directoryIdentity d (parent from) in
      let? _ := directoryIdentity d (parent to) in
      if negb (device (parent from) =? device (parent to)) then Err ErrCrossDevice
      else if below from to then Err ErrFault
      else Ok (tt, d <| d_nodes ::= rename_tree from to |>).
End Devices.

(** ** Changing a file *)

(** [Truncate]: cut or extended with zeros. *)
Definition resize (n : nat) (data : list byte) : list byte := (take n data ++ replicate (n - length data) x00)%list.

(** A write at an offset; a gap before it reads as zeros. *)
Definition overwrite (offset : nat) (chunk data : list byte) : list byte :=
  (resize offset data ++ chunk ++ drop (offset + length chunk) data)%list.

Definition update_file (p : path) (f : list byte -> list byte) (d : disk) : result MoveError (unit * disk) :=
  let? '(id, data, _) := open_file d p in
  Ok (tt, set_node p (Regular id (f data) (d_clock d)) d <| d_clock ::= Z.succ |>).

(** ** Evidence *)

Record recoveryFingerprint := mkFingerprint {
  fp_Identity : Z;
  fp_Size : Z;
  fp_Modified : Z;
  fp_Digest : string;
}.
#[export] Instance fingerprint_eq_dec : EqDecision recoveryFingerprint.
Proof. solve_decision. Defined.

Definition fingerprintRecovery (d : disk) (p : path) : result MoveError recoveryFingerprint :=
  let? '(id, data, modified) := open_file d p in
  Ok (mkFingerprint id (Z.of_nat (length data)) modified (hex_of (sha256 data))).

Definition matchesRecovery (d : disk) (p : path) (want : recoveryFingerprint) : result MoveError unit :=
  let? got := fingerprintRecovery d p in
  if bool_decide (got = want) then Ok tt else Err ErrRecoveryCandidateChanged.

Record storageTreeEntry := mkTreeEntry {
  te_Path : path;
  te_Directory : bool;
  te_Evidence : recoveryFingerprint;
}.
#[export] Instance tree_entry_eq_dec : EqDecision storageTreeEntry.
Proof. solve_decision. Defined.

Record storageTree := mkTree { tr_Identity : Z; tr_Entries : list storageTreeEntry }.
#[export] Instance tree_eq_dec : EqDecision storageTree.
Proof. solve_decision. Defined.

Definition no_tree : storageTree := mkTree 0 [].

Definition maxStorageManifestEntries : Z := 65536.

(** The budget of path bytes. *)
Definition maxManifestPathBytes : Z := Z.shiftl 16 20.

(** The entry of one name of a directory. *)
Definition tree_entry (d : disk) (base rel : path) : result MoveError storageTreeEntry :=
  if is_directory d (base ++ rel) then
    let? id := directoryIdentity d (base ++ rel) in
    Ok (mkTreeEntry rel true (mkFingerprint id 0 0 ""))
  else
    let? evidence := fingerprintRecovery d (base ++ rel) in
    Ok (mkTreeEntry rel false evidence).

(** The recursive [walk]: its entries so far and the bytes of their paths.  A
    call at depth [k] has fuel [129 - k], so that it fails beyond depth 128. *)
Fixpoint walk (fuel : nat) (d : disk) (base relative : path) (st : list storageTreeEntry * Z)
    : result MoveError (list storageTreeEntry * Z) :=
  match fuel with
  | O => Err ErrManifestLimit
  | S fuel =>
      let? _ := directoryIdentity d (base ++ relative) in
      (fix each (names : list string) (st : list storageTreeEntry * Z) : result MoveError (list storageTreeEntry * Z) :=
         match names with
         | [] => Ok st
         | name :: names =>
             let rel := (relative ++ [name])%list in
             let bytes := snd st + Z.of_nat (String.length (text rel)) in
             if (Z.of_nat (length (fst st)) >=? maxStorageManifestEntries) || (bytes >? maxManifestPathBytes)
             then Err ErrManifestLimit
             else
               let? item := tree_entry d base rel in
               let st := ((fst st ++ [item])%list, bytes) in
               let? st := if te_Directory item then walk fuel d base rel st else Ok st in
               each names st
         end) (names d (base ++ relative)%list) st
  end.

Definition entry_le (a b : storageTreeEntry) : Prop := String.leb (text (te_Path a)) (text (te_Path b)) = true.
#[export] Instance entry_le_dec : RelDecision entry_le.
Proof. intros a b. unfold entry_le. apply _. Defined.

Definition snapshotStorageTree (d : disk) (p : path) : result MoveError storageTree :=
  match directoryIdentity d p with
  | Err ErrNotExist => Ok no_tree
  | Err e => Err e
  | Ok id =>
      let? '(entries, _) := walk 129 d p [] ([], 0) in
      Ok (mkTree id (merge_sort entry_le entries))
  end.

Definition validateStorageTree (d : disk) (p : path) (expected : storageTree) : result MoveError unit :=
  let? actual := snapshotStorageTree d p in
  if bool_decide (actual = expected) then Ok tt else Err ErrRecoveryCandidateChanged.
