(* ===== verification/RootedFrame.v ===== *)
(** * What the rooted operations leave alone

    Frame lemmas of [RootedFiles]: which regular files an operation keeps, what a
    renamed tree holds, and what a snapshot or a check of a tree says about the
    disk. *)

From stdpp Require Import base gmap list strings sorting.
From Stdlib Require Import ZArith Strings.Byte Lia.
From S2P Require Import Prelude Paths Tables Sha256 RootedFiles.

#[local] Open Scope Z_scope.

(** ** Kept files *)

Definition is_regular (n : node) : Prop := match n with Regular _ _ _ => True | Directory _ => False end.

(** The regular files at the paths of [P] are the same. *)
Definition keeps (P : path -> Prop) (d d' : disk) : Prop :=
  forall p n, P p -> is_regular n -> d_nodes d !! p = Some n -> d_nodes d' !! p = Some n.

#[export] Instance keeps_preorder P : PreOrder (keeps P).
Proof. split; [by intros d p n|]. intros a b c H1 H2 p n Hp Hn H. apply H2; [done..|]. by apply H1. Qed.

Lemma keeps_mono (P Q : path -> Prop) d d' : (forall p, Q p -> P p) -> keeps P d d' -> keeps Q d d'.
Proof. intros HQ H p n Hp. apply H. by apply HQ. Qed.

Lemma below_true p q : below p q = true <-> p `prefix_of` q.
Proof. apply bool_decide_eq_true. Qed.

Lemma below_false p q : below p q = false <-> ~ p `prefix_of` q.
Proof. apply bool_decide_eq_false. Qed.

Lemma set_node_keeps P p n d : ~ P p \/ d_nodes d !! p = None \/ (exists id, d_nodes d !! p = Some (Directory id)) -> keeps P d (set_node p n d).
Proof.
  intros H q m Hq Hm E. cbn. rewrite lookup_insert_ne; [done|]. intros ->.
  destruct H as [H|[H|[id H]]]; [done|congruence|]. rewrite H in E. injection E as <-. done.
Qed.

Lemma Mkdir_keeps P p d u d' : Mkdir p d = Ok (u, d') -> keeps P d d'.
Proof.
  unfold Mkdir. case_bool_decide as Hp; [done|]. destruct (negb _); [done|]. intros [= _ <-].
  apply (set_node_keeps P p (Directory (d_next d)) d). right; left. by apply eq_None_not_Some.
Qed.

Lemma MkdirAll_keeps P rest : forall seen d d', MkdirAll seen rest d = Ok d' -> keeps P d d'.
Proof.
  induction rest as [|name rest IH]; intros seen d d'; cbn [MkdirAll]; [by intros [= <-]|].
  destruct (Mkdir (seen ++ [name]) d) as [[u d1]|[]] eqn:E; try done.
  - intros H. transitivity d1; [by eapply Mkdir_keeps|by eapply IH].
  - destruct (is_directory d _); [|done]. apply IH.
Qed.

Lemma Mkdir_other p d u d' q : Mkdir p d = Ok (u, d') -> q <> p -> d_nodes d' !! q = d_nodes d !! q.
Proof.
  unfold Mkdir. case_bool_decide; [done|]. destruct (negb _); [done|]. intros [= _ <-] Hq. cbn. by rewrite lookup_insert_ne.
Qed.

Lemma create_file_keeps P p d id d' : create_file p d = Ok (id, d') -> keeps P d d'.
Proof.
  unfold create_file. case_bool_decide as Hp; [done|]. destruct (MkdirAll [] (parent p) d) as [d1|] eqn:E; [|done]. intros [= _ <-].
  apply MkdirAll_keeps with (P := fun _ => True) in E as Hk.
  intros q n Hq Hn Hd. apply (Hk q n) in Hd as Hd1; [|done..]. cbn. rewrite lookup_insert_ne; [done|]. intros ->. apply Hp. by rewrite Hd.
Qed.

Lemma delete_keeps (P : path -> Prop) p d : ~ P p -> keeps P d (d <| d_nodes ::= delete p |>).
Proof. intros Hp q n Hq _ E. cbn. rewrite lookup_delete_ne; [done|]. by intros ->. Qed.

Lemma Remove_keeps (P : path -> Prop) p d u d' : Remove p d = Ok (u, d') -> ~ P p \/ is_directory d p = true -> keeps P d d'.
Proof.
  unfold Remove, is_directory. destruct (d_nodes d !! p) as [[id|id data t]|] eqn:E; [destruct (names d p); [|done]| |done]; intros [= _ <-] H.
  - intros q n Hq Hn Hd. cbn. rewrite lookup_delete_ne; [done|]. intros ->. rewrite E in Hd. by injection Hd as <-.
  - apply delete_keeps. by destruct H.
Qed.

Lemma update_file_keeps (P : path -> Prop) p f d u d' : update_file p f d = Ok (u, d') -> ~ P p -> keeps P d d'.
Proof.
  unfold update_file. destruct (open_file d p) as [[[id data] t]|]; [|done]. intros [= _ <-] Hp.
  apply (set_node_keeps P p _ d). by left.
Qed.

Lemma absent_spec d p : absent d p = true <-> forall r, d_nodes d !! (p ++ r)%list = None.
Proof.
  unfold absent. rewrite forallb_forall. split.
  - intros H r. destruct (d_nodes d !! (p ++ r)%list) as [n|] eqn:E; [|done]. exfalso.
    specialize (H ((p ++ r)%list, n)). cbn in H. assert (below p (p ++ r) = true) as Hb by (apply below_true; by apply prefix_app_r).
    rewrite Hb in H. discriminate H. apply list_elem_of_In, elem_of_map_to_list. exact E.
  - intros H [q n] Hq%list_elem_of_In%elem_of_map_to_list. apply negb_true_iff, below_false. intros [r ->]. by rewrite H in Hq.
Qed.

Lemma absent_here d p : absent d p = true -> d_nodes d !! p = None.
Proof. intros H. pose proof (proj1 (absent_spec d p) H []) as E. by rewrite app_nil_r in E. Qed.

Lemma MoveRootNoReplace_keeps (P : path -> Prop) from to d u d' : MoveRootNoReplace from to d = Ok (u, d') -> ~ P from -> keeps P d d'.
Proof.
  unfold MoveRootNoReplace. destruct (open_file d from) as [[[id data] t]|]; [|done]. destruct (absent d to) eqn:Ha; [|done]. cbn [negb].
  destruct (negb _); [done|]. intros [= _ <-] Hp q n Hq Hn E. cbn. apply absent_here in Ha.
  rewrite lookup_insert_ne by (intros ->; congruence). rewrite lookup_delete_ne; [done|]. by intros ->.
Qed.

(** ** Renamed trees *)

Lemma renamed_lookup from to m q n : renamed from to m !! q = Some n -> exists r, q = (to ++ r)%list /\ m !! (from ++ r)%list = Some n.
Proof.
  unfold renamed. intros H%elem_of_list_to_map_2. apply list_elem_of_omap in H as ([q' n'] & Hq' & H). apply elem_of_map_to_list in Hq'.
  destruct (below from q') eqn:Hb; [|done]. injection H as <- <-. apply below_true in Hb as [r ->]. exists r.
  rewrite drop_app_length. done.
Qed.

Lemma renamed_keys from to (l : list (path * node)) : NoDup l.*1 ->
  NoDup (omap (fun '(q, n) => if below from q then Some ((to ++ drop (length from) q)%list, n) else None) l).*1.
Proof.
  induction l as [|[q n] l IH]; cbn; [constructor|]. intros [Hq Hl]%NoDup_cons. destruct (below from q) eqn:Hb; cbn; [|by apply IH].
  constructor; [|by apply IH]. apply below_true in Hb as [r ->]. rewrite drop_app_length. intros H. apply Hq.
  apply list_elem_of_fmap in H as ([q' n'] & Hq' & H). apply list_elem_of_omap in H as ([q2 n2] & H2 & H). cbn in Hq'. subst q'.
  destruct (below from q2) eqn:Hb2; [|done]. apply below_true in Hb2 as [r2 ->]. rewrite drop_app_length in H. injection H as Hr _.
  apply app_inv_head in Hr as ->. apply list_elem_of_fmap. by exists ((from ++ r)%list, n2).
Qed.

Lemma renamed_some from to m r n : m !! (from ++ r)%list = Some n -> renamed from to m !! (to ++ r)%list = Some n.
Proof.
  intros H. unfold renamed. apply elem_of_list_to_map_1; [apply renamed_keys, NoDup_fst_map_to_list|].
  apply list_elem_of_omap. exists ((from ++ r)%list, n). split; [by apply elem_of_map_to_list|].
  assert (below from (from ++ r) = true) as -> by (apply below_true; by apply prefix_app_r). by rewrite drop_app_length.
Qed.

Lemma move_tree_spec device from to d u d' : MoveRootDirectoryNoReplace device from to d = Ok (u, d') ->
  absent d to = true /\ below from to = false /\ d' = d <| d_nodes ::= rename_tree from to |>.
Proof.
  unfold MoveRootDirectoryNoReplace. destruct (bool_decide _ || bool_decide _); [done|]. destruct (directoryIdentity d from); [|done].
  destruct (absent d to); [|done]. cbn [negb]. destruct (directoryIdentity d (parent from)); [|done]. destruct (directoryIdentity d (parent to)); [|done].
  destruct (negb _); [done|]. destruct (below from to) eqn:Hb; [done|]. intros [= _ <-]. done.
Qed.

Lemma move_tree_keeps (P : path -> Prop) device from to d u d' : MoveRootDirectoryNoReplace device from to d = Ok (u, d') ->
  (forall p, P p -> ~ from `prefix_of` p) -> keeps P d d'.
Proof.
  intros (_ & _ & ->)%move_tree_spec HP q n Hq Hn E. cbn. unfold rename_tree. apply lookup_union_Some_l, map_lookup_filter_Some.
  split; [done|]. apply below_false. by apply HP.
Qed.

Lemma move_tree_moves device from to d u d' r n : MoveRootDirectoryNoReplace device from to d = Ok (u, d') ->
  d_nodes d !! (from ++ r)%list = Some n -> d_nodes d' !! (to ++ r)%list = Some n.
Proof.
  intros (Ha & Hb & ->)%move_tree_spec E. cbn. unfold rename_tree. rewrite lookup_union_r; [by apply renamed_some|].
  apply map_lookup_filter_None. left. by apply (proj1 (absent_spec d to)).
Qed.

(** ** Evidence *)

(** A regular file of this size and digest. *)
Definition content (d : disk) (p : path) (ev : recoveryFingerprint) : Prop :=
  exists n, d_nodes d !! p = Some n /\ match n with
    | Regular _ data _ => Z.of_nat (length data) = fp_Size ev /\ hex_of (sha256 data) = fp_Digest ev
    | Directory _ => False
    end.

Lemma content_keeps (P : path -> Prop) d d' p ev : keeps P d d' -> P p -> content d p ev -> content d' p ev.
Proof. intros Hk Hp (n & E & Hn). exists n. split; [|done]. apply Hk; [done| |done]. by destruct n. Qed.

Lemma open_components_spec d rest : forall seen id, open_components d seen rest = Ok id -> d_nodes d !! (seen ++ rest)%list = Some (Directory id).
Proof.
  induction rest as [|name rest IH]; intros seen id; cbn; destruct (d_nodes d !! seen) as [[]|] eqn:E; try done.
  - intros [= ->]. by rewrite app_nil_r.
  - intros H%IH. by rewrite <- app_assoc in H.
Qed.

Lemma directoryIdentity_spec d p id : directoryIdentity d p = Ok id -> d_nodes d !! p = Some (Directory id).
Proof. apply open_components_spec. Qed.

Lemma fingerprint_content d p ev : fingerprintRecovery d p = Ok ev -> content d p ev.
Proof.
  unfold fingerprintRecovery, open_file, content. destruct (d_nodes d !! p) as [[|id data t]|]; try done. cbn. intros [= <-]. by eexists.
Qed.

Definition entry_holds (d : disk) (base : path) (e : storageTreeEntry) : Prop :=
  te_Directory e = false -> content d (base ++ te_Path e) (te_Evidence e).

Lemma tree_entry_holds d base rel e : tree_entry d base rel = Ok e -> entry_holds d base e.
Proof.
  unfold tree_entry, entry_holds. destruct (is_directory d _).
  - destruct (directoryIdentity d _); [|done]. by intros [= <-].
  - destruct (fingerprintRecovery d (base ++ rel)) eqn:E; [|done]. intros [= <-] _. by apply fingerprint_content.
Qed.

Lemma walk_holds fuel d base : forall relative st st', walk fuel d base relative st = Ok st' ->
  Forall (entry_holds d base) (fst st) -> Forall (entry_holds d base) (fst st').
Proof.
  induction fuel as [|fuel IH]; intros relative st st'; cbn [walk]; [done|]. destruct (directoryIdentity d _); [|done].
  generalize (names d (base ++ relative)%list) as l. intros l. revert st. induction l as [|name l IHl]; intros st; [by intros [= <-]|].
  destruct (_ || _); [done|]. destruct (tree_entry d base (relative ++ [name])) as [item|] eqn:E; [|done].
  apply tree_entry_holds in E. intros H Hst.
  assert (Forall (entry_holds d base) (fst st ++ [item])) as Hst1 by (apply Forall_app; split; [done|by repeat constructor]).
  destruct (te_Directory item); [|by apply IHl in H].
  destruct (walk fuel d base _ _) as [st1|] eqn:E1; [|done]. apply IHl in H; [done|]. eapply IH; [exact E1|done].
Qed.

Lemma snapshot_holds d p t : snapshotStorageTree d p = Ok t -> Forall (entry_holds d p) (tr_Entries t).
Proof.
  unfold snapshotStorageTree. destruct (directoryIdentity d p) as [id|[]]; try done; [|by intros [= <-]; constructor].
  destruct (walk 129 d p [] ([], 0)) as [[entries bytes]|] eqn:E; [|done]. intros [= <-]. cbn.
  rewrite merge_sort_Permutation. by apply walk_holds in E.
Qed.

Lemma validate_holds d p t : validateStorageTree d p t = Ok tt -> Forall (entry_holds d p) (tr_Entries t).
Proof.
  unfold validateStorageTree. destruct (snapshotStorageTree d p) as [a|] eqn:E; [|done]. case_bool_decide as Ha; [|done]. subst a.
  intros _. by apply snapshot_holds.
Qed.

(** ** No operation runs out of fuel *)

Definition answers {A} (r : result MoveError A) : Prop := r <> Err OutOfFuel.

Create HintDb answers.

Lemma answers_ok {A} (a : A) : answers (Ok a).
Proof. done. Qed.

Lemma answers_bind {A B} (r : result MoveError A) (k : A -> result MoveError B) : answers r -> (forall a, answers (k a)) ->
  answers (match r with Ok a => k a | Err e => Err e end).
Proof. destruct r as [a|e]; [intros _ H; apply H|]. intros H _ [= ->]. by apply H. Qed.

#[export] Hint Resolve answers_ok : answers.

Lemma Lstat_answers d p : answers (Lstat d p).
Proof. unfold Lstat. by destruct (_ !! _). Qed.
Lemma open_components_answers d rest : forall seen, answers (open_components d seen rest).
Proof. induction rest; intros seen; cbn; destruct (_ !! _) as [[]|]; by auto with answers. Qed.
Lemma directoryIdentity_answers d p : answers (directoryIdentity d p).
Proof. apply open_components_answers. Qed.
Lemma open_file_answers d p : answers (open_file d p).
Proof. unfold open_file. by destruct (_ !! _) as [[]|]. Qed.
Lemma Mkdir_answers p d : answers (Mkdir p d).
Proof. unfold Mkdir. case_bool_decide; [done|]. by destruct (negb _). Qed.
Lemma MkdirAll_answers rest : forall seen d, answers (MkdirAll seen rest d).
Proof.
  induction rest as [|name rest IH]; intros seen d; cbn [MkdirAll]; [done|]. pose proof (Mkdir_answers (seen ++ [name]) d) as H.
  destruct (Mkdir _ d) as [[]|[]]; try done. by destruct (is_directory d _).
Qed.
Lemma create_file_answers p d : answers (create_file p d).
Proof. unfold create_file. case_bool_decide; [done|]. apply answers_bind; [apply MkdirAll_answers|done]. Qed.
Lemma Remove_answers p d : answers (Remove p d).
Proof. unfold Remove. destruct (_ !! _) as [[]|]; try done. by destruct (names d p). Qed.
Lemma MoveRootNoReplace_answers from to d : answers (MoveRootNoReplace from to d).
Proof. unfold MoveRootNoReplace. apply (answers_bind (open_file d from)); [apply open_file_answers|]. intros [[id data] t]. destruct (negb _); [done|]. by destruct (negb _). Qed.
Lemma update_file_answers p f d : answers (update_file p f d).
Proof. unfold update_file. apply (answers_bind (open_file d p)); [apply open_file_answers|]. by intros [[id data] t]. Qed.
Lemma move_tree_answers device from to d : answers (MoveRootDirectoryNoReplace device from to d).
Proof.
  unfold MoveRootDirectoryNoReplace. destruct (_ || _); [done|]. apply answers_bind; [apply directoryIdentity_answers|]. intros _. destruct (negb _); [done|].
  apply answers_bind; [apply directoryIdentity_answers|]. intros _. apply answers_bind; [apply directoryIdentity_answers|]. intros _.
  destruct (negb _); [done|]. by destruct (below _ _).
Qed.
Lemma fingerprint_answers d p : answers (fingerprintRecovery d p).
Proof. unfold fingerprintRecovery. apply (answers_bind (open_file d p)); [apply open_file_answers|]. by intros [[id data] t]. Qed.
Lemma matches_answers d p want : answers (matchesRecovery d p want).
Proof. unfold matchesRecovery. apply answers_bind; [apply fingerprint_answers|]. intros got. by case_bool_decide. Qed.
Lemma tree_entry_answers d base rel : answers (tree_entry d base rel).
Proof. unfold tree_entry. destruct (is_directory _ _); (apply answers_bind; [|done]); [apply directoryIdentity_answers|apply fingerprint_answers]. Qed.

Lemma walk_answers fuel d base : forall relative st, answers (walk fuel d base relative st).
Proof.
  induction fuel as [|fuel IH]; intros relative st; cbn [walk]; [done|]. apply answers_bind; [apply directoryIdentity_answers|]. intros _.
  generalize (names d (base ++ relative)%list) as l. intros l. revert st. induction l as [|name l IHl]; intros st; [done|].
  destruct (_ || _); [done|]. apply answers_bind; [apply tree_entry_answers|]. intros item. apply answers_bind; [|done]. by destruct (te_Directory item).
Qed.

Lemma snapshot_answers d p : answers (snapshotStorageTree d p).
Proof.
  unfold snapshotStorageTree. pose proof (directoryIdentity_answers d p) as H. destruct (directoryIdentity d p) as [id|[]]; try done.
  apply (answers_bind (walk 129 d p [] ([], 0))); [apply walk_answers|]. by intros [entries bytes].
Qed.
Lemma validate_answers d p t : answers (validateStorageTree d p t).
Proof. unfold validateStorageTree. apply answers_bind; [apply snapshot_answers|]. intros a. by case_bool_decide. Qed.

#[export] Hint Resolve Lstat_answers directoryIdentity_answers open_file_answers Mkdir_answers create_file_answers Remove_answers
  MoveRootNoReplace_answers update_file_answers move_tree_answers fingerprint_answers matches_answers snapshot_answers validate_answers : answers.
