(* ===== verification/StorageMove.v ===== *)
(** * Moving the payload of a torrent

    [internal/usecase/storage_move.go], [storage_move_copy.go],
    [storage_journal_validation.go] and the parts of [storage_commands.go] and
    [storage_worker.go] that drive them: a journalled move of a payload tree to a
    new root, by renaming it or by copying it, publishing the copy and removing
    the source.

    The workflow runs over a world: the disk, the database and the faults to
    come.  Every call that leaves the process (a system call, a database
    transaction, a check of the context, the volumes or the engine) is one
    [primitive].  A fault makes it fail before it has done anything or after it
    has done its work, and once a prefix of the calls has run, failing all later
    ones is a crash.  It may also let a command of the user (plan, apply, retry or
    cancel) run just before the call.  The journal is stored in the [RecoveryRecord], as the
    text that [json.Marshal] makes of it. *)

From stdpp Require Import base gmap list strings pretty.
From Stdlib Require Import ZArith Strings.Byte Lia.
From S2P Require Import Prelude Models Paths Layout FastResume Tables IntentStore StorageStore RootedFiles.

#[local] Open Scope Z_scope.

#[local] Instance move_byte_eq_dec : EqDecision byte := Byte.byte_eq_dec.

#[local] Instance layout_eq_dec : EqDecision Layout.
Proof. solve_decision. Defined.

(** ** The journal *)

Record storageMoveEntry := mkMoveEntry {
  me_Source : path;
  me_Target : path;
  me_Evidence : recoveryFingerprint;
  me_CopyIdentity : Z;
  me_Removed : bool;
}.
#[export] Instance move_entry_eta : Eta storageMoveEntry := fun e =>
  mkMoveEntry (me_Source e) (me_Target e) (me_Evidence e) (me_CopyIdentity e) (me_Removed e).

(** Without the fields of the analysis of a located tree. *)
Record storageLocationJournal := mkJournal {
  j_FreeBytes : option Z;
  j_CleanupPath : path;
  j_CleanupIdentity : Z;
  j_CopiesComplete : bool;
  j_Directories : list path;
  j_Schema : Z;
  j_Source : StorageMapping;
  j_Target : Layout;
  j_Staging : path;
  j_StagingIdentity : Z;
  j_SourceTree : storageTree;
  j_Entries : list storageMoveEntry;
  j_Method : string;
  j_ExtraBytes : Z;
  j_RetainSource : bool;
}.
#[export] Instance journal_eta : Eta storageLocationJournal := fun j =>
  mkJournal (j_FreeBytes j) (j_CleanupPath j) (j_CleanupIdentity j) (j_CopiesComplete j) (j_Directories j) (j_Schema j)
    (j_Source j) (j_Target j) (j_Staging j) (j_StagingIdentity j) (j_SourceTree j) (j_Entries j) (j_Method j)
    (j_ExtraBytes j) (j_RetainSource j).

#[export] Instance recovery_record_eta : Eta RecoveryRecord := fun v => mkRecoveryRecord (v_Hash v) (v_row v).

Definition source_root (j : storageLocationJournal) : path := clean_parts (st_root (m_row (j_Source j))).
Definition target_root (j : storageLocationJournal) : path := clean_parts (l_Root (j_Target j)).

Definition v_Stage (v : RecoveryRecord) : string := rc_stage (v_row v).

(** ["%s-%d"] of the record and its version. *)
Definition operation_name (v : RecoveryRecord) : string :=
  (rc_record_id (v_row v) ++ "-" ++ pretty (rc_version (v_row v)))%string.

Definition cleanup_path (v : RecoveryRecord) (j : storageLocationJournal) : path :=
  (source_root j ++ [(".tsh-cleanup-" ++ operation_name v)%string])%list.

(** The content of an [.owner] file. *)
Definition owner_token (v : RecoveryRecord) (j : storageLocationJournal) : list byte :=
  String.list_byte_of_string (m_StorageID (j_Source j) ++ ":" ++ rc_record_id (v_row v) ++ ":" ++ pretty (rc_version (v_row v)))%string
  ++ [Byte.x0a].

(** ** Validation of a stored journal *)

(** [validPath] and [component] of a path that is a list of elements. *)
Definition validComponent (p : string) : bool := bool_decide (plain p) && negb (contains_char backslash p).
Definition validPath (p : path) : bool := negb (bool_decide (p = [])) && forallb validComponent p.

(** The metadata path of a path of the source tree. *)
Definition metadata_path (prefix : string) (p : path) : string := path_join prefix (text p).

Definition valid_tree_entry (e : storageTreeEntry) : bool :=
  validPath (te_Path e) && negb (fp_Identity (te_Evidence e) =? 0) && (0 <=? fp_Size (te_Evidence e))
  && (te_Directory e || (hex_ok (fp_Digest (te_Evidence e)) && (String.length (fp_Digest (te_Evidence e)) =? 64)%nat)).

(** The loop over the source tree: the map of its entries. *)
Fixpoint tree_map (entries : list storageTreeEntry) (tree : gmap path storageTreeEntry) (bytes : Z)
    : option (gmap path storageTreeEntry) :=
  match entries with
  | [] => Some tree
  | e :: entries =>
      let bytes := bytes + Z.of_nat (String.length (text (te_Path e))) in
      if negb (valid_tree_entry e) || (bytes >? maxManifestPathBytes) || bool_decide (is_Some (tree !! te_Path e)) then None
      else tree_map entries (<[te_Path e := e]> tree) bytes
  end.

Fixpoint valid_entries (j : storageLocationJournal) (tree : gmap path storageTreeEntry) (seen : gset path)
    (entries : list storageMoveEntry) : bool :=
  match entries with
  | [] => true
  | e :: entries =>
      match tree !! me_Source e, Layout_Relative (j_Target j) (metadata_path (st_prefix (m_row (j_Source j))) (me_Source e)) with
      | Some source, Ok expected =>
          negb (te_Directory source) && bool_decide (te_Evidence source = me_Evidence e) && negb (bool_decide (me_Source e ∈ seen))
          && validPath (me_Target e) && (expected =? text (me_Target e))%string
          && valid_entries j tree ({[me_Source e]} ∪ seen) entries
      | _, _ => false
      end
  end.

(** ** The surroundings of one operation *)

Class MoveEnv := {
  (** The torrent whose payload is moved. *)
  hash : string;
  (** [strings.ToLower] after Unicode normalisation, as in [CollisionKey]. *)
  fold : string -> string;
  (** The device a directory is on. *)
  device : path -> Z;
  isVolumeMarker : path -> bool;
  GetFreeSpace : path -> Z;
  (** [err.Error]. *)
  error_text : MoveError -> string;
  (** [encoding/json] on the journal. *)
  json_marshal : storageLocationJournal -> string;
  json_unmarshal : string -> option storageLocationJournal;
}.

Section Moves.
Context `{MoveEnv}.

Definition legacy_stage (v : RecoveryRecord) (j : storageLocationJournal) : path :=
  [".tsh-recovery"%string; "moves"%string; m_StorageID (j_Source j); operation_name v].
Definition target_stage (v : RecoveryRecord) (j : storageLocationJournal) : path :=
  (parent (target_root j) ++ legacy_stage v j)%list.

Definition valid_geometry (v : RecoveryRecord) (j : storageLocationJournal) : bool :=
  (j_Schema j =? 1) && Ready (j_Source j) && (m_Hash (j_Source j) =? v_Hash v)%string && is_ok (Layout_Validate (j_Target j))
  && validComponent (rc_record_id (v_row v)) && validComponent (m_StorageID (j_Source j))
  && (1 <=? rc_version (v_row v)) && (1 <=? m_Revision (j_Source j))
  && (bool_decide (j_Staging j = legacy_stage v j) || bool_decide (j_Staging j = target_stage v j))
  && (bool_decide (j_CleanupPath j = []) || bool_decide (j_CleanupPath j = cleanup_path v j))
  && negb (collides fold (st_root (m_row (j_Source j))) (l_Root (j_Target j)))
  && (Z.of_nat (length (tr_Entries (j_SourceTree j))) <=? maxStorageManifestEntries)
  && (Z.of_nat (length (j_Entries j)) <=? maxStorageManifestEntries)
  && (Z.of_nat (length (j_Directories j)) <=? maxStorageManifestEntries) && (0 <=? j_ExtraBytes j)
  && ((j_Method j =? "")%string || (j_Method j =? "rename")%string || (j_Method j =? "copy")%string
      || ((rc_reason (v_row v) =? "storage_locate")%string && (j_Method j =? "locate")%string)).

Definition validateLocationJournal (v : RecoveryRecord) (j : storageLocationJournal) : bool :=
  valid_geometry v j
  && match tree_map (tr_Entries (j_SourceTree j)) ∅ 0 with
     | None => false
     | Some tree => valid_entries j tree ∅ (j_Entries j)
     end
  && forallb validPath (j_Directories j).

Definition decodeLocationJournal (v : RecoveryRecord) : option storageLocationJournal :=
  match json_unmarshal (rc_journal (v_row v)) with
  | None => None
  | Some j => if validateLocationJournal v j then Some j else None
  end.

(** ** The world *)

(** The commands of a user that may meet a running worker: those of [StorageCommand]
    on a move, and the request to cancel a deletion. *)
Inductive command :=
| PlanMove (recordID : string) (version : Z) (target : Layout)
| ApplyMove
| RetryStorage
| CancelStorage
| DeletionCancel.

(** What happens at a call: nothing, an error before or after its effect, or a
    command just before it. *)
Inductive fault := Fine | Before | After | Meanwhile (c : command).

Record world := mkWorld { w_disk : disk; w_db : db; w_faults : list fault }.
#[global] Instance world_eta : Eta world := fun w => mkWorld (w_disk w) (w_db w) (w_faults w).

Definition io (A : Type) : Type := world -> result MoveError A * world.

Definition ret {A} (a : A) : io A := fun w => (Ok a, w).
Definition fail {A} (e : MoveError) : io A := fun w => (Err e, w).
Definition bind {A B} (m : io A) (k : A -> io B) : io B := fun w =>
  match m w with
  | (Ok a, w) => k a w
  | (Err e, w) => (Err e, w)
  end.
(** The result of a call as a value, for the callers that look at its error. *)
Definition attempt {A} (m : io A) : io (result MoveError A) := fun w => let '(r, w) := m w in (Ok r, w).
Definition lift {A} (r : result MoveError A) : io A := fun w => (r, w).

#[local] Notation "'let!' x ':=' c 'in' k" := (bind c (fun x => k)) (at level 10, x pattern, c at level 100, k at level 200).
#[local] Notation "c ';!' k" := (bind c (fun _ => k)) (at level 199, right associativity).

(** The summary columns of a record. *)
Definition locationSummary (j : storageLocationJournal) (l : location_row) : location_row :=
  mkLocationRow (st_root (m_row (j_Source j))) (l_Root (j_Target j)) (j_Method j) (j_ExtraBytes j)
    (lo_alternatives l) (lo_alternative_bytes l) (lo_analysis l) (j_FreeBytes j).

Definition at_new_stage (v : RecoveryRecord) (j : storageLocationJournal) (stage : string) : RecoveryRecord :=
  mkRecoveryRecord (v_Hash v) ((v_row v) <| rc_stage := stage |> <| rc_journal := json_marshal j |> <| rc_location ::= locationSummary j |>).

Definition cancellable (stage : string) : bool :=
  negb (bool_decide (stage ∈ ["publishing"; "published"; "committed"; "cleanup"; "completed"; "cancelled"]%string)).

Definition no_error (v : RecoveryRecord) : RecoveryRecord :=
  mkRecoveryRecord (v_Hash v) ((v_row v) <| rc_error := ""%string |> <| rc_failure_code := ""%string |>).

(** The commands that act on a planned or running move of [hash]: [apply_move],
    [retry_storage] and [cancel_storage] of [StorageCommand], once its fences
    hold. *)
Definition with_operation (d : db) (f : StorageMapping -> RecoveryRecord -> storageLocationJournal -> db) : db :=
  match Recovery d hash, find_mapping d hash with
  | Some v, Some m =>
      if negb (rc_reason (v_row v) =? "storage_move")%string then d
      else match decodeLocationJournal v with None => d | Some j => f m v j end
  | _, _ => d
  end.

Definition transition (d : db) (m : StorageMapping) (v : RecoveryRecord) (j : storageLocationJournal) (stage : string) : db :=
  snd (TransitionStorageOperation d m (at_new_stage v j stage) (v_Stage v)).

Definition apply_move (d : db) : db :=
  with_operation d (fun m v j =>
    if (v_Stage v =? "planned")%string && (rc_error (v_row v) =? "")%string then transition d m v j "queued" else d).

Definition retry_storage (d : db) : db :=
  with_operation d (fun m v j =>
    if (v_Stage v =? "completed")%string || (v_Stage v =? "cancelled")%string then d else transition d m (no_error v) j (v_Stage v)).

Definition cancel_storage (d : db) : db :=
  with_operation d (fun m v j => if cancellable (v_Stage v) then transition d m (no_error v) j "cancel_requested" else d).

(** The journal a planned move starts with, and the paths it claims. *)
Definition plan_journal (m : StorageMapping) (target : Layout) (v : RecoveryRecord) : storageLocationJournal :=
  let j := mkJournal None [] 0 false [] 1 m target [] 0 no_tree [] "" 0 false in
  mkJournal None [] 0 false [] 1 m target (target_stage v j) 0 no_tree [] "" 0 false.

Definition plan_claims (m : StorageMapping) (v : RecoveryRecord) (j : storageLocationJournal) : list StorageClaim :=
  let claim kind p := mkStorageClaim (m_StorageID m) (rc_record_id (v_row v)) (rc_version (v_row v)) p kind in
  [claim "source"%string (st_root (m_row m)); claim "target"%string (l_Root (j_Target j)); claim "staging"%string (text (j_Staging j));
   claim "staging"%string (text (with_suffix (j_Staging j) ".owner"))].

Definition settled_stage (stage : string) : bool :=
  bool_decide (stage ∈ ["planned"; "planning"; "analyzed"; "analyzing_location"; "completed"; "cancelled"]%string).

(** The version a new operation succeeds: the operation before it is one that may be replaced. *)
Definition replaced_version (old : option RecoveryRecord) (recordID : string) (version : Z) : option Z :=
  match old with
  | None => if version =? 0 then Some 0 else None
  | Some old =>
      let r := v_row old in
      if negb (rc_record_id r =? recordID)%string then None
      else if negb (bool_decide (rc_reason r ∈ ["storage_move"; "storage_locate"; "recovery_complete"]%string)) then None
      else if negb (settled_stage (rc_stage r)) && negb (rc_reason r =? "recovery_complete")%string then None
      else if negb (version =? rc_version r) then None
      else Some (rc_version r)
  end.

Definition already_planned (old : RecoveryRecord) (m : StorageMapping) (target : Layout) (version : Z) : bool :=
  bool_decide (v_Stage old ∈ ["planning"; "planned"; "analyzing_location"; "analyzed"]%string)
  && match decodeLocationJournal old with
     | None => false
     | Some j => bool_decide (j_Target j = target) && (m_Revision (j_Source j) =? m_Revision m)
                 && ((version =? rc_version (v_row old)) || (version =? i64 (rc_version (v_row old) - 1)))
     end.

(** [plan_move] of [StorageCommand], once its fences hold, for the layout [target] of the metadata. *)
Definition plan_move (recordID : string) (version : Z) (target : Layout) (d : db) : db :=
  match find_mapping d hash with
  | None => d
  | Some m =>
      let old := Recovery d hash in
      if negb (Ready m) || collides fold (st_root (m_row m)) (l_Root target) then d
      else if match old with Some old => already_planned old m target version | None => false end then d
      else match replaced_version old recordID version with
           | None => d
           | Some previous =>
               let r := mkRecoveryRow recordID (i64 (previous + 1)) "storage_move" "" "planning" "" "" "" "" no_location in
               let j := plan_journal m target (mkRecoveryRecord hash r) in
               let v := at_new_stage (mkRecoveryRecord hash r) j "planning" in
               snd (CreateStorageOperation fold d m v previous (plan_claims m v j))
           end
  end.

(** A command on the record of the move: it takes effect between two calls of the
    worker, which does not hold the lock of the record.  A deletion is not under
    way, so that the request to cancel it is refused. *)
Definition storage_command (c : command) : db -> db :=
  match c with
  | PlanMove recordID version target => plan_move recordID version target
  | ApplyMove => apply_move
  | RetryStorage => retry_storage
  | CancelStorage => cancel_storage
  | DeletionCancel => fun d => d
  end.

(** One call that leaves the process, of the move of [hash]. *)
Definition primitive {A} (op : world -> result MoveError (A * world)) : io A := fun w =>
  let run w := match op w with Ok (a, w) => (Ok a, w) | Err e => (Err e, w) end in
  match w_faults w with
  | [] => run w
  | f :: faults =>
      let w := w <| w_faults := faults |> in
      match f with
      | Fine => run w
      | Before => (Err ErrFault, w)
      | After => match op w with Ok (_, w) => (Err ErrFault, w) | Err e => (Err e, w) end
      | Meanwhile c => run (w <| w_db ::= storage_command c |>)
      end
  end.

Definition look {A} (f : disk -> result MoveError A) : io A :=
  primitive (fun w => let? a := f (w_disk w) in Ok (a, w)).
Definition change {A} (f : disk -> result MoveError (A * disk)) : io A :=
  primitive (fun w => let? '(a, d) := f (w_disk w) in Ok (a, w <| w_disk := d |>)).
Definition query {A} (f : db -> result MoveError A) : io A :=
  primitive (fun w => let? a := f (w_db w) in Ok (a, w)).
Definition commit {A} (f : db -> result RepoError A * db) : io A :=
  primitive (fun w => match f (w_db w) with (Ok a, d) => Ok (a, w <| w_db := d |>) | (Err e, _) => Err (ErrRepo e) end).

(** A call whose effect is outside this model: a synchronisation, [ctx.Err], the
    checks of volumes, ownership and free space, the engine, a test boundary. *)
Definition external : io unit := primitive (fun w => Ok (tt, w)).

(** ** Steps of the journal *)

Definition locationTransition (m : StorageMapping) (v : RecoveryRecord) (j : storageLocationJournal) (stage : string)
    : io RecoveryRecord :=
  let next := at_new_stage v j stage in
  let! _ := commit (fun d => TransitionStorageOperation d m next (v_Stage v)) in
  external ;! ret next.

Definition checkLocationVolumes (j : storageLocationJournal) : io unit := external ;! external ;! external.

(** ** Directories *)

(** The directories are made outermost first; the argument is the reversed path. *)
Fixpoint make_directories (reversed : list string) : io unit :=
  match reversed with
  | [] => ret tt
  | _ :: up =>
      let p := rev reversed in
      if negb (is_ok (ValidateRelative (text p))) then fail ErrUnsafeFile
      else
        make_directories up ;!
        let! created := attempt (change (Mkdir p)) in
        match created with
        | Ok _ | Err ErrExist =>
            let! _ := look (fun d => directoryIdentity d p) in
            if is_ok created then external else ret tt
        | Err e => fail e
        end
  end.

Definition makeLocationDirectories (p : path) : io unit := make_directories (rev p).

(** A staging or quarantine directory and the [.owner] file next to it: its
    identity.  [known] is the identity the journal has for it. *)
Definition ensureLocationStaging (v : RecoveryRecord) (j : storageLocationJournal) (staging : path) (known : Z) : io Z :=
  if negb (known =? 0) then
    let! id := look (fun d => directoryIdentity d staging) in
    if negb (id =? known) then fail ErrRecoveryCandidateChanged else ret known
  else
    makeLocationDirectories staging ;!
    let! _ := look (fun d => directoryIdentity d staging) in
    let! entries := look (fun d => Ok (names d staging)) in
    if negb (bool_decide (entries = [])) then fail ErrRecoveryCandidateChanged
    else
      let marker := with_suffix staging ".owner" in
      let token := owner_token v j in
      let! created := attempt (change (create_file marker)) in
      let! _ :=
        match created with
        | Ok _ => ret tt
        | Err ErrExist =>
            let! (_, data, _) := look (fun d => open_file d marker) in
            if negb (bool_decide (take 1024 data `prefix_of` token)) then fail ErrRecoveryCandidateChanged
            else
              let! _ := look (fun d => directoryIdentity d staging) in
              let! entries := look (fun d => Ok (names d staging)) in
              if negb (bool_decide (entries = [])) then fail ErrRecoveryCandidateChanged else ret tt
        | Err e => fail e
        end in
      let! _ := change (update_file marker (overwrite 0 token)) in
      external ;! external ;!
      look (fun d => directoryIdentity d staging).

(** ** Copying *)

Fixpoint for_each {X S : Type} (f : X -> S -> io S) (xs : list X) (s : S) : io S :=
  match xs with
  | [] => ret s
  | x :: xs => let! s := f x s in for_each f xs s
  end.

(** Lists of at most [n] elements each. *)
Fixpoint chunked {X : Type} (fuel n : nat) (l : list X) : list (list X) :=
  match fuel, l with
  | O, _ | _, [] => []
  | S fuel, _ => take n l :: chunked fuel n (drop n l)
  end.

Definition copyBuffer : nat := Z.to_nat (Z.shiftl 128 10).

Definition same_copy (e : storageMoveEntry) (actual : recoveryFingerprint) : bool :=
  (fp_Identity actual =? me_CopyIdentity e) && (fp_Size actual =? fp_Size (me_Evidence e))
  && (fp_Digest actual =? fp_Digest (me_Evidence e))%string.

(** The loop that writes the copy: chunks of zeros are skipped over. *)
Definition write_chunk (to : path) (chunk : list byte) (offset : nat) : io nat :=
  external ;!
  (if forallb (fun b => bool_decide (b = Byte.x00)) chunk then external else change (update_file to (overwrite offset chunk))) ;!
  ret (offset + length chunk)%nat.

Definition copyLocationFile (source staging : path) (e : storageMoveEntry) : io unit :=
  let from := (source ++ me_Source e)%list in
  let to := (staging ++ me_Target e)%list in
  let evidence := me_Evidence e in
  let! actual := look (fun d => fingerprintRecovery d to) in
  if same_copy e actual then external
  else if negb (fp_Identity actual =? me_CopyIdentity e) then fail ErrRecoveryCandidateChanged
  else
    let! (id, data, modified) := look (fun d => open_file d from) in
    if negb (id =? fp_Identity evidence) || negb (Z.of_nat (length data) =? fp_Size evidence) || negb (modified =? fp_Modified evidence)
    then fail ErrRecoveryCandidateChanged
    else
      let! (id, old, _) := look (fun d => open_file d to) in
      if negb (id =? me_CopyIdentity e) then fail ErrRecoveryCandidateChanged
      else if fp_Size actual >? fp_Size evidence then fail ErrRecoveryCandidateChanged
      else
        external ;!
        if negb (bool_decide (old = take (length old) data)) then fail ErrRecoveryCandidateChanged
        else
          let! _ := change (update_file to (resize 0)) in
          let! total := for_each (write_chunk to) (chunked (length data) copyBuffer data) O in
          let! (_, after, modified') := look (fun d => open_file d from) in
          if negb (Z.of_nat total =? fp_Size evidence) || negb (Z.of_nat (length data) =? Z.of_nat (length after))
             || negb (modified =? modified') || negb (Sha256.hex_of (Sha256.sha256 data) =? fp_Digest evidence)%string
          then fail ErrRecoveryCandidateChanged
          else
            let! _ := change (update_file to (resize total)) in
            external ;!
            let! copied := look (fun d => fingerprintRecovery d to) in
            if negb (same_copy e copied) then fail ErrRecoveryCandidateChanged else external.

(** A copy is created empty, and its identity noted, before anything is written
    to it. *)
Definition create_copy (i : nat) (st : storageLocationJournal * bool) : io (storageLocationJournal * bool) :=
  let '(j, changed) := st in
  match j_Entries j !! i with
  | None => ret st
  | Some e =>
      if negb (me_CopyIdentity e =? 0) then ret st
      else
        let p := (j_Staging j ++ me_Target e)%list in
        external ;!
        makeLocationDirectories (parent p) ;!
        let! created := attempt (change (create_file p)) in
        let! id :=
          match created with
          | Ok id => ret id
          | Err ErrExist =>
              let! (id, data, _) := look (fun d => open_file d p) in
              if negb (bool_decide (data = [])) then fail ErrRecoveryCandidateChanged else ret id
          | Err e => fail e
          end in
        ret (j <| j_Entries ::= <[i := e <| me_CopyIdentity := id |>]> |>, true)
  end.

Definition copy_entry (i : nat) (j : storageLocationJournal) : io storageLocationJournal :=
  match j_Entries j !! i with
  | None => ret j
  | Some e => copyLocationFile (source_root j) (j_Staging j) e ;! external ;! ret j
  end.

Definition copy_batch (m : StorageMapping) (batch : list nat) (st : RecoveryRecord * storageLocationJournal)
    : io (RecoveryRecord * storageLocationJournal) :=
  let '(v, j) := st in
  checkLocationVolumes j ;!
  let! (j, changed) := for_each create_copy batch (j, false) in
  let! v := if changed then locationTransition m v j (v_Stage v) else ret v in
  let! j := for_each copy_entry batch j in
  ret (v, j).

(** The map [expected]: a later entry of the same target wins. *)
Definition expected_targets (entries : list storageMoveEntry) : gmap path storageMoveEntry :=
  fold_left (fun m e => <[me_Target e := e]> m) entries ∅.

Fixpoint match_targets (actual : list storageTreeEntry) (expected : gmap path storageMoveEntry) : bool :=
  match actual with
  | [] => bool_decide (expected = ∅)
  | e :: actual =>
      if te_Directory e then match_targets actual expected
      else match expected !! te_Path e with
           | None => false
           | Some want =>
               (me_CopyIdentity want =? fp_Identity (te_Evidence e)) && (fp_Size (me_Evidence want) =? fp_Size (te_Evidence e))
               && (fp_Digest (me_Evidence want) =? fp_Digest (te_Evidence e))%string
               && match_targets actual (delete (te_Path e) expected)
           end
  end.

Definition validateCopiedLocation (d : disk) (p : path) (j : storageLocationJournal) : result MoveError unit :=
  let? actual := snapshotStorageTree d p in
  if negb (tr_Identity actual =? j_StagingIdentity j) then Err ErrRecoveryCandidateChanged
  else if match_targets (tr_Entries actual) (expected_targets (j_Entries j)) then Ok tt
  else Err ErrRecoveryCandidateChanged.

Definition copyLocation (m : StorageMapping) (v : RecoveryRecord) (j : storageLocationJournal)
    : io (RecoveryRecord * storageLocationJournal) :=
  let! _ := look (fun d => validateStorageTree d (source_root j) (j_SourceTree j)) in
  external ;!   (* the space for what is not copied yet *)
  let! id := ensureLocationStaging v j (j_Staging j) (j_StagingIdentity j) in
  let j := j <| j_StagingIdentity := id |> in
  let! v := locationTransition m v j (v_Stage v) in
  let! _ := for_each (fun dir _ => makeLocationDirectories (j_Staging j ++ dir)) (j_Directories j) tt in
  let n := length (j_Entries j) in
  let! (v, j) := for_each (copy_batch m) (chunked n 64 (seq 0 n)) (v, j) in
  let! removed := attempt (change (Remove (with_suffix (j_Staging j) ".owner"))) in
  let! _ := match removed with Ok _ | Err ErrNotExist => ret tt | Err e => fail e end in
  let! _ := look (fun d => validateCopiedLocation d (j_Staging j) j) in
  external ;! ret (v, j).

(** ** Publishing *)

Definition is_rename (j : storageLocationJournal) : bool := (j_Method j =? "rename")%string.
Definition is_copy (j : storageLocationJournal) : bool := (j_Method j =? "copy")%string.

Definition validateLocationTarget (j : storageLocationJournal) : io unit :=
  if is_rename j then look (fun d => validateStorageTree d (target_root j) (j_SourceTree j))
  else
    let! id := look (fun d => directoryIdentity d (target_root j)) in
    if negb (id =? j_StagingIdentity j) then fail ErrRecoveryCandidateChanged
    else look (fun d => validateCopiedLocation d (target_root j) j).

(** The tree at the target already: the name the code finds was published before. *)
Definition already_published (v : RecoveryRecord) (j : storageLocationJournal) (from : path)
    : io (RecoveryRecord * storageLocationJournal) :=
  let! found := attempt (look (fun d => Lstat d from)) in
  match found with
  | Ok _ => fail ErrRecoveryCandidateChanged
  | Err ErrNotExist => validateLocationTarget j ;! external ;! external ;! ret (v, j)
  | Err e => fail e
  end.

(** The copies, made or checked once more, before they are published. *)
Definition complete_copies (m : StorageMapping) (v : RecoveryRecord) (j : storageLocationJournal)
    : io (RecoveryRecord * storageLocationJournal) :=
  if negb (j_CopiesComplete j) then
    let! (v, j) := copyLocation m v j in
    let j := j <| j_CopiesComplete := true |> in
    let! v := locationTransition m v j "publishing" in
    ret (v, j)
  else
    let! _ := look (fun d => validateCopiedLocation d (j_Staging j) j) in
    let! _ := look (fun d => validateStorageTree d (source_root j) (j_SourceTree j)) in
    ret (v, j).

Fixpoint publishLocation (fuel : nat) (m : StorageMapping) (v : RecoveryRecord) (j : storageLocationJournal)
    : io (RecoveryRecord * storageLocationJournal) :=
  match fuel with
  | O => fail OutOfFuel
  | S fuel =>
      let from := if is_copy j then j_Staging j else source_root j in
      let expected := if is_copy j then j_StagingIdentity j else tr_Identity (j_SourceTree j) in
      let! target := attempt (look (fun d => directoryIdentity d (target_root j))) in
      match target with
      | Ok id => if negb (id =? expected) then fail ErrExist else already_published v j from
      | Err ErrNotExist =>
          let! (v, j) := if is_copy j then complete_copies m v j else ret (v, j) in
          let expected := if is_copy j then j_StagingIdentity j else expected in
          let! _ := if is_rename j then look (fun d => validateStorageTree d from (j_SourceTree j)) else ret tt in
          let! id := look (fun d => directoryIdentity d from) in
          if negb (id =? expected) then fail ErrRecoveryCandidateChanged
          else
            makeLocationDirectories (parent (target_root j)) ;!
            let! moved := attempt (change (MoveRootDirectoryNoReplace device from (target_root j))) in
            match moved with
            | Ok _ => external ;! ret (v, j)
            | Err ErrCrossDevice =>
                if is_rename j then
                  let j := j <| j_Method := "copy"%string |> in
                  let! v := locationTransition m v j "publishing" in
                  publishLocation fuel m v j
                else fail ErrCrossDevice
            | Err e => fail e
            end
      | Err e => fail e
      end
  end.

(** ** Cleaning up *)

(** One entry of the source: quarantined, checked once more, and removed when the
    published copy of it is the one that was made. *)
Definition quarantine_entry (v : RecoveryRecord) (j : storageLocationJournal) (i : nat) (e : storageMoveEntry) : io bool :=
  let p := (source_root j ++ me_Source e)%list in
  let quarantine := (j_CleanupPath j ++ [pretty i])%list in
  let! held := attempt (look (fun d => Lstat d quarantine)) in
  match held with
  | Ok _ => ret true
  | Err ErrNotExist =>
      let! there := attempt (look (fun d => Lstat d p)) in
      match there with
      | Err ErrNotExist => ret false
      | Err e => fail e
      | Ok _ =>
          let! _ := look (fun d => matchesRecovery d p (me_Evidence e)) in
          let! _ := change (MoveRootNoReplace p quarantine) in
          external ;! ret true
      end
  | Err e => fail e
  end.

Definition remove_entry (m : StorageMapping) (i : nat) (st : RecoveryRecord * storageLocationJournal)
    : io (RecoveryRecord * storageLocationJournal) :=
  let '(v, j) := st in
  checkLocationVolumes j ;!
  match j_Entries j !! i with
  | None => ret st
  | Some e =>
      if me_Removed e then ret st
      else
        let removed := j <| j_Entries ::= <[i := e <| me_Removed := true |>]> |> in
        let! held := quarantine_entry v j i e in
        if negb held then ret (v, removed)
        else
          let quarantine := (j_CleanupPath j ++ [pretty i])%list in
          let! _ := look (fun d => matchesRecovery d quarantine (me_Evidence e)) in
          let! copy := look (fun d => fingerprintRecovery d (target_root j ++ me_Target e)) in
          if negb (same_copy e copy) then fail ErrRecoveryCandidateChanged
          else
            let! _ := change (Remove quarantine) in
            external ;! external ;!
            if (S i mod 64 =? 0)%nat then let! v := locationTransition m v removed "cleanup" in ret (v, removed)
            else ret (v, removed)
  end.

(** [root.Remove] of a directory that may be in use. *)
Definition remove_directory (p : path) (absent_ok : bool) : io bool :=
  let! removed := attempt (change (Remove p)) in
  match removed with
  | Ok _ => ret true
  | Err ErrNotEmpty => ret false
  | Err ErrNotExist => if absent_ok then ret false else fail ErrNotExist
  | Err e => fail e
  end.

Definition remove_marker (v : RecoveryRecord) (j : storageLocationJournal) : io unit :=
  let marker := with_suffix (j_CleanupPath j) ".owner" in
  let! file := attempt (look (fun d => open_file d marker)) in
  match file with
  | Ok (_, data, _) => if bool_decide (take 1024 data = owner_token v j) then change (Remove marker) else ret tt
  | Err ErrNotExist => ret tt
  | Err e => fail e
  end.

(** A directory of the source that the target has a place for. *)
Definition mapped_directory (j : storageLocationJournal) (e : storageTreeEntry) : bool :=
  let metadata := metadata_path (st_prefix (m_row (j_Source j))) (te_Path e) in
  is_ok (Layout_Relative (j_Target j) metadata) || (metadata =? l_Prefix (j_Target j))%string.

Definition remove_source_directory (j : storageLocationJournal) (e : storageTreeEntry) (_ : unit) : io unit :=
  if negb (te_Directory e) || negb (mapped_directory j e) then ret tt
  else
    let p := (source_root j ++ te_Path e)%list in
    let! actual := attempt (look (fun d => directoryIdentity d p)) in
    match actual with
    | Err ErrNotExist => ret tt
    | Err e => fail e
    | Ok id =>
        if negb (id =? fp_Identity (te_Evidence e)) then fail ErrRecoveryCandidateChanged
        else let! removed := remove_directory p false in if removed then external else ret tt
    end.

(** The quarantine: made when there is something left to remove. *)
Definition open_quarantine (m : StorageMapping) (v : RecoveryRecord) (j : storageLocationJournal)
    : io (RecoveryRecord * storageLocationJournal) :=
  if negb (forallb me_Removed (j_Entries j)) then
    let! id := ensureLocationStaging v j (j_CleanupPath j) (j_CleanupIdentity j) in
    if j_CleanupIdentity j =? 0 then
      let j := j <| j_CleanupIdentity := id |> in
      let! v := locationTransition m v j "cleanup" in ret (v, j)
    else ret (v, j)
  else
    let! id := attempt (look (fun d => directoryIdentity d (j_CleanupPath j))) in
    match id with
    | Ok id => if negb (id =? j_CleanupIdentity j) then fail ErrRecoveryCandidateChanged else ret (v, j)
    | Err ErrNotExist => ret (v, j)
    | Err e => fail e
    end.

Definition remove_source (m : StorageMapping) (v : RecoveryRecord) (j : storageLocationJournal)
    : io (RecoveryRecord * storageLocationJournal) :=
  let j := if bool_decide (j_CleanupPath j = []) then j <| j_CleanupPath := cleanup_path v j |> else j in
  let! (v, j) := open_quarantine m v j in
  let! (v, j) := for_each (remove_entry m) (seq 0 (length (j_Entries j))) (v, j) in
  let! v := locationTransition m v j "cleanup" in
  let! _ := remove_directory (j_CleanupPath j) true in
  external ;! external ;!
  remove_marker v j ;!
  let! _ := for_each (remove_source_directory j) (rev (tr_Entries (j_SourceTree j))) tt in
  let! _ := remove_directory (source_root j) false in
  external ;! ret (v, j).

Definition cleanupLocation (m : StorageMapping) (v : RecoveryRecord) (j : storageLocationJournal)
    : io (RecoveryRecord * storageLocationJournal) :=
  validateLocationTarget j ;!
  if is_rename j then ret (v, j)
  else
    let! source := attempt (look (fun d => directoryIdentity d (source_root j))) in
    match source with
    | Err ErrNotExist => ret (v, j)
    | Err e => fail e
    | Ok id => if negb (id =? tr_Identity (j_SourceTree j)) then fail ErrRecoveryCandidateChanged else remove_source m v j
    end.

(** ** Planning *)

Definition namedPathOccupied (d : disk) (p : path) : result MoveError bool :=
  match d_nodes d !! parent p with
  | None => Ok false
  | Some (Regular _ _ _) => Err ErrFault
  | Some (Directory _) =>
      let key := CollisionKey fold (List.last p "") in
      Ok (existsb (fun name => (CollisionKey fold name =? key)%string) (names d (parent p)))
  end.

(** The innermost existing directory of a reversed path. *)
Fixpoint existing_parent (reversed : list string) : io path :=
  let! found := attempt (look (fun d => Lstat d (rev reversed))) in
  match found, reversed with
  | Ok _, _ => ret (rev reversed)
  | Err ErrNotExist, _ :: up => existing_parent up
  | Err e, _ => fail e
  end.

(** One entry of the source tree in the plan. *)
Definition plan_entry (root : path) (prefix : string) (j : storageLocationJournal) (e : storageTreeEntry)
    : result MoveError storageLocationJournal :=
  if isVolumeMarker (root ++ te_Path e) then Ok (j <| j_RetainSource := true |> <| j_Method := "copy"%string |>)
  else
    let metadata := metadata_path prefix (te_Path e) in
    match Layout_Relative (j_Target j) metadata with
    | Err _ =>
        if te_Directory e && (metadata =? l_Prefix (j_Target j))%string then Ok j else Ok (j <| j_RetainSource := true |>)
    | Ok target =>
        let target := split_on slash target in
        if te_Directory e then Ok (j <| j_Directories ::= fun l => (l ++ [target])%list |>)
        else if fp_Size (te_Evidence e) >? max_i64 - j_ExtraBytes j then Err ErrSizeOverflow
        else Ok (j <| j_ExtraBytes ::= Z.add (fp_Size (te_Evidence e)) |>
                   <| j_Entries ::= fun l => (l ++ [mkMoveEntry (te_Path e) target (te_Evidence e) 0 false])%list |>)
    end.

Fixpoint plan_entries (root : path) (prefix : string) (j : storageLocationJournal) (entries : list storageTreeEntry)
    : result MoveError storageLocationJournal :=
  match entries with
  | [] => Ok j
  | e :: entries => let? j := plan_entry root prefix j e in plan_entries root prefix j entries
  end.

Definition planLocation (m : StorageMapping) (v : RecoveryRecord) (j : storageLocationJournal) : io unit :=
  let root := clean_parts (st_root (m_row m)) in
  let prefix := st_prefix (m_row m) in
  let! occupied := look (fun d => namedPathOccupied d (target_root j)) in
  if occupied then fail ErrExist
  else
    let! tree := look (fun d => snapshotStorageTree d root) in
    let! above := existing_parent (rev (parent (target_root j))) in
    external ;!
    let method := if (prefix =? l_Prefix (j_Target j))%string && negb (tr_Identity tree =? 0) then "rename"%string else "copy"%string in
    let j := j <| j_SourceTree := tree |> <| j_FreeBytes := Some (GetFreeSpace above) |> <| j_Entries := [] |>
               <| j_Directories := [] |> <| j_ExtraBytes := 0 |> <| j_RetainSource := false |> <| j_Method := method |> in
    let! j := lift (plan_entries root prefix j (tr_Entries tree)) in
    let! _ := locationTransition m v j "planned" in
    ret tt.

(** ** The workflow *)

(** The source's data and directories are flushed before they are renamed. *)
Definition flush_source (j : storageLocationJournal) : io unit :=
  let! _ := for_each (fun (_ : storageMoveEntry) _ => external) (j_Entries j) tt in
  let! _ := for_each (fun (e : storageTreeEntry) _ => if te_Directory e then external else ret tt) (tr_Entries (j_SourceTree j)) tt in
  external.

Definition prepare_move (m : StorageMapping) (v : RecoveryRecord) (j : storageLocationJournal)
    : io (RecoveryRecord * storageLocationJournal) :=
  let! _ := look (fun d => validateStorageTree d (source_root j) (j_SourceTree j)) in
  let! occupied := look (fun d => namedPathOccupied d (target_root j)) in
  if occupied then fail ErrExist
  else if is_rename j then
    flush_source j ;!
    let! v := locationTransition m v j "publishing" in ret (v, j)
  else
    let! v := locationTransition m v j "copying" in ret (v, j).

(** The mapping switches to the target. *)
Definition commit_move (v : RecoveryRecord) (j : storageLocationJournal) : io (StorageMapping * RecoveryRecord) :=
  validateLocationTarget j ;!
  let! _ := commit (fun d => CommitStorageOperation fold d (j_Source j) v (j_Target j) false) in
  let v := mkRecoveryRecord (v_Hash v) ((v_row v) <| rc_stage := "committed"%string |>) in
  external ;!
  let! m := query (fun d => match find_mapping d hash with Some m => Ok m | None => Err ErrStorageConflict end) in
  ret (m, v).

Definition finish_move (m : StorageMapping) (v : RecoveryRecord) (j : storageLocationJournal) : io unit :=
  let! (v, j) := cleanupLocation m v j in
  let! found := attempt (look (fun d => Lstat d (source_root j))) in
  let! retained :=
    match found with
    | Ok _ => ret [st_root (m_row (j_Source j))]
    | Err ErrNotExist => ret []
    | Err e => fail e
    end in
  let done := mkRecoveryRecord (v_Hash v) ((v_row v) <| rc_stage := "completed"%string |> <| rc_journal := json_marshal j |>) in
  let! _ := commit (fun d => FinishStorageOperation d m done "cleanup" retained) in
  external ;! external.

Fixpoint execute (fuel : nat) (m : StorageMapping) (v : RecoveryRecord) (j : storageLocationJournal) : io unit :=
  match fuel with
  | O => fail OutOfFuel
  | S fuel =>
      checkLocationVolumes j ;!
      external ;!
      let stage := v_Stage v in
      if (stage =? "planning")%string then planLocation m v j
      else if bool_decide (stage ∈ ["planned"; "completed"; "cancelled"; "cancel_requested"]%string) then ret tt
      else if (stage =? "queued")%string then
        let! v := locationTransition m v j "waiting_readers" in execute fuel m v j
      else if (stage =? "waiting_readers")%string then
        external ;! external ;!
        let! v := locationTransition m v j "prepared" in execute fuel m v j
      else if (stage =? "prepared")%string then
        let! (v, j) := prepare_move m v j in execute fuel m v j
      else if (stage =? "copying")%string then
        let! (v, j) := copyLocation m v j in
        let j := j <| j_CopiesComplete := true |> in
        let! v := locationTransition m v j "publishing" in execute fuel m v j
      else if (stage =? "publishing")%string then
        let! (v, j) := publishLocation 2 m v j in
        let! v := locationTransition m v j "published" in execute fuel m v j
      else if (stage =? "published")%string then
        let! (m, v) := commit_move v j in execute fuel m v j
      else if (stage =? "committed")%string then
        let! v := locationTransition m v j "cleanup" in execute fuel m v j
      else if (stage =? "cleanup")%string then finish_move m v j
      else fail ErrUnsupportedStage
  end.

(** The stages only go forward, and eight of them lead from [queued] to the end. *)
Definition executeLocation (m : StorageMapping) (v : RecoveryRecord) (j : storageLocationJournal) : io unit :=
  external ;! execute 9 m v j.

Definition locationMappingMatches (m : StorageMapping) (j : storageLocationJournal) (stage : string) : bool :=
  (m_StorageID m =? m_StorageID (j_Source j))%string
  && (if bool_decide (stage ∈ ["committed"; "cleanup"; "completed"]%string)
      then (m_Revision m =? m_Revision (j_Source j) + 1) && bool_decide (mapping_layout m = j_Target j)
      else (m_Revision m =? m_Revision (j_Source j)) && bool_decide (mapping_layout m = mapping_layout (j_Source j))).

(** What a cancelled operation may have left behind; without the directory open,
    its staging area. *)
Definition retained_paths (root : bool) (j : storageLocationJournal) : io (list string) :=
  if root then
    let! staged := attempt (look (fun d => Lstat d (j_Staging j))) in
    let! owner := attempt (look (fun d => Lstat d (with_suffix (j_Staging j) ".owner"))) in
    ret ((match staged with Err ErrNotExist => [] | _ => [text (j_Staging j)] end)
         ++ (if is_ok owner then [text (with_suffix (j_Staging j) ".owner")] else []))%list
  else ret [text (j_Staging j)].

(** A cancelled operation keeps its staged data under a claim. *)
Definition finishLocationCancel (root : bool) (m : StorageMapping) (v : RecoveryRecord) (j : storageLocationJournal) : io unit :=
  let! retained := retained_paths root j in
  let v := mkRecoveryRecord (v_Hash v) ((v_row v) <| rc_stage := "cancelled"%string |>) in
  let! _ := commit (fun d => FinishStorageOperation d m v "cancel_requested" retained) in
  external.

Definition failure_code (cause : MoveError) : string :=
  match cause with
  | ErrRecoveryCandidateChanged => "candidate_changed"
  | ErrExist => "target_exists"
  | ErrUnsafeFile => "unsafe_candidate"
  | ErrStorageConflict | ErrRepo ErrStateConflict => "state_conflict"
  | _ => "io_error"
  end.

(** The error becomes part of the record; the stage stays. *)
Definition locationFailure (m : StorageMapping) (v : RecoveryRecord) (cause : MoveError) : io unit :=
  let! current := query (fun d => match find_mapping d hash with Some m => Ok m | None => Err ErrStorageConflict end) in
  if negb (m_StorageID current =? m_StorageID m)%string then ret tt
  else
    let v := mkRecoveryRecord (v_Hash v) ((v_row v) <| rc_error := error_text cause |> <| rc_failure_code := failure_code cause |>) in
    commit (fun d => TransitionStorageOperation d current v (v_Stage v)) ;! external.

(** After the work: a requested cancellation is finished, a failure noted. *)
Definition settle (root : bool) (m : StorageMapping) (v : RecoveryRecord) (j : storageLocationJournal) (outcome : result MoveError unit) : io unit :=
  let! current := query (fun d => match Recovery d hash with Some v => Ok v | None => Err ErrStorageConflict end) in
  let same := (rc_record_id (v_row current) =? rc_record_id (v_row v))%string && (rc_version (v_row current) =? rc_version (v_row v))
              && (rc_reason (v_row current) =? rc_reason (v_row v))%string in
  if negb same then ret tt
  else if (v_Stage current =? "cancel_requested")%string then finishLocationCancel root m current j
  else match outcome with Ok _ => ret tt | Err cause => locationFailure m current cause end.

Definition processLocation : io unit :=
  external ;!
  let! v := query (fun d => match Recovery d hash with Some v => Ok v | None => Err ErrStorageConflict end) in
  if negb (rc_reason (v_row v) =? "storage_move")%string || negb (rc_error (v_row v) =? "")%string then ret tt
  else
    let! m := query (fun d => match find_mapping d hash with Some m => Ok m | None => Err ErrStorageConflict end) in
    external ;!
    match decodeLocationJournal v with
    | None => locationFailure m v ErrStorageConflict
    | Some j =>
        if negb (locationMappingMatches m j (v_Stage v)) then locationFailure m v ErrStorageConflict
        else
          let! revoked := attempt external in
          match revoked with
          | Err cause => locationFailure m v cause
          | Ok _ =>
              let! opened := attempt external in
              let! outcome :=
                match opened with
                | Err cause => ret (Err cause)
                | Ok _ => attempt (checkLocationVolumes j ;! executeLocation m v j)
                end in
              settle (is_ok opened) m v j outcome
          end
    end.

End Moves.
