(* ===== verification/MoveDemo.v ===== *)
(** * A move, run

    A codec for the journals and a library with one torrent, for the witnesses. *)

From stdpp Require Import base gmap list strings countable.
From Stdlib Require Import ZArith Ascii Strings.Byte Lia.
From S2P Require Import Prelude Models Paths Layout FastResume Tables IntentStore StorageStore RootedFiles StorageMove.

#[local] Open Scope Z_scope.

(** ** A codec of journals *)

#[local] Instance storage_row_eq : EqDecision storage_row.
Proof. solve_decision. Defined.
#[local] Instance storage_row_countable : Countable storage_row.
Proof.
  apply (inj_countable' (fun r => (st_version r, st_root r, st_state r, st_manifest r, st_error r, st_storage_id r, st_revision r, st_prefix r, st_name_hint r))
    (fun '(a, b, c, d, e, f, g, h, i) => mkStorageRow a b c d e f g h i)). by intros [].
Defined.
#[local] Instance mapping_eq : EqDecision StorageMapping.
Proof. solve_decision. Defined.
#[local] Instance mapping_countable : Countable StorageMapping.
Proof. apply (inj_countable' (fun m => (m_Hash m, m_row m)) (fun '(a, b) => mkStorageMapping a b)). by intros []. Defined.
#[local] Instance layout_eq : EqDecision Layout.
Proof. solve_decision. Defined.
#[local] Instance layout_countable : Countable Layout.
Proof. apply (inj_countable' (fun l => (l_Version l, l_Root l, l_Prefix l)) (fun '(a, b, c) => mkLayout a b c)). by intros []. Defined.
#[local] Instance fingerprint_countable : Countable recoveryFingerprint.
Proof. apply (inj_countable' (fun f => (fp_Identity f, fp_Size f, fp_Modified f, fp_Digest f)) (fun '(a, b, c, d) => mkFingerprint a b c d)). by intros []. Defined.
#[local] Instance tree_entry_countable : Countable storageTreeEntry.
Proof. apply (inj_countable' (fun e => (te_Path e, te_Directory e, te_Evidence e)) (fun '(a, b, c) => mkTreeEntry a b c)). by intros []. Defined.
#[local] Instance tree_countable : Countable storageTree.
Proof. apply (inj_countable' (fun t => (tr_Identity t, tr_Entries t)) (fun '(a, b) => mkTree a b)). by intros []. Defined.
#[local] Instance move_entry_eq : EqDecision storageMoveEntry.
Proof. solve_decision. Defined.
#[local] Instance move_entry_countable : Countable storageMoveEntry.
Proof.
  apply (inj_countable' (fun e => (me_Source e, me_Target e, me_Evidence e, me_CopyIdentity e, me_Removed e)) (fun '(a, b, c, d, e) => mkMoveEntry a b c d e)).
  by intros [].
Defined.
#[local] Instance journal_eq : EqDecision storageLocationJournal.
Proof. solve_decision. Defined.
#[local] Instance journal_countable : Countable storageLocationJournal.
Proof.
  apply (inj_countable'
    (fun j => ((j_FreeBytes j, j_CleanupPath j, j_CleanupIdentity j, j_CopiesComplete j, j_Directories j, j_Schema j, j_Source j),
               (j_Target j, j_Staging j, j_StagingIdentity j, j_SourceTree j, j_Entries j, j_Method j, j_ExtraBytes j, j_RetainSource j)))
    (fun '((a, b, c, d, e, f, g), (h, i, k, l, m, n, o, p)) => mkJournal a b c d e f g h i k l m n o p)). by intros [].
Defined.

Fixpoint bits_text (p : positive) : string :=
  match p with
  | xH => ""%string
  | xO p => String "0"%char (bits_text p)
  | xI p => String "1"%char (bits_text p)
  end.

Fixpoint text_bits (s : string) : positive :=
  match s with
  | EmptyString => xH
  | String c s => if Ascii.eqb c "0"%char then xO (text_bits s) else xI (text_bits s)
  end.

Lemma text_bits_text p : text_bits (bits_text p) = p.
Proof. induction p as [p IH|p IH|]; cbn; by rewrite ?IH. Qed.

Definition demo_marshal (j : storageLocationJournal) : string := bits_text (encode j).
Definition demo_unmarshal (s : string) : option storageLocationJournal := decode (text_bits s).

Lemma demo_codec j : demo_unmarshal (demo_marshal j) = Some j.
Proof. unfold demo_unmarshal, demo_marshal. by rewrite text_bits_text, decode_encode. Qed.

(** ** A library *)

Definition movie_hash : string := "0123456789abcdef0123456789abcdef01234567".

Definition movie_row : storage_row := mkStorageRow 1 ("payload/" ++ movie_hash) "ready" "" "" "storage" 1 "" "".
Definition movie_target : Layout := mkLayout 2 "Movie" "".

Definition movie_db : db :=
  empty_db <| torrents := {[ movie_hash := mkTorrentRow "Movie" "" "" "" "" 2 0 StatePaused "" "" false None false "" "" "" 0 0 0 true "" "" ]} |>
    <| torrent_intents := {[ movie_hash := mkIntentRow "record" RunPaused 1 "" 0 0 StatePaused "" ]} |>
    <| torrent_storage := {[ movie_hash := movie_row ]} |>.

Definition movie_disk : disk :=
  mkDisk (list_to_map
    [([], Directory 1); (["notes.txt"], Regular 8 [x03] 9); (["payload"], Directory 2); (["payload"; movie_hash], Directory 3); (["payload"; movie_hash; "subs"], Directory 4);
     (["payload"; movie_hash; "film.mkv"], Regular 5 [x01; x02] 10); (["payload"; movie_hash; "subs"; "en.srt"], Regular 6 [x00; x00] 11)]%string) 9 12.

(** [payload] and the new root are on one device, or on two. *)
Definition one_device (p : path) : Z := 1.
Definition two_devices (p : path) : Z := if below ["payload"%string] p then 2 else 1.

#[local] Instance movie_env (mounts : path -> Z) : MoveEnv := {|
  hash := movie_hash; fold := fun s => s; device := mounts; isVolumeMarker := fun _ => false; GetFreeSpace := fun _ => 0;
  error_text := fun _ => "failed"%string; json_marshal := demo_marshal; json_unmarshal := demo_unmarshal;
|}.

Definition process (mounts : path -> Z) (w : world) : world := snd (@processLocation (movie_env mounts) (w <| w_faults := [] |>)).

Definition movie_world : world := mkWorld movie_disk movie_db [].

(** The move planned, examined by the worker and accepted. *)
Definition accepted (mounts : path -> Z) : world :=
  let w := movie_world <| w_db := @plan_move (movie_env mounts) "record" 0 movie_target (w_db movie_world) |> in
  (process mounts w) <| w_db ::= @apply_move (movie_env mounts) |>.

Definition moved (mounts : path -> Z) : world := process mounts (accepted mounts).
