(* ===== verification/MoveLogic.v ===== *)
(** * Reasoning about moves

    Triples over the worlds of [StorageMove], and what a record, its journal and
    the mapping say about the running operation. *)

From stdpp Require Import base gmap list strings.
From Stdlib Require Import ZArith Strings.Byte Lia.
From S2P Require Import Prelude Models Paths Layout FastResume Tables IntentStore StorageStore Library LibraryFrame ResumeFences ResumeBarriers.
From S2P Require Import RootedFiles RootedFrame StorageMove.

#[local] Open Scope Z_scope.

(** ** Triples *)

(** From [P], an answer ends in [Q] and an error in [E]; the error is never a lack of fuel. *)
Definition triple {A} (P : world -> Prop) (m : io A) (Q : A -> world -> Prop) (E : world -> Prop) : Prop :=
  forall w, P w -> match m w with (Ok a, w') => Q a w' | (Err e, w') => E w' /\ e <> OutOfFuel end.

Lemma t_ret {A} (P : world -> Prop) (a : A) (Q : A -> world -> Prop) E : (forall w, P w -> Q a w) -> triple P (ret a) Q E.
Proof. intros H w HP. by apply H. Qed.

Lemma t_fail {A} (P : world -> Prop) e (Q : A -> world -> Prop) (E : world -> Prop) : e <> OutOfFuel -> (forall w, P w -> E w) -> triple P (fail e) Q E.
Proof. intros He H w HP. split; [by apply H|done]. Qed.

Lemma t_lift {A} (P : world -> Prop) r (Q : A -> world -> Prop) (E : world -> Prop) :
  answers r -> (forall a w, r = Ok a -> P w -> Q a w) -> (forall w, P w -> E w) -> triple P (lift r) Q E.
Proof. intros Hr HQ HE w HP. unfold lift. destruct r as [a|e]; [by apply HQ|]. split; [by apply HE|]. intros ->. by apply Hr. Qed.

Lemma t_bind {A B} P (m : io A) (k : A -> io B) R Q E : triple P m R E -> (forall a, triple (R a) (k a) Q E) -> triple P (bind m k) Q E.
Proof. intros Hm Hk w HP. unfold bind. specialize (Hm w HP). destruct (m w) as [[a|e] w']; [|done]. by apply Hk. Qed.

Lemma t_conseq {A} (P P' : world -> Prop) (m : io A) (Q Q' : A -> world -> Prop) (E E' : world -> Prop) :
  triple P' m Q' E' -> (forall w, P w -> P' w) -> (forall a w, Q' a w -> Q a w) -> (forall w, E' w -> E w) -> triple P m Q E.
Proof. intros H HP HQ HE w Hw. specialize (H w (HP w Hw)). destruct (m w) as [[a|e] w']; [by apply HQ|]. destruct H. auto. Qed.

Lemma t_attempt {A} P (m : io A) Q E E' : triple P m Q E ->
  triple P (attempt m) (fun r w => match r with Ok a => Q a w | Err e => E w /\ e <> OutOfFuel end) E'.
Proof. intros H w HP. unfold attempt. specialize (H w HP). destruct (m w) as [[a|e] w']; done. Qed.

Lemma t_pre {A} (P : world -> Prop) (m : io A) Q E : (forall w, P w -> triple P m Q E) -> triple P m Q E.
Proof. intros H w HP. exact (H w HP w HP). Qed.

Lemma t_or {A} (P1 P2 : world -> Prop) (m : io A) Q E : triple P1 m Q E -> triple P2 m Q E -> triple (fun w => P1 w \/ P2 w) m Q E.
Proof. intros H1 H2 w [HP|HP]; [by apply H1|by apply H2]. Qed.

(** The stages after the mapping has switched. *)
Definition late (stage : string) : bool := bool_decide (stage ∈ ["committed"; "cleanup"; "completed"]%string).

Lemma cancellable_early st : cancellable st = true -> late st = false.
Proof.
  unfold cancellable, late. rewrite negb_true_iff, !bool_decide_eq_false. intros Hn Hl. apply Hn. set_solver.
Qed.

(** The version of the operation a run of the worker works for. *)
Class Version := version : Z.

Section Logic.
Context `{MoveEnv} {V : Version}.
(** What [json.Marshal] writes, [json.Unmarshal] reads. *)
Context (codec : forall j, json_unmarshal (json_marshal j) = Some j).

(** ** Plans *)

Definition planned (e : storageMoveEntry) : path * path * recoveryFingerprint := (me_Source e, me_Target e, me_Evidence e).

(** What stays of a journal once the move is planned. *)
Definition plan (j : storageLocationJournal) : StorageMapping * Layout * path * storageTree * list (path * path * recoveryFingerprint) :=
  (j_Source j, j_Target j, j_Staging j, j_SourceTree j, map planned (j_Entries j)).

Lemma plan_places j j' : plan j = plan j' -> j_Source j = j_Source j' /\ j_Target j = j_Target j' /\ j_Staging j = j_Staging j'
  /\ j_SourceTree j = j_SourceTree j' /\ map planned (j_Entries j) = map planned (j_Entries j').
Proof. unfold plan. intros [= -> -> -> -> ->]. done. Qed.

(** The layout the mapping has at a stage. *)
Definition layout_at (stage : string) (j : storageLocationJournal) : Layout :=
  if late stage then j_Target j else mapping_layout (j_Source j).

(** The record is at the stage [st] with the plan and the method of [j], or a command moved it from there: it was
    cancelled, or applied once planned. *)
Definition at_work (d : db) (st : string) (j : storageLocationJournal) : Prop := exists r j0 s,
  storage_recovery d !! hash = Some r /\ rc_reason r = "storage_move"%string /\ json_unmarshal (rc_journal r) = Some j0
  /\ plan j0 = plan j /\ j_Method j0 = j_Method j
  /\ torrent_storage d !! hash = Some s /\ mapping_layout (mkStorageMapping hash s) = layout_at st j
  /\ (rc_version r = version /\ in_i64 version)
  /\ (rc_stage r = st \/ rc_stage r = "cancel_requested"%string /\ cancellable st = true
      \/ rc_stage r = "queued"%string /\ st = "planned"%string).

(** The record is that of a newer plan, which has not been worked on. *)
Definition superseded (d : db) : Prop := exists r j s,
  storage_recovery d !! hash = Some r /\ rc_reason r = "storage_move"%string /\ json_unmarshal (rc_journal r) = Some j
  /\ torrent_storage d !! hash = Some s /\ mapping_layout (mkStorageMapping hash s) = mapping_layout (j_Source j)
  /\ (version < rc_version r /\ in_i64 (rc_version r))
  /\ (rc_stage r = "planning"%string \/ rc_stage r = "cancel_requested"%string).

Definition current (d : db) (st : string) (j : storageLocationJournal) : Prop :=
  at_work d st j \/ settled_stage st = true /\ superseded d.

(** ** The transactions *)

Lemma transition_effect d m v from d' : TransitionStorageOperation d m v from = (Ok tt, d') -> exists old,
  storage_recovery d !! v_Hash v = Some old /\ rc_stage old = from /\ rc_reason old = rc_reason (v_row v)
  /\ rc_version old = rc_version (v_row v)
  /\ storage_recovery d' !! v_Hash v = Some (old <| rc_stage := rc_stage (v_row v) |> <| rc_journal := rc_journal (v_row v) |> <| rc_error := rc_error (v_row v) |>
       <| rc_failure_code := rc_failure_code (v_row v) |> <| rc_location := rc_location (v_row v) |>)
  /\ torrent_storage d' = torrent_storage d.
Proof.
  unfold TransitionStorageOperation, atomically. destruct (checkStorageFence _ _ _); [|done].
  destruct (update_recovery _ _ _ d) as [[n d1]|] eqn:E; [|done]. destruct (negb (n =? 1)) eqn:En; [done|]. intros [= <-].
  pose proof (update_recovery_frame _ _ _ _ _ _ E Storage eq_refl) as Hst. cbn in Hst. revert E. unfold update_recovery.
  destruct (storage_recovery d !! v_Hash v) as [old|]; [|by intros [= <- <-]]. destruct (at_stage v from old) eqn:Ea; [|by intros [= <- <-]].
  destruct (resume_journal _ _ d) as [d2|]; [|done]. intros [= <- <-]. unfold at_stage in Ea. split_bools. exists old. split_and!; [done..|lia| |done].
  cbn. by rewrite lookup_insert_eq.
Qed.

Lemma finish_effect d m v from retained d' : FinishStorageOperation d m v from retained = (Ok tt, d') -> exists old,
  storage_recovery d !! v_Hash v = Some old /\ rc_stage old = from /\ rc_reason old = rc_reason (v_row v)
  /\ storage_recovery d' !! v_Hash v = Some (old <| rc_stage := rc_stage (v_row v) |> <| rc_journal := rc_journal (v_row v) |> <| rc_error := ""%string |>
       <| rc_failure_code := ""%string |>)
  /\ torrent_storage d' = torrent_storage d.
Proof.
  unfold FinishStorageOperation, atomically. destruct (checkStorageFence _ _ _); [|done].
  destruct (update_recovery _ _ _ d) as [[n d1]|] eqn:E; [|done]. destruct (negb (n =? 1)) eqn:En; [done|].
  destruct (retain_claims m (v_row v) retained _) as [d2|] eqn:Er; [|done]. intros [= <-].
  assert (storage_recovery d2 = storage_recovery d1 /\ torrent_storage d2 = torrent_storage d1) as [-> ->].
  { revert Er. generalize (storage_claims d1). intros claims.
    set (d1' := d1 <| storage_claims ::= _ |>). assert (storage_recovery d1' = storage_recovery d1 /\ torrent_storage d1' = torrent_storage d1) as [<- <-] by done.
    generalize d1'. clear. induction retained as [|p retained IH]; intros d1; cbn [retain_claims]; [by intros [= <-]|].
    destruct (negb _); [done|]. unfold insert_claim. branches; intros E; apply IH in E; done. }
  pose proof (update_recovery_frame _ _ _ _ _ _ E Storage eq_refl) as Hst. cbn in Hst. revert E. unfold update_recovery.
  destruct (storage_recovery d !! v_Hash v) as [old|]; [|by intros [= <- <-]]. destruct (at_stage v from old) eqn:Ea; [|by intros [= <- <-]].
  destruct (resume_journal _ _ d) as [d3|]; [|done]. intros [= <- <-]. unfold at_stage in Ea. split_bools. exists old. split_and!; [done..| |done].
  cbn. by rewrite lookup_insert_eq.
Qed.

Lemma write_storage_row k old new d d' : write_storage k old new d = Ok d' -> exists rev,
  torrent_storage d' = <[k := new <| st_revision := rev |>]> (torrent_storage d).
Proof.
  unfold write_storage. destruct (resume_mapping_change old new d) as [d1|] eqn:E1; [|done].
  pose proof (resume_mapping_change_frame _ _ _ _ E1 Storage eq_refl) as H1. cbn in H1.
  destruct (resume_mapping_workflow old new d1) as [d2|] eqn:E2; [|done].
  pose proof (resume_mapping_workflow_frame _ _ _ _ E2 Storage eq_refl) as H2. cbn in H2. unfold storage_mapping_revision.
  destruct (same_geometry old new).
  { intros [= <-]. exists (st_revision new). cbn. rewrite H2, H1. by destruct new. }
  destruct (max_i64 <=? st_revision old); [done|]. destruct (resume_mapping_change new _ _) as [d3|] eqn:E3; [|done].
  pose proof (resume_mapping_change_frame _ _ _ _ E3 Storage eq_refl) as H3. cbn in H3. intros [= <-]. exists (st_revision old + 1).
  cbn. rewrite H3, H2, H1. by rewrite insert_insert_eq.
Qed.

Definition row_layout (s : storage_row) : Layout := mkLayout (st_version s) (st_root s) (st_prefix s).

(** One row of [update_storage]. *)
Definition update_row (set : storage_row -> storage_row) (key : string) (d : db) : result RepoError db :=
  match torrent_storage d !! key with Some old => write_storage key old (set old) d | None => Ok d end.

Lemma update_row_layout set key d d' k l : update_row set key d = Ok d' -> (forall s, row_layout (set s) = l) ->
  (row_layout <$> torrent_storage d !! k = Some l \/ key = k /\ is_Some (torrent_storage d !! k)) ->
  row_layout <$> torrent_storage d' !! k = Some l.
Proof.
  unfold update_row. intros Hu Hset Hk. destruct (torrent_storage d !! key) as [old|] eqn:Eo.
  - apply write_storage_row in Hu as [rev ->]. destruct (decide (key = k)) as [->|Hne].
    + rewrite lookup_insert_eq. cbn. f_equal. exact (Hset old).
    + rewrite lookup_insert_ne by done. by destruct Hk as [Hk|[? _]].
  - injection Hu as <-. destruct Hk as [Hk|[-> [s Hs]]]; [done|congruence].
Qed.

Lemma update_row_some set key d d' k : update_row set key d = Ok d' -> is_Some (torrent_storage d !! k) -> is_Some (torrent_storage d' !! k).
Proof.
  unfold update_row. intros Hu Hk. destruct (torrent_storage d !! key) as [old|] eqn:Eo; [|by injection Hu as <-].
  apply write_storage_row in Hu as [rev ->]. by apply lookup_insert_is_Some'; right.
Qed.

Lemma update_rows_layout set k l keys : (forall s, row_layout (set s) = l) -> forall d d', each_row (update_row set) keys d = Ok d' ->
  (row_layout <$> torrent_storage d !! k = Some l \/ k ∈ keys /\ is_Some (torrent_storage d !! k)) ->
  row_layout <$> torrent_storage d' !! k = Some l.
Proof.
  intros Hset. induction keys as [|key keys IH]; intros d d' He Hk; cbn [each_row] in He.
  { injection He as <-. destruct Hk as [Hk|[Hk _]]; [done|]. by apply elem_of_nil in Hk. }
  destruct (update_row set key d) as [d1|] eqn:E; [|done]. eapply IH; [exact He|]. destruct Hk as [Hk|[Hk Hs]].
  - left. eapply update_row_layout; [exact E|done|]. by left.
  - apply elem_of_cons in Hk as [->|Hk]; [left; eapply update_row_layout; [exact E|done|]; by right|].
    right. split; [done|]. by eapply update_row_some.
Qed.

Lemma commit_effect before v next d d' : CommitStorageOperation fold d before v next false = (Ok tt, d') -> m_Hash before = v_Hash v -> exists old s,
  storage_recovery d !! v_Hash v = Some old /\ rc_stage old = "published"%string /\ rc_reason old = rc_reason (v_row v)
  /\ storage_recovery d' !! v_Hash v = Some (old <| rc_stage := "committed"%string |> <| rc_error := ""%string |> <| rc_failure_code := ""%string |>
       <| rc_journal := rc_journal (v_row v) |>)
  /\ torrent_storage d' !! v_Hash v = Some s /\ row_layout s = next.
Proof.
  unfold CommitStorageOperation, atomically, CommitStorageOperation_tx. intros Hc Hb. destruct (checkStorageFence _ _ _); [|done].
  destruct (storage_recovery d !! v_Hash v) as [old|] eqn:Eo; [|done]. destruct (negb (_ && _)) eqn:Ei; [done|]. destruct (negb (rc_stage old =? _)%string) eqn:Es; [done|].
  destruct (setStorageLayoutTx fold before _ next d) as [d1|] eqn:El; [|done].
  pose proof (setStorageLayoutTx_frame _ _ _ _ _ _ El Recoveries eq_refl) as Hr. cbn in Hr.
  destruct (update_recovery _ _ _ d1) as [[n d2]|] eqn:Eu; [|done]. injection Hc as <-.
  pose proof (update_recovery_frame _ _ _ _ _ _ Eu Storage eq_refl) as Hst. cbn in Hst. split_bools.
  assert (exists s, torrent_storage d1 !! v_Hash v = Some s /\ row_layout s = next) as (s & Hs & Hl).
  { revert El. unfold setStorageLayoutTx. destruct (Layout_Validate next); [|done]. destruct (checkStorageClaims _ _ _ _); [|done].
    match goal with |- context [negb ?owned] => destruct (negb owned); [done|] end. rewrite Hb. destruct (torrent_storage d !! v_Hash v) as [s|] eqn:Es0; [|done].
    destruct (same_mapping before s) eqn:Em; [|done]. cbn [negb]. destruct (existsb _ _); [done|].
    unfold update_storage. destruct (each_row _ _ d) as [d3|] eqn:Ee; [|done]. intros [= <-].
    change (each_row (update_row (fun s => s <| st_root := l_Root next |> <| st_version := l_Version next |> <| st_prefix := l_Prefix next |>
      <| st_state := "ready"%string |> <| st_error := ""%string |>)) (storage_keys (fun _ s => (st_storage_id s =? m_StorageID before)%string
      && (st_revision s =? m_Revision before)) d) d = Ok d3) in Ee.
    assert (row_layout <$> torrent_storage d3 !! v_Hash v = Some next) as (s' & Hs' & Hl')%fmap_Some; [|by exists s'].
    eapply update_rows_layout; [|exact Ee|]; [by intros []; destruct next|].
    right. split; [|by rewrite Es0]. eapply storage_keys_elem; [exact Es0|]. unfold same_mapping in Em. split_bools.
    apply andb_true_iff. split; [by apply String.eqb_eq|done]. }
  revert Eu. unfold update_recovery. rewrite Hr, Eo. unfold at_stage in *.
  assert ((rc_record_id old =? rc_record_id (v_row v))%string && (rc_version old =? rc_version (v_row v)) = true) as ->
    by (apply andb_true_iff; split; [by apply String.eqb_eq|done]).
  destruct (resume_journal _ _ d1) as [d3|] eqn:Ej; [|done]. intros [= <- <-]. exists old, s. split_and!; [done..| | |done].
  - cbn. by rewrite lookup_insert_eq.
  - cbn in Hst. cbn. by rewrite Hst.
Qed.

(** ** The running operation *)

Definition same_places (j j' : storageLocationJournal) : Prop := j_Source j' = j_Source j /\ j_Target j' = j_Target j.

Lemma current_replace d st j d' st' j' old new : at_work d st j -> storage_recovery d !! hash = Some old -> torrent_storage d' = torrent_storage d ->
  storage_recovery d' !! hash = Some new -> rc_reason new = rc_reason old -> rc_version new = rc_version old ->
  json_unmarshal (rc_journal new) = Some j' -> rc_stage new = st' -> late st' = late st -> same_places j j' -> current d' st' j'.
Proof.
  intros (r & j0 & s & Hr & Hm & Hj & Hp & Hmeth & Hs & Hl & Hv & Hst) Ho Hd Hn Hre Hver Hj' Hst' Hlate [Hsrc Htgt].
  assert (r = old) as -> by congruence. left. exists new, j', s.
  split_and!; [done|congruence|done..|congruence| |destruct Hv; congruence|by destruct Hv|by left].
  rewrite Hl. unfold layout_at. by rewrite Hlate, Hsrc, Htgt.
Qed.

(** The transition of the run itself meets its own record. *)
Lemma current_transition d m v st j j' d' : current d st j -> TransitionStorageOperation d m v st = (Ok tt, d') -> v_Hash v = hash ->
  rc_version (v_row v) = version -> json_unmarshal (rc_journal (v_row v)) = Some j' -> same_places j j' -> late (v_Stage v) = late st ->
  current d' (v_Stage v) j'.
Proof.
  intros Hc (old & Ho & Hst & Hre & Hver & Hn & Hd)%transition_effect Hh Hv Hj Hp Hl. rewrite Hh in *.
  destruct Hc as [Hc|[_ (r & _ & _ & Hr & _ & _ & _ & _ & [Hlt _] & _)]]; [by eapply current_replace|].
  assert (r = old) as -> by congruence. lia.
Qed.

Lemma current_finish d m v st j j' retained d' : current d st j -> FinishStorageOperation d m v st retained = (Ok tt, d') -> v_Hash v = hash ->
  settled_stage st = false -> json_unmarshal (rc_journal (v_row v)) = Some j' -> same_places j j' -> late (v_Stage v) = late st ->
  current d' (v_Stage v) j'.
Proof.
  intros Hc (old & Ho & Hst & Hre & Hn & Hd)%finish_effect Hh Hs Hj Hp Hl. rewrite Hh in *.
  destruct Hc as [Hc|[? _]]; [|congruence]. by eapply current_replace.
Qed.

Lemma current_commit d v st j j' d' : current d st j -> CommitStorageOperation fold d (j_Source j) v (j_Target j) false = (Ok tt, d') ->
  v_Hash v = hash -> m_Hash (j_Source j) = hash -> json_unmarshal (rc_journal (v_row v)) = Some j' -> plan j' = plan j -> j_Method j' = j_Method j ->
  current d' "committed" j.
Proof.
  intros Hc Hco Hh Hb Hj Hp Hmeth. apply commit_effect in Hco as (old & s' & Ho & Hst & Hre & Hn & Hs' & Hl); [|congruence]. rewrite Hh in *.
  destruct Hc as [(r & j0 & s & Hr & Hm & _ & _ & _ & _ & _ & Hv & _)|[_ (r & _ & _ & Hr & _ & _ & _ & _ & _ & [E|E])]];
    assert (r = old) as -> by congruence; [|congruence..].
  left. eexists _, j', s'. split_and!; [exact Hn|done..|apply Hv|apply Hv|by left].
Qed.

(** ** Commands in the midst of a run *)

(** A command finds the record of its operation, and moves it to a stage or refuses. *)
Lemma with_operation_cases d f (P : db -> Prop) : P d ->
  (forall r j m, storage_recovery d !! hash = Some r -> rc_reason r = "storage_move"%string -> json_unmarshal (rc_journal r) = Some j ->
     P (f m (mkRecoveryRecord hash r) j)) -> P (with_operation d f).
Proof.
  intros HP Hf. unfold with_operation, Recovery. destruct (storage_recovery d !! hash) as [r|] eqn:Hr; [|done]. cbn.
  destruct (find_mapping d hash); [|done]. destruct (String.eqb_spec (rc_reason r) "storage_move"); [|done]. cbn.
  unfold decodeLocationJournal. cbn [v_row]. destruct (json_unmarshal (rc_journal r)) as [j|] eqn:Hj; [|done].
  destruct (validateLocationJournal _ j); [|done]. by apply Hf.
Qed.

Lemma transition_cases d m v j st (P : db -> Prop) : v_Hash v = hash -> P d ->
  (forall r new d', storage_recovery d !! hash = Some r -> storage_recovery d' !! hash = Some new -> torrent_storage d' = torrent_storage d ->
     rc_reason new = rc_reason r -> rc_version new = rc_version r -> json_unmarshal (rc_journal new) = Some j -> rc_stage new = st ->
     rc_stage r = v_Stage v -> P d') -> P (transition d m v j st).
Proof using codec.
  intros Hh HP Ht. unfold transition. destruct (TransitionStorageOperation _ _ _ _) as [[[]|] d'] eqn:E; cbn [snd].
  - apply transition_effect in E as (old & Ho & Hst & Hre & Hv & Hn & Hd). cbn in Ho, Hn. rewrite Hh in *.
    eapply Ht; [exact Ho|exact Hn|done..|cbn; apply codec|done|done].
  - assert (d' = d) as ->; [|done]. unfold TransitionStorageOperation, atomically in E. destruct (checkStorageFence _ _ _); [|by injection E as _ <-].
    destruct (update_recovery _ _ _ d) as [[n d1]|]; [|by injection E as _ <-]. destruct (negb _); [by injection E as _ <-|done].
Qed.

(** A command that moves the record to a stage it may have in the midst of the run. *)
Lemma current_moved d st j r j1 m v st' : current d st j -> storage_recovery d !! hash = Some r -> json_unmarshal (rc_journal r) = Some j1 ->
  v_Hash v = hash ->
  (rc_stage r = v_Stage v -> st' = rc_stage r \/ st' = "cancel_requested"%string /\ cancellable (rc_stage r) = true
     \/ rc_stage r = "planned"%string /\ st' = "queued"%string) ->
  current (transition d m v j1 st') st j.
Proof using codec.
  intros Hc Hr Hj1 Hh Hst'. apply (transition_cases d m v j1 st' (fun d => current d st j)); [done..|]. intros r' new d' Hr' Hn Hd Hre Hv Hj Hs Hrs.
  assert (r' = r) as -> by congruence. specialize (Hst' Hrs). destruct Hc as [(r' & j0 & s & Hr0 & Hm & Hj0 & Hp & Hmeth & Hso & Hl & Hver & Hst)|
    [Hset (r' & j0 & s & Hr0 & Hm & Hj0 & Hso & Hl & Hver & Hst)]]; assert (r' = r) as -> by congruence; assert (j1 = j0) as -> by congruence.
  - left. exists new, j0, s. rewrite Hd, Hv. split_and!; try done; [congruence|apply Hver..|]. rewrite Hs.
    destruct Hst' as [->|[[-> Hcan]|[Hpl ->]]]; [done| |].
    + right. left. split; [done|]. destruct Hst as [<-|[[_ ?]|[_ ->]]]; done.
    + destruct Hst as [<-|[[? _]|[? _]]]; [|congruence..]. right. right. done.
  - right. split; [done|]. exists new, j0, s. rewrite Hd, Hv. split_and!; try done; [congruence|apply Hver..|]. rewrite Hs.
    destruct Hst' as [->|[[-> _]|[Hpl _]]]; [done|by right|]. destruct Hst; congruence.
Qed.

Lemma current_apply d st j : current d st j -> current (apply_move d) st j.
Proof using codec.
  intros Hc. apply (with_operation_cases d _ (fun d => current d st j)); [done|]. intros r j1 m Hr _ Hj1. destruct (_ && _) eqn:E; [|done].
  apply andb_true_iff in E as [Hst%String.eqb_eq _]. eapply current_moved; [done..|]. auto.
Qed.

Lemma current_retry d st j : current d st j -> current (retry_storage d) st j.
Proof using codec.
  intros Hc. apply (with_operation_cases d _ (fun d => current d st j)); [done|]. intros r j1 m Hr _ Hj1. destruct (_ || _); [done|]. eapply current_moved; [done..|]. auto.
Qed.

Lemma current_cancel d st j : current d st j -> current (cancel_storage d) st j.
Proof using codec.
  intros Hc. apply (with_operation_cases d _ (fun d => current d st j)); [done|]. intros r j1 m Hr _ Hj1. destruct (cancellable _) eqn:E; [|done].
  eapply current_moved; [done..|]. auto.
Qed.

(** A new plan starts at the mapping it was made for. *)
Lemma create_effect d m v previous claims d' : CreateStorageOperation fold d m v previous claims = (Ok tt, d') -> exists new,
  storage_recovery d' !! v_Hash v = Some new /\ rc_stage new = rc_stage (v_row v) /\ rc_journal new = rc_journal (v_row v)
  /\ rc_reason new = rc_reason (v_row v) /\ rc_version new = rc_version (v_row v) /\ 1 <= rc_version (v_row v)
  /\ torrent_storage d' = torrent_storage d.
Proof.
  unfold CreateStorageOperation, atomically, CreateStorageOperation_tx. destruct (checkStorageFence _ _ _); [|done]. cbv zeta.
  destruct (_ || _ || _) eqn:Eb; [done|]. destruct (_ >=? _); [done|].
  apply orb_false_iff in Eb as [_ Hone]. assert (1 <= rc_version (v_row v)) as Hv by lia. clear Hone.
  destruct (check_claims _ _ _ _ _); [|done]. destruct (upsert_recovery _ _ _ d) as [[n d1]|] eqn:E; [|done]. cbv zeta.
  destruct (each_row insert_claim claims _) as [d2|] eqn:Ec; [|done]. intros [= <-].
  pose proof (insert_claims_frame _ _ _ Ec Storage eq_refl) as Hs. pose proof (insert_claims_frame _ _ _ Ec Recoveries eq_refl) as Hr. cbn in Hs, Hr.
  pose proof (upsert_recovery_frame _ _ _ _ _ _ E Storage eq_refl) as Hs1. cbn in Hs1. rewrite Hr, Hs, Hs1. clear Ec Hs Hr Hs1. revert E. unfold upsert_recovery.
  destruct (resume_journal _ _ d) as [d3|]; [|done]. destruct (storage_recovery d3 !! v_Hash v) as [old|].
  - destruct (resume_journal _ _ d3) as [d4|]; [|done]. intros [= <- <-]. eexists. split; [apply lookup_insert_eq|done].
  - case_bool_decide; [|done]. intros [= <- <-]. eexists. split; [apply lookup_insert_eq|done].
Qed.

(** A plan is made or refused: the record it makes is a new one, at the present mapping. *)
Lemma plan_move_cases recordID ver target d (P : db -> Prop) : P d ->
  (forall new j s d', storage_recovery d' !! hash = Some new -> torrent_storage d' = torrent_storage d -> rc_reason new = "storage_move"%string ->
     rc_stage new = "planning"%string -> json_unmarshal (rc_journal new) = Some j -> torrent_storage d !! hash = Some s ->
     mapping_layout (mkStorageMapping hash s) = mapping_layout (j_Source j) -> in_i64 (rc_version new) ->
     (forall old, storage_recovery d !! hash = Some old -> rc_version new = i64 (rc_version old + 1) /\ 1 <= rc_version new
        /\ (rc_reason old = "storage_move"%string -> settled_stage (rc_stage old) = true)) -> P d') ->
  P (plan_move recordID ver target d).
Proof using codec.
  intros HP Hnew. unfold plan_move. destruct (find_mapping d hash) as [m|] eqn:Hm; [|done]. cbv zeta. do 2 (case_match; [done|]).
  destruct (replaced_version (Recovery d hash) recordID ver) as [previous|] eqn:Hp; [|done].
  destruct (CreateStorageOperation _ _ _ _ _ _) as [[[]|] d'] eqn:E; cbn [snd].
  - apply create_effect in E as (new & Hn & Hst & Hj & Hre & Hv & Hone & Hs). cbn in Hn, Hst, Hj, Hre, Hv, Hone.
    unfold find_mapping in Hm. destruct (torrent_storage d !! hash) as [s|] eqn:Hs0; [|done]. injection Hm as <-.
    eapply Hnew; [exact Hn|exact Hs|exact Hre|exact Hst|rewrite Hj; apply codec|done|done|rewrite Hv; apply i64_range|].
    intros old Ho. unfold Recovery in Hp. rewrite Ho in Hp. cbn in Hp. destruct (negb _) in Hp; [done|]. destruct (negb _) in Hp; [done|].
    destruct (negb (settled_stage (rc_stage old)) && _) eqn:Hset in Hp; [done|]. destruct (negb (_ =? _)) in Hp; [done|]. injection Hp as <-.
    split_and!; [done|lia|]. intros Hmove. rewrite Hmove in Hset. apply andb_false_iff in Hset as [Hset|Hset]; [|done]. by apply negb_false_iff in Hset.
  - assert (d' = d) as ->; [|done]. unfold CreateStorageOperation, atomically in E. by destruct (CreateStorageOperation_tx _ _ _ _ _ _) as [[]|]; [|injection E as _ <-].
Qed.

Lemma next_version n : in_i64 n -> 1 <= i64 (n + 1) -> n < i64 (n + 1).
Proof. unfold in_i64, i64. intros Hn H1. destruct (decide (n = 2 ^ 63 - 1)) as [->|]; [exfalso; by apply H1|]. rewrite Z.mod_small; lia. Qed.

Lemma current_plan recordID ver target d st j : current d st j -> current (plan_move recordID ver target d) st j.
Proof using codec.
  intros Hc. apply (plan_move_cases _ _ _ _ (fun d => current d st j)); [done|]. intros new j1 s d' Hn Hd Hre Hst Hj Hs Hl Hi Hold. right.
  assert (settled_stage st = true /\ version < rc_version new) as [Hset Hlt].
  { destruct Hc as [(r & _ & _ & Hr & Hm & _ & _ & _ & _ & _ & [Hv Hin] & Hrs)|[Hset (r & _ & _ & Hr & Hm & _ & _ & _ & [Hv Hin] & Hrs)]];
      destruct (Hold r Hr) as (Hnew & Hone & Hset'); specialize (Hset' Hm).
    - rewrite Hnew, Hv in *. split; [|by apply next_version]. destruct Hrs as [<-|[[E _]|[E _]]]; [done|rewrite E in Hset'; done..].
    - split; [done|]. rewrite Hnew in *. pose proof (next_version _ Hin Hone). lia. }
  split; [done|]. exists new, j1, s. rewrite Hd. split_and!; try done. by left.
Qed.

Lemma current_command c d st j : current d st j -> current (storage_command c d) st j.
Proof using codec. destruct c; cbn; auto using current_plan, current_apply, current_retry, current_cancel. Qed.

(** The operation is at [st] with the plan of [j], and the disk satisfies [D]. *)
Definition at_ (st : string) (j : storageLocationJournal) (D : disk -> Prop) (w : world) : Prop := current (w_db w) st j /\ D (w_disk w).

Lemma t_primitive {A} (P : world -> Prop) (op : world -> result MoveError (A * world)) Q (E : world -> Prop) :
  (forall w faults, P w -> P (w <| w_faults := faults |>)) -> (forall w c, P w -> P (w <| w_db ::= storage_command c |>)) ->
  (forall w a w', P w -> op w = Ok (a, w') -> Q a w' /\ E w') -> (forall w, P w -> E w) -> (forall w, answers (op w)) ->
  triple P (primitive op) Q E.
Proof.
  intros Hf Hc HQ HE Ha w Hw. unfold primitive.
  assert (forall w, P w -> match match op w with Ok (a, w') => (Ok a, w') | Err e => (Err e, w) end with (Ok a, w') => Q a w' | (Err e, w') => E w' /\ e <> OutOfFuel end) as Hrun.
  { intros w1 Hw1. destruct (op w1) as [[a w2]|e] eqn:Eo; [by eapply HQ|]. split; [by apply HE|]. intros ->. by apply (Ha w1). }
  destruct (w_faults w) as [|f faults]; [by apply Hrun|]. assert (P (w <| w_faults := faults |>)) as Hw' by (by apply Hf).
  destruct f; cbv zeta.
  - by apply Hrun.
  - split; [by apply HE|done].
  - destruct (op _) as [[a w2]|e] eqn:Eo.
    + split; [by eapply HQ|done].
    + split; [by apply HE|]. intros ->. by apply (Ha (w <| w_faults := faults |>)).
  - apply Hrun. by apply Hc.
Qed.

Lemma t_primitive_exact {A} (P : world -> Prop) (op : world -> result MoveError (A * world)) Q (E : world -> Prop) E' :
  (forall w faults, P w -> P (w <| w_faults := faults |>)) -> (forall w c, P w -> P (w <| w_db ::= storage_command c |>)) ->
  (forall w a w', P w -> op w = Ok (a, w') -> Q a w' /\ E w') -> (forall w, answers (op w)) ->
  triple P (attempt (primitive op)) (fun r w => match r with Ok a => Q a w | Err e => e <> OutOfFuel /\ (e = ErrFault /\ E w \/ P w) end) E'.
Proof.
  intros Hf Hc HQ Ha w Hw. unfold attempt, primitive.
  assert (forall w, P w -> match op w with Ok (a, w') => Q a w' /\ E w' | Err e => e <> OutOfFuel end) as Hop.
  { intros w1 Hw1. destruct (op w1) as [[a w2]|e] eqn:Eo; [by eapply HQ|]. intros ->. by apply (Ha w1). }
  destruct (w_faults w) as [|f faults]; [specialize (Hop w Hw); destruct (op w) as [[a w']|e]; [apply Hop|by split; [|right]]|].
  assert (P (w <| w_faults := faults |>)) as Hw' by (by apply Hf). destruct f; cbv zeta.
  - specialize (Hop _ Hw'). destruct (op _) as [[a w']|e]; [apply Hop|by split; [|right]].
  - split; [done|by right].
  - specialize (Hop _ Hw'). destruct (op _) as [[a w']|e]; [split; [done|left; split; [done|apply Hop]]|by split; [|right]].
  - apply (Hc _ c) in Hw'. specialize (Hop _ Hw'). destruct (op _) as [[a w']|e]; [apply Hop|by split; [|right]].
Qed.

Lemma at_faults st j D w faults : at_ st j D w -> at_ st j D (w <| w_faults := faults |>).
Proof. done. Qed.

Lemma at_command st j D w c : at_ st j D w -> at_ st j D (w <| w_db ::= storage_command c |>).
Proof using codec. intros [Hc Hd]. split; [by apply current_command|done]. Qed.

Lemma at_mono st j (D D' : disk -> Prop) w : (forall d, D d -> D' d) -> at_ st j D w -> at_ st j D' w.
Proof. intros HD [Hc Hd]. split; [done|by apply HD]. Qed.

Lemma at_plan st j j' D w : plan j = plan j' -> j_Method j = j_Method j' -> at_ st j D w -> at_ st j' D w.
Proof.
  intros Hp Hm [[(r & j0 & s & Hr & Hre & Hj & Hp0 & Hm0 & Hs & Hl & Hv & Hst)|Hsup] Hd]; (split; [|done]); [left|by right].
  exists r, j0, s. split_and!; try done; try congruence; [|apply Hv..].
  apply plan_places in Hp as (Hsrc & Htgt & _). rewrite Hl. unfold layout_at. by rewrite Hsrc, Htgt.
Qed.

Lemma t_external st j D : triple (at_ st j D) external (fun _ => at_ st j D) (at_ st j D).
Proof using codec. apply t_primitive; [apply at_faults|apply at_command| |done|done]. by intros w a w' ? [= <- <-]. Qed.

Section At.
Context (st : string) (j : storageLocationJournal).

Lemma t_look {A} D (f : disk -> result MoveError A) : (forall d, answers (f d)) ->
  triple (at_ st j D) (look f) (fun a => at_ st j (fun d => D d /\ f d = Ok a)) (at_ st j D).
Proof using codec.
  intros Ha. apply t_primitive; [apply at_faults|apply at_command| |done|].
  - intros w a w' [Hc Hd] Ho. destruct (f (w_disk w)) as [b|] eqn:E; [|done]. injection Ho as <- <-. done.
  - intros w. apply answers_bind; [apply Ha|done].
Qed.

Lemma t_change {A} (D : disk -> Prop) (D' : A -> disk -> Prop) (f : disk -> result MoveError (A * disk)) (E : disk -> Prop) : (forall d, answers (f d)) ->
  (forall d a d', D d -> f d = Ok (a, d') -> D' a d' /\ E d') -> (forall d, D d -> E d) ->
  triple (at_ st j D) (change f) (fun a => at_ st j (D' a)) (at_ st j E).
Proof using codec.
  intros Ha HD HE. apply t_primitive; [apply at_faults|apply at_command| | |].
  - intros w a w' [Hc Hd] Ho. destruct (f (w_disk w)) as [[b d']|] eqn:Ef; [|done]. injection Ho as <- <-.
    destruct (HD _ _ _ Hd Ef). split; split; done.
  - intros w [Hc Hd]. split; [done|by apply HE].
  - intros w. apply (answers_bind (f (w_disk w))); [apply Ha|by intros []].
Qed.

(** A change whose error is its own has changed nothing. *)
Lemma t_change_exact {A} (D : disk -> Prop) (D' : A -> disk -> Prop) (f : disk -> result MoveError (A * disk)) (E : disk -> Prop) E' : (forall d, answers (f d)) ->
  (forall d a d', D d -> f d = Ok (a, d') -> D' a d' /\ E d') ->
  triple (at_ st j D) (attempt (change f))
    (fun r w => match r with Ok a => at_ st j (D' a) w | Err e => e <> OutOfFuel /\ (e = ErrFault /\ at_ st j E w \/ at_ st j D w) end) E'.
Proof using codec.
  intros Ha HD. apply t_primitive_exact; [apply at_faults|apply at_command| |].
  - intros w a w' [Hc Hd] Ho. destruct (f (w_disk w)) as [[b d']|] eqn:Ef; [|done]. injection Ho as <- <-.
    destruct (HD _ _ _ Hd Ef). split; split; done.
  - intros w. apply (answers_bind (f (w_disk w))); [apply Ha|by intros []].
Qed.

(** A change that respects [D], wherever it ends. *)
Lemma t_change_same {A} (D : disk -> Prop) (f : disk -> result MoveError (A * disk)) : (forall d, answers (f d)) ->
  (forall d a d', D d -> f d = Ok (a, d') -> D d') -> triple (at_ st j D) (change f) (fun _ => at_ st j D) (at_ st j D).
Proof using codec. intros Ha HD. apply t_change; [done| |done]. intros d a d' Hd Hf. split; by eapply HD. Qed.

Lemma t_volumes D : triple (at_ st j D) (checkLocationVolumes j) (fun _ => at_ st j D) (at_ st j D).
Proof using codec. unfold checkLocationVolumes. do 2 (eapply t_bind; [apply t_external|intros ?]). apply t_external. Qed.

Lemma t_query {A} D (f : db -> result MoveError A) : (forall d, answers (f d)) ->
  triple (at_ st j D) (query f) (fun a w => at_ st j D w /\ exists d, f d = Ok a) (at_ st j D).
Proof using codec.
  intros Ha. apply t_primitive; [apply at_faults|apply at_command| |done|].
  - intros w a w' Hw Ho. destruct (f (w_db w)) as [b|] eqn:E; [|done]. injection Ho as <- <-. eauto.
  - intros w. apply answers_bind; [apply Ha|done].
Qed.

Lemma t_commit {A} D (f : db -> result RepoError A * db) (P : A -> world -> Prop) :
  (forall w a d', at_ st j D w -> f (w_db w) = (Ok a, d') -> P a (w <| w_db := d' |>)) ->
  triple (at_ st j D) (commit f) P (fun w => at_ st j D w \/ exists a, P a w).
Proof using codec.
  intros HP. apply t_primitive; [apply at_faults|apply at_command| |by left|].
  - intros w a w' Hw Ho. destruct (f (w_db w)) as [[b|] d'] eqn:E; [|done]. injection Ho as <- <-. split; [by apply HP|]. right. exists b. by apply HP.
  - intros w. destruct (f (w_db w)) as [[]]; done.
Qed.

(** A step of the journal: the operation is at the new stage, with the new journal. *)
Lemma t_transition D m v j' st' : v_Hash v = hash -> rc_version (v_row v) = version -> v_Stage v = st -> late st' = late st -> same_places j j' ->
  triple (at_ st j D) (locationTransition m v j' st') (fun v' w => at_ st' j' D w /\ v' = at_new_stage v j' st')
    (fun w => at_ st j D w \/ at_ st' j' D w).
Proof using codec.
  intros Hh Hv Hst Hl Hp. unfold locationTransition. eapply t_bind.
  - eapply t_conseq; [apply (t_commit D _ (fun _ => at_ st' j' D))|done|done|].
    + intros w [] d' [Hc Hd] Ht. split; [|done]. cbn. rewrite Hst in Ht.
      apply (current_transition _ _ _ _ _ j' _ Hc Ht); [done|done|cbn; apply codec|done|done].
    + intros w [?|[_ ?]]; auto.
  - intros ?. eapply t_bind.
    + eapply t_conseq; [apply (t_external st' j' D)|done|intros b w Hw; exact Hw|intros w Hw; right; exact Hw].
    + intros ?. by apply t_ret.
Qed.
End At.
End Logic.
