(* ===== verification/MoveFrame.v ===== *)
(** * What a move leaves alone

    Along every path of the code the operation keeps an assertion on the disk
    that is closed under the changes the code makes: outside the staging area
    while it copies and publishes, outside the planned sources and the quarantine
    while it cleans up. *)

From stdpp Require Import base gmap list strings pretty.
From Stdlib Require Import ZArith Strings.Byte Lia.
From S2P Require Import Prelude Models Paths Layout FastResume Tables IntentStore StorageStore.
From S2P Require Import RootedFiles RootedFrame StorageMove MoveLogic.

#[local] Open Scope Z_scope.

(** ** Steps that keep an assertion *)

(** [P] holds after the call, whether it answers or fails, and [I] of its answer. *)
Definition stays {A} (P : world -> Prop) (m : io A) (I : A -> Prop) : Prop := triple P m (fun a w => P w /\ I a) P.

Lemma s_ret {A} P (a : A) (I : A -> Prop) : I a -> stays P (ret a) I.
Proof. intros Ha. by apply t_ret. Qed.

Lemma s_fail {A} P e (I : A -> Prop) : e <> OutOfFuel -> stays P (fail e) I.
Proof. intros He. by apply t_fail. Qed.

Lemma s_bind {A B} P (m : io A) (k : A -> io B) I J : stays P m I -> (forall a, I a -> stays P (k a) J) -> stays P (bind m k) J.
Proof.
  intros Hm Hk. eapply t_bind; [exact Hm|]. intros a w [Hw Ha]. by apply Hk.
Qed.

Lemma s_attempt {A} P (m : io A) I : stays P m I -> stays P (attempt m) (fun r => match r with Ok a => I a | Err e => e <> OutOfFuel end).
Proof.
  intros Hm w Hw. unfold attempt. specialize (Hm w Hw). destruct (m w) as [[a|e] w']; done.
Qed.

Lemma s_weaken {A} P (m : io A) (I J : A -> Prop) : stays P m I -> (forall a, I a -> J a) -> stays P m J.
Proof. intros Hm HJ. eapply t_conseq; [exact Hm|done| |done]. intros a w [? ?]. auto. Qed.

Lemma s_for_each {X S} P (f : X -> S -> io S) (I : S -> Prop) xs : (forall x s, x ∈ xs -> I s -> stays P (f x s) I) ->
  forall s, I s -> stays P (for_each f xs s) I.
Proof.
  induction xs as [|x xs IH]; intros Hf s Hs; cbn [for_each]; [by apply s_ret|].
  eapply s_bind; [apply Hf; [left|done]|]. intros s' Hs'. apply IH; [|done]. intros y t Hy. apply Hf. by right.
Qed.

Lemma t_error {A} (P : world -> Prop) (m : io A) Q E e : (e <> OutOfFuel -> triple P m Q E) -> triple (fun w => P w /\ e <> OutOfFuel) m Q E.
Proof. intros Hm w [Hw He]. by apply Hm. Qed.

Definition closed (Y : path -> Prop) (D : disk -> Prop) : Prop := forall d d', D d -> keeps Y d d' -> D d'.

Section Frame.
Context `{MoveEnv} {V : Version}.
Context (codec : forall j, json_unmarshal (json_marshal j) = Some j).
Context (name st : string) (jr : storageLocationJournal) (Y : path -> Prop) (D : disk -> Prop) (Hclosed : closed Y D).

#[local] Abbreviation P := (at_ st jr D).

Lemma s_look {A} (f : disk -> result MoveError A) : (forall d, answers (f d)) -> stays P (look f) (fun _ => True).
Proof using codec.
  intros Ha. eapply t_conseq; [by apply t_look|done| |done]. intros a w Hw. split; [|done]. eapply at_mono; [|exact Hw]. by intros d [? _].
Qed.

Lemma s_external : stays P external (fun _ => True).
Proof using codec. eapply t_conseq; [by apply t_external|done| |done]. done. Qed.

Lemma s_change {A} (f : disk -> result MoveError (A * disk)) : (forall d, answers (f d)) ->
  (forall d a d', f d = Ok (a, d') -> keeps Y d d') -> stays P (change f) (fun _ => True).
Proof using codec Hclosed.
  intros Ha Hk. eapply t_conseq; [apply (t_change_same codec st jr D f)|done| |done]; [done| |done].
  intros d a d' Hd Hf. eapply Hclosed; [exact Hd|]. by eapply Hk.
Qed.

Lemma s_volumes j : stays P (checkLocationVolumes j) (fun _ => True).
Proof using codec. unfold checkLocationVolumes. do 2 (eapply s_bind; [apply s_external|intros ? _]). apply s_external. Qed.

(** The journal keeps its plan and its method; the quarantine of the operation [name] is open or not. *)
Definition kept (j : storageLocationJournal) : Prop :=
  plan j = plan jr /\ j_Method j = j_Method jr
  /\ (j_CleanupPath j = [] \/ j_CleanupPath j = (source_root jr ++ [(".tsh-cleanup-" ++ name)%string])%list).

(** What stays true of the record and the journal of a running step. *)
Definition running (vj : RecoveryRecord * storageLocationJournal) : Prop :=
  v_Hash (fst vj) = hash /\ v_Stage (fst vj) = st /\ (operation_name (fst vj) = name /\ rc_version (v_row (fst vj)) = version) /\ kept (snd vj)
  /\ exists j0, json_unmarshal (rc_journal (v_row (fst vj))) = Some j0 /\ plan j0 = plan jr /\ j_Method j0 = j_Method jr.

Lemma s_transition m v j : running (v, j) -> stays P (locationTransition m v j st) (fun v' => running (v', j)).
Proof using codec.
  intros (Hh & Hs & Hn & (Hp & Hm & Hc) & Hj). cbn in *. apply plan_places in Hp as Hpl. destruct Hpl as (Hsrc & Htgt & _).
  eapply t_conseq; [apply (t_transition codec st jr D m v j st)|done| |]; [done|by apply Hn|done..|split; done| |].
  - intros v' w [Hw ->]. split; [by eapply at_plan|]. do 4 (split; [done|]). exists j. cbn. by rewrite codec.
  - intros w [Hw|Hw]; [done|]. by eapply at_plan.
Qed.
End Frame.

Ltac stay :=
  repeat lazymatch goal with
  | |- stays _ (bind (match _ with _ => _ end) _) _ => apply (s_bind _ _ _ (fun _ => True)); [|intros ? ?]
  | |- stays _ (bind _ _) _ => eapply s_bind; [|intros ? ?]
  | |- stays _ (ret _) _ => apply s_ret
  | |- stays _ (fail _) _ => apply s_fail; congruence
  | |- stays _ external _ => apply s_external; done
  | |- stays _ (checkLocationVolumes _) _ => apply s_volumes; done
  | |- stays _ (look _) _ => apply s_look; [done|solve [auto with answers]]
  | |- stays _ (attempt _) _ => apply s_attempt
  | |- stays _ (let '_ := ?x in _) _ => destruct x
  | |- stays _ (if ?b then _ else _) _ => destruct b eqn:?
  | |- stays _ (match ?r with Ok _ => _ | Err _ => _ end) _ => destruct r as [?|[]] eqn:?
  end.

Section Copying.
Context `{MoveEnv} {V : Version}.
Context (codec : forall j, json_unmarshal (json_marshal j) = Some j).
Context (name st : string) (jr : storageLocationJournal) (Y : path -> Prop) (D : disk -> Prop) (Hclosed : closed Y D).

#[local] Abbreviation P := (at_ st jr D).
#[local] Abbreviation kept := (kept name jr).
#[local] Abbreviation running := (running name st jr).
#[local] Abbreviation any := (fun _ => True).

(** Changes that only add names, and changes of paths outside [Y]. *)
Lemma s_mkdir p : stays P (change (Mkdir p)) any.
Proof using codec Hclosed. apply (s_change codec st jr Y D Hclosed); [auto with answers|]. intros d a d' Hd. by eapply Mkdir_keeps. Qed.

Lemma s_create p : stays P (change (create_file p)) any.
Proof using codec Hclosed. apply (s_change codec st jr Y D Hclosed); [auto with answers|]. intros d a d' Hd. by eapply create_file_keeps. Qed.

Lemma s_update p f : ~ Y p -> stays P (change (update_file p f)) any.
Proof using codec Hclosed. intros Hp. apply (s_change codec st jr Y D Hclosed); [auto with answers|]. intros d a d' Hd. by eapply update_file_keeps. Qed.

Lemma s_remove p : ~ Y p -> stays P (change (Remove p)) any.
Proof using codec Hclosed. intros Hp. apply (s_change codec st jr Y D Hclosed); [auto with answers|]. intros d a d' Hd. eapply Remove_keeps; [exact Hd|by left]. Qed.

Lemma s_move from to : ~ Y from -> stays P (change (MoveRootNoReplace from to)) any.
Proof using codec Hclosed. intros Hp. apply (s_change codec st jr Y D Hclosed); [auto with answers|]. intros d a d' Hd. by eapply MoveRootNoReplace_keeps. Qed.

Lemma s_make_directories reversed : stays P (make_directories reversed) any.
Proof using codec Hclosed.
  induction reversed as [|last up IH]; cbn [make_directories]; [by apply s_ret|]. stay; try done. apply s_mkdir.
Qed.

Lemma s_directories p : stays P (makeLocationDirectories p) any.
Proof using codec Hclosed. apply s_make_directories. Qed.

Lemma s_staging v j staging known : ~ Y (with_suffix staging ".owner") -> stays P (ensureLocationStaging v j staging known) any.
Proof using codec Hclosed.
  intros Hm. unfold ensureLocationStaging. stay; try done; try apply s_directories; try apply s_create; try (by apply s_update).
Qed.

Lemma s_write_chunk to chunk offset : ~ Y to -> stays P (write_chunk to chunk offset) any.
Proof using codec Hclosed. intros Ht. unfold write_chunk. stay; try done. by apply s_update. Qed.

Lemma s_copy_file source staging e : ~ Y (staging ++ me_Target e)%list -> stays P (copyLocationFile source staging e) any.
Proof using codec Hclosed.
  intros Ht. unfold copyLocationFile. stay; try done; try (by apply s_update). apply (s_for_each _ _ any); [|done]. intros chunk offset _ _. by apply s_write_chunk.
Qed.

(** ** Copying *)

Lemma planned_elem j j' e : plan j = plan j' -> e ∈ j_Entries j -> exists e', e' ∈ j_Entries j' /\ planned e' = planned e.
Proof.
  intros (_ & _ & _ & _ & Hm)%plan_places He. assert (planned e ∈ map planned (j_Entries j')) as H1.
  { rewrite <- Hm. apply list_elem_of_fmap. eauto. }
  apply list_elem_of_fmap in H1 as (e' & ? & ?). eauto.
Qed.

(** The copies are outside [Y]. *)
Definition copies_outside : Prop :=
  (forall e, e ∈ j_Entries jr -> ~ Y (j_Staging jr ++ me_Target e)%list) /\ ~ Y (with_suffix (j_Staging jr) ".owner").

Context (Hout : copies_outside).

Lemma copy_outside j e : plan j = plan jr -> e ∈ j_Entries j -> ~ Y (j_Staging j ++ me_Target e)%list.
Proof using Hout.
  intros Hp He. apply plan_places in Hp as Hpl. destruct Hpl as (_ & _ & -> & _). destruct (planned_elem _ _ _ Hp He) as (e' & He' & [= _ <- _]).
  by apply (proj1 Hout).
Qed.

Lemma insert_planned (l : list storageMoveEntry) i e e' : l !! i = Some e -> planned e' = planned e -> map planned (<[i := e']> l) = map planned l.
Proof.
  intros Hi He. change (planned <$> <[i := e']> l = planned <$> l). rewrite list_fmap_insert. apply list_insert_id. rewrite list_lookup_fmap, Hi. cbn. by rewrite He.
Qed.

Lemma kept_entry j i e e' : kept j -> j_Entries j !! i = Some e -> planned e' = planned e -> kept (j <| j_Entries ::= <[i := e']> |>).
Proof. intros (Hp & Hm & Hc) Hi He. split; [|done]. rewrite <- Hp. unfold plan. cbn. by rewrite (insert_planned _ _ _ _ Hi He). Qed.

Lemma s_create_copy i j changed : kept j -> stays P (create_copy i (j, changed)) (fun s => kept (fst s)).
Proof using codec Hclosed.
  intros Hk. unfold create_copy. destruct (j_Entries j !! i) as [e|] eqn:Hi; [|by apply s_ret].
  stay; try done; try apply s_directories; try apply s_create. by eapply kept_entry.
Qed.

Lemma s_copy_entry i j : kept j -> stays P (copy_entry i j) kept.
Proof using codec Hclosed Hout.
  intros Hk. unfold copy_entry. destruct (j_Entries j !! i) as [e|] eqn:Hi; [|by apply s_ret].
  stay; try done. apply s_copy_file. apply copy_outside; [by destruct Hk|]. by apply list_elem_of_lookup_2 in Hi.
Qed.

Lemma running_kept v j j' : running (v, j) -> kept j' -> running (v, j').
Proof. intros (Hh & Hs & [? ?] & _ & Hj) Hk. by split_and!. Qed.

Lemma running_is_kept v j : running (v, j) -> kept j.
Proof. by intros (_ & _ & _ & ? & _). Qed.

Lemma s_copy_batch m batch vj : running vj -> stays P (copy_batch m batch vj) (running).
Proof using codec Hclosed Hout.
  destruct vj as [v j]. intros Hr. unfold copy_batch. eapply s_bind; [by apply s_volumes|intros _ _].
  eapply s_bind; [apply (s_for_each _ _ (fun s => kept (fst s)))|].
  - intros i [j1 c] _ Hk. by apply s_create_copy.
  - by apply running_is_kept in Hr.
  - intros [j1 changed] Hk. cbn in Hk. eapply (s_bind _ _ _ (fun v' => running (v', j1))).
    + assert (v_Stage v = st) as Hst by (by destruct Hr as (_ & ? & _)). rewrite Hst. destruct changed; [|apply s_ret; by eapply running_kept].
      apply s_transition; [done|]. by eapply running_kept.
    + intros v1 Hr1. eapply s_bind; [apply (s_for_each _ _ kept); [intros i j2 _ Hj2; by apply s_copy_entry|done]|].
      intros j2 Hk2. apply s_ret. by eapply running_kept.
Qed.

Lemma validate_copied_answers d p j : answers (validateCopiedLocation d p j).
Proof. unfold validateCopiedLocation. apply answers_bind; [auto with answers|]. intros t. destruct (negb _); [done|]. by destruct (match_targets _ _). Qed.
#[local] Hint Resolve validate_copied_answers : answers.

Lemma s_copyLocation m v j : running (v, j) -> stays P (copyLocation m v j) (running).
Proof using codec Hclosed Hout.
  intros Hr. pose proof (running_is_kept _ _ Hr) as Hk. assert (v_Stage v = st) as Hst by (by destruct Hr as (_ & ? & _)). unfold copyLocation. rewrite Hst.
  pose proof (plan_places _ _ (proj1 Hk)) as (_ & _ & Hstage & _).
  eapply s_bind; [apply s_look; [done|auto with answers]|intros _ _]. eapply s_bind; [by apply s_external|intros _ _].
  eapply s_bind; [apply s_staging; rewrite Hstage; apply Hout|intros id _].
  eapply s_bind; [apply s_transition; [done|]; by eapply running_kept|intros v1 Hr1].
  eapply s_bind; [apply (s_for_each _ _ any); [intros dir [] _ _; apply s_directories|done]|intros _ _].
  eapply s_bind; [apply (s_for_each _ _ (running)); [intros batch vj _ Hvj; by apply s_copy_batch|done]|intros [v2 j2] Hr2].
  assert (j_Staging j2 = j_Staging jr) as Hst2 by (apply running_is_kept in Hr2 as [Hp2 _]; by apply plan_places in Hp2 as (_ & _ & ? & _)).
  eapply s_bind; [apply s_attempt, s_remove; rewrite Hst2; apply Hout|intros removed Hrm].
  apply (s_bind _ _ _ any); [stay; done|intros _ _].
  eapply s_bind; [apply s_look; [done|auto with answers]|intros _ _]. eapply s_bind; [by apply s_external|intros _ _]. by apply s_ret.
Qed.
End Copying.

(** ** Cleaning up *)

Section Cleaning.
Context `{MoveEnv} {V : Version}.
Context (codec : forall j, json_unmarshal (json_marshal j) = Some j).
Context (name : string) (jr : storageLocationJournal) (Y : path -> Prop) (D : disk -> Prop) (Hclosed : closed Y D).

#[local] Abbreviation st := "cleanup"%string.
#[local] Abbreviation running := (running name st jr).
#[local] Abbreviation cl := (source_root jr ++ [(".tsh-cleanup-" ++ name)%string])%list.
#[local] Abbreviation P := (at_ st jr D).
#[local] Abbreviation any := (fun _ => True).

(** What the cleanup removes is outside [Y]. *)
Definition removals_outside : Prop :=
  (forall e, e ∈ j_Entries jr -> ~ Y (source_root jr ++ me_Source e)%list) /\ ~ Y (source_root jr)
  /\ (forall r, ~ Y (cl ++ r)%list) /\ ~ Y (with_suffix cl ".owner").
Context (Hout : removals_outside).

Definition cleaning (vj : RecoveryRecord * storageLocationJournal) : Prop := running vj /\ j_CleanupPath (snd vj) = cl.

Lemma source_root_plan j : plan j = plan jr -> source_root j = source_root jr.
Proof. intros (Hs & _)%plan_places. unfold source_root. by rewrite Hs. Qed.

Lemma source_outside j e : plan j = plan jr -> e ∈ j_Entries j -> ~ Y (source_root j ++ me_Source e)%list.
Proof using Hout.
  intros Hp He. rewrite (source_root_plan _ Hp). destruct (planned_elem _ _ _ Hp He) as (e' & He' & [= <- _ _]). by apply (proj1 Hout).
Qed.

Lemma s_quarantine_entry v j i e : cleaning (v, j) -> e ∈ j_Entries j -> stays P (quarantine_entry v j i e) any.
Proof using codec Hclosed Hout.
  intros [Hr Hcl] He. unfold quarantine_entry. stay; try done.
  apply (s_move codec st jr Y D Hclosed). apply source_outside; [by apply running_is_kept in Hr as [? _]|done].
Qed.

Lemma cleaning_transition m v j : cleaning (v, j) -> stays P (locationTransition m v j st) (fun v' => cleaning (v', j)).
Proof using codec. intros [Hr Hcl]. eapply s_weaken; [by apply s_transition|]. by split. Qed.

Lemma cleaning_removed v j i e : cleaning (v, j) -> j_Entries j !! i = Some e ->
  cleaning (v, j <| j_Entries ::= <[i := e <| me_Removed := true |>]> |>).
Proof.
  intros [Hr Hcl] Hi. split; [|done]. eapply running_kept; [exact Hr|]. eapply kept_entry; [by eapply running_is_kept|done|done].
Qed.

Lemma s_remove_entry m i vj : cleaning vj -> stays P (remove_entry m i vj) cleaning.
Proof using codec Hclosed Hout.
  destruct vj as [v j]. intros Hc. unfold remove_entry. eapply s_bind; [by apply s_volumes|intros _ _].
  destruct (j_Entries j !! i) as [e|] eqn:Hi; [|by apply s_ret]. destruct (me_Removed e); [by apply s_ret|]. cbv zeta.
  pose proof (cleaning_removed _ _ _ _ Hc Hi) as Hc'.
  eapply s_bind; [apply s_quarantine_entry; [done|by eapply list_elem_of_lookup_2]|intros held _]. destruct (negb held); [by apply s_ret|].
  eapply s_bind; [apply s_look; [done|auto with answers]|intros _ _]. eapply s_bind; [apply s_look; [done|auto with answers]|intros copy _].
  destruct (negb _); [apply s_fail; done|].
  assert (j_CleanupPath j = cl) as Hcl by apply Hc. rewrite Hcl.
  eapply s_bind; [apply (s_remove codec st jr Y D Hclosed); apply Hout|intros _ _].
  do 2 (eapply s_bind; [by apply s_external|intros _ _]). destruct (_ =? _)%nat; [|by apply s_ret].
  eapply s_bind; [by apply cleaning_transition|]. intros v1 Hv1. by apply s_ret.
Qed.

Lemma s_remove_directory p absent_ok : ~ Y p -> stays P (remove_directory p absent_ok) any.
Proof using codec Hclosed. intros Hp. unfold remove_directory. stay; try done. by apply (s_remove codec st jr Y D Hclosed). Qed.

(** A directory found by its identity is no regular file. *)
Lemma t_remove_found p id absent_ok :
  triple (at_ st jr (fun d => D d /\ directoryIdentity d p = Ok id)) (remove_directory p absent_ok) (fun _ => P) P.
Proof using codec Hclosed.
  unfold remove_directory. eapply t_bind.
  - apply t_attempt, (t_change codec st jr _ (fun _ => D) (Remove p) D); [auto with answers| |by intros d [? _]].
    intros d u d' [Hd Hid] Hrm. assert (D d'); [|done]. eapply Hclosed; [exact Hd|]. eapply Remove_keeps; [exact Hrm|]. right.
    apply directoryIdentity_spec in Hid. unfold is_directory. by rewrite Hid.
  - intros [u|e]; [by apply t_ret|]. apply t_error. intros He. destruct e; try done; try (by apply t_ret); try (by apply t_fail).
    destruct absent_ok; [by apply t_ret|by apply t_fail].
Qed.

Lemma s_remove_source_directory j e u : stays P (remove_source_directory j e u) any.
Proof using codec Hclosed.
  unfold remove_source_directory. destruct (_ || _); [by apply s_ret|]. cbv zeta.
  eapply t_bind; [apply t_attempt, (t_look codec st jr D); auto with answers|]. cbv beta. intros [id|err].
  - destruct (negb _); [apply t_fail; [done|]; intros w Hw; eapply at_mono; [|exact Hw]; by intros d [? _]|].
    eapply t_bind; [apply t_remove_found|]. intros removed. cbv beta. fold (stays P (if removed then external else ret tt) any).
    destruct removed; [by apply s_external|by apply s_ret].
  - apply t_error. intros He. fold (stays P (match err with ErrNotExist => ret tt | _ => fail err end) any).
    destruct err; try done; by (apply s_fail || apply s_ret).
Qed.

Lemma s_remove_marker v j : cleaning (v, j) -> stays P (remove_marker v j) any.
Proof using codec Hclosed Hout.
  intros [_ Hcl]. cbn in Hcl. unfold remove_marker. rewrite Hcl. stay; try done. apply (s_remove codec st jr Y D Hclosed). apply Hout.
Qed.

Lemma s_open_quarantine m v j : cleaning (v, j) -> stays P (open_quarantine m v j) cleaning.
Proof using codec Hclosed Hout.
  intros Hc. assert (j_CleanupPath j = cl) as Hcl by apply Hc. unfold open_quarantine. rewrite Hcl. destruct (negb _).
  - eapply s_bind; [apply (s_staging codec st jr Y D Hclosed); apply Hout|intros id _]. destruct (_ =? 0); [|by apply s_ret].
    eapply s_bind; [apply cleaning_transition|intros v1 Hv1; by apply s_ret]. destruct Hc as [Hr _]. split; [|done]. eapply running_kept; [exact Hr|].
    exact (running_is_kept _ _ _ _ _ Hr).
  - stay; try done.
Qed.

Lemma s_remove_source m v j : running (v, j) -> stays P (remove_source m v j) running.
Proof using codec Hclosed Hout.
  intros Hr. unfold remove_source. set (j1 := if bool_decide (j_CleanupPath j = []) then _ else j). assert (cleaning (v, j1)) as Hc.
  { pose proof (running_is_kept _ _ _ _ _ Hr) as (Hp & Hm & Hpath). assert (cleanup_path v j = cl) as Hcl.
    { unfold cleanup_path. rewrite (source_root_plan _ Hp). by destruct Hr as (_ & _ & [<- _] & _). }
    subst j1. case_bool_decide as Hb; (split; [|cbn; try done]); [|done|by destruct Hpath].
    eapply running_kept; [exact Hr|]. split_and!; [done|done|]. by right. }
  clearbody j1. clear Hr. eapply s_bind; [by apply s_open_quarantine|intros [v2 j2] Hc2].
  eapply s_bind; [apply (s_for_each _ _ cleaning); [intros i vj _ Hvj; by apply s_remove_entry|done]|intros [v3 j3] Hc3].
  eapply s_bind; [by apply cleaning_transition|intros v4 Hc4]. assert (j_CleanupPath j3 = cl) as Hcl3 by apply Hc4.
  eapply s_bind; [apply s_remove_directory; rewrite Hcl3, <- (app_nil_r cl); apply Hout|intros _ _].
  do 2 (eapply s_bind; [by apply s_external|intros _ _]). eapply s_bind; [by apply s_remove_marker|intros _ _].
  eapply s_bind; [apply (s_for_each _ _ any); [intros e u _ _; apply s_remove_source_directory|done]|intros _ _].
  eapply s_bind; [apply s_remove_directory|intros _ _]. { rewrite (source_root_plan j3); [apply Hout|]. destruct Hc4 as [Hr4 _]. apply (running_is_kept _ _ _ _ _ Hr4). }
  eapply s_bind; [by apply s_external|intros _ _]. apply s_ret. apply Hc4.
Qed.

Lemma s_validate_target stage j : stays (at_ stage jr D) (validateLocationTarget j) any.
Proof using codec.
  unfold validateLocationTarget. destruct (is_rename j); [apply s_look; [done|auto with answers]|].
  eapply s_bind; [apply s_look; [done|auto with answers]|intros id _]. destruct (negb _); [by apply s_fail|]. apply s_look; [done|].
  intros d. apply validate_copied_answers.
Qed.

Lemma s_cleanupLocation m v j : running (v, j) -> stays P (cleanupLocation m v j) running.
Proof using codec Hclosed Hout.
  intros Hr. unfold cleanupLocation. eapply s_bind; [apply s_validate_target|intros _ _]. destruct (is_rename j); [by apply s_ret|].
  eapply s_bind; [apply s_attempt, s_look; [done|auto with answers]|intros r Hres].
  destruct r as [id|e]; [destruct (negb _); [by apply s_fail|by apply s_remove_source]|]. destruct e; try done; by (apply s_fail || apply s_ret).
Qed.
End Cleaning.
