(* ===== verification/MoveGeometry.v ===== *)
(** * The places of a move

    What [validateLocationJournal] guarantees before any file is touched: the
    source, the target and the staging area are apart, and the entries are the
    planned part of the recorded tree. *)

From stdpp Require Import base gmap list strings pretty.
From Stdlib Require Import ZArith Strings.Byte Lia.
From S2P Require Import Prelude Models Paths Layout FastResume Tables IntentStore StorageStore.
From S2P Require Import RootedFiles RootedFrame StorageMove MoveLogic.

#[local] Open Scope Z_scope.

(** ** Layouts *)

Lemma prefix_parts l : Layout_Validate l = Ok tt -> l_Prefix l <> "" -> clean_parts (l_Prefix l) = [l_Prefix l] /\ is_abs (l_Prefix l) = false /\ plain (l_Prefix l).
Proof.
  intros Hv Hne. pose proof (Layout_Validate_prefix l Hv Hne) as Hns. assert (ValidateRelative (l_Prefix l) = Ok tt) as Hr.
  { unfold Layout_Validate in Hv. destruct (String.eqb_spec (l_Prefix l) ""); [done|]. cbn in Hv.
    destruct (_ || _); [done|]. destruct (_ =? LayoutVersion); [by rewrite orb_true_r in Hv|]. destruct (_ || _); [done|]. destruct (existsb _ _); [done|].
    destruct (is_ok (ValidateRelative (l_Prefix l))) eqn:E; [by apply is_ok_ValidateRelative|done]. }
  apply ValidateRelative_spec in Hr as (_ & Habs & [Hn Hp] & _). assert (clean_parts (l_Prefix l) = [l_Prefix l]) as Hc; [|split_and!; [done..|]].
  2: { rewrite Hc in Hp. by apply Forall_inv in Hp. }
  revert Hn Hp. unfold clean_parts.
  rewrite (split_on_no_sep _ _ Hns), Habs. cbn. unfold clean_step.
  destruct ((l_Prefix l =? "")%string || (l_Prefix l =? ".")%string); [done|]. destruct (String.eqb_spec (l_Prefix l) "..") as [->|]; [|done].
  intros _ Hp. apply Forall_inv in Hp. destruct Hp as (_ & _ & Hp & _). done.
Qed.

Definition recovery_name : string := ".tsh-recovery".

Lemma root_parts l : Layout_Validate l = Ok tt -> inside (clean_parts (l_Root l)) /\ recovery_name ∉ clean_parts (l_Root l).
Proof.
  intros Hv. pose proof (Layout_Validate_root l Hv) as Hr. apply ValidateRelative_spec in Hr as (_ & _ & Hin & Hcl). split; [done|].
  assert (split_on slash (clean (l_Root l)) = clean_parts (l_Root l)) as Hsp.
  { rewrite Hcl. apply split_join; [apply Hin|]. apply plain_no_slash, Hin. }
  unfold Layout_Validate in Hv. destruct (_ || _); [done|]. destruct (_ =? LayoutVersion).
  - unfold ValidRoot in Hv. rewrite Hsp in Hv. destruct (clean_parts (l_Root l)) as [|top [|h [|]]]; try done.
    destruct (((top =? "payload")%string && (String.length h =? 40)%nat && hex_ok h)) eqn:E; [|done]. split_bools.
    intros [Hx|[Hx|Hx]%elem_of_cons]%elem_of_cons; [by subst top|by subst h|by apply elem_of_nil in Hx].
  - destruct (contains_char _ _ || negb (clean (l_Root l) =? l_Root l)%string) eqn:Ec; [done|]. apply orb_false_iff in Ec as [_ Ec]. split_bools.
    destruct (existsb _ _) eqn:Ex; [done|]. rewrite Ec in Hsp. rewrite Hsp in Ex. intros Hin'. apply list_elem_of_In in Hin'.
    assert (existsb (fun p => has_prefix (lower p) ".tsh-") (clean_parts (l_Root l)) = true) as Ht by (apply existsb_exists; exists recovery_name; done).
    congruence.
Qed.

(** ** Prefixes *)

Lemma prefix_snoc (p q : path) x : p `prefix_of` (q ++ [x])%list -> p `prefix_of` q \/ p = (q ++ [x])%list.
Proof.
  intros [k Hk]. destruct k as [|y k _] using rev_ind; [right; by rewrite app_nil_r in Hk|]. left. rewrite app_assoc in Hk.
  apply app_inj_tail in Hk as [-> _]. by exists k.
Qed.

Lemma prefix_both (p q r : path) : p `prefix_of` r -> q `prefix_of` r -> p `prefix_of` q \/ q `prefix_of` p.
Proof. intros Hp Hq. by eapply prefix_weak_total. Qed.

Lemma with_suffix_snoc (p : path) x suffix : with_suffix (p ++ [x]) suffix = (p ++ [(x ++ suffix)%string])%list.
Proof. unfold with_suffix, parent. rewrite removelast_last, last_last. by destruct p. Qed.

(** The paths a copy is staged at. *)
Definition staging_area (j : storageLocationJournal) (p : path) : Prop :=
  j_Staging j `prefix_of` p \/ p = with_suffix (j_Staging j) ".owner".

Lemma staging_below j pre a b c p : j_Staging j = (pre ++ [recovery_name; a; b; c])%list -> staging_area j p -> (pre ++ [recovery_name])%list `prefix_of` p.
Proof.
  intros Hs [[k ->]| ->]; rewrite Hs.
  - exists ([a; b; c] ++ k)%list. by rewrite <- !app_assoc.
  - exists [a; b; (c ++ ".owner")%string].
    assert ((pre ++ [recovery_name; a; b; c])%list = (pre ++ [recovery_name; a; b]) ++ [c])%list as -> by (by rewrite <- app_assoc).
    rewrite with_suffix_snoc. by rewrite <- !app_assoc.
Qed.

Lemma outside_staging j pre a b c (root p : path) : j_Staging j = (pre ++ [recovery_name; a; b; c])%list -> recovery_name ∉ root -> ~ root `prefix_of` pre ->
  root `prefix_of` p -> ~ staging_area j p.
Proof.
  intros Hs Hn Hpre Hp Ha. apply (staging_below _ _ _ _ _ _ Hs) in Ha. destruct (prefix_both _ _ _ Hp Ha) as [H|H].
  - apply prefix_snoc in H as [H|H]; [done|]. apply Hn. rewrite H. apply elem_of_app. right. by left.
  - destruct H as [k ->]. apply Hn. rewrite !elem_of_app. left. right. by left.
Qed.

Lemma parent_prefix (p : path) : parent p `prefix_of` p.
Proof.
  unfold parent. destruct p as [|x p _] using rev_ind; [done|]. rewrite removelast_last. by exists [x].
Qed.

Lemma not_below_parent (p : path) : p <> [] -> ~ p `prefix_of` parent p.
Proof.
  intros Hp H%prefix_length. unfold parent in H. destruct p as [|x p _] using rev_ind; [done|]. rewrite removelast_last, length_app in H. cbn in H. lia.
Qed.

(** ** A validated journal *)

Record geometry `{MoveEnv} (j : storageLocationJournal) : Prop := {
  g_hash : m_Hash (j_Source j) = hash;
  g_apart : forall p, source_root j `prefix_of` p -> ~ target_root j `prefix_of` p;
  g_source : forall p, source_root j `prefix_of` p -> ~ staging_area j p;
  g_target : forall p, target_root j `prefix_of` p -> ~ staging_area j p;
  g_tree : forall e, e ∈ j_Entries j -> mkTreeEntry (me_Source e) false (me_Evidence e) ∈ tr_Entries (j_SourceTree j);
  g_targets : NoDup (map me_Target (j_Entries j));
  g_rename : st_prefix (m_row (j_Source j)) = l_Prefix (j_Target j) -> forall e, e ∈ j_Entries j -> me_Target e = me_Source e;
  g_nonempty : forall e, e ∈ j_Entries j -> me_Source e <> [];
}.

Lemma geometry_plan `{MoveEnv} j j' : plan j = plan j' -> geometry j -> geometry j'.
Proof.
  intros Hp G. apply plan_places in Hp as Hpl. destruct Hpl as (Hs & Ht & Hst & Htr & Hen).
  assert (forall e, e ∈ j_Entries j' -> exists e', e' ∈ j_Entries j /\ planned e' = planned e) as Hin.
  { intros e He. assert (planned e ∈ map planned (j_Entries j)) as Hm by (rewrite Hen; apply list_elem_of_fmap; eauto).
    apply list_elem_of_fmap in Hm as (e' & ? & ?). eauto. }
  destruct G as [H1 H2 H3 H4 H5 H6 H7 H8]. unfold source_root, target_root, staging_area in *. rewrite Hs, ?Ht, ?Hst in *.
  split; unfold source_root, target_root, staging_area; try done.
  - intros e (e' & He' & [= <- _ <-])%Hin. rewrite <- Htr. by apply H5.
  - assert (map me_Target (j_Entries j') = map me_Target (j_Entries j)) as ->; [|done].
    assert (forall l, map me_Target l = map (fun x => x.1.2) (map planned l)) as Hmap by (intros l; by rewrite map_map). by rewrite !Hmap, Hen.
  - intros Heq e (e' & He' & [= <- <- _])%Hin. by apply H7.
  - intros e (e' & He' & [= <- _ _])%Hin. by apply H8.
Qed.

Lemma validPath_inside p : validPath p = true -> inside p.
Proof.
  unfold validPath. intros [Hn Hp]%andb_true_iff. apply negb_true_iff, bool_decide_eq_false in Hn. split; [done|]. apply Forall_forall. intros x Hx.
  rewrite forallb_forall in Hp. apply list_elem_of_In in Hx. apply Hp in Hx. unfold validComponent in Hx. apply andb_true_iff in Hx as [Hx _].
  by apply bool_decide_eq_true in Hx.
Qed.

Lemma text_inside p : inside p -> text p = join_with slash p.
Proof. by destruct p as [|x p]; [intros []|]. Qed.

Definition prefix_path (prefix : string) : path := if (prefix =? "")%string then [] else [prefix].

(** The metadata path of an entry has the source's prefix before its source path and the target's before its target path. *)
Lemma entry_parts l t (src tgt : path) : Layout_Validate l = Ok tt -> validPath src = true -> validPath tgt = true ->
  Layout_Relative t (metadata_path (l_Prefix l) src) = Ok (text tgt) -> (prefix_path (l_Prefix l) ++ src = prefix_path (l_Prefix t) ++ tgt)%list.
Proof.
  intros Hl Hs Ht Hr. apply validPath_inside in Hs, Ht. apply Layout_Relative_spec in Hr as (parts & Hin & He & Hm).
  rewrite text_inside in He by done. apply join_inj in He; [|done..]. subst parts. unfold prefix_path. rewrite <- Hm. unfold metadata_path. rewrite text_inside by done.
  destruct (String.eqb_spec (l_Prefix l) "") as [->|Hne].
  - unfold path_join. destruct (join_plain src) as [Hj _]; [apply Hs..|]. cbn [String.eqb]. destruct (String.eqb_spec (join_with slash src) ""); [done|].
    rewrite clean_join_plain by apply Hs. by rewrite clean_parts_join.
  - destruct (prefix_parts l Hl Hne) as (Hp & Ha & Hplain). destruct Hs as [Hsn Hsp]. assert (Forall plain [l_Prefix l]) as Hpl by (constructor; [done|constructor]).
    rewrite path_join_plain; [|done..|by rewrite Hp]. rewrite Hp, clean_parts_join; [done|]. split; [done|]. by apply Forall_app.
Qed.

Lemma tree_map_spec entries : forall tree bytes t, tree_map entries tree bytes = Some t -> forall p e, t !! p = Some e ->
  tree !! p = Some e \/ (e ∈ entries /\ te_Path e = p /\ valid_tree_entry e = true).
Proof.
  induction entries as [|x entries IH]; intros tree bytes t; cbn [tree_map]; [intros [= <-]; by left|]. destruct (_ || _) eqn:Ex; [done|].
  intros Ht p e Hp. apply orb_false_iff in Ex as [[Ex _]%orb_false_iff _]. apply negb_false_iff in Ex.
  destruct (IH _ _ _ Ht p e Hp) as [Hi|(Hi & ? & ?)]; [|right; split_and!; [by right|done..]].
  apply lookup_insert_Some in Hi as [[<- <-]|[_ Hi]]; [|by left]. right. split_and!; [by left|done..].
Qed.

Record entry_ok (j : storageLocationJournal) (tree : gmap path storageTreeEntry) (e : storageMoveEntry) : Prop := {
  eo_tree : exists source, tree !! me_Source e = Some source /\ te_Directory source = false /\ te_Evidence source = me_Evidence e;
  eo_target : validPath (me_Target e) = true;
  eo_relative : Layout_Relative (j_Target j) (metadata_path (st_prefix (m_row (j_Source j))) (me_Source e)) = Ok (text (me_Target e));
}.

Lemma valid_entries_spec j tree entries : forall seen, valid_entries j tree seen entries = true ->
  Forall (entry_ok j tree) entries /\ NoDup (map me_Source entries) /\ Forall (fun e => me_Source e ∉ seen) entries.
Proof.
  induction entries as [|e entries IH]; intros seen; cbn [valid_entries map]; [intros _; split_and!; constructor|].
  destruct (tree !! me_Source e) as [source|] eqn:Es; [|done]. destruct (Layout_Relative _ _) as [expected|] eqn:Er; [|done].
  intros Hv. split_bools. match goal with Hn : valid_entries _ _ _ _ = true |- _ => apply IH in Hn as (Ha & Hd & Hs) end. split_and!.
  - constructor; [|done]. split; [by exists source|done|congruence].
  - constructor; [|done]. intros (e' & Hin & He')%list_elem_of_fmap. rewrite Forall_forall in Hs. apply (Hs e'); [done|]. rewrite <- Hin. set_solver.
  - constructor; [done|]. eapply Forall_impl; [exact Hs|]. cbn. intros e'. set_solver.
Qed.

Section Geometry.
Context `{MoveEnv}.
(** Folding works within path elements and keeps ordinary elements ordinary. *)
Context (fold_join : forall parts, inside parts -> fold (join_with slash parts) = join_with slash (map fold parts)).
Context (fold_plain : forall part, plain part -> plain (fold part)).

Lemma fold_inside parts : inside parts -> inside (map fold parts).
Proof using fold_plain. intros [Hn Hp]. split; [by destruct parts|]. apply Forall_map. eapply Forall_impl; [exact Hp|]. exact fold_plain. Qed.

Lemma collides_prefix a b : ValidateRelative a = Ok tt -> ValidateRelative b = Ok tt -> clean_parts a `prefix_of` clean_parts b \/ clean_parts b `prefix_of` clean_parts a ->
  collides fold a b = true.
Proof using fold_join fold_plain.
  intros (_ & _ & Ha & Hca)%ValidateRelative_spec (_ & _ & Hb & Hcb)%ValidateRelative_spec Hp. unfold collides, CollisionKey. rewrite Hca, Hcb, !fold_join by done.
  apply fold_inside in Ha as Hfa. apply fold_inside in Hb as Hfb. unfold Overlap. rewrite !clean_join_plain by (apply Hfa || apply Hfb).
  rewrite !orb_true_iff, !directory_prefix_spec, String.eqb_eq by done.
  destruct Hp as [[k Hk]|[k Hk]]; rewrite Hk, map_app; destruct k as [|x k].
  - left. left. by rewrite app_nil_r.
  - right. by exists (map fold (x :: k)).
  - left. left. by rewrite app_nil_r.
  - left. right. by exists (map fold (x :: k)).
Qed.

Record places_ok (v : RecoveryRecord) (j : storageLocationJournal) : Prop := {
  po_hash : m_Hash (j_Source j) = v_Hash v;
  po_source : Layout_Validate (mapping_layout (j_Source j)) = Ok tt;
  po_target : Layout_Validate (j_Target j) = Ok tt;
  po_apart : collides fold (st_root (m_row (j_Source j))) (l_Root (j_Target j)) = false;
  po_staging : j_Staging j = legacy_stage v j \/ j_Staging j = target_stage v j;
  po_cleanup : j_CleanupPath j = [] \/ j_CleanupPath j = cleanup_path v j;
}.

Lemma valid_places v j : valid_geometry v j = true -> places_ok v j.
Proof.
  unfold valid_geometry. intros Hg. split_bools. match goal with Hr : Ready _ = true |- _ => unfold Ready in Hr end. split_bools.
  assert (Layout_Validate (mapping_layout (j_Source j)) = Ok tt) by (destruct (Layout_Validate (mapping_layout _)) as [[]|]; done).
  assert (Layout_Validate (j_Target j) = Ok tt) by (destruct (Layout_Validate (j_Target j)) as [[]|]; done).
  repeat match goal with Ho : bool_decide _ || bool_decide _ = true |- _ => rewrite orb_true_iff, !bool_decide_eq_true in Ho end. by split.
Qed.

(** The roots are apart from each other and from the staging area. *)
Lemma places_apart v j : places_ok v j ->
  (forall p, source_root j `prefix_of` p -> ~ target_root j `prefix_of` p)
  /\ (forall p, source_root j `prefix_of` p -> ~ staging_area j p) /\ (forall p, target_root j `prefix_of` p -> ~ staging_area j p).
Proof using fold_join fold_plain.
  intros [_ Hls Hlt Hc Hst _]. destruct (root_parts _ Hls) as [[Hsn Hsp] Hsr]. destruct (root_parts _ Hlt) as [[Htn Htp] Htr].
  change (clean_parts (l_Root (mapping_layout (j_Source j)))) with (source_root j) in *. change (clean_parts (l_Root (j_Target j))) with (target_root j) in *.
  assert (~ (source_root j `prefix_of` target_root j \/ target_root j `prefix_of` source_root j)) as Hapart.
  { intros Hp. rewrite collides_prefix in Hc; [done|by apply (Layout_Validate_root _ Hls)|by apply (Layout_Validate_root _ Hlt)|done]. }
  assert (exists pre a b c, j_Staging j = (pre ++ [recovery_name; a; b; c])%list /\ pre `prefix_of` parent (target_root j)) as (pre & a & b & c & Hs & Hpre).
  { destruct Hst as [-> | ->]; unfold target_stage, legacy_stage; [exists []|exists (parent (target_root j))]; eexists _, _, _; (split; [done|]); [apply prefix_nil|done]. }
  split_and!.
  - intros p Hp1 Hp2. apply Hapart. by eapply prefix_both.
  - intros p. apply (outside_staging _ _ _ _ _ _ _ Hs Hsr). intros Hp. apply Hapart. left. do 2 (etransitivity; [eassumption|]). apply parent_prefix.
  - intros p. apply (outside_staging _ _ _ _ _ _ _ Hs Htr). intros Hp. apply (not_below_parent (target_root j)); [done|]. by etransitivity.
Qed.

(** What the code has established when it starts to move. *)
Lemma validated_geometry v j : v_Hash v = hash -> validateLocationJournal v j = true ->
  geometry j /\ (j_CleanupPath j = [] \/ j_CleanupPath j = cleanup_path v j).
Proof using fold_join fold_plain.
  intros Hh Hv. unfold validateLocationJournal in Hv. apply andb_true_iff in Hv as [[Hg He]%andb_true_iff _].
  destruct (tree_map _ _ _) as [tree|] eqn:Et; [|done]. apply valid_entries_spec in He as (Ha & Hd & _). rewrite Forall_forall in Ha.
  apply valid_places in Hg as Hp. destruct (places_apart _ _ Hp) as (H1 & H2 & H3). destruct Hp as [Hm Hls Hlt _ _ Hcl]. split; [|done].
  assert (forall e, e ∈ j_Entries j -> exists source, source ∈ tr_Entries (j_SourceTree j) /\ te_Path source = me_Source e /\ te_Directory source = false
    /\ te_Evidence source = me_Evidence e /\ validPath (me_Source e) = true) as Htree.
  { intros e He. destruct (Ha e He) as [(source & Hs & Hdir & Hev) _ _]. apply (tree_map_spec _ _ _ _ Et) in Hs as [Hs|(Hin & Hpath & Hval)]; [done|].
    exists source. split_and!; try done. unfold valid_tree_entry in Hval. split_bools. congruence. }
  assert (forall e, e ∈ j_Entries j -> (prefix_path (st_prefix (m_row (j_Source j))) ++ me_Source e = prefix_path (l_Prefix (j_Target j)) ++ me_Target e)%list) as Hparts.
  { intros e He. destruct (Ha e He) as [_ Htv Hrel]. destruct (Htree e He) as (_ & _ & _ & _ & _ & Hsv).
    by apply (entry_parts (mapping_layout (j_Source j)) (j_Target j)). }
  split; [congruence|done|done|done| | | |].
  - intros e He. destruct (Htree e He) as ([p dir ev] & Hin & Hpath & Hdir & Hev & _). cbn in *. by subst.
  - apply (NoDup_fmap_2_strong me_Target); [|by eapply NoDup_fmap_1]. intros e1 e2 He1 He2 Heq.
    pose proof (Hparts e1 He1) as E1. pose proof (Hparts e2 He2) as E2. rewrite Heq, <- E2 in E1. apply app_inv_head in E1.
    apply list_elem_of_lookup in He1 as [i1 Hi1]. apply list_elem_of_lookup in He2 as [i2 Hi2].
    assert (i1 = i2) as <-; [|congruence]. eapply (NoDup_lookup (me_Source <$> j_Entries j)); [exact Hd|by rewrite list_lookup_fmap, Hi1|]. by rewrite list_lookup_fmap, Hi2, E1.
  - intros Heq e He. pose proof (Hparts e He) as E. rewrite Heq in E. by apply app_inv_head in E.
  - intros e He Hnil. destruct (Htree e He) as (_ & _ & _ & _ & _ & Hsv). apply validPath_inside in Hsv as [Hn _]. done.
Qed.
End Geometry.
