(* ===== verification/MoveSafety.v ===== *)
(** * A move never loses the planned files

    The invariant of the journalled move, for every run of the worker with any
    faults: the files of the plan are where the mapping says, or, while a renamed
    tree is being published, complete under one of its two names. *)

From stdpp Require Import base gmap list strings pretty.
From Stdlib Require Import ZArith Strings.Byte Lia.
From S2P Require Import Prelude Models Paths Layout FastResume Tables IntentStore StorageStore.
From S2P Require Import RootedFiles RootedFrame StorageMove MoveLogic MoveFrame MoveGeometry.

#[local] Open Scope Z_scope.

(** ** The planned files *)

Definition source_complete (j : storageLocationJournal) (d : disk) : Prop :=
  forall e, e ∈ j_Entries j -> content d (source_root j ++ me_Source e) (me_Evidence e).

Definition target_complete (j : storageLocationJournal) (d : disk) : Prop :=
  forall e, e ∈ j_Entries j -> content d (target_root j ++ me_Target e) (me_Evidence e).

Lemma source_complete_plan j j' d : plan j = plan j' -> source_complete j d -> source_complete j' d.
Proof.
  intros Hp Hs e He. symmetry in Hp. destruct (planned_elem _ _ _ Hp He) as (e' & He' & [= <- _ <-]). apply plan_places in Hp as (Hsrc & _).
  unfold source_root. rewrite Hsrc. by apply Hs.
Qed.

Lemma target_complete_plan j j' d : plan j = plan j' -> target_complete j d -> target_complete j' d.
Proof.
  intros Hp Hs e He. symmetry in Hp. destruct (planned_elem _ _ _ Hp He) as (e' & He' & [= _ <- <-]). apply plan_places in Hp as (_ & Htgt & _).
  unfold target_root. rewrite Htgt. by apply Hs.
Qed.

(** The stages of a planned move, and what is complete at each of them. *)
Definition active (st : string) : bool :=
  bool_decide (st ∈ ["planned"; "queued"; "waiting_readers"; "prepared"; "copying"; "publishing"; "published"; "committed"; "cleanup"; "completed"]%string).

Definition safe (st : string) (j : storageLocationJournal) (d : disk) : Prop :=
  if late st then target_complete j d
  else if (st =? "copying")%string then source_complete j d
  else if (st =? "publishing")%string || (st =? "published")%string
  then source_complete j d \/ is_rename j = true /\ target_complete j d
  else True.

(** A plan renames only between layouts of one prefix. *)
Definition plan_ok (j : storageLocationJournal) : Prop :=
  is_copy j = true \/ is_rename j = true /\ st_prefix (m_row (j_Source j)) = l_Prefix (j_Target j).

Lemma is_rename_method j j' : j_Method j = j_Method j' -> is_rename j = is_rename j'.
Proof. unfold is_rename. by intros ->. Qed.

Lemma safe_plan st j j' d : plan j = plan j' -> j_Method j = j_Method j' -> safe st j d -> safe st j' d.
Proof.
  intros Hp Hm. unfold safe. rewrite (is_rename_method _ _ Hm). pose proof (source_complete_plan _ _ d Hp). pose proof (target_complete_plan _ _ d Hp).
  repeat case_match; tauto.
Qed.

Lemma plan_ok_plan j j' : plan j = plan j' -> j_Method j = j_Method j' -> plan_ok j -> plan_ok j'.
Proof. intros (Hs & Ht & _)%plan_places Hm. unfold plan_ok, is_copy, is_rename. by rewrite Hs, Ht, Hm. Qed.

(** ** What the checks of a tree establish *)

Lemma validated_source `{MoveEnv} j d : geometry j -> validateStorageTree d (source_root j) (j_SourceTree j) = Ok tt -> source_complete j d.
Proof.
  intros G Hv e He. apply validate_holds in Hv. rewrite Forall_forall in Hv. by apply (Hv _ (g_tree _ G e He)).
Qed.

Lemma validated_renamed `{MoveEnv} j d : geometry j -> plan_ok j -> is_rename j = true -> validateStorageTree d (target_root j) (j_SourceTree j) = Ok tt -> target_complete j d.
Proof.
  intros G Hp Hr Hv e He. apply validate_holds in Hv. rewrite Forall_forall in Hv. pose proof (Hv _ (g_tree _ G e He)) as Hc. cbn in Hc.
  assert (st_prefix (m_row (j_Source j)) = l_Prefix (j_Target j)) as Heq.
  { destruct Hp as [Hp|[_ Hp]]; [|done]. unfold is_copy, is_rename in *. split_bools. congruence. }
  rewrite (g_rename _ G Heq e He). by apply Hc.
Qed.

Lemma match_targets_spec actual : forall expected, match_targets actual expected = true -> forall t e, expected !! t = Some e ->
  exists a, a ∈ actual /\ te_Directory a = false /\ te_Path a = t /\ fp_Size (me_Evidence e) = fp_Size (te_Evidence a) /\ fp_Digest (me_Evidence e) = fp_Digest (te_Evidence a).
Proof.
  induction actual as [|a actual IH]; intros expected; cbn [match_targets]; [intros ->%bool_decide_eq_true t e; by rewrite lookup_empty|].
  destruct (te_Directory a) eqn:Hd.
  { intros Hm t e Ht. destruct (IH _ Hm t e Ht) as (a' & ? & ?). exists a'. split; [by right|done]. }
  destruct (expected !! te_Path a) as [want|] eqn:Ew; [|done]. intros Hm t e Ht. split_bools. destruct (decide (te_Path a = t)) as [<-|Hne].
  - exists a. assert (want = e) as -> by congruence. split_and!; [by left|done..| |done]. by apply Z.eqb_eq.
  - match goal with Hn : match_targets _ _ = true |- _ => destruct (IH _ Hn t e) as (a' & ? & ?) end; [by rewrite lookup_delete_ne|].
    exists a'. split; [by right|done].
Qed.

Lemma expected_targets_spec entries : NoDup (map me_Target entries) -> forall e, e ∈ entries -> expected_targets entries !! me_Target e = Some e.
Proof.
  unfold expected_targets. assert (forall (m : gmap path storageMoveEntry), NoDup (map me_Target entries) -> forall e, e ∈ entries \/ (m !! me_Target e = Some e /\ me_Target e ∉ map me_Target entries) ->
    fold_left (fun m e => <[me_Target e := e]> m) entries m !! me_Target e = Some e) as Hg; [|intros Hd e He; apply Hg; auto].
  induction entries as [|x entries IH]; intros m Hd e He; cbn [fold_left map] in *.
  { destruct He as [He|[He _]]; [by apply elem_of_nil in He|done]. }
  apply NoDup_cons in Hd as [Hx Hd]. apply IH; [done|]. destruct He as [[->|He]%elem_of_cons|[He Hn]].
  - right. split; [by rewrite lookup_insert_eq|done].
  - by left.
  - right. rewrite elem_of_cons in Hn. split; [|tauto]. rewrite lookup_insert_ne; [done|]. intros Heq. apply Hn. by left.
Qed.

Lemma validated_copy `{MoveEnv} j d p : geometry j -> validateCopiedLocation d p j = Ok tt ->
  forall e, e ∈ j_Entries j -> content d (p ++ me_Target e) (me_Evidence e).
Proof.
  intros G Hv e He. unfold validateCopiedLocation in Hv. destruct (snapshotStorageTree d p) as [t|] eqn:Es; [|done]. destruct (negb _); [done|].
  destruct (match_targets _ _) eqn:Em; [|done]. apply snapshot_holds in Es. rewrite Forall_forall in Es.
  destruct (match_targets_spec _ _ Em _ _ (expected_targets_spec _ (g_targets _ G) e He)) as (a & Ha & Hd & <- & Hs & Hg).
  destruct (Es a Ha Hd) as ([id|id data tm] & Hn & Hc); [done|]. exists (Regular id data tm). split; [done|]. by rewrite Hs, Hg.
Qed.

(** ** The entries of a plan *)

Lemma plan_entry_spec `{MoveEnv} root prefix j e j' : plan_entry root prefix j e = Ok j' ->
  j_Source j' = j_Source j /\ j_Target j' = j_Target j /\ (j_Method j' = j_Method j \/ j_Method j' = "copy"%string).
Proof.
  unfold plan_entry. destruct (isVolumeMarker _); [intros [= <-]; by split_and!; [..|right]|].
  destruct (Layout_Relative _ _); [destruct (te_Directory e); [|destruct (_ >? _); [done|]]|destruct (_ && _)]; intros [= <-]; by split_and!; [..|left].
Qed.

Lemma plan_entries_spec `{MoveEnv} root prefix entries : forall j j', plan_entries root prefix j entries = Ok j' ->
  j_Source j' = j_Source j /\ j_Target j' = j_Target j /\ (j_Method j' = j_Method j \/ j_Method j' = "copy"%string).
Proof.
  induction entries as [|e entries IH]; intros j j'; cbn [plan_entries]; [intros [= <-]; by split_and!; [..|left]|].
  destruct (plan_entry root prefix j e) as [j1|] eqn:E; [|done]. apply plan_entry_spec in E as (Hs & Ht & Hm). intros (Hs' & Ht' & Hm')%IH.
  split_and!; [congruence..|]. destruct Hm' as [->|]; auto.
Qed.

Lemma plan_entries_answers `{MoveEnv} root prefix entries : forall j, answers (plan_entries root prefix j entries).
Proof.
  induction entries as [|e entries IH]; intros j; cbn [plan_entries]; [done|]. apply answers_bind; [|done]. unfold plan_entry.
  destruct (isVolumeMarker _); [done|]. destruct (Layout_Relative _ _); [destruct (te_Directory e); [done|by destruct (_ >? _)]|by destruct (_ && _)].
Qed.

Lemma plan_ok_entries j j' : plan_ok j -> j_Source j' = j_Source j -> j_Target j' = j_Target j -> j_Method j' = j_Method j \/ j_Method j' = "copy"%string -> plan_ok j'.
Proof.
  unfold plan_ok, is_copy, is_rename. intros Hok -> -> [-> | ->]; [done|]. by left.
Qed.

(** ** The invariant *)

Section Safety.
Context `{MoveEnv}.
Context (codec : forall j, json_unmarshal (json_marshal j) = Some j).

(** What the database and the disk say of a move between any two calls of its worker. *)
Definition invariant (w : world) : Prop := forall r, storage_recovery (w_db w) !! hash = Some r -> rc_reason r = "storage_move"%string ->
  exists j s, json_unmarshal (rc_journal r) = Some j /\ in_i64 (rc_version r) /\ (active (rc_stage r) = true -> plan_ok j)
    /\ torrent_storage (w_db w) !! hash = Some s /\ mapping_layout (mkStorageMapping hash s) = layout_at (rc_stage r) j
    /\ safe (rc_stage r) j (w_disk w).

Section Run.
Context {V : Version}.
(** One run, of the journal [j0] it decoded; [X] is any other assertion on the disk that the run keeps. *)
Context (j0 : storageLocationJournal) (name : string) (G : geometry j0) (X : disk -> Prop).

#[local] Abbreviation quarantine := (source_root j0 ++ [(".tsh-cleanup-" ++ name)%string])%list.

(** What the cleanup may remove. *)
Definition removal (p : path) : Prop :=
  (exists e, e ∈ j_Entries j0 /\ p = (source_root j0 ++ me_Source e)%list) \/ p = source_root j0
  \/ quarantine `prefix_of` p \/ p = with_suffix quarantine ".owner".

Definition unstaged (p : path) : Prop := ~ staging_area j0 p.
Definition unremoved (p : path) : Prop := ~ removal p.

Context (X_copies : closed unstaged X) (X_cleanup : closed unremoved X).
Context (X_rename : forall d u d', X d -> MoveRootDirectoryNoReplace device (source_root j0) (target_root j0) d = Ok (u, d') -> X d').

Lemma removal_below p : removal p -> source_root j0 `prefix_of` p.
Proof.
  intros [(e & _ & ->)|[->|[Hp| ->]]]; [by apply prefix_app_r|done|etransitivity; [|exact Hp]; by apply prefix_app_r|].
  rewrite with_suffix_snoc. by apply prefix_app_r.
Qed.

Lemma source_closed : closed unstaged (source_complete j0).
Proof using G.
  intros d d' Hs Hk e He. eapply content_keeps; [exact Hk| |by apply Hs]. apply (g_source _ G). by apply prefix_app_r.
Qed.

Lemma target_closed : closed unstaged (target_complete j0).
Proof using G.
  intros d d' Hs Hk e He. eapply content_keeps; [exact Hk| |by apply Hs]. apply (g_target _ G). by apply prefix_app_r.
Qed.

Lemma target_cleanup : closed unremoved (target_complete j0).
Proof using G.
  intros d d' Hs Hk e He. eapply content_keeps; [exact Hk| |by apply Hs]. intros Hr%removal_below. apply (g_apart _ G _ Hr). by apply prefix_app_r.
Qed.

Lemma closed_and (Y : path -> Prop) D1 D2 : closed Y D1 -> closed Y D2 -> closed Y (fun d => D1 d /\ D2 d).
Proof. intros H1 H2 d d' [? ?] Hk. split; [by eapply H1|by eapply H2]. Qed.

(** The end of a run: the invariant and [X]. *)
Definition ends (w : world) : Prop := invariant w /\ X (w_disk w).

Definition fits (st : string) (j : storageLocationJournal) : Prop := plan j = plan j0 /\ (active st = true -> plan_ok j).

Lemma at_ends_plan st j w : (active st = true -> plan_ok j) -> at_ st j (fun d => safe st j d /\ X d) w -> ends w.
Proof.
  intros Hok [[(r & jd & s & Hr & Hre & Hj & Hp & Hm & Hs & Hl & [Hv Hin] & Hst)|[_ (r & jd & s & Hr & Hre & Hj & Hs & Hl & [_ Hin] & Hst)]] [Hsafe HX]];
    (split; [|done]); intros r' Hr' _; assert (r' = r) as -> by congruence; exists jd, s.
  - rewrite <- Hv in Hin. destruct Hst as [Hst|[[Hst Hc]|[Hst ->]]]; rewrite Hst.
    + split_and!; [done|done| |done| |by eapply safe_plan].
      * intros Ha. eapply plan_ok_plan; [..|by apply Hok]; done.
      * rewrite Hl. unfold layout_at. apply plan_places in Hp as (-> & -> & _). done.
    + split_and!; [done|done|done|done| |done]. rewrite Hl. unfold layout_at. rewrite (cancellable_early _ Hc). by apply plan_places in Hp as (-> & _).
    + split_and!; [done|done| |done| |done].
      * intros _. eapply plan_ok_plan; [..|by apply Hok]; done.
      * rewrite Hl. unfold layout_at. cbn. by apply plan_places in Hp as (-> & _).
  - destruct Hst as [Hst|Hst]; rewrite Hst; by split_and!.
Qed.

Lemma at_ends st j w : fits st j -> at_ st j (fun d => safe st j d /\ X d) w -> ends w.
Proof. intros [_ Hok]. by apply at_ends_plan. Qed.

Lemma at_ends_weaken st j (D : disk -> Prop) w : fits st j -> (forall d, D d -> safe st j d /\ X d) -> at_ st j D w -> ends w.
Proof. intros Hf HD Hw. eapply at_ends; [exact Hf|]. by eapply at_mono. Qed.

#[local] Abbreviation running := (running name).
#[local] Abbreviation holding st j := (at_ st j (fun d => safe st j d /\ X d)).

(** A step that keeps its assertion, as a triple. *)
Lemma stays_triple {A} st j D (m : io A) (I : A -> Prop) : fits st j -> (forall d, D d -> safe st j d /\ X d) -> stays (at_ st j D) m I ->
  triple (at_ st j D) m (fun a w => at_ st j D w /\ I a) ends.
Proof. intros Hf HD Hm. eapply t_conseq; [exact Hm|done|done|]. intros w. by apply at_ends_weaken. Qed.

Lemma t_pure {A} (P : world -> Prop) (I : Prop) (m : io A) Q E : (I -> triple P m Q E) -> triple (fun w => P w /\ I) m Q E.
Proof. intros Hm w [Hw HI]. by apply Hm. Qed.

(** A step to another stage, and what comes after it. *)
Lemma t_next {A} st j D m v j' st' (k : RecoveryRecord -> io A) Q : fits st j -> running st j (v, j) -> fits st' j' -> kept name j' j' ->
  late st' = late st -> (forall d, D d -> safe st j d /\ X d) -> (forall d, D d -> safe st' j' d /\ X d) ->
  (forall v', running st' j' (v', j') -> triple (at_ st' j' D) (k v') Q ends) ->
  triple (at_ st j D) (bind (locationTransition m v j' st') k) Q ends.
Proof using codec.
  intros Hf (Hh & Hs & Hn & _) Hf' Hk Hl HD HD' Hnext. cbn in Hh, Hs, Hn. eapply t_bind.
  - eapply t_conseq; [apply (t_transition codec st j D m v j' st')|done|intros v' w Hw; exact Hw|]; [done|by apply Hn|done..| |].
    + destruct Hf as [Hp _], Hf' as [Hp' _]. rewrite <- Hp' in Hp. apply plan_places in Hp as (Hs1 & Ht1 & _). split; congruence.
    + intros w [Hw|Hw]; by eapply at_ends_weaken; [..|exact Hw].
  - intros v'. eapply t_conseq; [apply (t_pure (at_ st' j' D) (v' = at_new_stage v j' st'))|done|done|done]. intros ->. apply Hnext.
    do 4 (split; [done|]). exists j'. cbn. by rewrite codec.
Qed.

(** ** The journal after a step *)

Lemma running_self st jr vj : running st jr vj -> running st (snd vj) vj.
Proof.
  destruct vj as [v j]. intros (Hh & Hs & Hn & (Hp & Hm & Hc) & jd & Hj & Hpd & Hmd). cbn in *. do 3 (split; [done|]). split.
  - split_and!; [done..|]. apply plan_places in Hp as (Hsrc & _). unfold source_root in *. cbn. by rewrite Hsrc.
  - exists jd. cbn. by rewrite Hp, Hm.
Qed.

Lemma running_at st jr v j D w : running st jr (v, j) -> at_ st jr D w -> at_ st j D w.
Proof. intros (_ & _ & _ & (Hp & Hm & _) & _). by apply at_plan. Qed.

Lemma running_fits st jr v j : running st jr (v, j) -> fits st jr -> fits st j.
Proof.
  intros (_ & _ & _ & (Hp & Hm & _) & _) [Hp0 Hok]. cbn in *. split; [congruence|]. intros Ha. eapply plan_ok_plan; [..|by apply Hok]; done.
Qed.

Lemma running_method st jr v j : running st jr (v, j) -> j_Method j = j_Method jr.
Proof. by intros (_ & _ & _ & (_ & Hm & _) & _). Qed.

(** The journal and the record after a step at the stage [st]. *)
Definition after (st : string) (D : disk -> Prop) (method : string) (vj : RecoveryRecord * storageLocationJournal) (w : world) : Prop :=
  (at_ st (snd vj) D w /\ running st (snd vj) vj) /\ fits st (snd vj) /\ j_Method (snd vj) = method.

Lemma t_after {A} st D method vj (m : io A) Q E :
  (running st (snd vj) vj -> fits st (snd vj) -> j_Method (snd vj) = method -> triple (at_ st (snd vj) D) m Q E) -> triple (after st D method vj) m Q E.
Proof. intros Hm w [[Hw Hr] [Hf Hmeth]]. by apply Hm. Qed.

Lemma stays_after st jr D (m : io (RecoveryRecord * storageLocationJournal)) : fits st jr -> (forall d, D d -> safe st jr d /\ X d) ->
  stays (at_ st jr D) m (running st jr) -> triple (at_ st jr D) m (after st D (j_Method jr)) ends.
Proof.
  intros Hf HD Hm. eapply t_conseq; [by apply stays_triple|done| |done]. intros [v j] w [Hw Hr].
  split; [split; [by eapply running_at|by eapply running_self]|]. split; [by eapply running_fits|by eapply running_method].
Qed.

(** ** Copying *)

Definition source_kept (d : disk) : Prop := source_complete j0 d /\ X d.
Definition target_kept (d : disk) : Prop := target_complete j0 d /\ X d.

Lemma source_kept_closed : closed unstaged source_kept.
Proof using G X_copies. apply closed_and; [apply source_closed|done]. Qed.

Lemma copies_unstaged jr : plan jr = plan j0 -> copies_outside jr unstaged.
Proof.
  intros (_ & _ & Hst & _)%plan_places. split; rewrite Hst; [intros e _ Hn; apply Hn; left; by apply prefix_app_r|]. intros Hn. apply Hn. by right.
Qed.

Lemma source_safe st j d : fits st j -> late st = false -> source_kept d -> safe st j d /\ X d.
Proof.
  intros [Hp _] Hl [Hs HX]. split; [|done]. unfold safe. rewrite Hl. symmetry in Hp. pose proof (source_complete_plan _ _ _ Hp Hs). repeat case_match; auto.
Qed.

Lemma t_copy st m v j : fits st j -> late st = false -> running st j (v, j) ->
  triple (at_ st j source_kept) (copyLocation m v j) (after st source_kept (j_Method j)) ends.
Proof using codec G X_copies.
  intros Hf Hl Hr. apply stays_after; [done|intros d; by apply source_safe|].
  apply (s_copyLocation codec name st j unstaged); [apply source_kept_closed|apply copies_unstaged; apply Hf|done].
Qed.

(** ** Publishing *)

#[local] Abbreviation publishing := "publishing"%string.

Lemma move_staging_closed j d u d' : plan j = plan j0 -> MoveRootDirectoryNoReplace device (j_Staging j) (target_root j) d = Ok (u, d') -> keeps unstaged d d'.
Proof.
  intros (_ & _ & Hst & _)%plan_places Hm. rewrite Hst in Hm. eapply move_tree_keeps; [exact Hm|]. intros p Hp Hpre. apply Hp. by left.
Qed.

Lemma running_update st j v j' : running st j (v, j) -> kept name j j' -> running st j (v, j').
Proof. intros (Hh & Hs & [? ?] & _ & Hj) Hk. by split_and!. Qed.

Lemma s_complete_copies m v j : fits publishing j -> running publishing j (v, j) ->
  stays (at_ publishing j source_kept) (complete_copies m v j) (running publishing j).
Proof using codec G X_copies.
  intros Hf Hr. unfold complete_copies. destruct (negb _).
  - eapply s_bind; [apply (s_copyLocation codec name publishing j unstaged); [apply source_kept_closed|apply copies_unstaged; apply Hf|done]|].
    intros [v1 j1] Hr1. assert (running publishing j (v1, j1 <| j_CopiesComplete := true |>)) as Hr2 by exact Hr1.
    eapply s_bind; [by apply (s_transition codec name)|]. intros v2 Hr3. by apply s_ret.
  - do 2 (eapply s_bind; [apply s_look; [done|intros d; apply validate_copied_answers || apply validate_answers]|intros _ _]). by apply s_ret.
Qed.

Lemma s_already_published st jr D v j from : stays (at_ st jr D) (already_published v j from) (fun vj => vj = (v, j)).
Proof using codec.
  unfold already_published. eapply s_bind; [apply s_attempt, s_look; [done|auto with answers]|intros r Hr].
  destruct r as [n|e]; [by apply s_fail|]. destruct e; try (by apply s_fail).
  eapply s_bind; [by apply (s_validate_target codec)|intros _ _]. do 2 (eapply s_bind; [by apply s_external|intros _ _]). by apply s_ret.
Qed.

Lemma s_publish_copy fuel m v j : fits publishing j -> running publishing j (v, j) -> is_copy j = true ->
  stays (at_ publishing j source_kept) (publishLocation (S fuel) m v j) (running publishing j).
Proof using codec G X_copies.
  intros Hf Hr Hc. cbn [publishLocation]. rewrite Hc. cbv zeta. eapply s_bind; [apply s_attempt, s_look; [done|auto with answers]|intros r Hres].
  destruct r as [id|e].
  { destruct (negb _); [by apply s_fail|]. eapply s_weaken; [apply s_already_published|]. by intros vj ->. }
  destruct e; try (by apply s_fail).
  eapply s_bind; [by apply s_complete_copies|]. intros [v1 j1] Hr1. assert (is_copy j1 = true) as Hc1.
  { unfold is_copy in *. pose proof (running_method _ _ _ _ Hr1) as Hm1. by rewrite Hm1. }
  assert (is_rename j1 = false) as Hr1n by (unfold is_copy, is_rename in *; apply String.eqb_eq in Hc1; by rewrite Hc1). rewrite Hr1n, Hc1.
  eapply (s_bind _ _ _ (fun _ => True)); [by apply s_ret|intros _ _]. eapply s_bind; [apply s_look; [done|auto with answers]|intros id _].
  destruct (negb _); [by apply s_fail|]. eapply s_bind; [apply (s_directories codec publishing j unstaged), source_kept_closed|intros _ _].
  eapply s_bind; [apply s_attempt, (s_change codec publishing j unstaged); [apply source_kept_closed|auto with answers|]|].
  - intros d u d' Hm. pose proof (running_fits _ _ _ _ Hr1 Hf) as [Hp1 _]. destruct Hf as [Hp _].
    assert (target_root j1 = target_root j) as Ht by (rewrite <- Hp in Hp1; apply plan_places in Hp1 as (_ & Ht & _); unfold target_root; by rewrite Ht).
    rewrite Ht in Hm. exact (move_staging_closed _ _ _ _ Hp Hm).
  - intros moved Hmoved. destruct moved as [u|e]; [eapply s_bind; [by apply s_external|intros _ _]; by apply s_ret|].
    destruct e; by apply s_fail.
Qed.

(** The source's tree, renamed: it is complete under one of the names. *)
Lemma renamed_complete j d u d' : fits publishing j -> is_rename j = true -> source_kept d ->
  MoveRootDirectoryNoReplace device (source_root j) (target_root j) d = Ok (u, d') -> target_kept d'.
Proof using G X_rename.
  intros [Hp Hok] Hr [Hs HX] Hm. apply plan_places in Hp as Hpl. destruct Hpl as (Hsrc & Htgt & _). unfold source_root, target_root in Hm.
  rewrite Hsrc, Htgt in Hm. split; [|by eapply X_rename]. intros e He. destruct (Hs e He) as (n & Hn & Hc). exists n. split; [|done].
  assert (st_prefix (m_row (j_Source j0)) = l_Prefix (j_Target j0)) as Heq.
  { destruct (Hok eq_refl) as [Hc'|[_ Hc']]; [|by rewrite Hsrc, Htgt in Hc']. unfold is_copy, is_rename in *. split_bools. congruence. }
  rewrite (g_rename _ G Heq e He). by eapply move_tree_moves.
Qed.

Lemma target_safe st j d : fits st j -> late st = true \/ is_rename j = true /\ st = publishing -> target_kept d -> safe st j d /\ X d.
Proof.
  intros [Hp _] Hl [Ht HX]. split; [|done]. symmetry in Hp. pose proof (target_complete_plan _ _ _ Hp Ht) as Htj. unfold safe. destruct Hl as [->|[Hr ->]]; [done|]. assert (late publishing = false) as -> by done. cbn. auto.
Qed.

(** What the publication ends in: the journal may have switched to copies. *)
Definition published (vj : RecoveryRecord * storageLocationJournal) (w : world) : Prop :=
  (holding publishing (snd vj) w /\ running publishing (snd vj) vj) /\ fits publishing (snd vj).

Lemma holding_source st j w : fits st j -> late st = false -> at_ st j source_kept w -> holding st j w.
Proof. intros Hf Hl. apply at_mono. intros d. by apply source_safe. Qed.

Lemma t_publish_copy fuel m v j : fits publishing j -> running publishing j (v, j) -> is_copy j = true ->
  triple (at_ publishing j source_kept) (publishLocation (S fuel) m v j) published ends.
Proof using codec G X_copies.
  intros Hf Hr Hc. eapply t_conseq; [apply stays_after; [done|intros d; by apply source_safe|by apply s_publish_copy]|done| |done].
  intros vj w [[Hw Hr'] [Hf' _]]. split; [split; [by apply holding_source|done]|done].
Qed.

Lemma validated_kept j d : fits publishing j -> X d -> validateStorageTree d (source_root j) (j_SourceTree j) = Ok tt -> source_kept d.
Proof using G.
  intros [Hp _] HX Hv. apply plan_places in Hp as (Hsrc & _ & _ & Htr & _). unfold source_root in Hv. rewrite Hsrc, Htr in Hv. split; [|done]. by apply validated_source.
Qed.

Lemma switched_fits j : fits publishing j -> fits publishing (j <| j_Method := "copy"%string |>).
Proof. intros [Hp _]. split; [done|]. intros _. by left. Qed.

Lemma kept_switched st j v : running st j (v, j) -> kept name (j <| j_Method := "copy"%string |>) (j <| j_Method := "copy"%string |>).
Proof. by intros (_ & _ & _ & (_ & _ & Hc) & _). Qed.

Lemma t_publish_rename m v j : fits publishing j -> running publishing j (v, j) -> is_rename j = true ->
  triple (holding publishing j) (publishLocation 2 m v j) published ends.
Proof using codec G X_copies X_rename.
  intros Hf Hr Hn. assert (is_copy j = false) as Hc by (unfold is_copy, is_rename in *; apply String.eqb_eq in Hn; by rewrite Hn).
  assert (forall w, holding publishing j w -> ends w) as Hends by (intros w; by apply at_ends).
  cbn [publishLocation]. rewrite Hc. cbv zeta. eapply t_bind; [apply t_attempt, (t_look codec publishing j); auto with answers|]. cbv beta. intros [id|e].
  - assert (forall w, at_ publishing j (fun d => (safe publishing j d /\ X d) /\ directoryIdentity d (target_root j) = Ok id) w -> holding publishing j w) as Hw
      by (intros w; apply at_mono; by intros d [? _]).
    destruct (negb _); [apply t_fail; [done|auto]|].
    eapply t_conseq; [apply (s_already_published publishing j (fun d => safe publishing j d /\ X d))|done| |done].
    intros vj w [Hw' ->]. by split; [split|].
  - apply t_error. intros He. destruct e; try done; try (by apply t_fail). eapply t_bind with (R := fun vj w => holding publishing j w /\ vj = (v, j)); [by apply t_ret|].
    intros vj. apply t_pure. intros ->. rewrite Hn, Hc.
    eapply t_bind; [eapply t_conseq; [apply (t_look codec publishing j); auto with answers|done|intros u w Hw; exact Hw|exact Hends]|]. cbv beta. intros [].
    apply t_conseq with (P' := at_ publishing j source_kept) (Q' := published) (E' := ends); [|intros w; apply at_mono; intros d [[_ HX] Hv]; by eapply validated_kept|done|done].
    assert (forall w, at_ publishing j source_kept w -> ends w) as Hends' by (intros w Hw; apply Hends; by apply holding_source).
    eapply t_bind; [eapply t_conseq; [apply (s_look codec publishing j source_kept); auto with answers|done|intros id w Hw; exact Hw|exact Hends']|]. intros id. apply t_pure. intros _.
    destruct (negb _); [by apply t_fail|].
    eapply t_bind; [eapply t_conseq; [apply (s_directories codec publishing j unstaged), source_kept_closed|done|intros u w Hw; exact Hw|exact Hends']|]. intros u. apply t_pure. intros _.
    eapply t_bind; [apply (t_change_exact codec publishing j source_kept (fun _ => target_kept) _ target_kept); [auto with answers|]|].
    { intros d u' d' Hd Hm. pose proof (renamed_complete _ _ _ _ Hf Hn Hd Hm). done. }
    intros moved. destruct moved as [u'|e].
    + eapply t_bind; [eapply t_conseq; [by apply t_external|done|intros a w Hw; exact Hw|]|].
      * intros w. apply at_ends_weaken; [done|]. intros d. apply target_safe; auto.
      * intros ?. apply t_ret. intros w Hw. split; [split; [|done]|done]. eapply at_mono; [|exact Hw]. intros d. apply target_safe; auto.
    + eapply t_conseq with (P' := fun w => (e = ErrFault /\ at_ publishing j target_kept w \/ at_ publishing j source_kept w) /\ e <> OutOfFuel)
        (Q' := published) (E' := ends); [|by intros w [? ?]|done|done].
      assert (forall w, e = ErrFault /\ at_ publishing j target_kept w \/ at_ publishing j source_kept w -> ends w) as He'.
      { intros w [[_ Hw]|Hw]; [|by apply Hends']. eapply at_ends_weaken; [exact Hf| |exact Hw]. intros d. apply target_safe; auto. }
      apply t_error. intros Hfuel. destruct e; try (by apply t_fail).
      eapply t_conseq with (P' := at_ publishing j source_kept) (Q' := published) (E' := ends); [|by intros w [[? _]|?]|done|done].
      pose proof (switched_fits j Hf) as Hf1. apply (t_next publishing j source_kept); [done..| | | | |].
      * by eapply kept_switched.
      * done.
      * intros d. by apply source_safe.
      * intros d. by apply source_safe.
      * intros v1 Hr1. exact (t_publish_copy 0 m v1 _ Hf1 Hr1 eq_refl).
Qed.

Lemma holding_copy st j d : fits st j -> st = "copying"%string \/ (st = publishing \/ st = "published"%string) /\ is_rename j = false ->
  safe st j d /\ X d -> source_kept d.
Proof.
  intros [Hp _] Hst [Hs HX]. split; [|done]. apply (source_complete_plan _ _ _ Hp). revert Hs. unfold safe.
  destruct Hst as [->|[[-> | ->] Hr]]; cbn; [done|..]; rewrite Hr; by intros [?|[? _]].
Qed.

Lemma t_publish m v j : fits publishing j -> running publishing j (v, j) -> triple (holding publishing j) (publishLocation 2 m v j) published ends.
Proof using codec G X_copies X_rename.
  intros Hf Hr. destruct (is_rename j) eqn:Hn; [by apply t_publish_rename|]. destruct (proj2 Hf eq_refl) as [Hc|[? _]]; [|congruence].
  eapply t_conseq; [by apply (t_publish_copy 1)| |done|done]. intros w. apply at_mono. intros d. by apply holding_copy; auto.
Qed.

(** ** Preparing *)

(** The record has reached [st]. *)
Definition reached (st : string) (D : disk -> Prop) (vj : RecoveryRecord * storageLocationJournal) (w : world) : Prop :=
  (at_ st (snd vj) D w /\ running st (snd vj) vj) /\ fits st (snd vj).

Lemma t_reached {A} st D vj (m : io A) Q E : (running st (snd vj) vj -> fits st (snd vj) -> triple (at_ st (snd vj) D) m Q E) -> triple (reached st D vj) m Q E.
Proof. intros Hm w [[Hw Hr] Hf]. by apply Hm. Qed.

Lemma occupied_answers d p : answers (namedPathOccupied d p).
Proof. unfold namedPathOccupied. by destruct (_ !! _) as [[]|]. Qed.

Lemma s_flush_source st jr D j : stays (at_ st jr D) (flush_source j) (fun _ => True).
Proof using codec.
  unfold flush_source. eapply s_bind; [apply (s_for_each _ _ (fun _ => True)); [intros; by apply s_external|done]|intros _ _].
  eapply s_bind; [apply (s_for_each _ _ (fun _ => True)); [|done]|intros _ _; by apply s_external].
  intros e u _ _. destruct (te_Directory e); [by apply s_external|by apply s_ret].
Qed.

Lemma running_kept_self st j v : running st j (v, j) -> kept name j j.
Proof. by intros (_ & _ & _ & Hk & _). Qed.

Lemma fits_active st st' j : fits st j -> active st = true -> fits st' j.
Proof. intros [Hp Hok] Ha. split; [done|]. intros _. by apply Hok. Qed.

Lemma t_to_stage st' m v j : fits "prepared" j -> running "prepared" j (v, j) -> late st' = false ->
  triple (at_ "prepared" j source_kept) (bind (locationTransition m v j st') (fun v => ret (v, j))) (fun vj w => reached st' source_kept vj w /\ snd vj = j) ends.
Proof using codec.
  intros Hf Hr Hl. assert (fits st' j) as Hf' by (by eapply fits_active). apply (t_next "prepared" j source_kept); [done..| | | | |].
  - by eapply running_kept_self.
  - done.
  - intros d. by apply source_safe.
  - intros d. by apply source_safe.
  - intros v' Hr'. by apply t_ret.
Qed.

Lemma t_prepare m v j : fits "prepared" j -> running "prepared" j (v, j) ->
  triple (holding "prepared" j) (prepare_move m v j) (fun vj w => reached "copying" source_kept vj w \/ reached publishing source_kept vj w) ends.
Proof using codec G.
  intros Hf Hr. assert (forall w, at_ "prepared" j source_kept w -> ends w) as Hends by (intros w; apply at_ends_weaken; [done|]; intros d; by apply source_safe).
  unfold prepare_move. eapply t_bind; [eapply t_conseq; [apply (t_look codec "prepared" j); auto with answers|done|intros u w Hw; exact Hw|intros w; by apply at_ends]|].
  cbv beta. intros []. apply t_conseq with (P' := at_ "prepared" j source_kept)
    (Q' := fun vj w => reached "copying" source_kept vj w \/ reached publishing source_kept vj w) (E' := ends); [| |done|done].
  2: { intros w. apply at_mono. intros d [[_ HX] Hv]. eapply validated_kept; [by eapply fits_active|done|done]. }
  eapply t_bind; [eapply t_conseq; [apply (s_look codec "prepared" j source_kept), (fun d => occupied_answers d (target_root j))|done|intros o w Hw; exact Hw|done]|].
  intros occ. apply t_pure. intros _. destruct occ; [by apply t_fail|]. destruct (is_rename j).
  - eapply t_bind; [eapply t_conseq; [apply s_flush_source|done|intros u w Hw; exact Hw|done]|]. intros u. apply t_pure. intros _.
    eapply t_conseq; [by apply t_to_stage|done| |done]. intros vj w [? _]. by right.
  - eapply t_conseq; [by apply t_to_stage|done| |done]. intros vj w [? _]. by left.
Qed.

(** ** Committing *)

Lemma t_validate_target st j (D : disk -> Prop) : fits st j -> active st = true -> (forall d, D d -> X d) ->
  triple (at_ st j D) (validateLocationTarget j) (fun _ => at_ st j (fun d => D d /\ target_kept d)) (at_ st j D).
Proof using codec G.
  intros [Hp Hok] Ha HD. assert (geometry j) as Gj by (eapply geometry_plan; [symmetry; exact Hp|exact G]). specialize (Hok Ha).
  assert (forall d, target_complete j d -> X d -> target_kept d) as Hkept by (intros d Ht HX; split; [|done]; by eapply target_complete_plan).
  unfold validateLocationTarget. destruct (is_rename j) eqn:Hr.
  - eapply t_conseq; [apply (t_look codec st j D); auto with answers|done| |done]. intros [] w. apply at_mono. intros d [Hd Hv]. split; [done|]. apply Hkept; [|by apply HD].
    by apply validated_renamed.
  - eapply t_bind; [eapply t_conseq; [apply (s_look codec st j D); auto with answers|done|intros id w Hw; exact Hw|done]|]. intros id. apply t_pure. intros _.
    destruct (negb _); [by apply t_fail|].
    eapply t_conseq; [apply (t_look codec st j D), (fun d => validate_copied_answers d (target_root j) j)|done| |done]. intros [] w. apply at_mono. intros d [Hd Hv].
    split; [done|]. apply Hkept; [|by apply HD]. intros e He. by eapply validated_copy.
Qed.

Lemma t_commit_move v j : fits "published" j -> running "published" j (v, j) ->
  triple (holding "published" j) (commit_move v j) (fun mv => reached "committed" target_kept (snd mv, j)) ends.
Proof using codec G.
  intros Hf Hr. assert (fits "committed" j) as Hf' by (by eapply fits_active). destruct Hr as (Hh & Hs & Hn & Hk & jd & Hj & Hpd & Hmd). cbn in *.
  unfold commit_move. eapply t_bind.
  { eapply t_conseq; [apply (t_validate_target "published" j (fun d => safe "published" j d /\ X d))|done|intros u w Hw; exact Hw|intros w; by apply at_ends]; [done..|].
    by intros d [_ ?]. }
  assert (forall w, at_ "committed" j target_kept w -> ends w) as Hends by (intros w; apply at_ends_weaken; [done|]; intros d; apply target_safe; auto).
  assert (m_Hash (j_Source j) = hash) as Hsh by (destruct Hf as [Hp _]; apply plan_places in Hp as (-> & _); apply (g_hash _ G)).
  intros u. eapply t_bind; [eapply t_conseq; [eapply (t_commit codec "published" j _ _ (fun _ => at_ "committed" j target_kept))|done|intros a w Hw; exact Hw|]|].
  - intros w [] d' [Hc [_ Hd]] Ht. split; [|done]. by eapply current_commit.
  - intros w [Hw|[_ Hw]]; [|by apply Hends]. eapply at_ends_weaken; [exact Hf| |exact Hw]. by intros d [? _].
  - intros ?. eapply t_bind; [eapply t_conseq; [by apply t_external|done|intros ? w Hw; exact Hw|exact Hends]|]. intros ?.
    eapply t_bind; [eapply t_conseq; [apply (t_query codec "committed" j target_kept)|done|intros m w Hw; exact Hw|exact Hends]|].
    + intros d. by destruct (find_mapping d hash).
    + intros m. apply t_ret. intros w [Hw _]. split; [split; [done|]|done]. do 3 (split; [done|]). split; [done|]. by exists jd.
Qed.

(** ** Finishing *)

Lemma removals_unremoved jr : plan jr = plan j0 -> removals_outside name jr unremoved.
Proof.
  intros Hp. assert (source_root jr = source_root j0) as Hs by (apply plan_places in Hp as (Hs & _); unfold source_root; by rewrite Hs).
  unfold removals_outside, unremoved. rewrite Hs. split_and!.
  - intros e He Hn. apply Hn. left. destruct (planned_elem _ _ _ Hp He) as (e' & He' & [= <- _ _]). eauto.
  - intros Hn. apply Hn. right. by left.
  - intros r Hn. apply Hn. right; right; left. by apply prefix_app_r.
  - intros Hn. apply Hn. by right; right; right.
Qed.

Lemma t_finish m v j : fits "cleanup" j -> running "cleanup" j (v, j) -> triple (at_ "cleanup" j target_kept) (finish_move m v j) (fun _ => ends) ends.
Proof using codec G X_cleanup.
  intros Hf Hr. assert (forall st j w, fits st j -> late st = true -> at_ st j target_kept w -> ends w) as Hends.
  { intros st j' w Hf' Hl. apply at_ends_weaken; [done|]. intros d. apply target_safe; auto. }
  unfold finish_move. eapply t_bind.
  { apply stays_after; [done|intros d; apply target_safe; auto|].
    apply (s_cleanupLocation codec name j unremoved); [apply closed_and; [apply target_cleanup|done]|apply removals_unremoved, Hf|done]. }
  intros [v1 j1]. apply t_after. cbn [snd]. clear Hf Hr. intros Hr Hf _. assert (fits "completed" j1) as Hf' by (by eapply fits_active).
  eapply t_bind; [eapply t_conseq; [apply s_attempt, (s_look codec "cleanup" j1 target_kept); auto with answers|done|intros r w Hw; exact Hw|intros w; by apply Hends]|].
  intros found. apply t_pure. intros Hfound.
  eapply t_bind with (R := fun _ => at_ "cleanup" j1 target_kept).
  { destruct found as [n|e]; [by apply t_ret|]. destruct e; try done; try (apply t_fail; [done|intros w; by apply Hends]). by apply t_ret. }
  intros retained. destruct Hr as (Hh & Hs & Hn & Hk & jd & Hj & Hpd & Hmd). cbn in *.
  eapply t_bind; [eapply t_conseq; [apply (t_commit codec "cleanup" j1 target_kept _ (fun _ => at_ "completed" j1 target_kept))|done|intros a w Hw; exact Hw|]|].
  - intros w [] d' [Hc Hd] Ht. split; [|done]. eapply current_finish in Ht; [exact Ht|exact Hc|done|done|cbn; apply codec|done|done].
  - intros w [Hw|[_ Hw]]; by eapply Hends; [..|exact Hw].
  - intros ?. eapply t_bind; [eapply t_conseq; [by apply t_external|done|intros ? w Hw; exact Hw|intros w; by apply Hends]|]. intros ?.
    eapply t_conseq; [by apply t_external|done|intros ? w; by apply Hends|intros w; by apply Hends].
Qed.

(** ** Planning *)

Lemma s_existing_parent st jr D reversed : stays (at_ st jr D) (existing_parent reversed) (fun _ => True).
Proof using codec.
  induction reversed as [|x up IH]; cbn [existing_parent]; (eapply s_bind; [apply s_attempt, s_look; [done|auto with answers]|intros r Hr]);
    destruct r as [n|e]; try (by apply s_ret); destruct e; try (by apply s_fail). exact IH.
Qed.

Lemma t_plan m v j : fits "planning" j -> running "planning" j (v, j) -> st_prefix (m_row m) = st_prefix (m_row (j_Source j)) ->
  triple (holding "planning" j) (planLocation m v j) (fun _ => ends) ends.
Proof using codec.
  intros Hf Hr Hpre. destruct Hr as (Hh & Hs & [_ Hv] & _). cbn in Hh, Hs, Hv. assert (forall w, at_ "planning" j X w -> ends w) as Hends.
  { intros w. apply at_ends_weaken; [done|]. by intros d. }
  apply t_conseq with (P' := at_ "planning" j X) (Q' := fun _ => ends) (E' := ends); [|intros w; apply at_mono; by intros d [_ ?]|done|done].
  unfold planLocation. rewrite Hpre.
  eapply t_bind; [eapply t_conseq; [apply (s_look codec "planning" j X), (fun d => occupied_answers d (target_root j))|done|intros o w Hw; exact Hw|done]|].
  intros occ. apply t_pure. intros _. destruct occ; [by apply t_fail|].
  eapply t_bind; [eapply t_conseq; [apply (s_look codec "planning" j X); auto with answers|done|intros o w Hw; exact Hw|done]|]. intros tree. apply t_pure. intros _.
  eapply t_bind; [eapply t_conseq; [apply (s_existing_parent "planning" j X)|done|intros o w Hw; exact Hw|done]|]. intros above. apply t_pure. intros _.
  eapply t_bind; [eapply t_conseq; [by apply (s_external codec "planning" j X)|done|intros o w Hw; exact Hw|done]|]. intros ?. apply t_pure. intros _.
  cbv zeta. set (j1 := j <| j_SourceTree := tree |> <| j_FreeBytes := _ |> <| j_Entries := [] |> <| j_Directories := [] |> <| j_ExtraBytes := 0 |>
    <| j_RetainSource := false |> <| j_Method := _ |>).
  assert (plan_ok j1) as Hok1.
  { unfold plan_ok, is_copy, is_rename. subst j1. cbn. destruct (String.eqb_spec (st_prefix (m_row (j_Source j))) (l_Prefix (j_Target j))) as [Heq|]; [|by left].
    destruct (negb _); cbn; auto. }
  assert (same_places j j1) as Hsp by done. clearbody j1.
  eapply t_bind; [apply t_lift with (Q := fun j2 w => at_ "planning" j X w /\ plan_entries (clean_parts (st_root (m_row m))) (st_prefix (m_row (j_Source j))) j1 (tr_Entries tree) = Ok j2)|].
  - apply plan_entries_answers.
  - done.
  - done.
  - intros j2. apply t_pure. intros Hj2. apply plan_entries_spec in Hj2 as (Hsrc2 & Htgt2 & Hm2).
    eapply t_bind; [eapply t_conseq; [apply (t_transition codec "planning" j X m v j2 "planned")|done|intros v' w Hw; exact Hw|]|].
    + done.
    + done.
    + done.
    + done.
    + destruct Hsp as [Hs1 Ht1]. split; congruence.
    + intros w [Hw|Hw]; [by apply Hends|]. eapply (at_ends_plan "planned" j2); [|by eapply at_mono; [|exact Hw]].
      intros _. by eapply plan_ok_entries.
    + intros v'. apply t_ret. intros w [Hw _]. eapply (at_ends_plan "planned" j2); [|by eapply at_mono; [|exact Hw]]. intros _. by eapply plan_ok_entries.
Qed.

(** ** The loop *)

Lemma t_advance {A} st st' m v j (k : RecoveryRecord -> io A) : fits st j -> running st j (v, j) -> active st = true -> late st' = late st ->
  (forall d, safe st j d -> safe st' j d) -> (forall v', fits st' j -> running st' j (v', j) -> triple (holding st' j) (k v') (fun _ => ends) ends) ->
  triple (holding st j) (bind (locationTransition m v j st') k) (fun _ => ends) ends.
Proof using codec.
  intros Hf Hr Ha Hl Hs Hk. assert (fits st' j) as Hf' by (by eapply fits_active). apply (t_next st j (fun d => safe st j d /\ X d)); [done..| | | | |].
  - by eapply running_kept_self.
  - done.
  - done.
  - intros d [? ?]. auto.
  - intros v' Hr'. eapply t_conseq; [by apply Hk|intros w; apply at_mono; intros d [? ?]; auto|done|done].
Qed.

(** The iterations left from a stage. *)
Definition stage_left (st : string) : nat :=
  if (st =? "queued")%string then 8 else if (st =? "waiting_readers")%string then 7 else if (st =? "prepared")%string then 6
  else if (st =? "copying")%string then 5 else if (st =? "publishing")%string then 4 else if (st =? "published")%string then 3
  else if (st =? "committed")%string then 2 else 1.

Lemma t_externals st j {A} (m : io A) Q : fits st j -> triple (holding st j) m Q ends ->
  triple (holding st j) (bind external (fun _ => m)) Q ends.
Proof using codec.
  intros Hf Hm. eapply t_bind; [eapply t_conseq; [by apply t_external|done|intros ? w Hw; exact Hw|intros w; by apply at_ends]|]. done.
Qed.

Lemma t_execute fuel : forall st m v j, fits st j -> running st j (v, j) -> (st = "planning"%string -> st_prefix (m_row m) = st_prefix (m_row (j_Source j))) ->
  (stage_left st <= fuel)%nat -> triple (holding st j) (execute fuel m v j) (fun _ => ends) ends.
Proof using codec G X_copies X_cleanup X_rename.
  induction fuel as [|fuel IH]; intros st m v j Hf Hr Hpre Hfuel; [unfold stage_left in Hfuel; repeat case_match; lia|].
  cbn [execute]. assert (v_Stage v = st) as Hst by (by destruct Hr as (_ & ? & _)). rewrite Hst. clear Hst. unfold checkLocationVolumes.
  eapply t_bind with (R := fun _ => holding st j).
  { do 2 (apply t_externals; [done|]). eapply t_conseq; [by apply t_external|done|done|intros w; by apply at_ends]. }
  intros ?. apply t_externals; [done|]. destruct (String.eqb_spec st "planning") as [->|]; [apply t_plan; auto|].
  case_bool_decide as Hquiet; [apply t_ret; intros w; by apply at_ends|].
  destruct (String.eqb_spec st "queued") as [->|].
  { apply t_advance; try done. intros v' Hf' Hr'. apply IH; [done..|cbn in *; lia]. }
  destruct (String.eqb_spec st "waiting_readers") as [->|].
  { do 2 (apply t_externals; [done|]). apply t_advance; try done. intros v' Hf' Hr'. apply IH; [done..|cbn in *; lia]. }
  destruct (String.eqb_spec st "prepared") as [->|].
  { eapply t_bind; [by apply t_prepare|]. intros [v' j']. apply t_or; apply t_reached; intros Hr' Hf'; cbn [snd] in *;
      (eapply t_conseq; [apply IH; [exact Hf'|exact Hr'|done|cbn in *; lia]|intros w; by apply holding_source|done|done]). }
  destruct (String.eqb_spec st "copying") as [->|].
  { eapply t_conseq with (P' := at_ "copying" j source_kept) (Q' := fun _ => ends) (E' := ends); [|intros w; apply at_mono; intros d; apply holding_copy; auto|done|done].
    eapply t_bind; [by apply t_copy|]. intros [v' j']. apply t_after. cbn [snd]. intros Hr' Hf' _. set (j1 := j' <| j_CopiesComplete := true |>).
    assert (fits publishing j1) as Hf1 by (by eapply (fits_active "copying" publishing j1)).
    apply (t_next "copying" j' source_kept); [done..| | | | |]; [exact (running_kept_self _ _ _ Hr')|done|intros d; by apply source_safe..|].
    intros v2 Hr2. eapply t_conseq; [apply IH; [exact Hf1|exact Hr2|done|cbn in *; lia]|intros w; by apply holding_source|done|done]. }
  destruct (String.eqb_spec st "publishing") as [->|].
  { eapply t_bind; [by apply t_publish|]. intros [v' j']. apply (t_reached publishing (fun d => safe publishing j' d /\ X d) (v', j')). cbn [snd]. intros Hr' Hf'. apply t_advance; try done. intros v2 Hf2 Hr2. apply IH; [done..|cbn in *; lia]. }
  destruct (String.eqb_spec st "published") as [->|].
  { eapply t_bind; [by apply t_commit_move|]. intros [m' v']. apply t_reached. cbn [snd]. intros Hr' Hf'.
    eapply t_conseq; [apply IH; [exact Hf'|exact Hr'|done|cbn in *; lia]|intros w; apply at_mono; intros d; apply target_safe; auto|done|done]. }
  destruct (String.eqb_spec st "committed") as [->|].
  { apply t_advance; try done. intros v' Hf' Hr'. apply IH; [done..|cbn in *; lia]. }
  destruct (String.eqb_spec st "cleanup") as [->|].
  { eapply t_conseq; [by apply t_finish|intros w; apply at_mono|done|done]. intros d [Hs HX]. split; [|done]. eapply target_complete_plan; [apply Hf|exact Hs]. }
  apply t_fail; [done|]. intros w. by apply at_ends.
Qed.
End Run.
End Safety.
