(* ===== verification/MoveProperties.v ===== *)
(** * Theorems about moves

    The worker, the commands and the rest of the world as a transition system,
    and what holds in every state it reaches. *)

From stdpp Require Import base gmap list strings pretty countable.
From Stdlib Require Import ZArith Ascii Strings.Byte Lia.
From S2P Require Import Prelude Models Paths Layout FastResume Tables IntentStore StorageStore LibraryFrame.
From S2P Require Import RootedFiles RootedFrame StorageMove MoveDemo MoveLogic MoveFrame MoveGeometry MoveSafety.

#[local] Open Scope Z_scope.

Section Worker.
Context `{MoveEnv}.
Context (codec : forall j, json_unmarshal (json_marshal j) = Some j).
Context (fold_join : forall parts, inside parts -> fold (join_with slash parts) = join_with slash (map fold parts)).
Context (fold_plain : forall part, plain part -> plain (fold part)).

#[local] Abbreviation holds ver st j := (at_ (V := ver) st j (fun d => safe st j d)).

(** ** From the invariant to a running operation and back *)

Lemma invariant_at ver st j w : (active st = true -> plan_ok j) -> holds ver st j w -> invariant w.
Proof. intros Hok Hw. eapply (at_ends_plan (fun _ => True)); [exact Hok|]. eapply at_mono; [|exact Hw]. done. Qed.

Lemma invariant_running w v : invariant w -> Recovery (w_db w) hash = Some v -> rc_reason (v_row v) = "storage_move"%string -> exists j,
  v_Hash v = hash /\ json_unmarshal (rc_journal (v_row v)) = Some j /\ (active (v_Stage v) = true -> plan_ok j)
  /\ holds (rc_version (v_row v)) (v_Stage v) j w.
Proof.
  intros Hi Hv Hm. unfold Recovery in Hv. destruct (storage_recovery (w_db w) !! hash) as [r|] eqn:Hr; [|done]. injection Hv as <-. cbn in *.
  destruct (Hi r Hr Hm) as (j & s & Hj & Hin & Hok & Hs & Hl & Hsafe). exists j. split_and!; [done..|]. split; [|done]. left. exists r, j, s. split_and!; try done. by left.
Qed.

Lemma invariant_faults w faults : invariant w -> invariant (w <| w_faults := faults |>).
Proof. done. Qed.

(** The commands keep the invariant: they find the operation and move it a stage, or plan a new one. *)
Lemma with_operation_invariant w f : invariant w ->
  (forall m v j, Recovery (w_db w) hash = Some v -> holds (rc_version (v_row v)) (v_Stage v) j w -> v_Hash v = hash ->
     (active (v_Stage v) = true -> plan_ok j) -> invariant (w <| w_db := f m v j |>)) -> invariant (w <| w_db := with_operation (w_db w) f |>).
Proof.
  intros Hi Hf. unfold with_operation. destruct (Recovery (w_db w) hash) as [v|] eqn:Hv; [|exact Hi]. destruct (find_mapping (w_db w) hash) as [m|]; [|exact Hi].
  destruct (String.eqb_spec (rc_reason (v_row v)) "storage_move") as [Hm|]; [|exact Hi]. cbn [negb].
  destruct (invariant_running _ _ Hi Hv Hm) as (j & Hh & Hj & Hok & Hw). unfold decodeLocationJournal. rewrite Hj.
  destruct (validateLocationJournal v j); [|exact Hi]. by apply Hf.
Qed.

Lemma transition_invariant w m v j st' : v_Hash v = hash -> holds (rc_version (v_row v)) (v_Stage v) j w -> (active (v_Stage v) = true -> plan_ok j) ->
  late st' = late (v_Stage v) -> (active st' = true -> plan_ok j) -> (safe (v_Stage v) j (w_disk w) -> safe st' j (w_disk w)) ->
  invariant (w <| w_db := transition (w_db w) m v j st' |>).
Proof using codec.
  intros Hh [Hc Hs] Hok Hl Hok' Hs'. unfold transition. destruct (TransitionStorageOperation _ _ _ _) as [[[]|] d'] eqn:E; cbn [snd].
  - apply (invariant_at (rc_version (v_row v)) st' j); [done|]. split; [|by apply Hs']. cbn. eapply current_transition in E; [exact E|exact Hc|done|done|cbn; apply codec|done|done].
  - assert (d' = w_db w) as ->; [|by apply (invariant_at (rc_version (v_row v)) _ _ _ Hok)].
    unfold TransitionStorageOperation, atomically in E. destruct (checkStorageFence _ _ _); [|by injection E as _ <-].
    destruct (update_recovery _ _ _ (w_db w)) as [[n d1]|]; [|by injection E as _ <-]. destruct (negb _); [by injection E as _ <-|done].
Qed.

Lemma apply_invariant w : invariant w -> invariant (w <| w_db ::= apply_move |>).
Proof using codec.
  intros Hi. eapply (with_operation_invariant w); [done|]. intros m v j Hv Hw Hh Hok. destruct (_ && _) eqn:E; [|exact Hi].
  apply andb_true_iff in E as [Hst%String.eqb_eq _]. apply transition_invariant; rewrite ?Hst in *; done.
Qed.

Lemma retry_invariant w : invariant w -> invariant (w <| w_db ::= retry_storage |>).
Proof using codec.
  intros Hi. eapply (with_operation_invariant w); [done|]. intros m v j Hv Hw Hh Hok. destruct (_ || _); [exact Hi|].
  by apply (transition_invariant w m (no_error v) j).
Qed.

Lemma cancel_invariant w : invariant w -> invariant (w <| w_db ::= cancel_storage |>).
Proof using codec.
  intros Hi. eapply (with_operation_invariant w); [done|]. intros m v j Hv Hw Hh Hok. destruct (cancellable _) eqn:E; [|exact Hi].
  apply (transition_invariant w m (no_error v) j); try done. symmetry. by apply cancellable_early.
Qed.

Lemma plan_move_invariant w recordID ver target : invariant w -> invariant (w <| w_db ::= plan_move recordID ver target |>).
Proof using codec.
  intros Hi. change (invariant (w <| w_db := plan_move recordID ver target (w_db w) |>)).
  apply (plan_move_cases codec recordID ver target (w_db w) (fun d => invariant (w <| w_db := d |>))); [exact Hi|].
  intros new j s d' Hn Hd Hre Hst Hj Hs Hl Hin _ r Hr _. cbn in Hr. assert (r = new) as -> by congruence.
  exists j, s. rewrite Hst. cbn. rewrite Hd. by split_and!.
Qed.

Lemma command_invariant w c : invariant w -> invariant (w <| w_db ::= storage_command c |>).
Proof using codec.
  destruct c; cbn [storage_command]; [apply plan_move_invariant|apply apply_invariant|apply retry_invariant|apply cancel_invariant|done].
Qed.

(** ** The worker *)

Lemma t_invariant_query {A} (f : db -> result MoveError A) : (forall d, answers (f d)) ->
  triple invariant (query f) (fun a w => invariant w /\ f (w_db w) = Ok a) invariant.
Proof using codec.
  intros Ha. apply t_primitive; [apply invariant_faults|apply command_invariant| |done|].
  - intros w a w' Hw Ho. destruct (f (w_db w)) as [b|] eqn:E; [|done]. by injection Ho as <- <-.
  - intros w. apply answers_bind; [apply Ha|done].
Qed.

Lemma t_invariant_external : triple invariant external (fun _ => invariant) invariant.
Proof using codec. apply t_primitive; [apply invariant_faults|apply command_invariant| |done|done]. by intros w a w' ? [= <- <-]. Qed.

Lemma t_failure m v j cause : v_Hash v = hash -> json_unmarshal (rc_journal (v_row v)) = Some j -> (active (v_Stage v) = true -> plan_ok j) ->
  triple (holds (rc_version (v_row v)) (v_Stage v) j) (locationFailure m v cause) (fun _ => invariant) invariant.
Proof using codec.
  intros Hh Hj Hok. set (ver := rc_version (v_row v) : Version).
  assert (forall w, holds ver (v_Stage v) j w -> invariant w) as Hi by (intros w; by apply invariant_at). unfold locationFailure.
  eapply t_bind; [eapply t_conseq; [apply (t_query codec (v_Stage v) j (fun d => safe (v_Stage v) j d)); intros d; by destruct (find_mapping d hash)|done|intros ? w Hw; exact Hw|done]|].
  intros cur. apply t_pure. intros _. destruct (negb _); [by apply t_ret|].
  eapply t_bind; [eapply t_conseq; [apply (t_commit codec (v_Stage v) j (fun d => safe (v_Stage v) j d) _ (fun _ => holds ver (v_Stage v) j))|done|intros a w Hw; exact Hw|]|].
  - intros w [] d' [Hc Hd] Ht. split; [|done]. eapply current_transition in Ht; [exact Ht|exact Hc|done|done|done|done|done].
  - intros w [Hw|[_ Hw]]; by apply Hi.
  - intros ?. eapply t_conseq; [by apply t_external|done|intros ? w; by apply Hi|exact Hi].
Qed.

Lemma s_retained ver root j jn : stays (holds ver "cancel_requested" j) (retained_paths root jn) (fun _ => True).
Proof using codec. unfold retained_paths. destruct root; [|by apply s_ret]. stay; done. Qed.

Lemma t_finish_cancel root m v j jn : v_Hash v = hash -> json_unmarshal (rc_journal (v_row v)) = Some j -> v_Stage v = "cancel_requested"%string ->
  triple (holds (rc_version (v_row v)) (v_Stage v) j) (finishLocationCancel root m v jn) (fun _ => invariant) invariant.
Proof using codec.
  intros Hh Hj Hst. rewrite Hst. set (ver := rc_version (v_row v) : Version).
  assert (forall w, holds ver "cancel_requested" j w -> invariant w) as Hi by (intros w; by apply invariant_at).
  assert (forall w, holds ver "cancelled" j w -> invariant w) as Hi' by (intros w; by apply invariant_at). unfold finishLocationCancel.
  eapply t_bind; [eapply t_conseq; [apply s_retained|done|intros ? w Hw; exact Hw|done]|]. intros retained. apply t_pure. intros _.
  eapply t_bind; [eapply t_conseq; [apply (t_commit codec "cancel_requested" j (fun d => safe "cancel_requested" j d) _ (fun _ => holds ver "cancelled" j))|done|intros ? w Hw; exact Hw|]|].
  - intros w [] d' [Hc Hd] Ht. split; [|done]. eapply current_finish in Ht; [exact Ht|exact Hc|done|done|done|done|done].
  - intros w [Hw|[_ Hw]]; [by apply Hi|by apply Hi'].
  - intros ?. eapply t_conseq; [by apply t_external|done|intros ? w; by apply Hi'|exact Hi'].
Qed.

Lemma decoded_geometry v j : v_Hash v = hash -> decodeLocationJournal v = Some j ->
  json_unmarshal (rc_journal (v_row v)) = Some j /\ geometry j /\ (j_CleanupPath j = [] \/ j_CleanupPath j = cleanup_path v j).
Proof using fold_join fold_plain.
  intros Hh Hj. unfold decodeLocationJournal in Hj. destruct (json_unmarshal _) as [jd|] eqn:Hd; [|done].
  destruct (validateLocationJournal v jd) eqn:Hv; [|done]. injection Hj as ->. split; [done|]. by apply validated_geometry.
Qed.

(** The work itself, from any record whose journal decodes; [X] as in the safety of a run. *)
Lemma t_executeLocation m v j (X : disk -> Prop) : v_Hash v = hash -> decodeLocationJournal v = Some j -> (active (v_Stage v) = true -> plan_ok j) ->
  locationMappingMatches m j (v_Stage v) = true -> closed (unstaged j) X -> closed (unremoved j (operation_name v)) X ->
  (forall d u d', X d -> MoveRootDirectoryNoReplace device (source_root j) (target_root j) d = Ok (u, d') -> X d') ->
  triple (at_ (V := rc_version (v_row v)) (v_Stage v) j (fun d => safe (v_Stage v) j d /\ X d)) (executeLocation m v j) (fun _ => ends X) (ends X).
Proof using codec fold_join fold_plain.
  intros Hh Hj Hok Hm X1 X2 X3. set (ver := rc_version (v_row v) : Version). destruct (decoded_geometry _ _ Hh Hj) as (Hd & G & Hc). unfold executeLocation.
  eapply t_bind; [eapply t_conseq; [by apply t_external|done|intros u w Hw; exact Hw|intros w; by apply at_ends_plan]|]. intros ?.
  apply (t_execute codec j (operation_name v)); [done..| | | |].
  - by split.
  - split_and!; [done..| |by exists j]. by split_and!.
  - intros Hst. unfold locationMappingMatches in Hm. rewrite Hst in Hm. apply andb_true_iff in Hm as [_ [_ Hl%bool_decide_eq_true]%andb_true_iff].
    by injection Hl.
  - unfold stage_left. repeat case_match; lia.
Qed.

(** A record just read is the one of the running operation. *)
Lemma t_record {A} v (m : io A) Q E : rc_reason (v_row v) = "storage_move"%string ->
  (forall j, v_Hash v = hash -> json_unmarshal (rc_journal (v_row v)) = Some j -> (active (v_Stage v) = true -> plan_ok j) ->
     triple (holds (rc_version (v_row v)) (v_Stage v) j) m Q E) ->
  triple (fun w => invariant w /\ (match Recovery (w_db w) hash with Some v => Ok v | None => Err ErrStorageConflict end) = Ok v) m Q E.
Proof.
  intros Hre Hm w [Hi Hv]. destruct (Recovery (w_db w) hash) as [v'|] eqn:Hr; [|done]. injection Hv as ->.
  destruct (invariant_running _ _ Hi Hr Hre) as (j & Hh & Hj & Hok & Hw). by apply (Hm j).
Qed.

Lemma t_settle root m v j outcome : rc_reason (v_row v) = "storage_move"%string ->
  triple invariant (settle root m v j outcome) (fun _ => invariant) invariant.
Proof using codec.
  intros Hre. unfold settle. eapply t_bind; [apply t_invariant_query; intros d; by destruct (Recovery d hash)|]. intros cur. cbv beta.
  destruct (negb _) eqn:Hs; [by apply t_ret; intros w []|]. apply negb_false_iff, andb_true_iff in Hs as [_ Hs%String.eqb_eq].
  apply t_record; [congruence|]. intros jc Hh Hj Hok. destruct (String.eqb_spec (v_Stage cur) "cancel_requested"); [by apply t_finish_cancel|].
  destruct outcome; [by apply t_ret; intros w; apply (invariant_at (rc_version (v_row cur)))|by apply t_failure].
Qed.

(** The call before the work whose error the worker looks at. *)
Lemma t_tried ver st j : triple (holds ver st j) (attempt external) (fun _ => holds ver st j) (holds ver st j).
Proof using codec. eapply t_conseq; [by apply t_attempt, t_external|done| |done]. by intros [|] w; [|intros []]. Qed.

Lemma t_processLocation : triple invariant processLocation (fun _ => invariant) invariant.
Proof using codec fold_join fold_plain.
  unfold processLocation. eapply t_bind; [apply t_invariant_external|]. intros ?. cbv beta.
  eapply t_bind; [apply t_invariant_query; intros d; by destruct (Recovery d hash)|]. intros v. cbv beta.
  destruct (negb _ || negb _) eqn:Hre; [by apply t_ret; intros w []|]. apply orb_false_iff in Hre as [Hre%negb_false_iff%String.eqb_eq _].
  apply t_record; [done|]. intros j Hh Hj Hok. set (ver := rc_version (v_row v) : Version).
  assert (forall w, holds ver (v_Stage v) j w -> invariant w) as Hi by (intros w; by apply invariant_at).
  eapply t_bind; [eapply t_conseq; [apply (t_query codec (v_Stage v) j (fun d => safe (v_Stage v) j d)); intros d; by destruct (find_mapping d hash)|done|intros ? w Hw; exact Hw|done]|].
  intros m. apply t_pure. intros _. eapply t_bind; [eapply t_conseq; [by apply t_external|done|intros ? w Hw; exact Hw|exact Hi]|]. intros ?.
  destruct (decodeLocationJournal v) as [j'|] eqn:Hd; [|by apply t_failure].
  assert (j' = j) as -> by (apply (decoded_geometry v j' Hh) in Hd as (Hd & _); congruence).
  destruct (locationMappingMatches m j (v_Stage v)) eqn:Hm; [|by apply t_failure]. cbn [negb].
  eapply t_bind; [eapply t_conseq; [apply (t_tried ver)|done|intros ? w Hw; exact Hw|exact Hi]|]. intros [?|cause]; [|by apply t_failure].
  eapply t_bind; [eapply t_conseq; [apply (t_tried ver)|done|intros ? w Hw; exact Hw|exact Hi]|]. intros opened.
  eapply t_bind; [|intros outcome; eapply t_conseq; [by apply t_settle|intros w Hw; exact Hw|done|done]].
  destruct opened as [?|cause]; [|by apply t_ret].
  eapply t_conseq with (P' := holds ver (v_Stage v) j) (E' := invariant); [apply t_attempt with (E := invariant) (Q := fun _ => invariant)|done|by intros [?|?] w; [|intros []]|done].
  eapply t_bind; [eapply t_conseq; [by apply t_volumes|done|intros ? w Hw; exact Hw|exact Hi]|]. intros ?.
  eapply t_conseq; [apply (t_executeLocation m v j (fun _ => True)); done| |by intros ? w []|by intros w []].
  intros w. by apply at_mono.
Qed.

(** ** The system *)

(** Before the operation touches the files, or after it was cancelled. *)
Definition untouched_stage (st : string) : bool := negb (late st) && negb (bool_decide (st ∈ ["copying"; "publishing"; "published"]%string)).

(** The commands run at every call of the worker and between its runs; between the runs, the files may change while no move works on them, and the
    rest of the database may change always. *)
Inductive move_step (w : world) : world -> Prop :=
| step_process faults : move_step w (snd (processLocation (w <| w_faults := faults |>)))
| step_command c : move_step w (w <| w_db ::= storage_command c |>)
| step_files d :
    (forall r, storage_recovery (w_db w) !! hash = Some r -> rc_reason r = "storage_move"%string -> untouched_stage (rc_stage r) = true) ->
    move_step w (w <| w_disk := d |>)
| step_library d :
    storage_recovery d !! hash = storage_recovery (w_db w) !! hash -> torrent_storage d !! hash = torrent_storage (w_db w) !! hash ->
    move_step w (w <| w_db := d |>).

Lemma run_invariant w : invariant w -> invariant (snd (processLocation w)) /\ fst (processLocation w) <> Err OutOfFuel.
Proof using codec fold_join fold_plain.
  intros Hi. pose proof t_processLocation as Ht. specialize (Ht w Hi). destruct (processLocation w) as [[a|e] w']; cbn; [done|].
  destruct Ht as [Ht He]. split; [done|congruence].
Qed.

Lemma step_invariant w w' : move_step w w' -> invariant w -> invariant w'.
Proof using codec fold_join fold_plain.
  intros Hs Hi. destruct Hs as [faults|c|d Hu|d Hr Hs].
  - by apply run_invariant.
  - by apply command_invariant.
  - intros r Hr Hm. destruct (Hi r Hr Hm) as (j & s & Hj & Hin & Hok & Hst & Hl & _). exists j, s. split_and!; try done.
    specialize (Hu r Hr Hm). unfold untouched_stage in Hu. unfold safe. cbn [w_disk]. apply andb_true_iff in Hu as [->%negb_true_iff Hu%negb_true_iff%bool_decide_eq_false].
    destruct (String.eqb_spec (rc_stage r) "copying") as [E|]; [rewrite E in Hu; set_solver|].
    destruct (String.eqb_spec (rc_stage r) "publishing") as [E|]; [rewrite E in Hu; set_solver|].
    destruct (String.eqb_spec (rc_stage r) "published") as [E|]; [rewrite E in Hu; set_solver|done].
  - intros r Hr' Hm. cbn in Hr'. rewrite Hr in Hr'. destruct (Hi r Hr' Hm) as (j & s & ?). exists j, s. cbn. by rewrite Hs.
Qed.

Lemma reachable_invariant w0 w : (forall r, storage_recovery (w_db w0) !! hash = Some r -> rc_reason r <> "storage_move"%string) -> rtc move_step w0 w -> invariant w.
Proof using codec fold_join fold_plain.
  intros Hn Hr. assert (invariant w0) as Hi by (intros r Hr' Hm; by destruct (Hn r Hr')). clear Hn. induction Hr; eauto using step_invariant.
Qed.

(** C4: whatever the worker, the commands, faults and crashes do, the library never points at an incomplete
    tree: until a move commits, the mapping names the old layout, and once the worker has begun to copy or publish, every
    planned file is unchanged at the old place, or, for a rename, at the new one with the rename recorded as under way; from
    the commit on, the mapping names the new layout and every planned file is there with the content that was
    planned.  The worker's own recursion always ends within its bound. *)
Theorem move_never_loses_data w0 w : (forall r, storage_recovery (w_db w0) !! hash = Some r -> rc_reason r <> "storage_move"%string) -> rtc move_step w0 w ->
  (forall r, storage_recovery (w_db w) !! hash = Some r -> rc_reason r = "storage_move"%string -> exists j s,
     json_unmarshal (rc_journal r) = Some j /\ torrent_storage (w_db w) !! hash = Some s
     /\ mapping_layout (mkStorageMapping hash s) = (if late (rc_stage r) then j_Target j else mapping_layout (j_Source j))
     /\ (late (rc_stage r) = true -> target_complete j (w_disk w))
     /\ (rc_stage r = "copying"%string -> source_complete j (w_disk w))
     /\ (rc_stage r ∈ ["publishing"; "published"]%string -> source_complete j (w_disk w) \/ is_rename j = true /\ target_complete j (w_disk w)))
  /\ forall faults, fst (processLocation (w <| w_faults := faults |>)) <> Err OutOfFuel.
Proof using codec fold_join fold_plain.
  intros Hn Hr. pose proof (reachable_invariant _ _ Hn Hr) as Hi. split.
  - intros r Hrow Hm. destruct (Hi r Hrow Hm) as (j & s & Hj & _ & _ & Hs & Hl & Hsafe). exists j, s. split_and!; [done..| | |].
    + intros Hlate. unfold safe in Hsafe. by rewrite Hlate in Hsafe.
    + intros Hst. by rewrite Hst in Hsafe.
    + intros Hst. assert (rc_stage r = "publishing"%string \/ rc_stage r = "published"%string) as [E|E] by set_solver; by rewrite E in Hsafe.
  - intros faults. by apply run_invariant.
Qed.

(** ** Files that are not part of the plan *)

(** Every file of [d0] the operation does not own is where it was, or at the same place of a renamed tree. *)
Definition spared (j : storageLocationJournal) (name : string) (d0 d : disk) : Prop := forall p n,
  d_nodes d0 !! p = Some n -> is_regular n -> ~ staging_area j p -> ~ removal j name p ->
  d_nodes d !! p = Some n \/ exists r, p = (source_root j ++ r)%list /\ d_nodes d !! (target_root j ++ r)%list = Some n.

Lemma spared_copies j name d0 : geometry j -> closed (unstaged j) (spared j name d0).
Proof.
  intros G d d' Hd Hk p n Hp Hn Hs Hr. destruct (Hd p n Hp Hn Hs Hr) as [E|(r & -> & E)]; [left; by apply Hk|right].
  exists r. split; [done|]. apply Hk; [|done..]. apply (g_target _ G). by apply prefix_app_r.
Qed.

Lemma spared_cleanup j name d0 : geometry j -> closed (unremoved j name) (spared j name d0).
Proof.
  intros G d d' Hd Hk p n Hp Hn Hs Hr. destruct (Hd p n Hp Hn Hs Hr) as [E|(r & -> & E)]; [left; by apply Hk|right].
  exists r. split; [done|]. apply Hk; [|done..]. intros Hr'%removal_below. apply (g_apart _ G _ Hr'). by apply prefix_app_r.
Qed.

Lemma spared_rename j name d0 d u d' : spared j name d0 d -> MoveRootDirectoryNoReplace device (source_root j) (target_root j) d = Ok (u, d') -> spared j name d0 d'.
Proof.
  intros Hd Hm p n Hp Hn Hs Hr. destruct (Hd p n Hp Hn Hs Hr) as [E|(r & -> & E)].
  - destruct (decide (source_root j `prefix_of` p)) as [[r ->]|Hout]; [right; exists r; split; [done|by eapply move_tree_moves]|left].
    eapply (move_tree_keeps (fun q => ~ source_root j `prefix_of` q)); [exact Hm|done..].
  - apply move_tree_spec in Hm as (Ha & _ & _). pose proof (proj1 (absent_spec d (target_root j)) Ha) as Habs. by rewrite Habs in E.
Qed.

(** C19: a run of a move, with any faults, leaves every file that is not its own alone: a regular file of the disk that is
    neither in the staging area nor one of the planned source files nor in the cleanup quarantine has the same content
    after the run, at its path, or, when the tree it lies in was renamed, at the corresponding path of the new
    root. *)
Theorem move_spares_other_files w0 w m v j p n :
  (forall r, storage_recovery (w_db w0) !! hash = Some r -> rc_reason r <> "storage_move"%string) -> rtc move_step w0 w ->
  Recovery (w_db w) hash = Some v -> rc_reason (v_row v) = "storage_move"%string -> decodeLocationJournal v = Some j ->
  locationMappingMatches m j (v_Stage v) = true ->
  d_nodes (w_disk w) !! p = Some n -> is_regular n -> ~ staging_area j p -> ~ removal j (operation_name v) p ->
  let d := w_disk (snd (executeLocation m v j w)) in
  d_nodes d !! p = Some n \/ exists r, p = (source_root j ++ r)%list /\ d_nodes d !! (target_root j ++ r)%list = Some n.
Proof using codec fold_join fold_plain.
  intros Hn Hr Hv Hre Hj Hm Hp Hreg Hs Hrm. pose proof (reachable_invariant _ _ Hn Hr) as Hi.
  destruct (invariant_running _ _ Hi Hv Hre) as (jd & Hh & Hjd & Hok & Hw). destruct (decoded_geometry _ _ Hh Hj) as (Hj' & G & _). assert (jd = j) as -> by congruence.
  pose proof (t_executeLocation m v j (spared j (operation_name v) (w_disk w)) Hh Hj Hok Hm (spared_copies _ _ _ G) (spared_cleanup _ _ _ G)
    (fun d u d' => spared_rename j _ _ d u d')) as Ht.
  assert (at_ (V := rc_version (v_row v)) (v_Stage v) j (fun d => safe (v_Stage v) j d /\ spared j (operation_name v) (w_disk w) d) w) as Hpre.
  { destruct Hw as [Hc Hd]. split; [done|]. split; [done|]. intros q k Hq _ _ _. by left. }
  specialize (Ht w Hpre). cbv zeta. destruct (executeLocation m v j w) as [[a|e] w']; [destruct Ht as [_ Ht]|destruct Ht as [[_ Ht] _]]; by apply Ht.
Qed.
End Worker.

(** ** A library in which a movie is moved *)

Section Demo.
Context (mounts : path -> Z).
#[local] Instance demo_env : MoveEnv := movie_env mounts.

Lemma demo_fold_join parts : inside parts -> fold (join_with slash parts) = join_with slash (map fold parts).
Proof. intros _. cbn. by rewrite map_id. Qed.

Lemma demo_fold_plain part : plain part -> plain (fold part).
Proof. done. Qed.

Lemma movie_fresh r : storage_recovery (w_db movie_world) !! movie_hash = Some r -> rc_reason r <> "storage_move"%string.
Proof. done. Qed.

Lemma accepted_reached : rtc move_step movie_world (accepted mounts).
Proof.
  unfold accepted, process. set (w := movie_world <| w_db := _ |>).
  apply rtc_l with w; [exact (step_command movie_world (PlanMove "record" 0 movie_target))|].
  apply rtc_l with (snd (processLocation (w <| w_faults := [] |>))); [exact (step_process w [])|].
  apply rtc_once. exact (step_command _ ApplyMove).
Qed.

Lemma moved_reached : rtc move_step movie_world (moved mounts).
Proof. apply rtc_r with (accepted mounts); [exact accepted_reached|exact (step_process _ [])]. Qed.
End Demo.

Definition summary (w : world) : option (string * string) := (fun r => (rc_reason r, rc_stage r)) <$> storage_recovery (w_db w) !! movie_hash.

Lemma moved_summary : summary (moved two_devices) = Some ("storage_move", "completed")%string.
Proof. vm_compute. reflexivity. Qed.

Lemma move_never_loses_data_witness : exists r j, storage_recovery (w_db (moved two_devices)) !! movie_hash = Some r
  /\ rc_stage r = "completed"%string /\ demo_unmarshal (rc_journal r) = Some j /\ target_complete j (w_disk (moved two_devices)).
Proof.
  pose proof moved_summary as Hm. unfold summary in Hm. apply fmap_Some in Hm as (r & Hr & [= Hre Hst]).
  destruct (@move_never_loses_data (movie_env two_devices) demo_codec (demo_fold_join _) (demo_fold_plain _) movie_world (moved two_devices)
    movie_fresh (moved_reached _)) as [H _].
  destruct (H r Hr (eq_sym Hre)) as (j & s & Hj & _ & _ & Hl & _). exists r, j. split; [exact Hr|]. split; [by rewrite Hst|]. split; [exact Hj|].
  apply Hl. by rewrite <- Hst.
Defined.

(** The operation of the movie in a database. *)
Definition operation (mounts : path -> Z) (d : db) : option (StorageMapping * RecoveryRecord * storageLocationJournal) :=
  match find_mapping d movie_hash, Recovery d movie_hash with
  | Some m, Some v => match @decodeLocationJournal (movie_env mounts) v with Some j => Some (m, v, j) | None => None end
  | _, _ => None
  end.

Lemma operation_spec mounts d m v j : operation mounts d = Some (m, v, j) ->
  Recovery d movie_hash = Some v /\ @decodeLocationJournal (movie_env mounts) v = Some j.
Proof.
  unfold operation. destruct (find_mapping d movie_hash); [|done]. destruct (Recovery d movie_hash) as [v'|]; [|done].
  destruct (@decodeLocationJournal (movie_env mounts) v') as [j'|] eqn:Hj; [|done]. by intros [= _ <- <-].
Qed.

Lemma waiting_journal : match operation one_device (w_db (accepted one_device)) with
  | Some (m, v, j) => rc_reason (v_row v) = "storage_move" /\ j_Staging j = [".tsh-recovery"; "moves"; "storage"; "record-1"]
      /\ source_root j = ["payload"; movie_hash] /\ locationMappingMatches m j (v_Stage v) = true
  | None => False
  end%string.
Proof. vm_compute. repeat split. Qed.

Lemma move_spares_other_files_witness : exists m v j, operation one_device (w_db (accepted one_device)) = Some (m, v, j)
  /\ d_nodes (w_disk (snd (@executeLocation (movie_env one_device) m v j (accepted one_device)))) !! ["notes.txt"%string] = Some (Regular 8 [x03] 9).
Proof.
  pose proof waiting_journal as H. destruct (operation one_device (w_db (accepted one_device))) as [[[m v] j]|] eqn:Hw; [|destruct H]. destruct H as (Hre & Hst & Hsrc & Hm).
  exists m, v, j. split; [reflexivity|].
  apply operation_spec in Hw as [Hv Hj].
  destruct (@move_spares_other_files (movie_env one_device) demo_codec (demo_fold_join _) (demo_fold_plain _) movie_world (accepted one_device) m v j
    ["notes.txt"%string] (Regular 8 [x03] 9) movie_fresh (accepted_reached _) Hv Hre Hj Hm) as [H|(r & Hr & _)].
  - vm_compute. reflexivity.
  - done.
  - intros [[k Hk]|Hk]; rewrite Hst in Hk; discriminate Hk.
  - intros [k Hk]%removal_below. rewrite Hsrc in Hk. discriminate Hk.
  - exact H.
  - rewrite Hsrc in Hr. discriminate Hr.
Defined.

(** ** A plan that cannot be left *)

(** The movie with one more file, whose name contains a backslash. *)
Definition backslash_world : world :=
  movie_world <| w_disk := movie_disk <| d_nodes ::= <[["payload"; movie_hash; "a\b.srt"]%string := Regular 7 [x04] 11]> |> |>.

Definition backslash_planned : world :=
  process one_device (backslash_world <| w_db := @plan_move (movie_env one_device) "record" 0 movie_target (w_db backslash_world) |>).

(** The worker plans the move and stores a journal that the commands refuse: the move stays planned, and it
    can be neither applied nor cancelled. *)
Example backslash_plan_is_stuck :
  summary backslash_planned = Some ("storage_move", "planned")%string
  /\ summary (backslash_planned <| w_db ::= @apply_move (movie_env one_device) |>) = Some ("storage_move", "planned")%string
  /\ summary (backslash_planned <| w_db ::= @cancel_storage (movie_env one_device) |>) = Some ("storage_move", "planned")%string.
Proof. split_and!; vm_compute; reflexivity. Qed.
