(* ===== verification/Transfers.v ===== *)
(** * Transfer leases and temporary torrents

    [internal/usecase/temporary.go] and [internal/engine/transfer_budget.go]: the
    leases of running transfers, which keep the payload of a torrent from being
    deleted, the debounce after playback, the budget of HTTP transfers, and the
    cleanup that deletes the oldest temporary torrents beyond a limit.  With them
    the test that the deletion commands of [torrent_uc.go] and
    [deletion_recovery.go] make before they delete anything.

    A step is one critical section of [policyMu] or [storageTaskMu], one
    acquisition or release of a record's command lock, one read of the library or
    one transaction.  Time is a number of nanoseconds that only grows. *)

From stdpp Require Import base gmap list strings.
From Stdlib Require Import ZArith Lia.
From S2P Require Import Prelude Models Paths Layout FastResume Tables IntentStore StorageStore.

#[local] Open Scope Z_scope.

(** ** The policy maps *)

Definition DebounceDelay : Z := 10 * 1000000000.

Record TransferPolicy := mkTransferPolicy {
  p_transfers : gmap string Z;
  p_protectedUntil : gmap string Z;
  p_transferRecords : gmap string string;
  p_maxTemporary : Z;
}.
#[export] Instance eta_TransferPolicy : Eta TransferPolicy := fun p =>
  mkTransferPolicy (p_transfers p) (p_protectedUntil p) (p_transferRecords p) (p_maxTemporary p).

Definition transferCount (p : TransferPolicy) (hash : string) : Z := default 0 (p_transfers p !! hash).
Definition lease_record (p : TransferPolicy) (hash : string) : string := default ""%string (p_transferRecords p !! hash).

(** The critical section of [acquireTransfer]. *)
Definition admit_transfer (hash record : string) (p : TransferPolicy) : TransferPolicy :=
  let p := if (lease_record p hash =? record)%string then p
           else p <| p_transfers ::= <[hash := 0]> |> <| p_protectedUntil ::= delete hash |> <| p_transferRecords ::= <[hash := record]> |> in
  p <| p_transfers ::= <[hash := transferCount p hash + 1]> |>.

(** The function [acquireTransfer] returns. *)
Definition release_transfer (hash record : string) (playback : bool) (now : Z) (p : TransferPolicy) : TransferPolicy :=
  if negb (lease_record p hash =? record)%string then p
  else
    let p := p <| p_transfers ::= <[hash := transferCount p hash - 1]> |> in
    let p := if playback then p <| p_protectedUntil ::= <[hash := now + DebounceDelay]> |> else p in
    if transferCount p hash =? 0 then p <| p_transfers ::= delete hash |> else p.

Definition SetTemporaryLimit (limit : Z) (p : TransferPolicy) : result string TransferPolicy :=
  if limit <? 1 then Err "max temporary torrents must be positive"%string else Ok (p <| p_maxTemporary := limit |>).

(** The loop over [protectedUntil] at the start of a cleanup. *)
Definition expired (now : Z) (p : TransferPolicy) (hash : string) : bool :=
  match p_protectedUntil p !! hash with Some until => until <? now | None => false end.

Definition expire_protection (now : Z) (p : TransferPolicy) : TransferPolicy :=
  p <| p_protectedUntil ::= filter (fun '(hash, _) => expired now p hash = false) |>
    <| p_transferRecords ::= filter (fun '(hash, _) => expired now p hash && (transferCount p hash =? 0) = false) |>.

(** After a cleanup has deleted the torrent. *)
Definition forget_transfers (hash : string) (p : TransferPolicy) : TransferPolicy :=
  p <| p_protectedUntil ::= delete hash |>
    <| p_transferRecords ::= if transferCount p hash =? 0 then delete hash else fun m => m |>.

(** [active] is the answer of [ActiveStreamsForTorrent]. *)
Definition transferProtected (p : TransferPolicy) (hash : string) (now active : Z) : bool :=
  (0 <? transferCount p hash) || match p_protectedUntil p !! hash with Some until => now <? until | None => false end || (0 <? active).

(** ** The library *)

(** [t.Control.RecordID] of the torrent, if it has a record. *)
Definition record_of (d : db) (hash : string) : option string :=
  match torrents d !! hash, torrent_intents d !! hash with Some _, Some i => Some (in_record_id i) | _, _ => None end.

(** The reads of [acquireTransfer]; [available] is the answer of [checkStorageAvailable]. *)
Definition leasable (d : db) (hash : string) (available : bool) : option string :=
  match torrents d !! hash, CleanupPaths d hash with
  | Some _, Ok (_, false) => if available then record_of d hash else None
  | _, _ => None
  end.

(** ** Tasks *)

Inductive task :=
| Entering (hash : string) (playback slot : bool)            (* the slot is reserved *)
| Reading (hash : string) (playback slot : bool)             (* holds the lock of the record *)
| Admitting (hash record : string) (playback slot : bool)    (* holds the lock, has read the record *)
| Leased (hash record : string) (playback slot : bool)       (* the caller has the release function *)
| Returning                                                  (* the lease is released, the slot is not *)
| Expired (limit : Z)                                        (* a cleanup that has expired old protections *)
| Sweeping (queue : list string) (limit : Z)
| Rereading (hash : string)                                  (* holds the lock *)
| Limiting (hash : string) (queue : list string)             (* holds the lock, has read the queue again *)
| Checking (hash : string) (rest : option (list string * Z))  (* a deletion that holds the lock; [rest] is the cleanup's queue and limit *)
| Erasing (hash : string) (rest : option (list string * Z))  (* the deletion works *)
| Forgetting (hash : string) (queue : list string) (limit : Z). (* the cleanup has deleted the torrent *)

(** The record lock a task holds. *)
Definition locks (t : task) : option string :=
  match t with
  | Reading h _ _ | Admitting h _ _ _ | Rereading h | Limiting h _ | Checking h _ | Erasing h _ | Forgetting h _ _ => Some h
  | _ => None
  end.

(** Whether the task owns a slot of the HTTP budget. *)
Definition slotted (t : task) : bool :=
  match t with
  | Entering _ _ slot | Reading _ _ slot | Admitting _ _ _ slot | Leased _ _ _ slot => slot
  | Returning => true
  | _ => false
  end.

Definition leases (hash record : string) (t : task) : bool :=
  match t with Leased h r _ _ => (h =? hash)%string && (r =? record)%string | _ => false end.

Record sys := mkSys {
  s_db : db;
  s_policy : TransferPolicy;
  s_now : Z;
  s_httpTransfers : Z;
  s_cleanupMu : bool;
  s_tasks : gmap nat task;
  (** Ghost state: the records each torrent has had, and when playback of a record last ended. *)
  s_records : string -> string -> Prop;
  s_played : string -> string -> Z -> Prop;
}.
#[export] Instance eta_sys : Eta sys := fun s =>
  mkSys (s_db s) (s_policy s) (s_now s) (s_httpTransfers s) (s_cleanupMu s) (s_tasks s) (s_records s) (s_played s).

Definition unlocked (s : sys) (hash : string) : Prop := forall n t, s_tasks s !! n = Some t -> locks t <> Some hash.

(** A caller that gets no lease gives its slot back. *)
Definition leave (n : nat) (slot : bool) (s : sys) : sys :=
  if slot then s <| s_tasks ::= <[n := Returning]> |> else s <| s_tasks ::= delete n |>.

(** The end of a deletion: of a command, or of the whole cleanup. *)
Definition end_deletion (n : nat) (cleanup : bool) (s : sys) : sys :=
  (if cleanup then s <| s_cleanupMu := false |> else s) <| s_tasks ::= delete n |>.

Definition of_cleanup {A} (rest : option A) : bool := bool_decide (is_Some rest).

Section System.
(** [cfg.MaxActiveStreams] *)
Context (MaxActiveStreams : Z).

(** [AcquireHTTPTransfer] of the engine. *)
Definition AcquireHTTPTransfer (head : bool) (count : Z) : result string (bool * Z) :=
  if head then Ok (false, count)
  else if count >=? MaxActiveStreams then Err "HTTP transfer limit reached"%string
  else Ok (true, count + 1).

(** What the other operations of the library may do: a record changes only under its command lock, and the identity of a new
    record is one the torrent has never had. *)
Definition library_change (s : sys) (d : db) : Prop := forall h,
  record_of d h = record_of (s_db s) h
  \/ unlocked s h /\ match record_of d h with None => True | Some r => r <> ""%string /\ ~ s_records s h r end.

Definition with_task (n : nat) (t : task) (s : sys) : sys := s <| s_tasks ::= <[n := t]> |>.

Inductive transfer_step (s : sys) : sys -> Prop :=
| step_time t : s_now s <= t -> transfer_step s (s <| s_now := t |>)
| step_other d : library_change s d ->
    transfer_step s (s <| s_db := d |> <| s_records := fun h r => s_records s h r \/ record_of d h = Some r |>)
| step_limit limit p : SetTemporaryLimit limit (s_policy s) = Ok p -> transfer_step s (s <| s_policy := p |>)
| step_acquire n hash : s_tasks s !! n = None -> transfer_step s (with_task n (Entering hash true false) s)
| step_acquire_http n hash head slot count : s_tasks s !! n = None -> AcquireHTTPTransfer head (s_httpTransfers s) = Ok (slot, count) ->
    transfer_step s (with_task n (Entering hash (negb head) slot) (s <| s_httpTransfers := count |>))
| step_lock n hash playback slot : s_tasks s !! n = Some (Entering hash playback slot) -> unlocked s hash ->
    transfer_step s (with_task n (Reading hash playback slot) s)
| step_no_lock n hash playback slot : s_tasks s !! n = Some (Entering hash playback slot) -> transfer_step s (leave n slot s)
| step_read n hash playback slot available record : s_tasks s !! n = Some (Reading hash playback slot) ->
    leasable (s_db s) hash available = Some record -> transfer_step s (with_task n (Admitting hash record playback slot) s)
| step_refuse n hash playback slot : s_tasks s !! n = Some (Reading hash playback slot) -> transfer_step s (leave n slot s)
| step_admit n hash record playback slot : s_tasks s !! n = Some (Admitting hash record playback slot) ->
    transfer_step s (with_task n (Leased hash record playback slot) (s <| s_policy ::= admit_transfer hash record |>))
| step_release n hash record playback slot : s_tasks s !! n = Some (Leased hash record playback slot) ->
    transfer_step s (leave n slot (s <| s_policy ::= release_transfer hash record playback (s_now s) |>
      <| s_played := fun h r t => s_played s h r t \/ (playback = true /\ h = hash /\ r = record /\ t = s_now s) |>))
| step_return n : s_tasks s !! n = Some Returning -> transfer_step s (s <| s_httpTransfers ::= Z.pred |> <| s_tasks ::= delete n |>)
| step_delete n hash : s_tasks s !! n = None -> unlocked s hash -> transfer_step s (with_task n (Checking hash None) s)
| step_protected n hash rest active : s_tasks s !! n = Some (Checking hash rest) ->
    transferProtected (s_policy s) hash (s_now s) active = true -> transfer_step s (end_deletion n (of_cleanup rest) s)
| step_unprotected n hash rest active : s_tasks s !! n = Some (Checking hash rest) ->
    transferProtected (s_policy s) hash (s_now s) active = false -> transfer_step s (with_task n (Erasing hash rest) s)
| step_erase n hash rest d : s_tasks s !! n = Some (Erasing hash rest) ->
    (forall h, record_of d h = record_of (s_db s) h \/ h = hash /\ record_of d h = None) -> transfer_step s (s <| s_db := d |>)
| step_erase_ends n hash rest : s_tasks s !! n = Some (Erasing hash rest) -> transfer_step s (end_deletion n (of_cleanup rest) s)
| step_erased n hash queue limit : s_tasks s !! n = Some (Erasing hash (Some (queue, limit))) -> record_of (s_db s) hash = None ->
    transfer_step s (with_task n (Forgetting hash queue limit) s)
| step_cleanup n : s_tasks s !! n = None -> s_cleanupMu s = false ->
    transfer_step s (with_task n (Expired (p_maxTemporary (s_policy s)))
      (s <| s_cleanupMu := true |> <| s_policy ::= expire_protection (s_now s) |>))
| step_queue n limit : s_tasks s !! n = Some (Expired limit) -> transfer_step s (with_task n (Sweeping (TemporaryQueue (s_db s)) limit) s)
| step_try n hash queue limit : s_tasks s !! n = Some (Sweeping (hash :: queue) limit) -> limit < Z.of_nat (length (hash :: queue)) ->
    unlocked s hash -> transfer_step s (with_task n (Rereading hash) s)
| step_swept n queue limit : s_tasks s !! n = Some (Sweeping queue limit) -> transfer_step s (end_deletion n true s)
| step_reread n hash queue : s_tasks s !! n = Some (Rereading hash) -> TemporaryQueue (s_db s) = hash :: queue ->
    transfer_step s (with_task n (Limiting hash (hash :: queue)) s)
| step_reread_ends n hash : s_tasks s !! n = Some (Rereading hash) -> transfer_step s (end_deletion n true s)
| step_over n hash queue : s_tasks s !! n = Some (Limiting hash queue) -> p_maxTemporary (s_policy s) < Z.of_nat (length queue) ->
    transfer_step s (with_task n (Checking hash (Some (queue, p_maxTemporary (s_policy s)))) s)
| step_within n hash queue : s_tasks s !! n = Some (Limiting hash queue) -> Z.of_nat (length queue) <= p_maxTemporary (s_policy s) ->
    transfer_step s (end_deletion n true s)
| step_forget n hash queue limit : s_tasks s !! n = Some (Forgetting hash queue limit) ->
    transfer_step s (with_task n (Sweeping (tail queue) limit) (s <| s_policy ::= forget_transfers hash |>)).
End System.

(** ** Counting tasks *)

Definition tally (P : task -> bool) (m : gmap nat task) : Z := Z.of_nat (size (filter (fun '(_, t) => P t = true) m)).

Definition one (b : bool) : Z := if b then 1 else 0.
Definition task_is (P : task -> bool) (o : option task) : bool := match o with Some t => P t | None => false end.

Lemma tally_delete P m n : tally P (delete n m) = tally P m - one (task_is P (m !! n)).
Proof.
  unfold tally. rewrite map_filter_delete. destruct (m !! n) as [t|] eqn:E; cbn [task_is one].
  - destruct (P t) eqn:HP; cbn [one].
    + rewrite map_size_delete_Some by (exists t; by apply map_lookup_filter_Some). assert (size (filter (fun '(_, t) => P t = true) m) <> 0%nat); [|lia].
      intros H0%map_size_empty_inv. assert (filter (fun '(_, t) => P t = true) m !! n = Some t) as H by (by apply map_lookup_filter_Some). by rewrite H0 in H.
    + rewrite delete_id by (apply map_lookup_filter_None; right; intros x Hx; simplify_eq; by rewrite HP). lia.
  - rewrite delete_id by (apply map_lookup_filter_None; by left). lia.
Qed.

Lemma tally_insert P m n t : tally P (<[n := t]> m) = tally P m - one (task_is P (m !! n)) + one (P t).
Proof.
  rewrite <- tally_delete. rewrite <- (insert_delete_eq m n t). unfold tally. destruct (P t) eqn:HP; cbn [one].
  - rewrite map_filter_insert_True by done. rewrite map_size_insert_None; [lia|]. apply map_lookup_filter_None. left. apply lookup_delete_eq.
  - rewrite map_filter_insert_False by (by rewrite HP). rewrite delete_delete_eq. lia.
Qed.

Lemma tally_zero P m : (forall n t, m !! n = Some t -> P t = false) -> tally P m = 0.
Proof.
  intros H. unfold tally. assert (filter (fun '(_, t) => P t = true) m = ∅) as ->; [|done]. apply map_empty. intros n. apply map_lookup_filter_None.
  right. intros t Ht. by rewrite (H n t Ht).
Qed.

Lemma tally_pos P m n t : m !! n = Some t -> P t = true -> 0 < tally P m.
Proof.
  intros Ht HP. pose proof (tally_delete P m n) as H. rewrite Ht in H. cbn in H. rewrite HP in H. cbn in H.
  assert (0 <= tally P (delete n m)) by (unfold tally; lia). lia.
Qed.

(** ** The invariant *)

(** No lease of the current record of [h], and its last playback ended a debounce ago. *)
Definition erasable (s : sys) (h : string) : Prop := forall r, record_of (s_db s) h = Some r ->
  (forall n playback slot, s_tasks s !! n <> Some (Leased h r playback slot)) /\ (forall t, s_played s h r t -> t + DebounceDelay <= s_now s).

Definition task_ok (s : sys) (t : task) : Prop :=
  match t with
  | Leased h r _ _ => s_records s h r /\ r <> ""%string /\ (record_of (s_db s) h = Some r -> lease_record (s_policy s) h = r)
  | Admitting h r _ _ => record_of (s_db s) h = Some r
  | Erasing h _ => erasable s h
  | Forgetting h _ _ => record_of (s_db s) h = None
  | _ => True
  end.

(** The protection of a playback that ended at [t] lasts until it may. *)
Definition play_ok (s : sys) (h r : string) (t : Z) : Prop :=
  s_records s h r /\ t <= s_now s /\ (record_of (s_db s) h = Some r ->
    t + DebounceDelay <= s_now s
    \/ lease_record (s_policy s) h = r /\ exists until, p_protectedUntil (s_policy s) !! h = Some until /\ t + DebounceDelay <= until).

Record transfers_ok (max : Z) (s : sys) : Prop := {
  ok_count : forall h, transferCount (s_policy s) h = tally (leases h (lease_record (s_policy s) h)) (s_tasks s);
  ok_slots : s_httpTransfers s = tally slotted (s_tasks s);
  ok_budget : s_httpTransfers s <= Z.max 0 max;
  ok_locks : forall n n' t t' h, s_tasks s !! n = Some t -> s_tasks s !! n' = Some t' -> locks t = Some h -> locks t' = Some h -> n = n';
  ok_records : forall h r, record_of (s_db s) h = Some r -> s_records s h r /\ r <> ""%string;
  ok_tasks : forall n t, s_tasks s !! n = Some t -> task_ok s t;
  ok_plays : forall h r t, s_played s h r t -> play_ok s h r t;
}.

(** ** TransferPolicy operations *)

Lemma lease_record_admit h r p k : lease_record (admit_transfer h r p) k = if decide (k = h) then r else lease_record p k.
Proof.
  unfold admit_transfer. destruct (String.eqb_spec (lease_record p h) r) as [<-|Hne]; cbn; unfold lease_record; cbn; destruct (decide (k = h)) as [->|Hk]; try done.
  - by rewrite lookup_insert_eq.
  - by rewrite lookup_insert_ne.
Qed.

Lemma count_admit h r p k : transferCount (admit_transfer h r p) k =
  if decide (k = h) then (if (lease_record p h =? r)%string then transferCount p h else 0) + 1 else transferCount p k.
Proof.
  unfold admit_transfer, transferCount. destruct (lease_record p h =? r)%string; cbn; destruct (decide (k = h)) as [->|Hk];
    rewrite ?lookup_insert_eq, ?lookup_insert_ne by done; cbn; rewrite ?lookup_insert_eq, ?lookup_insert_ne by done; done.
Qed.

Lemma lease_record_release h r playback now p k : lease_record (release_transfer h r playback now p) k = lease_record p k.
Proof. unfold release_transfer. destruct (negb _); [done|]. cbv zeta. by destruct playback, (_ =? 0). Qed.

Lemma count_release h r playback now p k : transferCount (release_transfer h r playback now p) k =
  transferCount p k - one (bool_decide (k = h) && (lease_record p h =? r)%string).
Proof.
  unfold release_transfer. destruct (lease_record p h =? r)%string; cbn [negb]; [|rewrite andb_false_r; cbn; lia]. rewrite andb_true_r. cbv zeta.
  set (p' := if playback then _ else _). assert (forall k, transferCount p' k = if decide (k = h) then transferCount p h - 1 else transferCount p k) as Hp'.
  { intros k'. unfold p', transferCount. destruct playback; cbn; destruct (decide (k' = h)) as [->|]; by rewrite ?lookup_insert_eq, ?lookup_insert_ne. }
  pose proof (Hp' h) as Hh. rewrite decide_True in Hh by done. destruct (Z.eqb_spec (transferCount p' h) 0) as [Hz|Hz]; case_bool_decide as Hk; subst; cbn [one].
  - unfold transferCount at 1. cbn. rewrite lookup_delete_eq. cbn. lia.
  - transitivity (transferCount p' k); [unfold transferCount; cbn; by rewrite lookup_delete_ne|]. rewrite Hp', decide_False by done. lia.
  - lia.
  - rewrite Hp', decide_False by done. lia.
Qed.

Lemma protected_release h r playback now p k : p_protectedUntil (release_transfer h r playback now p) !! k =
  if bool_decide (k = h) && (lease_record p h =? r)%string && playback then Some (now + DebounceDelay) else p_protectedUntil p !! k.
Proof.
  unfold release_transfer. destruct (lease_record p h =? r)%string; cbn [negb]; [|by rewrite andb_false_r]. rewrite andb_true_r. cbv zeta.
  set (p' := if playback then _ else _). transitivity (p_protectedUntil p' !! k); [by destruct (_ =? 0)|]. unfold p'. destruct playback; cbn; case_bool_decide as Hk; subst;
    rewrite ?lookup_insert_eq, ?lookup_insert_ne by done; done.
Qed.

Lemma lease_record_expire now p k : lease_record (expire_protection now p) k = if expired now p k && (transferCount p k =? 0) then ""%string else lease_record p k.
Proof.
  unfold lease_record, expire_protection. cbn. rewrite map_lookup_filter. destruct (p_transferRecords p !! k) as [r|]; cbn; [|by destruct (_ && _)].
  by destruct (expired now p k && (transferCount p k =? 0)).
Qed.

Lemma protected_expire now p k : p_protectedUntil (expire_protection now p) !! k = if expired now p k then None else p_protectedUntil p !! k.
Proof.
  unfold expire_protection. cbn. rewrite map_lookup_filter. destruct (p_protectedUntil p !! k) as [u|] eqn:E; cbn; [|by destruct (expired _ _ _)].
  by destruct (expired now p k).
Qed.

Lemma lease_record_forget h p k : lease_record (forget_transfers h p) k = if decide (k = h /\ transferCount p h = 0) then ""%string else lease_record p k.
Proof.
  unfold lease_record, forget_transfers. cbn. destruct (Z.eqb_spec (transferCount p h) 0) as [Hz|Hz]; destruct (decide _) as [[-> ?]|Hk]; try done; try lia.
  - by rewrite lookup_delete_eq.
  - rewrite lookup_delete_ne; [done|]. intros ->. by apply Hk.
Qed.

(** ** Preservation *)

Section Steps.
Context (max : Z) (s : sys) (Hok : transfers_ok max s).

Lemma unleased h : (forall n t, s_tasks s !! n = Some t -> leases h ""%string t = false).
Proof using Hok.
  intros n t Ht. destruct t; try done. cbn. destruct (String.eqb_spec record "") as [->|]; [|apply andb_false_r].
  by destruct (ok_tasks _ _ Hok _ _ Ht) as (_ & ? & _).
Qed.

(** A task moves on: it takes no lock that is held, keeps its slot and is no lease. *)
Lemma task_moves n t : task_is slotted (s_tasks s !! n) = slotted t -> (forall h r, task_is (leases h r) (s_tasks s !! n) = leases h r t) ->
  (forall h, locks t = Some h -> unlocked s h \/ exists old, s_tasks s !! n = Some old /\ locks old = Some h) -> task_ok s t ->
  (forall h r playback slot, t <> Leased h r playback slot) -> transfers_ok max (with_task n t s).
Proof using Hok.
  intros Hslot Hlease Hlock Ht Hnl. destruct Hok as [H1 H2 H3 H4 H5 H6 H7]. split; cbn; try done.
  - intros h. rewrite tally_insert, Hlease, H1. lia.
  - rewrite tally_insert, Hslot. lia.
  - assert (forall m u h, s_tasks s !! m = Some u -> m <> n -> locks u = Some h -> locks t = Some h -> False) as Hex.
    { intros m u h Hm Hne Hu Hlt. destruct (Hlock h Hlt) as [Hun|(old & Ho & Hlo)]; [by eapply Hun|]. apply Hne. by eapply H4. }
    intros m m' u u' h Hm Hm' Hu Hu'. destruct (decide (m = n)) as [->|Hne], (decide (m' = n)) as [->|Hne']; [done|..].
    + rewrite lookup_insert_eq in Hm. rewrite lookup_insert_ne in Hm' by done. simplify_eq. exfalso. by eapply (Hex m' u').
    + rewrite lookup_insert_eq in Hm'. rewrite lookup_insert_ne in Hm by done. simplify_eq. exfalso. by eapply (Hex m u).
    + rewrite lookup_insert_ne in Hm by done. rewrite lookup_insert_ne in Hm' by done. by eapply H4.
  - assert (forall u, task_ok s u -> task_ok (with_task n t s) u) as Hmono.
    { intros [] Hu; try done. cbn in Hu |- *. intros r Hr. destruct (Hu r Hr) as [Hl Hp]. split; [|done]. intros m playback slot. cbn.
      destruct (decide (m = n)) as [->|]; [rewrite lookup_insert_eq; intros E; by simplify_eq; eapply Hnl|by rewrite lookup_insert_ne]. }
    intros m u Hm. destruct (decide (m = n)) as [->|]; [rewrite lookup_insert_eq in Hm|rewrite lookup_insert_ne in Hm by done]; simplify_eq; apply Hmono; eauto.
Qed.

(** A task without a slot or lease ends. *)
Lemma task_ends n t : s_tasks s !! n = Some t -> slotted t = false -> (forall h r, leases h r t = false) -> transfers_ok max (s <| s_tasks ::= delete n |>).
Proof using Hok.
  intros Ht Hs Hl. destruct Hok as [H1 H2 H3 H4 H5 H6 H7]. split; cbn; try done.
  - intros h. rewrite tally_delete, Ht. cbn. rewrite Hl, H1. cbn. lia.
  - rewrite tally_delete, Ht. cbn. rewrite Hs. cbn. lia.
  - intros m m' u u' h [_ Hm]%lookup_delete_Some [_ Hm']%lookup_delete_Some. by eapply H4.
  - intros m u [_ Hm]%lookup_delete_Some. apply H6 in Hm. destruct u; try done. intros r Hr. destruct (Hm r Hr) as [Hnone ?]. split; [|done].
    intros k playback slot Hk. cbn in Hk. apply lookup_delete_Some in Hk as [_ Hk]. by eapply Hnone.
Qed.
End Steps.

Lemma ok_mutex max s b : transfers_ok max s -> transfers_ok max (s <| s_cleanupMu := b |>).
Proof. intros []. by split. Qed.

Lemma deletion_ends max s n t b : transfers_ok max s -> s_tasks s !! n = Some t -> slotted t = false -> (forall h r, leases h r t = false) ->
  transfers_ok max (end_deletion n b s).
Proof.
  intros Hok Ht Hs Hl. unfold end_deletion. destruct b; [|by eapply task_ends]. apply (task_ends max (s <| s_cleanupMu := false |>)) with t; [by apply ok_mutex|done..].
Qed.

(** A caller without a lease leaves. *)
Lemma caller_leaves max s n t slot : transfers_ok max s -> s_tasks s !! n = Some t -> slotted t = slot -> (forall h r, leases h r t = false) ->
  transfers_ok max (leave n slot s).
Proof.
  intros Hok Ht Hs Hl. unfold leave. destruct slot; [|by eapply task_ends].
  apply task_moves; [done|by rewrite Ht|intros h r; rewrite Ht; apply Hl|done|done|done].
Qed.

Lemma step_other_ok max s d : transfers_ok max s -> library_change s d ->
  transfers_ok max (s <| s_db := d |> <| s_records := fun h r => s_records s h r \/ record_of d h = Some r |>).
Proof.
  intros Hok Hd. pose proof Hok as [H1 H2 H3 H4 H5 H6 H7].
  assert (forall h r, record_of d h = Some r -> s_records s h r -> record_of (s_db s) h = Some r) as Hold.
  { intros h r Hr Hu. destruct (Hd h) as [<-|[_ Hd']]; [done|]. rewrite Hr in Hd'. by destruct Hd'. }
  split; cbn; try done.
  - intros h r Hr. split; [by right|]. destruct (Hd h) as [He|[_ Hd']]; [rewrite He in Hr; by apply (H5 h)|]. rewrite Hr in Hd'. by destruct Hd'.
  - intros n t Ht. pose proof (H6 n t Ht) as Hto. assert (forall h, locks t = Some h -> record_of d h = record_of (s_db s) h) as Hl.
    { intros h Hlt. destruct (Hd h) as [|[Hu _]]; [done|]. by destruct (Hu n t Ht). }
    destruct t; try done; cbn in Hto |- *.
    + by rewrite (Hl hash eq_refl).
    + destruct Hto as (Hr & Hne & Hc). split_and!; [by left|done|]. intros Hd'. apply Hc. by apply Hold.
    + intros r. cbn. rewrite (Hl hash eq_refl). apply Hto.
    + by rewrite (Hl hash eq_refl).
  - intros h r t Hp. destruct (H7 h r t Hp) as (Hr & Ht & Hc). split_and!; [by left|done|]. intros Hd'. apply Hc. by apply Hold.
Qed.

Lemma step_erase_ok max s n hash rest d : transfers_ok max s -> s_tasks s !! n = Some (Erasing hash rest) ->
  (forall h, record_of d h = record_of (s_db s) h \/ h = hash /\ record_of d h = None) -> transfers_ok max (s <| s_db := d |>).
Proof.
  intros Hok Hn Hd. pose proof Hok as [H1 H2 H3 H4 H5 H6 H7].
  assert (forall h r, record_of d h = Some r -> record_of (s_db s) h = Some r) as Hold by (intros h r Hr; destruct (Hd h) as [<-|[_ He]]; [done|congruence]).
  split; cbn; try done.
  - eauto.
  - intros m t Ht. pose proof (H6 m t Ht) as Hto. destruct t; try done; cbn in Hto |- *.
    + destruct (Hd hash0) as [->|[-> _]]; [done|]. assert (m = n) as -> by (by eapply H4). congruence.
    + destruct Hto as (? & ? & Hc). eauto.
    + intros r Hr. apply (Hto r). by apply Hold.
    + destruct (Hd hash0) as [->|[_ ->]]; done.
  - intros h r t Hp. destruct (H7 h r t Hp) as (? & ? & Hc). split_and!; eauto.
Qed.

Lemma step_time_ok max s t : transfers_ok max s -> s_now s <= t -> transfers_ok max (s <| s_now := t |>).
Proof.
  intros [H1 H2 H3 H4 H5 H6 H7] Ht. split; cbn; try done.
  - intros n u Hu. pose proof (H6 n u Hu) as Hto. destruct u; try done. intros r Hr. destruct (Hto r Hr) as [Hl Hp]. split; [done|].
    intros t' Ht'. cbn. specialize (Hp t' Ht'). lia.
  - intros h r t' Hp. destruct (H7 h r t' Hp) as (? & ? & Hc). split_and!; [done|cbn; lia|]. intros Hr. destruct (Hc Hr) as [?|?]; [left; cbn; lia|by right].
Qed.

Lemma step_admit_ok max s n hash record playback slot : transfers_ok max s -> s_tasks s !! n = Some (Admitting hash record playback slot) ->
  transfers_ok max (with_task n (Leased hash record playback slot) (s <| s_policy ::= admit_transfer hash record |>)).
Proof.
  intros Hok Hn. pose proof Hok as [H1 H2 H3 H4 H5 H6 H7]. pose proof (H6 _ _ Hn) as Hr. cbn in Hr. destruct (H5 _ _ Hr) as [Hu Hne].
  assert (forall h, h <> hash -> forall t, leases h (lease_record (s_policy s) h) t = leases h (lease_record (admit_transfer hash record (s_policy s)) h) t) as Hother.
  { intros h Hh t. by rewrite lease_record_admit, decide_False. }
  split; cbn; try done.
  - intros h. rewrite count_admit, tally_insert, Hn, lease_record_admit. cbn [task_is one leases]. destruct (decide (h = hash)) as [->|Hh].
    + rewrite !String.eqb_refl. cbn. destruct (String.eqb_spec (lease_record (s_policy s) hash) record) as [<-|Hd]; [rewrite H1; lia|].
      rewrite tally_zero; [lia|]. intros m t Ht. destruct t; try done. cbn. destruct (String.eqb_spec hash0 hash) as [->|]; [|done].
      destruct (String.eqb_spec record0 record) as [->|]; [|done]. destruct (H6 _ _ Ht) as (_ & _ & Hc). by destruct (Hd (Hc Hr)).
    + rewrite H1. destruct (String.eqb_spec hash h) as [->|]; [done|]. cbn. lia.
  - rewrite tally_insert, Hn. cbn. lia.
  - intros m m' u u' h Hm Hm' Hl Hl'. apply lookup_insert_Some in Hm as [[<- <-]|[? Hm]]; [done|]. apply lookup_insert_Some in Hm' as [[<- <-]|[? Hm']]; [done|]. by eapply H4.
  - intros m t [[<- <-]|[Hm Ht]]%lookup_insert_Some; cbn; [split_and!; [done..|]; intros _; by rewrite lease_record_admit, decide_True|].
    pose proof (H6 _ _ Ht) as Hto. destruct t; try done; cbn in Hto |- *.
    + destruct Hto as (? & ? & Hc). split_and!; [done..|]. intros Hd. rewrite lease_record_admit. destruct (decide _) as [->|]; [congruence|auto].
    + intros r Hr'. cbn in Hr'. destruct (Hto r Hr') as [Hl Hp]. split; [|done]. intros k pb sl Hk. cbn in Hk.
      apply lookup_insert_Some in Hk as [[<- Hk]|[_ Hk]]; [|by eapply Hl]. simplify_eq. apply Hm. by eapply H4.
  - intros h r t Hp. destruct (H7 h r t Hp) as (? & ? & Hc). split_and!; [done..|]. cbn. intros Hd. destruct (Hc Hd) as [?|(Hl & until & Hpr & Hle)]; [by left|right].
    rewrite lease_record_admit. destruct (decide (h = hash)) as [->|Hh].
    + assert (r = record) as -> by congruence. split; [done|]. exists until. split; [|done]. unfold admit_transfer. by rewrite Hl, String.eqb_refl.
    + split; [done|]. exists until. split; [|done]. unfold admit_transfer. destruct (_ =? _)%string; [done|]. cbn. by rewrite lookup_delete_ne.
Qed.

(** A lease ends, with its task. *)
Lemma release_ok max s n hash record playback slot tasks : transfers_ok max s -> s_tasks s !! n = Some (Leased hash record playback slot) ->
  tasks = (if slot then <[n := Returning]> (s_tasks s) else delete n (s_tasks s)) ->
  transfers_ok max (s <| s_policy ::= release_transfer hash record playback (s_now s) |>
      <| s_played := fun h r t => s_played s h r t \/ (playback = true /\ h = hash /\ r = record /\ t = s_now s) |> <| s_tasks := tasks |>).
Proof.
  intros Hok Hn Htasks. pose proof Hok as [H1 H2 H3 H4 H5 H6 H7]. destruct (H6 _ _ Hn) as (Hu & Hne & Hc).
  assert (forall P, tally P tasks = tally P (s_tasks s) - one (P (Leased hash record playback slot)) + one (slot && P Returning)) as Htally.
  { intros P. rewrite Htasks. destruct slot; [rewrite tally_insert, Hn|rewrite tally_delete, Hn]; cbn; [done|lia]. }
  assert (forall m t, tasks !! m = Some t -> t = Returning \/ s_tasks s !! m = Some t) as Hsub.
  { intros m t Ht. rewrite Htasks in Ht. destruct slot; [apply lookup_insert_Some in Ht as [[_ <-]|[_ ?]]; auto|apply lookup_delete_Some in Ht as [_ ?]; auto]. }
  split; cbn; try done.
  - intros h. rewrite count_release, lease_record_release, Htally, H1. cbn [leases]. rewrite andb_false_r. cbn [one].
    destruct (String.eqb_spec hash h) as [<-|Hh]; [rewrite bool_decide_true by done|rewrite bool_decide_false by done]; cbn [andb one]; [|lia].
    rewrite (String.eqb_sym record). lia.
  - rewrite Htally, H2. cbn. destruct slot; cbn; lia.
  - intros m m' t t' h Hm Hm' Hl Hl'. destruct (Hsub _ _ Hm) as [->|Hm0]; [done|]. destruct (Hsub _ _ Hm') as [->|Hm0']; [done|]. by eapply H4.
  - intros m t Ht. destruct (Hsub _ _ Ht) as [->|Ht0]; [done|]. pose proof (H6 _ _ Ht0) as Hto. destruct t; try done; cbn in Hto |- *.
    + by rewrite lease_record_release.
    + intros r Hr. cbn in Hr. destruct (Hto r Hr) as [Hl Hp]. split.
      * intros k pb sl Hk. cbn in Hk. destruct (Hsub _ _ Hk) as [?|Hk0]; [done|by eapply Hl].
      * intros t [Hpl|(-> & -> & -> & ->)]; [by apply Hp|]. by destruct (Hl n true slot).
  - intros h r t [Hp|(-> & -> & -> & ->)].
    + destruct (H7 h r t Hp) as (? & ? & Hcp). split_and!; [done..|]. cbn. intros Hd. destruct (Hcp Hd) as [?|(Hl & until & Hpr & Hle)]; [by left|right].
      rewrite lease_record_release. split; [done|]. rewrite protected_release. destruct (bool_decide (h = hash) && _ && playback); [|eauto].
      eexists. split; [done|]. cbn. lia.
    + split_and!; [done|done|]. cbn. intros Hd. right. specialize (Hc Hd). rewrite lease_record_release. split; [done|]. rewrite protected_release.
      rewrite bool_decide_true, Hc, String.eqb_refl by done. cbn. eauto with lia.
Qed.

Lemma step_release_ok max s n hash record playback slot : transfers_ok max s -> s_tasks s !! n = Some (Leased hash record playback slot) ->
  transfers_ok max (leave n slot (s <| s_policy ::= release_transfer hash record playback (s_now s) |>
      <| s_played := fun h r t => s_played s h r t \/ (playback = true /\ h = hash /\ r = record /\ t = s_now s) |>)).
Proof. intros Hok Hn. pose proof (release_ok _ _ _ _ _ _ _ _ Hok Hn eq_refl) as H. unfold leave. destruct slot; exact H. Qed.

(** A change of the policy that only forgets records without leases and protections that are over. *)
Lemma policy_ok max s p : transfers_ok max s -> (forall h, transferCount p h = transferCount (s_policy s) h) ->
  (forall h, lease_record p h = lease_record (s_policy s) h \/ lease_record p h = ""%string /\ transferCount (s_policy s) h = 0) ->
  (forall h r t, s_played s h r t -> record_of (s_db s) h = Some r -> s_now s < t + DebounceDelay ->
     lease_record p h = lease_record (s_policy s) h /\ p_protectedUntil p !! h = p_protectedUntil (s_policy s) !! h) ->
  transfers_ok max (s <| s_policy := p |>).
Proof.
  intros Hok Hcount Hrec Hprot. pose proof Hok as [H1 H2 H3 H4 H5 H6 H7]. split; cbn; try done.
  - intros h. rewrite Hcount. destruct (Hrec h) as [->|[-> Hz]]; [done|]. rewrite Hz. symmetry. apply tally_zero. by eapply unleased.
  - intros n t Ht. pose proof (H6 _ _ Ht) as Hto. destruct t; try done. cbn in Hto |- *. destruct Hto as (? & ? & Hc). split_and!; [done..|]. intros Hd.
    destruct (Hrec hash) as [->|[_ Hz]]; [auto|]. exfalso. rewrite H1, (Hc Hd) in Hz. pose proof (tally_pos (leases hash record) _ _ _ Ht) as Hp. cbn in Hp.
    rewrite !String.eqb_refl in Hp. specialize (Hp eq_refl). lia.
  - intros h r t Hp. destruct (H7 h r t Hp) as (? & ? & Hc). split_and!; [done..|]. cbn. intros Hd. destruct (Z_le_gt_dec (t + DebounceDelay) (s_now s)); [by left|right].
    destruct (Hprot h r t Hp Hd) as [-> ->]; [lia|]. destruct (Hc Hd) as [?|?]; [lia|done].
Qed.

Lemma expire_protection_ok max s : transfers_ok max s -> transfers_ok max (s <| s_policy ::= expire_protection (s_now s) |>).
Proof.
  intros Hok. apply (policy_ok max s); [done|done| |].
  - intros h. rewrite lease_record_expire. destruct (expired _ _ _); [|by left]. destruct (Z.eqb_spec (transferCount (s_policy s) h) 0); [by right|by left].
  - intros h r t Hp Hd Hlt. destruct (ok_plays _ _ Hok h r t Hp) as (_ & _ & Hc). destruct (Hc Hd) as [?|(_ & until & Hu & ?)]; [lia|].
    rewrite lease_record_expire, protected_expire. assert (expired (s_now s) (s_policy s) h = false) as ->; [|done]. unfold expired. rewrite Hu. apply Z.ltb_ge. lia.
Qed.

Lemma forget_transfers_ok max s hash : transfers_ok max s -> record_of (s_db s) hash = None -> transfers_ok max (s <| s_policy ::= forget_transfers hash |>).
Proof.
  intros Hok Hn. apply (policy_ok max s); [done|done| |].
  - intros h. rewrite lease_record_forget. destruct (decide _) as [[-> ?]|]; [by right|by left].
  - intros h r t _ Hd _. assert (h <> hash) by congruence. rewrite lease_record_forget. destruct (decide _) as [[? ?]|]; [done|]. split; [done|]. cbn. by rewrite lookup_delete_ne.
Qed.

Lemma step_acquire_http_ok max s n hash head slot count : transfers_ok max s -> s_tasks s !! n = None ->
  AcquireHTTPTransfer max head (s_httpTransfers s) = Ok (slot, count) ->
  transfers_ok max (with_task n (Entering hash (negb head) slot) (s <| s_httpTransfers := count |>)).
Proof.
  intros Hok Hn Ha. assert (count = s_httpTransfers s + one slot /\ count <= Z.max 0 max) as [-> Hmax].
  { pose proof (ok_budget _ _ Hok). unfold AcquireHTTPTransfer in Ha. destruct head; [injection Ha as <- <-; cbn; lia|].
    destruct (Z.geb_spec (s_httpTransfers s) max); [done|]. injection Ha as <- <-. cbn. lia. }
  pose proof Hok as [H1 H2 H3 H4 H5 H6 H7]. split; cbn; try done.
  - intros h. rewrite tally_insert, Hn, H1. cbn. lia.
  - rewrite tally_insert, Hn, H2. cbn. lia.
  - intros m m' u u' h Hm Hm' Hl Hl'. apply lookup_insert_Some in Hm as [[<- <-]|[? Hm]]; [done|]. apply lookup_insert_Some in Hm' as [[<- <-]|[? Hm']]; [done|]. by eapply H4.
  - intros m u [[<- <-]|[_ Hm]]%lookup_insert_Some; [done|]. pose proof (H6 _ _ Hm) as Hto. destruct u; try done. intros r Hr. destruct (Hto r Hr) as [Hl Hp].
    split; [|done]. intros k pb sl Hk. cbn in Hk. apply lookup_insert_Some in Hk as [[_ ?]|[_ Hk]]; [done|by eapply Hl].
Qed.

Lemma step_return_ok max s n : transfers_ok max s -> s_tasks s !! n = Some Returning ->
  transfers_ok max (s <| s_httpTransfers ::= Z.pred |> <| s_tasks ::= delete n |>).
Proof.
  intros Hok Hn. pose proof Hok as [H1 H2 H3 H4 H5 H6 H7]. split; cbn; try done.
  - intros h. rewrite tally_delete, Hn, H1. cbn. lia.
  - rewrite tally_delete, Hn, H2. cbn. lia.
  - lia.
  - intros m m' u u' h [_ Hm]%lookup_delete_Some [_ Hm']%lookup_delete_Some. by eapply H4.
  - intros m u [_ Hm]%lookup_delete_Some. pose proof (H6 _ _ Hm) as Hto. destruct u; try done. intros r Hr. destruct (Hto r Hr) as [Hl Hp].
    split; [|done]. intros k pb sl Hk. cbn in Hk. apply lookup_delete_Some in Hk as [_ Hk]. by eapply Hl.
Qed.

(** What the test of a deletion says. *)
Lemma unprotected_erasable max s hash active : transfers_ok max s -> transferProtected (s_policy s) hash (s_now s) active = false -> erasable s hash.
Proof.
  intros Hok Hp r Hr. unfold transferProtected in Hp. apply orb_false_iff in Hp as [[Hcount%Z.ltb_ge Huntil]%orb_false_iff _]. split.
  - intros n playback slot Hn. destruct (ok_tasks _ _ Hok _ _ Hn) as (_ & _ & Hc). pose proof (tally_pos (leases hash r) _ _ _ Hn) as Hpos. cbn in Hpos.
    rewrite !String.eqb_refl in Hpos. specialize (Hpos eq_refl). rewrite (ok_count _ _ Hok), (Hc Hr) in Hcount. lia.
  - intros t Ht. destruct (ok_plays _ _ Hok _ _ _ Ht) as (_ & _ & Hc). destruct (Hc Hr) as [?|(_ & until & Hu & ?)]; [done|]. rewrite Hu in Huntil. apply Z.ltb_ge in Huntil. lia.
Qed.

#[local] Ltac moves Hn := apply task_moves; [done|by rewrite ?Hn|intros ? ?; by rewrite ?Hn| |done|done].

Lemma transfer_step_ok max s s' : transfer_step max s s' -> transfers_ok max s -> transfers_ok max s'.
Proof.
  intros Hs Hok. destruct Hs as [t Ht|d Hd|limit p Hp|n hash Hn|n hash head slot count Hn Ha|n hash playback slot Hn Hu|n hash playback slot Hn
    |n hash playback slot available record Hn Hr|n hash playback slot Hn|n hash record playback slot Hn|n hash record playback slot Hn|n Hn|n hash Hn Hu
    |n hash rest active Hn Hp|n hash rest active Hn Hp|n hash rest d Hn Hd|n hash rest Hn|n hash queue limit Hn Hd|n Hn Hmu|n limit Hn|n hash queue limit Hn Hlen Hu
    |n queue limit Hn|n hash queue Hn Hq|n hash Hn|n hash queue Hn Hlen|n hash queue Hn Hlen|n hash queue limit Hn].
  - by apply step_time_ok.
  - by apply step_other_ok.
  - unfold SetTemporaryLimit in Hp. destruct (limit <? 1); [done|]. injection Hp as <-. apply (policy_ok max s); [done|done|by left|done].
  - moves Hn. done.
  - by apply step_acquire_http_ok.
  - moves Hn. intros h [= <-]. by left.
  - by eapply caller_leaves.
  - apply task_moves; [done|by rewrite Hn|intros ? ?; by rewrite Hn| | |done].
    + intros h [= <-]. right. by eexists.
    + cbn. unfold leasable in Hr. destruct (torrents (s_db s) !! hash); [|done]. destruct (CleanupPaths _ _) as [[? []]|]; [done| |done]. by destruct available.
  - by eapply caller_leaves.
  - by apply step_admit_ok.
  - by apply step_release_ok.
  - by apply step_return_ok.
  - moves Hn. intros h [= <-]. by left.
  - by eapply deletion_ends.
  - apply task_moves; [done|by rewrite Hn|intros ? ?; by rewrite Hn| | |done].
    + intros h [= <-]. right. by eexists.
    + by eapply unprotected_erasable.
  - by eapply step_erase_ok.
  - by eapply deletion_ends.
  - apply task_moves; [done|by rewrite Hn|intros ? ?; by rewrite Hn| |done|done]. intros h [= <-]. right. by eexists.
  - apply task_moves; [exact (expire_protection_ok max (s <| s_cleanupMu := true |>) (ok_mutex _ _ _ Hok))|cbn; by rewrite Hn|intros ? ?; cbn; by rewrite Hn|done|done|done].
  - moves Hn. done.
  - moves Hn. intros h [= <-]. by left.
  - by eapply deletion_ends.
  - moves Hn. intros h [= <-]. right. by eexists.
  - by eapply deletion_ends.
  - moves Hn. intros h [= <-]. right. by eexists.
  - by eapply deletion_ends.
  - pose proof (ok_tasks _ _ Hok _ _ Hn) as Hd. apply task_moves; [by apply forget_transfers_ok|cbn; by rewrite Hn|intros ? ?; cbn; by rewrite Hn|done|done|done].
Qed.

(** ** Transfers are protected *)

Definition transfers_start (d : db) (limit now : Z) : sys :=
  mkSys d (mkTransferPolicy ∅ ∅ ∅ limit) now 0 false ∅ (fun h r => record_of d h = Some r) (fun _ _ _ => False).

Lemma transfers_start_ok max d limit now : (forall h r, record_of d h = Some r -> r <> ""%string) -> transfers_ok max (transfers_start d limit now).
Proof.
  intros Hr. split; cbn; try done.
  - lia.
  - intros h r Hd. split; [done|]. by eapply Hr.
Qed.

(** C28: transfers protect the payload they read.  However leases, releases, deletions, cleanups, other changes of
    the library and the clock interleave: while a lease of the current record of a torrent is held, the torrent tests as
    protected and nobody deletes it; a deletion at work finds no lease of the current record, and the last playback
    of the record ended at least the debounce delay before.  The counter of a torrent is the number of leases of the
    record it counts, and the HTTP transfers never exceed their budget. *)
Theorem transfers_protect_payload max d limit now s :
  (forall h r, record_of d h = Some r -> r <> ""%string) -> rtc (transfer_step max) (transfers_start d limit now) s ->
  (forall n hash record playback slot, s_tasks s !! n = Some (Leased hash record playback slot) -> record_of (s_db s) hash = Some record ->
     (forall active, transferProtected (s_policy s) hash (s_now s) active = true) /\ forall m rest, s_tasks s !! m <> Some (Erasing hash rest))
  /\ (forall n hash rest record t, s_tasks s !! n = Some (Erasing hash rest) -> record_of (s_db s) hash = Some record ->
     s_played s hash record t -> t + DebounceDelay <= s_now s)
  /\ (forall hash, transferCount (s_policy s) hash = tally (leases hash (lease_record (s_policy s) hash)) (s_tasks s))
  /\ s_httpTransfers s = tally slotted (s_tasks s) /\ s_httpTransfers s <= Z.max 0 max.
Proof.
  intros Hd Hs. assert (transfers_ok max s) as Hok.
  { pose proof (transfers_start_ok max d limit now Hd) as Hok. induction Hs; eauto using transfer_step_ok. }
  split_and!; [| |apply (ok_count _ _ Hok)|apply (ok_slots _ _ Hok)|apply (ok_budget _ _ Hok)].
  - intros n hash record playback slot Hn Hr. split.
    + intros active. destruct (transferProtected (s_policy s) hash (s_now s) active) eqn:Hp; [done|].
      destruct (unprotected_erasable _ _ _ _ Hok Hp _ Hr) as [Hl _]. by destruct (Hl n playback slot).
    + intros m rest Hm. destruct (ok_tasks _ _ Hok _ _ Hm _ Hr) as [Hl _]. by destruct (Hl n playback slot).
  - intros n hash rest record t Hn Hr Hp. by destruct (ok_tasks _ _ Hok _ _ Hn _ Hr) as [_ Hl]; apply Hl.
Qed.

(** A library with one torrent that is being played. *)
Definition played_hash : string := "0123456789abcdef0123456789abcdef01234567".

Definition played_db : db :=
  empty_db <| torrents := {[ played_hash := mkTorrentRow "Movie" "" "" "" "" 2 0 StatePaused "" "" true None false "" "" "" 0 0 0 true "" "" ]} |>
    <| torrent_intents := {[ played_hash := mkIntentRow "record" RunPaused 1 "" 0 0 StatePaused "" ]} |>.

Definition played_sys : sys :=
  with_task 0 (Leased played_hash "record" true true)
    ((with_task 0 (Admitting played_hash "record" true true) (with_task 0 (Reading played_hash true true)
       (with_task 0 (Entering played_hash true true) ((transfers_start played_db 1 0) <| s_httpTransfers := 1 |>))))
     <| s_policy ::= admit_transfer played_hash "record" |>).

Lemma played_records h r : record_of played_db h = Some r -> r <> ""%string.
Proof.
  unfold record_of. destruct (decide (h = played_hash)) as [->|Hh]; [vm_compute; by intros [= <-]|].
  assert (torrents played_db !! h = None) as ->; [by apply lookup_singleton_ne|done].
Qed.

Lemma played_reached : rtc (transfer_step 4) (transfers_start played_db 1 0) played_sys.
Proof.
  eapply rtc_l; [apply (step_acquire_http 4 _ 0 played_hash false true 1); done|].
  eapply rtc_l; [apply (step_lock 4 _ 0 played_hash true true); [done|]|].
  { intros n t Ht. cbn in Ht. apply lookup_singleton_Some in Ht as [_ <-]. done. }
  eapply rtc_l; [apply (step_read 4 _ 0 played_hash true true true "record"); [done|by vm_compute]|].
  apply rtc_once, (step_admit 4 _ 0 played_hash "record" true true). done.
Qed.

Lemma transfers_protect_payload_witness :
  (forall active, transferProtected (s_policy played_sys) played_hash 0 active = true) /\ transferCount (s_policy played_sys) played_hash = 1 /\ s_httpTransfers played_sys <= 4.
Proof.
  destruct (transfers_protect_payload 4 played_db 1 0 played_sys played_records played_reached) as (H1 & _ & _ & _ & H2). split_and!.
  - apply (H1 0%nat played_hash "record"%string true true); by vm_compute.
  - by vm_compute.
  - exact H2.
Defined.
