(* ===== verification/PayloadDeletion.v ===== *)
(** * Deleting a torrent with its payload

    [deletePayloadLocked] of [internal/usecase/temporary_files.go], the workflow
    behind every deletion of payload, with the reservation of the paths it removes
    ([ownership.go]).

    It runs over the worlds of [StorageMove]: a disk, a database and the faults to
    come, where every call that leaves the process may fail before or after its
    work.  The command that may run just before a call is the request to cancel the
    deletion, which takes no lock.  A path of a manifest is a string; the disk has
    the list of its elements. *)

From stdpp Require Import base gmap list strings.
From Stdlib Require Import ZArith Strings.Byte Lia.
From S2P Require Import Prelude Models Paths Layout FastResume Codec Tables IntentStore StorageStore ResumeStore RootedFiles StorageMove.

#[local] Open Scope Z_scope.

#[local] Notation "'let!' x ':=' c 'in' k" := (bind c (fun x => k)) (at level 10, x pattern, c at level 100, k at level 200).
#[local] Notation "c ';!' k" := (bind c (fun _ => k)) (at level 199, right associativity).

(** ** Rooted calls on a path *)

(** Every directory above a path exists; the path of a file is no directory ([ENOTDIR]). *)
Fixpoint ancestors (d : disk) (seen rest : path) : result MoveError unit :=
  match rest with
  | [] | [_] => Ok tt
  | name :: rest =>
      let seen := (seen ++ [name])%list in
      match d_nodes d !! seen with
      | None => Err ErrNotExist
      | Some (Regular _ _ _) => Err ErrFault
      | Some (Directory _) => ancestors d seen rest
      end
  end.

Definition root_Lstat (d : disk) (p : path) : result MoveError node :=
  let? _ := ancestors d [] p in Lstat d p.

Definition root_Remove (p : path) (d : disk) : result MoveError (unit * disk) :=
  let? _ := ancestors d [] p in Remove p d.

Definition node_id (n : node) : Z := match n with Directory id | Regular id _ _ => id end.

(** [payload.Validate] below the download directory. *)
Definition rooted_lstat (d : disk) (name : string) : lstat_result :=
  match root_Lstat d (clean_parts name) with
  | Ok (Directory _) => Entry false false
  | Ok (Regular _ _ _) => Entry false true
  | Err ErrNotExist => NotExist
  | Err _ => LstatError ""
  end.

Definition validateCleanupPath (d : disk) (p : string) : result MoveError unit :=
  if is_ok (Validate (rooted_lstat d) p) then Ok tt else Err ErrStorageConflict.

Definition pathsOverlap (a b : string) : bool := Overlap a b.

(** [recoveryBlocks] of [legacy_recovery.go]. *)
Definition recoveryBlocks (v : option RecoveryRecord) : bool :=
  match v with
  | None => false
  | Some v =>
      let stage := rc_stage (v_row v) in
      let reason := rc_reason (v_row v) in
      if (reason =? "storage_move")%string || (reason =? "storage_locate")%string
      then negb (bool_decide (stage ∈ ["planning"; "planned"; "analyzing_location"; "analyzed"; "completed"; "cancelled"]%string))
      else if (reason =? "deletion_cancelled")%string || (stage =? "cancel_requested")%string then true
      else bool_decide (stage ∈ ["analyzing"; "analyzed"; "prepared"; "preserved"; "published"; "verifying"]%string)
  end.

Definition unnamed (m : StorageMapping) : bool := (st_state (m_row m) =? "reserved")%string && (st_root (m_row m) =? "")%string.

Definition checkMappingVersion (m : option StorageMapping) : result MoveError unit :=
  match m with
  | None => Ok tt
  | Some m =>
      if st_version (m_row m) =? 0 then Ok tt
      else if (st_version (m_row m) =? NamedLayoutVersion) && unnamed m then Ok tt
      else if is_ok (Layout_Validate (mapping_layout m)) then Ok tt else Err ErrStorageConflict
  end.

(** The paths of the files of a torrent, as its mapping places them. *)
Fixpoint each_path (f : string -> result MoveError string) (paths : list string) : result MoveError (list string) :=
  match paths with
  | [] => Ok []
  | p :: paths => let? p := f p in let? paths := each_path f paths in Ok (p :: paths)
  end.

Definition storagePaths (files : list string) : result MoveError (list string) :=
  each_path (fun p => if is_ok (ValidateRelative p) then Ok p else Err ErrStorageConflict) files.

Definition mapped_paths (m : option StorageMapping) (paths : list string) : result MoveError (list string) :=
  match m with
  | Some m =>
      if Supported (st_version (m_row m))
      then each_path (fun p => match Layout_Path (mapping_layout m) p with Ok p => Ok p | Err _ => Err ErrFault end) paths
      else Ok paths
  | None => Ok paths
  end.

(** A manifest with the part files. *)
Definition part (p : string) : string := (p ++ ".part")%string.
Definition with_parts (paths : list string) : list string := concat (map (fun p => [p; part p]) paths).

(** ** The surroundings of a deletion *)

Class DeleteEnv := {
  (** The torrent that is deleted. *)
  deleted : string;
  (** [strings.ToLower] after Unicode normalisation. *)
  delete_fold : string -> string;
  (** The files of a torrent, if the engine or a saved metainfo knows them; and those of the deleted torrent once its runtime is stopped. *)
  metadata : string -> option (list string);
  frozen : option (list string);
  raw_exists : bool;
  (** [DownloadDir] and the absolute paths the application keeps for itself. *)
  DownloadDir : string;
  CleanupProtectedPaths : list string;
  (** Whether a path or a directory above it is the same file as one of those ([os.SameFile]). *)
  aliases_application : string -> bool;
  (** The reservations of other running storage operations. *)
  ownershipClaims : list (string * list string);
  (** [err.Error]. *)
  delete_error_text : MoveError -> string;
}.

Section Deletion.
Context `{DeleteEnv}.

(** ** Ownership *)

Definition ownershipOverlap (a b : string) : bool := pathsOverlap (delete_fold a) (delete_fold b).

Definition metadataStorageInfo (hash : string) : option (list string) := metadata hash.

(** The paths of a torrent in a snapshot of the library. *)
Definition snapshotStoragePaths (d : db) (hash : string) (t : torrent_row) : result MoveError (list string) :=
  let m := find_mapping d hash in
  let? _ := checkMappingVersion m in
  match t_cleanup_paths t, t_cleanup_ready t with
  | Some paths, true => Ok paths
  | _, _ =>
      match metadataStorageInfo hash with
      | None =>
          match m with
          | Some m => if Supported (st_version (m_row m)) && negb (st_root (m_row m) =? "")%string then Ok [st_root (m_row m)] else Ok []
          | None => Ok []
          end
      | Some files => let? paths := storagePaths files in mapped_paths m paths
      end
  end.

Definition claims_free (d : db) (owned : list string) : bool :=
  forallb (fun '((sid, _, _, p), _) =>
      match find_mapping d deleted with Some m => (sid =? m_StorageID m)%string | None => false end
      || forallb (fun own => negb (ownershipOverlap own p)) owned)
    (map_to_list (storage_claims d)).

Definition application_free (owned : list string) : bool :=
  forallb (fun own => is_ok (ValidateRelative own)
      && forallb (fun reserved => negb (pathsOverlap (path_join DownloadDir own) reserved)) CleanupProtectedPaths
      && negb (aliases_application own)) owned.

Definition storagePathsAlias (disk : disk) (a b : string) : result MoveError bool :=
  match root_Lstat disk (clean_parts a) with
  | Err ErrNotExist => Ok false
  | Err e => Err e
  | Ok first =>
      match root_Lstat disk (clean_parts b) with
      | Err ErrNotExist => Ok false
      | Err e => Err e
      | Ok second => Ok (node_id first =? node_id second)
      end
  end.

(** No path of [owned] overlaps or aliases a path of [others]. *)
Fixpoint disjoint_paths (disk : disk) (overlap : string -> string -> bool) (pairs : list (string * string)) : result MoveError unit :=
  match pairs with
  | [] => Ok tt
  | (own, q) :: pairs =>
      if overlap own q then Err ErrStorageConflict
      else
        let? alias := storagePathsAlias disk own q in
        if alias then Err ErrStorageConflict else disjoint_paths disk overlap pairs
  end.

Definition path_pairs (owned others : list string) : list (string * string) :=
  concat (map (fun q => map (fun own => (own, q)) owned) (with_parts others)).

Fixpoint records_free (disk : disk) (d : db) (owned : list string) (rows : list (string * torrent_row)) : result MoveError unit :=
  match rows with
  | [] => Ok tt
  | (hash, t) :: rows =>
      if (hash =? deleted)%string || match find_mapping d hash with Some m => unnamed m | None => false end
      then records_free disk d owned rows
      else
        let? others := snapshotStoragePaths d hash t in
        match owned, others with
        | _ :: _, [] => Err ErrStorageConflict
        | _, _ =>
            let? _ := disjoint_paths disk pathsOverlap (path_pairs owned others) in
            records_free disk d owned rows
        end
  end.

Fixpoint mappings_free (disk : disk) (d : db) (owned : list string) (rows : list (string * storage_row)) : result MoveError unit :=
  match rows with
  | [] => Ok tt
  | (alias, s) :: rows =>
      if (alias =? deleted)%string || unnamed (mkStorageMapping alias s) then mappings_free disk d owned rows
      else if (st_root s =? "")%string then
        if bool_decide (is_Some (torrents d !! alias)) then mappings_free disk d owned rows
        else
          match metadataStorageInfo alias with
          | None => Err ErrStorageConflict
          | Some files =>
              let? paths := storagePaths files in
              let? _ := disjoint_paths disk ownershipOverlap (path_pairs owned paths) in
              mappings_free disk d owned rows
          end
      else if match find_mapping d deleted with Some own => (st_root (m_row own) =? st_root s)%string | None => false end
      then mappings_free disk d owned rows
      else if forallb (fun own => negb (ownershipOverlap own (st_root s))) owned
      then mappings_free disk d owned rows
      else Err ErrStorageConflict
  end.

Definition validateOwnershipSnapshot (disk : disk) (owned : list string) (d : db) : result MoveError unit :=
  if negb (claims_free d owned) then Err ErrStorageConflict
  else if negb (application_free owned) then Err ErrStorageConflict
  else
    let? _ := records_free disk d owned (map_to_list (torrents d)) in
    mappings_free disk d owned (map_to_list (torrent_storage d)).

Definition claimsConflictLocked (owned : list string) : bool :=
  existsb (fun '(hash, paths) => negb (hash =? deleted)%string && existsb (fun a => existsb (ownershipOverlap a) paths) owned) ownershipClaims.

(** ** Calls *)

(** [RequestDeletionCancel] by the user, of the deletion the library knows. *)
Definition cancel_deletion (d : db) : db :=
  match storage_recovery d !! deleted with
  | Some r => snd (RequestDeletionCancel d deleted (rc_record_id r) (rc_version r))
  | None => d
  end.

(** The commands on a move wait for the lock of the record, which the deletion holds. *)
Definition command_effect (c : command) (d : db) : db :=
  match c with DeletionCancel => cancel_deletion d | _ => d end.

Definition call {A} (op : world -> result MoveError (A * world)) : io A := fun w =>
  let run w := match op w with Ok (a, w) => (Ok a, w) | Err e => (Err e, w) end in
  match w_faults w with
  | [] => run w
  | f :: faults =>
      let w := w <| w_faults := faults |> in
      match f with
      | Fine => run w
      | Before => (Err ErrFault, w)
      | After => match op w with Ok (_, w) => (Err ErrFault, w) | Err e => (Err e, w) end
      | Meanwhile c => run (w <| w_db ::= command_effect c |>)
      end
  end.

Definition stat {A} (f : disk -> result MoveError A) : io A := call (fun w => let? a := f (w_disk w) in Ok (a, w)).
Definition unlink (p : path) : io unit := call (fun w => let? '(a, d) := root_Remove p (w_disk w) in Ok (a, w <| w_disk := d |>)).
Definition select {A} (f : db -> result RepoError A) : io A :=
  call (fun w => match f (w_db w) with Ok a => Ok (a, w) | Err e => Err (ErrRepo e) end).
Definition transact {A} (f : db -> result RepoError A * db) : io A :=
  call (fun w => match f (w_db w) with (Ok a, d) => Ok (a, w <| w_db := d |>) | (Err e, _) => Err (ErrRepo e) end).

(** A call whose effect is outside this model: the engine, the volumes, the context, opening the directory. *)
Definition effect : io unit := call (fun w => Ok (tt, w)).

(** ** The workflow *)

(** The rows whose changes advance [storage_catalog_version]: an equal version is an unchanged catalog. *)
Definition catalog (d : db) :=
  ((fun t => (t_cleanup_paths t, t_cleanup_ready t)) <$> torrents d,
   (fun s => (st_root s, st_version s, st_state s, st_manifest s)) <$> torrent_storage d,
   storage_claims d, (fun f => (fi_path f, fi_size f)) <$> files d).

Fixpoint reserve_attempts (attempts : nat) (owned : list string) : io unit :=
  match attempts with
  | O => fail ErrOwnershipCatalogChanged
  | S attempts =>
      effect ;!
      let! snapshot := select (fun d => Ok d) in
      let! valid := attempt (stat (fun disk => validateOwnershipSnapshot disk owned snapshot)) in
      let! current := select (fun d => Ok d) in
      if bool_decide (catalog current = catalog snapshot) then
        let! _ := lift valid in
        if claimsConflictLocked owned then fail ErrStorageConflict else ret tt
      else effect ;! reserve_attempts attempts owned
  end.

(** The reservation is kept until the deletion ends. *)
Definition reserveOwnership (owned : list string) : io unit :=
  let! _ := for_each (fun _ u => effect) owned tt in
  reserve_attempts 16 owned.

Definition revokeResumeMutation : io unit :=
  let! m := select (fun d => Ok (find_mapping d deleted)) in
  match m with
  | None => ret tt
  | Some m =>
      let! (owner, record) := select (fun d => ResumeOwnerMapping d (m_StorageID m)) in
      transact (fun d => InvalidateResumeMutation d owner record)
  end.

Definition metadataStoragePaths : io (list string * bool) :=
  effect ;!
  match metadataStorageInfo deleted with
  | None => ret ([], false)
  | Some files =>
      let! paths := lift (storagePaths files) in
      let! m := select (fun d => Ok (find_mapping d deleted)) in
      let! _ := lift (checkMappingVersion m) in
      if match m with Some m => unnamed m | None => false end then ret ([], false)
      else let! paths := lift (mapped_paths m paths) in ret (paths, true)
  end.

(** The manifest once the runtime is stopped: the metadata may have arrived until then. *)
Definition frozen_paths (paths : list string) : io (list string) :=
  effect ;!
  match frozen with
  | None => ret paths
  | Some files =>
      let paths := storagePaths files in
      let! m := select (fun d => Ok (find_mapping d deleted)) in
      let! _ := lift (checkMappingVersion m) in
      lift (let? paths := paths in mapped_paths m paths)
  end.

(** The manifest of the deletion, stored before anything is removed. *)
Definition make_manifest (id : string) : io (list string) :=
  let! (saved, pending) := select (fun d => CleanupPaths d deleted) in
  let! ready := select (fun d => CleanupReady d deleted) in
  if negb pending || negb ready then
    let! (paths, known) := metadataStoragePaths in
    if pending && negb known then fail ErrStorageConflict
    else if negb known && negb raw_exists then fail ErrStorageConflict
    else
      transact (fun d => BeginCleanup d deleted paths) ;!
      effect ;!
      transact (fun d => AdvanceDeletion d deleted id "runtime_stopped" "") ;!
      let! paths := frozen_paths paths in
      transact (fun d => SaveCleanupPaths d deleted paths) ;!
      ret paths
  else
    effect ;!
    transact (fun d => AdvanceDeletion d deleted id "runtime_stopped" "") ;!
    ret saved.

(** Empty directories above a removed file, up to the first that stays; [reversed] are the elements of the directory from its end. *)
Fixpoint prune (reversed : list string) : io unit :=
  match reversed with
  | [] => ret tt
  | _ :: above =>
      let! removed := attempt (unlink (rev reversed)) in
      match removed with Ok _ => prune above | Err _ => ret tt end
  end.

Definition remove_payload (id : string) (p : string) (removedAny : bool) : io bool :=
  effect ;!
  let! _ := select (fun d => DeletionGate d deleted id) in
  effect ;!
  let! removed := attempt (unlink (clean_parts p)) in
  let! removedAny :=
    match removed with
    | Ok _ => if removedAny then ret true else let! _ := transact (fun d => MarkDeletionPartial d deleted id) in ret true
    | Err ErrNotExist => ret removedAny
    | Err e => fail e
    end in
  prune (tail (rev (clean_parts p))) ;!
  ret removedAny.

Definition delete_payload (mode id : string) : io unit :=
  if (mode =? "keep")%string then fail ErrStorageConflict
  else
    let! recovery := select (fun d => Ok (Recovery d deleted)) in
    if recoveryBlocks recovery then fail ErrStorageConflict
    else
      let! m := select (fun d => Ok (find_mapping d deleted)) in
      if match m with Some m => (st_state (m_row m) =? "moving")%string || negb (st_manifest (m_row m) =? "")%string | None => false end
      then fail ErrStorageConflict
      else
        revokeResumeMutation ;!
        let! paths := make_manifest id in
        transact (fun d => AdvanceDeletion d deleted id "manifest_ready" "") ;!
        let owned := with_parts paths in
        effect ;!
        reserveOwnership owned ;!
        let! _ := for_each (fun p _ => effect ;! stat (fun disk => validateCleanupPath disk p)) owned tt in
        transact (fun d => AdvanceDeletion d deleted id "removing" "unknown") ;!
        let! _ := for_each (remove_payload id) owned false in
        transact (fun d => AdvanceDeletion d deleted id "removing_record" "") ;!
        transact (fun d => DeleteTorrent d deleted).

(** An error is stored with the torrent. *)
Definition saving_error (work : io unit) : io unit :=
  let! outcome := attempt work in
  match outcome with
  | Ok _ => ret tt
  | Err e => let! _ := attempt (transact (fun d => SaveDeletionError d deleted (delete_error_text e))) in fail e
  end.

Definition deletePayloadLocked (mode id : string) : io unit := saving_error (delete_payload mode id).

(** ** The commands

    [busy] is the answer of [transferProtected].  A command that waits for the record lock may fail there; the
    deletions that hold it run one after another. *)

(** [GetTorrent]: the row and the identity of the record. *)
Definition loaded (d : db) : option (torrent_row * string) :=
  (fun t => (t, match torrent_intents d !! deleted with Some i => in_record_id i | None => ""%string end)) <$> torrents d !! deleted.

Definition with_torrent (k : torrent_row -> string -> io unit) : io unit :=
  let! t := select (fun d => Ok (loaded d)) in
  match t with Some (t, id) => k t id | None => fail (ErrRepo ErrTorrentNotFound) end.

Definition forget_record (id : string) : io unit :=
  transact (fun d => BeginForget d deleted) ;!
  effect ;!
  transact (fun d => AdvanceDeletion d deleted id "removing_record" "") ;!
  let! _ := select (fun d => DeletionGate d deleted id) in
  transact (fun d => DeleteTorrent d deleted).

Definition delete_record (busy deleteFiles : bool) (mode id : string) : io unit :=
  if busy then fail ErrStorageConflict
  else
    let! rec := select (fun d => Ok (Recovery d deleted)) in
    if recoveryBlocks rec
       && match rec with
          | Some v => negb ((rc_reason (v_row v) =? "deletion_cancelled")%string && (rc_stage (v_row v) =? "cancelled")%string)
                      && negb (rc_reason (v_row v) =? "deletion_pending")%string
          | None => true
          end
    then fail ErrStorageConflict
    else
      let! m := select (fun d => Ok (find_mapping d deleted)) in
      if match m with Some m => (st_state (m_row m) =? "moving")%string || negb (st_manifest (m_row m) =? "")%string | None => false end
      then fail ErrStorageConflict
      else if deleteFiles then deletePayloadLocked mode id else forget_record id.

Definition Delete (busy deleteFiles : bool) : io unit :=
  effect ;!
  with_torrent (fun t id =>
    let mode := t_deletion_mode t in
    if (mode =? "keep")%string && deleteFiles || (mode =? "payload")%string && negb deleteFiles then fail ErrStorageConflict
    else if deleteFiles then delete_record busy deleteFiles mode id
    else saving_error (delete_record busy deleteFiles mode id)).

Definition deleteTemporaryLocked : io unit :=
  with_torrent (fun t id => if t_is_temporary t then deletePayloadLocked (t_deletion_mode t) id else fail ErrFault).

Definition recoveryExpected (id : string) (version : Z) : io RecoveryRecord :=
  let! row := select (fun d => Ok (Recovery d deleted)) in
  match row with
  | Some v =>
      if (rc_record_id (v_row v) =? id)%string && (rc_version (v_row v) =? version) then
        let! i := select (fun d => Ok (GetIntent d deleted)) in
        match i with
        | Some i => if (iv_RecordID (ti_Version i) =? id)%string then ret v else fail ErrStorageConflict
        | None => fail ErrStorageConflict
        end
      else fail ErrStorageConflict
  | None => fail ErrStorageConflict
  end.

Definition RetryDeletion (busy : bool) (id : string) (version : Z) : io unit :=
  effect ;!
  let! rec := recoveryExpected id version in
  if negb (rc_reason (v_row rec) =? "deletion_pending")%string || (rc_stage (v_row rec) =? "cancel_requested")%string then fail ErrStorageConflict
  else
    with_torrent (fun t record =>
      if busy then fail ErrStorageConflict
      else if (t_deletion_mode t =? "payload")%string then deletePayloadLocked (t_deletion_mode t) record
      else if negb (t_deletion_mode t =? "keep")%string then fail ErrStorageConflict
      else
        effect ;!
        let! _ := select (fun d => DeletionGate d deleted id) in
        transact (fun d => DeleteTorrent d deleted)).

Definition CancelDeletion (id : string) (version : Z) : io unit :=
  let! _ := recoveryExpected id version in
  transact (fun d => RequestDeletionCancel d deleted id version) ;!
  effect ;!
  let! _ := recoveryExpected id version in
  effect ;!
  transact (fun d => CompleteDeletionCancel d deleted id version).

Definition ForgetRecovered (busy : bool) (id : string) (version : Z) : io unit :=
  effect ;!
  let! rec := recoveryExpected id version in
  if negb (rc_reason (v_row rec) =? "deletion_cancelled")%string || negb (rc_stage (v_row rec) =? "cancelled")%string then fail ErrStorageConflict
  else if busy then fail ErrStorageConflict
  else
    transact (fun d => BeginForget d deleted) ;!
    effect ;!
    transact (fun d => DeleteTorrent d deleted).

Inductive deletion_command :=
| CommandDelete (busy deleteFiles : bool)
| CommandTemporary
| CommandRetry (busy : bool) (id : string) (version : Z)
| CommandCancel (id : string) (version : Z)
| CommandForget (busy : bool) (id : string) (version : Z).

Definition run_command (c : deletion_command) : io unit :=
  match c with
  | CommandDelete busy deleteFiles => Delete busy deleteFiles
  | CommandTemporary => deleteTemporaryLocked
  | CommandRetry busy id version => RetryDeletion busy id version
  | CommandCancel id version => CancelDeletion id version
  | CommandForget busy id version => ForgetRecovered busy id version
  end.

(** Commands one after another, whatever each answers. *)
Definition run_commands (cs : list deletion_command) (w : world) : world := fold_left (fun w c => snd (run_command c w)) cs w.
End Deletion.
