(* ===== verification/PayloadProperties.v ===== *)
(** * Theorems about the deletion of payload

    The deletion never removes a file of another torrent, and it is recoverable:
    the manifest is durable before the first file is removed, and the record goes
    only after the last. *)

From stdpp Require Import base gmap list strings.
From Stdlib Require Import ZArith Strings.Byte Lia.
From S2P Require Import Prelude Models Paths Layout FastResume Codec Tables IntentStore StorageStore ResumeStore Library LibraryFrame.
From S2P Require Import RootedFiles RootedFrame StorageMove MoveLogic MoveFrame MoveSafety PayloadDeletion.

#[local] Open Scope Z_scope.

#[local] Notation "'let!' x ':=' c 'in' k" := (bind c (fun x => k)) (at level 10, x pattern, c at level 100, k at level 200).
#[local] Notation "c ';!' k" := (bind c (fun _ => k)) (at level 199, right associativity).

(** ** Rooted removal *)

Lemma ancestors_answers d rest : forall seen, answers (ancestors d seen rest).
Proof.
  induction rest as [|name rest IH]; intros seen; cbn; [done|]. destruct rest as [|name' rest]; [done|]. destruct (d_nodes d !! _) as [[]|]; [apply IH|done|done].
Qed.
Lemma root_Lstat_answers d p : answers (root_Lstat d p).
Proof. unfold root_Lstat. apply answers_bind; [apply ancestors_answers|]. intros _. apply Lstat_answers. Qed.
Lemma root_Remove_answers p d : answers (root_Remove p d).
Proof. unfold root_Remove. apply answers_bind; [apply ancestors_answers|]. intros _. apply Remove_answers. Qed.

Lemma ancestors_cons d seen name name' rest : ancestors d seen (name :: name' :: rest) =
  match d_nodes d !! (seen ++ [name])%list with
  | None => Err ErrNotExist
  | Some (Regular _ _ _) => Err ErrFault
  | Some (Directory _) => ancestors d (seen ++ [name])%list (name' :: rest)
  end.
Proof. done. Qed.

(** Removing nodes only makes paths disappear. *)
Definition shrinks (d d' : disk) : Prop := forall q n, d_nodes d' !! q = Some n -> d_nodes d !! q = Some n.

#[export] Instance shrinks_preorder : PreOrder shrinks.
Proof. split; [by intros d q n|]. intros a b c H1 H2 q n Hq. by apply H1, H2. Qed.

Lemma shrinks_ancestors d d' rest : shrinks d d' -> forall seen,
  ancestors d' seen rest = Err ErrNotExist \/ ancestors d' seen rest = ancestors d seen rest.
Proof.
  intros Hs. induction rest as [|name rest IH]; intros seen; [by right|]. destruct rest as [|name' rest]; [by right|]. rewrite !ancestors_cons.
  destruct (d_nodes d' !! _) as [n|] eqn:E; [|by left]. apply Hs in E. rewrite E. destruct n; [apply IH|by right].
Qed.

Definition gone (d : disk) (p : path) : Prop := root_Lstat d p = Err ErrNotExist.

Lemma gone_shrinks d d' p : shrinks d d' -> gone d p -> gone d' p.
Proof.
  unfold gone, root_Lstat. intros Hs Hg. destruct (shrinks_ancestors d d' p Hs []) as [->| ->]; [done|]. destruct (ancestors d [] p) as [[]|]; [|done].
  unfold Lstat in *. destruct (d_nodes d' !! p) as [n|] eqn:E; [|done]. apply Hs in E. by rewrite E in Hg.
Qed.

Lemma ancestors_frame d d' rest : forall seen, (forall q, d_nodes d' !! q = d_nodes d !! q \/ (seen ++ rest)%list = q) -> ancestors d' seen rest = ancestors d seen rest.
Proof.
  induction rest as [|name rest IH]; intros seen Hq; [done|]. destruct rest as [|name' rest]; [done|]. rewrite !ancestors_cons.
  destruct (Hq (seen ++ [name])%list) as [->|He].
  - destruct (d_nodes d !! _) as [[]|]; [|done|done]. apply IH. intros q. destruct (Hq q) as [?|He]; [by left|right]. by rewrite <- He, <- app_assoc.
  - apply (f_equal length) in He. rewrite !length_app in He. cbn in He. lia.
Qed.

Lemma root_Remove_spec p d u d' : root_Remove p d = Ok (u, d') -> ancestors d [] p = Ok tt /\ is_Some (d_nodes d !! p) /\ d' = d <| d_nodes ::= delete p |>.
Proof.
  unfold root_Remove. destruct (ancestors d [] p) as [[]|]; [|done]. unfold Remove. destruct (d_nodes d !! p) as [[]|] eqn:E; [| |done].
  - destruct (names d p); [|done]. by intros [= _ <-].
  - by intros [= _ <-].
Qed.

Lemma root_Remove_shrinks p d u d' : root_Remove p d = Ok (u, d') -> shrinks d d'.
Proof. intros (_ & _ & ->)%root_Remove_spec q n Hq. cbn in Hq. by apply lookup_delete_Some in Hq as [_ ?]. Qed.

Lemma root_Remove_gone p d u d' : root_Remove p d = Ok (u, d') -> gone d' p.
Proof.
  intros (Ha & _ & ->)%root_Remove_spec. unfold gone, root_Lstat. rewrite (ancestors_frame d _ p []).
  - rewrite Ha. unfold Lstat. cbn. by rewrite lookup_delete_eq.
  - intros q. cbn. destruct (decide (p = q)) as [->|]; [by right|left]. by rewrite lookup_delete_ne.
Qed.

Lemma root_Remove_missing p d : root_Remove p d = Err ErrNotExist -> gone d p.
Proof.
  unfold root_Remove, gone, root_Lstat. destruct (ancestors d [] p) as [[]|]; [|by intros [= ->]]. unfold Remove, Lstat. destruct (d_nodes d !! p) as [[]|]; [|done|done].
  by destruct (names d p).
Qed.

(** No directory above [p] is a file that could be removed. *)
Definition clear (d : disk) (p : path) : Prop := forall q r, p = (q ++ r)%list -> q <> [] -> r <> [] -> ancestors d [] q = Ok tt ->
  match d_nodes d !! q with Some (Regular _ _ _) => False | _ => True end.

Lemma ancestors_split d q r : forall seen, r <> [] -> q <> [] -> ancestors d seen q = Ok tt ->
  ancestors d seen (q ++ r) = match d_nodes d !! (seen ++ q)%list with
    | None => Err ErrNotExist | Some (Regular _ _ _) => Err ErrFault | Some (Directory _) => ancestors d (seen ++ q)%list r end.
Proof.
  induction q as [|name q IH]; intros seen Hr Hq Ha; [done|]. destruct q as [|name' q].
  - destruct r as [|x r]; [done|]. apply ancestors_cons.
  - rewrite ancestors_cons in Ha. change ((name :: name' :: q) ++ r)%list with (name :: name' :: (q ++ r))%list. rewrite ancestors_cons.
    destruct (d_nodes d !! _) as [[]|]; [|done|done]. change (name' :: (q ++ r))%list with ((name' :: q) ++ r)%list. rewrite (IH _ Hr) by done. by rewrite <- app_assoc.
Qed.

Lemma ancestors_clear d p : ancestors d [] p <> Err ErrFault -> clear d p.
Proof.
  intros Ha q r -> Hne Hr Hq. rewrite (ancestors_split d q r [] Hr) in Ha by done. cbn [app] in Ha. by destruct (d_nodes d !! q) as [[]|].
Qed.

Lemma clear_shrinks d d' p : shrinks d d' -> clear d p -> clear d' p.
Proof.
  intros Hs Hc q r Hp Hq Hr Ha. destruct (shrinks_ancestors d d' q Hs []) as [He|He]; [congruence|]. rewrite He in Ha. specialize (Hc q r Hp Hq Hr Ha).
  destruct (d_nodes d' !! q) as [n|] eqn:E; [|done]. apply Hs in E. by rewrite E in Hc.
Qed.

(** ** Ownership *)

Section Ownership.
Context `{DeleteEnv}.
Context (fold_parts : forall s, ValidateRelative s = Ok tt -> ValidateRelative (delete_fold s) = Ok tt /\ clean_parts (delete_fold s) = map delete_fold (clean_parts s)).

Lemma disjoint_paths_spec disk overlap pairs own q : disjoint_paths disk overlap pairs = Ok tt -> (own, q) ∈ pairs -> overlap own q = false.
Proof.
  induction pairs as [|[a b] pairs IH]; cbn; [by intros _ ?%elem_of_nil|]. destruct (overlap a b) eqn:E; [done|]. destruct (storagePathsAlias disk a b) as [[]|]; [done| |done].
  intros Hd [Heq|Hin]%elem_of_cons; [by simplify_eq|auto].
Qed.

Lemma path_pairs_spec owned others own q : own ∈ owned -> q ∈ with_parts others -> (own, q) ∈ path_pairs owned others.
Proof.
  intros Ho Hq. unfold path_pairs. apply list_elem_of_In, in_concat. exists (map (fun own => (own, q)) owned). split.
  - apply in_map_iff. exists q. split; [done|by apply list_elem_of_In].
  - apply in_map_iff. exists own. split; [done|by apply list_elem_of_In].
Qed.

Lemma records_free_spec disk d owned rows hash t : records_free disk d owned rows = Ok tt -> (hash, t) ∈ rows -> hash <> deleted ->
  match find_mapping d hash with Some m => unnamed m | None => false end = false -> exists others,
  snapshotStoragePaths d hash t = Ok others /\ forall own q, own ∈ owned -> q ∈ with_parts others -> pathsOverlap own q = false.
Proof.
  induction rows as [|[h u] rows IH]; cbn; [by intros _ ?%elem_of_nil|]. intros Hf Hin Hne Hun. apply elem_of_cons in Hin as [Heq|Hin].
  - injection Heq as <- <-. destruct (String.eqb_spec hash deleted); [done|]. rewrite Hun in Hf. cbn in Hf.
    destruct (snapshotStoragePaths d hash t) as [others|]; [|done]. exists others. split; [done|]. intros own q Ho Hq.
    assert (disjoint_paths disk pathsOverlap (path_pairs owned others) = Ok tt) as Hd.
    { destruct owned as [|o owned]; [by apply elem_of_nil in Ho|]. destruct others as [|p others]; [done|]. by destruct (disjoint_paths _ _ _) as [[]|]. }
    eapply disjoint_paths_spec; [exact Hd|]. by apply path_pairs_spec.
  - destruct (_ || _); [by apply IH|]. destruct (snapshotStoragePaths d h u) as [others|]; [|done].
    assert (records_free disk d owned rows = Ok tt) as Hr by (destruct owned, others; try done; by destruct (disjoint_paths _ _ _) as [[]|]). by apply IH.
Qed.

Lemma mappings_free_tail disk d owned row rows : mappings_free disk d owned (row :: rows) = Ok tt -> mappings_free disk d owned rows = Ok tt.
Proof.
  destruct row as [h u]. cbn. destruct (_ || _); [done|]. destruct (st_root u =? "")%string.
  - case_bool_decide; [done|]. destruct (metadataStorageInfo h) as [files|]; [|done]. destruct (storagePaths files) as [paths|]; [|done]. by destruct (disjoint_paths _ _ _) as [[]|].
  - destruct (match find_mapping d deleted with Some _ => _ | None => _ end); [done|]. by destruct (forallb _ owned).
Qed.

Lemma mappings_free_spec disk d owned rows alias s : mappings_free disk d owned rows = Ok tt -> (alias, s) ∈ rows -> alias <> deleted ->
  st_root s <> ""%string -> (forall own, find_mapping d deleted = Some own -> st_root (m_row own) <> st_root s) ->
  forall own, own ∈ owned -> ownershipOverlap own (st_root s) = false.
Proof.
  induction rows as [|row rows IH]; [by intros _ ?%elem_of_nil|]. intros Hf Hin Hne Hroot Hother own Ho. apply elem_of_cons in Hin as [<-|Hin]; [|eauto using mappings_free_tail].
  cbn in Hf. destruct (String.eqb_spec alias deleted); [done|]. unfold unnamed in Hf. cbn in Hf. destruct (String.eqb_spec (st_root s) ""); [done|]. rewrite andb_false_r in Hf.
  destruct (find_mapping d deleted) as [m|]; [destruct (String.eqb_spec (st_root (m_row m)) (st_root s)); [by destruct (Hother m)|]|];
    (destruct (forallb _ owned) eqn:E; [|done]; rewrite forallb_forall in E; by apply negb_true_iff, E, list_elem_of_In).
Qed.

Lemma mappings_free_legacy disk d owned rows alias s files paths : mappings_free disk d owned rows = Ok tt -> (alias, s) ∈ rows -> alias <> deleted ->
  st_root s = ""%string -> unnamed (mkStorageMapping alias s) = false -> torrents d !! alias = None ->
  metadataStorageInfo alias = Some files -> storagePaths files = Ok paths -> forall own q, own ∈ owned -> q ∈ with_parts paths -> ownershipOverlap own q = false.
Proof.
  induction rows as [|row rows IH]; [by intros _ ?%elem_of_nil|]. intros Hf Hin Hne Hroot Hun Hrow Hmeta Hpaths own q Ho Hq. apply elem_of_cons in Hin as [<-|Hin]; [|eauto using mappings_free_tail].
  cbn in Hf. destruct (String.eqb_spec alias deleted); [done|]. rewrite Hun, Hroot, Hmeta, Hpaths in Hf. cbn in Hf. rewrite bool_decide_eq_false_2 in Hf by (rewrite Hrow; by intros []).
  destruct (disjoint_paths _ _ _) as [[]|] eqn:E; [|done]. eapply disjoint_paths_spec; [exact E|]. by apply path_pairs_spec.
Qed.

(** A place that belongs to another torrent: below a path of the files of its record, below the root that a mapping reserves,
    or below a path of the files of a mapping of the shared layout that was kept without its record. *)
Definition foreign_record (d : db) (q : path) : Prop := exists hash t others p, torrents d !! hash = Some t /\ hash <> deleted
  /\ match find_mapping d hash with Some m => unnamed m | None => false end = false
  /\ snapshotStoragePaths d hash t = Ok others /\ p ∈ with_parts others /\ ValidateRelative p = Ok tt /\ clean_parts p `prefix_of` q.
Definition foreign_root (d : db) (q : path) : Prop := exists alias s, torrent_storage d !! alias = Some s /\ alias <> deleted /\ ValidateRelative (st_root s) = Ok tt
  /\ (forall own, find_mapping d deleted = Some own -> st_root (m_row own) <> st_root s) /\ clean_parts (st_root s) `prefix_of` q.
Definition foreign_legacy (d : db) (q : path) : Prop := exists alias s files paths p, torrent_storage d !! alias = Some s /\ alias <> deleted
  /\ st_root s = ""%string /\ unnamed (mkStorageMapping alias s) = false /\ torrents d !! alias = None
  /\ metadataStorageInfo alias = Some files /\ storagePaths files = Ok paths /\ p ∈ with_parts paths /\ ValidateRelative p = Ok tt /\ clean_parts p `prefix_of` q.
Definition foreign (d : db) (q : path) : Prop := foreign_record d q \/ foreign_root d q \/ foreign_legacy d q.

Lemma map_prefix {A B} (f : A -> B) xs ys : xs `prefix_of` ys -> map f xs `prefix_of` map f ys.
Proof. intros [zs ->]. exists (map f zs). apply map_app. Qed.

Lemma relative_root r : ValidateRelative r = Ok tt -> r <> ""%string.
Proof. by intros Hr ->. Qed.

Lemma validated_relative disk owned d own : validateOwnershipSnapshot disk owned d = Ok tt -> own ∈ owned -> ValidateRelative own = Ok tt.
Proof.
  unfold validateOwnershipSnapshot. destruct (claims_free d owned); [|done]. destruct (application_free owned) eqn:Ha; [|done]. intros _ Ho.
  unfold application_free in Ha. rewrite forallb_forall in Ha. apply list_elem_of_In, Ha, andb_true_iff in Ho as [[Ho _]%andb_true_iff _]. by apply is_ok_ValidateRelative.
Qed.

Lemma fold_overlap own q : ValidateRelative own = Ok tt -> ValidateRelative q = Ok tt -> clean_parts q `prefix_of` clean_parts own -> ownershipOverlap own q = true.
Proof using fold_parts.
  intros Hown Hq Hp. destruct (fold_parts own Hown) as [Ho1 Ho2], (fold_parts q Hq) as [Hr1 Hr2].
  apply overlap_is_ancestry; [done..|]. right. rewrite Ho2, Hr2. by apply map_prefix.
Qed.

Lemma validated_spares disk owned d own : validateOwnershipSnapshot disk owned d = Ok tt -> own ∈ owned -> ~ foreign d (clean_parts own).
Proof using fold_parts.
  intros Hv0 Ho. pose proof (validated_relative _ _ _ _ Hv0 Ho) as Hown. revert Hv0. unfold validateOwnershipSnapshot.
  destruct (claims_free d owned); [|done]. destruct (application_free owned); [|done]. cbn [negb].
  destruct (records_free disk d owned _) as [[]|] eqn:Hr; [|done]. intros Hm.
  intros [(hash & t & others & p & Ht & Hne & Hun & Hs & Hp & Hv & Hq)|[(alias & s & Hs & Hne & Hv & Hother & Hq)|(alias & s & files & paths & p & Hs & Hne & Hroot & Hun & Hrow & Hmeta & Hpaths & Hp & Hv & Hq)]].
  - destruct (records_free_spec _ _ _ _ hash t Hr) as (others' & Hs' & Hd); [by apply elem_of_map_to_list|done..|]. assert (others' = others) as -> by congruence.
    assert (pathsOverlap own p = true) as E; [|by rewrite (Hd own p Ho Hp) in E]. apply overlap_is_ancestry; auto.
  - assert (ownershipOverlap own (st_root s) = false) as E.
    { eapply mappings_free_spec; [exact Hm|by apply elem_of_map_to_list|done|by apply relative_root|done|done]. }
    by rewrite fold_overlap in E.
  - assert (ownershipOverlap own p = false) as E.
    { eapply mappings_free_legacy; [exact Hm|by apply elem_of_map_to_list|done..]. }
    by rewrite fold_overlap in E.
Qed.

(** A database in which the rows of the other torrents and the mappings are the same has the same foreign places. *)
Definition others_kept (d0 d : db) : Prop := (forall h, h <> deleted -> torrents d !! h = torrents d0 !! h) /\ torrent_storage d = torrent_storage d0.

Lemma foreign_kept d0 d q : others_kept d0 d -> foreign d0 q -> foreign d q.
Proof.
  intros [Ht Hs]. assert (forall h, find_mapping d h = find_mapping d0 h) as Hm by (intros h; unfold find_mapping; by rewrite Hs).
  intros [(hash & t & others & p & H1 & H2 & H3 & H4 & H5)|[(alias & s & H1 & H2 & H3 & H4 & H5)|(alias & s & files & paths & p & H1 & H2 & H3 & H4 & H5 & H6)]].
  - left. exists hash, t, others, p. split_and!; [by rewrite Ht|done|by rewrite Hm| |apply H5..]. unfold snapshotStoragePaths. by rewrite Hm.
  - right. left. exists alias, s. split_and!; [by rewrite Hs|done|done|by rewrite Hm|done].
  - right. right. exists alias, s, files, paths, p. split_and!; [by rewrite Hs|done|done|done|by rewrite Ht|apply H6..].
Qed.
End Ownership.

(** ** Transactions *)

Definition quiet (d d' : db) : Prop := torrents d' = torrents d /\ torrent_storage d' = torrent_storage d.

Lemma frame_quiet ts d d' : bool_decide (Torrents ∈ ts) = false -> bool_decide (Storage ∈ ts) = false -> frame ts d d' -> quiet d d'.
Proof. intros Ht Hs Hf. split; [by apply (Hf Torrents)|by apply (Hf Storage)]. Qed.


Lemma quiet_advance d hash id stage removed : quiet d (snd (AdvanceDeletion d hash id stage removed)).
Proof. apply (frame_quiet (touches (OpAdvanceDeletion hash id stage removed))); [done..|]. apply (apply_frame (fun s => s) (fun _ => [])). Qed.
Lemma quiet_partial d hash id : quiet d (snd (MarkDeletionPartial d hash id)).
Proof. apply (frame_quiet (touches (OpMarkDeletionPartial hash id))); [done..|]. apply (apply_frame (fun s => s) (fun _ => [])). Qed.
Lemma quiet_cancel d hash id version : quiet d (snd (RequestDeletionCancel d hash id version)).
Proof. apply (frame_quiet (touches (OpRequestDeletionCancel hash id version))); [done..|]. apply (apply_frame (fun s => s) (fun _ => [])). Qed.
Lemma quiet_invalidate d m record : quiet d (snd (InvalidateResumeMutation d m record)).
Proof. apply (frame_quiet (touches (OpInvalidateResumeMutation m record))); [done..|]. apply (apply_frame (fun s => s) (fun _ => [])). Qed.

(** A statement on one torrent. *)
Lemma update_torrent_effect hash selected set d n d' : update_torrent hash selected set d = Ok (n, d') ->
  torrent_storage d' = torrent_storage d /\ (torrents d' = torrents d \/ exists old, torrents d !! hash = Some old /\ torrents d' = <[hash := set old]> (torrents d)) /\
  (n = 1 -> exists old, torrents d !! hash = Some old /\ torrents d' = <[hash := set old]> (torrents d)).
Proof.
  intros E. split; [apply update_torrent_frame in E; by apply (E Storage)|]. revert E. unfold update_torrent.
  destruct (torrents d !! hash) as [old|] eqn:Ho; [|intros [= <- <-]; split; [by left|done]]. destruct (selected old); [|intros [= <- <-]; split; [by left|done]].
  destruct (resume_deletion_intent _ _ _ d) as [d1|] eqn:E1; [|done]. destruct (recovery_deletion_intent _ _ _ _) as [d2|] eqn:E2; [|done]. intros [= <- <-].
  apply resume_deletion_intent_frame in E1. apply recovery_deletion_intent_frame in E2. pose proof (E1 Torrents eq_refl) as H1. pose proof (E2 Torrents eq_refl) as H2. cbn in H1, H2.
  rewrite H1 in H2. split; [right|intros _]; by exists old.
Qed.

Lemma save_paths_effect d hash paths ready d' : writeCleanupPaths d hash paths ready = (Ok tt, d') -> torrent_storage d' = torrent_storage d /\
  exists t, torrents d' = <[hash := t]> (torrents d) /\ t_cleanup_paths t = Some paths /\ t_cleanup_ready t = ready.
Proof.
  unfold writeCleanupPaths, affecting_one. destruct (update_torrent _ _ _ d) as [[n d1]|] eqn:E; [|done]. destruct (Z.eqb_spec n 1) as [->|]; [|done]. cbn [negb]. intros [= <-].
  apply update_torrent_effect in E as (Hs & _ & Hn). destruct (Hn eq_refl) as (old & _ & ->). split; [done|]. by eexists.
Qed.

Lemma save_error_effect d hash cause : torrent_storage (snd (SaveDeletionError d hash cause)) = torrent_storage d /\
  (torrents (snd (SaveDeletionError d hash cause)) = torrents d \/ exists old new, torrents d !! hash = Some old
     /\ torrents (snd (SaveDeletionError d hash cause)) = <[hash := new]> (torrents d) /\ t_cleanup_paths new = t_cleanup_paths old /\ t_cleanup_ready new = t_cleanup_ready old).
Proof.
  unfold SaveDeletionError, atomically. destruct (update_torrent _ _ _ d) as [[n d1]|] eqn:E; cbn [snd]; [|split; [done|by left]].
  apply update_torrent_effect in E as (Hs & Ht & _). split; [done|]. destruct Ht as [?|(old & Ho & Ht)]; [by left|right]. exists old. eexists. split_and!; [done|exact Ht|done|done].
Qed.

Lemma delete_torrent_effect d hash d' : DeleteTorrent d hash = (Ok tt, d') -> torrents d' !! hash = None.
Proof.
  unfold DeleteTorrent, atomically, DeleteTorrent_tx. cbv zeta. destruct (_ && _); [done|]. set (d1 := d <| storage_claims ::= _ |> <| torrent_download_blocks ::= _ |> <| viewed_history ::= _ |> <| files ::= _ |>).
  destruct (delete_torrent_row hash d1) as [d2|] eqn:E2; [|done]. assert (torrents d2 !! hash = None) as H2.
  { revert E2. unfold delete_torrent_row. destruct (torrents d1 !! hash) eqn:Ht; [|by intros [= <-]]. destruct (delete_intent hash d1) as [d3|]; [|done]. intros [= <-]. cbn. apply lookup_delete_eq. }
  destruct (_ =? _)%string; [|by intros [= <-]]. destruct (each_row delete_storage _ d2) as [d3|] eqn:E3; [|done]. intros [= <-].
  apply delete_storages_frame in E3. pose proof (E3 Torrents eq_refl) as H3. cbn in H3. by rewrite H3.
Qed.

(** ** Calls *)

Section Calls.
Context `{DeleteEnv}.

(** What the faults and the request to cancel do not change. *)
Record stable (P : world -> Prop) : Prop := {
  stable_faults : forall w faults, P w -> P (w <| w_faults := faults |>);
  stable_cancel : forall w, P w -> P (w <| w_db ::= cancel_deletion |>);
}.

Lemma stable_command P w c : stable P -> P w -> P (w <| w_db ::= command_effect c |>).
Proof. intros [_ Hc] Hw. destruct c; [by destruct w..|by apply Hc]. Qed.

Lemma cancel_quiet d : quiet d (cancel_deletion d).
Proof. unfold cancel_deletion. destruct (storage_recovery d !! deleted); [apply quiet_cancel|done]. Qed.

Lemma t_call {A} (P : world -> Prop) (op : world -> result MoveError (A * world)) Q (E : world -> Prop) : stable P ->
  (forall w a w', P w -> op w = Ok (a, w') -> Q a w' /\ E w') -> (forall w, P w -> E w) -> (forall w, answers (op w)) -> triple P (call op) Q E.
Proof.
  intros Hst HQ HE Ha w Hw. pose proof (stable_faults _ Hst) as Hf. unfold call.
  assert (forall w, P w -> match match op w with Ok (a, w') => (Ok a, w') | Err e => (Err e, w) end with (Ok a, w') => Q a w' | (Err e, w') => E w' /\ e <> OutOfFuel end) as Hrun.
  { intros w1 Hw1. destruct (op w1) as [[a w2]|e] eqn:Eo; [by eapply HQ|]. split; [by apply HE|]. intros ->. by apply (Ha w1). }
  destruct (w_faults w) as [|f faults]; [by apply Hrun|]. pose proof (Hf w faults Hw) as Hw'. destruct f; cbv zeta.
  - by apply Hrun.
  - split; [by apply HE|done].
  - destruct (op _) as [[a w2]|e] eqn:Eo; [split; [by eapply HQ|done]|]. split; [by apply HE|]. intros ->. by apply (Ha (w <| w_faults := faults |>)).
  - apply Hrun. by apply stable_command.
Qed.

(** A call whose error the code looks at: an error other than a fault is the call's own. *)
Lemma t_attempt_call {A} (P : world -> Prop) (op : world -> result MoveError (A * world)) Q (E E' : world -> Prop) : stable P ->
  (forall w a w', P w -> op w = Ok (a, w') -> Q a w' /\ E w') -> (forall w, P w -> E w) -> (forall w, answers (op w)) ->
  triple P (attempt (call op)) (fun r w => match r with Ok a => Q a w | Err e => e <> OutOfFuel /\ E w /\ (e <> ErrFault -> P w /\ op w = Err e) end) E'.
Proof.
  intros Hst HQ HE Ha w Hw. pose proof (stable_faults _ Hst) as Hf. unfold attempt, call.
  assert (forall w, P w -> let '(r, w') := match op w with Ok (a, w') => (Ok a, w') | Err e => (Err e, w) end in
    match r with Ok a => Q a w' | Err e => e <> OutOfFuel /\ E w' /\ (e <> ErrFault -> P w' /\ op w' = Err e) end) as Hrun.
  { intros w1 Hw1. destruct (op w1) as [[a w2]|e] eqn:Eo; [by eapply HQ|]. split_and!; [intros ->; by apply (Ha w1)|by apply HE|]. done. }
  destruct (w_faults w) as [|f faults].
  { specialize (Hrun w Hw). by destruct (op w) as [[a w2]|e]. }
  pose proof (Hf w faults Hw) as Hw'. destruct f; cbv zeta.
  - specialize (Hrun _ Hw'). by destruct (op _) as [[a w2]|e].
  - split_and!; [done|by apply HE|done].
  - specialize (Hrun _ Hw'). destruct (op _) as [[a w2]|e] eqn:Eo; [|done]. split_and!; [done| |done]. by eapply HQ.
  - specialize (Hrun _ (stable_command _ _ c Hst Hw')). by destruct (op _) as [[a w2]|e].
Qed.

Lemma t_effect P : stable P -> triple P effect (fun _ => P) P.
Proof. intros HP. apply t_call; [done| |done|done]. by intros w a w' Hw [= <- <-]. Qed.

Lemma t_stat {A} P (f : disk -> result MoveError A) : stable P -> (forall d, answers (f d)) ->
  triple P (stat f) (fun a w => P w /\ exists d, f d = Ok a) P.
Proof.
  intros HP Ha. apply t_call; [done| |done|].
  - intros w a w' Hw Ho. destruct (f (w_disk w)) as [b|] eqn:E; [|done]. injection Ho as <- <-. split; [|done]. eauto.
  - intros w. apply answers_bind; [apply Ha|done].
Qed.

Lemma t_select {A} P (f : db -> result RepoError A) : stable P -> triple P (select f) (fun a w => P w /\ f (w_db w) = Ok a) P.
Proof.
  intros HP. apply t_call; [done| |done|].
  - intros w a w' Hw Ho. destruct (f (w_db w)) as [b|] eqn:E; [|done]. by injection Ho as <- <-.
  - intros w. by destruct (f (w_db w)).
Qed.

Lemma t_read {A} P (f : db -> result RepoError A) : stable P -> triple P (select f) (fun _ => P) P.
Proof. intros HP. eapply t_conseq; [by apply t_select|done| |done]. by intros a w []. Qed.

Lemma t_transact {A} P (f : db -> result RepoError A * db) Q E : stable P ->
  (forall w a d', P w -> f (w_db w) = (Ok a, d') -> Q a (w <| w_db := d' |>) /\ E (w <| w_db := d' |>)) -> (forall w, P w -> E w) -> triple P (transact f) Q E.
Proof.
  intros HP Hf HE. apply t_call; [done| |done|].
  - intros w a w' Hw Ho. destruct (f (w_db w)) as [[b|] d'] eqn:E0; [|done]. injection Ho as <- <-. by apply Hf.
  - intros w. by destruct (f (w_db w)) as [[]].
Qed.

(** A transaction that leaves the rows of torrents and mappings alone. *)
Lemma t_quiet {A} P (f : db -> result RepoError A * db) : stable P -> (forall d, quiet d (snd (f d))) ->
  (forall w d', P w -> quiet (w_db w) d' -> P (w <| w_db := d' |>)) -> triple P (transact f) (fun _ => P) P.
Proof. intros HP Hq Hc. apply t_transact; [done| |done]. intros w a d' Hw Ho. specialize (Hq (w_db w)). rewrite Ho in Hq. split; by apply Hc. Qed.

Lemma t_each {X S : Type} (P : world -> Prop) (f : X -> S -> io S) E : (forall x s, triple P (f x s) (fun _ => P) E) -> forall xs s, triple P (for_each f xs s) (fun _ => P) E.
Proof. intros Hf. induction xs as [|x xs IH]; intros s; cbn [for_each]; [by apply t_ret|]. eapply t_bind; [apply Hf|]. intros s'. apply IH. Qed.
End Calls.

(** ** Answers of the checks *)

Lemma each_path_answers f paths : (forall p, answers (f p)) -> answers (each_path f paths).
Proof. intros Hf. induction paths as [|p paths IH]; cbn; [done|]. apply answers_bind; [apply Hf|]. intros q. by apply answers_bind. Qed.
Lemma storagePaths_answers files : answers (storagePaths files).
Proof. apply each_path_answers. intros p. by destruct (is_ok _). Qed.
Lemma mapped_paths_answers m paths : answers (mapped_paths m paths).
Proof. destruct m as [m|]; [|done]. cbn. destruct (Supported _); [|done]. apply each_path_answers. intros p. by destruct (Layout_Path _ _). Qed.
Lemma mapping_version_answers m : answers (checkMappingVersion m).
Proof. destruct m as [m|]; [|done]. cbn. by repeat case_match. Qed.
Lemma cleanup_path_answers d p : answers (validateCleanupPath d p).
Proof. unfold validateCleanupPath. by destruct (is_ok _). Qed.

Section Answers.
Context `{DeleteEnv}.

Lemma alias_answers disk a b : answers (storagePathsAlias disk a b).
Proof.
  unfold storagePathsAlias. pose proof (root_Lstat_answers disk (clean_parts a)) as Ha. pose proof (root_Lstat_answers disk (clean_parts b)) as Hb. unfold answers in *.
  destruct (root_Lstat disk (clean_parts a)) as [x|[]]; try done. by destruct (root_Lstat disk (clean_parts b)) as [y|[]].
Qed.
Lemma disjoint_paths_answers disk overlap pairs : answers (disjoint_paths disk overlap pairs).
Proof. induction pairs as [|[a b] pairs IH]; cbn; [done|]. destruct (overlap a b); [done|]. apply answers_bind; [apply alias_answers|]. by intros []. Qed.
Lemma snapshot_paths_answers d hash t : answers (snapshotStoragePaths d hash t).
Proof.
  unfold snapshotStoragePaths. cbv zeta. apply answers_bind; [apply mapping_version_answers|]. intros _.
  destruct (t_cleanup_paths t) as [ps|]; [destruct (t_cleanup_ready t); [done|]|]; (destruct (metadataStorageInfo hash) as [files|];
    [apply answers_bind; [apply storagePaths_answers|]; intros ps'; apply mapped_paths_answers|destruct (find_mapping d hash) as [m|]; [|done]; by destruct (_ && _)]).
Qed.
Lemma records_free_answers disk d owned rows : answers (records_free disk d owned rows).
Proof.
  induction rows as [|[h t] rows IH]; cbn; [done|]. destruct (_ || _); [done|]. apply answers_bind; [apply snapshot_paths_answers|]. intros others.
  destruct owned, others; try done; (apply answers_bind; [apply disjoint_paths_answers|done]).
Qed.
Lemma mappings_free_answers disk d owned rows : answers (mappings_free disk d owned rows).
Proof.
  induction rows as [|[h s] rows IH]; cbn; [done|]. destruct (_ || _); [done|]. destruct (_ =? _)%string.
  - case_bool_decide; [done|]. destruct (metadataStorageInfo h); [|done]. apply answers_bind; [apply storagePaths_answers|]. intros ps. apply answers_bind; [apply disjoint_paths_answers|done].
  - destruct (match find_mapping _ _ with Some _ => _ | None => _ end); [done|]. by destruct (forallb _ _).
Qed.
Lemma ownership_answers disk owned d : answers (validateOwnershipSnapshot disk owned d).
Proof.
  unfold validateOwnershipSnapshot. destruct (negb _); [done|]. destruct (negb _); [done|]. apply answers_bind; [apply records_free_answers|]. intros _. apply mappings_free_answers.
Qed.
End Answers.

(** ** The run *)

Section Run.
Context `{DeleteEnv}.
Context (fold_parts : forall s, ValidateRelative s = Ok tt -> ValidateRelative (delete_fold s) = Ok tt /\ clean_parts (delete_fold s) = map delete_fold (clean_parts s)).
(** The world before the deletion. *)
Context (w0 : world).

Definition owned_places (paths : list string) : list path := map clean_parts (with_parts paths).

(** Only places of the manifest have lost a file. *)
Definition lost_only (paths : list string) (d : disk) : Prop := forall q n, is_regular n -> d_nodes (w_disk w0) !! q = Some n ->
  d_nodes d !! q = Some n \/ q ∈ owned_places paths.

Definition manifest (paths : list string) (d : db) : Prop := exists t, torrents d !! deleted = Some t /\ t_cleanup_paths t = Some paths /\ t_cleanup_ready t = true.

(** The manifest a deletion owes: the one that is stored and ready, else the files of the torrent as its mapping places
    them, by the metadata of the stopped runtime or, without it, by the metadata known before. *)
Definition placed (m : option StorageMapping) (files : list string) : result MoveError (list string) := let? paths := storagePaths files in mapped_paths m paths.
Definition known_paths (m : option StorageMapping) : result MoveError (list string) :=
  match metadataStorageInfo deleted with
  | Some files => if match m with Some m => unnamed m | None => false end then Ok [] else placed m files
  | None => Ok []
  end.
Definition owed_paths (d : db) : result MoveError (list string) :=
  match torrents d !! deleted with
  | None => Err ErrNotExist
  | Some t =>
      match t_cleanup_paths t, t_cleanup_ready t with
      | Some paths, true => Ok paths
      | _, _ => match frozen with Some files => placed (find_mapping d deleted) files | None => known_paths (find_mapping d deleted) end
      end
  end.
Definition owed (paths : list string) : Prop := owed_paths (w_db w0) = Ok paths.

Definition unharmed (w : world) : Prop := others_kept (w_db w0) (w_db w) /\ is_Some (torrents (w_db w) !! deleted) /\ w_disk w = w_disk w0.
Definition recorded (paths : list string) (w : world) : Prop := unharmed w /\ manifest paths (w_db w).
(** Before the manifest is written. *)
Definition fresh (w : world) : Prop := unharmed w /\ torrents (w_db w) !! deleted = torrents (w_db w0) !! deleted.
Definition spares (paths : list string) : Prop := owed paths /\ forall q, foreign (w_db w0) q -> q ∉ owned_places paths.
Definition relative (paths : list string) : Prop := forall p, p ∈ with_parts paths -> clean_parts p <> [].
Definition removing (paths : list string) (done : list path) (w : world) : Prop :=
  others_kept (w_db w0) (w_db w) /\ manifest paths (w_db w) /\ lost_only paths (w_disk w) /\ forall q, q ∈ done -> gone (w_disk w) q.
Definition finished (paths : list string) (w : world) : Prop :=
  torrents (w_db w) !! deleted = None /\ lost_only paths (w_disk w) /\ forall q, q ∈ owned_places paths -> gone (w_disk w) q.

(** How a run may end. *)
Definition ended (w : world) : Prop := unharmed w \/ exists paths, spares paths /\ (removing paths [] w \/ finished paths w).

Lemma others_quiet d d' : quiet d d' -> others_kept (w_db w0) d -> others_kept (w_db w0) d'.
Proof. intros [Ht Hs] [Ho Hst]. split; [intros h Hh; by rewrite Ht, Ho|congruence]. Qed.
Lemma manifest_quiet paths d d' : quiet d d' -> manifest paths d -> manifest paths d'.
Proof. intros [Ht _] (t & Hm & ?). exists t. by rewrite Ht. Qed.

Lemma unharmed_quiet w d' : unharmed w -> quiet (w_db w) d' -> unharmed (w <| w_db := d' |>).
Proof. intros (Ho & Hr & Hd) Hq. split_and!; [by eapply others_quiet|cbn; by destruct Hq as [-> _]|done]. Qed.
Lemma recorded_quiet paths w d' : recorded paths w -> quiet (w_db w) d' -> recorded paths (w <| w_db := d' |>).
Proof. intros [Hu Hm] Hq. split; [by apply unharmed_quiet|by eapply manifest_quiet]. Qed.
Lemma removing_quiet paths gone w d' : removing paths gone w -> quiet (w_db w) d' -> removing paths gone (w <| w_db := d' |>).
Proof. intros (Ho & Hm & Hd) Hq. split_and!; [by eapply others_quiet|by eapply manifest_quiet|apply Hd..]. Qed.

Lemma stable_quiet P : (forall w faults, P w -> P (w <| w_faults := faults |>)) -> (forall w d', P w -> quiet (w_db w) d' -> P (w <| w_db := d' |>)) -> stable P.
Proof. intros Hf Hq. split; [done|]. intros w Hw. apply Hq; [done|]. apply cancel_quiet. Qed.

Lemma fresh_quiet w d' : fresh w -> quiet (w_db w) d' -> fresh (w <| w_db := d' |>).
Proof. intros [Hu Hr] Hq. split; [by apply unharmed_quiet|]. cbn. by destruct Hq as [-> _]. Qed.
Lemma unharmed_mapping w : unharmed w -> find_mapping (w_db w) deleted = find_mapping (w_db w0) deleted.
Proof. intros ([_ Hs] & _). unfold find_mapping. by rewrite Hs. Qed.

Lemma unharmed_stable : stable unharmed.
Proof. apply stable_quiet; [done|]. apply unharmed_quiet. Qed.
Lemma recorded_stable paths : stable (recorded paths).
Proof. apply stable_quiet; [done|]. apply recorded_quiet. Qed.
Lemma removing_stable paths gone : stable (removing paths gone).
Proof. apply stable_quiet; [done|]. apply removing_quiet. Qed.
Lemma fresh_stable : stable fresh.
Proof. apply stable_quiet; [done|]. apply fresh_quiet. Qed.
Hint Resolve unharmed_stable recorded_stable removing_stable fresh_stable : core.

Lemma fresh_unharmed w : fresh w -> unharmed w.
Proof. by intros [? _]. Qed.

Lemma recorded_unharmed paths w : recorded paths w -> unharmed w.
Proof. by intros [? _]. Qed.

(** *** The manifest *)

Lemma t_revoke : triple fresh revokeResumeMutation (fun _ => fresh) fresh.
Proof.
  unfold revokeResumeMutation. eapply t_bind; [exact (t_read fresh _ fresh_stable)|]. intros m. cbv beta.
  destruct m as [m|]; [|by apply t_ret]. eapply t_bind; [exact (t_read fresh _ fresh_stable)|]. intros [owner record]. cbv beta.
  apply t_quiet; [done| |apply fresh_quiet]. intros d. apply quiet_invalidate.
Qed.

(** Reading the mapping, which nobody changes. *)
Lemma t_mapping P : stable P -> (forall w, P w -> unharmed w) ->
  triple P (select (fun d => Ok (find_mapping d deleted))) (fun m w => P w /\ m = find_mapping (w_db w0) deleted) P.
Proof. intros HP Hu. eapply t_conseq; [exact (t_select P _ HP)|done| |done]. intros m w [Hw [= <-]]. split; [done|]. by apply unharmed_mapping, Hu. Qed.

Lemma t_metadata : triple fresh metadataStoragePaths (fun r w => fresh w /\ known_paths (find_mapping (w_db w0) deleted) = Ok (fst r)) fresh.
Proof.
  unfold metadataStoragePaths, known_paths. eapply t_bind; [exact (t_effect fresh fresh_stable)|]. intros ?. destruct (metadataStorageInfo deleted) as [files|]; [|by apply t_ret].
  eapply t_bind; [apply t_lift with (Q := fun paths w => fresh w /\ storagePaths files = Ok paths); [apply storagePaths_answers|done|done]|]. intros paths. apply t_pure. intros Hpaths.
  eapply t_bind; [exact (t_mapping fresh fresh_stable fresh_unharmed)|]. intros m. cbv beta. apply t_pure. intros ->.
  eapply t_bind; [apply t_lift with (Q := fun _ => fresh); [apply mapping_version_answers|done|done]|]. intros ?.
  destruct (match find_mapping (w_db w0) deleted with Some m => unnamed m | None => false end); [by apply t_ret|].
  eapply t_bind; [apply t_lift with (Q := fun mapped w => fresh w /\ mapped_paths (find_mapping (w_db w0) deleted) paths = Ok mapped); [apply mapped_paths_answers|done|done]|].
  intros mapped. apply t_pure. intros Hm. apply t_ret. intros w Hw. split; [done|]. unfold placed. by rewrite Hpaths.
Qed.

Lemma t_frozen paths : triple unharmed (frozen_paths paths)
  (fun final w => unharmed w /\ match frozen with Some files => placed (find_mapping (w_db w0) deleted) files = Ok final | None => final = paths end) unharmed.
Proof.
  unfold frozen_paths. eapply t_bind; [exact (t_effect unharmed unharmed_stable)|]. intros ?. destruct frozen as [files|]; [|by apply t_ret]. cbv zeta.
  eapply t_bind; [exact (t_mapping unharmed unharmed_stable (fun w Hw => Hw))|]. intros m. cbv beta. apply t_pure. intros ->.
  eapply t_bind; [apply t_lift with (Q := fun _ => unharmed); [apply mapping_version_answers|done|done]|]. intros ?. apply t_lift; [|done|done].
  apply answers_bind; [apply storagePaths_answers|]. intros ps. apply mapped_paths_answers.
Qed.

Lemma t_advance_deletion P id stage removed : stable P -> (forall w d', P w -> quiet (w_db w) d' -> P (w <| w_db := d' |>)) ->
  triple P (transact (fun d => AdvanceDeletion d deleted id stage removed)) (fun _ => P) P.
Proof. intros HP Hq. apply t_quiet; [done| |done]. intros d. apply quiet_advance. Qed.

Lemma write_paths_unharmed w paths ready d' : unharmed w -> writeCleanupPaths (w_db w) deleted paths ready = (Ok tt, d') ->
  unharmed (w <| w_db := d' |>) /\ (ready = true -> manifest paths d').
Proof.
  intros ([Ho Hs] & Hr & Hd) (Hst & t & Ht & Hp & Hready)%save_paths_effect. split.
  - split_and!; [split; cbn; [|congruence]|cbn; rewrite Ht, lookup_insert_eq; by eexists|done]. intros h Hh. rewrite Ht, lookup_insert_ne by done. by apply Ho.
  - intros ->. exists t. by rewrite Ht, lookup_insert_eq.
Qed.

(** The row at the start has no manifest that is ready. *)
Definition unready : Prop := exists t, torrents (w_db w0) !! deleted = Some t /\ (t_cleanup_paths t = None \/ t_cleanup_ready t = false).

Lemma unready_owed final paths : unready -> known_paths (find_mapping (w_db w0) deleted) = Ok paths ->
  match frozen with Some files => placed (find_mapping (w_db w0) deleted) files = Ok final | None => final = paths end -> owed final.
Proof.
  intros (t & Ht & Hr) Hk Hf. unfold owed, owed_paths. rewrite Ht. destruct (t_cleanup_paths t); [destruct Hr as [?| ->]; [done|]|]; destruct frozen; congruence.
Qed.

Lemma make_manifest_fresh id pending : unready -> triple fresh
  (let! (paths, known) := metadataStoragePaths in
   if pending && negb known then fail ErrStorageConflict
   else if negb known && negb raw_exists then fail ErrStorageConflict
   else
     transact (fun d => BeginCleanup d deleted paths) ;!
     effect ;!
     transact (fun d => AdvanceDeletion d deleted id "runtime_stopped" "") ;!
     let! paths := frozen_paths paths in
     transact (fun d => SaveCleanupPaths d deleted paths) ;!
     ret paths) (fun paths w => recorded paths w /\ owed paths) unharmed.
Proof.
  intros Hun. eapply t_bind; [eapply t_conseq; [apply t_metadata|done|intros ? w Hw; exact Hw|apply fresh_unharmed]|]. intros [paths known]. cbv beta. apply t_pure. intros Hknown. cbn [fst] in Hknown.
  destruct (pending && negb known); [apply t_fail; [done|apply fresh_unharmed]|]. destruct (negb known && negb raw_exists); [apply t_fail; [done|apply fresh_unharmed]|].
  eapply t_bind; [eapply t_conseq; [apply t_transact with (P := unharmed) (Q := fun _ => unharmed) (E := unharmed); [done| |done]|apply fresh_unharmed|intros ? w Hw; exact Hw|done]|].
  { intros w [] d' Hw Hs. by destruct (write_paths_unharmed w paths false d' Hw Hs). }
  intros ?. eapply t_bind; [exact (t_effect unharmed unharmed_stable)|]. intros ?. eapply t_bind; [apply (t_advance_deletion unharmed); [done|apply unharmed_quiet]|]. intros ?.
  eapply t_bind; [apply t_frozen|]. intros final. cbv beta. apply t_pure. intros Hfinal. eapply t_bind; [apply t_transact with (Q := fun _ => recorded final); [done| |done]|].
  { intros w [] d' Hw Hs. destruct (write_paths_unharmed w final true d' Hw Hs) as [Hu Hm]. split; [|done]. split; [done|by apply Hm]. }
  intros ?. apply t_ret. intros w Hw. split; [done|]. by eapply unready_owed.
Qed.

Lemma cleanup_row d saved pending ready : is_Some (torrents d !! deleted) -> CleanupPaths d deleted = Ok (saved, pending) -> CleanupReady d deleted = Ok ready ->
  exists t, torrents d !! deleted = Some t /\ t_cleanup_paths t = (if pending then Some saved else None) /\ t_cleanup_ready t = ready.
Proof.
  intros [t Ht]. unfold CleanupPaths, CleanupReady. rewrite Ht. intros Hp [= <-]. exists t. split; [done|]. split; [|done]. destruct (t_cleanup_paths t); by simplify_eq.
Qed.

Lemma t_manifest id : triple fresh (make_manifest id) (fun paths w => recorded paths w /\ owed paths) unharmed.
Proof.
  unfold make_manifest. eapply t_bind; [eapply t_conseq; [exact (t_select fresh _ fresh_stable)|done|intros ? w Hw; exact Hw|apply fresh_unharmed]|]. intros [saved pending]. cbv beta.
  set (R := fun w => fresh w /\ CleanupPaths (w_db w) deleted = Ok (saved, pending)).
  assert (stable R) as HR.
  { apply stable_quiet; [done|]. intros w d' [Hu Hc] Hq. split; [by apply fresh_quiet|]. cbn. unfold CleanupPaths in *. by destruct Hq as [-> _]. }
  eapply t_bind; [eapply t_conseq; [exact (t_select R _ HR)|done|intros ? w Hw; exact Hw|by intros w [[? _] _]]|]. intros ready. cbv beta.
  apply t_pre. intros w0' [[[Hu0 Hr0] Hc0] Hready0]. destruct (cleanup_row (w_db w0') saved pending ready) as (t0 & Ht0 & Hp0 & Hrd0); [apply Hu0|done|done|].
  destruct (negb pending || negb ready) eqn:E.
  { eapply t_conseq; [apply make_manifest_fresh|by intros w [[? _] _]|done|done]. exists t0. split; [congruence|]. destruct pending, ready; try done; [by right|by left|by left]. }
  apply orb_false_iff in E as [Hp%negb_false_iff Hr%negb_false_iff]. subst pending ready.
  assert (owed saved) as Howed by (unfold owed, owed_paths; rewrite <- Hr0, Ht0, Hp0; by destruct (t_cleanup_ready t0)).
  apply t_conseq with (P' := recorded saved) (Q' := fun paths w => recorded paths w /\ owed paths) (E' := unharmed); [|intros w [[[Hu Hrow] Hc] Hrd]|done|done].
  2: { split; [done|]. destruct (cleanup_row (w_db w) saved true true) as (t & Ht & Hp & Hrd'); [apply Hu|done|by rewrite <- Hr|]. by exists t. }
  eapply t_bind; [eapply t_conseq; [exact (t_effect _ (recorded_stable saved))|done|intros ? w Hw; exact Hw|apply recorded_unharmed]|]. intros ?.
  eapply t_bind; [eapply t_conseq; [apply (t_advance_deletion (recorded saved)); [done|apply recorded_quiet]|done|intros ? w Hw; exact Hw|apply recorded_unharmed]|].
  intros ?. by apply t_ret.
Qed.

(** *** The reservation *)

Lemma validated_safe paths disk snapshot : others_kept (w_db w0) snapshot -> validateOwnershipSnapshot disk (with_parts paths) snapshot = Ok tt ->
  owed paths -> spares paths /\ relative paths.
Proof using fold_parts.
  intros Hs Hv Howed. split.
  - split; [done|]. intros q Hq Hin. unfold owned_places in Hin. apply list_elem_of_fmap in Hin as (own & -> & Hown). eapply (validated_spares fold_parts disk); [exact Hv|exact Hown|].
    by eapply foreign_kept.
  - intros p Hp. pose proof (validated_relative _ _ _ _ Hv Hp) as Hval. by apply ValidateRelative_spec in Hval as (_ & _ & [? _] & _).
Qed.

Lemma t_reserve_attempts paths attempts : owed paths -> triple (recorded paths) (reserve_attempts attempts (with_parts paths)) (fun _ w => recorded paths w /\ spares paths /\ relative paths) unharmed.
Proof using fold_parts.
  intros Howed. assert (forall w, recorded paths w -> unharmed w) as Hu by (intros w; apply recorded_unharmed).
  induction attempts as [|attempts IH]; cbn [reserve_attempts]; [by apply t_fail|].
  eapply t_bind; [eapply t_conseq; [exact (t_effect _ (recorded_stable paths))|done|intros ? w Hw; exact Hw|done]|]. intros ?.
  eapply t_bind; [eapply t_conseq; [exact (t_select _ (fun d => Ok d) (recorded_stable paths))|done| |done]|].
  { intros snapshot w [Hw Hs]. assert (recorded paths w /\ others_kept (w_db w0) snapshot) as HX; [|exact HX]. injection Hs as <-. split; [done|]. by destruct Hw as [[? _] _]. }
  intros snapshot. cbv beta. apply t_pure. intros Hs.
  eapply t_bind; [eapply t_conseq; [apply t_attempt with (E' := unharmed); apply (t_stat (recorded paths)); [done|intros d; apply ownership_answers]|done| |done]|].
  { intros valid w Hw. assert (recorded paths w /\ answers valid /\ (valid = Ok tt -> spares paths /\ relative paths)) as HX; [|exact HX].
    destruct valid as [[]|e]; [destruct Hw as [Hw [d Hv]]|destruct Hw as [Hw He]]; (split_and!; [done| |]).
    - done.
    - intros _. by eapply validated_safe.
    - by intros [= ->].
    - done. }
  intros valid. cbv beta. apply t_pure. intros [Ha Hv].
  eapply t_bind; [eapply t_conseq; [exact (t_read _ (fun d => Ok d) (recorded_stable paths))|done|intros ? w Hw; exact Hw|done]|]. intros current. cbv beta.
  destruct (bool_decide _).
  - eapply t_bind; [apply t_lift with (Q := fun _ w => recorded paths w /\ spares paths /\ relative paths); [done| |done]|].
    + intros [] w -> Hw. split; [done|]. by apply Hv.
    + intros ?. destruct (claimsConflictLocked _); [apply t_fail; [done|by intros w [? _]; apply Hu]|by apply t_ret].
  - eapply t_bind; [eapply t_conseq; [exact (t_effect _ (recorded_stable paths))|done|intros ? w Hw; exact Hw|done]|]. intros ?. exact IH.
Qed.

Lemma t_reserve paths : owed paths -> triple (recorded paths) (reserveOwnership (with_parts paths)) (fun _ w => recorded paths w /\ spares paths /\ relative paths) unharmed.
Proof using fold_parts.
  intros Howed. unfold reserveOwnership.
  eapply t_bind; [eapply t_conseq; [apply (t_each (recorded paths)); intros x s; exact (t_effect _ (recorded_stable paths))|done|intros ? w Hw; exact Hw|apply recorded_unharmed]|]. intros ?.
  by apply t_reserve_attempts.
Qed.

(** *** Removing the files *)

Lemma lost_shrinks paths d q u d' : lost_only paths d -> root_Remove q d = Ok (u, d') -> q ∈ owned_places paths \/ (forall n, d_nodes d !! q = Some n -> ~ is_regular n) -> lost_only paths d'.
Proof.
  intros Hl (_ & [m Hm] & ->)%root_Remove_spec Hq r n Hn Hr. destruct (Hl r n Hn Hr) as [Hd|]; [|by right]. cbn. destruct (decide (q = r)) as [->|Hne].
  - destruct Hq as [Hq|Hq]; [by right|]. by destruct (Hq n Hd).
  - left. by rewrite lookup_delete_ne.
Qed.

Lemma removing_shrinks paths done w q u d' : removing paths done w -> root_Remove q (w_disk w) = Ok (u, d') ->
  q ∈ owned_places paths \/ (forall n, d_nodes (w_disk w) !! q = Some n -> ~ is_regular n) -> removing paths done (w <| w_disk := d' |>).
Proof.
  intros (Ho & Hm & Hl & Hg) Hr Hq. split_and!; [done|done|by eapply lost_shrinks|]. intros r Hin. cbn. eapply gone_shrinks; [by eapply root_Remove_shrinks|by apply Hg].
Qed.

Lemma removing_more paths done more w : removing paths done w -> (forall q, q ∈ more -> q ∈ done) -> removing paths more w.
Proof. intros (? & ? & ? & Hg) Hsub. split_and!; auto. Qed.

Definition clearing (paths : list string) (done : list path) (p : path) (w : world) : Prop := removing paths done w /\ clear (w_disk w) p.

Lemma clearing_stable paths done p : stable (clearing paths done p).
Proof. apply stable_quiet; [by intros w faults []|]. intros w d' [Hr Hc] Hq. split; [by apply removing_quiet|done]. Qed.

Lemma t_prune paths done p reversed : (exists r, p = (rev reversed ++ r)%list /\ r <> []) ->
  triple (clearing paths done p) (prune reversed) (fun _ => removing paths done) (removing paths done).
Proof.
  revert reversed. induction reversed as [|x above IH]; intros Hp; cbn [prune]; [by apply t_ret; intros w []|]. destruct Hp as (r & Hp & Hr).
  assert (forall w u d', clearing paths done p w -> root_Remove (rev (x :: above)) (w_disk w) = Ok (u, d') -> clearing paths done p (w <| w_disk := d' |>)) as Hstep.
  { intros w u d' [Hw Hc] Hrem. split; [|cbn; by eapply clear_shrinks; [eapply root_Remove_shrinks|]]. eapply removing_shrinks; [exact Hw|exact Hrem|]. right.
    intros n Hn Hreg. apply root_Remove_spec in Hrem as (Ha & _ & _). assert (rev (x :: above) <> []) as Hne by (cbn; intros E; by apply app_nil in E as [_ ?]).
    specialize (Hc _ r Hp Hne Hr Ha). rewrite Hn in Hc. by destruct n. }
  eapply t_bind; [apply (t_attempt_call (clearing paths done p) _ (fun _ => clearing paths done p) (clearing paths done p) (removing paths done) (clearing_stable _ _ _))|].
  - intros w u w' Hw Ho. destruct (root_Remove _ (w_disk w)) as [[u' d']|] eqn:E; [|done]. injection Ho as <- <-. split; by eapply Hstep.
  - done.
  - intros w. apply answers_bind; [apply root_Remove_answers|]. by intros [].
  - intros [u|e]; cbv beta.
    + apply IH. exists (x :: r). split; [|done]. rewrite Hp. cbn. by rewrite <- app_assoc.
    + apply t_ret. by intros w (_ & [? _] & _).
Qed.

Lemma rev_tail_prefix (p : path) : p <> [] -> exists r, p = (rev (tail (rev p)) ++ r)%list /\ r <> [].
Proof.
  intros Hp. destruct (rev p) as [|x above] eqn:E; [by apply (f_equal (@rev string)) in E; rewrite rev_involutive in E|].
  exists [x]. split; [|done]. cbn [tail]. by rewrite <- (rev_involutive p), E.
Qed.

(** What is known after the removal of [p], or its absence, was answered. *)
Lemma t_unlink paths done p E : p ∈ owned_places paths -> (forall w, removing paths done w -> E w) ->
  triple (removing paths done) (attempt (unlink p)) (fun r w => match r with
    | Ok _ | Err ErrNotExist => clearing paths (p :: done) p w
    | Err e => removing paths done w /\ e <> OutOfFuel
    end) E.
Proof.
  intros Hp HE. assert (forall w u d', removing paths done w -> root_Remove p (w_disk w) = Ok (u, d') -> removing paths done (w <| w_disk := d' |>)) as Hstep.
  { intros w u d' Hw Hr. eapply removing_shrinks; [exact Hw|exact Hr|by left]. }
  eapply t_conseq; [apply (t_attempt_call (removing paths done) _ (fun _ => clearing paths (p :: done) p) (removing paths done) E (removing_stable _ _))|done| |done].
  - intros w u w' Hw Ho. destruct (root_Remove p (w_disk w)) as [[u' d']|] eqn:Er; [|done]. injection Ho as <- <-. pose proof (Hstep w u' d' Hw Er) as Hn. split; [|done].
    split; [|cbn; eapply clear_shrinks; [by eapply root_Remove_shrinks|apply ancestors_clear; by destruct (root_Remove_spec _ _ _ _ Er) as (-> & _)]].
    destruct Hn as (? & ? & ? & Hg). split_and!; [done..|]. intros q [->|Hq]%elem_of_cons; [cbn; by eapply root_Remove_gone|by apply Hg].
  - done.
  - intros w. apply answers_bind; [apply root_Remove_answers|]. by intros [].
  - intros [u|e] w; [done|]. intros (Hf & Hw & Hown). destruct e; try (by split). destruct Hown as [(? & ? & ? & Hg) Ho]; [done|].
    assert (root_Remove p (w_disk w) = Err ErrNotExist) as Er by (by destruct (root_Remove p (w_disk w)) as [[? ?]|]; simplify_eq).
    split; [split_and!; [done..|]; intros q [->|Hq]%elem_of_cons; [by apply root_Remove_missing|by apply Hg]|]. apply ancestors_clear. unfold root_Remove in Er.
    destruct (ancestors (w_disk w) [] p) as [[]|]; [done|]. by simplify_eq.
Qed.

Lemma clearing_quiet paths done p w d' : clearing paths done p w -> quiet (w_db w) d' -> clearing paths done p (w <| w_db := d' |>).
Proof. intros [Hr Hc] Hq. split; [by apply removing_quiet|done]. Qed.

Lemma t_remove paths done id p b : clean_parts p <> [] -> clean_parts p ∈ owned_places paths ->
  triple (removing paths done) (remove_payload id p b) (fun _ => removing paths (clean_parts p :: done)) (removing paths []).
Proof.
  intros Hne Hp. set (q := clean_parts p) in *. assert (forall done w, removing paths done w -> removing paths [] w) as Hnil.
  { intros ds w Hw. eapply removing_more; [exact Hw|]. by intros r ?%elem_of_nil. }
  unfold remove_payload. eapply t_bind; [eapply t_conseq; [exact (t_effect _ (removing_stable paths done))|done|intros ? w Hw; exact Hw|apply Hnil]|]. intros ?.
  eapply t_bind; [eapply t_conseq; [exact (t_read _ _ (removing_stable paths done))|done|intros ? w Hw; exact Hw|apply Hnil]|]. intros ?.
  eapply t_bind; [eapply t_conseq; [exact (t_effect _ (removing_stable paths done))|done|intros ? w Hw; exact Hw|apply Hnil]|]. intros ?.
  eapply t_bind; [apply (t_unlink paths done q (removing paths [])); [done|apply Hnil]|]. intros removed. cbv beta.
  eapply t_bind with (R := fun _ => clearing paths (q :: done) q).
  - assert (triple (clearing paths (q :: done) q) (transact (fun d => MarkDeletionPartial d deleted id)) (fun _ => clearing paths (q :: done) q) (removing paths [])) as Hpartial.
    { eapply t_conseq; [apply (t_quiet (clearing paths (q :: done) q)); [apply clearing_stable|intros d; apply quiet_partial|apply clearing_quiet]|done|done|].
      intros w [Hw _]. by eapply Hnil. }
    destruct removed as [u|e]; [destruct b; [by apply t_ret|]; eapply t_bind; [exact Hpartial|]; intros ?; by apply t_ret|].
    destruct e; try (apply t_error; intros He; apply t_fail; [done|apply Hnil]). by apply t_ret.
  - intros b'. eapply t_bind; [eapply t_conseq; [apply (t_prune paths (q :: done) q); by apply rev_tail_prefix|done|intros ? w Hw; exact Hw|apply Hnil]|].
    intros ?. by apply t_ret.
Qed.

Lemma t_remove_all paths id rest : forall done b, (forall p, p ∈ rest -> clean_parts p <> [] /\ clean_parts p ∈ owned_places paths) ->
  triple (removing paths done) (for_each (remove_payload id) rest b) (fun _ => removing paths (rev (map clean_parts rest) ++ done)) (removing paths []).
Proof.
  induction rest as [|p rest IH]; intros done b Hrest; cbn [for_each]; [by apply t_ret|]. destruct (Hrest p) as [Hne Hp]; [by left|].
  eapply t_bind; [by apply t_remove|]. intros b'. cbn [map rev]. rewrite <- app_assoc. apply IH. intros p' Hp'. apply Hrest. by right.
Qed.

(** *** The whole deletion *)

Lemma recorded_removing paths w : recorded paths w -> removing paths [] w.
Proof.
  intros [(Ho & Hr & Hd) Hm]. split_and!; [done|done| |by intros q ?%elem_of_nil]. intros q n _ Hq. left. by rewrite Hd.
Qed.

Lemma t_final paths id : spares paths -> triple (removing paths (rev (map clean_parts (with_parts paths)) ++ []))
  (transact (fun d => AdvanceDeletion d deleted id "removing_record" "") ;! transact (fun d => DeleteTorrent d deleted)) (fun _ => finished paths) ended.
Proof.
  intros Hs. set (done := (rev (map clean_parts (with_parts paths)) ++ [])%list).
  assert (forall w, removing paths done w -> ended w) as Hend.
  { intros w Hw. right. exists paths. split; [done|]. left. eapply removing_more; [exact Hw|]. by intros r ?%elem_of_nil. }
  eapply t_bind; [eapply t_conseq; [apply (t_advance_deletion (removing paths done)); [done|apply removing_quiet]|done|intros ? w Hw; exact Hw|exact Hend]|]. intros ?.
  apply t_transact; [done| |exact Hend]. intros w [] d' (Ho & Hm & Hl & Hg) Hd. assert (finished paths (w <| w_db := d' |>)) as Hf.
  { split_and!; [cbn; by eapply delete_torrent_effect|done|]. intros q Hq. apply Hg. unfold done. rewrite app_nil_r. apply list_elem_of_In, in_rev. rewrite rev_involutive.
    by apply list_elem_of_In. }
  split; [done|]. right. exists paths. split; [done|]. by right.
Qed.

Lemma t_delete_payload mode id : triple fresh (delete_payload mode id) (fun _ w => exists paths, spares paths /\ finished paths w) ended.
Proof using fold_parts.
  assert (forall w, unharmed w -> ended w) as Hu by (by left). assert (forall w, fresh w -> ended w) as Hfr by (intros w [? _]; by left). assert (forall paths w, recorded paths w -> ended w) as Hrec by (intros paths w [? _]; by left).
  unfold delete_payload. destruct (mode =? "keep")%string; [by apply t_fail|].
  eapply t_bind; [eapply t_conseq; [exact (t_read fresh _ fresh_stable)|done|intros ? w Hw; exact Hw|exact Hfr]|]. intros recovery. destruct (recoveryBlocks recovery); [by apply t_fail|].
  eapply t_bind; [eapply t_conseq; [exact (t_read fresh _ fresh_stable)|done|intros ? w Hw; exact Hw|exact Hfr]|]. intros m.
  destruct (match m with Some m => _ | None => false end); [by apply t_fail|].
  eapply t_bind; [eapply t_conseq; [exact t_revoke|done|intros ? w Hw; exact Hw|exact Hfr]|]. intros ?.
  eapply t_bind; [eapply t_conseq; [apply t_manifest|done|intros ? w Hw; exact Hw|exact Hu]|]. intros paths. cbv beta. apply t_pure. intros Howed.
  eapply t_bind; [eapply t_conseq; [apply (t_advance_deletion (recorded paths)); [done|apply recorded_quiet]|done|intros ? w Hw; exact Hw|apply Hrec]|]. intros ?. cbv zeta.
  eapply t_bind; [eapply t_conseq; [exact (t_effect _ (recorded_stable paths))|done|intros ? w Hw; exact Hw|apply Hrec]|]. intros ?.
  eapply t_bind; [eapply t_conseq; [by apply t_reserve|done|intros ? w Hw; exact Hw|exact Hu]|]. intros ?. cbv beta. apply t_pure. intros [Hs Hrel].
  eapply t_bind; [eapply t_conseq; [apply (t_each (recorded paths) _ (recorded paths))|done|intros ? w Hw; exact Hw|apply Hrec]|].
  { intros p s. eapply t_bind; [exact (t_effect _ (recorded_stable paths))|]. intros ?. eapply t_conseq; [apply (t_stat (recorded paths)); [done|intros d; apply cleanup_path_answers]|done| |done].
    by intros ? w []. }
  intros ?. eapply t_bind; [eapply t_conseq; [apply (t_advance_deletion (recorded paths)); [done|apply recorded_quiet]|done|intros ? w Hw; exact Hw|apply Hrec]|]. intros ?.
  eapply t_bind; [eapply t_conseq; [apply (t_remove_all paths id (with_parts paths) [])|apply recorded_removing|intros ? w Hw; exact Hw|]|].
  - intros p Hp. split; [by apply Hrel|]. by apply list_elem_of_fmap_2.
  - intros w Hw. right. exists paths. split; [done|by left].
  - intros ?. eapply t_conseq; [by apply t_final|done| |done]. intros ? w Hw. by exists paths.
Qed.

Lemma ended_error w cause : ended w -> ended (w <| w_db := snd (SaveDeletionError (w_db w) deleted cause) |>).
Proof.
  destruct (save_error_effect (w_db w) deleted cause) as [Hs Ht]. intros Hend.
  assert (forall d, others_kept (w_db w0) (w_db w) -> torrent_storage d = torrent_storage (w_db w) ->
    (torrents d = torrents (w_db w) \/ exists new, torrents d = <[deleted := new]> (torrents (w_db w))) -> others_kept (w_db w0) d) as Hothers.
  { intros d [Ho Hst] Hd [He|[new He]]; (split; [|congruence]); intros h Hh; rewrite He, ?lookup_insert_ne by done; by apply Ho. }
  destruct Ht as [Ht|(old & new & Hold & Ht & Hp & Hr)].
  - destruct Hend as [(Ho & Hrow & Hd)|(paths & Hsp & [(Ho & (t & Hm) & Hl & Hg)|(Hn & Hl)])].
    + left. split_and!; [by apply Hothers; auto|cbn; by rewrite Ht|done].
    + right. exists paths. split; [done|]. left. split_and!; [by apply Hothers; auto|exists t; cbn; by rewrite Ht|done|done].
    + right. exists paths. split; [done|]. right. split; [cbn; by rewrite Ht|done].
  - destruct Hend as [(Ho & Hrow & Hd)|(paths & Hsp & [(Ho & (t & Hm & Hmp & Hmr) & Hl & Hg)|(Hn & Hl)])].
    + left. split_and!; [apply Hothers; eauto|cbn; rewrite Ht, lookup_insert_eq; by eexists|done].
    + right. exists paths. split; [done|]. left. split_and!; [apply Hothers; eauto| |done|done]. exists new. cbn. rewrite Ht, lookup_insert_eq. assert (t = old) as -> by congruence.
      split; [done|]. by rewrite Hp, Hr.
    + congruence.
Qed.

Lemma ended_stable : stable ended.
Proof.
  split; [done|]. intros w Hend. pose proof (cancel_quiet (w_db w)) as Hq. destruct Hend as [Hu|(paths & Hs & [Hr|(Hn & Hl)])].
  - left. by apply unharmed_quiet.
  - right. exists paths. split; [done|]. left. by apply removing_quiet.
  - right. exists paths. split; [done|]. right. split; [cbn; by destruct Hq as [-> _]|done].
Qed.

Lemma t_deletePayloadLocked mode id : triple fresh (deletePayloadLocked mode id) (fun _ w => exists paths, spares paths /\ finished paths w) ended.
Proof using fold_parts.
  unfold deletePayloadLocked, saving_error. eapply t_bind; [eapply t_attempt, t_delete_payload|]. intros [u|e]; cbv beta; [by apply t_ret|]. apply t_error. intros He.
  eapply t_bind; [apply (t_attempt ended _ (fun _ => ended) ended ended)|].
  - apply t_transact; [apply ended_stable| |done]. intros w n d' Hw Hsave. pose proof (ended_error w (delete_error_text e) Hw) as Hd. rewrite Hsave in Hd. by split.
  - intros outcome. cbv beta. apply t_fail; [done|]. intros w Hw. destruct outcome; [done|by destruct Hw].
Qed.
End Run.

(** ** Theorems *)

Section Theorems.
Context `{DeleteEnv}.
Context (fold_parts : forall s, ValidateRelative s = Ok tt -> ValidateRelative (delete_fold s) = Ok tt /\ clean_parts (delete_fold s) = map delete_fold (clean_parts s)).

Lemma start_fresh w t : torrents (w_db w) !! deleted = Some t -> fresh w w.
Proof. intros Ht. split; [|done]. split_and!; [done|by eexists|done]. Qed.

(** C7: a deletion with payload, with any faults, leaves the files of every other torrent of the library alone: every file
    below a path of their manifests or metadata, below every root that a mapping reserves for another torrent, and
    below the files of a mapping of the shared layout that was kept without a record, keeps its content. *)
Theorem deletion_spares_other_torrents mode id w t q n : torrents (w_db w) !! deleted = Some t -> foreign (w_db w) q -> is_regular n ->
  d_nodes (w_disk w) !! q = Some n -> d_nodes (w_disk (snd (deletePayloadLocked mode id w))) !! q = Some n.
Proof using fold_parts.
  intros Ht Hq Hn Hd. pose proof (t_deletePayloadLocked fold_parts w mode id w (start_fresh w t Ht)) as Hrun.
  assert (forall paths d, spares w paths -> lost_only w paths d -> d_nodes d !! q = Some n) as Hkeep.
  { intros paths d Hs Hl. destruct (Hl q n Hn Hd) as [?|Hin]; [done|]. by destruct (proj2 Hs q Hq). }
  destruct (deletePayloadLocked mode id w) as [[u|e] w']; cbn.
  - destruct Hrun as (paths & Hs & _ & Hl & _). by eapply Hkeep.
  - destruct Hrun as [[(_ & _ & Hd')|(paths & Hs & [(_ & _ & Hl & _)|(_ & Hl & _)])] _]; [by rewrite Hd'|by eapply Hkeep..].
Qed.

(** C14: a deletion can be resumed wherever it stops.  Whatever fails, either no file was touched and the record is
    still there, or only files of the manifest the deletion owes are missing; then the record still has that manifest,
    complete and marked as ready, or it is gone together with every file of the manifest and every part file.  The
    manifest is the one stored with the torrent, or the files of its metadata where its mapping places them.  The
    deletion answers success only in the last case. *)
Theorem deletion_is_recoverable mode id w t r w' : torrents (w_db w) !! deleted = Some t -> deletePayloadLocked mode id w = (r, w') ->
  let removed paths := torrents (w_db w') !! deleted = None /\ forall p, p ∈ with_parts paths -> gone (w_disk w') (clean_parts p) in
  (r = Ok tt -> exists paths, owed_paths (w_db w) = Ok paths /\ removed paths) /\
  ((w_disk w' = w_disk w /\ is_Some (torrents (w_db w') !! deleted))
   \/ exists paths, owed_paths (w_db w) = Ok paths /\ lost_only w paths (w_disk w') /\ (manifest paths (w_db w') \/ removed paths)).
Proof using fold_parts.
  intros Ht Hr removed. pose proof (t_deletePayloadLocked fold_parts w mode id w (start_fresh w t Ht)) as Hrun. rewrite Hr in Hrun.
  assert (forall paths, finished w paths w' -> lost_only w paths (w_disk w') /\ removed paths) as Hfin.
  { intros paths (Hn & Hl & Hg). split; [done|]. split; [done|]. intros p Hp. apply Hg. by apply list_elem_of_fmap_2. }
  destruct r as [u|e].
  - destruct Hrun as (paths & [Ho _] & [Hl Hrem]%Hfin). split; [by exists paths|]. right. exists paths. auto.
  - split; [done|]. destruct Hrun as [[(_ & Hrow & Hd)|(paths & [Ho _] & [(_ & Hm & Hl & _)|[Hl Hrem]%Hfin])] _]; [by left| |]; right; exists paths; auto.
Qed.
End Theorems.

(** ** A library with two torrents *)

Definition first_hash : string := "0123456789abcdef0123456789abcdef01234567".
Definition second_hash : string := "89abcdef0123456789abcdef0123456789abcdef".

Definition mapping_row (hash storage : string) : storage_row := mkStorageRow 1 ("payload/" ++ hash) "ready" "" "" storage 1 "" "".
Definition torrent_of (name : string) : torrent_row := mkTorrentRow name "" "" "" "" 2 0 StatePaused "" "" false None false "" "" "" 0 0 0 true "" "".

Definition two_torrents : db :=
  empty_db <| torrents := {[ first_hash := torrent_of "First"; second_hash := torrent_of "Second" ]} |>
    <| torrent_intents := {[ first_hash := mkIntentRow "first-record" RunPaused 1 "" 0 0 StatePaused "";
                             second_hash := mkIntentRow "second-record" RunPaused 1 "" 0 0 StatePaused "" ]} |>
    <| torrent_storage := {[ first_hash := mapping_row first_hash "first"; second_hash := mapping_row second_hash "second" ]} |>.

Definition two_payloads : disk :=
  mkDisk (list_to_map
    [([], Directory 1); (["payload"], Directory 2); (["payload"; first_hash], Directory 3); (["payload"; first_hash; "subs"], Directory 4);
     (["payload"; first_hash; "film.mkv"], Regular 5 [x01; x02] 10); (["payload"; first_hash; "subs"; "en.srt"], Regular 6 [x00] 11);
     (["payload"; second_hash], Directory 7); (["payload"; second_hash; "song.ogg"], Regular 8 [x03] 12)]%string) 9 13.

#[local] Instance two_env : DeleteEnv := {|
  deleted := first_hash; delete_fold := fun s => s;
  metadata := fun h => if (h =? first_hash)%string then Some ["film.mkv"; "subs/en.srt"]%string else if (h =? second_hash)%string then Some ["song.ogg"]%string else None;
  frozen := None; raw_exists := true; DownloadDir := "/downloads"; CleanupProtectedPaths := ["/config"%string]; aliases_application := fun _ => false; ownershipClaims := [];
  delete_error_text := fun _ => "failed"%string;
|}.

Definition two_world (faults : list fault) : world := mkWorld two_payloads two_torrents faults.

Lemma identity_parts s : ValidateRelative s = Ok tt -> ValidateRelative s = Ok tt /\ clean_parts s = map (fun name => name) (clean_parts s).
Proof. intros Hs. by rewrite map_id. Qed.

Definition interrupted : list fault := repeat Fine 39 ++ [After].
Definition second_song : path := ["payload"; second_hash; "song.ogg"]%string.

Lemma second_song_is_foreign : foreign two_torrents second_song.
Proof.
  right. left. exists second_hash, (mapping_row second_hash "second"). split_and!; [vm_compute; reflexivity|discriminate|vm_compute; reflexivity| |].
  - intros own Hown. vm_compute in Hown. injection Hown as <-. discriminate.
  - exists ["song.ogg"%string]. vm_compute. reflexivity.
Qed.

(** A deletion that a fault interrupts after the first file: the song of the other torrent is still there. *)
Lemma deletion_spares_other_torrents_witness :
  d_nodes (w_disk (snd (deletePayloadLocked "" "first-record" (two_world interrupted)))) !! second_song = Some (Regular 8 [x03] 12).
Proof.
  apply (@deletion_spares_other_torrents two_env identity_parts "" "first-record" (two_world interrupted) (torrent_of "First") second_song (Regular 8 [x03] 12)).
  - vm_compute. reflexivity.
  - exact second_song_is_foreign.
  - exact I.
  - vm_compute. reflexivity.
Defined.

Definition interruption : world := snd (deletePayloadLocked "" "first-record" (two_world interrupted)).
Definition after_interruption : world := mkWorld (w_disk interruption) (w_db interruption) [].

Definition interrupted_row : torrent_row := default (torrent_of "") (torrents (w_db after_interruption) !! first_hash).
Definition resumed : world := snd (deletePayloadLocked "" "first-record" after_interruption).

Lemma interrupted_has_row : torrents (w_db after_interruption) !! @deleted two_env = Some interrupted_row.
Proof. vm_compute. reflexivity. Qed.
Lemma resumed_succeeds : deletePayloadLocked "" "first-record" after_interruption = (Ok tt, resumed).
Proof. assert (fst (deletePayloadLocked "" "first-record" after_interruption) = Ok tt) as <- by (vm_compute; reflexivity). apply surjective_pairing. Qed.
Lemma interrupted_owes : owed_paths (w_db after_interruption) = Ok [("payload/" ++ first_hash ++ "/film.mkv")%string; ("payload/" ++ first_hash ++ "/subs/en.srt")%string].
Proof. vm_compute. reflexivity. Qed.

(** The interrupted deletion, called again without faults, finishes: the record and the file that was left are gone. *)
Lemma deletion_is_recoverable_witness :
  torrents (w_db resumed) !! first_hash = None /\ gone (w_disk resumed) (clean_parts ("payload/" ++ first_hash ++ "/subs/en.srt")%string).
Proof.
  destruct (proj1 (@deletion_is_recoverable two_env identity_parts "" "first-record" after_interruption interrupted_row (Ok tt) resumed interrupted_has_row resumed_succeeds) eq_refl)
    as (paths & Howed & Hrow & Hgone).
  split; [exact Hrow|]. apply Hgone. rewrite interrupted_owes in Howed. injection Howed as <-. do 2 right. left.
Defined.
