(* ===== verification/DeletionProperties.v ===== *)
(** * A cancelled deletion

    Once a deletion is cancelled, none of the deletion commands removes a file of
    the payload any more: the torrent can only be forgotten. *)

From stdpp Require Import base gmap list strings.
From Stdlib Require Import ZArith Strings.Byte Lia.
From S2P Require Import Prelude Models Paths Layout FastResume Codec Tables IntentStore StorageStore ResumeStore Library LibraryFrame.
From S2P Require Import RootedFiles RootedFrame StorageMove MoveLogic MoveFrame MoveSafety PayloadDeletion PayloadProperties.

#[local] Open Scope Z_scope.

(** ** Statements *)

(** The row of a deletion that was cancelled, or is being cancelled. *)
Definition halted (r : recovery_row) : Prop :=
  rc_reason r = "deletion_cancelled"%string \/ rc_reason r = "deletion_pending"%string /\ rc_stage r = "cancel_requested"%string.

Lemma halted_blocks hash r : halted r -> recoveryBlocks (Some (mkRecoveryRecord hash r)) = true.
Proof. intros [Hr|[Hr Hs]]; cbn; rewrite Hr; [done|]. cbn. by rewrite Hs. Qed.

Lemma update_recovery_effect hash selected set d n d' : update_recovery hash selected set d = Ok (n, d') ->
  d' = d \/ exists old, storage_recovery d !! hash = Some old /\ selected old = true /\ storage_recovery d' !! hash = Some (set old).
Proof.
  unfold update_recovery. destruct (storage_recovery d !! hash) as [old|]; [|intros [= <- <-]; by left]. destruct (selected old) eqn:Hs; [|intros [= <- <-]; by left].
  destruct (resume_journal _ _ d) as [d1|]; [|done]. intros [= <- <-]. right. exists old. split_and!; [done|done|]. cbn. apply lookup_insert_eq.
Qed.

(** A statement that does not begin a deletion leaves the recovery rows alone. *)
Lemma update_torrent_recovery hash selected set d n d' : (forall t, t_deletion_mode (set t) = ""%string \/ t_deletion_mode (set t) = t_deletion_mode t) ->
  update_torrent hash selected set d = Ok (n, d') -> storage_recovery d' = storage_recovery d.
Proof.
  intros Hset. unfold update_torrent. destruct (torrents d !! hash) as [old|]; [|by intros [= <- <-]]. destruct (selected old); [|by intros [= <- <-]].
  unfold resume_deletion_intent, recovery_deletion_intent.
  destruct (Hset old) as [Hm|Hm]; rewrite Hm; cbn [String.eqb negb andb].
  - rewrite andb_false_r. by intros [= <- <-].
  - rewrite String.eqb_refl. cbn [negb]. rewrite andb_false_r. destruct (t_deletion_mode old =? "")%string; by intros [= <- <-].
Qed.

Lemma cancel_halts d hash id version r : storage_recovery d !! hash = Some r -> halted r ->
  exists r', storage_recovery (snd (RequestDeletionCancel d hash id version)) !! hash = Some r' /\ halted r'.
Proof.
  intros Hr Hh. unfold RequestDeletionCancel, atomically, RequestDeletionCancel_tx. destruct (update_recovery _ _ _ d) as [[n d1]|] eqn:E; [|by exists r].
  destruct (negb (n =? 1)); [by exists r|]. destruct (update_intent _ _ _ d1) as [[n' d2]|] eqn:E2; [|by exists r].
  apply update_intent_frame in E2. pose proof (E2 Recoveries eq_refl) as H2. cbn in H2. cbn [snd]. rewrite H2.
  apply update_recovery_effect in E as [->|(old & Ho & _ & ->)]; [by exists r|]. eexists. split; [reflexivity|]. replace old with r by congruence.
  destruct Hh as [Hh|[Hh Hs]]; [left|right]; cbn; [done|]. by rewrite Hs.
Qed.

Lemma complete_halts d hash id version d' : CompleteDeletionCancel d hash id version = (Ok tt, d') -> exists r, storage_recovery d' !! hash = Some r /\ halted r.
Proof.
  unfold CompleteDeletionCancel, atomically, CompleteDeletionCancel_tx. destruct (update_recovery _ _ _ d) as [[n d1]|] eqn:E; [|done].
  destruct (Z.eqb_spec n 1) as [->|]; [|done]. cbn [negb]. destruct (update_torrent _ _ _ d1) as [[n' d2]|] eqn:E2; [|done]. intros [= <-].
  apply update_torrent_recovery in E2; [|by left]. rewrite E2. revert E. unfold update_recovery.
  destruct (storage_recovery d !! hash) as [old|]; [|done]. destruct (_ && cancelling _); [|done]. destruct (resume_journal _ _ d); [|done]. intros [= <-].
  eexists. split; [cbn; apply lookup_insert_eq|by left].
Qed.

Lemma begin_forget_keeps d hash d' : BeginForget d hash = (Ok tt, d') -> exists t, torrents d' !! hash = Some t /\ t_deletion_mode t = "keep"%string.
Proof.
  unfold BeginForget, affecting_one. destruct (update_torrent _ _ _ d) as [[n d1]|] eqn:E; [|done]. destruct (Z.eqb_spec n 1) as [->|]; [|done]. intros [= <-].
  apply update_torrent_effect in E as (_ & _ & Hn). destruct (Hn eq_refl) as (old & _ & ->). eexists. split; [apply lookup_insert_eq|done].
Qed.

(** Storing an error. *)
Lemma save_error_mode d hash cause : storage_recovery (snd (SaveDeletionError d hash cause)) = storage_recovery d /\
  t_deletion_mode <$> torrents (snd (SaveDeletionError d hash cause)) !! hash = t_deletion_mode <$> torrents d !! hash.
Proof.
  unfold SaveDeletionError, atomically. destruct (update_torrent _ _ _ d) as [[n d1]|] eqn:E; cbn [snd]; [|done]. split; [eapply update_torrent_recovery; [|exact E]; by right|].
  apply update_torrent_effect in E as (_ & [->|(old & Ho & ->)] & _); [done|]. by rewrite lookup_insert_eq, Ho.
Qed.

(** ** Commands *)

Section Cancelled.
Context `{DeleteEnv}.
(** The disk when the deletion was cancelled. *)
Context (disk0 : disk).

Definition cancelled (d : db) : Prop := exists r, storage_recovery d !! deleted = Some r /\ halted r.
Definition keeping (d : db) : Prop := t_deletion_mode <$> torrents d !! deleted = Some "keep"%string.
Definition forgotten (d : db) : Prop := torrents d !! deleted = None.
Definition over (d : db) : Prop := forgotten d \/ cancelled d \/ keeping d.

Definition resting (P : db -> Prop) (w : world) : Prop := P (w_db w) /\ w_disk w = disk0.

Lemma resting_stable (P : db -> Prop) : (forall d, P d -> P (cancel_deletion d)) -> stable (resting P).
Proof. intros HP. split; [done|]. intros w [Hw Hd]. split; [by apply HP|done]. Qed.

Lemma anything_stable : stable (resting (fun _ => True)).
Proof. by apply resting_stable. Qed.
Lemma cancelled_stable : stable (resting cancelled).
Proof.
  apply resting_stable. intros d (r & Hr & Hh). unfold cancel_deletion. rewrite Hr. by eapply cancel_halts.
Qed.
Lemma keeping_stable : stable (resting keeping).
Proof. apply resting_stable. intros d Hd. unfold keeping. by destruct (cancel_quiet d) as [-> _]. Qed.
Lemma forgotten_stable : stable (resting forgotten).
Proof. apply resting_stable. intros d Hd. unfold forgotten. by destruct (cancel_quiet d) as [-> _]. Qed.
Lemma over_stable : stable (resting over).
Proof.
  split; [done|]. intros w [[Hw|[Hw|Hw]] Hd].
  - destruct (stable_cancel _ forgotten_stable w (conj Hw Hd)). split; [by left|done].
  - destruct (stable_cancel _ cancelled_stable w (conj Hw Hd)). split; [right; by left|done].
  - destruct (stable_cancel _ keeping_stable w (conj Hw Hd)). split; [right; by right|done].
Qed.
Hint Resolve anything_stable cancelled_stable keeping_stable forgotten_stable over_stable : core.

Lemma resting_mono (P Q : db -> Prop) w : (forall d, P d -> Q d) -> resting P w -> resting Q w.
Proof. intros HPQ [Hw Hd]. split; [by apply HPQ|done]. Qed.
Lemma cancelled_over w : resting cancelled w -> resting over w.
Proof. apply resting_mono. intros d Hd. right. by left. Qed.
Lemma keeping_over w : resting keeping w -> resting over w.
Proof. apply resting_mono. intros d Hd. right. by right. Qed.
Lemma forgotten_over w : resting forgotten w -> resting over w.
Proof. apply resting_mono. intros d Hd. by left. Qed.
Hint Resolve cancelled_over keeping_over forgotten_over : core.

Ltac stop := apply t_fail; [done|auto].

(** A step of a command that must not be reached again once the deletion is over. *)
Abbreviation stops P m := (triple (resting P) m (fun _ => resting over) (resting over)) (only parsing).

Lemma t_then {A B} (P : db -> Prop) (m : io A) (k : A -> io B) Q : triple (resting P) m (fun _ => resting P) (resting P) -> (forall w, resting P w -> resting over w) ->
  (forall a, triple (resting P) (k a) Q (resting over)) -> triple (resting P) (bind m k) Q (resting over).
Proof. intros Hm HP Hk. eapply t_bind; [eapply t_conseq; [exact Hm|done|intros ? w Hw; exact Hw|exact HP]|]. exact Hk. Qed.

(** A transaction that ends in one of the three states. *)
Lemma t_into {A} (P R : db -> Prop) (f : db -> result RepoError A * db) : stable (resting P) -> (forall w, resting P w -> resting over w) -> (forall w, resting R w -> resting over w) ->
  (forall d a d', P d -> f d = (Ok a, d') -> R d') -> triple (resting P) (transact f) (fun _ => resting R) (resting over).
Proof.
  intros HP HPo HRo Hf. apply t_transact; [done| |done]. intros w a d' [Hw Hd] Ho. assert (resting R (w <| w_db := d' |>)) as HR by (split; [by eapply Hf|done]).
  split; [done|by apply HRo].
Qed.

Lemma over_error d cause : over d -> over (snd (SaveDeletionError d deleted cause)).
Proof.
  destruct (save_error_mode d deleted cause) as [Hr Hm]. intros [Hd|[(r & Hd)|Hd]].
  - left. unfold forgotten in *. rewrite Hd in Hm. by destruct (torrents _ !! deleted).
  - right. left. exists r. by rewrite Hr.
  - right. right. unfold keeping. by rewrite Hm.
Qed.

Lemma t_saving_error (P : world -> Prop) work : triple P work (fun _ => resting over) (resting over) -> triple P (saving_error work) (fun _ => resting over) (resting over).
Proof.
  intros Hw. unfold saving_error. eapply t_bind; [eapply t_attempt, Hw|]. intros [u|e]; cbv beta; [by apply t_ret|]. apply t_error. intros He.
  eapply t_bind; [apply (t_attempt (resting over) _ (fun _ => resting over) (resting over) (resting over))|].
  - apply t_transact; [done| |done]. intros w n d' [Ho Hd] Hs. pose proof (over_error (w_db w) (delete_error_text e) Ho) as He'. rewrite Hs in He'. by split.
  - intros outcome. cbv beta. apply t_fail; [done|]. intros w Hw'. destruct outcome; [done|by destruct Hw'].
Qed.

Lemma t_blocked_payload mode id : stops cancelled (deletePayloadLocked mode id).
Proof.
  apply t_saving_error. unfold delete_payload. destruct (mode =? "keep")%string; [stop|].
  eapply t_bind; [eapply t_conseq; [exact (t_select _ _ cancelled_stable)|done|intros ? w Hw; exact Hw|exact cancelled_over]|]. intros recovery. cbv beta.
  apply t_pre. intros w [[(r & Hr & Hh) _] [= <-]]. unfold Recovery. rewrite Hr. cbn [fmap option_fmap option_map]. rewrite halted_blocks by done. apply t_fail; [done|]. intros w' [Hw' _]. by apply cancelled_over.
Qed.

Lemma t_kept_payload P id : (forall w, resting P w -> resting over w) -> stops P (deletePayloadLocked "keep" id).
Proof. intros HP. apply t_saving_error. stop. Qed.

(** Loading the torrent. *)
Lemma t_with_torrent (P : db -> Prop) (T : torrent_row -> Prop) k : stable (resting P) -> (forall w, resting P w -> resting over w) ->
  (forall d t, P d -> torrents d !! deleted = Some t -> T t) -> (forall t id, T t -> stops P (k t id)) -> stops P (with_torrent k).
Proof.
  intros HP HPo HT Hk. unfold with_torrent. eapply t_bind; [eapply t_conseq; [exact (t_select _ _ HP)|done|intros ? w Hw; exact Hw|exact HPo]|]. intros found. cbv beta.
  apply t_pre. intros w [[Hw _] [= Hf]]. destruct found as [[t id]|]; [|apply t_fail; [done|intros w' [Hw' _]; by apply HPo]].
  eapply t_conseq; [apply (Hk t id)|by intros w' []|done|done]. unfold loaded in Hf. destruct (torrents (w_db w) !! deleted) as [t'|] eqn:Ht; [|done]. injection Hf as <- _. by eapply HT.
Qed.

Lemma t_keeping_torrent k : (forall t id, t_deletion_mode t = "keep"%string -> stops keeping (k t id)) -> stops keeping (with_torrent k).
Proof.
  intros Hk. apply t_with_torrent with (T := fun t => t_deletion_mode t = "keep"%string); [done|auto| |done]. intros d t Hd Ht. unfold keeping in Hd. rewrite Ht in Hd. by injection Hd.
Qed.
Lemma t_forgotten_torrent k : stops forgotten (with_torrent k).
Proof. apply t_with_torrent with (T := fun _ => False); [done|auto| |done]. intros d t Hd Ht. unfold forgotten in Hd. congruence. Qed.
Lemma t_cancelled_torrent k : (forall t id, stops cancelled (k t id)) -> stops cancelled (with_torrent k).
Proof. intros Hk. apply t_with_torrent with (T := fun _ => True); auto. Qed.

Lemma t_expected (P : db -> Prop) (T : recovery_row -> Prop) id version : stable (resting P) -> (forall d r, P d -> storage_recovery d !! deleted = Some r -> T r) ->
  triple (resting P) (recoveryExpected id version) (fun v w => resting P w /\ T (v_row v)) (resting P).
Proof.
  intros HP HT. unfold recoveryExpected. eapply t_bind; [exact (t_select _ _ HP)|]. intros row. cbv beta.
  apply t_pre. intros w [[Hw _] [= Hr]]. apply t_conseq with (P' := resting P) (Q' := fun v w => resting P w /\ T (v_row v)) (E' := resting P); [|by intros w' []|done|done].
  unfold Recovery in Hr. destruct (storage_recovery (w_db w) !! deleted) as [r|] eqn:Hrow; cbn in Hr; subst row; [|by apply t_fail]. cbn [v_row].
  destruct (_ && _); [|by apply t_fail]. eapply t_bind; [exact (t_read _ _ HP)|]. intros [i|]; [|by apply t_fail]. destruct (_ =? _)%string; [|by apply t_fail].
  apply t_ret. intros w' Hw'. split; [done|]. by eapply HT.
Qed.

Lemma t_delete_row : stops keeping (transact (fun d => DeleteTorrent d deleted)).
Proof.
  eapply t_conseq; [apply (t_into keeping forgotten); auto|done|intros ? w Hw; by apply forgotten_over|done]. intros d [] d' _ Hd. by eapply delete_torrent_effect.
Qed.

Lemma t_begin_forget P : stable (resting P) -> (forall w, resting P w -> resting over w) -> triple (resting P) (transact (fun d => BeginForget d deleted)) (fun _ => resting keeping) (resting over).
Proof.
  intros HP HPo. apply t_into; auto. intros d [] d' _ (t & Ht & Hm)%begin_forget_keeps. unfold keeping. rewrite Ht. cbn. by rewrite Hm.
Qed.

Lemma t_forget P id : stable (resting P) -> (forall w, resting P w -> resting over w) -> stops P (forget_record id).
Proof.
  intros HP HPo. unfold forget_record. eapply t_bind; [by apply t_begin_forget|]. intros ?. apply t_then; [exact (t_effect _ keeping_stable)|auto|]. intros ?.
  eapply t_bind; [apply (t_into keeping keeping); auto|].
  { intros d [] d' Hd Ha. pose proof (quiet_advance d deleted id "removing_record" "") as [Ht _]. rewrite Ha in Ht. cbn [snd] in Ht. unfold keeping. by rewrite Ht. }
  intros ?. apply t_then; [exact (t_read _ _ keeping_stable)|auto|]. intros ?. apply t_delete_row.
Qed.

Lemma t_delete_record P busy deleteFiles mode id : stable (resting P) -> (forall w, resting P w -> resting over w) -> stops P (deletePayloadLocked mode id) ->
  stops P (delete_record busy deleteFiles mode id).
Proof.
  intros HP HPo Hp. unfold delete_record. destruct busy; [stop|]. apply t_then; [exact (t_read _ _ HP)|auto|]. intros rec. destruct (_ && _); [stop|].
  apply t_then; [exact (t_read _ _ HP)|auto|]. intros m. destruct (match m with Some _ => _ | None => _ end); [stop|]. destruct deleteFiles; [done|]. by apply t_forget.
Qed.

Lemma t_Delete P busy deleteFiles : (P = cancelled \/ P = keeping \/ P = forgotten) -> stops P (Delete busy deleteFiles).
Proof.
  intros HP. unfold Delete. cbv zeta. destruct HP as [-> | [-> | ->]]; (apply t_then; [apply t_effect; auto|auto|]); intros ?.
  - apply t_cancelled_torrent. intros t id. destruct (_ || _); [stop|].
    destruct deleteFiles; [|apply t_saving_error]; apply t_delete_record; auto using t_blocked_payload.
  - apply t_keeping_torrent. intros t id ->. destruct deleteFiles; [stop|]. cbn [String.eqb Ascii.eqb Bool.eqb andb orb].
    apply t_saving_error, t_delete_record; auto. apply t_kept_payload; auto.
  - apply t_forgotten_torrent.
Qed.

Lemma t_Temporary P : (P = cancelled \/ P = keeping \/ P = forgotten) -> stops P deleteTemporaryLocked.
Proof.
  unfold deleteTemporaryLocked. intros [-> | [-> | ->]].
  - apply t_cancelled_torrent. intros t id. destruct (t_is_temporary t); [apply t_blocked_payload|stop].
  - apply t_keeping_torrent. intros t id ->. destruct (t_is_temporary t); [apply t_kept_payload; auto|stop].
  - apply t_forgotten_torrent.
Qed.

Lemma t_Retry P busy id version : (P = cancelled \/ P = keeping \/ P = forgotten) -> stops P (RetryDeletion busy id version).
Proof.
  unfold RetryDeletion. intros [-> | [-> | ->]]; (apply t_then; [apply t_effect; auto|auto|]); intros ?.
  - eapply t_bind; [eapply t_conseq; [apply (t_expected cancelled halted); [auto|]|done|intros ? w Hw; exact Hw|exact cancelled_over]|].
    { intros d r (r' & Hr' & Hh) Hr. by replace r with r' by congruence. }
    intros rec. cbv beta. apply t_pure. intros [->|[-> ->]]; stop.
  - eapply t_bind; [eapply t_conseq; [apply (t_expected keeping (fun _ => True)); auto|done|intros ? w [Hw _]; exact Hw|exact keeping_over]|].
    intros rec. cbv beta. destruct (_ || _); [stop|]. apply t_keeping_torrent. intros t record ->. destruct busy; [stop|]. cbn [String.eqb Ascii.eqb Bool.eqb negb].
    apply t_then; [apply t_effect; auto|auto|]. intros ?. apply t_then; [exact (t_read _ _ keeping_stable)|auto|]. intros ?. apply t_delete_row.
  - eapply t_bind; [eapply t_conseq; [apply (t_expected forgotten (fun _ => True)); auto|done|intros ? w [Hw _]; exact Hw|exact forgotten_over]|].
    intros rec. cbv beta. destruct (_ || _); [stop|]. apply t_forgotten_torrent.
Qed.

(** Cancelling, from any state that a request to cancel keeps. *)
Lemma t_Cancel (P : db -> Prop) id version : stable (resting P) -> (forall d d', P d -> RequestDeletionCancel d deleted id version = (Ok tt, d') -> P d') -> (forall d, cancelled d -> P d) ->
  triple (resting P) (CancelDeletion id version) (fun _ => resting cancelled) (resting P).
Proof.
  intros HP Hreq Hc. unfold CancelDeletion.
  assert (triple (resting P) (recoveryExpected id version) (fun _ => resting P) (resting P)) as Hexp.
  { eapply t_conseq; [apply (t_expected P (fun _ => True)); auto|done|intros ? w [Hw _]; exact Hw|done]. }
  eapply t_bind; [exact Hexp|]. intros ?. eapply t_bind; [apply t_transact with (Q := fun _ => resting P); [done| |done]|].
  { intros w [] d' [Hw Hd] Ho. split; (split; [by eapply Hreq|done]). }
  intros ?. eapply t_bind; [exact (t_effect _ HP)|]. intros ?. eapply t_bind; [exact Hexp|]. intros ?. eapply t_bind; [exact (t_effect _ HP)|]. intros ?.
  apply t_transact; [done| |done]. intros w [] d' [Hw Hd] Ho%complete_halts. split; (split; [|done]); [exact Ho|by apply Hc].
Qed.

Lemma over_request d id version d' : over d -> RequestDeletionCancel d deleted id version = (Ok tt, d') -> over d'.
Proof.
  intros Hd Hr. pose proof (quiet_cancel d deleted id version) as [Ht _]. rewrite Hr in Ht. cbn in Ht. destruct Hd as [Hd|[(r & Hrow & Hh)|Hd]].
  - left. unfold forgotten. by rewrite Ht.
  - right. left. destruct (cancel_halts d deleted id version r Hrow Hh) as (r' & Hr' & ?). rewrite Hr in Hr'. by exists r'.
  - right. right. unfold keeping. by rewrite Ht.
Qed.

Lemma t_Forget busy id version : stops over (ForgetRecovered busy id version).
Proof.
  unfold ForgetRecovered. apply t_then; [apply t_effect; auto|auto|]. intros ?.
  eapply t_bind; [eapply t_conseq; [apply (t_expected over (fun _ => True)); auto|done|intros ? w [Hw _]; exact Hw|auto]|]. intros rec. cbv beta.
  destruct (_ || _); [stop|]. destruct busy; [stop|]. eapply t_bind; [apply t_begin_forget; auto|]. intros ?. apply t_then; [exact (t_effect _ keeping_stable)|auto|]. intros ?. apply t_delete_row.
Qed.

Lemma t_three (m : io unit) : (forall P, (P = cancelled \/ P = keeping \/ P = forgotten) -> stops P m) -> stops over m.
Proof.
  intros Hm w [[Hw|[Hw|Hw]] Hd]; [apply (Hm forgotten); auto; by split|apply (Hm cancelled); auto; by split|apply (Hm keeping); auto; by split].
Qed.

Lemma t_run_command c : stops over (run_command c).
Proof.
  destruct c; cbn [run_command].
  - apply t_three. intros P HP. by apply t_Delete.
  - apply t_three. intros P HP. by apply t_Temporary.
  - apply t_three. intros P HP. by apply t_Retry.
  - eapply t_conseq; [apply (t_Cancel over); [done|intros d d'; apply over_request|intros d Hd; right; by left]|done|intros ? w Hw; by apply cancelled_over|done].
  - apply t_Forget.
Qed.

Lemma run_commands_rest cs : forall w, resting over w -> resting over (run_commands cs w).
Proof.
  unfold run_commands. induction cs as [|c cs IH]; intros w Hw; cbn [fold_left]; [done|]. apply IH. pose proof (t_run_command c w Hw) as Hc.
  destruct (run_command c w) as [[u|e] w']; cbn [snd]; [done|by destruct Hc].
Qed.
End Cancelled.

(** ** Theorems *)

(** C26: a cancelled deletion removes nothing any more.  When [CancelDeletion] has answered success, no sequence of
    deletion commands (a new deletion with or without the payload, the cleanup of temporary torrents, a retry,
    another cancellation, forgetting the record), with any faults and any versions, changes the files on disk. *)
Theorem cancelled_deletion_keeps_payload `{DeleteEnv} id version w w' cs : CancelDeletion id version w = (Ok tt, w') ->
  w_disk (run_commands cs w') = w_disk w.
Proof.
  intros Hc. pose proof (t_Cancel (w_disk w) (fun _ => True) id version (anything_stable _) (fun _ _ _ _ => I) (fun _ _ => I) w (conj I eq_refl)) as Ht.
  rewrite Hc in Ht. exact (proj2 (run_commands_rest (w_disk w) cs w' (cancelled_over _ _ Ht))).
Qed.

(** The deletion that a fault interrupted is cancelled; a new deletion with the payload, a retry and the cleanup leave
    the subtitles that were not yet removed, and the torrent is forgotten at the end. *)
Definition cancellation : world := snd (@CancelDeletion two_env "first-record" 1 after_interruption).
Definition later_commands : list deletion_command :=
  [CommandDelete false true; CommandRetry false "first-record" 1; CommandTemporary; CommandForget false "first-record" 1].

Lemma cancellation_succeeds : fst (@CancelDeletion two_env "first-record" 1 after_interruption) = Ok tt.
Proof. vm_compute. reflexivity. Qed.

Lemma cancelled_deletion_keeps_payload_witness :
  w_disk (@run_commands two_env later_commands cancellation) = w_disk after_interruption
  /\ torrents (w_db (@run_commands two_env later_commands cancellation)) !! first_hash = None
  /\ d_nodes (w_disk after_interruption) !! ["payload"; first_hash; "subs"; "en.srt"]%string = Some (Regular 6 [x00] 11).
Proof.
  split; [|split; vm_compute; reflexivity].
  apply (@cancelled_deletion_keeps_payload two_env "first-record" 1 after_interruption cancellation later_commands).
  unfold cancellation. rewrite <- cancellation_succeeds. apply surjective_pairing.
Defined.
